(* ===== verification/_CoqProject ===== *)
-Q . S2P
Prelude.v
Store.v
Session.v
AuditLog.v
Frames.v
AuditFacts.v
Operations.v
Contracts.v
Recipe.v
Canonical.v
Context.v
Evidence.v
Commands.v
Demo.v
Presence.v
Finality.v
GatewaySpecs.v
OperationsSpecs.v
ContextSpecs.v
Semver.v
SemverFacts.v
Updates.v
UpdatesFacts.v
UpdatesSpecs.v
PresenceSpecs.v
Registry.v
RegistrySpecs.v
Scheduler.v
SchedulerSpecs.v
EvidenceSpecs.v
Retention.v
RetentionSpecs.v
Intervals.v
IntervalsFacts.v
Json.v
JsonFacts.v
LocalMessages.v
LocalMessagesSpecs.v
Bridge.v
BridgeSpecs.v
Eligibility.v
EligibilitySpecs.v
Calendar.v
Credentials.v
Identity.v
Enrollment.v
EnrollmentRoutes.v
ServiceTokens.v
EnrollmentRequestRoutes.v
EnrollmentLedger.v
CredentialsSpecs.v
EnrollmentSpecs.v
PowerEvents.v
PowerSpool.v
PowerSpoolSpecs.v
PowerIngestion.v
PowerIngestionSpecs.v
PowerProjectionSpecs.v
PowerPipeline.v
RuntimePayload.v
RuntimePayloadSpecs.v
StagedRecord.v
DurableFiles.v
DurableFilesSpecs.v
StagedUpdate.v
StagedUpdateSpecs.v
AdminSessions.v
ProvisionedCredentials.v
History.v
AuthDemo.v
ServiceTokensSpecs.v
ProvisionedSpecs.v
AdminSessionsSpecs.v
Policy.v
Security.v
PolicySpecs.v
Compliance.v
ModuleCatalog.v
DeviceBinding.v
DeviceBindingSpecs.v
