(* ===== verification/Prelude.v ===== *)
(** * Endpoint Platform: verification development

    The Endpoint Platform manages a fleet of computers: a server (endpoint_server,
    FastAPI over a SQL database), the wire contracts it shares with its agents
    (endpoint_contracts) and the agent (pc_agent).  This development models the
    server's services and the pure algorithms of the agent and proves what makes
    them correct.

    ** How a service is modelled

    Python services are asynchronous functions over a SQLAlchemy session.  Here
    a service is a function of the state-and-error monad [M] of this file, at
    the state [World] of Session.v: the committed database, the session's
    working copy, the supply of UUIDs and the clock.  A raised exception is the
    value [Exn e], and the session operations (select, get, insert, update,
    delete, flush, commit, rollback) are those of Session.v, with the unique and
    check constraints of the schema (Store.v) checked at every flush.  A
    [datetime] is a wall clock in microseconds and an optional offset, a
    [timedelta] a number of microseconds, a [UUID] its integer.

    - Prelude.v: times, text, JSON values, exceptions, the monad with its
      weakest preconditions, sorting, [propify] and the hint databases.
    - Store.v, Session.v: the rows and tables (endpoint_server/db/models,
      context/models.py), the constraints and the unit of work (db/session.py).
    - Frames.v: two-state reasoning on services ([pres], [keeps], [frame],
      [wp_step]) and rows changed together ([updated], [selected], [batch]).

    ** The parts of the program

    - AuditLog.v (audit/redaction.py, audit/service.py): the recursive redaction
      and the appended events.  AuditFacts.v: what an event stores has neither the
      value of a sensitive key nor a bearer token in a string; paths, decimals, times
      and UUIDs are stored as their text.
    - Operations.v (operations/service.py): idempotent creation, cancellation and
      expiry.  OperationsSpecs.v: what each request does.
    - Contracts.v (endpoint_contracts): the DTOs; payload validation by pydantic
      and the text sanitizer are the operations of the class [Contracts].
    - Recipe.v (modules/recipes.py, recipe_engine.py): recipes and their plans.
    - Canonical.v (context/canonicalize.py, diff.py, events.py,
      semantic_hash.py), Context.v (context/repository.py, ingestion.py):
      collections, snapshots and current pointers.  ContextSpecs.v: collections
      are requested and ingested once, pointers move forward.
    - Evidence.v (operations/evidence.py, projection.py) and EvidenceSpecs.v: a
      row is pinned or scrubbed for good, and cleanup scrubs only expired rows.
    - Commands.v (gateway/command_service.py): delivery, acknowledgement and
      results of commands.  GatewaySpecs.v: what each request does; Finality.v:
      ended operations never change, ended steps and stored results only in a
      scrubbed payload and a missing sequence, by induction over every
      interleaving of these requests with greetings, heartbeats, disconnections
      and the cleanup; Demo.v: a run.
    - Semver.v, Updates.v (updates/service.py, admin_contracts.py,
      endpoint_contracts/updates.py): builds, rollouts, targets, acknowledgements,
      reports, rollbacks and the cancellation of a paused singleton rollout with its
      receipt; the JSON of pydantic, SHA-256 and uuid5 are the class
      [CancellationContracts].  SemverFacts.v: digits,
      the order of text and of versions; UpdatesFacts.v: targets and rollouts
      follow their state machines, one active target per device and none under an
      ended rollout, over every interleaving; UpdatesSpecs.v: each request.
    - Presence.v (gateway/presence_service.py) and PresenceSpecs.v: sessions of
      connected agents, over every interleaving.
    - Registry.v (gateway/connection_registry.py) and RegistrySpecs.v: the
      registry refines a bounded finite map.
    - Scheduler.v (context/scheduler.py) and SchedulerSpecs.v: the schedule
      leaves no gap.
    - Retention.v (context/retention.py) and RetentionSpecs.v: what retention may
      delete.
    - Intervals.v (activity/analytics_math.py) and IntervalsFacts.v: the sweep of
      the activity reports equals its declarative reading.
    - Json.v and JsonFacts.v: [json.loads] with its hooks (duplicate keys, NaN,
      recursion limit), what Python's library does; the round trip with
      [json.dumps], that twice the length of the text is fuel enough, and that a
      hook that refuses duplicates accepts what has none.
    - LocalMessages.v (pc_agent/browser_policy_protocol.py,
      enrollment_identity.py) and LocalMessagesSpecs.v: round trips, closed
      vocabularies and the exact texts that the decoders accept.  Bridge.v (browser_protocol.py, browser_bridge.py) and
      BridgeSpecs.v: what is forwarded, and that the pieces of the input do not
      matter; its fuel is the number of bytes plus one.
    - Eligibility.v (pc_agent/update_eligibility.py) and EligibilitySpecs.v: the
      agent agrees with the server.
    - RuntimePayload.v (endpoint_contracts/runtime_payload.py) and
      RuntimePayloadSpecs.v: strict manifests; a verified archive is exactly its
      manifest, and a verified tree is it besides the excluded files.
    - Calendar.v: civil dates and [datetime.isoformat]; ISO texts of moments in UTC
      are ordered as the moments, which is what the queue's TEXT columns need;
      [datetime.fromisoformat] reads back what [isoformat] wrote.
    - PowerEvents.v (endpoint_contracts/power_events.py), PowerSpool.v
      (pc_agent/power/spool.py) and PowerSpoolSpecs.v: a durable bounded queue in
      which every event is queued, delivered or counted.  JSON text columns hold
      the models; the file checks of [_prepare_file] are left out.
    - PowerIngestion.v (endpoint_server/power/ingestion.py, models.py, retention.py)
      and PowerIngestionSpecs.v; its projection (projection.py) and
      PowerProjectionSpecs.v: the answers of the server, convergence of its source
      states, and that its bounded readers show all evidence.
    - PowerPipeline.v (pc_agent/power/runtime.py) and its theorems: agent,
      server and a network that loses, repeats and reorders messages, as a step
      relation with history variables; batch identifiers of [uuid4] are fresh.
    - Credentials.v (endpoint_server/enrollment/credentials.py) and
      CredentialsSpecs.v: token digests, retry envelopes and rotation over the class
      [EnrollmentCrypto] of HMAC-SHA256, AES-GCM and [secrets].  Identity.v:
      bindings, bounded JSON and client addresses; the parsers of [ipaddress] are
      the class [IpText], text is ASCII.
    - Enrollment.v (enrollment/campaigns.py, requests.py, delivery.py),
      EnrollmentRoutes.v (agent_routes.py, admin_routes.py) and
      EnrollmentRequestRoutes.v (request_routes.py, admin_request_routes.py,
      verification_routes.py, provisioning_routes.py): the handlers with their
      sessions and commits.  Row locks have no effect in a single-session model;
      bodies are those that passed the contracts, and the columns of a request
      that only describe the computer are left out.  EnrollmentLedger.v: the
      abstract ledger, and that every handler makes one move of it;
      EnrollmentSpecs.v: what follows for campaigns, claims and requests.
    - DurableFiles.v (pc_agent/platform/windows/durable_state.py) and
      DurableFilesSpecs.v: a disk that keeps what was flushed and may lose the
      rest, on which every call may fail and the machine may stop; publication
      and removal are atomic and durable.  One process writes; a directory is
      flushed by one call.  A write takes a byte at least, so that its fuel, the
      number of bytes, is enough ([write_all_fuel]).
    - StagedRecord.v, StagedUpdate.v (pc_agent/platform/windows/
      staged_update_state.py): the journal of a staged update.
      StagedRecord.v also proves that its records round trip through JSON;
      StagedUpdateSpecs.v: the journal refines the state machine of [_NEXT]
      through failures and crashes, and finished updates are archived first.
    - ServiceTokens.v (auth/service_tokens.py, scopes.py), AdminSessions.v
      (admin_sessions.py, csrf.py, passwords.py, bootstrap_admin.py) and
      ProvisionedCredentials.v (provision_helpdesk_*_credential.py, provisioning/):
      credentials, sessions and the command lines that make them, on a host with
      files whose calls may fail.  History.v: what every transaction keeps, and savepoints;
      AuthDemo.v: concrete parameters for the witnesses.  ServiceTokensSpecs.v,
      AdminSessionsSpecs.v, ProvisionedSpecs.v: who is let through, exactly, and
      what any history of requests keeps.
    - DeviceBinding.v (device_binding/, updates/agent_routes.py) and DeviceBindingSpecs.v: requests of devices,
      codes that prove possession of a device and the budgets of attempts.
    - Policy.v (endpoint_server/policy/service.py, delivery.py, admin_routes.py
      and its two messages in gateway/ws_routes.py), Security.v
      (security/ingestion.py, retention.py, endpoint_contracts/
      security_events.py) and PolicySpecs.v: policies, their versions and
      assignments, what a device is sent and acknowledges, and the security
      events of its sensors, over every history of those requests.
    - Compliance.v (policy/browser_status.py, sensor_health.py, compliance.py,
      device_compliance.py, gateway/telemetry.py): the reports of a device and
      the answer derived from them, which is never better than the evidence.
    - ModuleCatalog.v (modules/lifecycle.py, service.py, routes.py): versions of
      modules from draft to deprecation, over every history of the requests.

    ** How the parts interact

    Services share the database: a command belongs to a collection (Context.v)
    or to a module step (Store.v), a result is ingested by [ingest_context_result]
    inside the transaction of [record_result], an operation's evidence is created
    there and scrubbed by the cleanups.  Transactions are composed as the code
    composes them; theorems over interleavings (Finality.v, UpdatesFacts.v,
    PresenceSpecs.v, EvidenceSpecs.v) close a step relation with one rule per
    request and one for work elsewhere.

    ** Bounds and fuel

    Loops of the code over a result set are structural recursions over the list.
    Retention limits, cleanup limits and capacities are the code's own.  Where a
    loop is not structural its fuel is an argument and a theorem says how much
    is enough.

    ** Not modelled

    Foreign keys, row locks and the interleaving inside one transaction (a
    transaction is atomic); the moment of SQLAlchemy's autoflush; UUIDs given as
    text; the bound on the size of an evidence payload, which the database
    measures on its own rendering of JSON; case folding outside ASCII; cyclic audit details; parsing of IP
    addresses (an argument); [uuid4] is a supply of increasing numbers, so a
    theorem that needs new ids to be unused assumes [fresh].  The
    routes that are not named above and the parts of the agent that call the
    operating system are left out: they are I/O around these services.  Text is a list of characters below 256: bytes above 127 in UTF-8
    and escapes above that are outside the model of the JSON reader.  SHA-256, the
    ZIP format and pydantic's validation are parameters. *)

From stdpp Require Export base option list sorting strings gmap.
From Stdlib Require Export ZArith Lia SpecFloat.

#[global] Open Scope string_scope.
#[global] Open Scope list_scope.
#[global] Open Scope Z_scope.

(** ** Identifiers and text *)

(** A Python [UUID], by its 128-bit integer value ([UUID.int]). *)
Abbreviation uuid := Z (only parsing).

Definition hex_digit (d : Z) : Ascii.ascii :=
  Ascii.ascii_of_nat (Z.to_nat (if d <? 10 then 48 + d else 87 + d)).

(** The lowest [n] hexadecimal digits of [z], most significant first, in
    front of [acc]. *)
Fixpoint hex_digits (n : nat) (z : Z) (acc : string) : string :=
  match n with
  | O => acc
  | S n' => hex_digits n' (z / 16) (String (hex_digit (z mod 16)) acc)
  end.

(** [UUID.hex]: 32 lower-case hexadecimal digits. *)
Definition uuid_hex (u : uuid) : string := hex_digits 32 u "".

(** [str(UUID)]: the 8-4-4-4-12 form. *)
Definition uuid_str (u : uuid) : string :=
  let h := uuid_hex u in
  String.concat "-" [String.substring 0 8 h; String.substring 8 4 h;
                     String.substring 12 4 h; String.substring 16 4 h;
                     String.substring 20 12 h].

(** [value.startswith(prefix)] *)
Definition startswith (prefix value : string) : bool := String.prefix prefix value.

(** [value in (...)] for a tuple or set of strings. *)
Definition str_in (s : string) (l : list string) : bool := bool_decide (s ∈ l).

(** [value is None], [value is not None] *)
Definition is_none {A} (o : option A) : bool := match o with None => true | Some _ => false end.
Definition is_some {A} (o : option A) : bool := negb (is_none o).

(** [a or b] on optional values whose [Some] is truthy. *)
Definition or_else {A} (a b : option A) : option A := match a with Some _ => a | None => b end.

(** ** Time

    A Python [datetime]: wall-clock microseconds and, for an aware value, its
    offset from UTC in microseconds.  A [timedelta] is a number of
    microseconds. *)

Record datetime := Datetime { dt_wall : Z; dt_offset : option Z }.

Abbreviation timedelta := Z (only parsing).

Definition seconds (n : Z) : timedelta := n * 1000000.
Definition minutes (n : Z) : timedelta := seconds (60 * n).
Definition hours (n : Z) : timedelta := minutes (60 * n).
Definition days (n : Z) : timedelta := hours (24 * n).

(** The instant a value denotes; a naive value is read as UTC. *)
Definition instant (d : datetime) : Z := dt_wall d - default 0 (dt_offset d).

Definition utc_datetime (us : Z) : datetime := Datetime us (Some 0).

(** [value.replace(tzinfo=UTC) if value.tzinfo is None else value.astimezone(UTC)] *)
Definition as_utc (d : datetime) : datetime := utc_datetime (instant d).

Definition is_aware (d : datetime) : bool :=
  match dt_offset d with Some _ => true | None => false end.

Definition dt_add (d : datetime) (delta : timedelta) : datetime :=
  Datetime (dt_wall d + delta) (dt_offset d).

Definition dt_ltb (a b : datetime) : bool := instant a <? instant b.
Definition dt_leb (a b : datetime) : bool := instant a <=? instant b.
Definition dt_eqb (a b : datetime) : bool := instant a =? instant b.

#[export] Instance datetime_eq_dec : EqDecision datetime.
Proof. solve_decision. Defined.

Lemma instant_as_utc d : instant (as_utc d) = instant d.
Proof. unfold instant at 1; simpl. lia. Qed.

Lemma as_utc_idem d : as_utc (as_utc d) = as_utc d.
Proof. unfold as_utc at 1. by rewrite instant_as_utc. Qed.

Lemma as_utc_aware d : is_aware (as_utc d) = true.
Proof. done. Qed.

Lemma instant_dt_add d delta : instant (dt_add d delta) = instant d + delta.
Proof. unfold instant; simpl. lia. Qed.

(** ** JSON values *)

#[warnings="-register-all"]
Inductive json :=
| JNull
| JBool (b : bool)
| JInt (n : Z)
| JFloat (x : spec_float)
| JStr (s : string)
| JList (items : list json)
| JObj (entries : list (string * json)).

(** [mapping.get(key)] on an association list, first match. *)
Fixpoint assoc {V : Type} (key : string) (entries : list (string * V)) : option V :=
  match entries with
  | [] => None
  | (k, v) :: rest => if decide (k = key) then Some v else assoc key rest
  end.

(** [{**entries, key: value}]: overwrite in place, or append. *)
Fixpoint assoc_set {V : Type} (key : string) (value : V)
    (entries : list (string * V)) : list (string * V) :=
  match entries with
  | [] => [(key, value)]
  | (k, v) :: rest =>
      if decide (k = key) then (k, value) :: rest
      else (k, v) :: assoc_set key value rest
  end.

Lemma assoc_set_eq {V} key (value : V) entries :
  assoc key (assoc_set key value entries) = Some value.
Proof.
  induction entries as [|[k v] rest IH]; simpl; [by rewrite decide_True|].
  destruct (decide (k = key)) as [->|Hne]; simpl.
  - by rewrite decide_True.
  - by rewrite decide_False.
Qed.

Lemma assoc_set_ne {V} key key' (value : V) entries :
  key ≠ key' → assoc key' (assoc_set key value entries) = assoc key' entries.
Proof.
  intros Hne. induction entries as [|[k v] rest IH]; simpl.
  - by rewrite decide_False.
  - destruct (decide (k = key)) as [->|Hk]; simpl; [by rewrite !decide_False|].
    by destruct (decide (k = key')).
Qed.

(** [n == x] for an integer and a float, exactly. *)
Definition int_float_eqb (n : Z) (x : spec_float) : bool :=
  match x with
  | S754_zero _ => n =? 0
  | S754_finite s m e =>
      let mag := if s then - n else n in
      if 0 <=? e then mag =? Z.pos m * 2 ^ e else mag * 2 ^ (- e) =? Z.pos m
  | _ => false
  end.

(** Python's [==] on decoded JSON: [True == 1], and the entries of an object
    are compared without their order. *)
Fixpoint json_eqb (a b : json) {struct a} : bool :=
  match a, b with
  | JNull, JNull => true
  | JBool x, JBool y => Bool.eqb x y
  | JBool x, JInt n | JInt n, JBool x => Z.b2z x =? n
  | JInt x, JInt y => x =? y
  | JFloat x, JFloat y => SFeqb x y
  | JFloat x, JInt n | JInt n, JFloat x => int_float_eqb n x
  | JFloat x, JBool c | JBool c, JFloat x => int_float_eqb (Z.b2z c) x
  | JStr x, JStr y => bool_decide (x = y)
  | JList xs, JList ys =>
      (fix go (xs ys : list json) : bool :=
         match xs, ys with
         | [], [] => true
         | x :: xs', y :: ys' => json_eqb x y && go xs' ys'
         | _, _ => false
         end) xs ys
  | JObj es, JObj fs =>
      (length es =? length fs)%nat &&
      (fix go (es : list (string * json)) : bool :=
         match es with
         | [] => true
         | (k, v) :: es' =>
             match assoc k fs with Some w => json_eqb v w | None => false end
             && go es'
         end) es
  | _, _ => false
  end.

(** ** Exceptions

    The exception classes the modelled code raises, with their messages.
    [PowerLoss] is no exception of the program: the machine stops. *)

Inductive exn :=
| CommandStateRejected (message : string)
| ContextConflict (message : string)
| ContextNotFound (message : string)
| ContextValidationError (message : string)
| OperationConflict (message code : string)
| OperationNotFound (message code : string)
| OperationValidationError (message : string)
| EvidenceConflict (message : string)
| UpdateConflict (message : string)
| UpdateNotFound (message : string)
| UpdateStateError (message : string)
| UpdateValidationError (message : string)
| PresenceRejected (message : string)
| RegistryCapacityExceeded (message : string)
| RecipeValidationError (code : string)
| RecipeExecutionError (message : string)
| ValidationError (model : string)
| IntegrityError (constraint : string)
| ValueError (message : string)
| TypeError (message : string)
| KeyError (key : string)
| IndexError (message : string)
| RecursionError (message : string)
| AttributeError (name : string)
| OSError (message : string)
| FileNotFoundError (path : string)
| PowerLoss
| RuntimeError (message : string)
| BadZipFile (message : string)
| UpdateInProgress (message : string)
| PowerEventSpoolError (message : string)
| PowerEventRejected (code : string)
| ModuleServiceError (message : string)
| ModuleLifecycleError
| ChallengeUnavailable (expired : option (Z * Z))
| ChallengeThrottled
| SecurityEventRejected (message : string)
| PolicyNotFound (message : string)
| PolicyAcknowledgementRejected (message : string)
| BrowserStatusRejected (message : string)
| SensorHealthRejected (message : string)
| EnrollmentDenied (message : string)
| RequestTransitionError (message : string)
| ExpiredEnrollmentDelivery (envelope_id observed_at : Z)
| HTTPException (status_code : Z) (detail : string)
| PayloadConflict
| BrowserPolicyRequestError (message : string)
| BrowserProtocolError (code : string)
| EnrollmentIdentityError (message : string)
| InvalidModuleCursor
| CatalogDeviceNotFound
(** A value this development does not represent. *)
| OutsideModel (what : string).

#[export] Instance exn_eq_dec : EqDecision exn.
Proof. solve_decision. Defined.

(** [isinstance(error, ContextError)] *)
Definition is_context_error (e : exn) : bool :=
  match e with
  | ContextConflict _ | ContextNotFound _ | ContextValidationError _ => true
  | _ => false
  end.

(** [isinstance(error, ValueError)]: the classes that derive from it. *)
Definition is_value_error (e : exn) : bool :=
  match e with
  | CommandStateRejected _ | PresenceRejected _ | EvidenceConflict _
  | RecipeValidationError _ | RecipeExecutionError _ | ValidationError _
  | PayloadConflict | BrowserPolicyRequestError _ | BrowserProtocolError _
  | EnrollmentIdentityError _ | InvalidModuleCursor | CatalogDeviceNotFound
  | PowerEventRejected _ | ModuleServiceError _ | ModuleLifecycleError
  | RequestTransitionError _ | SecurityEventRejected _ | PolicyNotFound _
  | PolicyAcknowledgementRejected _ | BrowserStatusRejected _ | SensorHealthRejected _
  | ValueError _ => true
  | _ => false
  end.

(** ** The state and exception monad

    A computation leaves a state behind whether it returns or raises: what an
    exception undoes is decided by the code ([rollback]), not by the monad. *)

Inductive res (A : Type) := Ok (a : A) | Exn (e : exn).
Arguments Ok {A} a.
Arguments Exn {A} e.

Definition M (S A : Type) : Type := S → res A * S.

#[export] Instance M_ret {S} : MRet (M S) := λ A a s, (Ok a, s).

#[export] Instance M_bind {S} : MBind (M S) := λ A B k m s,
  match m s with
  | (Ok a, s') => k a s'
  | (Exn e, s') => (Exn e, s')
  end.

Definition raise {S A} (e : exn) : M S A := λ s, (Exn e, s).

Definition raise_if {S} (c : bool) (e : exn) : M S unit :=
  if c then raise e else mret tt.

(** [if c: body] *)
Definition when {S} (c : bool) (body : M S unit) : M S unit :=
  if c then body else mret tt.

(** The value of an [Optional] that the code has just tested with [is None]. *)
Definition require {S A} (o : option A) (e : exn) : M S A :=
  match o with Some a => mret a | None => raise e end.

(** [try: body except error if handles: ...] *)
Definition try_except {S A} (body : M S A) (handler : exn → option (M S A)) : M S A :=
  λ s, match body s with
       | (Exn e, s') => match handler e with Some h => h s' | None => (Exn e, s') end
       | r => r
       end.

(** [for x in l: body(x)] *)
Fixpoint for_each {S A} (l : list A) (body : A → M S unit) : M S unit :=
  match l with
  | [] => mret tt
  | x :: rest => body x ;; for_each rest body
  end.

(** [for x in l: ...] whose body may [return] a value; [None] is [continue]. *)
Fixpoint for_return {S A B} (l : list A) (body : A → M S (option B)) : M S (option B) :=
  match l with
  | [] => mret None
  | x :: rest =>
      r ← body x;
      match r with
      | Some b => mret (Some b)
      | None => for_return rest body
      end
  end.

(** ** Weakest preconditions *)

Definition wp {S A} (m : M S A) (Q : res A → S → Prop) (s : S) : Prop :=
  Q (m s).1 (m s).2.

(** What follows a computation: a returned value goes on, an exception ends. *)
Definition wp_k {S A B} (k : A → M S B) (Q : res B → S → Prop) : res A → S → Prop :=
  λ r s, match r with Ok a => wp (k a) Q s | Exn e => Q (Exn e) s end.

Section wp.
Context {S : Type}.
Implicit Types (s : S).

Lemma wp_ret {A} (a : A) (Q : res A → S → Prop) s : Q (Ok a) s → wp (mret a) Q s.
Proof. done. Qed.

Lemma wp_raise {A} e (Q : res A → S → Prop) s : Q (Exn e) s → wp (raise e) Q s.
Proof. done. Qed.

Lemma wp_bind {A B} (m : M S A) (k : A → M S B) (Q : res B → S → Prop) s :
  wp m (wp_k k Q) s → wp (m ≫= k) Q s.
Proof.
  unfold wp, wp_k, mbind, M_bind. destruct (m s) as [[a|e] s']; done.
Qed.

Lemma wp_mono {A} (m : M S A) (P Q : res A → S → Prop) s :
  wp m P s → (∀ r s', P r s' → Q r s') → wp m Q s.
Proof. unfold wp. auto. Qed.

(** Use a specification of [m] and go on with what it guarantees. *)
Lemma wp_use {A B} (m : M S A) (k : A → M S B) (P : res A → S → Prop) (Q : res B → S → Prop) s :
  wp m P s →
  (∀ a s', P (Ok a) s' → wp (k a) Q s') →
  (∀ e s', P (Exn e) s' → Q (Exn e) s') →
  wp (m ≫= k) Q s.
Proof.
  intros Hm Hok Hexn. apply wp_bind. apply (wp_mono _ P); [done|].
  intros [a|e] s'; simpl; auto.
Qed.

Lemma wp_raise_if c e (Q : res unit → S → Prop) s :
  (c = true → Q (Exn e) s) → (c = false → Q (Ok tt) s) → wp (raise_if c e) Q s.
Proof. destruct c; unfold wp; simpl; auto. Qed.

Lemma wp_when c (m : M S unit) (Q : res unit → S → Prop) s :
  (c = true → wp m Q s) → (c = false → Q (Ok tt) s) → wp (when c m) Q s.
Proof. destruct c; simpl; [auto|]. intros _ H. by apply H. Qed.

Lemma wp_require {A} (o : option A) e (Q : res A → S → Prop) s :
  (∀ a, o = Some a → Q (Ok a) s) → (o = None → Q (Exn e) s) → wp (require o e) Q s.
Proof. destruct o; unfold wp; simpl; auto. Qed.

Lemma wp_try {A} (m : M S A) h (Q : res A → S → Prop) s :
  wp m (λ r s', match r with
                | Ok a => Q (Ok a) s'
                | Exn e => match h e with Some m' => wp m' Q s' | None => Q (Exn e) s' end
                end) s →
  wp (try_except m h) Q s.
Proof.
  unfold wp, try_except. destruct (m s) as [[a|e] s']; simpl; [done|].
  by destruct (h e).
Qed.

(** A loop preserves what each iteration preserves. *)
Lemma wp_for_each {A} (l : list A) (body : A → M S unit) (I : S → Prop) (E : exn → S → Prop) s :
  I s →
  (∀ x s', x ∈ l → I s' →
     wp (body x) (λ r s'', match r with Ok _ => I s'' | Exn e => E e s'' end) s') →
  wp (for_each l body) (λ r s', match r with Ok _ => I s' | Exn e => E e s' end) s.
Proof.
  revert s. induction l as [|x l IH]; intros s HI Hbody; simpl; [done|].
  apply wp_bind. eapply wp_mono; [apply Hbody; [left|done]|].
  intros [[]|e] s'; simpl; [|done]. intros HI'. apply IH; [done|].
  intros y s'' Hy. apply Hbody. by right.
Qed.

Lemma wp_for_return {A B} (l : list A) (body : A → M S (option B)) (I : S → Prop)
    (Q : res (option B) → S → Prop) s :
  I s →
  (∀ x s', x ∈ l → I s' →
     wp (body x) (λ r s'', match r with Ok None => I s'' | r => Q r s'' end) s') →
  (∀ s', I s' → Q (Ok None) s') →
  wp (for_return l body) Q s.
Proof.
  revert s. induction l as [|x l IH]; intros s HI Hbody Hend; simpl; [by apply Hend|].
  apply wp_bind. eapply wp_mono; [apply Hbody; [left|done]|].
  intros [[b|]|e] s'; simpl; [done| |done]. intros HI'. apply IH; [done| |done].
  intros y s'' Hy. apply Hbody. by right.
Qed.
End wp.

(** From a weakest precondition to a statement about a run, and back. *)
Lemma wp_run {S A} (m : M S A) (Q : res A → S → Prop) s r s' :
  wp m Q s → m s = (r, s') → Q r s'.
Proof. unfold wp. intros H E. by rewrite E in H. Qed.

Lemma wp_unfold {S A} (m : M S A) (Q : res A → S → Prop) s :
  wp m Q s ↔ Q (m s).1 (m s).2.
Proof. done. Qed.

#[global] Opaque wp.

(** ** Record update

    [r <| f := v |>] rebuilds the record [r] with field [f] replaced; a record
    type declares its fields once, by an [Eta] instance. *)

Class Eta (R : Type) := eta : R → R.

Class Setter {R T : Type} (proj : R → T) := set_field : T → R → R.
#[global] Arguments set_field {R T} proj {_} v r.

Ltac build_setter R T f :=
  exact (fun (v : T) (r : R) => ltac:(
    let e := eval hnf in (eta r) in
    let e := eval pattern (f r) in e in
    match e with ?g _ => let b := eval cbv beta in (g v) in exact b end)).

#[export] Hint Extern 0 (@Setter ?R ?T ?f) => build_setter R T f : typeclass_instances.

#[warnings="-postfix-notation-not-level-1"]
Notation "r <| proj := v |>" := (set_field proj v r)
  (at level 12, left associativity, proj at level 11, v at level 200,
   format "r  <| proj  :=  v |>").

(** ** Lists of rows *)

(** [ORDER BY]: a sort by a boolean comparison. *)
Definition bool_rel {A} (leb : A → A → bool) : relation A := λ x y, leb x y = true.

#[export] Instance bool_rel_dec {A} (leb : A → A → bool) : RelDecision (bool_rel leb).
Proof. intros x y. unfold bool_rel. apply _. Defined.

Definition order_by {A} (leb : A → A → bool) (l : list A) : list A :=
  merge_sort (bool_rel leb) l.

Lemma order_by_Permutation {A} (leb : A → A → bool) l : order_by leb l ≡ₚ l.
Proof. apply merge_sort_Permutation. Qed.

Lemma elem_of_order_by {A} (leb : A → A → bool) x l : x ∈ order_by leb l ↔ x ∈ l.
Proof. by rewrite order_by_Permutation. Qed.

Lemma StronglySorted_impl {A} (R R' : relation A) l :
  (∀ a b, R a b → R' a b) → StronglySorted R l → StronglySorted R' l.
Proof.
  intros HR. induction 1 as [|a l Hs IH Hall]; constructor; [done|].
  eapply Forall_impl; [exact Hall|]. auto.
Qed.

Lemma order_by_sorted {A} (leb : A → A → bool) l :
  (∀ a b c, leb a b = true → leb b c = true → leb a c = true) →
  (∀ a b, leb a b = true ∨ leb b a = true) →
  StronglySorted (bool_rel leb) (order_by leb l).
Proof.
  intros Htr Htot. apply StronglySorted_merge_sort; [intros a b c; apply Htr|intros a b; apply Htot].
Qed.

(** The first row in an order precedes every row. *)
Lemma order_by_head {A} (leb : A → A → bool) l x y :
  (∀ a b c, leb a b = true → leb b c = true → leb a c = true) →
  (∀ a b, leb a b = true ∨ leb b a = true) →
  head (order_by leb l) = Some x → y ∈ l → leb x y = true.
Proof.
  intros Htr Htot Hx Hy. rewrite <- (elem_of_order_by leb) in Hy.
  pose proof (order_by_sorted leb l Htr Htot) as Hs.
  destruct (order_by leb l) as [|z k]; [done|]. injection Hx as ->.
  apply StronglySorted_inv in Hs as [_ Hall].
  apply elem_of_cons in Hy as [->|Hy]; [by destruct (Htot x x)|].
  rewrite Forall_forall in Hall. by apply Hall.
Qed.

(** The rows below [x] in a list sorted by distinct keys from [b] on are among
    the first [key x - b]. *)
Lemma sorted_below {A} (key : A → Z) (l : list A) b x y :
  StronglySorted (λ a c, key a <= key c) l → NoDup (key <$> l) →
  (∀ z, z ∈ l → b <= key z) → x ∈ l → y ∈ l → key y < key x →
  y ∈ take (Z.to_nat (key x - b)) l.
Proof.
  revert b. induction l as [|a l IH]; intros b Hs Hnd Hb Hx Hy Hlt; [by apply elem_of_nil in Hx|].
  apply StronglySorted_inv in Hs as [Hs Hall]. rewrite Forall_forall in Hall.
  apply NoDup_cons in Hnd as [Ha Hnd].
  assert (∀ z, z ∈ l → key a < key z) as Hgt.
  { intros z Hz. specialize (Hall z Hz). simpl in Hall. destruct (decide (key a = key z)); [|lia].
    destruct Ha. apply list_elem_of_fmap. by exists z. }
  assert (b <= key a) by (apply Hb; left).
  apply elem_of_cons in Hx as [->|Hx].
  { apply elem_of_cons in Hy as [->|Hy]; [lia|]. specialize (Hgt y Hy). lia. }
  specialize (Hgt x Hx) as Hax.
  replace (Z.to_nat (key x - b)) with (S (Z.to_nat (key x - (b + 1)))) by lia. simpl.
  apply elem_of_cons in Hy as [->|Hy]; [left|right].
  apply IH; [done..| |done|done|done]. intros z Hz. specialize (Hgt z Hz). lia.
Qed.

Lemma elem_of_filter_bool {A} (P : A → bool) x l :
  x ∈ List.filter P l ↔ x ∈ l ∧ P x = true.
Proof. rewrite !list_elem_of_In. apply List.filter_In. Qed.

Lemma existsb_false {A} (f : A → bool) l x : existsb f l = false → x ∈ l → f x = false.
Proof.
  intros Hf Hx. destruct (f x) eqn:E; [|done]. apply not_true_iff_false in Hf. destruct Hf.
  apply existsb_exists. exists x. split; [by apply list_elem_of_In|done].
Qed.

Lemma NoDup_filter_bool {A B} (f : A → B) (P : A → bool) l :
  NoDup (f <$> l) → NoDup (f <$> List.filter P l).
Proof.
  induction l as [|x l IH]; simpl; [done|]. intros [Hx Hl]%NoDup_cons.
  destruct (P x); simpl; [|by apply IH]. apply NoDup_cons. split; [|by apply IH].
  intros (y & Hxy & [Hy _]%elem_of_filter_bool)%list_elem_of_fmap.
  apply Hx, list_elem_of_fmap. eauto.
Qed.

Lemma head_Some_elem_of {A} (l : list A) x : head l = Some x → x ∈ l.
Proof. destruct l; simpl; [done|]. intros [= ->]. left. Qed.

(** An update of a stored row writes the new row. *)
Lemma alter_stored {V} (f : V → V) i x (m : gmap uuid V) :
  m !! i = Some x → alter f i m = <[i := f x]> m.
Proof.
  intros Hi. apply map_eq. intros j. destruct (decide (j = i)) as [->|Hne].
  - by rewrite lookup_alter_eq, lookup_insert_eq, Hi.
  - by rewrite lookup_alter_ne, lookup_insert_ne.
Qed.

(** A row read after an update comes from a row of the table. *)
Lemma lookup_alter_cases {V} (f : V → V) i j v (m : gmap uuid V) :
  alter f i m !! j = Some v → ∃ v', (v = f v' ∨ v = v') ∧ m !! j = Some v'.
Proof.
  destruct (decide (i = j)) as [->|Hne]; [rewrite lookup_alter_eq|rewrite lookup_alter_ne by done].
  - intros (v' & -> & Hv)%fmap_Some_1. eauto.
  - eauto.
Qed.

(** Every row of a table has a later row related to it. *)
Definition rows_kept {V} (R : V → V → Prop) (m m' : gmap uuid V) : Prop :=
  ∀ id v, m !! id = Some v → ∃ v', m' !! id = Some v' ∧ R v v'.

Lemma rows_kept_refl {V} (R : V → V → Prop) (m : gmap uuid V) : (∀ v, R v v) → rows_kept R m m.
Proof. intros HR id v Hv. eauto. Qed.

Lemma rows_kept_trans {V} (R : V → V → Prop) (m1 m2 m3 : gmap uuid V) :
  (∀ x y z, R x y → R y z → R x z) → rows_kept R m1 m2 → rows_kept R m2 m3 → rows_kept R m1 m3.
Proof.
  intros HR H12 H23 id v Hv. destruct (H12 id v Hv) as (v2 & H2 & K2).
  destruct (H23 id v2 H2) as (v3 & H3 & K3). eauto.
Qed.

(** One row changed within the relation, or a new row added. *)
Lemma rows_kept_alter {V} (R : V → V → Prop) id (f : V → V) (m : gmap uuid V) :
  (∀ v, R v v) → (∀ v, m !! id = Some v → R v (f v)) → rows_kept R m (alter f id m).
Proof.
  intros HR Hf j v Hv. destruct (decide (id = j)) as [<-|Hne].
  - exists (f v). rewrite lookup_alter_eq, Hv. split; [done|by apply Hf].
  - exists v. by rewrite lookup_alter_ne.
Qed.

Lemma rows_kept_insert {V} (R : V → V → Prop) id (v : V) (m : gmap uuid V) :
  (∀ v, R v v) → m !! id = None → rows_kept R m (<[id := v]> m).
Proof. intros HR Hid j u Hu. exists u. rewrite lookup_insert_ne; [done|congruence]. Qed.

Lemma rows_kept_subseteq {V} (R : V → V → Prop) (m m' : gmap uuid V) :
  (∀ v, R v v) → m ⊆ m' → rows_kept R m m'.
Proof. intros HR Hm id v Hv. exists v. split; [by eapply lookup_weaken|done]. Qed.

(** Lexicographic [ORDER BY a, b] on integer keys. *)
Definition lex_leb (a b : Z * Z) : bool :=
  (a.1 <? b.1) || ((a.1 =? b.1) && (a.2 <=? b.2)).

Lemma lex_leb_trans a b c : lex_leb a b = true → lex_leb b c = true → lex_leb a c = true.
Proof. unfold lex_leb. destruct a, b, c; simpl. intros ? ?. lia. Qed.

Lemma lex_leb_total a b : lex_leb a b = true ∨ lex_leb b a = true.
Proof. unfold lex_leb. destruct a, b; simpl. lia. Qed.

(** ** Automation *)

Create HintDb platform.

(** Boolean conditions of the code as propositions. *)
Ltac propify :=
  repeat match goal with
  | H : (_ && _) = true |- _ => apply andb_prop in H; destruct H
  | H : (_ || _) = false |- _ => apply orb_false_elim in H; destruct H
  | H : negb _ = true |- _ => apply negb_true_iff in H
  | H : negb _ = false |- _ => apply negb_false_iff in H
  | H : bool_decide _ = true |- _ => apply bool_decide_eq_true in H
  | H : bool_decide _ = false |- _ => apply bool_decide_eq_false in H
  | H : (_ <? _) = true |- _ => apply Z.ltb_lt in H
  | H : (_ <? _) = false |- _ => apply Z.ltb_ge in H
  | H : (_ <=? _) = true |- _ => apply Z.leb_le in H
  | H : (_ <=? _) = false |- _ => apply Z.leb_gt in H
  | H : (_ =? _) = true |- _ => apply Z.eqb_eq in H
  | H : (_ =? _) = false |- _ => apply Z.eqb_neq in H
  end.
