(* ===== verification/Store.v ===== *)
(** * The database of the Endpoint server

    The rows of the ORM models (endpoint_server/db/models/*.py,
    endpoint_server/context/models.py) that the modelled services read or
    write, the tables they live in, the session an operation works on, and
    the constraints a flush checks.  A row's primary key is its key in the
    table, so it is not a field; an [OwnershipRecord.created_at] that no
    modelled code reads is left out. *)

From S2P Require Import Prelude.

(** ** Status values *)

(** ENDPOINT_OPERATION_STATUSES, MODULE_OPERATION_STEP_STATUSES and
    CommandStatusV1: one vocabulary for operations, steps, commands,
    deliveries and results. *)
Inductive command_status :=
| queued | delivered | acknowledged | running
| succeeded | failed | canceled | expired.

(** CONTEXT_COLLECTION_STATUSES *)
Inductive collection_status :=
| c_requested | c_queued | c_delivered | c_collecting | c_result_received
| c_validated | c_completed | c_failed | c_expired.

Inductive rollout_mode := m_canary | m_bulk | m_rollback.

Inductive rollout_status := r_draft | r_active | r_paused | r_completed | r_cancelled.

Inductive target_status :=
| t_assigned | t_requested | t_scheduled
| t_applied | t_failed | t_rolled_back | t_cancelled.

(** The statuses of an enrollment request (enrollment/requests.py) *)
Inductive request_status :=
| e_created | e_validating | e_auto_approved | e_waiting_approval | e_review_required | e_approved
| e_claim_issued | e_enrolling | e_device_registered | e_waiting_wss | e_completed
| e_denied | e_expired | e_failed | e_cancelled.

(** The statuses of a binding challenge and of a device's policy *)
Inductive challenge_status := b_active | b_redeemed | b_expired | b_revoked.
Inductive policy_status := p_pending | p_applied | p_stale | p_unsupported | p_error.

#[export] Instance command_status_eq_dec : EqDecision command_status.
Proof. solve_decision. Defined.
#[export] Instance collection_status_eq_dec : EqDecision collection_status.
Proof. solve_decision. Defined.
#[export] Instance rollout_mode_eq_dec : EqDecision rollout_mode.
Proof. solve_decision. Defined.
#[export] Instance rollout_status_eq_dec : EqDecision rollout_status.
Proof. solve_decision. Defined.
#[export] Instance target_status_eq_dec : EqDecision target_status.
Proof. solve_decision. Defined.

#[export] Instance request_status_eq_dec : EqDecision request_status.
Proof. solve_decision. Defined.

#[export] Instance challenge_status_eq_dec : EqDecision challenge_status.
Proof. solve_decision. Defined.
#[export] Instance policy_status_eq_dec : EqDecision policy_status.
Proof. solve_decision. Defined.

(** [status in {...}] *)
Definition in_set {A} `{EqDecision A} (x : A) (l : list A) : bool := bool_decide (x ∈ l).

(** [_TERMINAL_STATUSES]: succeeded, failed, canceled, expired. *)
Definition terminal (s : command_status) : bool :=
  in_set s [succeeded; failed; canceled; expired].

(** The statuses in which a delivered command still accepts an
    acknowledgement or a result. *)
Definition in_flight (s : command_status) : bool :=
  in_set s [delivered; acknowledged; running].

Definition status_str (s : command_status) : string :=
  match s with
  | queued => "queued" | delivered => "delivered" | acknowledged => "acknowledged"
  | running => "running" | succeeded => "succeeded" | failed => "failed"
  | canceled => "canceled" | expired => "expired"
  end.

(** ** Rows *)

Record Command := {
  cmd_command_identifier : string;
  cmd_created_at : datetime;
  cmd_device_id : uuid;
  cmd_command_kind : string;
  cmd_status : command_status;
  cmd_expires_at : option datetime
}.
#[export] Instance Command_eta : Eta Command := λ r,
  Build_Command
    (cmd_command_identifier r) (cmd_created_at r) (cmd_device_id r)
    (cmd_command_kind r) (cmd_status r) (cmd_expires_at r).

Record CommandDelivery := {
  dlv_command_id : uuid;
  dlv_device_session_id : option uuid;
  dlv_delivery_identifier : string;
  dlv_status : command_status;
  dlv_acknowledged_at : option datetime
}.
#[export] Instance CommandDelivery_eta : Eta CommandDelivery := λ r,
  Build_CommandDelivery
    (dlv_command_id r) (dlv_device_session_id r) (dlv_delivery_identifier r)
    (dlv_status r) (dlv_acknowledged_at r).

Record CommandResult := {
  res_command_id : uuid;
  res_delivery_id : option uuid;
  res_result_identifier : string;
  res_status : command_status;
  res_completed_at : option datetime;
  res_result_sequence : option Z;
  res_result_payload_digest : option string
}.
#[export] Instance CommandResult_eta : Eta CommandResult := λ r,
  Build_CommandResult
    (res_command_id r) (res_delivery_id r) (res_result_identifier r)
    (res_status r) (res_completed_at r) (res_result_sequence r)
    (res_result_payload_digest r).

Record EndpointOperation := {
  op_created_at : datetime;
  op_requested_by_service_client_id : uuid;
  op_device_id : uuid;
  op_idempotency_key : string;
  op_capability : string;
  op_parameters : json;
  op_correlation : option json;
  op_status : command_status;
  op_deadline_at : datetime;
  op_completed_at : option datetime;
  op_error_code : option string;
  op_context_collection_id : option uuid;
  op_command_id : option uuid;
  op_module_version_id : option uuid;
  op_module_inputs : option (list (string * json));
  op_expected_step_count : option Z
}.
#[export] Instance EndpointOperation_eta : Eta EndpointOperation := λ r,
  Build_EndpointOperation
    (op_created_at r) (op_requested_by_service_client_id r) (op_device_id r)
    (op_idempotency_key r) (op_capability r) (op_parameters r)
    (op_correlation r) (op_status r) (op_deadline_at r) (op_completed_at r)
    (op_error_code r) (op_context_collection_id r) (op_command_id r)
    (op_module_version_id r) (op_module_inputs r) (op_expected_step_count r).

Record ModuleOperationStep := {
  step_operation_id : uuid;
  step_sequence : Z;
  step_recipe_step_key : string;
  step_capability : string;
  step_status : command_status;
  step_command_id : option uuid;
  step_safe_result_json : option json;
  step_error_code : option string;
  step_started_at : option datetime;
  step_completed_at : option datetime
}.
#[export] Instance ModuleOperationStep_eta : Eta ModuleOperationStep := λ r,
  Build_ModuleOperationStep
    (step_operation_id r) (step_sequence r) (step_recipe_step_key r)
    (step_capability r) (step_status r) (step_command_id r)
    (step_safe_result_json r) (step_error_code r) (step_started_at r)
    (step_completed_at r).

Record OperationEvidence := {
  evd_created_at : datetime;
  evd_operation_id : uuid;
  evd_result_kind : string;
  evd_safe_payload : option json;
  evd_payload_sha256 : string;
  evd_expires_at : option datetime;
  evd_pinned_at : option datetime;
  evd_pinned_by_actor_kind : option string;
  evd_pinned_by_actor_identifier : option string;
  evd_pin_reason : option string;
  evd_scrubbed_at : option datetime
}.
#[export] Instance OperationEvidence_eta : Eta OperationEvidence := λ r,
  Build_OperationEvidence
    (evd_created_at r) (evd_operation_id r) (evd_result_kind r)
    (evd_safe_payload r) (evd_payload_sha256 r) (evd_expires_at r)
    (evd_pinned_at r) (evd_pinned_by_actor_kind r)
    (evd_pinned_by_actor_identifier r) (evd_pin_reason r)
    (evd_scrubbed_at r).

Record ModuleVersion := {
  mv_created_at : datetime;
  mv_module_definition_id : uuid;
  mv_version : string;
  mv_state : string;
  mv_recipe : json
}.
#[export] Instance ModuleVersion_eta : Eta ModuleVersion := λ r,
  Build_ModuleVersion
    (mv_created_at r) (mv_module_definition_id r) (mv_version r) (mv_state r) (mv_recipe r).

Record ContextCollection := {
  col_device_id : uuid;
  col_profile : string;
  col_requested_by : string;
  col_idempotency_key : string;
  col_command_id : option uuid;
  col_command_result_id : option uuid;
  col_operation_id : option uuid;
  col_status : collection_status;
  col_requested_at : datetime;
  col_result_received_at : option datetime;
  col_validated_at : option datetime;
  col_completed_at : option datetime;
  col_failed_at : option datetime;
  col_expires_at : option datetime;
  col_failure_code : option string;
  col_raw_result_payload : option json
}.
#[export] Instance ContextCollection_eta : Eta ContextCollection := λ r,
  Build_ContextCollection
    (col_device_id r) (col_profile r) (col_requested_by r)
    (col_idempotency_key r) (col_command_id r) (col_command_result_id r)
    (col_operation_id r) (col_status r) (col_requested_at r)
    (col_result_received_at r) (col_validated_at r) (col_completed_at r)
    (col_failed_at r) (col_expires_at r) (col_failure_code r)
    (col_raw_result_payload r).

Record ContextSnapshot := {
  snap_collection_id : uuid;
  snap_device_id : uuid;
  snap_profile : string;
  snap_collected_at : datetime;
  snap_pinned_at : option datetime;
  snap_semantic_hash : option string;
  snap_raw_payload : option json;
  snap_normalized_projection : json
}.
#[export] Instance ContextSnapshot_eta : Eta ContextSnapshot := λ r,
  Build_ContextSnapshot
    (snap_collection_id r) (snap_device_id r) (snap_profile r)
    (snap_collected_at r) (snap_pinned_at r) (snap_semantic_hash r)
    (snap_raw_payload r) (snap_normalized_projection r).

Record ContextDiff := {
  dif_device_id : uuid;
  dif_profile : string;
  dif_before_snapshot_id : uuid;
  dif_after_snapshot_id : uuid;
  dif_diff_payload : json
}.
#[export] Instance ContextDiff_eta : Eta ContextDiff := λ r,
  Build_ContextDiff
    (dif_device_id r) (dif_profile r) (dif_before_snapshot_id r)
    (dif_after_snapshot_id r) (dif_diff_payload r).

Record ContextCurrent := {
  cur_device_id : uuid;
  cur_profile : string;
  cur_snapshot_id : uuid;
  cur_updated_at : datetime;
  cur_last_observed_at : option datetime
}.
#[export] Instance ContextCurrent_eta : Eta ContextCurrent := λ r,
  Build_ContextCurrent
    (cur_device_id r) (cur_profile r) (cur_snapshot_id r) (cur_updated_at r)
    (cur_last_observed_at r).

Record DeviceEvent := {
  evt_device_id : uuid;
  evt_event_identifier : string;
  evt_event_kind : string;
  evt_category : string;
  evt_profile : string;
  evt_occurred_at : datetime;
  evt_source_key : string;
  evt_summary_code : string;
  evt_details : json;
  evt_before_hash : option string;
  evt_after_hash : option string
}.
#[export] Instance DeviceEvent_eta : Eta DeviceEvent := λ r,
  Build_DeviceEvent
    (evt_device_id r) (evt_event_identifier r) (evt_event_kind r)
    (evt_category r) (evt_profile r) (evt_occurred_at r) (evt_source_key r)
    (evt_summary_code r) (evt_details r) (evt_before_hash r)
    (evt_after_hash r).

Record ContextFinding := {
  fnd_device_id : uuid;
  fnd_snapshot_id : uuid;
  fnd_code : string;
  fnd_severity : string;
  fnd_details : option string
}.
#[export] Instance ContextFinding_eta : Eta ContextFinding := λ r,
  Build_ContextFinding (fnd_device_id r) (fnd_snapshot_id r) (fnd_code r) (fnd_severity r) (fnd_details r).

Record Device := {
  dev_device_identifier : string;
  dev_display_name : option string;
  dev_retired_at : option datetime
}.
#[export] Instance Device_eta : Eta Device := λ r,
  Build_Device
    (dev_device_identifier r) (dev_display_name r) (dev_retired_at r).

Record DeviceInstance := {
  inst_device_id : uuid;
  inst_instance_identifier : string;
  inst_agent_version : string;
  inst_launcher_version : option string;
  inst_last_seen_at : option datetime;
  inst_last_result_sequence : Z
}.
#[export] Instance DeviceInstance_eta : Eta DeviceInstance := λ r,
  Build_DeviceInstance
    (inst_device_id r) (inst_instance_identifier r) (inst_agent_version r)
    (inst_launcher_version r) (inst_last_seen_at r)
    (inst_last_result_sequence r).

Record DeviceSession := {
  sess_created_at : datetime;
  sess_device_id : uuid;
  sess_device_instance_id : option uuid;
  sess_session_identifier : string;
  sess_expires_at : datetime;
  sess_closed_at : option datetime;
  sess_last_seen_at : option datetime;
  sess_source_address : option string
}.
#[export] Instance DeviceSession_eta : Eta DeviceSession := λ r,
  Build_DeviceSession
    (sess_created_at r) (sess_device_id r) (sess_device_instance_id r)
    (sess_session_identifier r) (sess_expires_at r) (sess_closed_at r)
    (sess_last_seen_at r) (sess_source_address r).

Record ServiceClient := {
  cli_client_identifier : string;
  cli_display_name : string;
  cli_disabled_at : option datetime
}.
#[export] Instance ServiceClient_eta : Eta ServiceClient := λ r,
  Build_ServiceClient
    (cli_client_identifier r) (cli_display_name r) (cli_disabled_at r).

Record AuditEvent := {
  aud_created_at : datetime;
  aud_actor_kind : string;
  aud_actor_identifier : option string;
  aud_action : string;
  aud_object_kind : string;
  aud_object_identifier : option string;
  aud_request_id : string;
  aud_details : json
}.
#[export] Instance AuditEvent_eta : Eta AuditEvent := λ r,
  Build_AuditEvent
    (aud_created_at r) (aud_actor_kind r) (aud_actor_identifier r)
    (aud_action r) (aud_object_kind r) (aud_object_identifier r)
    (aud_request_id r) (aud_details r).

Record UpdateBuild := {
  bld_build_identifier : string;
  bld_version : string;
  bld_minimum_launcher_version : option string;
  bld_platform : string;
  bld_channel : string;
  bld_artifact_identifier : string;
  bld_artifact_url : string;
  bld_artifact_name : string;
  bld_archive_type : string;
  bld_sha256_digest : string;
  bld_size : Z;
  bld_release_notes : option string
}.
#[export] Instance UpdateBuild_eta : Eta UpdateBuild := λ r,
  Build_UpdateBuild
    (bld_build_identifier r) (bld_version r)
    (bld_minimum_launcher_version r) (bld_platform r) (bld_channel r)
    (bld_artifact_identifier r) (bld_artifact_url r) (bld_artifact_name r)
    (bld_archive_type r) (bld_sha256_digest r) (bld_size r)
    (bld_release_notes r).

Record UpdateRollout := {
  ro_rollout_identifier : string;
  ro_build_id : uuid;
  ro_mode : rollout_mode;
  ro_reason : option string;
  ro_status : rollout_status;
  ro_started_at : option datetime;
  ro_paused_at : option datetime;
  ro_completed_at : option datetime;
  ro_cancelled_at : option datetime
}.
#[export] Instance UpdateRollout_eta : Eta UpdateRollout := λ r,
  Build_UpdateRollout
    (ro_rollout_identifier r) (ro_build_id r) (ro_mode r) (ro_reason r)
    (ro_status r) (ro_started_at r) (ro_paused_at r) (ro_completed_at r)
    (ro_cancelled_at r).

Record UpdateTarget := {
  tgt_rollout_id : uuid;
  tgt_device_id : uuid;
  tgt_target_identifier : string;
  tgt_operation_id : string;
  tgt_status : target_status;
  tgt_assigned_at : datetime;
  tgt_requested_at : option datetime;
  tgt_scheduled_at : option datetime;
  tgt_terminal_at : option datetime;
  tgt_safe_reason : option string;
  tgt_updated_at : option datetime
}.
#[export] Instance UpdateTarget_eta : Eta UpdateTarget := λ r,
  Build_UpdateTarget
    (tgt_rollout_id r) (tgt_device_id r) (tgt_target_identifier r)
    (tgt_operation_id r) (tgt_status r) (tgt_assigned_at r)
    (tgt_requested_at r) (tgt_scheduled_at r) (tgt_terminal_at r)
    (tgt_safe_reason r) (tgt_updated_at r).

Record UpdateReport := {
  rep_update_target_id : uuid;
  rep_device_id : uuid;
  rep_report_identifier : string;
  rep_report_key : string;
  rep_reported_version : string;
  rep_status : target_status;
  rep_safe_code : option string
}.
#[export] Instance UpdateReport_eta : Eta UpdateReport := λ r,
  Build_UpdateReport
    (rep_update_target_id r) (rep_device_id r) (rep_report_identifier r)
    (rep_report_key r) (rep_reported_version r) (rep_status r)
    (rep_safe_code r).

Record DeviceCredential := {
  crd_device_id : uuid;
  crd_credential_identifier : string;
  crd_token_digest : string;
  crd_pending_token_digest : option string;
  crd_rotation_overlap_expires_at : option datetime;
  crd_expires_at : option datetime;
  crd_revoked_at : option datetime
}.
#[export] Instance DeviceCredential_eta : Eta DeviceCredential := λ r,
  Build_DeviceCredential
    (crd_device_id r) (crd_credential_identifier r) (crd_token_digest r)
    (crd_pending_token_digest r) (crd_rotation_overlap_expires_at r) (crd_expires_at r)
    (crd_revoked_at r).

Record EnrollmentCampaign := {
  cam_campaign_identifier : string;
  cam_token_digest : string;
  cam_expires_at : option datetime;
  cam_disabled_at : option datetime;
  cam_max_uses : Z;
  cam_use_count : Z;
  cam_allowed_cidrs : list string;
  cam_target_platform : string;
  cam_policy : list (string * json);
  cam_label : option string;
  cam_site : option string;
  cam_revoked_at : option datetime
}.
#[export] Instance EnrollmentCampaign_eta : Eta EnrollmentCampaign := λ r,
  Build_EnrollmentCampaign
    (cam_campaign_identifier r) (cam_token_digest r) (cam_expires_at r) (cam_disabled_at r)
    (cam_max_uses r) (cam_use_count r) (cam_allowed_cidrs r) (cam_target_platform r)
    (cam_policy r) (cam_label r) (cam_site r) (cam_revoked_at r).

Record EnrollmentClaim := {
  clm_campaign_id : uuid;
  clm_enrollment_request_id : option uuid;
  clm_claim_identifier : string;
  clm_claim_digest : string;
  clm_installation_session_digest : string;
  clm_fingerprint_digest : string;
  clm_expires_at : datetime;
  clm_device_id : option uuid;
  clm_claimed_at : option datetime
}.
#[export] Instance EnrollmentClaim_eta : Eta EnrollmentClaim := λ r,
  Build_EnrollmentClaim
    (clm_campaign_id r) (clm_enrollment_request_id r) (clm_claim_identifier r)
    (clm_claim_digest r) (clm_installation_session_digest r) (clm_fingerprint_digest r)
    (clm_expires_at r) (clm_device_id r) (clm_claimed_at r).

Record EnrollmentRequest := {
  req_created_at : datetime;
  req_installation_id_digest : string;
  req_fingerprint_digest : string;
  req_request_capability_digest : string;
  req_platform : string;
  req_source_address : string;
  req_installer_release_id : string;
  req_selected_campaign_id : option uuid;
  req_status : request_status;
  req_decision_reason : option string;
  req_decided_at : option datetime;
  req_decided_by : option uuid;
  req_device_id : option uuid;
  req_updated_at : datetime;
  req_expires_at : datetime
}.
#[export] Instance EnrollmentRequest_eta : Eta EnrollmentRequest := λ r,
  Build_EnrollmentRequest
    (req_created_at r) (req_installation_id_digest r) (req_fingerprint_digest r)
    (req_request_capability_digest r) (req_platform r) (req_source_address r)
    (req_installer_release_id r) (req_selected_campaign_id r) (req_status r)
    (req_decision_reason r) (req_decided_at r) (req_decided_by r) (req_device_id r)
    (req_updated_at r) (req_expires_at r).

Record EnrollmentRequestClaimEnvelope := {
  rce_enrollment_request_id : uuid;
  rce_claim_id : uuid;
  rce_receipt_digest : string;
  rce_fingerprint_digest : string;
  rce_encrypted_token : string;
  rce_encryption_nonce : string;
  rce_expires_at : datetime
}.
#[export] Instance EnrollmentRequestClaimEnvelope_eta : Eta EnrollmentRequestClaimEnvelope := λ r,
  Build_EnrollmentRequestClaimEnvelope
    (rce_enrollment_request_id r) (rce_claim_id r) (rce_receipt_digest r)
    (rce_fingerprint_digest r) (rce_encrypted_token r) (rce_encryption_nonce r)
    (rce_expires_at r).

Record EnrollmentEvent := {
  eev_campaign_id : option uuid;
  eev_claim_id : option uuid;
  eev_event_kind : string;
  eev_remote_identifier : option string
}.
#[export] Instance EnrollmentEvent_eta : Eta EnrollmentEvent := λ r,
  Build_EnrollmentEvent
    (eev_campaign_id r) (eev_claim_id r) (eev_event_kind r) (eev_remote_identifier r).

Record EnrollmentRetryEnvelope := {
  rte_device_credential_id : uuid;
  rte_receipt_digest : string;
  rte_fingerprint_digest : string;
  rte_encrypted_token : string;
  rte_encryption_nonce : string;
  rte_expires_at : datetime
}.
#[export] Instance EnrollmentRetryEnvelope_eta : Eta EnrollmentRetryEnvelope := λ r,
  Build_EnrollmentRetryEnvelope
    (rte_device_credential_id r) (rte_receipt_digest r) (rte_fingerprint_digest r)
    (rte_encrypted_token r) (rte_encryption_nonce r) (rte_expires_at r).

Record AdminUser := {
  usr_username : string;
  usr_password_digest : string;
  usr_scopes : list string;
  usr_disabled_at : option datetime
}.
#[export] Instance AdminUser_eta : Eta AdminUser := λ r,
  Build_AdminUser
    (usr_username r) (usr_password_digest r) (usr_scopes r) (usr_disabled_at r).

Record AdminSession := {
  ads_admin_user_id : uuid;
  ads_session_digest : string;
  ads_expires_at : datetime;
  ads_revoked_at : option datetime
}.
#[export] Instance AdminSession_eta : Eta AdminSession := λ r,
  Build_AdminSession
    (ads_admin_user_id r) (ads_session_digest r) (ads_expires_at r) (ads_revoked_at r).

Record ServiceCredential := {
  svc_service_client_id : uuid;
  svc_credential_identifier : string;
  svc_token_prefix : string;
  svc_secret_digest : string;
  svc_scopes : list string;
  svc_expires_at : option datetime;
  svc_revoked_at : option datetime
}.
#[export] Instance ServiceCredential_eta : Eta ServiceCredential := λ r,
  Build_ServiceCredential
    (svc_service_client_id r) (svc_credential_identifier r) (svc_token_prefix r)
    (svc_secret_digest r) (svc_scopes r) (svc_expires_at r) (svc_revoked_at r).

Record DeviceBindingChallenge := {
  chl_created_at : datetime;
  chl_device_id : uuid;
  chl_purpose : string;
  chl_code_digest : string;
  chl_status : challenge_status;
  chl_expires_at : datetime;
  chl_redeemed_at : option datetime
}.
#[export] Instance DeviceBindingChallenge_eta : Eta DeviceBindingChallenge := λ r,
  Build_DeviceBindingChallenge
    (chl_created_at r) (chl_device_id r) (chl_purpose r) (chl_code_digest r) (chl_status r)
    (chl_expires_at r) (chl_redeemed_at r).

Record DeviceBindingThrottle := {
  thr_bucket : string;
  thr_window_started_at : datetime;
  thr_attempts : Z
}.
#[export] Instance DeviceBindingThrottle_eta : Eta DeviceBindingThrottle := λ r,
  Build_DeviceBindingThrottle
    (thr_bucket r) (thr_window_started_at r) (thr_attempts r).

Record PolicyDefinition := {
  pdf_name : string
}.
#[export] Instance PolicyDefinition_eta : Eta PolicyDefinition := λ r,
  Build_PolicyDefinition
    (pdf_name r).

Record PolicyVersion := {
  pvr_definition_id : uuid;
  pvr_version : Z;
  pvr_digest : string;
  pvr_document : json;
  pvr_created_by : uuid
}.
#[export] Instance PolicyVersion_eta : Eta PolicyVersion := λ r,
  Build_PolicyVersion
    (pvr_definition_id r) (pvr_version r) (pvr_digest r) (pvr_document r) (pvr_created_by r).

Record PolicyAssignment := {
  pas_scope : string;
  pas_device_id : option uuid;
  pas_policy_version_id : uuid;
  pas_assigned_by : uuid;
  pas_assigned_at : datetime
}.
#[export] Instance PolicyAssignment_eta : Eta PolicyAssignment := λ r,
  Build_PolicyAssignment
    (pas_scope r) (pas_device_id r) (pas_policy_version_id r) (pas_assigned_by r)
    (pas_assigned_at r).

Record PolicyDeviceState := {
  pst_device_id : uuid;
  pst_policy_version_id : option uuid;
  pst_policy_digest : option string;
  pst_status : policy_status;
  pst_error_code : option string;
  pst_received_at : option datetime;
  pst_applied_at : option datetime;
  pst_acknowledged_at : option datetime
}.
#[export] Instance PolicyDeviceState_eta : Eta PolicyDeviceState := λ r,
  Build_PolicyDeviceState
    (pst_device_id r) (pst_policy_version_id r) (pst_policy_digest r) (pst_status r)
    (pst_error_code r) (pst_received_at r) (pst_applied_at r) (pst_acknowledged_at r).

Record PolicyApplication := {
  pap_device_id : uuid;
  pap_policy_version_id : uuid;
  pap_policy_digest : string;
  pap_applied_at : datetime;
  pap_acknowledged_at : datetime
}.
#[export] Instance PolicyApplication_eta : Eta PolicyApplication := λ r,
  Build_PolicyApplication
    (pap_device_id r) (pap_policy_version_id r) (pap_policy_digest r) (pap_applied_at r)
    (pap_acknowledged_at r).

Record SecurityEvent := {
  sev_event_identifier : uuid;
  sev_device_id : uuid;
  sev_event_type : string;
  sev_channel : string;
  sev_severity : string;
  sev_occurred_at : datetime;
  sev_received_at : datetime;
  sev_user_login : option string;
  sev_policy_id : uuid;
  sev_policy_version : Z;
  sev_safe_metadata : json;
  sev_expires_at : datetime
}.
#[export] Instance SecurityEvent_eta : Eta SecurityEvent := λ r,
  Build_SecurityEvent
    (sev_event_identifier r) (sev_device_id r) (sev_event_type r) (sev_channel r)
    (sev_severity r) (sev_occurred_at r) (sev_received_at r) (sev_user_login r)
    (sev_policy_id r) (sev_policy_version r) (sev_safe_metadata r) (sev_expires_at r).

Record BrowserStatusCurrent := {
  bsc_device_id : uuid;
  bsc_browser_family : string;
  bsc_observation_id : uuid;
  bsc_policy_id : uuid;
  bsc_policy_version : Z;
  bsc_observed_at : datetime;
  bsc_received_at : datetime;
  bsc_browser_state : string;
  bsc_running_state : string;
  bsc_policy_owner : string;
  bsc_installation_policy_state : string;
  bsc_native_host_state : string;
  bsc_extension_version : option string;
  bsc_extension_last_seen_at : option datetime;
  bsc_extension_install_type : string;
  bsc_last_running_at : option datetime
}.
#[export] Instance BrowserStatusCurrent_eta : Eta BrowserStatusCurrent := λ r,
  Build_BrowserStatusCurrent
    (bsc_device_id r) (bsc_browser_family r) (bsc_observation_id r) (bsc_policy_id r)
    (bsc_policy_version r) (bsc_observed_at r) (bsc_received_at r) (bsc_browser_state r)
    (bsc_running_state r) (bsc_policy_owner r) (bsc_installation_policy_state r)
    (bsc_native_host_state r) (bsc_extension_version r) (bsc_extension_last_seen_at r)
    (bsc_extension_install_type r) (bsc_last_running_at r).

Record PolicySensorHealthCurrent := {
  shc_device_id : uuid;
  shc_observation_id : uuid;
  shc_policy_id : uuid;
  shc_policy_version : Z;
  shc_observed_at : datetime;
  shc_received_at : datetime;
  shc_activity_listener_state : string;
  shc_user_sensor_last_seen_at : option datetime;
  shc_security_spool_state : string;
  shc_usb_source_state : string;
  shc_print_source_state : string
}.
#[export] Instance PolicySensorHealthCurrent_eta : Eta PolicySensorHealthCurrent := λ r,
  Build_PolicySensorHealthCurrent
    (shc_device_id r) (shc_observation_id r) (shc_policy_id r) (shc_policy_version r)
    (shc_observed_at r) (shc_received_at r) (shc_activity_listener_state r)
    (shc_user_sensor_last_seen_at r) (shc_security_spool_state r) (shc_usb_source_state r)
    (shc_print_source_state r).

Record ModuleDefinition := {
  mdf_module_key : string;
  mdf_display_name : string
}.
#[export] Instance ModuleDefinition_eta : Eta ModuleDefinition := λ r,
  Build_ModuleDefinition
    (mdf_module_key r) (mdf_display_name r).

Record ModuleValidationRun := {
  mvr_module_version_id : uuid;
  mvr_validator_version : string;
  mvr_status : string;
  mvr_error_codes : list string;
  mvr_warning_codes : list string;
  mvr_completed_at : datetime
}.
#[export] Instance ModuleValidationRun_eta : Eta ModuleValidationRun := λ r,
  Build_ModuleValidationRun
    (mvr_module_version_id r) (mvr_validator_version r) (mvr_status r) (mvr_error_codes r)
    (mvr_warning_codes r) (mvr_completed_at r).

Record ModuleLiveTest := {
  mlt_module_version_id : uuid;
  mlt_platform : string;
  mlt_endpoint_device_id : uuid;
  mlt_operation_id : uuid;
  mlt_status : string;
  mlt_safe_result_snapshot : json;
  mlt_tested_at : datetime
}.
#[export] Instance ModuleLiveTest_eta : Eta ModuleLiveTest := λ r,
  Build_ModuleLiveTest
    (mlt_module_version_id r) (mlt_platform r) (mlt_endpoint_device_id r) (mlt_operation_id r)
    (mlt_status r) (mlt_safe_result_snapshot r) (mlt_tested_at r).

(** ** The database *)

Record DB := {
  commands : gmap uuid Command;
  command_deliveries : gmap uuid CommandDelivery;
  command_results : gmap uuid CommandResult;
  endpoint_operations : gmap uuid EndpointOperation;
  endpoint_operation_steps : gmap uuid ModuleOperationStep;
  operation_evidence : gmap uuid OperationEvidence;
  module_versions : gmap uuid ModuleVersion;
  context_collections : gmap uuid ContextCollection;
  context_snapshots : gmap uuid ContextSnapshot;
  context_diffs : gmap uuid ContextDiff;
  context_current : gmap uuid ContextCurrent;
  device_events : gmap uuid DeviceEvent;
  devices : gmap uuid Device;
  device_instances : gmap uuid DeviceInstance;
  device_sessions : gmap uuid DeviceSession;
  service_clients : gmap uuid ServiceClient;
  audit_events : gmap uuid AuditEvent;
  update_builds : gmap uuid UpdateBuild;
  update_rollouts : gmap uuid UpdateRollout;
  update_targets : gmap uuid UpdateTarget;
  update_reports : gmap uuid UpdateReport;
  device_credentials : gmap uuid DeviceCredential;
  enrollment_campaigns : gmap uuid EnrollmentCampaign;
  enrollment_claims : gmap uuid EnrollmentClaim;
  enrollment_requests : gmap uuid EnrollmentRequest;
  enrollment_request_claim_envelopes : gmap uuid EnrollmentRequestClaimEnvelope;
  enrollment_events : gmap uuid EnrollmentEvent;
  enrollment_retry_envelopes : gmap uuid EnrollmentRetryEnvelope;
  admin_users : gmap uuid AdminUser;
  admin_sessions : gmap uuid AdminSession;
  service_credentials : gmap uuid ServiceCredential;
  device_binding_challenges : gmap uuid DeviceBindingChallenge;
  device_binding_throttles : gmap uuid DeviceBindingThrottle;
  policy_definitions : gmap uuid PolicyDefinition;
  policy_versions : gmap uuid PolicyVersion;
  policy_assignments : gmap uuid PolicyAssignment;
  policy_device_states : gmap uuid PolicyDeviceState;
  policy_applications : gmap uuid PolicyApplication;
  security_events : gmap uuid SecurityEvent;
  module_definitions : gmap uuid ModuleDefinition;
  module_validation_runs : gmap uuid ModuleValidationRun;
  module_live_tests : gmap uuid ModuleLiveTest;
  browser_status_current : gmap uuid BrowserStatusCurrent;
  policy_sensor_health_current : gmap uuid PolicySensorHealthCurrent;
  context_findings : gmap uuid ContextFinding
}.
#[export] Instance DB_eta : Eta DB := λ d,
  Build_DB
    (commands d) (command_deliveries d) (command_results d)
    (endpoint_operations d) (endpoint_operation_steps d)
    (operation_evidence d) (module_versions d) (context_collections d)
    (context_snapshots d) (context_diffs d) (context_current d)
    (device_events d) (devices d) (device_instances d) (device_sessions d)
    (service_clients d) (audit_events d) (update_builds d)
    (update_rollouts d) (update_targets d) (update_reports d)
    (device_credentials d) (enrollment_campaigns d) (enrollment_claims d)
    (enrollment_requests d) (enrollment_request_claim_envelopes d)
    (enrollment_events d) (enrollment_retry_envelopes d)
    (admin_users d) (admin_sessions d) (service_credentials d)
    (device_binding_challenges d) (device_binding_throttles d)
    (policy_definitions d) (policy_versions d) (policy_assignments d)
    (policy_device_states d) (policy_applications d) (security_events d)
    (module_definitions d) (module_validation_runs d) (module_live_tests d)
    (browser_status_current d) (policy_sensor_health_current d)
    (context_findings d).

Definition empty_db : DB :=
  Build_DB ∅ ∅ ∅ ∅ ∅ ∅ ∅ ∅ ∅ ∅ ∅ ∅ ∅ ∅ ∅ ∅ ∅ ∅ ∅ ∅ ∅ ∅ ∅ ∅ ∅ ∅ ∅ ∅
    ∅ ∅ ∅ ∅ ∅ ∅ ∅ ∅ ∅ ∅ ∅ ∅ ∅ ∅ ∅ ∅ ∅.

(** A table: how to read it and how to replace it. *)
Class Table (R : Type) := {
  table : DB → gmap uuid R;
  set_table : gmap uuid R → DB → DB
}.

#[export] Instance commands_table : Table Command :=
  {| table := commands; set_table m d := d <| commands := m |> |}.
#[export] Instance command_deliveries_table : Table CommandDelivery :=
  {| table := command_deliveries; set_table m d := d <| command_deliveries := m |> |}.
#[export] Instance command_results_table : Table CommandResult :=
  {| table := command_results; set_table m d := d <| command_results := m |> |}.
#[export] Instance endpoint_operations_table : Table EndpointOperation :=
  {| table := endpoint_operations; set_table m d := d <| endpoint_operations := m |> |}.
#[export] Instance endpoint_operation_steps_table : Table ModuleOperationStep :=
  {| table := endpoint_operation_steps; set_table m d := d <| endpoint_operation_steps := m |> |}.
#[export] Instance operation_evidence_table : Table OperationEvidence :=
  {| table := operation_evidence; set_table m d := d <| operation_evidence := m |> |}.
#[export] Instance module_versions_table : Table ModuleVersion :=
  {| table := module_versions; set_table m d := d <| module_versions := m |> |}.
#[export] Instance context_collections_table : Table ContextCollection :=
  {| table := context_collections; set_table m d := d <| context_collections := m |> |}.
#[export] Instance context_snapshots_table : Table ContextSnapshot :=
  {| table := context_snapshots; set_table m d := d <| context_snapshots := m |> |}.
#[export] Instance context_diffs_table : Table ContextDiff :=
  {| table := context_diffs; set_table m d := d <| context_diffs := m |> |}.
#[export] Instance context_current_table : Table ContextCurrent :=
  {| table := context_current; set_table m d := d <| context_current := m |> |}.
#[export] Instance device_events_table : Table DeviceEvent :=
  {| table := device_events; set_table m d := d <| device_events := m |> |}.
#[export] Instance devices_table : Table Device :=
  {| table := devices; set_table m d := d <| devices := m |> |}.
#[export] Instance device_instances_table : Table DeviceInstance :=
  {| table := device_instances; set_table m d := d <| device_instances := m |> |}.
#[export] Instance device_sessions_table : Table DeviceSession :=
  {| table := device_sessions; set_table m d := d <| device_sessions := m |> |}.
#[export] Instance service_clients_table : Table ServiceClient :=
  {| table := service_clients; set_table m d := d <| service_clients := m |> |}.
#[export] Instance audit_events_table : Table AuditEvent :=
  {| table := audit_events; set_table m d := d <| audit_events := m |> |}.
#[export] Instance update_builds_table : Table UpdateBuild :=
  {| table := update_builds; set_table m d := d <| update_builds := m |> |}.
#[export] Instance update_rollouts_table : Table UpdateRollout :=
  {| table := update_rollouts; set_table m d := d <| update_rollouts := m |> |}.
#[export] Instance update_targets_table : Table UpdateTarget :=
  {| table := update_targets; set_table m d := d <| update_targets := m |> |}.
#[export] Instance update_reports_table : Table UpdateReport :=
  {| table := update_reports; set_table m d := d <| update_reports := m |> |}.
#[export] Instance device_credentials_table : Table DeviceCredential :=
  {| table := device_credentials; set_table m d := d <| device_credentials := m |> |}.
#[export] Instance enrollment_campaigns_table : Table EnrollmentCampaign :=
  {| table := enrollment_campaigns; set_table m d := d <| enrollment_campaigns := m |> |}.
#[export] Instance enrollment_claims_table : Table EnrollmentClaim :=
  {| table := enrollment_claims; set_table m d := d <| enrollment_claims := m |> |}.
#[export] Instance enrollment_requests_table : Table EnrollmentRequest :=
  {| table := enrollment_requests; set_table m d := d <| enrollment_requests := m |> |}.
#[export] Instance enrollment_request_claim_envelopes_table : Table EnrollmentRequestClaimEnvelope :=
  {| table := enrollment_request_claim_envelopes; set_table m d := d <| enrollment_request_claim_envelopes := m |> |}.
#[export] Instance enrollment_events_table : Table EnrollmentEvent :=
  {| table := enrollment_events; set_table m d := d <| enrollment_events := m |> |}.
#[export] Instance enrollment_retry_envelopes_table : Table EnrollmentRetryEnvelope :=
  {| table := enrollment_retry_envelopes; set_table m d := d <| enrollment_retry_envelopes := m |> |}.
#[export] Instance admin_users_table : Table AdminUser :=
  {| table := admin_users; set_table m d := d <| admin_users := m |> |}.
#[export] Instance admin_sessions_table : Table AdminSession :=
  {| table := admin_sessions; set_table m d := d <| admin_sessions := m |> |}.
#[export] Instance service_credentials_table : Table ServiceCredential :=
  {| table := service_credentials; set_table m d := d <| service_credentials := m |> |}.
#[export] Instance device_binding_challenges_table : Table DeviceBindingChallenge :=
  {| table := device_binding_challenges; set_table m d := d <| device_binding_challenges := m |> |}.
#[export] Instance device_binding_throttles_table : Table DeviceBindingThrottle :=
  {| table := device_binding_throttles; set_table m d := d <| device_binding_throttles := m |> |}.
#[export] Instance policy_definitions_table : Table PolicyDefinition :=
  {| table := policy_definitions; set_table m d := d <| policy_definitions := m |> |}.
#[export] Instance policy_versions_table : Table PolicyVersion :=
  {| table := policy_versions; set_table m d := d <| policy_versions := m |> |}.
#[export] Instance policy_assignments_table : Table PolicyAssignment :=
  {| table := policy_assignments; set_table m d := d <| policy_assignments := m |> |}.
#[export] Instance policy_device_states_table : Table PolicyDeviceState :=
  {| table := policy_device_states; set_table m d := d <| policy_device_states := m |> |}.
#[export] Instance policy_applications_table : Table PolicyApplication :=
  {| table := policy_applications; set_table m d := d <| policy_applications := m |> |}.
#[export] Instance security_events_table : Table SecurityEvent :=
  {| table := security_events; set_table m d := d <| security_events := m |> |}.
#[export] Instance module_definitions_table : Table ModuleDefinition :=
  {| table := module_definitions; set_table m d := d <| module_definitions := m |> |}.
#[export] Instance module_validation_runs_table : Table ModuleValidationRun :=
  {| table := module_validation_runs; set_table m d := d <| module_validation_runs := m |> |}.
#[export] Instance module_live_tests_table : Table ModuleLiveTest :=
  {| table := module_live_tests; set_table m d := d <| module_live_tests := m |> |}.
#[export] Instance browser_status_current_table : Table BrowserStatusCurrent :=
  {| table := browser_status_current; set_table m d := d <| browser_status_current := m |> |}.
#[export] Instance policy_sensor_health_current_table : Table PolicySensorHealthCurrent :=
  {| table := policy_sensor_health_current; set_table m d := d <| policy_sensor_health_current := m |> |}.
#[export] Instance context_findings_table : Table ContextFinding :=
  {| table := context_findings; set_table m d := d <| context_findings := m |> |}.

(** A table is a lens on the database. *)
Class TableLaws (R : Type) `{Table R} : Prop := {
  table_set m d : table (set_table m d) = m;
  set_set m m' d : set_table m (set_table m' d) = set_table m d;
  set_table_same d : set_table (table d) d = d
}.

#[export] Hint Extern 0 (TableLaws _) =>
  split; [reflexivity|reflexivity|intros []; reflexivity] : typeclass_instances.
