(* ===== verification/Session.v ===== *)
(** * Database sessions

    The world a service runs in: the committed database, the working copy of
    the open session, the supply of [uuid4] values and the clock; and the
    session operations of SQLAlchemy that the services use (endpoint_server/
    db/session.py gives them sessions with the default autoflush and
    [expire_on_commit=False]).  A query sees the pending changes of its own
    session.  Row locks ([with_for_update], advisory locks) have no effect
    here: operations run one transaction at a time. *)

From S2P Require Import Prelude Store.

Record World := {
  committed : DB;          (* what the database server holds *)
  db : DB;                 (* the open session's view of it *)
  seed : Z;                (* the next [uuid4] value *)
  clock : nat → Z;         (* the n-th reading of [datetime.now(UTC)] *)
  ticks : nat              (* readings taken so far *)
}.

#[export] Instance World_eta : Eta World := λ w,
  Build_World (committed w) (db w) (seed w) (clock w) (ticks w).

Abbreviation Tx := (M World).

(** ** Constraints

    The unique and check constraints of the mapped tables, over the columns
    the model keeps.  Constraints that only restrict a column to the values of
    an enumerated type here ([status], [mode]) hold by typing; foreign keys
    are not modelled. *)

(** [UniqueConstraint]: rows whose key is [None] (a NULL column) do not clash. *)
Definition unique_on {R K} `{EqDecision K} (key : R → option K) (t : gmap uuid R) : bool :=
  bool_decide (NoDup (omap (λ e : uuid * R, key e.2) (map_to_list t))).

(** [CheckConstraint] *)
Definition check_rows {R} (ok : R → bool) (t : gmap uuid R) : bool :=
  forallb (λ e : uuid * R, ok e.2) (map_to_list t).

(** A terminal status goes with a completion time, an active one without. *)
Definition terminal_matches (s : command_status) (completed : option datetime) : bool :=
  Bool.eqb (terminal s) (is_some completed).

Definition command_constraints (d : DB) : list (string * bool) :=
  [("commands_command_identifier_key", unique_on (Some ∘ cmd_command_identifier) (commands d));
   ("command_deliveries_delivery_identifier_key",
      unique_on (Some ∘ dlv_delivery_identifier) (command_deliveries d));
   ("command_results_result_identifier_key",
      unique_on (Some ∘ res_result_identifier) (command_results d));
   ("ck_command_results_result_sequence",
      check_rows (λ r, match res_result_sequence r with Some n => 0 <=? n | None => true end)
        (command_results d))].

Definition operation_shape_ok (o : EndpointOperation) : bool :=
  (bool_decide (op_capability o = "context.diagnostic.collect")
     && is_none (op_module_version_id o) && is_none (op_module_inputs o))
  || (bool_decide (op_capability o = "endpoint.module.recipe")
     && is_some (op_module_version_id o) && is_some (op_module_inputs o)).

Definition operation_constraints (d : DB) : list (string * bool) :=
  [("uq_endpoint_operations_client_key",
      unique_on (λ o, Some (op_requested_by_service_client_id o, op_idempotency_key o))
        (endpoint_operations d));
   ("uq_endpoint_operations_collection",
      unique_on op_context_collection_id (endpoint_operations d));
   ("uq_endpoint_operations_command", unique_on op_command_id (endpoint_operations d));
   ("ck_endpoint_operations_module_shape",
      check_rows operation_shape_ok (endpoint_operations d));
   ("ck_endpoint_operations_expected_step_count",
      check_rows (λ o, match op_expected_step_count o with
                       | Some n => (1 <=? n) && (n <=? 8) | None => true end)
        (endpoint_operations d));
   ("ck_endpoint_operations_deadline",
      check_rows (λ o, dt_ltb (op_created_at o) (op_deadline_at o)) (endpoint_operations d));
   ("ck_endpoint_operations_terminal",
      check_rows (λ o, terminal_matches (op_status o) (op_completed_at o))
        (endpoint_operations d))].

Definition step_constraints (d : DB) : list (string * bool) :=
  [("uq_endpoint_operation_steps_sequence",
      unique_on (λ s, Some (step_operation_id s, step_sequence s)) (endpoint_operation_steps d));
   ("uq_endpoint_operation_steps_recipe_key",
      unique_on (λ s, Some (step_operation_id s, step_recipe_step_key s))
        (endpoint_operation_steps d));
   ("uq_endpoint_operation_steps_command",
      unique_on step_command_id (endpoint_operation_steps d));
   ("ck_endpoint_operation_steps_sequence",
      check_rows (λ s, 0 <=? step_sequence s) (endpoint_operation_steps d));
   ("ck_endpoint_operation_steps_terminal",
      check_rows (λ s, terminal_matches (step_status s) (step_completed_at s))
        (endpoint_operation_steps d))].

(** The check of the size of a payload, ck_operation_evidence_payload_size, is
    on the database's own rendering of JSON and left out;
    [create_operation_evidence] refuses a longer payload before it is stored. *)
Definition evidence_constraints (d : DB) : list (string * bool) :=
  [("uq_operation_evidence_operation",
      unique_on (Some ∘ evd_operation_id) (operation_evidence d));
   ("ck_operation_evidence_pin_expiry",
      check_rows (λ e, is_none (evd_pinned_at e) || is_none (evd_expires_at e))
        (operation_evidence d))].

Definition collection_constraints (d : DB) : list (string * bool) :=
  [("uq_context_collections_request",
      unique_on (λ c, Some (col_device_id c, col_profile c, col_requested_by c,
                            col_idempotency_key c)) (context_collections d));
   ("uq_context_collections_command", unique_on col_command_id (context_collections d));
   ("uq_context_collections_result", unique_on col_command_result_id (context_collections d));
   ("uq_context_collections_operation", unique_on col_operation_id (context_collections d))].

Definition snapshot_constraints (d : DB) : list (string * bool) :=
  [("uq_context_snapshots_collection",
      unique_on (Some ∘ snap_collection_id) (context_snapshots d));
   ("uq_context_diffs_pair",
      unique_on (λ x, Some (dif_before_snapshot_id x, dif_after_snapshot_id x))
        (context_diffs d));
   ("uq_context_current_device_profile",
      unique_on (λ c, Some (cur_device_id c, cur_profile c)) (context_current d));
   ("uq_device_events_source",
      unique_on (λ e, Some (evt_device_id e, evt_source_key e)) (device_events d))].

Definition device_constraints (d : DB) : list (string * bool) :=
  [("devices_device_identifier_key", unique_on (Some ∘ dev_device_identifier) (devices d));
   ("uq_device_instances_device_identifier",
      unique_on (λ i, Some (inst_device_id i, inst_instance_identifier i))
        (device_instances d));
   ("ck_device_instances_last_result_sequence",
      check_rows (λ i, 0 <=? inst_last_result_sequence i) (device_instances d));
   ("device_sessions_session_identifier_key",
      unique_on (Some ∘ sess_session_identifier) (device_sessions d));
   ("service_clients_client_identifier_key",
      unique_on (Some ∘ cli_client_identifier) (service_clients d))].

(** The statuses of a target that owns its device. *)
Definition target_active (s : target_status) : bool :=
  in_set s [t_assigned; t_requested; t_scheduled].

Definition update_constraints (d : DB) : list (string * bool) :=
  [("update_builds_build_identifier_key",
      unique_on (Some ∘ bld_build_identifier) (update_builds d));
   ("uq_update_builds_platform_channel_version",
      unique_on (λ b, Some (bld_platform b, bld_channel b, bld_version b)) (update_builds d));
   ("ck_update_builds_size_positive", check_rows (λ b, 0 <? bld_size b) (update_builds d));
   ("update_rollouts_rollout_identifier_key",
      unique_on (Some ∘ ro_rollout_identifier) (update_rollouts d));
   ("uq_update_targets_device",
      unique_on (λ t, Some (tgt_rollout_id t, tgt_device_id t)) (update_targets d));
   ("uq_update_targets_active_device",
      unique_on (λ t, if target_active (tgt_status t) then Some (tgt_device_id t) else None)
        (update_targets d));
   ("update_targets_target_identifier_key",
      unique_on (Some ∘ tgt_target_identifier) (update_targets d));
   ("update_targets_operation_id_key", unique_on (Some ∘ tgt_operation_id) (update_targets d));
   ("uq_update_reports_target_report_key",
      unique_on (λ r, Some (rep_update_target_id r, rep_report_key r)) (update_reports d));
   ("update_reports_report_identifier_key",
      unique_on (Some ∘ rep_report_identifier) (update_reports d))].

(** The statuses of the partial index uq_enrollment_requests_active_installation. *)
Definition request_active (s : request_status) : bool :=
  in_set s [e_created; e_validating; e_auto_approved; e_waiting_approval; e_review_required;
            e_claim_issued; e_enrolling; e_device_registered; e_waiting_wss].

Definition enrollment_constraints (d : DB) : list (string * bool) :=
  [("uq_device_credentials_device_identifier",
      unique_on (λ c, Some (crd_device_id c, crd_credential_identifier c)) (device_credentials d));
   ("device_credentials_token_digest_key", unique_on (Some ∘ crd_token_digest) (device_credentials d));
   ("device_credentials_pending_token_digest_key",
      unique_on crd_pending_token_digest (device_credentials d));
   ("enrollment_campaigns_campaign_identifier_key",
      unique_on (Some ∘ cam_campaign_identifier) (enrollment_campaigns d));
   ("enrollment_campaigns_token_digest_key", unique_on (Some ∘ cam_token_digest) (enrollment_campaigns d));
   ("enrollment_claims_enrollment_request_id_key",
      unique_on clm_enrollment_request_id (enrollment_claims d));
   ("enrollment_claims_claim_identifier_key",
      unique_on (Some ∘ clm_claim_identifier) (enrollment_claims d));
   ("enrollment_claims_claim_digest_key", unique_on (Some ∘ clm_claim_digest) (enrollment_claims d));
   ("uq_enrollment_requests_active_installation",
      unique_on (λ r, if request_active (req_status r) then Some (req_installation_id_digest r) else None)
        (enrollment_requests d));
   ("enrollment_request_claim_envelopes_enrollment_request_id_key",
      unique_on (Some ∘ rce_enrollment_request_id) (enrollment_request_claim_envelopes d));
   ("enrollment_request_claim_envelopes_claim_id_key",
      unique_on (Some ∘ rce_claim_id) (enrollment_request_claim_envelopes d));
   ("enrollment_request_claim_envelopes_receipt_digest_key",
      unique_on (Some ∘ rce_receipt_digest) (enrollment_request_claim_envelopes d));
   ("uq_enrollment_retry_envelopes_device_credential",
      unique_on (Some ∘ rte_device_credential_id) (enrollment_retry_envelopes d));
   ("enrollment_retry_envelopes_receipt_digest_key",
      unique_on (Some ∘ rte_receipt_digest) (enrollment_retry_envelopes d))].

Definition administration_constraints (d : DB) : list (string * bool) :=
  [("admin_users_username_key", unique_on (Some ∘ usr_username) (admin_users d));
   ("admin_sessions_session_digest_key", unique_on (Some ∘ ads_session_digest) (admin_sessions d));
   ("uq_service_credentials_client_identifier",
      unique_on (λ c, Some (svc_service_client_id c, svc_credential_identifier c)) (service_credentials d));
   ("service_credentials_token_prefix_key", unique_on (Some ∘ svc_token_prefix) (service_credentials d))].

Definition binding_constraints (d : DB) : list (string * bool) :=
  [("ck_binding_challenge_purpose",
      check_rows (λ c, bool_decide (chl_purpose c = "helpdesk_device_binding")) (device_binding_challenges d));
   ("uq_binding_active_device",
      unique_on (λ c, if decide (chl_status c = b_active) then Some (chl_device_id c, chl_purpose c) else None)
        (device_binding_challenges d));
   ("uq_binding_active_digest",
      unique_on (λ c, if decide (chl_status c = b_active) then Some (chl_code_digest c) else None)
        (device_binding_challenges d));
   ("device_binding_throttles_pkey", unique_on (Some ∘ thr_bucket) (device_binding_throttles d));
   ("ck_binding_throttle_attempts", check_rows (λ t, 0 <=? thr_attempts t) (device_binding_throttles d))].

Definition policy_constraints (d : DB) : list (string * bool) :=
  [("policy_definitions_name_key", unique_on (Some ∘ pdf_name) (policy_definitions d));
   ("uq_policy_versions_definition_version",
      unique_on (λ v, Some (pvr_definition_id v, pvr_version v)) (policy_versions d));
   ("ck_policy_versions_positive_version", check_rows (λ v, 1 <=? pvr_version v) (policy_versions d));
   ("ck_policy_assignments_scope_device",
      check_rows (λ a, (bool_decide (pas_scope a = "default") && is_none (pas_device_id a))
                       || (bool_decide (pas_scope a = "device") && is_some (pas_device_id a)))
        (policy_assignments d));
   ("uq_policy_assignments_device", unique_on pas_device_id (policy_assignments d));
   ("uq_policy_assignments_default",
      unique_on (λ a, if decide (pas_scope a = "default") then Some (pas_scope a) else None)
        (policy_assignments d));
   ("uq_policy_device_states_device", unique_on (Some ∘ pst_device_id) (policy_device_states d));
   ("uq_policy_applications_device_version_time",
      unique_on (λ p, Some (pap_device_id p, pap_policy_version_id p, instant (pap_applied_at p)))
        (policy_applications d))].

(** ck_security_events_type_channel *)
Definition type_in_channel (channel event_type : string) : bool :=
  (bool_decide (channel = "USB") && str_in event_type ["USB_DEVICE_CONNECTED"; "USB_DEVICE_DISCONNECTED"])
  || (bool_decide (channel = "PRINT") && bool_decide (event_type = "PRINT_JOB"))
  || (bool_decide (channel = "BROWSER") && str_in event_type ["BROWSER_UPLOAD"; "BROWSER_PASTE"]).

Definition security_constraints (d : DB) : list (string * bool) :=
  [("uq_security_events_device_identifier",
      unique_on (λ e, Some (sev_device_id e, sev_event_identifier e)) (security_events d));
   ("ck_security_events_type_channel",
      check_rows (λ e, type_in_channel (sev_channel e) (sev_event_type e)) (security_events d));
   ("ck_security_events_audit_severity",
      check_rows (λ e, bool_decide (sev_severity e = "INFO")) (security_events d))].

Definition sensor_constraints (d : DB) : list (string * bool) :=
  [("uq_browser_status_device_family",
      unique_on (λ r, Some (bsc_device_id r, bsc_browser_family r)) (browser_status_current d));
   ("ck_browser_status_family",
      check_rows (λ r, str_in (bsc_browser_family r) ["chrome"; "yandex"]) (browser_status_current d));
   ("ck_browser_status_install_type",
      check_rows (λ r, str_in (bsc_extension_install_type r) ["ADMIN"; "OTHER"; "UNKNOWN"])
        (browser_status_current d));
   ("uq_policy_sensor_health_device", unique_on (Some ∘ shc_device_id) (policy_sensor_health_current d));
   ("ck_policy_sensor_health_source_states",
      check_rows (λ r, forallb (λ s, str_in s ["READY"; "UNAVAILABLE"; "UNKNOWN"])
                         [shc_activity_listener_state r; shc_security_spool_state r;
                          shc_usb_source_state r; shc_print_source_state r])
        (policy_sensor_health_current d))].

Definition module_constraints (d : DB) : list (string * bool) :=
  [("module_definitions_module_key_key", unique_on (Some ∘ mdf_module_key) (module_definitions d));
   ("uq_module_versions_definition_version",
      unique_on (λ v, Some (mv_module_definition_id v, mv_version v)) (module_versions d));
   ("ck_module_validation_runs_status",
      check_rows (λ r, str_in (mvr_status r) ["succeeded"; "failed"]) (module_validation_runs d));
   ("ck_module_live_tests_platform",
      check_rows (λ t, str_in (mlt_platform t) ["linux_amd64"; "windows_amd64"]) (module_live_tests d));
   ("ck_module_live_tests_status",
      check_rows (λ t, str_in (mlt_status t) ["passed"; "failed"]) (module_live_tests d))].

Definition constraints (d : DB) : list (string * bool) :=
  command_constraints d ++ operation_constraints d ++ step_constraints d
  ++ evidence_constraints d ++ collection_constraints d ++ snapshot_constraints d
  ++ device_constraints d ++ update_constraints d ++ enrollment_constraints d
  ++ administration_constraints d ++ binding_constraints d ++ policy_constraints d
  ++ security_constraints d ++ sensor_constraints d ++ module_constraints d.

(** The first violated constraint, if any. *)
Definition violated (d : DB) : option string :=
  fst <$> head (List.filter (λ c : string * bool, negb c.2) (constraints d)).

Definition integrity_ok (d : DB) : bool := is_none (violated d).

(** ** Session operations *)

(** [datetime.now(UTC)] *)
Definition utcnow : Tx datetime := λ w,
  (Ok (utc_datetime (clock w (ticks w))), w <| ticks := S (ticks w) |>).

(** [now or datetime.now(UTC)] *)
Definition now_or (now : option datetime) : Tx datetime :=
  match now with Some t => mret t | None => utcnow end.

Definition uuid4 : Tx uuid := λ w, (Ok (seed w), w <| seed := seed w + 1 |>).

Section tables.
Context {R : Type} `{Table R}.

(** [select(R).where(P)]: the matching rows with their ids. *)
Definition select (P : uuid → R → bool) : Tx (list (uuid * R)) := λ w,
  (Ok (List.filter (λ e : uuid * R, P e.1 e.2) (map_to_list (table (db w)))), w).

(** [session.scalar(select(R).where(P))]: the first match or [None]. *)
Definition scalar (P : uuid → R → bool) : Tx (option (uuid * R)) := λ w,
  (Ok (head (List.filter (λ e : uuid * R, P e.1 e.2) (map_to_list (table (db w))))), w).

(** [session.get(R, id)], or a query by primary key alone. *)
Definition get (id : uuid) : Tx (option R) := λ w, (Ok (table (db w) !! id), w).

Definition with_table (f : gmap uuid R → gmap uuid R) (w : World) : World :=
  w <| db := set_table (f (table (db w))) (db w) |>.

(** [session.add(row)] of a new row *)
Definition insert (id : uuid) (row : R) : Tx unit := λ w,
  (Ok tt, with_table <[id := row]> w).

(** Assignment to attributes of the loaded row [id] *)
Definition update (id : uuid) (f : R → R) : Tx unit := λ w,
  (Ok tt, with_table (alter f id) w).

(** [session.delete(row)] *)
Definition delete_row (id : uuid) : Tx unit := λ w,
  (Ok tt, with_table (delete id) w).
End tables.

(** [session.flush()] *)
Definition flush : Tx unit := λ w,
  match violated (db w) with
  | Some name => (Exn (IntegrityError name), w)
  | None => (Ok tt, w)
  end.

(** [session.commit()]: flush, then make the working copy durable. *)
Definition make_durable : Tx unit := λ w, (Ok tt, w <| committed := db w |>).

Definition commit : Tx unit := flush ;; make_durable.

(** [session.rollback()] *)
Definition rollback : Tx unit := λ w, (Ok tt, w <| db := committed w |>).

(** [async with self._session_provider() as session: body]: the session starts
    from the committed state and what it has not committed is lost. *)
Definition in_session {A} (body : Tx A) : Tx A := λ w,
  let (r, w') := body (w <| db := committed w |>) in
  (r, w' <| db := committed w' |>).

(** [try: body except Exception: await session.rollback(); raise] *)
Definition rollback_on_error {A} (body : Tx A) : Tx A :=
  try_except body (λ e, Some (rollback ;; raise e)).

(** How a route runs one service call (endpoint_server/updates/admin_routes.py,
    [_commit_mutation]): its own session, committed on success and rolled back
    on an error. *)
Definition request {A} (body : Tx A) : Tx A :=
  in_session (rollback_on_error (a ← body; commit ;; mret a)).

(** ** Their weakest preconditions *)

Section session_wp.
Implicit Types (w : World).

Lemma wp_utcnow Q w :
  Q (Ok (utc_datetime (clock w (ticks w)))) (w <| ticks := S (ticks w) |>) → wp utcnow Q w.
Proof. by rewrite wp_unfold. Qed.

Lemma wp_uuid4 Q w : Q (Ok (seed w)) (w <| seed := seed w + 1 |>) → wp uuid4 Q w.
Proof. by rewrite wp_unfold. Qed.

Lemma wp_flush Q w :
  (integrity_ok (db w) = true → Q (Ok tt) w) →
  (∀ name, integrity_ok (db w) = false → Q (Exn (IntegrityError name)) w) → wp flush Q w.
Proof.
  rewrite wp_unfold. unfold flush, integrity_ok. destruct (violated (db w)); simpl; auto.
Qed.

Lemma wp_commit Q w :
  (integrity_ok (db w) = true → Q (Ok tt) (w <| committed := db w |>)) →
  (∀ name, integrity_ok (db w) = false → Q (Exn (IntegrityError name)) w) → wp commit Q w.
Proof.
  intros Hok Hexn. apply wp_bind. apply wp_flush; [|done].
  intros Hi. unfold wp_k. rewrite wp_unfold. simpl. auto.
Qed.

Lemma wp_rollback Q w : Q (Ok tt) (w <| db := committed w |>) → wp rollback Q w.
Proof. by rewrite wp_unfold. Qed.

Lemma wp_in_session {A} (body : Tx A) Q w :
  wp body (λ r w', Q r (w' <| db := committed w' |>)) (w <| db := committed w |>) →
  wp (in_session body) Q w.
Proof. rewrite !wp_unfold. unfold in_session. destruct (body _); simpl. done. Qed.

Lemma wp_rollback_on_error {A} (body : Tx A) Q w :
  wp body (λ r w', match r with
                   | Ok _ => Q r w'
                   | Exn e => Q (Exn e) (w' <| db := committed w' |>)
                   end) w →
  wp (rollback_on_error body) Q w.
Proof.
  intros Hb. apply wp_try. eapply wp_mono; [exact Hb|]. intros [a|e] w'; simpl; [done|].
  intros HQ. apply wp_bind, wp_rollback. unfold wp_k. by apply wp_raise.
Qed.

Context {R : Type} `{Table R}.

Lemma wp_select P Q w :
  (∀ l, NoDup l.*1 → (∀ id r, (id, r) ∈ l ↔ table (db w) !! id = Some r ∧ P id r = true) →
        Q (Ok l) w) →
  wp (select P) Q w.
Proof.
  rewrite wp_unfold. intros HQ. apply HQ.
  - apply NoDup_filter_bool, NoDup_fst_map_to_list.
  - intros id r. rewrite elem_of_filter_bool, elem_of_map_to_list. done.
Qed.

Lemma wp_scalar P Q w :
  (∀ id r, table (db w) !! id = Some r → P id r = true → Q (Ok (Some (id, r))) w) →
  ((∀ id r, table (db w) !! id = Some r → P id r = false) → Q (Ok None) w) →
  wp (scalar P) Q w.
Proof.
  rewrite wp_unfold. unfold scalar; simpl. intros Hs Hn.
  destruct (List.filter _ _) as [|[id r] l] eqn:E; simpl.
  - apply Hn. intros id r Hid. destruct (P id r) eqn:HP; [|done].
    assert ((id, r) ∈ []) as Hin; [|by apply elem_of_nil in Hin].
    rewrite <- E, elem_of_filter_bool, elem_of_map_to_list. done.
  - assert ((id, r) ∈ (id, r) :: l) as Hin by left.
    rewrite <- E, elem_of_filter_bool, elem_of_map_to_list in Hin. destruct Hin as [Hid HP].
    by apply Hs.
Qed.

Lemma wp_get id Q w : Q (Ok (table (db w) !! id)) w → wp (get id) Q w.
Proof. by rewrite wp_unfold. Qed.

Lemma wp_insert id (r : R) Q w : Q (Ok tt) (with_table <[id := r]> w) → wp (insert id r) Q w.
Proof. by rewrite wp_unfold. Qed.

Lemma wp_update id (f : R → R) Q w : Q (Ok tt) (with_table (alter f id) w) → wp (update id f) Q w.
Proof. by rewrite wp_unfold. Qed.

Lemma wp_delete_row id Q w :
  Q (Ok tt) (with_table (delete id : gmap uuid R → gmap uuid R) w) → wp (delete_row id) Q w.
Proof. by rewrite wp_unfold. Qed.
End session_wp.


(** ** What the constraints say *)

Lemma omap_NoDup_inj {A B} (f : A → option B) (l : list A) x y k :
  NoDup (omap f l) → NoDup l → x ∈ l → y ∈ l → f x = Some k → f y = Some k → x = y.
Proof.
  induction l as [|a l IH]; intros Hnd Hl Hx Hy Ex Ey; [by apply elem_of_nil in Hx|].
  apply NoDup_cons in Hl as [Ha Hl]. simpl in Hnd.
  assert (NoDup (omap f l)) as Hnd'
    by (destruct (f a); [by apply NoDup_cons in Hnd as [_ ?]|done]).
  assert (∀ z, z ∈ l → f z = Some k → f a = Some k → False) as Hno.
  { intros z Hz Ez Ea. rewrite Ea in Hnd. apply NoDup_cons in Hnd as [Hk _]. apply Hk.
    apply list_elem_of_omap. eauto. }
  apply elem_of_cons in Hx as [->|Hx], Hy as [->|Hy]; [done| | |by apply IH];
    exfalso; eauto.
Qed.

Lemma unique_on_inj {R K} `{EqDecision K} (key : R → option K) (t : gmap uuid R) i j x y k :
  unique_on key t = true → t !! i = Some x → t !! j = Some y →
  key x = Some k → key y = Some k → i = j ∧ x = y.
Proof.
  unfold unique_on. intros Hu%bool_decide_eq_true Hi Hj Hx Hy.
  assert ((i, x) = (j, y)) as [= -> ->]; [|done].
  eapply (omap_NoDup_inj (λ e : uuid * R, key e.2));
    [exact Hu|apply NoDup_map_to_list|by apply elem_of_map_to_list..|done|done].
Qed.

Lemma check_rows_lookup {R} (ok : R → bool) (t : gmap uuid R) i x :
  check_rows ok t = true → t !! i = Some x → ok x = true.
Proof.
  unfold check_rows. rewrite forallb_forall. intros Hall Hi. apply (Hall (i, x)).
  by apply list_elem_of_In, elem_of_map_to_list.
Qed.

Lemma integrity_constraint d name b :
  integrity_ok d = true → (name, b) ∈ constraints d → b = true.
Proof.
  unfold integrity_ok, violated. intros Hi Hin. destruct b; [done|].
  assert ((name, false) ∈ List.filter (λ c : string * bool, negb c.2) (constraints d)) as Hf
    by by apply elem_of_filter_bool.
  destruct (List.filter _ _); [by apply elem_of_nil in Hf|done].
Qed.

(** A constraint is one of the list. *)
Ltac constraint := apply list_elem_of_In; cbn; repeat first [left; reflexivity | right].
