(* ===== verification/AuditLog.v ===== *)
(** * Audit events (endpoint_server/audit/redaction.py, service.py)

    The recursive redaction of audit details and the append operation every
    service uses.  Text is ASCII here ([casefold] is ASCII lower-casing), and a
    value is a finite tree, so the circularity test on container identities
    cannot fire and is not modelled. *)

From S2P Require Import Prelude Store Session.

Module Redaction.

Definition REDACTED : string := "[REDACTED]".

Definition _SENSITIVE_KEY_PARTS : list string :=
  ["password"; "token"; "authorization"; "cookie"; "secret"; "bearer"].
Definition _SENSITIVE_EXACT_KEYS : list string := ["campaign"; "claim"; "receipt"].

(** ** ASCII character classes *)

Definition code (c : Ascii.ascii) : Z := Z.of_N (Ascii.N_of_ascii c).
Definition between (lo hi : Z) (c : Ascii.ascii) : bool := (lo <=? code c) && (code c <=? hi).

Definition is_upper := between 65 90.
Definition is_lower := between 97 122.
Definition is_digit := between 48 57.
Definition is_word (c : Ascii.ascii) : bool :=
  is_upper c || is_lower c || is_digit c || (code c =? 95).
(** [\s]: tab to carriage return, the information separators, space. *)
Definition is_space (c : Ascii.ascii) : bool :=
  between 9 13 c || between 28 32 c.

Definition lower (c : Ascii.ascii) : Ascii.ascii :=
  if is_upper c then Ascii.ascii_of_nat (Z.to_nat (code c + 32)) else c.

Definition chars (s : string) : list Ascii.ascii := String.list_ascii_of_string s.
Definition text (l : list Ascii.ascii) : string := String.string_of_list_ascii l.

(** ** [_BEARER_VALUE.sub]: [(?i)\bbearer\s+[^\s,;]+] *)

(** Drop a literal prefix, ignoring case. *)
Fixpoint drop_prefix (p l : list Ascii.ascii) : option (list Ascii.ascii) :=
  match p, l with
  | [], _ => Some l
  | a :: p', c :: l' => if decide (a = lower c) then drop_prefix p' l' else None
  | _ :: _, [] => None
  end.

(** Drop the longest prefix whose characters satisfy [P], which must not be
    empty. *)
Fixpoint drop_while (P : Ascii.ascii → bool) (l : list Ascii.ascii) : list Ascii.ascii :=
  match l with
  | c :: l' => if P c then drop_while P l' else l
  | [] => []
  end.
Definition drop_some (P : Ascii.ascii → bool) (l : list Ascii.ascii) : option (list Ascii.ascii) :=
  match l with
  | c :: l' => if P c then Some (drop_while P l') else None
  | [] => None
  end.

Definition is_value_char (c : Ascii.ascii) : bool :=
  negb (is_space c) && negb (code c =? 44) && negb (code c =? 59).

(** What follows a match of [bearer\s+[^\s,;]+] at the head of [l]. *)
Definition match_bearer (l : list Ascii.ascii) : option (list Ascii.ascii) :=
  l1 ← drop_prefix (chars "bearer") l; l2 ← drop_some is_space l1; drop_some is_value_char l2.

(** Leftmost, non-overlapping replacement; [prev] says whether the previous
    character is a word character.  [fuel] bounds the characters scanned. *)
Fixpoint sub_bearer (fuel : nat) (prev : bool) (l : list Ascii.ascii) : list Ascii.ascii :=
  match fuel, l with
  | S fuel', c :: l' =>
      match (if prev then None else match_bearer l) with
      | Some rest => chars "Bearer [REDACTED]" ++ sub_bearer fuel' true rest
      | None => c :: sub_bearer fuel' (is_word c) l'
      end
  | _, _ => []
  end.

Definition _redact_bearer_values (value : string) : string :=
  text (sub_bearer (length (chars value)) false (chars value)).

(** ** Sensitive keys *)

(** [_NON_ALPHANUMERIC.sub("", key.casefold())] *)
Definition normalize_key (key : string) : string :=
  text (List.filter (λ c, is_lower c || is_digit c) (map lower (chars key))).

(** [part in value] for strings *)
Fixpoint contains (part : string) (value : string) : bool :=
  String.prefix part value ||
  match value with
  | String _ rest => contains part rest
  | EmptyString => false
  end.

Definition _is_sensitive_key (key : string) : bool :=
  let normalized := normalize_key key in
  str_in normalized _SENSITIVE_EXACT_KEYS
  || existsb (λ part, contains part normalized) _SENSITIVE_KEY_PARTS.

(** ** Values *)

(** Keys and values of audit details by their Python type. *)
Inductive pykey :=
| KStr (s : string) | KInt (n : Z) | KBool (b : bool) | KUuid (u : uuid)
| KPath (s : string) | KOther.

#[warnings="-register-all"]
Inductive pyval :=
| PNone
| PBool (b : bool)
| PInt (n : Z)
| PFloat (x : spec_float)
| PStr (s : string)
| PEnum (value : pyval)
| PTime (isoformat : string)          (* datetime, date, time *)
| PUuid (u : uuid)
| PText (str : string)                (* PurePath, Decimal *)
| PMap (entries : list (pykey * pyval))
| PList (items : list pyval)          (* list, tuple *)
| POther (type_name : string).

Definition Z_str (n : Z) : string := pretty.pretty n.

Definition _json_key (k : pykey) : res string :=
  match k with
  | KStr s => Ok s
  | KInt n => Ok (Z_str n)
  | KBool b => Ok (if b then "True" else "False")
  | KUuid u => Ok (uuid_str u)
  | KPath s => Ok s
  | KOther => Exn (TypeError "audit detail mapping keys must be JSON-safe strings")
  end.

Definition is_finite (x : spec_float) : bool :=
  match x with S754_zero _ | S754_finite _ _ _ => true | _ => false end.

Definition res_bind {A B} (r : res A) (k : A → res B) : res B :=
  match r with Ok a => k a | Exn e => Exn e end.

Fixpoint _redact (value : pyval) : res json :=
  match value with
  | PNone => Ok JNull
  | PBool b => Ok (JBool b)
  | PInt n => Ok (JInt n)
  | PFloat x =>
      if is_finite x then Ok (JFloat x)
      else Exn (ValueError "audit detail numbers must be finite")
  | PStr s => Ok (JStr (_redact_bearer_values s))
  | PEnum v => _redact v
  | PTime iso => Ok (JStr iso)
  | PUuid u => Ok (JStr (uuid_str u))
  | PText s => Ok (JStr s)
  | PMap entries =>
      res_bind
        ((fix go (entries : list (pykey * pyval)) (result : list (string * json))
            : res (list (string * json)) :=
            match entries with
            | [] => Ok result
            | (raw_key, child) :: rest =>
                res_bind (_json_key raw_key) (λ key,
                res_bind (if _is_sensitive_key key then Ok (JStr REDACTED)
                          else _redact child) (λ v,
                go rest (assoc_set key v result)))
            end) entries [])
        (λ result, Ok (JObj result))
  | PList items =>
      res_bind
        ((fix go (items : list pyval) : res (list json) :=
            match items with
            | [] => Ok []
            | x :: rest =>
                res_bind (_redact x) (λ y, res_bind (go rest) (λ ys, Ok (y :: ys)))
            end) items)
        (λ items, Ok (JList items))
  | POther t => Exn (TypeError ("audit detail value of type " +:+ t +:+ " is not JSON-safe"))
  end.

Definition redact_audit_details (details : pyval) : res json := _redact details.

End Redaction.
Export Redaction.

(** [not value.strip()]: blank text *)
Definition is_blank (s : string) : bool := forallb is_space (chars s).

Definition lift_res {A} (r : res A) : Tx A := λ w, (r, w).

Definition append_audit_event (actor_kind : string) (actor_identifier : option string)
    (action object_kind : string) (object_identifier : option string)
    (request_id : string) (details : list (pykey * pyval))
    (occurred_at : option datetime) : Tx uuid :=
  timestamp ← now_or occurred_at;
  raise_if (negb (is_aware timestamp))
    (ValueError "audit event timestamp must be timezone-aware") ;;
  for_each [("actor_kind", actor_kind); ("action", action);
            ("object_kind", object_kind); ("request_id", request_id)]
    (λ field, raise_if (is_blank field.2)
       (ValueError ("audit event " +:+ field.1 +:+ " must not be blank"))) ;;
  redacted ← lift_res (redact_audit_details (PMap details));
  event_id ← uuid4;
  insert event_id {|
    aud_created_at := as_utc timestamp;
    aud_actor_kind := actor_kind;
    aud_actor_identifier := actor_identifier;
    aud_action := action;
    aud_object_kind := object_kind;
    aud_object_identifier := object_identifier;
    aud_request_id := request_id;
    aud_details := redacted |} ;;
  mret event_id.
