(* ===== verification/Frames.v ===== *)
(** * Frame reasoning

    Two-state properties of transactions: [pres R m] says that a run of [m],
    returned or raised, relates the world before to the world after by [R].
    [keeps f m], the common case, says that [m] leaves [f] of the world as it
    was, and the tactic [frame] proves it by the structure of [m]. *)

From S2P Require Import Prelude Store Session AuditLog.

Create HintDb frame.

Definition pres {A} (R : World → World → Prop) (m : Tx A) : Prop := ∀ w, R w (m w).2.

Definition same {X} (f : World → X) (w w' : World) : Prop := f w' = f w.

Abbreviation keeps f := (pres (same f)).

#[export] Instance same_preorder {X} (f : World → X) : PreOrder (same f).
Proof. split; [done|]. intros x y z Hxy Hyz. unfold same in *. congruence. Qed.

Section pres.
Context (R : World → World → Prop) `{!PreOrder R}.

Lemma pres_ret {A} (a : A) : pres R (mret a).
Proof. intros w. reflexivity. Qed.

Lemma pres_raise {A} e : pres R (raise (A:=A) e).
Proof. intros w. reflexivity. Qed.

Lemma pres_bind {A B} (m : Tx A) (k : A → Tx B) :
  pres R m → (∀ a, pres R (k a)) → pres R (m ≫= k).
Proof.
  intros Hm Hk w. specialize (Hm w). unfold mbind, M_bind.
  destruct (m w) as [[a|e] w'] eqn:E; simpl in *; [|done].
  etrans; [exact Hm|apply Hk].
Qed.

Lemma pres_raise_if c e : pres R (raise_if c e).
Proof. intros w. destruct c; reflexivity. Qed.

Lemma pres_when c m : (c = true → pres R m) → pres R (when c m).
Proof. intros Hm w. destruct c; simpl; [by apply Hm|reflexivity]. Qed.

Lemma pres_require {A} (o : option A) e : pres R (require o e).
Proof. intros w. destruct o; reflexivity. Qed.

Lemma pres_lift_res {A} (r : res A) : pres R (lift_res r).
Proof. intros w. reflexivity. Qed.

Lemma pres_try {A} (m : Tx A) h :
  pres R m → (∀ e m', h e = Some m' → pres R m') → pres R (try_except m h).
Proof.
  intros Hm Hh w. specialize (Hm w). unfold try_except.
  destruct (m w) as [[a|e] w'] eqn:E; simpl in *; [done|].
  destruct (h e) as [m'|] eqn:Ee; [|done]. etrans; [exact Hm|by eapply Hh].
Qed.

Lemma pres_for_each {A} (l : list A) body :
  (∀ x, x ∈ l → pres R (body x)) → pres R (for_each l body).
Proof.
  induction l as [|x l IH]; intros Hb; simpl; [apply pres_ret|].
  apply pres_bind; [apply Hb; left|]. intros _. apply IH. intros y Hy. apply Hb. by right.
Qed.

Lemma pres_for_return {A B} (l : list A) (body : A → Tx (option B)) :
  (∀ x, x ∈ l → pres R (body x)) → pres R (for_return l body).
Proof.
  induction l as [|x l IH]; intros Hb; simpl; [apply pres_ret|].
  apply pres_bind; [apply Hb; left|]. intros [b|]; [apply pres_ret|].
  apply IH. intros y Hy. apply Hb. by right.
Qed.

Lemma wp_pres {A} (m : Tx A) (Q : res A → World → Prop) w :
  pres R m → (∀ r w', R w w' → Q r w') → wp m Q w.
Proof. intros Hm HQ. rewrite wp_unfold. apply HQ, Hm. Qed.

Lemma wp_bind_pres {A B} (m : Tx A) (k : A → Tx B) (Q : res B → World → Prop) w :
  pres R m →
  (∀ a w', R w w' → wp (k a) Q w') →
  (∀ e w', R w w' → Q (Exn e) w') →
  wp (m ≫= k) Q w.
Proof.
  intros Hm Hk He. apply wp_bind, wp_pres; [done|]. intros [a|e] w' HR; simpl; auto.
Qed.
End pres.

Section pres_wp.
Context {A : Type} (R : World → World → Prop) (m : Tx A).

Lemma wp_of_pres w : pres R m → wp m (λ _, R w) w.
Proof. intros Hm. rewrite wp_unfold. apply Hm. Qed.

Lemma pres_of_wp : (∀ w, wp m (λ _, R w) w) → pres R m.
Proof. intros Hm w. specialize (Hm w). by rewrite wp_unfold in Hm. Qed.

(** Go on from a later world. *)
Lemma wp_trans `{!PreOrder R} w w1 : R w w1 → wp m (λ _, R w1) w1 → wp m (λ _, R w) w1.
Proof. intros H1 H2. eapply wp_mono; [exact H2|]. simpl. intros _ w2 H. by etrans. Qed.
End pres_wp.

(** A computation known from one world, and one known from all. *)
Lemma wp_bind_then {A B} (R : World → World → Prop) `{!PreOrder R} (m : Tx A) (k : A → Tx B) w :
  wp m (λ _, R w) w → (∀ a, pres R (k a)) → wp (m ≫= k) (λ _, R w) w.
Proof.
  intros Hm Hk. apply wp_bind. eapply wp_mono; [exact Hm|].
  intros [a|e] w1 H1; simpl; [|done]. apply wp_trans; [done..|]. by apply wp_of_pres.
Qed.

Lemma pres_mono {A} (R R' : World → World → Prop) (m : Tx A) :
  (∀ w w', R w w' → R' w w') → pres R m → pres R' m.
Proof. intros HR Hm w. apply HR, Hm. Qed.

Lemma pres_and {A} (R R' : World → World → Prop) (m : Tx A) :
  pres R m → pres R' m → pres (λ w w', R w w' ∧ R' w w') m.
Proof. intros H1 H2 w. auto. Qed.

(** The first part of a computation, taken together. *)
Lemma wp_assoc {A B C} (m : Tx A) (k : A → Tx B) (h : B → Tx C) Q w :
  wp ((m ≫= k) ≫= h) Q w → wp (m ≫= λ a, k a ≫= h) Q w.
Proof. rewrite !wp_unfold. unfold mbind, M_bind. by destruct (m w) as [[a|e] w']. Qed.

Lemma wp_and {A} (m : Tx A) (Q1 Q2 : res A → World → Prop) w :
  wp m Q1 w → wp m Q2 w → wp m (λ r w', Q1 r w' ∧ Q2 r w') w.
Proof. by rewrite !wp_unfold. Qed.

(** What a computation can return, from any world. *)
Definition returns {A} (P : A → Prop) (m : Tx A) : Prop :=
  ∀ w, wp m (λ r _, match r with Ok a => P a | Exn _ => True end) w.

Section returns.
Context {A : Type} (P : A → Prop).

Lemma returns_ret a : P a → returns P (mret a).
Proof. intros Ha w. done. Qed.

Lemma returns_raise e : returns P (raise e).
Proof. intros w. done. Qed.

Lemma returns_bind {B} (m : Tx B) k : (∀ b, returns P (k b)) → returns P (m ≫= k).
Proof.
  intros Hk w. apply wp_bind. rewrite wp_unfold. destruct (m w) as [[b|e] w']; simpl; [apply Hk|done].
Qed.

Lemma wp_returns (m : Tx A) (Q : res A → World → Prop) w :
  returns P m → wp m Q w → wp m (λ r w', Q r w' ∧ match r with Ok a => P a | Exn _ => True end) w.
Proof. intros Hr Hq. specialize (Hr w). rewrite wp_unfold in *. done. Qed.
End returns.

Ltac returns :=
  repeat lazymatch goal with
    | |- ∀ _, _ => intro
    | |- returns _ (mbind _ _) => apply returns_bind
    | |- returns _ (mret _) => apply returns_ret; try done
    | |- returns _ (raise _) => apply returns_raise
    | |- returns _ (match ?x with _ => _ end) => destruct x
    end.

(** Reads leave the world alone. *)
Section reads.
Context (R : World → World → Prop) `{!PreOrder R} {Row : Type} `{!Table Row}.

Lemma pres_select P : pres R (select (R:=Row) P).
Proof. intros w. reflexivity. Qed.
Lemma pres_scalar P : pres R (scalar (R:=Row) P).
Proof. intros w. reflexivity. Qed.
Lemma pres_get id : pres R (get (R:=Row) id).
Proof. intros w. reflexivity. Qed.
End reads.

(** Parts that only read. *)
Definition unmoved (w w' : World) : Prop := w' = w.

#[export] Instance unmoved_preorder : PreOrder unmoved.
Proof. split; [done|]. intros x y z. unfold unmoved. congruence. Qed.

Lemma pres_flush R `{!PreOrder R} : pres R flush.
Proof. intros w. unfold flush. destruct (violated (db w)); reflexivity. Qed.

(** The supply of ids only moves forward. *)
Definition seed_le (w w' : World) : Prop := seed w <= seed w'.

#[export] Instance seed_le_preorder : PreOrder seed_le.
Proof. unfold seed_le. split; [intros x; lia|intros x y z; lia]. Qed.

Lemma uuid4_seed : pres seed_le uuid4.
Proof. intros w. unfold seed_le; simpl. lia. Qed.
#[export] Hint Resolve uuid4_seed : frame.

(** The head of an application. *)
Ltac head_of t := lazymatch t with ?f _ => head_of f | _ => t end.

Ltac frame_step :=
  lazymatch goal with
  | |- ∀ _, _ => intro
  | |- pres _ (mret _) => apply pres_ret; apply _
  | |- pres _ (raise _) => apply pres_raise; apply _
  | |- pres _ (mbind _ _) => apply pres_bind; [apply _| |]
  | |- pres _ (try_except _ _) =>
      apply pres_try; [apply _| |
        let H := fresh in intros ? ? H; cbv beta in H; repeat case_match; try discriminate H;
        injection H as <-]
  | |- pres _ (raise_if _ _) => apply pres_raise_if; apply _
  | |- pres _ (when _ _) => apply pres_when; [apply _|]
  | |- pres _ (require _ _) => apply pres_require; apply _
  | |- pres _ (lift_res _) => apply pres_lift_res; apply _
  | |- pres _ (for_each _ _) => apply pres_for_each; [apply _|]
  | |- pres _ (for_return _ _) => apply pres_for_return; [apply _|]
  | |- pres _ (select _) => apply pres_select; apply _
  | |- pres _ (scalar _) => apply pres_scalar; apply _
  | |- pres _ (get _) => apply pres_get; apply _
  | |- pres _ flush => apply pres_flush; apply _
  | |- pres _ utcnow => first [intros ?; reflexivity | intros ?; apply Z.le_refl | solve [eauto with frame nocore]]
  | |- pres _ uuid4 => first [intros ?; reflexivity | intros ?; apply Z.le_refl | solve [eauto with frame nocore]]
  | |- pres _ (insert _ _) => first [intros ?; reflexivity | intros ?; apply Z.le_refl | solve [eauto with frame]]
  | |- pres _ (update _ _) => first [intros ?; reflexivity | intros ?; apply Z.le_refl | solve [eauto with frame]]
  | |- pres _ (delete_row _) => first [intros ?; reflexivity | intros ?; apply Z.le_refl | solve [eauto with frame]]
  | |- pres _ rollback => first [intros ?; reflexivity | intros ?; apply Z.le_refl | solve [eauto with frame]]
  | |- pres _ (match ?x with _ => _ end) => destruct x
  | |- pres _ (match ?x with _ => _ end _) => destruct x
  | |- pres _ (let '_ := ?x in _) => destruct x
  | |- pres _ ?m =>
      first [ assumption
            | solve [eauto with frame nocore]
            | let h := head_of m in progress unfold h ]
  end.

Ltac frame := repeat (frame_step; cbv zeta).

(** ** Symbolic execution

    [wp_step] runs the first operation of the computation of a [wp] goal;
    conditions and results are introduced with fresh names. *)

Lemma wp_lift_res {A} (r : res A) (Q : res A → World → Prop) w : Q r w → wp (lift_res r) Q w.
Proof. by rewrite wp_unfold. Qed.

Ltac wp_k := cbv beta iota; cbn beta iota delta [wp_k fst snd].

Ltac wp_rule :=
  lazymatch goal with
  | |- wp (mbind _ _) _ _ => apply wp_bind; wp_rule
  | |- wp (mret _) _ _ => apply wp_ret
  | |- wp (raise _) _ _ => apply wp_raise
  | |- wp (raise_if _ _) _ _ => apply wp_raise_if; intro
  | |- wp (when _ _) _ _ => apply wp_when; intro
  | |- wp (require _ _) _ _ => 
      apply wp_require;
        [let H := fresh "Hsome" in intros ? H; try first [discriminate H | injection H as <-]
        |let H := fresh "Hnone" in intros H; try discriminate H]
  | |- wp (lift_res _) _ _ => apply wp_lift_res
  | |- wp utcnow _ _ => apply wp_utcnow
  | |- wp uuid4 _ _ => apply wp_uuid4
  | |- wp (get _) _ _ => apply wp_get
  | |- wp (scalar _) _ _ => apply wp_scalar; [intros ? ? ? ?|intro]
  | |- wp (select _) _ _ => apply wp_select; intros ? ? ?
  | |- wp (insert _ _) _ _ => apply wp_insert
  | |- wp (update _ _) _ _ => apply wp_update
  | |- wp (delete_row _) _ _ => apply wp_delete_row
  | |- wp flush _ _ => apply wp_flush; [intro|intros ? ?]
  | |- wp commit _ _ => apply wp_commit; [intro|intros ? ?]
  | |- wp rollback _ _ => apply wp_rollback
  | |- wp (in_session _) _ _ => apply wp_in_session
  | |- wp (rollback_on_error _) _ _ => apply wp_rollback_on_error
  end.

Ltac wp_step := cbv beta; wp_rule; wp_k; try done.

(** Run to the end, by cases on the results of pure parts. *)
Ltac wp_run :=
  repeat (cbv beta zeta;
    lazymatch goal with
    | |- wp_k _ _ ?r _ => let E := fresh "E" in destruct r eqn:E; wp_k; try done
    | |- wp (mbind _ (match ?x with _ => _ end)) _ _ => destruct x
    | |- wp (match ?x with _ => _ end) _ _ => destruct x
    | |- wp _ _ _ => wp_step
    end).

(** Unfold the first operation. *)
Ltac wp_open :=
  cbv beta;
  lazymatch goal with
  | |- wp (mbind _ ?m) _ _ => let h := head_of m in unfold h
  | |- wp ?m _ _ => let h := head_of m in unfold h
  end.

(** Conditions of the code and equations between results, put to use. *)
Ltac wp_simpl := simpl in *; propify; simplify_eq; try done.

(** ** Requests

    What a request leaves committed: all of its body's work, or nothing. *)

Lemma wp_request {A} (body : Tx A) (Q : res A → World → Prop) w :
  keeps committed body →
  wp body (λ r w', match r with
                   | Ok a =>
                       (integrity_ok (db w') = true → Q (Ok a) (w' <| committed := db w' |>))
                       ∧ ∀ e, Q (Exn e) (w' <| db := committed w |>)
                   | Exn e => Q (Exn e) (w' <| db := committed w |>)
                   end) (w <| db := committed w |>) →
  wp (request body) Q w.
Proof.
  intros Hk Hb. apply wp_in_session, wp_rollback_on_error, wp_bind.
  rewrite wp_unfold in *. specialize (Hk (w <| db := committed w |>)). unfold same in Hk; simpl in Hk.
  destruct (body _) as [[a|e] w']; cbn [fst snd] in *; wp_k.
  - wp_step.
    + wp_step. destruct Hb as [Hb _]. exact (Hb H).
    + destruct Hb as [_ Hb]. rewrite <- Hk in Hb. apply Hb.
  - rewrite <- Hk in Hb. exact Hb.
Qed.

(** The same with any error handled alike: nothing is committed. *)
Lemma wp_request_ok {A} (body : Tx A) (Q : res A → World → Prop) w :
  keeps committed body →
  (∀ e w', committed w' = committed w → db w' = committed w → Q (Exn e) w') →
  wp body (λ r w', match r with
                   | Ok a => integrity_ok (db w') = true → Q (Ok a) (w' <| committed := db w' |>)
                   | Exn _ => True
                   end) (w <| db := committed w |>) →
  wp (request body) Q w.
Proof.
  intros Hk Hexn Hok. apply wp_request; [done|]. rewrite wp_unfold in *.
  specialize (Hk (w <| db := committed w |>)). unfold same in Hk; simpl in Hk.
  destruct (body _) as [[a|e] w']; cbn [fst snd] in *; [split; [done|]; intros e|]; by apply Hexn.
Qed.

(** ** Ids in use

    Every id in use is below the next one. *)

Definition fresh {V} (n : Z) (m : gmap uuid V) : Prop := ∀ id v, m !! id = Some v → id < n.

Lemma fresh_le {V} n k (m : gmap uuid V) : fresh n m → n <= k → fresh k m.
Proof. intros Hf Hk id v Hv. specialize (Hf id v Hv). lia. Qed.

(** The id of a new row is not in use. *)
Lemma fresh_lookup {V} n (m : gmap uuid V) : fresh n m → m !! n = None.
Proof. intros Hf. destruct (m !! n) eqn:E; [|done]. specialize (Hf _ _ E). lia. Qed.

Lemma fresh_insert {V} n k (m : gmap uuid V) v : fresh n m → k < n → fresh n (<[k := v]> m).
Proof. intros Hf Hk id u [[-> _]|[_ Hu]]%lookup_insert_Some; [done|]. by eapply Hf. Qed.

(** The world a new session starts from. *)
Definition stored (w : World) : World := w <| db := committed w |>.

(** ** Rows changed together *)

(** The rows that [l] lists are changed by [f] and the others kept. *)
Definition updated {V} (f : V → V) (l : list (uuid * V)) (m m' : gmap uuid V) : Prop :=
  ∀ id, m' !! id = (λ v, if bool_decide (id ∈ l.*1) then f v else v) <$> m !! id.

Lemma updated_nil {V} (f : V → V) m : updated f [] m m.
Proof. intros id. by destruct (m !! id). Qed.

Lemma updated_cons {V} (f : V → V) id v l m m' :
  id ∉ l.*1 → updated f l (alter f id m) m' → updated f ((id, v) :: l) m m'.
Proof.
  intros Hid Hl j. rewrite Hl. destruct (decide (id = j)) as [<-|Hne].
  - rewrite lookup_alter_eq. destruct (m !! id); simpl; [|done].
    rewrite bool_decide_false by done. rewrite bool_decide_true; [done|left].
  - rewrite lookup_alter_ne by done. destruct (m !! j); simpl; [|done]. f_equal.
    rewrite (bool_decide_ext (j ∈ l.*1) (j ∈ ((id, v) :: l).*1)); [done|].
    simpl. rewrite elem_of_cons. split; [by right|]. by intros [->|?].
Qed.

(** [l] lists the rows of [m] that satisfy [P]. *)
Definition selected {V} (P : uuid → V → bool) (m : gmap uuid V) (l : list (uuid * V)) : Prop :=
  ∀ id v, (id, v) ∈ l ↔ m !! id = Some v ∧ P id v = true.

Lemma selected_order {V} P m (l : list (uuid * V)) leb : selected P m l → selected P m (order_by leb l).
Proof. intros Hl id v. by rewrite elem_of_order_by. Qed.

Lemma selected_decide {V} P m (l : list (uuid * V)) id v :
  selected P m l → m !! id = Some v → bool_decide (id ∈ l.*1) = P id v.
Proof.
  intros Hl Hid. destruct (P id v) eqn:HP.
  - apply bool_decide_eq_true, list_elem_of_fmap. exists (id, v). split; [done|]. by apply Hl.
  - apply bool_decide_eq_false. intros ([j u] & -> & Hin)%list_elem_of_fmap.
    apply Hl in Hin as [Hj Hu]. simpl in *. congruence.
Qed.

Lemma updated_selected {V} P (f : V → V) m m' l :
  selected P m l → updated f l m m' → ∀ id, m' !! id = (λ v, if P id v then f v else v) <$> m !! id.
Proof.
  intros Hl Hf id. rewrite Hf. destruct (m !! id) as [v|] eqn:Hid; simpl; [|done].
  by rewrite (selected_decide P m l id v).
Qed.

(** Updating each row of a list changes only its table. *)
Lemma update_each_spec `{TableLaws R} (f : R → R) (l : list (uuid * R)) w :
  NoDup l.*1 →
  wp (for_each l (λ x : uuid * R, update x.1 f)) (λ r w', r = Ok tt ∧
    ∃ m', w' = with_table (λ _, m') w ∧ updated f l (table (db w)) m') w.
Proof.
  revert w. induction l as [|[id v] l IH]; intros w Hnd; simpl.
  { wp_step. split; [done|]. exists (table (db w)). split; [|apply updated_nil].
    unfold with_table. rewrite set_table_same. by destruct w. }
  apply NoDup_cons in Hnd as [Hid Hnd]. wp_step. eapply wp_mono; [by apply IH|].
  intros r w2 (-> & m' & -> & Hm). split; [done|]. exists m'. unfold with_table in *. simpl in *.
  rewrite table_set in Hm. rewrite set_set. split; [done|]. by apply updated_cons.
Qed.

(** Deleting each row of a list. *)
Lemma delete_each_spec `{TableLaws R} (l : list (uuid * R)) w :
  wp (for_each l (λ x : uuid * R, delete_row (R := R) x.1)) (λ r w', r = Ok tt ∧
    ∃ m', w' = with_table (λ _, m') w
      ∧ ∀ id, m' !! id = if bool_decide (id ∈ l.*1) then None else table (db w) !! id) w.
Proof.
  revert w. induction l as [|[id v] l IH]; intros w; simpl.
  { wp_step. split; [done|]. exists (table (db w)). split; [|done].
    unfold with_table. rewrite set_table_same. by destruct w. }
  wp_step. eapply wp_mono; [by apply IH|].
  intros r w2 (-> & m' & -> & Hm). split; [done|]. exists m'. unfold with_table in *. simpl in *.
  rewrite table_set in Hm. rewrite set_set. split; [done|]. intros j. rewrite Hm.
  assert (j ∈ ((id, v) :: l).*1 ↔ j = id ∨ j ∈ l.*1) as Hj by apply elem_of_cons.
  destruct (decide (j = id)) as [->|Hne].
  - rewrite lookup_delete_eq. do 2 case_bool_decide; naive_solver.
  - rewrite lookup_delete_ne by done. do 2 case_bool_decide; naive_solver.
Qed.

(** A batch of at most [limit] rows that satisfy [P]: none is left when there
    are fewer, and none that is left comes before a listed one. *)
Definition batch {V} (P : uuid → V → bool) (key : uuid * V → Z) (limit : Z) (m : gmap uuid V)
    (l : list (uuid * V)) : Prop :=
  Z.of_nat (length l) <= limit ∧ NoDup l.*1
  ∧ (∀ id v, (id, v) ∈ l → m !! id = Some v ∧ P id v = true)
  ∧ ∀ id v, m !! id = Some v → P id v = true →
      (id, v) ∈ l ∨ (Z.of_nat (length l) = limit ∧ ∀ x, x ∈ l → key x <= key (id, v)).

Lemma sorted_take_drop {A} (R : A → A → Prop) n l x y :
  StronglySorted R l → x ∈ take n l → y ∈ drop n l → R x y.
Proof.
  intros Hs. rewrite <- (take_drop n l) in Hs. intros Hx Hy.
  by eapply StronglySorted_app_1_elem_of.
Qed.

Lemma batch_take {V} P (key : uuid * V → Z) leb limit m l :
  0 <= limit →
  (∀ a b c, leb a b = true → leb b c = true → leb a c = true) →
  (∀ a b, leb a b = true ∨ leb b a = true) →
  (∀ a b, leb a b = true → key a <= key b) →
  NoDup l.*1 → selected P m l →
  batch P key limit m (take (Z.to_nat limit) (order_by leb l)).
Proof.
  intros Hpos Ht Htot Hkey Hnd Hl. apply (selected_order _ _ _ leb) in Hl.
  assert (NoDup (order_by leb l).*1) as Hnd' by by rewrite order_by_Permutation.
  pose proof (order_by_sorted leb l Ht Htot) as Hs. set (k := order_by leb l) in *.
  split_and!.
  - rewrite length_take. lia.
  - rewrite fmap_take. eapply sublist_NoDup; [exact Hnd'|apply sublist_take].
  - intros id v Hin. apply Hl. by apply (subseteq_take (Z.to_nat limit) k).
  - intros id v Hid HP. assert ((id, v) ∈ k) as Hin by by apply Hl.
    rewrite <- (take_drop (Z.to_nat limit) k) in Hin.
    apply elem_of_app in Hin as [Hin|Hin]; [by left|right]. split.
    + rewrite length_take. assert (length (drop (Z.to_nat limit) k) ≠ 0%nat) as Hd
        by (intros Hz%length_zero_iff_nil; rewrite Hz in Hin; by apply elem_of_nil in Hin).
      rewrite length_drop in Hd. lia.
    + intros x Hx. apply Hkey. by eapply (sorted_take_drop (bool_rel leb)).
Qed.
