(* ===== verification/AuditFacts.v ===== *)
(** * Audit events: properties

    What the redaction removes from audit details, and what appending an event
    changes. *)

From S2P Require Import Prelude Store Session AuditLog Frames.

(** ** Induction on values, through the lists they nest *)

Section pyval_ind.
Variable P : pyval → Prop.
Hypotheses (Hnone : P PNone) (Hbool : ∀ b, P (PBool b)) (Hint : ∀ n, P (PInt n))
  (Hfloat : ∀ x, P (PFloat x)) (Hstr : ∀ s, P (PStr s))
  (Henum : ∀ v, P v → P (PEnum v)) (Htime : ∀ s, P (PTime s)) (Huuid : ∀ u, P (PUuid u))
  (Htext : ∀ s, P (PText s)) (Hmap : ∀ es, Forall (λ e, P e.2) es → P (PMap es))
  (Hlist : ∀ l, Forall P l → P (PList l)) (Hother : ∀ t, P (POther t)).

Fixpoint pyval_nested_ind (v : pyval) : P v :=
  match v with
  | PNone => Hnone | PBool b => Hbool b | PInt n => Hint n | PFloat x => Hfloat x
  | PStr s => Hstr s | PEnum v => Henum v (pyval_nested_ind v) | PTime s => Htime s
  | PUuid u => Huuid u | PText s => Htext s
  | PMap es => Hmap es
      ((fix go es : Forall (λ e, P e.2) es :=
          match es with
          | [] => Forall_nil_2 _
          | e :: es => Forall_cons_2 _ _ _ (pyval_nested_ind e.2) (go es)
          end) es)
  | PList l => Hlist l
      ((fix go l : Forall P l :=
          match l with
          | [] => Forall_nil_2 _
          | x :: l => Forall_cons_2 _ _ _ (pyval_nested_ind x) (go l)
          end) l)
  | POther t => Hother t
  end.
End pyval_ind.

(** ** Redaction *)

(** *** Bearer tokens in text *)

Definition placeholder : list Ascii.ascii := chars "Bearer [REDACTED]".

(** A word boundary after [pre]; [prev] says what stands before it. *)
Definition boundary (prev : bool) (pre : list Ascii.ascii) : bool :=
  match last pre with Some c => negb (is_word c) | None => negb prev end.

(** Wherever [bearer\s+[^\s,;]+] matches at a word boundary, what it matches is the
    placeholder. *)
Definition only_placeholders (prev : bool) (l : list Ascii.ascii) : Prop :=
  ∀ pre post rest, l = pre ++ post → boundary prev pre = true → match_bearer post = Some rest →
    post = placeholder ++ rest.

Definition bearer_free (s : string) : Prop := only_placeholders false (chars s).

Lemma drop_while_stops P l c l' : drop_while P l = c :: l' → P c = false.
Proof.
  induction l as [|a l IH]; simpl; [done|]. destruct (P a) eqn:E; [done|]. by intros [= <- <-].
Qed.

Lemma drop_while_shorter P l : (length (drop_while P l) <= length l)%nat.
Proof. induction l as [|a l IH]; simpl; [lia|]. destruct (P a); simpl; lia. Qed.

Lemma drop_some_length P l r : drop_some P l = Some r → (length r < length l)%nat.
Proof.
  destruct l as [|c l]; simpl; [done|]. destruct (P c); [|done]. intros [= <-].
  pose proof (drop_while_shorter P l). lia.
Qed.

Lemma drop_prefix_length p l r : drop_prefix p l = Some r → (length r <= length l)%nat.
Proof.
  revert l. induction p as [|a p IH]; intros l; simpl; [by intros [= <-]|].
  destruct l as [|c l]; [done|]. destruct (decide _); [|done]. intros H%IH. simpl. lia.
Qed.

(** What follows a match is shorter and does not go on with it. *)
Lemma match_bearer_rest l r :
  match_bearer l = Some r →
  (length r < length l)%nat ∧ ∀ c l', r = c :: l' → is_value_char c = false.
Proof.
  unfold match_bearer. intros (l1 & H1 & (l2 & H2 & H3)%bind_Some)%bind_Some. split.
  - apply drop_prefix_length in H1. apply drop_some_length in H2, H3. lia.
  - intros c l' ->. destruct l2 as [|a l2]; simpl in H3; [done|]. destruct (is_value_char a); [|done].
    injection H3 as H3. by eapply drop_while_stops.
Qed.

(** The first character of a match. *)
Definition bearer_first : Ascii.ascii := Ascii.ascii_of_nat 98.
Definition starts_bearer (c : Ascii.ascii) : bool := bool_decide (bearer_first = lower c).

Lemma match_bearer_head l r : match_bearer l = Some r → ∃ c l', l = c :: l' ∧ starts_bearer c = true.
Proof.
  unfold match_bearer. change (chars "bearer") with (bearer_first :: chars "earer").
  intros (l1 & H1 & _)%bind_Some. destruct l as [|c l]; [done|].
  exists c, l. split; [done|]. apply bool_decide_eq_true. cbn [drop_prefix] in H1.
  by destruct (decide (bearer_first = lower c)).
Qed.

(** A letter in either case is a word character, a value and no space. *)
Lemma lower_letter c a : a = lower c → is_lower a = true →
  is_word c = true ∧ is_space c = false ∧ is_value_char c = true.
Proof.
  intros ->. unfold lower, is_word, is_space, is_value_char, is_upper, is_lower, is_digit, between.
  destruct c as [[] [] [] [] [] [] [] []]; vm_compute; auto.
Qed.

(** The replacement copies a character or puts the placeholder for a match. *)
Lemma sub_bearer_cons n prev c l :
  sub_bearer (S n) prev (c :: l)
  = match (if prev then None else match_bearer (c :: l)) with
    | Some r => placeholder ++ sub_bearer n true r
    | None => c :: sub_bearer n (is_word c) l
    end.
Proof. done. Qed.

(** [out] is what the replacement makes of [l] from some point on. *)
Definition replaced (prev : bool) (l out : list Ascii.ascii) : Prop :=
  ∃ n, (length l <= n)%nat ∧ out = sub_bearer n prev l.

Lemma replaced_nil prev out : replaced prev [] out → out = [].
Proof. intros ([|n] & _ & ->); done. Qed.

Lemma replaced_cons prev c l out :
  replaced prev (c :: l) out →
  (∃ r out', prev = false ∧ match_bearer (c :: l) = Some r ∧ out = placeholder ++ out' ∧ replaced true r out')
  ∨ ∃ out', out = c :: out' ∧ replaced (is_word c) l out'
      ∧ (prev = false → match_bearer (c :: l) = None).
Proof.
  intros ([|n] & Hn & ->); [simpl in Hn; lia|]. rewrite sub_bearer_cons. simpl in Hn.
  destruct prev.
  - right. eexists. split; [done|]. split; [|done]. exists n. split; [lia|done].
  - destruct (match_bearer (c :: l)) as [r|] eqn:E.
    + left. exists r, (sub_bearer n true r). split_and!; try done. exists n. split; [|done].
      apply match_bearer_rest in E as [E _]. simpl in E. lia.
    + right. eexists. split; [done|]. split; [|done]. exists n. split; [lia|done].
Qed.

(** Inside a word nothing is replaced, so that a literal is found where it was. *)
Lemma replaced_prefix p l out x :
  forallb is_lower p = true → replaced true l out → drop_prefix p out = Some x →
  ∃ y, drop_prefix p l = Some y ∧ replaced true y x.
Proof.
  revert l out. induction p as [|a p IH]; intros l out Hp Hr Hx; simpl in *.
  { injection Hx as <-. eauto. }
  apply andb_prop in Hp as [Ha Hp]. destruct l as [|c l]; [by rewrite (replaced_nil _ _ Hr) in Hx|].
  destruct (replaced_cons _ _ _ _ Hr) as [(? & ? & [=] & _)|(out' & -> & Hr' & _)]. simpl in Hx.
  destruct (decide (a = lower c)) as [E|]; [|done]. destruct (lower_letter c a E Ha) as (Hw & _ & _).
  rewrite Hw in Hr'. by apply (IH l out').
Qed.

Lemma starts_bearer_facts c : starts_bearer c = true → is_space c = false ∧ is_value_char c = true.
Proof. intros H%bool_decide_eq_true. by apply (lower_letter c bearer_first). Qed.

(** Characters that no match begins with are copied. *)
Lemma replaced_while l out prev :
  replaced prev l out → ∃ prev', replaced prev' (drop_while is_space l) (drop_while is_space out).
Proof.
  revert prev out. induction l as [|c l IH]; intros prev out Hr.
  { pose proof (replaced_nil _ _ Hr) as ->. by exists prev. }
  pose proof Hr as [(r & out' & -> & Hm & Ho & _)|(out' & -> & Hr' & _)]%replaced_cons.
  - pose proof Hm as (c' & l' & [= <- <-] & Hc)%match_bearer_head.
    apply starts_bearer_facts in Hc as [Hc _]. exists false. simpl. rewrite Hc.
    by assert (drop_while is_space out = out) as -> by by rewrite Ho.
  - simpl. destruct (is_space c); [by eapply IH|by exists prev].
Qed.

Lemma replaced_match c l out :
  match_bearer (c :: l) = None → replaced (is_word c) l out → match_bearer (c :: out) = None.
Proof.
  intros Hm Hr. destruct (match_bearer (c :: out)) as [x|] eqn:Hx; [exfalso|done].
  unfold match_bearer in Hx. apply bind_Some in Hx as (x1 & H1 & (x2 & H2 & H3)%bind_Some).
  change (chars "bearer") with (bearer_first :: chars "earer") in H1. cbn [drop_prefix] in H1.
  destruct (decide (bearer_first = lower c)) as [E|]; [|done].
  destruct (lower_letter c _ E eq_refl) as (Hw & _ & _). rewrite Hw in Hr.
  destruct (replaced_prefix (chars "earer") l out x1 eq_refl Hr H1) as (y1 & Hy1 & Hr1).
  destruct y1 as [|d y1]; [by rewrite (replaced_nil _ _ Hr1) in H2|].
  destruct (replaced_cons _ _ _ _ Hr1) as [(? & ? & [=] & _)|(out' & -> & Hr1' & _)].
  simpl in H2. destruct (is_space d) eqn:Hd; [|done]. injection H2 as <-.
  destruct (replaced_while _ _ _ Hr1') as [prev' Hr2].
  assert (drop_some is_value_char (drop_while is_space y1) = None) as Hy2.
  { destruct (drop_some is_value_char (drop_while is_space y1)) eqn:Ey; [|done].
    rewrite <- Hm. unfold match_bearer. change (chars "bearer") with (bearer_first :: chars "earer").
    cbn [drop_prefix]. rewrite decide_True by done. rewrite Hy1. simpl. rewrite Hd. simpl. by rewrite Ey. }
  destruct (drop_while is_space y1) as [|e y2]; [by rewrite (replaced_nil _ _ Hr2) in H3|].
  simpl in Hy2. destruct (is_value_char e) eqn:He; [done|].
  destruct (replaced_cons _ _ _ _ Hr2) as [(? & ? & _ & Hme & _)|(out2 & E2 & _)].
  - apply match_bearer_head in Hme as (? & ? & [= <- _] & Hb%starts_bearer_facts). destruct Hb as [_ Hb]. congruence.
  - rewrite E2 in H3. simpl in H3. by rewrite He in H3.
Qed.

Lemma boundary_cons prev c pre : boundary prev (c :: pre) = boundary (is_word c) pre.
Proof.
  unfold boundary. destruct pre as [|d pre]; [done|]. rewrite last_cons_cons.
  destruct (last (d :: pre)) eqn:E; [done|]. by apply last_None in E.
Qed.

Lemma boundary_app prev q d k : boundary prev (q ++ d :: k) = boundary true (d :: k).
Proof.
  unfold boundary. rewrite last_app_cons. destruct (last (d :: k)) eqn:E; [done|]. by apply last_None in E.
Qed.

(** No match begins within the placeholder but its own. *)
Lemma placeholder_inside pre post tail :
  pre ≠ [] → placeholder ++ tail = pre ++ post → (length pre < length placeholder)%nat → match_bearer post = None.
Proof.
  intros Hpre E Hlen. destruct (match_bearer post) as [r|] eqn:Hm; [exfalso|done].
  apply match_bearer_head in Hm as (c & post' & -> & Hc).
  assert ((placeholder ++ tail) !! length pre = Some c) as Hl by (rewrite E; by apply list_lookup_middle).
  rewrite lookup_app_l in Hl by done.
  assert (∀ i, i ≠ 0%nat → placeholder !! i = Some c → starts_bearer c = false) as Hnone.
  { intros i Hi Hic. do 17 (destruct i as [|i]; [try done; injection Hic as <-; vm_compute; reflexivity|]). done. }
  rewrite (Hnone (length pre)) in Hc; [done| |done]. by destruct pre.
Qed.

Lemma replaced_only_placeholders prev l out : replaced prev l out → only_placeholders prev out.
Proof.
  intros (n & Hn & ->). revert prev l Hn.
  induction n as [|n IH]; intros prev l Hn pre post r E Hb Hm.
  { simpl in E. destruct pre; [|done]. simpl in E. by rewrite <- E in Hm. }
  destruct l as [|c l]; [simpl in E; destruct pre; [|done]; simpl in E; by rewrite <- E in Hm|].
  assert (Hr : replaced prev (c :: l) (sub_bearer (S n) prev (c :: l))) by by exists (S n).
  rewrite sub_bearer_cons in E. simpl in Hn. destruct (if prev then None else match_bearer (c :: l)) as [rest|] eqn:Em.
  - destruct prev; [done|]. pose proof (match_bearer_rest _ _ Em) as [Hlen Hstop]. simpl in Hlen.
    assert (Hhead : ∀ d out', sub_bearer n true rest = d :: out' → is_value_char d = false).
    { intros d out' Hd. destruct rest as [|e rest]; [by destruct n|].
      destruct (replaced_cons true e rest (sub_bearer n true (e :: rest))) as [(? & ? & [=] & _)|(o & Eo & _)].
      { exists n. split; [simpl in *; lia|done]. }
      rewrite Eo in Hd. injection Hd as <- _. by eapply Hstop. }
    destruct (decide (length placeholder <= length pre)%nat) as [Hlong|Hshort].
    + assert (∃ k, pre = placeholder ++ k ∧ sub_bearer n true rest = k ++ post) as (k & -> & Ek).
      { apply app_eq_inv in E as [(k & Ep & E)|(k & Ep & E)]; [|by exists k].
        assert (k = []) as -> by (apply (f_equal length) in Ep; rewrite length_app in Ep; destruct k; simpl in *; [done|lia]).
        exists []. rewrite app_nil_r in *. by subst. }
      destruct k as [|d k].
      * apply match_bearer_head in Hm as (d & out' & -> & Hs). specialize (Hhead _ _ Ek).
        apply starts_bearer_facts in Hs as [_ Hs]. congruence.
      * apply (IH true rest) with (pre := d :: k); [lia|done| |done].
        by rewrite boundary_app in Hb.
    + destruct (decide (pre = [])) as [->|Hne].
      * simpl in E. subst post. f_equal.
        unfold match_bearer in Hm. simpl in Hm.
        destruct (sub_bearer n true rest) as [|d out'] eqn:Eo; simpl in Hm; [by injection Hm as <-|].
        rewrite (Hhead d out') in Hm by done. by injection Hm as <-.
      * by rewrite (placeholder_inside pre post (sub_bearer n true rest)) in Hm by (done || lia).
  - destruct pre as [|d pre].
    + simpl in E. subst post. unfold boundary in Hb. simpl in Hb. destruct prev; [done|].
      rewrite (replaced_match c l) in Hm; [done|done|]. exists n. split; [lia|done].
    + injection E as <- E. rewrite boundary_cons in Hb. by apply (IH (is_word c) l) with (pre := pre); [lia|..].
Qed.

(** The redaction of text leaves no bearer token. *)
Lemma redact_bearer_free s : bearer_free (_redact_bearer_values s).
Proof.
  unfold bearer_free, _redact_bearer_values, chars, text.
  rewrite String.list_ascii_of_string_of_list_ascii. apply (replaced_only_placeholders false (chars s)).
  by eexists.
Qed.

Lemma redacted_bearer_free : bearer_free REDACTED.
Proof. change REDACTED with (_redact_bearer_values REDACTED). apply redact_bearer_free. Qed.

(** *** Values *)

(** The texts of paths, decimals, times and UUIDs, which are stored as they are. *)
Fixpoint other_texts (v : pyval) : list string :=
  match v with
  | PTime s | PText s => [s]
  | PUuid u => [uuid_str u]
  | PEnum v => other_texts v
  | PMap es => (fix go (es : list (pykey * pyval)) : list string :=
                  match es with [] => [] | (_, v) :: es => other_texts v ++ go es end) es
  | PList l => (fix go (l : list pyval) : list string :=
                  match l with [] => [] | v :: l => other_texts v ++ go l end) l
  | _ => []
  end.

(** At any depth, every entry whose key is sensitive holds the placeholder, and no text has a
    bearer token, unless it is one of [exempt]. *)
#[warnings="-register-all"]
Inductive redacted (exempt : list string) : json → Prop :=
| red_null : redacted exempt JNull
| red_bool b : redacted exempt (JBool b)
| red_int n : redacted exempt (JInt n)
| red_float x : redacted exempt (JFloat x)
| red_str s : bearer_free s ∨ s ∈ exempt → redacted exempt (JStr s)
| red_list l : Forall (redacted exempt) l → redacted exempt (JList l)
| red_obj es :
    Forall (λ e : string * json, redacted exempt e.2
              ∧ (_is_sensitive_key e.1 = true → e.2 = JStr REDACTED)) es →
    redacted exempt (JObj es).

Definition entry_redacted (exempt : list string) (e : string * json) : Prop :=
  redacted exempt e.2 ∧ (_is_sensitive_key e.1 = true → e.2 = JStr REDACTED).

Lemma assoc_set_entries exempt key v (l : list (string * json)) :
  entry_redacted exempt (key, v) → Forall (entry_redacted exempt) l →
  Forall (entry_redacted exempt) (assoc_set key v l).
Proof.
  intros Hv Hl. induction Hl as [|[k x] l Hx Hl IH]; simpl; [by apply Forall_singleton|].
  destruct (decide (k = key)) as [->|]; by constructor.
Qed.

Lemma redact_value v : ∀ exempt j, other_texts v ⊆ exempt → _redact v = Ok j → redacted exempt j.
Proof.
  induction v using pyval_nested_ind; intros exempt j Hx Hj; simpl in Hj, Hx;
    try (injection Hj as <-; by constructor); try discriminate; auto.
  - destruct (is_finite x); [injection Hj as <-; constructor|discriminate].
  - injection Hj as <-. constructor. left. apply redact_bearer_free.
  - injection Hj as <-. constructor. set_solver.
  - injection Hj as <-. constructor. set_solver.
  - injection Hj as <-. constructor. set_solver.
  - (* mappings *)
    revert Hj. generalize (@Forall_nil_2 _ (entry_redacted exempt)).
    generalize (@nil (string * json)). intros acc Hacc Hj. revert acc Hacc j Hj.
    induction H as [|[k v] es Hv Hes IH]; simpl; intros acc Hacc j Hj.
    + injection Hj as <-. by constructor.
    + destruct (_json_key k) as [key|]; simpl in Hj; [|discriminate].
      destruct (_is_sensitive_key key) eqn:Hs; simpl in Hj.
      * eapply IH; [set_solver| |exact Hj]. apply assoc_set_entries; [|done].
        split; [constructor; left; apply redacted_bearer_free|done].
      * destruct (_redact v) as [x|] eqn:Ex; simpl in Hj; [|discriminate].
        eapply IH; [set_solver| |exact Hj]. apply assoc_set_entries; [|done].
        split; [apply Hv; [set_solver|done]|]. simpl. congruence.
  - (* lists *)
    revert j Hj. induction H as [|x l Hv Hl IH]; simpl; intros j Hj.
    + injection Hj as <-. by repeat constructor.
    + destruct (_redact x) as [y|] eqn:Ey; simpl in Hj; [|discriminate].
      destruct ((fix go (items : list pyval) : res (list json) := _) l) as [ys|] eqn:Eys;
        simpl in Hj; [|discriminate].
      injection Hj as <-. simpl in Hx. specialize (IH ltac:(set_solver) (JList ys) eq_refl).
      inversion IH; subst. constructor. constructor; [apply Hv; [set_solver|done]|done].
Qed.

(** An appended event's details are redacted, and nothing but the audit table
    and the supplies of the world change. *)
Definition unaudited (w : World) :=
  (committed w, clock w, commands (db w), command_deliveries (db w), command_results (db w),
   endpoint_operations (db w), endpoint_operation_steps (db w), operation_evidence (db w),
   module_versions (db w), context_collections (db w), context_snapshots (db w),
   context_diffs (db w), context_current (db w), device_events (db w), devices (db w),
   device_instances (db w), device_sessions (db w), service_clients (db w),
   update_builds (db w), update_rollouts (db w), update_targets (db w), update_reports (db w)).

Lemma append_audit_event_frame a b c d e f g h : keeps unaudited (append_audit_event a b c d e f g h).
Proof. frame. Qed.
#[export] Hint Resolve append_audit_event_frame : frame.

(** C19: whatever details a service hands to the audit trail, at any nesting
    depth, a successful append stores one event under the id drawn for it, which it
    returns, with an aware moment, and in whose details every entry with a sensitive key
    (one that has password, token, authorization, cookie, secret or bearer in it, or
    is campaign, claim or receipt, ignoring case and what is not a letter or digit)
    holds the placeholder and no string value has a bearer token: wherever the pattern of
    a token matches, it matches the placeholder itself.  Strings the details give as
    paths, decimals, times or UUIDs are stored as their text.  No other of the
    tables named changes, and a refused append changes nothing. *)
Theorem audit_details_redacted actor_kind actor action kind identifier request details occurred w :
  match append_audit_event actor_kind actor action kind identifier request details occurred w with
  | (Ok id, w') =>
      id = seed w ∧ unaudited w' = unaudited w ∧
      ∃ event, audit_events (db w') = <[id := event]> (audit_events (db w))
               ∧ redacted (other_texts (PMap details)) (aud_details event) ∧ is_aware (aud_created_at event) = true
  | (Exn _, w') => db w' = db w ∧ committed w' = committed w
  end.
Proof.
  pose proof (append_audit_event_frame actor_kind actor action kind identifier request details
                occurred w) as Hframe.
  assert (wp (append_audit_event actor_kind actor action kind identifier request details occurred)
    (λ r w', match r with
     | Ok id => id = seed w ∧ ∃ event, audit_events (db w') = <[id := event]> (audit_events (db w))
         ∧ redacted (other_texts (PMap details)) (aud_details event) ∧ is_aware (aud_created_at event) = true
     | Exn _ => db w' = db w ∧ committed w' = committed w end) w) as Hwp.
  { clear Hframe. apply wp_bind, wp_pres with (R := same (λ w, (seed w, db w, committed w))).
    { unfold now_or. frame. }
    intros [t|e] w1 [= Hs Hd Hc]; wp_k; [|done].
    wp_step.
    apply wp_bind, wp_pres with (R := eq); [frame|].
    intros [[]|e] w2 <-; wp_k; [|done].
    wp_step. destruct (redact_audit_details _) as [j|] eqn:Hj; wp_k; [|done].
    apply (redact_value _ (other_texts (PMap details))) in Hj; [|done]. do 3 wp_step. rewrite <- Hs, <- Hd. eauto. }
  rewrite wp_unfold in Hwp. unfold same in Hframe.
  by destruct (append_audit_event _ _ _ _ _ _ _ _ w) as [[id|e] w']; [destruct Hwp|].
Qed.
