(* ===== verification/Operations.v ===== *)
(** * Endpoint Operations (endpoint_server/operations/service.py)

  Creation with idempotency keys, owner-scoped reads, cancellation before
  delivery and bounded expiration, as transactions on the database of
  Session.v.  Identifiers arrive as [UUID] values. *)

From S2P Require Import Prelude Store Session AuditLog.

Definition OPERATION_TTL : timedelta := minutes 15.

Definition _ACTIVE_STATUSES : list command_status :=
  [queued; delivered; acknowledged; running].

Definition not_found_code : string := "endpoint_operation_not_found".
Definition conflict_code : string := "endpoint_operation_idempotency_conflict".

(** EndpointOperationCreateV1: its [capability] is the literal
    "context.diagnostic.collect" and its parameters hold the reason. *)
Record EndpointOperationCreateV1 := { request_capability : string; request_reason : string }.

(** capabilities.py: the closed capability mapping. *)
Definition CAPABILITY_PROFILES : list (string * string) :=
  [("context.diagnostic.collect", "diagnostic_v1")].

Definition profile_for_capability (capability : string) : Tx string :=
  require (assoc capability CAPABILITY_PROFILES)
    (ValueError "unsupported endpoint operation capability").

Definition _now (value : option datetime) : Tx datetime :=
  timestamp ← now_or value;
  raise_if (negb (is_aware timestamp))
    (OperationValidationError "operation timestamp must be timezone-aware") ;;
  mret (as_utc timestamp).

Definition _stored_utc (value : datetime) : datetime := as_utc value.

(** [value.isprintable()] and [value != value.strip()] on ASCII text *)
Definition isprintable (s : string) : bool := forallb (between 32 126) (chars s).
Definition is_trimmed (s : string) : bool :=
  match chars s with
  | [] => true
  | c :: _ as l => negb (is_space c) && negb (from_option is_space false (last l))
  end.

Definition _idempotency_key (value : string) : Tx string :=
  raise_if (negb ((8 <=? Z.of_nat (String.length value)) && (Z.of_nat (String.length value) <=? 128))
            || negb (is_trimmed value) || negb (isprintable value))
    (OperationValidationError "idempotency key must be 8-128 trimmed printable characters") ;;
  mret value.

Definition _normalized_request (request : EndpointOperationCreateV1) : string * json :=
  (request_capability request, JObj [("reason", JStr (request_reason request))]).

Definition _audit_request_id (operation_id : uuid) : string :=
  "operation-" +:+ uuid_hex operation_id.

Definition _append_operation_audit (operation_id : uuid) (operation : EndpointOperation)
    (action actor_kind : string) (actor_identifier : option string)
    (occurred_at : datetime) : Tx unit :=
  append_audit_event actor_kind actor_identifier action "endpoint_operation"
    (Some (uuid_str operation_id)) (_audit_request_id operation_id)
    [(KStr "capability", PStr (op_capability operation));
     (KStr "device_id", PUuid (op_device_id operation));
     (KStr "status", PStr (status_str (op_status operation)))]
    (Some occurred_at) ;;
  mret tt.

(** The stored operation of a client with an idempotency key. *)
Definition owns_key (client_id : uuid) (key : string) (_ : uuid) (o : EndpointOperation) : bool :=
  (op_requested_by_service_client_id o =? client_id)
  && bool_decide (op_idempotency_key o = key).

Definition create_operation_outcome (request : EndpointOperationCreateV1)
    (service_client_id device_id : uuid) (idempotency_key : string)
    (now : option datetime) : Tx (uuid * bool) :=
  checked_key ← _idempotency_key idempotency_key;
  let '(capability, parameters) := _normalized_request request in
  profile ← profile_for_capability capability;
  occurred_at ← _now now;
  client ← get service_client_id;
  client ← require client (OperationNotFound "service client was not found"
                             "endpoint_operation_service_not_found");
  existing ← scalar (owns_key service_client_id checked_key);
  match existing with
  | Some (existing_id, existing) =>
      raise_if (negb (op_device_id existing =? device_id)
                || negb (bool_decide (op_capability existing = capability))
                || negb (json_eqb (op_parameters existing) parameters))
        (OperationConflict "idempotency key already owns a different endpoint operation"
           conflict_code) ;;
      _append_operation_audit existing_id existing "endpoint.operation_replayed" "service"
        (Some (cli_client_identifier client)) occurred_at ;;
      flush ;;
      mret (existing_id, false)
  | None =>
      device ← scalar (λ id d, (id =? device_id) && is_none (dev_retired_at d));
      raise_if (is_none device)
        (OperationNotFound "active device was not found"
           "endpoint_operation_device_not_found") ;;
      operation_id ← uuid4;
      collection_id ← uuid4;
      let deadline_at := dt_add occurred_at OPERATION_TTL in
      let operation := {|
        op_created_at := occurred_at;
        op_requested_by_service_client_id := service_client_id;
        op_device_id := device_id;
        op_idempotency_key := checked_key;
        op_capability := capability;
        op_parameters := parameters;
        op_correlation := None;
        op_status := queued;
        op_deadline_at := deadline_at;
        op_completed_at := None;
        op_error_code := None;
        op_context_collection_id := Some collection_id;
        op_command_id := None;
        op_module_version_id := None;
        op_module_inputs := None;
        op_expected_step_count := None |} in
      insert operation_id operation ;;
      insert collection_id {|
        col_device_id := device_id;
        col_profile := profile;
        col_requested_by := "endpoint-operation:" +:+ uuid_hex service_client_id;
        col_idempotency_key := checked_key;
        col_command_id := None;
        col_command_result_id := None;
        col_operation_id := Some operation_id;
        col_status := c_requested;
        col_requested_at := occurred_at;
        col_result_received_at := None;
        col_validated_at := None;
        col_completed_at := None;
        col_failed_at := None;
        col_expires_at := Some deadline_at;
        col_failure_code := None;
        col_raw_result_payload := None |} ;;
      _append_operation_audit operation_id operation "endpoint.operation_created" "service"
        (Some (cli_client_identifier client)) occurred_at ;;
      flush ;;
      mret (operation_id, true)
  end.

(** [select(EndpointOperation).where(id, requested_by_service_client_id)] *)
Definition owned_operation (operation_id client_id : uuid)
    : Tx (option (uuid * EndpointOperation)) :=
  scalar (λ id o, (id =? operation_id) && (op_requested_by_service_client_id o =? client_id)).

Definition operation_missing : exn :=
  OperationNotFound "endpoint operation was not found" not_found_code.

Definition read_operation_for_service (operation_id service_client_id : uuid)
    (now : option datetime) : Tx uuid :=
  operation ← owned_operation operation_id service_client_id;
  operation ← require operation operation_missing;
  client ← get service_client_id;
  client ← require client operation_missing;
  occurred_at ← _now now;
  _append_operation_audit operation.1 operation.2 "endpoint.operation_read" "service"
    (Some (cli_client_identifier client)) occurred_at ;;
  flush ;;
  mret operation.1.

Definition cancel_unavailable : exn :=
  OperationConflict "operation can no longer be canceled" "operation_cancel_not_supported".

Definition _cancel_queued_operation (operation_id : uuid) (operation : EndpointOperation)
    (canceled_at : datetime) (actor_kind actor_identifier : string) : Tx uuid :=
  if decide (op_status operation = canceled) then mret operation_id
  else
    raise_if (negb (bool_decide (op_status operation = queued))
              || is_some (op_command_id operation)) cancel_unavailable ;;
    collection ← scalar (λ id c, bool_decide (op_context_collection_id operation = Some id)
                                 && bool_decide (col_operation_id c = Some operation_id));
    collection ← require collection
      (OperationValidationError "operation collection relation is unavailable");
    raise_if (is_some (col_command_id collection.2)
              || negb (bool_decide (col_status collection.2 = c_requested)))
      (OperationValidationError "operation collection relation is unavailable") ;;
    let cancel (o : EndpointOperation) :=
      o <| op_status := canceled |> <| op_completed_at := Some canceled_at |> in
    update operation_id cancel ;;
    update collection.1 (λ c : ContextCollection,
      c <| col_status := c_expired |> <| col_failed_at := Some canceled_at |>
        <| col_failure_code := Some "operation_canceled" |>) ;;
    _append_operation_audit operation_id (cancel operation) "endpoint.operation_canceled"
      actor_kind (Some actor_identifier) canceled_at ;;
    flush ;;
    mret operation_id.

Definition cancel_operation_for_service (operation_id service_client_id : uuid)
    (now : option datetime) : Tx uuid :=
  canceled_at ← _now now;
  operation ← owned_operation operation_id service_client_id;
  operation ← require operation operation_missing;
  client ← get service_client_id;
  client ← require client operation_missing;
  _cancel_queued_operation operation.1 operation.2 canceled_at "service"
    (cli_client_identifier client).

Definition cancel_operation_for_admin (operation_id admin_user_id : uuid)
    (now : option datetime) : Tx uuid :=
  operation ← get operation_id;
  operation ← require operation operation_missing;
  raise_if (negb (bool_decide (op_capability operation = "context.diagnostic.collect")))
    (OperationConflict "module operation cancellation is unavailable"
       "operation_cancel_not_supported") ;;
  canceled_at ← _now now;
  _cancel_queued_operation operation_id operation canceled_at "admin" (uuid_str admin_user_id).

Definition append_operation_terminal_audit (operation_id : uuid) (operation : EndpointOperation)
    (occurred_at : option datetime) : Tx unit :=
  raise_if (negb (terminal (op_status operation)))
    (OperationValidationError "operation status must be terminal") ;;
  occurred_at ← _now occurred_at;
  _append_operation_audit operation_id operation
    ("endpoint.operation_" +:+ status_str (op_status operation)) "device"
    (Some (uuid_str (op_device_id operation))) occurred_at.

(** Expire the command [command_id] of [device_id] and its delivery, unless
    they are terminal already. *)
Definition expire_command (command_id device_id : uuid) : Tx unit :=
  command ← scalar (λ id c, (id =? command_id) && (cmd_device_id c =? device_id));
  match command with
  | Some (id, c) =>
      when (negb (terminal (cmd_status c)))
        (update id (λ c : Command, c <| cmd_status := expired |>))
  | None => mret tt
  end ;;
  delivery ← scalar (λ _ d, dlv_command_id d =? command_id);
  match delivery with
  | Some (id, d) =>
      when (negb (terminal (dlv_status d)))
        (update id (λ d : CommandDelivery, d <| dlv_status := expired |>))
  | None => mret tt
  end.

Definition expire_step (expired_at : datetime) (s : ModuleOperationStep) : ModuleOperationStep :=
  s <| step_status := expired |> <| step_error_code := Some "operation_expired" |>
    <| step_completed_at := Some expired_at |>.

Definition expire_operation (expired_at : datetime) (o : EndpointOperation) : EndpointOperation :=
  o <| op_status := expired |> <| op_completed_at := Some expired_at |>
    <| op_error_code := Some "operation_expired" |>.

(** The module branch of [expire_operation_if_due]. *)
Definition expire_module_operation (operation_id : uuid) (operation : EndpointOperation)
    (collection : option (uuid * ContextCollection)) (expired_at : datetime) : Tx bool :=
  raise_if (is_some collection || is_some (op_command_id operation))
    (OperationValidationError "module operation relation is unavailable") ;;
  steps ← select (λ _ s, step_operation_id s =? operation_id);
  raise_if (bool_decide (steps = []))
    (OperationValidationError "module operation steps are unavailable") ;;
  update operation_id (expire_operation expired_at) ;;
  for_each steps (λ step,
    if terminal (step_status step.2) then mret tt
    else
      update step.1 (expire_step expired_at) ;;
      match step_command_id step.2 with
      | None => mret tt
      | Some command_id => expire_command command_id (op_device_id operation)
      end) ;;
  append_audit_event "system" None "endpoint.module_operation_expired" "endpoint_operation"
    (Some (uuid_str operation_id)) ("module-operation-" +:+ uuid_hex operation_id)
    [(KStr "status", PStr (status_str expired))] (Some expired_at) ;;
  flush ;;
  mret true.

(** The body of [expire_operation_if_due] for a collection-backed operation. *)
Definition expire_collection_operation (operation_id : uuid) (operation : EndpointOperation)
    (collection : option (uuid * ContextCollection)) (expired_at : datetime) : Tx bool :=
  update operation_id (expire_operation expired_at) ;;
  collection ←
    match collection with
    | None => scalar (λ _ c, bool_decide (col_operation_id c = Some operation_id))
    | Some (id, c) =>
        raise_if (negb (bool_decide (op_context_collection_id operation = Some id))
                  || negb (bool_decide (col_operation_id c = Some operation_id)))
          (OperationValidationError "operation collection relation is unavailable") ;;
        mret (Some (id, c))
    end;
  match collection with
  | Some (id, c) =>
      when (negb (in_set (col_status c) [c_completed; c_failed; c_expired]))
        (update id (λ c : ContextCollection,
           c <| col_status := c_expired |> <| col_failed_at := Some expired_at |>
             <| col_failure_code := Some "operation_expired" |>))
  | None => mret tt
  end ;;
  match op_command_id operation with
  | Some command_id => expire_command command_id (op_device_id operation)
  | None => mret tt
  end ;;
  _append_operation_audit operation_id (expire_operation expired_at operation)
    "endpoint.operation_expired" "system" None expired_at ;;
  flush ;;
  mret true.

Definition expire_operation_if_due (operation_id : uuid) (operation : EndpointOperation)
    (now : option datetime) (collection : option (uuid * ContextCollection)) : Tx bool :=
  expired_at ← _now now;
  if negb (in_set (op_status operation) _ACTIVE_STATUSES)
     || dt_ltb expired_at (_stored_utc (op_deadline_at operation))
  then mret false
  else if decide (op_capability operation = "endpoint.module.recipe")
  then expire_module_operation operation_id operation collection expired_at
  else expire_collection_operation operation_id operation collection expired_at.

Definition deadline_order (a b : uuid * EndpointOperation) : bool :=
  lex_leb (instant (op_deadline_at a.2), a.1) (instant (op_deadline_at b.2), b.1).

(** The overdue active operations, oldest deadline first. *)
Definition due_operations (expired_at : datetime) : Tx (list (uuid * EndpointOperation)) :=
  operations ← select (λ _ o, in_set (op_status o) _ACTIVE_STATUSES
                              && dt_leb (op_deadline_at o) expired_at);
  mret (order_by deadline_order operations).

Definition expire_operations (now : option datetime) (limit : Z) : Tx Z :=
  raise_if (negb ((1 <=? limit) && (limit <=? 100)))
    (OperationValidationError "expiration limit must be between 1 and 100") ;;
  expired_at ← _now now;
  operations ← due_operations expired_at;
  let operations := take (Z.to_nat limit) operations in
  for_each operations (λ operation,
    expire_operation_if_due operation.1 operation.2 (Some expired_at) None ;; mret tt) ;;
  mret (Z.of_nat (length operations)).
