(* ===== verification/Contracts.v ===== *)
(** * Wire contracts (endpoint_contracts)

    The DTOs the modelled services exchange, their JSON form, and the
    interface [Contracts]: the validation that pydantic performs from the
    class declarations, the text sanitizer and the digest functions, which the
    services only call. *)

From S2P Require Import Prelude Store AuditLog.

(** ** JSON text: [json.dumps(value, sort_keys=True, ensure_ascii=True)] *)

Definition escape_char (c : Ascii.ascii) : string :=
  let n := code c in
  if n =? 34 then "\" +:+ String (Ascii.ascii_of_nat 34) ""
  else if n =? 92 then "\\"
  else if n =? 10 then "\n"
  else if n =? 13 then "\r"
  else if n =? 9 then "\t"
  else if n =? 12 then "\f"
  else if n =? 8 then "\b"
  else if between 32 126 c then String c ""
  else "\u" +:+ hex_digits 4 n "".

Definition quote : string := String (Ascii.ascii_of_nat 34) "".

Definition json_string (s : string) : string :=
  quote +:+ String.concat "" (map escape_char (chars s)) +:+ quote.

Definition str_leb (a b : string) : bool :=
  match String.compare a b with Gt => false | _ => true end.

(** Sort the entries of an object by key. *)
Definition sort_entries {V} (es : list (string * V)) : list (string * V) :=
  order_by (λ a b, str_leb a.1 b.1) es.

(** A context envelope (DeviceContextEnvelopeV1) after validation: the fields
    the server reads and the full [model_dump(mode="json")]. *)
Record DeviceContextEnvelopeV1 := {
  env_profile : string;
  env_collected_at : datetime;
  env_dump : json
}.

Record DiagnosticProcessV1 := { process_name : string; process_state : string }.

(** DeviceContextDiagnosticV1 *)
Record DeviceContextDiagnosticV1 := {
  diag_collected_at : datetime;
  diag_reason : string;
  diag_log_excerpt : option string;
  diag_processes : list DiagnosticProcessV1;
  diag_warnings : list string
}.

(** The declared result DTO of a module capability. *)
Record ModuleResult := {
  mr_status : string;
  mr_error_code : option string;
  mr_dump : json
}.

(** EndpointCapabilityParameterDescriptorV1 *)
Inductive parameter_type := p_string | p_integer | p_enum.
Inductive parameter_source := from_input | from_literal.

Record ParameterDescriptor := {
  pd_name : string;
  pd_value_type : parameter_type;
  pd_allowed_sources : list parameter_source;
  pd_enum_values : option (list string);
  pd_minimum : option Z;
  pd_default_literal : option json
}.

(** EndpointRecipeModuleSpecV1 and its parts *)
Inductive RecipeBinding :=
| RecipeInputBindingV1 (name : string)
| RecipeLiteralBindingV1 (value : json).

Record EndpointRecipeStepV1 := {
  rs_step_id : string;
  rs_capability : string;
  rs_parameters : list (string * RecipeBinding)
}.

Record EndpointRecipeModuleSpecV1 := {
  recipe_module_key : string;
  recipe_supported_platforms : list string;
  recipe_inputs : list (string * parameter_type);   (* name, value_type *)
  recipe_steps : list EndpointRecipeStepV1;
  recipe_dump : json                                 (* model_dump(mode="json") *)
}.

(** ** What the services require of code they only call

    [capability_parameters] is MODULE_CAPABILITY_REGISTRY (capabilities.py):
    [None] for a name outside the catalog.  The [validate_*] and [parse_*]
    functions are pydantic's [model_validate]; [None] is a ValidationError.
    [sanitize_agent_public_text] is operations/redaction.py, by its text,
    limit and [allow_multiline] arguments.  Nothing is assumed about any of
    them here; a theorem that needs a law states it. *)
Class Contracts := {
  capability_parameters : string → option (list ParameterDescriptor);
  validate_capability_payload :
    string → list (string * json) → option (list (string * json));
  validate_capability_result : string → json → option ModuleResult;
  parse_recipe : json → option EndpointRecipeModuleSpecV1;
  validate_context_result_item : json → option DeviceContextEnvelopeV1;
  parse_diagnostic : json → option DeviceContextDiagnosticV1;
  validate_diagnostic_result : json → option json;
  sanitize_agent_public_text : string → Z → bool → string * bool;
  dump_datetime : datetime → string;
  sha256_hexdigest : string → string;
  float_repr : spec_float → string;
  container_str : json → string
}.

Section contracts.
Context `{Contracts}.

(** [sort_keys] *)
Definition arrange {V} (sort_keys : bool) (entries : list (string * V)) : list (string * V) :=
  if sort_keys then sort_entries entries else entries.

(** [json.dumps] with the given separators and [sort_keys] *)
Fixpoint json_dumps (sort_keys : bool) (item_sep key_sep : string) (v : json) : string :=
  match v with
  | JNull => "null"
  | JBool b => if b then "true" else "false"
  | JInt n => Z_str n
  | JFloat x => float_repr x
  | JStr s => json_string s
  | JList items =>
      "[" +:+ String.concat item_sep (map (json_dumps sort_keys item_sep key_sep) items) +:+ "]"
  | JObj entries =>
      "{" +:+ String.concat item_sep
        (map (λ e : string * string, json_string e.1 +:+ key_sep +:+ e.2)
           (arrange sort_keys
              ((fix go (es : list (string * json)) : list (string * string) :=
                  match es with
                  | [] => []
                  | (k, x) :: es' => (k, json_dumps sort_keys item_sep key_sep x) :: go es'
                  end) entries))) +:+ "}"
  end.

Definition json_compact : json → string := json_dumps true "," ":".
Definition json_spaced : json → string := json_dumps true ", " ": ".
End contracts.

(** ** Agent messages (endpoint_contracts/commands.py) *)

Record AgentCommandAckV1 := {
  ack_command_id : uuid;
  ack_device_id : uuid;
  ack_status : command_status;
  ack_acknowledged_at : datetime
}.

Record AgentResultV1 := {
  result_command_id : uuid;
  result_device_id : uuid;
  result_status : command_status;
  result_items : list json;
  result_message : option string;
  result_completed_at : datetime
}.

#[export] Instance AgentResultV1_eta : Eta AgentResultV1 := λ r,
  Build_AgentResultV1 (result_command_id r) (result_device_id r) (result_status r)
    (result_items r) (result_message r) (result_completed_at r).

Definition opt_json {A} (f : A → json) (o : option A) : json :=
  match o with Some a => f a | None => JNull end.

(** [result.model_dump(mode="json")] *)
Definition result_dump `{Contracts} (r : AgentResultV1) : json :=
  JObj [("schema_version", JStr "agent_result_v1");
        ("command_id", JStr (uuid_str (result_command_id r)));
        ("device_id", JStr (uuid_str (result_device_id r)));
        ("status", JStr (status_str (result_status r)));
        ("result_items", JList (result_items r));
        ("message", opt_json JStr (result_message r));
        ("completed_at", JStr (dump_datetime (result_completed_at r)))].

(** [diagnostic.model_dump(mode="json")] *)
Definition diagnostic_dump `{Contracts} (d : DeviceContextDiagnosticV1) : json :=
  JObj [("schema_version", JStr "device_context_v1");
        ("profile", JStr "diagnostic_v1");
        ("collected_at", JStr (dump_datetime (diag_collected_at d)));
        ("sections", JObj
           [("reason", JStr (diag_reason d));
            ("log_excerpt", opt_json JStr (diag_log_excerpt d));
            ("processes", JList (map (λ p, JObj [("name", JStr (process_name p));
                                                 ("state", JStr (process_state p))])
                                   (diag_processes d)))]);
        ("warnings", JList (map JStr (diag_warnings d)))].

(** DiagnosticCollectionParametersV1.model_validate: exactly one [reason], a
    string of 1 to 256 characters without control characters or a URL. *)
Definition validate_diagnostic_parameters (parameters : json) : option string :=
  match parameters with
  | JObj [(key, JStr reason)] =>
      let n := Z.of_nat (String.length reason) in
      if bool_decide (key = "reason") && (1 <=? n) && (n <=? 256)
         && negb (contains "://" reason)
         && forallb (λ c, (32 <=? code c) && negb (code c =? 127)) (chars reason)
      then Some reason else None
  | _ => None
  end.

(** ** The command sent to an agent (endpoint_contracts/gateway_ws.py) *)

Record GatewayCommandV1 := {
  gc_command_id : uuid;
  gc_device_id : uuid;
  gc_capability : string;
  gc_parameters : list (string * json);
  gc_requested_by_service : string;
  gc_idempotency_key : string;
  gc_created_at : datetime;
  gc_deadline_at : datetime;
  gc_correlation_request_id : option uuid
}.

(** GatewayCommandV1.validate_control_parameters: the keys allowed for each
    capability outside the module catalog. *)
Definition control_allowed_keys : list (string * list string) :=
  [("agent.status.read", []); ("gateway.echo", ["message"]);
   ("context.baseline.collect", []); ("context.health.collect", []);
   ("context.network.collect", []); ("context.inventory.collect", []);
   ("context.session.collect", []); ("context.diagnostic.collect", ["reason"])].

Definition control_parameter_ok (e : string * json) : bool :=
  let limit := if decide (e.1 = "reason") then 256 else 512 in
  match e.2 with
  | JStr v => negb (bool_decide (v = "")) && (Z.of_nat (String.length v) <=? limit)
              && negb (contains "://" v)
  | _ => false
  end.

Definition validate_control_parameters `{Contracts} (capability : string)
    (parameters : list (string * json)) : bool :=
  match capability_parameters capability with
  | Some _ => is_some (validate_capability_payload capability parameters)
  | None =>
      match assoc capability control_allowed_keys with
      | Some allowed => forallb (λ e, str_in e.1 allowed) parameters
                        && forallb control_parameter_ok parameters
      | None => false
      end
  end.

(** The constructor call [GatewayCommandV1(...)]: AgentCommandV1's deadline
    ordering, then the control parameters.  The remaining bounds of the model
    (text lengths, JSON size) are met by the values the server builds. *)
Definition make_gateway_command `{Contracts} {S} (c : GatewayCommandV1) : M S GatewayCommandV1 :=
  raise_if (dt_leb (gc_deadline_at c) (gc_created_at c)) (ValidationError "AgentCommandV1") ;;
  raise_if (negb (validate_control_parameters (gc_capability c) (gc_parameters c)))
    (ValidationError "GatewayCommandV1") ;;
  mret c.

Record ResultAck := { ra_command_id : uuid; ra_result_sequence : Z }.
