(* ===== verification/Recipe.v ===== *)
(** * Module recipes (endpoint_server/modules/recipes.py, recipe_engine.py)

    Static validation of a declarative recipe against the capability catalog
    and its expansion into typed child commands. *)

From S2P Require Import Prelude Store AuditLog Contracts.

Section recipe.
Context `{Contracts}.

#[export] Instance parameter_type_eq_dec : EqDecision parameter_type.
Proof. solve_decision. Defined.
#[export] Instance parameter_source_eq_dec : EqDecision parameter_source.
Proof. solve_decision. Defined.

Definition _recipe_input_type (t : parameter_type) : parameter_type :=
  match t with p_enum => p_string | t => t end.

(** [type(value) is _python_type_for(value_type)] *)
Definition has_python_type (t : parameter_type) (v : json) : bool :=
  match t, v with
  | p_integer, JInt _ => true
  | p_string, JStr _ | p_enum, JStr _ => true
  | _, _ => false
  end.

Definition _placeholder_for_input (d : ParameterDescriptor) : json :=
  if decide (pd_name d = "target") then JStr "api.example.test"
  else match pd_enum_values d with
  | Some (v :: _) => JStr v
  | _ =>
      match pd_value_type d, pd_default_literal d with
      | _, Some v => v
      | p_integer, None =>
          JInt (match pd_minimum d with Some n => if n =? 0 then 1 else n | None => 1 end)
      | _, None => JStr "Example"
      end
  end.

Definition descriptor_of (ds : list ParameterDescriptor) (name : string)
    : option ParameterDescriptor :=
  assoc name (map (λ d, (pd_name d, d)) ds).

Definition _validate_literal_parameter_bounds (capability : string)
    (ds : list ParameterDescriptor) (parameters : list (string * RecipeBinding)) : res unit :=
  let value (e : string * RecipeBinding) : string * json :=
    (e.1, match e.2 with
          | RecipeLiteralBindingV1 v => v
          | RecipeInputBindingV1 _ =>
              match descriptor_of ds e.1 with
              | Some d => _placeholder_for_input d | None => JNull end
          end) in
  match validate_capability_payload capability (map value parameters) with
  | Some _ => Ok tt
  | None => Exn (RecipeValidationError "recipe literal does not satisfy primitive bounds")
  end.

Definition validate_binding (input_types : list (string * parameter_type))
    (parameters : list (string * RecipeBinding)) (d : ParameterDescriptor) : res unit :=
  match assoc (pd_name d) parameters with
  | Some (RecipeInputBindingV1 name) =>
      if negb (in_set from_input (pd_allowed_sources d))
      then Exn (RecipeValidationError "recipe input source is not catalog-defined")
      else if decide (assoc name input_types = Some (_recipe_input_type (pd_value_type d)))
      then Ok tt
      else Exn (RecipeValidationError "recipe input type does not match capability")
  | Some (RecipeLiteralBindingV1 value) =>
      if negb (in_set from_literal (pd_allowed_sources d))
      then Exn (RecipeValidationError "recipe literal source is not catalog-defined")
      else if has_python_type (_recipe_input_type (pd_value_type d)) value then Ok tt
      else Exn (RecipeValidationError "recipe literal type does not match capability")
  | None => Exn (KeyError (pd_name d))
  end.

(** [for x in l: check(x)] on results *)
Fixpoint check_all {A} (check : A → res unit) (l : list A) : res unit :=
  match l with
  | [] => Ok tt
  | x :: rest => res_bind (check x) (λ _, check_all check rest)
  end.

Definition same_keys (a b : list string) : bool :=
  forallb (λ k, str_in k b) a && forallb (λ k, str_in k a) b.

Definition validate_step (input_types : list (string * parameter_type))
    (step : EndpointRecipeStepV1) : res unit :=
  match capability_parameters (rs_capability step) with
  | None => Exn (ValueError "module capability is not catalog-defined")
  | Some ds =>
      if negb (same_keys (map fst (rs_parameters step)) (map pd_name ds))
      then Exn (RecipeValidationError "recipe parameter shape is not catalog-defined")
      else
        res_bind (check_all (validate_binding input_types (rs_parameters step)) ds) (λ _,
        _validate_literal_parameter_bounds (rs_capability step) ds (rs_parameters step))
  end.

Definition validate_recipe_spec (recipe : EndpointRecipeModuleSpecV1) : res unit :=
  check_all (validate_step (recipe_inputs recipe)) (recipe_steps recipe).

(** ** recipe_engine.py *)

Record RecipeCommandPlanItem := {
  pi_sequence : Z;
  pi_step_id : string;
  pi_capability : string;
  pi_parameters : list (string * json)
}.

Definition _validate_runtime_inputs (recipe : EndpointRecipeModuleSpecV1)
    (inputs : list (string * json)) : res unit :=
  if negb (same_keys (map fst inputs) (map fst (recipe_inputs recipe)))
  then Exn (RecipeExecutionError "module inputs do not exactly match the recipe")
  else check_all (λ e : string * parameter_type,
         if from_option (has_python_type e.2) false (assoc e.1 inputs) then Ok tt
         else Exn (RecipeExecutionError "module input type does not match the recipe"))
       (recipe_inputs recipe).

(** [type(value) in {str, int}] *)
Definition is_primitive (v : json) : bool :=
  match v with JStr _ | JInt _ => true | _ => false end.

Definition _resolve_binding (inputs : list (string * json)) (b : RecipeBinding) : res json :=
  res_bind (match b with
            | RecipeInputBindingV1 name =>
                match assoc name inputs with Some v => Ok v | None => Exn (KeyError name) end
            | RecipeLiteralBindingV1 v => Ok v
            end)
    (λ v, if is_primitive v then Ok v
          else Exn (RecipeExecutionError "module parameter is not a primitive value")).

Definition _validate_primitive_parameters (capability : string)
    (parameters : list (string * json)) : res (list (string * json)) :=
  match validate_capability_payload capability parameters with
  | Some validated => Ok (List.filter (λ e, is_primitive e.2) validated)
  | None => Exn (RecipeExecutionError "module inputs do not satisfy primitive bounds")
  end.

Fixpoint resolve_parameters (inputs : list (string * json))
    (parameters : list (string * RecipeBinding)) : res (list (string * json)) :=
  match parameters with
  | [] => Ok []
  | (name, binding) :: rest =>
      res_bind (_resolve_binding inputs binding) (λ v,
      res_bind (resolve_parameters inputs rest) (λ vs, Ok ((name, v) :: vs)))
  end.

(** The loop [for sequence, step in enumerate(recipe.steps)] from [sequence]. *)
Fixpoint plan_steps (inputs : list (string * json)) (sequence : Z)
    (steps : list EndpointRecipeStepV1) : res (list RecipeCommandPlanItem) :=
  match steps with
  | [] => Ok []
  | step :: rest =>
      res_bind (resolve_parameters inputs (rs_parameters step)) (λ parameters,
      res_bind (_validate_primitive_parameters (rs_capability step) parameters) (λ checked,
      res_bind (plan_steps inputs (sequence + 1) rest) (λ items,
      Ok ({| pi_sequence := sequence; pi_step_id := rs_step_id step;
             pi_capability := rs_capability step; pi_parameters := checked |} :: items))))
  end.

Definition build_recipe_command_plan (recipe : EndpointRecipeModuleSpecV1)
    (inputs : list (string * json)) : res (list RecipeCommandPlanItem) :=
  res_bind (match validate_recipe_spec recipe with
            | Exn (RecipeValidationError _) =>
                Exn (RecipeExecutionError "module recipe is not executable")
            | r => r
            end) (λ _,
  res_bind (_validate_runtime_inputs recipe inputs) (λ _,
  plan_steps inputs 0 (recipe_steps recipe))).
End recipe.
