(* ===== verification/Canonical.v ===== *)
(** * Semantic identity of context observations
    (endpoint_server/context/canonicalize.py, semantic_hash.py, diff.py,
    events.py)

    Canonical forms that drop transport data and caller-controlled order, the
    fixed-code diff of two snapshots, and the durable change events. *)

From S2P Require Import Prelude Store Session AuditLog Contracts.

(** ** canonicalize.py *)

Definition _mapping (value : json) : list (string * json) :=
  match value with JObj entries => entries | _ => [] end.

(** [source.get(name)], [None] when absent *)
Definition _field (source : list (string * json)) (name : string) : json :=
  default JNull (assoc name source).

(** Lexicographic order on tuples of strings. *)
Fixpoint strs_leb (a b : list string) : bool :=
  match a, b with
  | [], _ => true
  | _ :: _, [] => false
  | x :: a', y :: b' => if decide (x = y) then strs_leb a' b' else str_leb x y
  end.

Section canonical.
Context `{Contracts}.

(** [str(value)] *)
Definition py_str (v : json) : string :=
  match v with
  | JNull => "None"
  | JBool b => if b then "True" else "False"
  | JInt n => Z_str n
  | JFloat x => float_repr x
  | JStr s => s
  | JList _ | JObj _ => container_str v
  end.

Definition sort_component (v : json) : string :=
  match v with JNull => "" | v => py_str v end.

Definition pick (fields : list string) (item : json) : list (string * json) :=
  map (λ f, (f, _field (_mapping item) f)) fields.

Definition sort_key (item : list (string * json)) : list string :=
  map (λ e, sort_component e.2) item.

Definition is_object (v : json) : bool := match v with JObj _ => true | _ => false end.

Definition _stable_sorted (items : json) (fields : list string) : json :=
  match items with
  | JList items =>
      JList (map JObj
        (order_by (λ a b, strs_leb (sort_key a) (sort_key b))
           (map (pick fields) (List.filter is_object items))))
  | _ => JList []
  end.

(** [source.get("profile") != profile -> ValueError] *)
Definition with_profile (profile message : string) (snapshot : json)
    (k : list (string * json) → json) : res json :=
  match assoc "profile" (_mapping snapshot) with
  | Some (JStr p) =>
      if decide (p = profile) then Ok (k (_mapping (_field (_mapping snapshot) "sections")))
      else Exn (ValueError message)
  | _ => Exn (ValueError message)
  end.

Definition copy_fields (source : list (string * json)) (fields : list string) : json :=
  JObj (map (λ f, (f, _field source f)) fields).

Definition baseline_sections (sections : list (string * json)) : json :=
  JObj [("system", copy_fields (_mapping (_field sections "system"))
                     ["architecture"; "distribution"; "platform"]);
        ("hardware", copy_fields (_mapping (_field sections "hardware"))
                       ["cpu_model"; "manufacturer"; "memory_bytes"; "model"]);
        ("storage", _stable_sorted (_field sections "storage")
                      ["stable_key"; "model"; "size_bytes"]);
        ("interfaces", _stable_sorted (_field sections "interfaces")
                         ["stable_key"; "name"; "link_type"]);
        ("software", _stable_sorted (_field sections "software")
                       ["name"; "source"; "version"])].

Definition canonicalize_baseline (snapshot : json) : res json :=
  with_profile "baseline_v1" "semantic canonicalization requires a baseline snapshot" snapshot
    (λ sections,
       JObj [("schema_version", JStr "device_context_baseline_canonical_v1");
             ("profile", JStr "baseline_v1");
             ("collected_at", JNull);
             ("sections", baseline_sections sections)]).

Definition inventory_sections (sections : list (string * json)) : json :=
  let memory := _mapping (_field sections "memory") in
  JObj [("system", JObj (_mapping (_field sections "system")));
        ("hardware", JObj (_mapping (_field sections "hardware")));
        ("memory", JObj
           [("total_bytes", _field memory "total_bytes");
            ("memory_type", _field memory "memory_type");
            ("modules", _stable_sorted (_field memory "modules")
               ["slot"; "serial"; "capacity_bytes"; "speed_mt_s"; "memory_type"])]);
        ("storage", _stable_sorted
           (_field (_mapping (_field sections "storage")) "physical_devices")
           ["stable_key"; "model"; "serial"; "size_bytes"; "media_type"; "bus_type"]);
        ("interfaces", _stable_sorted (_field sections "interfaces")
           ["stable_key"; "mac"; "name"; "link_type"; "operational_state"])].

Definition canonicalize_inventory (snapshot : json) : res json :=
  with_profile "inventory_v1" "semantic canonicalization requires an inventory snapshot" snapshot
    (λ sections,
       JObj [("schema_version", JStr "device_context_inventory_canonical_v1");
             ("profile", JStr "inventory_v1");
             ("collected_at", JNull);
             ("sections", inventory_sections sections)]).

Definition canonicalize_session (snapshot : json) : res json :=
  with_profile "session_v1" "semantic canonicalization requires a session snapshot" snapshot
    (λ sections,
       JObj [("profile", JStr "session_v1");
             ("current_user_login", _field sections "current_user_login");
             ("interactive_session_present", _field sections "interactive_session_present")]).

(** [sorted(addresses) if isinstance(addresses, list) else []] *)
Definition sorted_addresses (v : json) : list json :=
  match v with
  | JList l => order_by (λ a b, str_leb (py_str a) (py_str b)) l
  | _ => []
  end.

Definition network_item (interface : json) : json * list json :=
  (_field (_mapping interface) "name",
   sorted_addresses (_field (_mapping interface) "addresses")).

Definition network_items (interfaces : json) : list (json * list json) :=
  match interfaces with
  | JList l => map network_item (List.filter is_object l)
  | _ => []
  end.

Definition network_leb (a b : json * list json) : bool :=
  strs_leb (py_str a.1 :: map py_str a.2) (py_str b.1 :: map py_str b.2).

Definition canonicalize_network (snapshot : json) : res json :=
  with_profile "network_v1" "semantic canonicalization requires a network snapshot" snapshot
    (λ sections,
       let route := _mapping (_field sections "default_route") in
       JObj [("profile", JStr "network_v1");
             ("default_route", copy_fields route ["interface"; "gateway"]);
             ("interfaces", JList (map (λ i, JObj [("name", i.1); ("addresses", JList i.2)])
                (order_by network_leb (network_items (_field sections "interfaces")))))]).

(** ** semantic_hash.py *)

Definition semantic_hash (canonical : json) : string := sha256_hexdigest (json_compact canonical).

(** ingestion.py: [None] for a profile without a semantic identity *)
Definition _snapshot_semantic_hash (profile : string) (projection : json) : res (option string) :=
  let hash (c : res json) := res_bind c (λ c, Ok (Some (semantic_hash c))) in
  if decide (profile = "baseline_v1") then hash (canonicalize_baseline projection)
  else if decide (profile = "inventory_v1") then hash (canonicalize_inventory projection)
  else if decide (profile = "session_v1") then hash (canonicalize_session projection)
  else if decide (profile = "network_v1") then hash (canonicalize_network projection)
  else Ok None.

(** ** diff.py *)

Record DeviceContextDiffV1 := {
  cd_profile : string;
  cd_from_hash : string;
  cd_to_hash : string;
  cd_changes : list (string * string)       (* code, summary *)
}.

Definition _CHANGE_FIELDS : list (string * string * string) :=
  [("PLATFORM_CHANGED", "system", "Platform changed");
   ("HARDWARE_CHANGED", "hardware", "Hardware changed");
   ("STORAGE_CHANGED", "storage", "Storage changed");
   ("NETWORK_CHANGED", "interfaces", "Network interfaces changed");
   ("SOFTWARE_CHANGED", "software", "Software changed");
   ("AGENT_CHANGED", "agent", "Agent changed")].

Definition _INVENTORY_CHANGE_FIELDS : list (string * string * string) :=
  [("HARDWARE_CHANGED", "hardware", "Hardware changed");
   ("RAM_CHANGED", "memory", "RAM configuration changed");
   ("STORAGE_CHANGED", "storage", "Storage changed");
   ("NETWORK_ADAPTER_CHANGED", "interfaces", "Network interfaces changed")].

Definition fields_differ (before after : list (string * json)) (field : string) : bool :=
  negb (json_eqb (_field before field) (_field after field)).

(** The host name and operating system changes of an inventory. *)
Definition system_changes (before after : list (string * json)) : list (string * string) :=
  match _field before "system", _field after "system" with
  | JObj b, JObj a =>
      (if fields_differ b a "hostname" then [("HOSTNAME_CHANGED", "Hostname changed")] else [])
      ++ (if existsb (fields_differ b a)
               ["platform"; "os_name"; "os_version"; "os_build"; "architecture"]
          then [("OS_CHANGED", "Operating system changed")] else [])
  | _, _ => []
  end.

Definition section_changes (fields : list (string * string * string))
    (before after : list (string * json)) : list (string * string) :=
  map (λ f, (f.1.1, f.2))
    (List.filter (λ f : string * string * string, fields_differ before after f.1.2) fields).

Definition profile_of (v : json) : option string :=
  match v with
  | JObj es => match assoc "profile" es with Some (JStr p) => Some p | _ => None end
  | _ => None
  end.

Definition sections_of (canonical : json) : list (string * json) :=
  _mapping (_field (_mapping canonical) "sections").

Definition compare_snapshots (before after : json) : res DeviceContextDiffV1 :=
  let reject := Exn (ValueError
    "semantic comparison requires matching baseline or inventory snapshots") in
  match profile_of before with
  | None => reject
  | Some profile =>
      if negb (bool_decide (profile_of after = Some profile))
         || negb (str_in profile ["baseline_v1"; "inventory_v1"])
      then reject
      else
        let baseline := bool_decide (profile = "baseline_v1") in
        let canonicalize := if baseline then canonicalize_baseline else canonicalize_inventory in
        let fields := if baseline then _CHANGE_FIELDS else _INVENTORY_CHANGE_FIELDS in
        res_bind (canonicalize before) (λ b,
        res_bind (canonicalize after) (λ a,
        Ok {| cd_profile := profile;
              cd_from_hash := semantic_hash b;
              cd_to_hash := semantic_hash a;
              cd_changes :=
                (if baseline then [] else system_changes (sections_of b) (sections_of a))
                ++ section_changes fields (sections_of b) (sections_of a) |}))
  end.

Definition diff_dump (d : DeviceContextDiffV1) : json :=
  JObj [("schema_version", JStr "device_context_diff_v1");
        ("profile", JStr (cd_profile d));
        ("from_hash", JStr (cd_from_hash d));
        ("to_hash", JStr (cd_to_hash d));
        ("changes", JList (map (λ c, JObj [("code", JStr c.1); ("summary", JStr c.2)])
                             (cd_changes d)))].

(** ** events.py *)

(** [bool(value)] *)
Definition truthy (v : json) : bool :=
  match v with
  | JNull | JBool false => false
  | JInt n => negb (n =? 0)
  | JFloat x => negb (int_float_eqb 0 x)
  | JStr s => negb (bool_decide (s = ""))
  | JList [] | JObj [] => false
  | _ => true
  end.

Definition session_codes (old new : list (string * json)) : list string :=
  let old_present := truthy (_field old "interactive_session_present") in
  let new_present := truthy (_field new "interactive_session_present") in
  if negb old_present && new_present then ["SESSION_STARTED"]
  else if old_present && negb new_present then ["SESSION_ENDED"]
  else if fields_differ old new "current_user_login" then ["SESSION_USER_CHANGED"]
  else [].

(** [projection.get("sections", {})], when it is a mapping *)
Definition event_sections (projection : json) : option (list (string * json)) :=
  match assoc "sections" (_mapping projection) with
  | None => Some []
  | Some (JObj entries) => Some entries
  | Some _ => None
  end.

Definition change_codes (before after : ContextSnapshot) (diff : option DeviceContextDiffV1)
    : list string :=
  if str_in (snap_profile after) ["baseline_v1"; "inventory_v1"] && is_some diff
  then match diff with Some d => map fst (cd_changes d) | None => [] end
  else if decide (snap_profile after = "network_v1") then ["NETWORK_CHANGED"]
  else if decide (snap_profile after = "session_v1")
  then match event_sections (snap_normalized_projection before),
             event_sections (snap_normalized_projection after) with
       | Some old, Some new => session_codes old new
       | _, _ => []
       end
  else [].

(** [dict.fromkeys(codes)]: first occurrences, in order *)
Fixpoint dedup (seen : list string) (codes : list string) : list string :=
  match codes with
  | [] => []
  | c :: rest => if str_in c seen then dedup seen rest else c :: dedup (c :: seen) rest
  end.

Definition change_event (before : ContextSnapshot) (after_id : uuid) (after : ContextSnapshot)
    (code : string) : DeviceEvent :=
  let source_key := "context:" +:+ uuid_hex after_id +:+ ":" +:+ code in
  {| evt_device_id := snap_device_id after;
     evt_event_identifier := source_key;
     evt_event_kind := code;
     evt_category := "context";
     evt_profile := snap_profile after;
     evt_occurred_at := snap_collected_at after;
     evt_source_key := source_key;
     evt_summary_code := code;
     evt_details := JObj [];
     evt_before_hash := snap_semantic_hash before;
     evt_after_hash := snap_semantic_hash after |}.

Definition events_for_change (before : option ContextSnapshot) (after_id : uuid)
    (after : ContextSnapshot) (diff : option DeviceContextDiffV1) : list DeviceEvent :=
  match before with
  | None => []
  | Some before => map (change_event before after_id after)
                     (dedup [] (change_codes before after diff))
  end.
End canonical.
