(* ===== verification/Context.v ===== *)
(** * Device Context collections
    (endpoint_server/context/service.py, repository.py, ingestion.py)

    Collection requests and their binding to commands, the expiry of overdue
    ordinary collections, and the exactly-once ingestion of command results
    into snapshots, current pointers, diffs and events. *)

From S2P Require Import Prelude Store Session AuditLog Contracts Canonical.

(** ** service.py *)

Definition PROFILES : list string :=
  ["baseline_v1"; "health_v1"; "network_v1"; "diagnostic_v1"; "inventory_v1"; "session_v1"].

Definition require_profile (value : string) : Tx string :=
  raise_if (negb (str_in value PROFILES)) (ContextValidationError "unknown device context profile") ;;
  mret value.

(** ** repository.py *)

Definition _now (value : option datetime) : Tx datetime :=
  timestamp ← now_or value;
  raise_if (negb (is_aware timestamp))
    (ContextValidationError "timestamp must be timezone-aware") ;;
  mret (as_utc timestamp).

Definition id_order {R} (a b : uuid * R) : bool := a.1 <=? b.1.

(** The overdue ordinary collections of a device: not owned by an operation,
    not yet answered, past their expiry. *)
Definition overdue (device_id : uuid) (expired_at : datetime) (profile : option string)
    (_ : uuid) (c : ContextCollection) : bool :=
  (col_device_id c =? device_id)
  && is_none (col_operation_id c)
  && in_set (col_status c) [c_requested; c_queued; c_delivered; c_collecting]
  && match col_expires_at c with Some e => dt_leb e expired_at | None => false end
  && match profile with Some p => bool_decide (col_profile c = p) | None => true end.

Definition expire_collection (code : string) (at_ : datetime) (c : ContextCollection)
    : ContextCollection :=
  c <| col_status := c_expired |> <| col_failed_at := Some at_ |>
    <| col_failure_code := Some code |>.

(** The statuses in which an overdue collection's command and delivery expire. *)
Definition unfinished (s : command_status) : bool :=
  in_set s [queued; delivered; acknowledged; running].

Definition expire_collection_command (command_id device_id : uuid) : Tx unit :=
  command ← scalar (λ id c, (id =? command_id) && (cmd_device_id c =? device_id));
  match command with
  | Some (id, c) =>
      when (unfinished (cmd_status c))
        (update id (λ c : Command, c <| cmd_status := expired |>) ;;
         delivery ← scalar (λ _ d, dlv_command_id d =? id);
         match delivery with
         | Some (did, d) =>
             when (unfinished (dlv_status d))
               (update did (λ d : CommandDelivery, d <| dlv_status := expired |>))
         | None => mret tt
         end)
  | None => mret tt
  end.

Definition expire_overdue_collections (device_id : uuid) (now : datetime)
    (profile : option string) : Tx unit :=
  expired_at ← _now (Some now);
  collections ← select (overdue device_id expired_at profile);
  for_each (order_by id_order collections) (λ collection,
    update collection.1 (expire_collection "collection_expired" expired_at) ;;
    match col_command_id collection.2 with
    | None => mret tt
    | Some command_id => expire_collection_command command_id device_id
    end) ;;
  flush.

Definition same_request (device_id : uuid) (profile requested_by key : string)
    (_ : uuid) (c : ContextCollection) : bool :=
  (col_device_id c =? device_id) && bool_decide (col_profile c = profile)
  && bool_decide (col_requested_by c = requested_by)
  && bool_decide (col_idempotency_key c = key).

Definition bounded_text (s : string) : bool :=
  negb (bool_decide (s = "")) && (Z.of_nat (String.length s) <=? 128).

(** A collection as [request_collection_outcome] creates it. *)
Definition new_collection (device_id : uuid) (profile requested_by key : string)
    (status : collection_status) (requested_at : datetime) (command_id : option uuid)
    : ContextCollection := {|
  col_device_id := device_id;
  col_profile := profile;
  col_requested_by := requested_by;
  col_idempotency_key := key;
  col_command_id := command_id;
  col_command_result_id := None;
  col_operation_id := None;
  col_status := status;
  col_requested_at := requested_at;
  col_result_received_at := None;
  col_validated_at := None;
  col_completed_at := None;
  col_failed_at := None;
  col_expires_at := None;
  col_failure_code := None;
  col_raw_result_payload := None |}.

Definition request_collection_outcome (device_id : uuid) (profile requested_by key : string)
    (now : option datetime) : Tx (uuid * bool) :=
  profile ← require_profile profile;
  raise_if (negb (bounded_text requested_by && bounded_text key))
    (ContextValidationError "request identity must be bounded non-empty text") ;;
  device ← get (R := Device) device_id;
  raise_if (is_none device) (ContextNotFound "device was not found") ;;
  existing ← scalar (same_request device_id profile requested_by key);
  match existing with
  | Some (id, _) => mret (id, false)
  | None =>
      collection_id ← uuid4;
      requested_at ← _now now;
      insert collection_id
        (new_collection device_id profile requested_by key c_requested requested_at None) ;;
      flush ;;
      mret (collection_id, true)
  end.

Definition request_collection (device_id : uuid) (profile requested_by key : string)
    (now : option datetime) : Tx uuid :=
  outcome ← request_collection_outcome device_id profile requested_by key now;
  mret outcome.1.

Definition link_collection_command (collection_id command_id : uuid) : Tx uuid :=
  collection ← get collection_id;
  command ← get command_id;
  match collection, command with
  | Some collection, Some command =>
      raise_if (negb (col_device_id collection =? cmd_device_id command))
        (ContextConflict "context command belongs to another device") ;;
      raise_if (negb (in_set (col_command_id collection) [None; Some command_id]))
        (ContextConflict "collection is already linked to another command") ;;
      update collection_id (λ c : ContextCollection, c <| col_command_id := Some command_id |>) ;;
      mret collection_id
  | _, _ => raise (ContextNotFound "collection or command was not found")
  end.

(** ** ingestion.py *)

Section ingestion.
Context `{Contracts}.

Definition _CAPABILITY_PROFILES : list (string * string) :=
  [("context.baseline.collect", "baseline_v1"); ("context.health.collect", "health_v1");
   ("context.network.collect", "network_v1"); ("context.diagnostic.collect", "diagnostic_v1");
   ("context.inventory.collect", "inventory_v1"); ("context.session.collect", "session_v1")].

Definition _success_envelope (result : AgentResultV1) : Tx DeviceContextEnvelopeV1 :=
  match result_items result with
  | [item] =>
      if decide (result_status result = succeeded)
      then require (validate_context_result_item item)
             (ContextValidationError "invalid device context envelope")
      else raise (ContextValidationError
             "successful context result must contain exactly one envelope")
  | _ => raise (ContextValidationError
           "successful context result must contain exactly one envelope")
  end.

Definition _profile_for_failed_command (command : Command) : Tx string :=
  require (assoc (cmd_command_kind command) _CAPABILITY_PROFILES)
    (ContextValidationError "command is not a device context capability").

Definition _current_collection (command_id : uuid) (command : Command)
    (result_id : uuid) (result : CommandResult) (profile : string)
    : Tx (uuid * ContextCollection) :=
  collection ← scalar (λ _ c, bool_decide (col_command_result_id c = Some result_id));
  match collection with
  | Some c => mret c
  | None =>
      collection ← scalar (λ _ c, bool_decide (col_command_id c = Some command_id));
      match collection with
      | Some (id, c) =>
          raise_if (negb (bool_decide (col_profile c = profile)))
            (ContextConflict "context command profile does not match collection") ;;
          mret (id, c)
      | None =>
          collection_id ← uuid4;
          profile ← require_profile profile;
          requested_at ← _now (res_completed_at result);
          let collection :=
            new_collection (cmd_device_id command) profile "agent-result"
              ("result:" +:+ res_result_identifier result) c_result_received
              requested_at (Some command_id) in
          insert collection_id collection ;;
          flush ;;
          mret (collection_id, collection)
      end
  end.

Definition _advance_current_pointer (snapshot_id : uuid) (snapshot : ContextSnapshot)
    (updated_at : datetime) : Tx unit :=
  current ← scalar (λ _ c, (cur_device_id c =? snap_device_id snapshot)
                           && bool_decide (cur_profile c = snap_profile snapshot));
  match current with
  | None =>
      id ← uuid4;
      insert id {|
        cur_device_id := snap_device_id snapshot;
        cur_profile := snap_profile snapshot;
        cur_snapshot_id := snapshot_id;
        cur_updated_at := updated_at;
        cur_last_observed_at := Some updated_at |}
  | Some (id, current) =>
      current_snapshot ← get (cur_snapshot_id current);
      current_snapshot ← require current_snapshot
        (ContextConflict "current context snapshot is missing");
      let last_observed := default (cur_updated_at current) (cur_last_observed_at current) in
      when (dt_ltb (as_utc last_observed) updated_at)
        (update id (λ c : ContextCurrent, c <| cur_last_observed_at := Some updated_at |>)) ;;
      if dt_leb (as_utc (snap_collected_at snapshot))
                (as_utc (snap_collected_at current_snapshot))
      then mret tt
      else update id (λ c : ContextCurrent,
             c <| cur_snapshot_id := snapshot_id |> <| cur_updated_at := updated_at |>)
  end.

(** [ORDER BY collected_at DESC, id DESC] *)
Definition newest_snapshot (a b : uuid * ContextSnapshot) : bool :=
  lex_leb (instant (snap_collected_at b.2), b.1) (instant (snap_collected_at a.2), a.1).

Definition snapshots_of (device_id : uuid) (profile : string) (_ : uuid)
    (s : ContextSnapshot) : bool :=
  (snap_device_id s =? device_id) && bool_decide (snap_profile s = profile).

Definition latest_snapshot_of (device_id : uuid) (profile : string)
    : Tx (option (uuid * ContextSnapshot)) :=
  snapshots ← select (snapshots_of device_id profile);
  mret (head (order_by newest_snapshot snapshots)).

Definition complete_collection (at_ : datetime) (c : ContextCollection) : ContextCollection :=
  c <| col_status := c_completed |> <| col_completed_at := Some at_ |>.

(** The latest snapshot holds the same semantic identity. *)
Definition same_hash (latest : option (uuid * ContextSnapshot)) (hash : option string) : bool :=
  match latest, hash with
  | Some (_, s), Some h => bool_decide (snap_semantic_hash s = Some h)
  | _, _ => false
  end.

(** The part of [ingest_context_result] that stores a new snapshot with its
    diff and events, and moves the current pointer. *)
Definition store_snapshot (collection_id device_id : uuid) (profile : string)
    (envelope : DeviceContextEnvelopeV1) (hash : option string) (raw : json)
    (latest : option (uuid * ContextSnapshot)) (observed_at : datetime) : Tx unit :=
  snapshot_id ← uuid4;
  let snapshot := {|
    snap_collection_id := collection_id;
    snap_device_id := device_id;
    snap_profile := profile;
    snap_collected_at := env_collected_at envelope;
    snap_pinned_at := None;
    snap_semantic_hash := hash;
    snap_raw_payload := Some raw;
    snap_normalized_projection := env_dump envelope |} in
  insert snapshot_id snapshot ;;
  flush ;;
  diff ←
    match latest with
    | Some (latest_id, latest) =>
        if str_in profile ["baseline_v1"; "inventory_v1"] then
          diff ← lift_res (compare_snapshots (snap_normalized_projection latest)
                             (env_dump envelope));
          diff_id ← uuid4;
          insert diff_id {|
            dif_device_id := device_id;
            dif_profile := profile;
            dif_before_snapshot_id := latest_id;
            dif_after_snapshot_id := snapshot_id;
            dif_diff_payload := diff_dump diff |} ;;
          mret (Some diff)
        else mret None
    | None => mret None
    end;
  when (str_in profile ["baseline_v1"; "inventory_v1"; "session_v1"; "network_v1"])
    (for_each (events_for_change (snd <$> latest) snapshot_id snapshot diff)
       (λ event, event_id ← uuid4; insert event_id event)) ;;
  _advance_current_pointer snapshot_id snapshot observed_at.

(** Which profile the result is for: the envelope's own for a success, the
    command's for a failure. *)
Definition result_profile (command : Command) (result : AgentResultV1)
    : Tx (option DeviceContextEnvelopeV1 * string) :=
  if decide (result_status result = succeeded) then
    envelope ← _success_envelope result;
    expected_profile ← _profile_for_failed_command command;
    raise_if (negb (bool_decide (env_profile envelope = expected_profile)))
      (ContextValidationError "result profile does not match command capability") ;;
    mret (Some envelope, env_profile envelope)
  else if in_set (result_status result) [failed; canceled; expired] then
    profile ← _profile_for_failed_command command;
    mret (None, profile)
  else raise (ContextValidationError "context result must be terminal").

Definition receive_result (record_id : uuid) (observed_at : datetime) (raw : json)
    (c : ContextCollection) : ContextCollection :=
  c <| col_command_result_id := Some record_id |>
    <| col_result_received_at := Some observed_at |>
    <| col_raw_result_payload := Some raw |>.

Definition fail_collection (status : command_status) (observed_at : datetime)
    (c : ContextCollection) : ContextCollection :=
  c <| col_status := c_failed |> <| col_failed_at := Some observed_at |>
    <| col_failure_code := Some ("command_" +:+ status_str status) |>.

Definition validate_collection (observed_at : datetime) (c : ContextCollection)
    : ContextCollection :=
  c <| col_status := c_validated |> <| col_validated_at := Some observed_at |>.

Definition ingest_context_result (command_result_id : uuid) (result : AgentResultV1)
    (now : option datetime) : Tx uuid :=
  record ← get command_result_id;
  record ← require record (ContextNotFound "command result was not found");
  let command_id := res_command_id record in
  command ← get command_id;
  command ← require command (ContextNotFound "command for result was not found");
  raise_if (negb (result_command_id result =? command_id)
            || negb (result_device_id result =? cmd_device_id command))
    (ContextValidationError "agent result does not match its command ownership") ;;
  '(envelope, profile) ← result_profile command result;
  '(collection_id, collection) ←
    _current_collection command_id command command_result_id record profile;
  if is_some (col_command_result_id collection) then mret collection_id
  else
    observed_at ← _now (or_else now (Some (result_completed_at result)));
    let raw_payload := result_dump result in
    update collection_id (receive_result command_result_id observed_at raw_payload) ;;
    match envelope with
    | None =>
        update collection_id (fail_collection (result_status result) observed_at) ;;
        flush ;;
        mret collection_id
    | Some envelope =>
        update collection_id (validate_collection observed_at) ;;
        hash ← lift_res (_snapshot_semantic_hash profile (env_dump envelope));
        latest ← (if is_some hash then latest_snapshot_of (cmd_device_id command) profile
                  else mret None);
        match latest with
        | Some (latest_id, latest_row) =>
            if same_hash latest hash
            then _advance_current_pointer latest_id latest_row observed_at
            else store_snapshot collection_id (cmd_device_id command) profile envelope hash
                   raw_payload latest observed_at
        | None => store_snapshot collection_id (cmd_device_id command) profile envelope hash
                    raw_payload latest observed_at
        end ;;
        update collection_id (complete_collection observed_at) ;;
        flush ;;
        mret collection_id
    end.
End ingestion.
