(* ===== verification/Evidence.v ===== *)
(** * Operation evidence (endpoint_server/operations/evidence.py, projection.py)

    The safe projection of a diagnostic snapshot, the evidence row kept for a
    succeeded operation, its pinning and its scrubbing after the retention
    period. *)

From S2P Require Import Prelude Store Session AuditLog Contracts.

(** context/policy.py *)
Definition OPERATION_RESULT_TTL : timedelta := hours 24.
Definition RAW_CONTEXT_TTL : timedelta := hours 1.

Section evidence.
Context `{Contracts}.

(** [_utc]: an aware timestamp in UTC *)
Definition evidence_utc (value : datetime) : Tx datetime :=
  raise_if (negb (is_aware value)) (ValueError "evidence timestamp must be timezone-aware") ;;
  mret (as_utc value).

Definition create_operation_evidence (operation_id : uuid) (result_kind : string)
    (safe_payload : json) (created_at : datetime) : Tx uuid :=
  raise_if (negb (str_in result_kind ["diagnostic"; "module"]))
    (ValueError "unsupported result kind") ;;
  raise_if (65536 <? Z.of_nat (String.length (json_spaced safe_payload)))
    (ValueError "safe operation result exceeds evidence bound") ;;
  let encoded := json_compact safe_payload in
  when_ ← evidence_utc created_at;
  existing ← scalar (λ _ e, evd_operation_id e =? operation_id);
  raise_if (is_some existing) (EvidenceConflict "operation evidence already exists") ;;
  id ← uuid4;
  insert id {|
    evd_created_at := when_;
    evd_operation_id := operation_id;
    evd_result_kind := result_kind;
    evd_safe_payload := Some safe_payload;
    evd_payload_sha256 := sha256_hexdigest encoded;
    evd_expires_at := Some (dt_add when_ OPERATION_RESULT_TTL);
    evd_pinned_at := None;
    evd_pinned_by_actor_kind := None;
    evd_pinned_by_actor_identifier := None;
    evd_pin_reason := None;
    evd_scrubbed_at := None |} ;;
  flush ;;
  mret id.

Definition pin_operation_evidence (operation_id : uuid) (actor_kind actor_identifier request_id : string)
    (reason : option string) (now : option datetime) : Tx uuid :=
  raise_if (match reason with Some r => 256 <? Z.of_nat (String.length r) | None => false end)
    (ValueError "pin reason is too long") ;;
  let safe_reason := (λ r, (sanitize_agent_public_text r 256 false).1) <$> reason in
  now ← now_or now;
  when_ ← evidence_utc now;
  evidence ← scalar (λ _ e, evd_operation_id e =? operation_id);
  evidence ← require evidence (EvidenceConflict "operation result is unavailable");
  raise_if (is_none (evd_safe_payload evidence.2) || is_some (evd_scrubbed_at evidence.2))
    (EvidenceConflict "operation result is unavailable") ;;
  if is_some (evd_pinned_at evidence.2) then mret evidence.1
  else
    raise_if (match evd_expires_at evidence.2 with
              | None => true | Some expiry => dt_leb (as_utc expiry) when_ end)
      (EvidenceConflict "operation result has expired") ;;
    operation ← get operation_id;
    operation ← require operation (EvidenceConflict "operation is unavailable");
    update evidence.1 (λ e : OperationEvidence,
      e <| evd_pinned_at := Some when_ |> <| evd_expires_at := None |>
        <| evd_pinned_by_actor_kind := Some actor_kind |>
        <| evd_pinned_by_actor_identifier := Some (String.substring 0 128 actor_identifier) |>
        <| evd_pin_reason := safe_reason |>) ;;
    append_audit_event actor_kind (Some actor_identifier) "operation_evidence.pinned"
      "endpoint_operation" (Some (uuid_str operation_id)) request_id
      [(KStr "operation_id", PStr (uuid_str operation_id));
       (KStr "device_id", PStr (uuid_str (op_device_id operation)));
       (KStr "reason", from_option PStr PNone safe_reason)]
      (Some when_) ;;
    flush ;;
    mret evidence.1.

Definition expiry_order (a b : uuid * OperationEvidence) : bool :=
  lex_leb (from_option instant 0 (evd_expires_at a.2), a.1)
          (from_option instant 0 (evd_expires_at b.2), b.1).

Definition scrub_evidence (at_ : datetime) (e : OperationEvidence) : OperationEvidence :=
  e <| evd_safe_payload := None |> <| evd_scrubbed_at := Some at_ |>.

Definition scrub_step (s : ModuleOperationStep) : ModuleOperationStep :=
  s <| step_safe_result_json := None |>.

(** The unpinned evidence whose expiry has passed and that still holds a payload. *)
Definition expired_evidence (at_ : datetime) (_ : uuid) (e : OperationEvidence) : bool :=
  match evd_expires_at e with Some x => dt_leb x at_ | None => false end
  && is_some (evd_safe_payload e) && is_none (evd_pinned_at e).

Definition cleanup_operation_results (now : option datetime) (limit : Z) : Tx Z :=
  raise_if (negb ((1 <=? limit) && (limit <=? 1000)))
    (ValueError "cleanup limit must be between 1 and 1000") ;;
  now ← now_or now;
  when_ ← evidence_utc now;
  rows ← select (expired_evidence when_);
  let rows := take (Z.to_nat limit) (order_by expiry_order rows) in
  for_each rows (λ evidence,
    update evidence.1 (scrub_evidence when_) ;;
    steps ← select (λ _ s, (step_operation_id s =? evd_operation_id evidence.2)
                           && is_some (step_safe_result_json s));
    for_each steps (λ step, update step.1 scrub_step)) ;;
  flush ;;
  mret (Z.of_nat (length rows)).

Definition completion_order (a b : uuid * ModuleOperationStep) : bool :=
  lex_leb (from_option instant 0 (step_completed_at a.2), a.1)
          (from_option instant 0 (step_completed_at b.2), b.1).

Definition cleanup_module_step_results (now : option datetime) (limit : Z) : Tx Z :=
  raise_if (negb ((1 <=? limit) && (limit <=? 1000)))
    (ValueError "cleanup limit must be between 1 and 1000") ;;
  now ← now_or now;
  when_ ← evidence_utc now;
  let cutoff := dt_add when_ (- OPERATION_RESULT_TTL) in
  rows ← select (λ _ s,
    match step_completed_at s with Some t => dt_ltb t cutoff | None => false end
    && is_some (step_safe_result_json s));
  let rows := take (Z.to_nat limit) (order_by completion_order rows) in
  for_each rows (λ step, update step.1 scrub_step) ;;
  flush ;;
  mret (Z.of_nat (length rows)).

(** ** projection.py *)

(** Sanitize the process names in order; the flag says whether one changed. *)
Fixpoint sanitize_processes (l : list DiagnosticProcessV1)
    : list DiagnosticProcessV1 * bool :=
  match l with
  | [] => ([], false)
  | p :: rest =>
      let (name, changed) := sanitize_agent_public_text (process_name p) 128 false in
      let (rest', changed') := sanitize_processes rest in
      ({| process_name := name; process_state := process_state p |} :: rest',
       changed || changed')
  end.

Definition sanitize_excerpt (excerpt : option string) : option string * bool :=
  match excerpt with
  | None => (None, false)
  | Some text =>
      let (text', changed) := sanitize_agent_public_text text 8192 true in
      (Some text', changed)
  end.

(** Add the redaction warning within the bound of 16 warnings. *)
Definition redaction_warnings (warnings : list string) (redaction_applied : bool) : list string :=
  if redaction_applied && negb (str_in "redaction_applied" warnings)
  then take 15 warnings ++ ["redaction_applied"]
  else warnings.

(** Processes, excerpt and warnings of a diagnostic, made public-safe. *)
Definition safe_diagnostic (d : DeviceContextDiagnosticV1) : DeviceContextDiagnosticV1 :=
  let (processes, changed) := sanitize_processes (diag_processes d) in
  let (excerpt, changed') := sanitize_excerpt (diag_log_excerpt d) in
  {| diag_collected_at := diag_collected_at d;
     diag_reason := diag_reason d;
     diag_log_excerpt := excerpt;
     diag_processes := processes;
     diag_warnings := redaction_warnings (diag_warnings d) (changed || changed') |}.

Definition project_diagnostic_result (operation : EndpointOperation)
    (snapshot : ContextSnapshot) : option json :=
  if negb (bool_decide (snap_profile snapshot = "diagnostic_v1"))
     || negb (snap_device_id snapshot =? op_device_id operation)
     || negb (bool_decide (op_context_collection_id operation
                           = Some (snap_collection_id snapshot)))
  then None
  else
    reason ← validate_diagnostic_parameters (op_parameters operation);
    envelope ← parse_diagnostic (snap_normalized_projection snapshot);
    let safe := safe_diagnostic envelope in
    validate_diagnostic_result
      (JObj [("schema_version", JStr "endpoint_diagnostic_result_v1");
             ("profile", JStr "diagnostic_v1");
             ("collected_at", JStr (dump_datetime (diag_collected_at envelope)));
             ("reason", JStr reason);
             ("warnings", JList (map JStr (diag_warnings safe)));
             ("processes", JList (map (λ p, JObj [("name", JStr (process_name p));
                                                  ("state", JStr (process_state p))])
                                    (diag_processes safe)));
             ("log_excerpt", opt_json JStr (diag_log_excerpt safe))]).
End evidence.
