(* ===== verification/Commands.v ===== *)
(** * Gateway command delivery (endpoint_server/gateway/command_service.py)

    The durable delivery of commands to agents over the Gateway WSS channel:
    the selection of the next pending command, its delivery to a session, and
    the recording of acknowledgements and results, for context collections,
    diagnostic operations and module operations. *)

From S2P Require Import Prelude Store Session AuditLog Contracts Recipe Canonical.
From S2P Require Import Operations Context Evidence.

Definition rejected (message : string) : exn := CommandStateRejected message.

Definition _MAX_AGENT_CLOCK_SKEW : timedelta := minutes 5.

Definition _CAPABILITIES : list (string * string) :=
  [("baseline_v1", "context.baseline.collect"); ("health_v1", "context.health.collect");
   ("network_v1", "context.network.collect"); ("diagnostic_v1", "context.diagnostic.collect");
   ("inventory_v1", "context.inventory.collect"); ("session_v1", "context.session.collect")].

Definition _as_utc (value : option datetime) : option datetime := as_utc <$> value.

Section commands.
Context `{Contracts}.

(** ** Command payloads *)

Definition _command_payload (command_id : uuid) (command : Command)
    (collection_id : uuid) (collection : ContextCollection) (capability : string)
    (operation : option (uuid * EndpointOperation)) : Tx GatewayCommandV1 :=
  created_at ← require (_as_utc (Some (cmd_created_at command)))
    (rejected "command timing is unavailable");
  deadline_at ← require (_as_utc (cmd_expires_at command))
    (rejected "command timing is unavailable");
  match operation with
  | None =>
      make_gateway_command {|
        gc_command_id := command_id;
        gc_device_id := cmd_device_id command;
        gc_capability := capability;
        gc_parameters := [];
        gc_requested_by_service := col_requested_by collection;
        gc_idempotency_key := "context-" +:+ uuid_hex collection_id;
        gc_created_at := created_at;
        gc_deadline_at := deadline_at;
        gc_correlation_request_id := None |}
  | Some (operation_id, operation) =>
      raise_if (negb (bool_decide (capability = "context.diagnostic.collect")))
        (rejected "operation capability is unavailable") ;;
      reason ← require (validate_diagnostic_parameters (op_parameters operation))
        (rejected "operation parameters are unavailable");
      make_gateway_command {|
        gc_command_id := command_id;
        gc_device_id := cmd_device_id command;
        gc_capability := capability;
        gc_parameters := [("reason", JStr reason)];
        gc_requested_by_service := "endpoint-platform";
        gc_idempotency_key := "endpoint-operation:" +:+ uuid_hex operation_id;
        gc_created_at := created_at;
        gc_deadline_at := as_utc (op_deadline_at operation);
        gc_correlation_request_id := Some operation_id |}
  end.

Definition _module_step_payload (command_id : uuid) (command : Command)
    (operation_id : uuid) (operation : EndpointOperation)
    (step_id : uuid) (step : ModuleOperationStep) (parameters : list (string * json))
    : Tx GatewayCommandV1 :=
  raise_if (negb (bool_decide (cmd_command_kind command = step_capability step))
            || negb (cmd_device_id command =? op_device_id operation))
    (rejected "module command relation is unavailable") ;;
  make_gateway_command {|
    gc_command_id := command_id;
    gc_device_id := op_device_id operation;
    gc_capability := step_capability step;
    gc_parameters := parameters;
    gc_requested_by_service := "endpoint-platform";
    gc_idempotency_key :=
      "endpoint-module:" +:+ uuid_hex operation_id +:+ ":" +:+ uuid_hex step_id;
    gc_created_at := as_utc (cmd_created_at command);
    gc_deadline_at := as_utc (op_deadline_at operation);
    gc_correlation_request_id := Some operation_id |}.

(** The delivery row that goes with a new command. *)
Definition new_delivery (command_id : uuid) : CommandDelivery := {|
  dlv_command_id := command_id;
  dlv_device_session_id := None;
  dlv_delivery_identifier := "delivery-" +:+ uuid_hex command_id;
  dlv_status := delivered;
  dlv_acknowledged_at := None |}.

(** ** The next command of a module operation *)

Definition creation_order (a b : uuid * EndpointOperation) : bool :=
  lex_leb (instant (op_created_at a.2), a.1) (instant (op_created_at b.2), b.1).

Definition sequence_order (a b : uuid * ModuleOperationStep) : bool :=
  lex_leb (step_sequence a.2, a.1) (step_sequence b.2, b.1).

(** [operation.parameters.get("execution_mode", "published")] *)
Definition execution_mode (operation : EndpointOperation) : option json :=
  match op_parameters operation with
  | JObj entries => Some (default (JStr "published") (assoc "execution_mode" entries))
  | _ => None
  end.

Inductive module_mode := mode_published | mode_lab.

(** The version state a mode requires, looked up by its name. *)
Definition expected_version_state (mode : option json) : Tx (module_mode * string) :=
  match mode with
  | Some (JStr m) =>
      if decide (m = "published") then mret (mode_published, "published")
      else if decide (m = "lab") then mret (mode_lab, "validated")
      else raise (rejected "module execution mode is unavailable")
  | Some (JList _) | Some (JObj _) => raise (TypeError "unhashable type")
  | _ => raise (rejected "module execution mode is unavailable")
  end.

Definition execution_platform (operation : EndpointOperation) : json :=
  _field (_mapping (op_parameters operation)) "execution_platform".

(** The platform a lab operation is bound to: [JNull] before its first step. *)
Definition lab_platform (mode : module_mode) (operation : EndpointOperation)
    (agent_platform : option string) : Tx json :=
  match mode with
  | mode_published => mret JNull
  | mode_lab =>
      raise_if (negb (in_set agent_platform [Some "linux_amd64"; Some "windows_amd64"]))
        (rejected "lab agent platform is unavailable") ;;
      let bound := execution_platform operation in
      raise_if (match bound, agent_platform with
                | JNull, _ => false
                | JStr p, Some q => negb (bool_decide (p = q))
                | _, _ => true
                end)
        (rejected "lab agent platform changed before completion") ;;
      mret bound
  end.

Definition allowed (allowed_capabilities : option (list string)) (capability : string) : bool :=
  match allowed_capabilities with None => true | Some l => str_in capability l end.

(** Create the command of a queued step and mark step and operation
    delivered. *)
Definition materialize_step (device_id operation_id : uuid) (operation : EndpointOperation)
    (step_id : uuid) (step : ModuleOperationStep) (now : datetime) : Tx (uuid * Command) :=
  command_id ← uuid4;
  let command := {|
    cmd_command_identifier := "module-" +:+ uuid_hex operation_id +:+ "-" +:+ uuid_hex step_id;
    cmd_created_at := now;
    cmd_device_id := device_id;
    cmd_command_kind := step_capability step;
    cmd_status := delivered;
    cmd_expires_at := Some (op_deadline_at operation) |} in
  insert command_id command ;;
  flush ;;
  update step_id (λ s : ModuleOperationStep,
    s <| step_command_id := Some command_id |> <| step_status := delivered |>) ;;
  update operation_id (λ o : EndpointOperation, o <| op_status := delivered |>) ;;
  delivery_id ← uuid4;
  insert delivery_id (new_delivery command_id) ;;
  mret (command_id, command).

(** The step to send and its command, or [None] for [continue]. *)
Definition step_to_deliver (device_id operation_id : uuid) (operation : EndpointOperation)
    (steps : list (uuid * ModuleOperationStep)) (now : datetime)
    (allowed_capabilities : option (list string))
    : Tx (option ((uuid * ModuleOperationStep) * (uuid * Command))) :=
  match List.filter (λ s : uuid * ModuleOperationStep, in_flight (step_status s.2)) steps with
  | [step] =>
      if negb (bool_decide (step_status step.2 = delivered)) then mret None
      else
        command_id ← require (step_command_id step.2)
          (rejected "module step command is unavailable");
        command ← scalar (λ id c, (id =? command_id) && (cmd_device_id c =? device_id));
        command ← require command (rejected "module step delivery is unavailable");
        raise_if (negb (bool_decide (cmd_status command.2 = delivered)))
          (rejected "module step delivery is unavailable") ;;
        mret (Some (step, command))
  | _ :: _ :: _ => mret None
  | [] =>
      match List.filter (λ s : uuid * ModuleOperationStep,
                           bool_decide (step_status s.2 = queued)) steps with
      | [] => mret None
      | step :: _ =>
          if existsb (λ s : uuid * ModuleOperationStep,
                        negb (bool_decide (step_status s.2 = succeeded)))
               (take (Z.to_nat (step_sequence step.2)) steps)
          then mret None
          else if negb (allowed allowed_capabilities (step_capability step.2)) then mret None
          else
            command ← materialize_step device_id operation_id operation step.1 step.2 now;
            mret (Some (step, command))
      end
  end.

(** [EndpointRecipeModuleSpecV1.model_validate] and the plan, with their
    errors turned into a rejection. *)
Definition recipe_plan (version : ModuleVersion) (operation : EndpointOperation)
    (inputs : list (string * json)) : Tx (list RecipeCommandPlanItem) :=
  try_except
    (recipe ← require (parse_recipe (mv_recipe version))
       (ValidationError "EndpointRecipeModuleSpecV1");
     lift_res (build_recipe_command_plan recipe inputs))
    (λ e, if is_value_error e
          then Some (raise (rejected "module recipe plan is unavailable")) else None).

Definition plan_matches (step : ModuleOperationStep) (item : RecipeCommandPlanItem) : bool :=
  (pi_sequence item =? step_sequence step)
  && bool_decide (pi_step_id item = step_recipe_step_key step).

(** The body of the loop over the module operations of a device. *)
Definition module_operation_command (device_id : uuid)
    (allowed_capabilities : option (list string)) (agent_platform : option string)
    (now : datetime) (operation_id : uuid) (operation : EndpointOperation)
    : Tx (option GatewayCommandV1) :=
  match op_module_version_id operation, op_module_inputs operation with
  | Some version_id, Some inputs =>
      '(mode, version_state) ← expected_version_state (execution_mode operation);
      lab_execution_platform ← lab_platform mode operation agent_platform;
      version ← get version_id;
      version ← require version (rejected "module version is unavailable for execution mode");
      raise_if (negb (bool_decide (mv_state version = version_state)))
        (rejected "module version is unavailable for execution mode") ;;
      if dt_leb (as_utc (op_deadline_at operation)) now then mret None
      else
        steps ← select (λ _ s, step_operation_id s =? operation_id);
        let steps := order_by sequence_order steps in
        raise_if (bool_decide (steps = []))
          (rejected "module operation has no durable steps") ;;
        chosen ← step_to_deliver device_id operation_id operation steps now
          allowed_capabilities;
        match chosen with
        | None => mret None
        | Some ((step_id, step), (command_id, command)) =>
            if negb (allowed allowed_capabilities (step_capability step)) then mret None
            else
              match mode, lab_execution_platform, agent_platform with
              | mode_lab, JNull, Some platform =>
                  update operation_id (λ o : EndpointOperation,
                    o <| op_parameters := JObj (assoc_set "execution_platform" (JStr platform)
                                                  (_mapping (op_parameters o))) |>)
              | _, _, _ => mret tt
              end ;;
              plan ← recipe_plan version operation inputs;
              item ← require (List.find (plan_matches step) plan)
                (rejected "module step plan is unavailable");
              raise_if (negb (bool_decide (pi_capability item = step_capability step)))
                (rejected "module step plan is unavailable") ;;
              payload ← _module_step_payload command_id command operation_id operation
                step_id step (pi_parameters item);
              mret (Some payload)
        end
  | _, _ => raise (rejected "module operation shape is unavailable")
  end.

Definition _next_pending_module_command (device_id : uuid)
    (allowed_capabilities : option (list string)) (agent_platform : option string)
    : Tx (option GatewayCommandV1) :=
  operations ← select (λ _ o,
    (op_device_id o =? device_id)
    && bool_decide (op_capability o = "endpoint.module.recipe")
    && in_set (op_status o) [queued; delivered; acknowledged; running]);
  now ← utcnow;
  for_return (order_by creation_order operations) (λ operation,
    module_operation_command device_id allowed_capabilities agent_platform now
      operation.1 operation.2).

(** ** Relations between commands, collections and operations *)

Definition _validate_operation_relation (collection_id : uuid) (collection : ContextCollection)
    (operation : option (uuid * EndpointOperation)) (command : option (uuid * Command))
    : Tx (uuid * EndpointOperation) :=
  let unrelated := rejected "operation collection relation is unavailable" in
  operation ← require operation unrelated;
  let '(operation_id, o) := operation in
  raise_if
    (negb (bool_decide (col_operation_id collection = Some operation_id))
     || negb (bool_decide (op_context_collection_id o = Some collection_id))
     || negb (op_device_id o =? col_device_id collection)
     || negb (bool_decide (Some (op_capability o)
                           = assoc (col_profile collection) _CAPABILITIES))
     || negb (bool_decide (col_profile collection = "diagnostic_v1")))
    unrelated ;;
  raise_if
    (match command with
     | None => false
     | Some (command_id, c) =>
         negb (bool_decide (col_command_id collection = Some command_id))
         || negb (bool_decide (op_command_id o = Some command_id))
         || negb (cmd_device_id c =? op_device_id o)
         || negb (bool_decide (cmd_command_kind c = op_capability o))
     end)
    (rejected "operation command relation is unavailable") ;;
  mret (operation_id, o).

(** [session.scalar(select(R).where(R.id == id))] with the id *)
Definition get_row {R} `{Table R} (id : uuid) : Tx (option (uuid * R)) :=
  row ← get id; mret (pair id <$> row).

Definition _operation_for_collection (collection_id : uuid) (collection : ContextCollection)
    (command : option (uuid * Command)) : Tx (option (uuid * EndpointOperation)) :=
  match col_operation_id collection with
  | None => mret None
  | Some operation_id =>
      operation ← get_row operation_id;
      operation ← _validate_operation_relation collection_id collection operation command;
      mret (Some operation)
  end.

Definition resolve_command_context_relation (command_id : uuid) (command : Command)
    : Tx (option (uuid * ContextCollection) * option (uuid * EndpointOperation)) :=
  collection ← scalar (λ _ c, bool_decide (col_command_id c = Some command_id));
  direct_operation ← scalar (λ _ o, bool_decide (op_command_id o = Some command_id));
  match direct_operation with
  | None =>
      match collection with
      | None => mret (None, None)
      | Some (collection_id, c) =>
          operation ← _operation_for_collection collection_id c (Some (command_id, command));
          mret (collection, operation)
      end
  | Some (operation_id, o) =>
      canonical ←
        match collection with
        | Some (id, c) =>
            if bool_decide (op_context_collection_id o = Some id) then mret collection
            else scalar (λ id' _, bool_decide (op_context_collection_id o = Some id'))
        | None => scalar (λ id' _, bool_decide (op_context_collection_id o = Some id'))
        end;
      canonical ← require canonical
        (rejected "operation collection relation is unavailable");
      raise_if (match collection with
                | Some (id, _) => negb (id =? canonical.1)
                | None => false
                end)
        (rejected "operation collection relation is unavailable") ;;
      operation ← _validate_operation_relation canonical.1 canonical.2
        (Some (operation_id, o)) (Some (command_id, command));
      mret (Some canonical, Some operation)
  end.

Definition resolve_module_step_relation (command_id : uuid) (command : Command)
    : Tx (option ((uuid * ModuleOperationStep) * (uuid * EndpointOperation))) :=
  owner ← scalar (λ _ s, bool_decide (step_command_id s = Some command_id));
  match owner with
  | None => mret None
  | Some (_, owner) =>
      let operation_id := step_operation_id owner in
      operation ← get_row operation_id;
      step ← scalar (λ _ s, bool_decide (step_command_id s = Some command_id)
                            && (step_operation_id s =? operation_id));
      match operation, step with
      | Some (_, o), Some (step_id, s) =>
          raise_if
            (negb (bool_decide (op_capability o = "endpoint.module.recipe"))
             || negb (op_device_id o =? cmd_device_id command)
             || is_some (op_command_id o)
             || negb (bool_decide (cmd_command_kind command = step_capability s)))
            (rejected "module step relation is unavailable") ;;
          mret (Some ((step_id, s), (operation_id, o)))
      | _, _ => raise (rejected "module step relation is unavailable")
      end
  end.

(** ** The next pending command *)

Inductive transport := http_pull | gateway_wss | other_transport.

#[export] Instance transport_eq_dec : EqDecision transport.
Proof. solve_decision. Defined.

Definition request_order (a b : uuid * ContextCollection) : bool :=
  lex_leb (instant (col_requested_at a.2), a.1) (instant (col_requested_at b.2), b.1).

Definition opt_expire_if_due (operation : option (uuid * EndpointOperation))
    (collection : uuid * ContextCollection) : Tx bool :=
  match operation with
  | None => mret false
  | Some (operation_id, o) =>
      now ← utcnow;
      expire_operation_if_due operation_id o (Some now) (Some collection)
  end.

Definition operation_status_is (s : command_status)
    (operation : option (uuid * EndpointOperation)) : bool :=
  match operation with None => true | Some (_, o) => bool_decide (op_status o = s) end.

(** A collection whose command exists already: replay it while it is
    delivered and not acknowledged. *)
Definition replay_collection (device_id collection_id : uuid) (collection : ContextCollection)
    (capability : string) (command_id : uuid) : Tx (option GatewayCommandV1) :=
  command ← scalar (λ id c, (id =? command_id) && (cmd_device_id c =? device_id));
  match command with
  | None => mret None
  | Some (command_id, command) =>
      if negb (bool_decide (cmd_status command = delivered)) then mret None
      else
        operation ← _operation_for_collection collection_id collection
          (Some (command_id, command));
        due ← opt_expire_if_due operation (collection_id, collection);
        if due : bool then mret None
        else
          raise_if (negb (operation_status_is delivered operation))
            (rejected "operation delivery state is unavailable") ;;
          let expires_at :=
            default (dt_add (as_utc (cmd_created_at command)) (minutes 15))
              (cmd_expires_at command) in
          let command' := command <| cmd_expires_at := Some expires_at |> in
          when (is_none (cmd_expires_at command))
            (update command_id (λ c : Command, c <| cmd_expires_at := Some expires_at |>) ;;
             flush) ;;
          payload ← _command_payload command_id command' collection_id collection capability
            operation;
          mret (Some payload)
  end.

(** A collection without a command: create and deliver one. *)
Definition deliver_collection (device_id collection_id : uuid) (collection : ContextCollection)
    (capability : string) (operation : option (uuid * EndpointOperation)) (now : datetime)
    : Tx (option GatewayCommandV1) :=
  due ← opt_expire_if_due operation (collection_id, collection);
  if due : bool then mret None
  else
    raise_if (negb (operation_status_is queued operation))
      (rejected "operation is not queued for delivery") ;;
    let deadline_at :=
      match operation with
      | Some (_, o) => op_deadline_at o
      | None => default (dt_add now (minutes 15)) (col_expires_at collection)
      end in
    command_id ← uuid4;
    let command := {|
      cmd_command_identifier := "ctx-" +:+ uuid_hex collection_id;
      cmd_created_at := now;
      cmd_device_id := device_id;
      cmd_command_kind := capability;
      cmd_status := delivered;
      cmd_expires_at := Some deadline_at |} in
    insert command_id command ;;
    flush ;;
    link_collection_command collection_id command_id ;;
    update collection_id (λ c : ContextCollection, c <| col_status := c_delivered |>) ;;
    match operation with
    | Some (operation_id, _) =>
        update operation_id (λ o : EndpointOperation,
          o <| op_command_id := Some command_id |> <| op_status := delivered |>)
    | None => mret tt
    end ;;
    delivery_id ← uuid4;
    insert delivery_id (new_delivery command_id) ;;
    payload ← _command_payload command_id command collection_id collection capability operation;
    mret (Some payload).

(** The body of the loop over the pending collections of a device. *)
Definition collection_command (device_id : uuid) (allowed_capabilities : option (list string))
    (channel : transport) (now : datetime) (collection_id : uuid)
    (collection : ContextCollection) : Tx (option GatewayCommandV1) :=
  if is_some (col_operation_id collection) && negb (bool_decide (channel = gateway_wss))
  then mret None
  else match assoc (col_profile collection) _CAPABILITIES with
  | None => mret None
  | Some capability =>
      if negb (allowed allowed_capabilities capability) then mret None
      else
        operation ← _operation_for_collection collection_id collection None;
        match col_command_id collection with
        | Some command_id =>
            replay_collection device_id collection_id collection capability command_id
        | None =>
            deliver_collection device_id collection_id collection capability operation now
        end
  end.

Definition next_pending_command (device_id : uuid)
    (allowed_capabilities : option (list string)) (channel : transport)
    (agent_platform : option string) : Tx (option GatewayCommandV1) :=
  raise_if (bool_decide (channel = other_transport))
    (ValueError "unsupported gateway transport") ;;
  now ← utcnow;
  expire_overdue_collections device_id now None ;;
  module_payload ←
    (if decide (channel = gateway_wss)
     then _next_pending_module_command device_id allowed_capabilities agent_platform
     else mret None);
  match module_payload with
  | Some payload => mret (Some payload)
  | None =>
      collections ← select (λ _ c,
        (col_device_id c =? device_id) && in_set (col_status c) [c_requested; c_delivered]);
      now ← utcnow;
      for_return (order_by request_order collections) (λ collection,
        collection_command device_id allowed_capabilities channel now
          collection.1 collection.2)
  end.

(** ** CommandService.deliver_next *)

Definition open_session_of (session_id device_id : uuid) (id : uuid) (s : DeviceSession) : bool :=
  (id =? session_id) && (sess_device_id s =? device_id) && is_none (sess_closed_at s).

(** The payload handed to [send] after the commit, or [None] when nothing is
    sent ([deliver_next] returns False). *)
Definition deliver_next (device_id session_id : uuid)
    (allowed_capabilities : option (list string)) (agent_platform : option string)
    : Tx (option GatewayCommandV1) :=
  in_session (rollback_on_error (
    payload ← next_pending_command device_id allowed_capabilities gateway_wss agent_platform;
    match payload with
    | None => commit ;; mret None
    | Some payload =>
        delivery ← scalar (λ _ d, dlv_command_id d =? gc_command_id payload);
        delivery ← require delivery (rejected "command delivery is unavailable");
        gateway_session ← scalar (open_session_of session_id device_id);
        raise_if (is_none gateway_session) (rejected "gateway session is unavailable") ;;
        if decide (dlv_device_session_id delivery.2 = Some session_id)
        then commit ;; mret None
        else
          update delivery.1 (λ d : CommandDelivery,
            d <| dlv_device_session_id := Some session_id |>) ;;
          commit ;;
          mret (Some payload)
    end)).

(** ** CommandService.record_ack *)

(** A running command is not moved back to acknowledged. *)
Definition ack_status_update (current : command_status) (ack : command_status)
    : command_status :=
  if bool_decide (current ≠ running) || bool_decide (ack = running) then ack else current.

Definition acknowledge_delivery (ack_at : datetime) (d : CommandDelivery) : CommandDelivery :=
  d <| dlv_acknowledged_at := or_else (dlv_acknowledged_at d) (Some ack_at) |>.

Definition record_module_ack (acknowledgement : AgentCommandAckV1)
    (command_id : uuid) (command : Command) (delivery_id : uuid)
    (step : uuid * ModuleOperationStep) (operation : uuid * EndpointOperation) : Tx unit :=
  let ack := ack_status acknowledgement in
  let at_ := ack_acknowledged_at acknowledgement in
  if terminal (cmd_status command) then
    raise_if (negb (bool_decide (step_status step.2 = cmd_status command)))
      (rejected "module step terminal state is unavailable") ;;
    rollback
  else
    raise_if (negb (in_flight (cmd_status command)) || negb (in_flight (step_status step.2))
              || negb (in_flight (op_status operation.2)))
      (rejected "module acknowledgement is unavailable") ;;
    when (bool_decide (cmd_status command ≠ running) || bool_decide (ack = running))
      (update command_id (λ c : Command, c <| cmd_status := ack |>) ;;
       update delivery_id (λ d : CommandDelivery, d <| dlv_status := ack |>) ;;
       update step.1 (λ s : ModuleOperationStep, s <| step_status := ack |>)) ;;
    when (bool_decide (op_status operation.2 ≠ running) || bool_decide (ack = running))
      (update operation.1 (λ o : EndpointOperation, o <| op_status := ack |>)) ;;
    update delivery_id (acknowledge_delivery at_) ;;
    update step.1 (λ s : ModuleOperationStep,
      s <| step_started_at := or_else (step_started_at s) (Some at_) |>) ;;
    commit.

Definition record_context_ack (acknowledgement : AgentCommandAckV1)
    (command_id : uuid) (command : Command) (delivery_id : uuid) : Tx unit :=
  let ack := ack_status acknowledgement in
  '(collection, operation) ← resolve_command_context_relation command_id command;
  if terminal (cmd_status command) then
    raise_if (negb (operation_status_is (cmd_status command) operation))
      (rejected "operation terminal state is unavailable") ;;
    rollback
  else
    raise_if (negb (in_flight (cmd_status command))) (rejected "command is unavailable") ;;
    raise_if (match operation with
              | Some (_, o) => negb (in_flight (op_status o)) | None => false end)
      (rejected "operation is unavailable") ;;
    when (bool_decide (cmd_status command ≠ running) || bool_decide (ack = running))
      (update command_id (λ c : Command, c <| cmd_status := ack |>) ;;
       update delivery_id (λ d : CommandDelivery, d <| dlv_status := ack |>)) ;;
    match operation with
    | Some (operation_id, o) =>
        when (bool_decide (op_status o ≠ running) || bool_decide (ack = running))
          (update operation_id (λ o : EndpointOperation, o <| op_status := ack |>))
    | None => mret tt
    end ;;
    update delivery_id (acknowledge_delivery (ack_acknowledged_at acknowledgement)) ;;
    match collection with
    | Some (collection_id, _) =>
        update collection_id (λ c : ContextCollection, c <| col_status := c_collecting |>)
    | None => mret tt
    end ;;
    commit.

Definition record_ack (device_id session_id : uuid) (acknowledgement : AgentCommandAckV1)
    : Tx unit :=
  raise_if (negb (ack_device_id acknowledgement =? device_id))
    (rejected "acknowledgement device does not match session") ;;
  raise_if (negb (in_set (ack_status acknowledgement) [acknowledged; running]))
    (rejected "acknowledgement status is not actionable") ;;
  in_session (rollback_on_error (
    gateway_session ← scalar (open_session_of session_id device_id);
    command ← scalar (λ id c, (id =? ack_command_id acknowledgement)
                              && (cmd_device_id c =? device_id));
    raise_if (is_none gateway_session) (rejected "command is unavailable") ;;
    command ← require command (rejected "command is unavailable");
    let '(command_id, c) := command in
    delivery ← scalar (λ _ d, dlv_command_id d =? command_id);
    delivery ← require delivery (rejected "command delivery is unavailable");
    raise_if (negb (bool_decide (dlv_device_session_id delivery.2 = Some session_id)))
      (rejected "command delivery is unavailable") ;;
    module_relation ← resolve_module_step_relation command_id c;
    match module_relation with
    | Some (step, operation) =>
        record_module_ack acknowledgement command_id c delivery.1 step operation
    | None => record_context_ack acknowledgement command_id c delivery.1
    end)).

(** ** Results of module steps *)

(** The digest of a result, with its completion time in UTC. *)
Definition result_payload_digest (result : AgentResultV1) : string :=
  sha256_hexdigest (json_compact (result_dump
    (result <| result_completed_at := as_utc (result_completed_at result) |>))).

(** [accepted.error_code or "module_step_failed"] *)
Definition step_error (error_code : option string) : string :=
  match error_code with
  | Some code => if decide (code = "") then "module_step_failed" else code
  | None => "module_step_failed"
  end.

Definition _safe_module_step_result (step : ModuleOperationStep) (result : AgentResultV1)
    : Tx (option json * option string) :=
  raise_if (is_none (capability_parameters (step_capability step)))
    (rejected "module step capability is unavailable") ;;
  match result_status result, result_items result with
  | succeeded, [item] =>
      accepted ← require (validate_capability_result (step_capability step) item)
        (rejected "module step result is unavailable");
      raise_if (negb (bool_decide (mr_status accepted = "succeeded")))
        (rejected "successful module result is inconsistent") ;;
      mret (Some (mr_dump accepted), None)
  | succeeded, _ => raise (rejected "successful module step must contain one result")
  | failed, [item] =>
      accepted ← require (validate_capability_result (step_capability step) item)
        (rejected "module step result is unavailable");
      raise_if (negb (bool_decide (mr_status accepted = "failed")))
        (rejected "failed module result is inconsistent") ;;
      mret (None, Some (step_error (mr_error_code accepted)))
  | _, [] => mret (None, Some "module_step_failed")
  | failed, _ => raise (rejected "failed module step result is unavailable")
  | _, _ => raise (rejected "terminal module step must not contain raw results")
  end.

Definition module_terminal_action (status : command_status) : string :=
  match status with
  | succeeded => "endpoint.module_operation_completed"
  | failed => "endpoint.module_operation_failed"
  | s => "endpoint.module_operation_" +:+ status_str s
  end.

Definition _append_module_terminal_audit (operation_id : uuid) (operation : EndpointOperation)
    (step : ModuleOperationStep) (occurred_at : datetime) : Tx unit :=
  append_audit_event "device" (Some (uuid_str (op_device_id operation)))
    (module_terminal_action (op_status operation)) "endpoint_operation"
    (Some (uuid_str operation_id)) ("module-operation-" +:+ uuid_hex operation_id)
    [(KStr "step_sequence", PInt (step_sequence step));
     (KStr "capability", PStr (step_capability step));
     (KStr "error_code", from_option PStr PNone (step_error_code step))]
    (Some occurred_at) ;;
  mret tt.

(** [list(range(n))] *)
Definition range (n : Z) : list Z := seqZ 0 n.

Definition _require_authoritative_module_step_set (operation_id : uuid)
    (operation : EndpointOperation) : Tx Z :=
  let unavailable := rejected "module operation step set is unavailable" in
  expected_step_count ← require (op_expected_step_count operation) unavailable;
  raise_if (negb ((1 <=? expected_step_count) && (expected_step_count <=? 8))) unavailable ;;
  steps ← select (λ _ s, step_operation_id s =? operation_id);
  let sequences := order_by Z.leb (map (λ s : uuid * ModuleOperationStep, step_sequence s.2) steps) in
  raise_if (negb (bool_decide (sequences = range expected_step_count))) unavailable ;;
  mret expected_step_count.

(** [instance.last_result_sequence = max(instance.last_result_sequence, n)] *)
Definition advance_result_sequence (instance_id : uuid) (n : Z) : Tx unit :=
  update instance_id (λ i : DeviceInstance,
    i <| inst_last_result_sequence := Z.max (inst_last_result_sequence i) n |>).

Definition result_identifier (command_id : uuid) : string := "result-" +:+ uuid_hex command_id.

(** An agent result is timely: not completed before the operation began, nor
    after now beyond the clock skew, and accepted before the deadline. *)
Definition timely (completed_at created_at deadline_at accepted_at : datetime) : bool :=
  negb (dt_ltb (as_utc completed_at) (as_utc created_at)
        || dt_ltb (dt_add accepted_at _MAX_AGENT_CLOCK_SKEW) (as_utc completed_at)
        || dt_leb (as_utc deadline_at) accepted_at).

(** A replayed module result repeats the stored one in every respect. *)
Definition module_replay_matches (command_id : uuid) (command : Command)
    (delivery : option (uuid * CommandDelivery)) (step : ModuleOperationStep)
    (stored : CommandResult) (session_id : uuid) (result : AgentResultV1)
    (payload_digest : string) : bool :=
  match delivery with
  | None => false
  | Some (delivery_id, d) =>
      bool_decide (dlv_device_session_id d = Some session_id)
      && (res_command_id stored =? command_id)
      && bool_decide (res_delivery_id stored = Some delivery_id)
      && bool_decide (res_result_payload_digest stored = Some payload_digest)
      && bool_decide (res_status stored = result_status result)
      && bool_decide (cmd_status command = result_status result)
      && bool_decide (dlv_status d = result_status result)
      && bool_decide (step_status step = result_status result)
  end.

Definition finish_step (status : command_status) (safe_result : option json)
    (error_code : option string) (at_ : datetime) (s : ModuleOperationStep)
    : ModuleOperationStep :=
  s <| step_status := status |> <| step_safe_result_json := safe_result |>
    <| step_error_code := error_code |> <| step_completed_at := Some at_ |>.

Definition finish_operation (status : command_status) (at_ : datetime) (o : EndpointOperation)
    : EndpointOperation :=
  o <| op_status := status |> <| op_completed_at := Some at_ |>.

(** One entry of the payload kept as evidence of a module operation. *)
Definition evidence_step (s : uuid * ModuleOperationStep) : json :=
  JObj [("sequence", JInt (step_sequence s.2)); ("capability", JStr (step_capability s.2));
        ("safe_result", opt_json id (step_safe_result_json s.2))].

(** The parent's part in a successful step: running until the last one. *)
Definition advance_module_operation (operation_id : uuid) (operation : EndpointOperation)
    (step : ModuleOperationStep) (expected_step_count : Z) (accepted_at : datetime) : Tx unit :=
  if step_sequence step =? expected_step_count - 1 then
    update operation_id (finish_operation succeeded accepted_at) ;;
    flush ;;
    completed_steps ← select (λ _ s, step_operation_id s =? operation_id);
    create_operation_evidence operation_id "module"
      (JObj [("steps", JList (map evidence_step (order_by sequence_order completed_steps)))])
      accepted_at ;;
    _append_module_terminal_audit operation_id
      (finish_operation succeeded accepted_at operation) step accepted_at
  else update operation_id (λ o : EndpointOperation, o <| op_status := running |>).

Definition _record_module_step_result (command_id : uuid) (command : Command)
    (delivery : option (uuid * CommandDelivery)) (step_id : uuid) (step : ModuleOperationStep)
    (operation_id : uuid) (operation : EndpointOperation) (instance_id session_id : uuid)
    (result_sequence : Z) (result : AgentResultV1) (payload_digest : string) : Tx unit :=
  expected_step_count ← _require_authoritative_module_step_set operation_id operation;
  stored ← scalar (λ _ r, bool_decide (res_result_identifier r = result_identifier command_id));
  match stored with
  | Some (_, stored) =>
      raise_if (negb (module_replay_matches command_id command delivery step stored session_id
                        result payload_digest))
        (rejected "module result replay conflicts with stored result") ;;
      advance_result_sequence instance_id result_sequence
  | None =>
      let unavailable := rejected "module result delivery is unavailable" in
      delivery ← require delivery unavailable;
      raise_if (negb (bool_decide (dlv_device_session_id delivery.2 = Some session_id))
                || negb (in_flight (cmd_status command)) || negb (in_flight (step_status step))
                || negb (in_flight (op_status operation))) unavailable ;;
      accepted_at ← utcnow;
      raise_if (negb (timely (result_completed_at result) (op_created_at operation)
                        (op_deadline_at operation) accepted_at))
        (rejected "module result timing is unavailable") ;;
      '(safe_result, error_code) ← _safe_module_step_result step result;
      let status := result_status result in
      stored_id ← uuid4;
      insert stored_id {|
        res_command_id := command_id;
        res_delivery_id := Some delivery.1;
        res_result_identifier := result_identifier command_id;
        res_status := status;
        res_completed_at := Some accepted_at;
        res_result_sequence := Some result_sequence;
        res_result_payload_digest := Some payload_digest |} ;;
      update command_id (λ c : Command, c <| cmd_status := status |>) ;;
      update delivery.1 (λ d : CommandDelivery, d <| dlv_status := status |>) ;;
      update step_id (finish_step status safe_result error_code accepted_at) ;;
      let step' := finish_step status safe_result error_code accepted_at step in
      (if decide (status = succeeded)
       then advance_module_operation operation_id operation step' expected_step_count accepted_at
       else
         let fail (o : EndpointOperation) :=
           finish_operation status accepted_at o <| op_error_code := error_code |> in
         update operation_id fail ;;
         _append_module_terminal_audit operation_id (fail operation) step' accepted_at) ;;
      advance_result_sequence instance_id result_sequence
  end.

(** ** Results of operations and context commands *)

Definition safe_message (message : option string) : option string :=
  (λ m, (sanitize_agent_public_text m 4096 true).1) <$> message.

Definition _safe_operation_result (operation : EndpointOperation) (result : AgentResultV1)
    : Tx AgentResultV1 :=
  reason ← require (validate_diagnostic_parameters (op_parameters operation))
    (rejected "operation parameters are unavailable");
  let message := safe_message (result_message result) in
  if negb (bool_decide (result_status result = succeeded)) then
    raise_if (negb (bool_decide (result_items result = [])))
      (rejected "failed diagnostic result must not contain context") ;;
    mret (result <| result_message := message |>)
  else
    match result_items result with
    | [item] =>
        diagnostic ← require (parse_diagnostic item)
          (rejected "diagnostic context is unavailable");
        raise_if (negb (bool_decide (diag_reason diagnostic = reason)))
          (rejected "diagnostic reason does not match operation") ;;
        mret (result <| result_items := [diagnostic_dump (safe_diagnostic diagnostic)] |>
                     <| result_message := message |>)
    | _ => raise (rejected "successful diagnostic result must contain one context envelope")
    end.

(** The result to store for an operation, and when it was accepted. *)
Definition accept_operation_result (command : Command)
    (delivery : option (uuid * CommandDelivery)) (operation : EndpointOperation)
    (session_id : uuid) (result : AgentResultV1) : Tx (AgentResultV1 * option datetime) :=
  raise_if
    (match delivery with
     | None => true
     | Some (_, d) => negb (bool_decide (dlv_device_session_id d = Some session_id))
     end
     || negb (in_flight (cmd_status command)) || negb (in_flight (op_status operation)))
    (rejected "operation result delivery is unavailable") ;;
  accepted_at ← utcnow;
  raise_if (negb (timely (result_completed_at result) (op_created_at operation)
                    (op_deadline_at operation) accepted_at))
    (rejected "operation result timing is unavailable") ;;
  safe ← _safe_operation_result operation result;
  mret (safe <| result_completed_at := accepted_at |>, Some accepted_at).

(** The collection that took the result is the operation's, with the
    outcome the result reports. *)
Definition ingested_as_expected (status : command_status) (collection_id operation_id : uuid)
    (ingested : uuid * ContextCollection) : bool :=
  (ingested.1 =? collection_id)
  && bool_decide (col_operation_id ingested.2 = Some operation_id)
  && bool_decide (col_status ingested.2
                  = if decide (status = succeeded) then c_completed else c_failed).

Definition diagnostic_snapshot_of (operation : EndpointOperation) (_ : uuid)
    (s : ContextSnapshot) : bool :=
  bool_decide (op_context_collection_id operation = Some (snap_collection_id s))
  && (snap_device_id s =? op_device_id operation)
  && bool_decide (snap_profile s = "diagnostic_v1").

(** The operation's own part in a first result: its terminal status, its
    evidence and its audit event. *)
Definition finish_context_operation (operation_id : uuid) (operation : EndpointOperation)
    (status : command_status) (accepted_at : datetime) (failure_code : option string) : Tx unit :=
  let finish (o : EndpointOperation) :=
    let o := finish_operation status accepted_at o in
    if decide (status = succeeded) then o else o <| op_error_code := failure_code |> in
  update operation_id finish ;;
  when (bool_decide (status = succeeded))
    (snapshot ← scalar (diagnostic_snapshot_of operation);
     safe ← require (snapshot ← snapshot; project_diagnostic_result operation snapshot.2)
       (rejected "safe diagnostic result is unavailable");
     create_operation_evidence operation_id "diagnostic" safe accepted_at ;;
     mret tt) ;;
  append_operation_terminal_audit operation_id (finish operation) (Some accepted_at).

Definition store_first_result (command_id : uuid) (command : Command)
    (delivery : option (uuid * CommandDelivery)) (collection : option (uuid * ContextCollection))
    (operation : option (uuid * EndpointOperation)) (session_id : uuid) (result_sequence : Z)
    (result : AgentResultV1) (payload_digest : string) : Tx unit :=
  let status := result_status result in
  '(accepted_result, accepted_at) ←
    match operation with
    | Some (_, o) => accept_operation_result command delivery o session_id result
    | None => mret (result, None)
    end;
  stored_id ← uuid4;
  insert stored_id {|
    res_command_id := command_id;
    res_delivery_id := fst <$> delivery;
    res_result_identifier := result_identifier command_id;
    res_status := status;
    res_completed_at := Some (result_completed_at accepted_result);
    res_result_sequence := Some result_sequence;
    res_result_payload_digest := Some payload_digest |} ;;
  flush ;;
  ingested ←
    (if startswith "context." (cmd_command_kind command) then
       ingested_id ← ingest_context_result stored_id accepted_result accepted_at;
       ingested ← get_row (R := ContextCollection) ingested_id;
       match operation, collection, ingested with
       | Some (operation_id, _), Some (collection_id, _), Some ingested =>
           raise_if (negb (ingested_as_expected status collection_id operation_id ingested))
             (rejected "operation context result is unavailable")
       | _, _, _ => mret tt
       end ;;
       mret ingested
     else mret None);
  update command_id (λ c : Command, c <| cmd_status := status |>) ;;
  match delivery with
  | Some (delivery_id, _) =>
      update delivery_id (λ d : CommandDelivery, d <| dlv_status := status |>)
  | None => mret tt
  end ;;
  match operation, accepted_at with
  | Some (operation_id, o), Some accepted_at =>
      finish_context_operation operation_id o status accepted_at
        (ingested ≫= λ i, col_failure_code i.2)
  | _, _ => mret tt
  end.

Definition operation_replay_matches (command_id : uuid) (command : Command)
    (delivery : option (uuid * CommandDelivery)) (delivery_session : option (uuid * DeviceSession))
    (collection : option (uuid * ContextCollection)) (operation : EndpointOperation)
    (stored_id : uuid) (stored : CommandResult) (device_instance_id : uuid)
    (result : AgentResultV1) (payload_digest : string) : bool :=
  match delivery, delivery_session with
  | Some (delivery_id, d), Some (_, s) =>
      bool_decide (sess_device_instance_id s = Some device_instance_id)
      && (res_command_id stored =? command_id)
      && bool_decide (res_delivery_id stored = Some delivery_id)
      && match res_result_sequence stored with Some n => 0 <=? n | None => false end
      && bool_decide (res_result_payload_digest stored = Some payload_digest)
      && bool_decide (res_status stored = result_status result)
      && bool_decide (cmd_status command = result_status result)
      && bool_decide (dlv_status d = result_status result)
      && bool_decide (op_status operation = result_status result)
      && is_some (op_completed_at operation)
      && bool_decide (_as_utc (res_completed_at stored) = _as_utc (op_completed_at operation))
      && match collection with
         | Some (_, c) => bool_decide (col_command_result_id c = Some stored_id)
         | None => false
         end
  | _, _ => false
  end.

Definition replay_result (device_id device_instance_id command_id : uuid) (command : Command)
    (delivery : option (uuid * CommandDelivery)) (collection : option (uuid * ContextCollection))
    (operation : option (uuid * EndpointOperation)) (stored_id : uuid) (stored : CommandResult)
    (result_sequence : Z) (result : AgentResultV1) (payload_digest : string) : Tx unit :=
  match operation with
  | None =>
      when (is_none (res_result_sequence stored))
        (update stored_id (λ r : CommandResult,
           r <| res_result_sequence := Some result_sequence |>))
  | Some (_, o) =>
      delivery_session ←
        match delivery with
        | Some (_, d) =>
            match dlv_device_session_id d with
            | Some sid => scalar (λ id s, (id =? sid) && (sess_device_id s =? device_id))
            | None => mret None
            end
        | None => mret None
        end;
      raise_if (negb (operation_replay_matches command_id command delivery delivery_session
                        collection o stored_id stored device_instance_id result payload_digest))
        (rejected "operation result replay conflicts with stored result") ;;
      if decide (result_status result = succeeded) then
        snapshot ← scalar (λ _ s,
          bool_decide (fst <$> collection = Some (snap_collection_id s)));
        raise_if
          (negb (bool_decide (col_status ∘ snd <$> collection = Some c_completed))
           || is_none (snapshot ← snapshot; project_diagnostic_result o snapshot.2))
          (rejected "operation result replay is unavailable")
      else
        raise_if (negb (bool_decide (col_status ∘ snd <$> collection = Some c_failed)))
          (rejected "operation failure replay is unavailable")
  end.

(** ** CommandService.record_result *)

(** [except ContextError: rollback, reject; except Exception: rollback, raise] *)
Definition result_transaction (body : Tx unit) : Tx unit :=
  try_except body (λ e, Some (
    rollback ;;
    raise (if is_context_error e then rejected "context result conflicts with command" else e))).

Definition record_result (device_id device_instance_id session_id : uuid) (result_sequence : Z)
    (result : AgentResultV1) : Tx ResultAck :=
  raise_if (result_sequence <? 0) (rejected "result sequence must be non-negative") ;;
  raise_if (negb (result_device_id result =? device_id)
            || negb (terminal (result_status result)))
    (rejected "terminal result does not match session") ;;
  let payload_digest := result_payload_digest result in
  in_session (result_transaction (
    gateway_session ← scalar (λ id s, open_session_of session_id device_id id s
      && bool_decide (sess_device_instance_id s = Some device_instance_id));
    instance ← scalar (λ id i, (id =? device_instance_id) && (inst_device_id i =? device_id));
    command ← scalar (λ id c, (id =? result_command_id result) && (cmd_device_id c =? device_id));
    raise_if (is_none gateway_session || is_none instance)
      (rejected "result ownership is unavailable") ;;
    command ← require command (rejected "result ownership is unavailable");
    let '(command_id, c) := command in
    delivery ← scalar (λ _ d, dlv_command_id d =? command_id);
    module_relation ← resolve_module_step_relation command_id c;
    match module_relation with
    | Some ((step_id, step), (operation_id, o)) =>
        _record_module_step_result command_id c delivery step_id step operation_id o
          device_instance_id session_id result_sequence result payload_digest ;;
        commit
    | None =>
        '(collection, operation) ← resolve_command_context_relation command_id c;
        stored ← scalar (λ _ r,
          bool_decide (res_result_identifier r = result_identifier command_id));
        match stored with
        | None =>
            store_first_result command_id c delivery collection operation session_id
              result_sequence result payload_digest
        | Some (stored_id, stored) =>
            replay_result device_id device_instance_id command_id c delivery collection operation
              stored_id stored result_sequence result payload_digest
        end ;;
        advance_result_sequence device_instance_id result_sequence ;;
        commit
    end)) ;;
  mret {| ra_command_id := result_command_id result; ra_result_sequence := result_sequence |}.
End commands.
