(* ===== verification/Demo.v ===== *)
(** * A run of the gateway

    A concrete instance of the wire contracts, a small fleet and the requests
    of one diagnostic operation, for the examples of the later files. *)

From S2P Require Import Prelude Store Session AuditLog Contracts Recipe Canonical.
From S2P Require Import Operations Context Evidence Commands.

(** Validators that accept what the requests below carry. *)
#[local] Instance demo_contracts : Contracts := {|
  capability_parameters := λ name,
    if bool_decide (name = "windows.disk_free") then Some [] else None;
  validate_capability_payload := λ _ payload, Some payload;
  validate_capability_result := λ _ item,
    Some {| mr_status := "succeeded"; mr_error_code := None; mr_dump := item |};
  parse_recipe := λ _, Some {|
    recipe_module_key := "demo.disk";
    recipe_supported_platforms := ["windows_amd64"];
    recipe_inputs := [];
    recipe_steps := [ {| rs_step_id := "first"; rs_capability := "windows.disk_free";
                         rs_parameters := [] |};
                      {| rs_step_id := "second"; rs_capability := "windows.disk_free";
                         rs_parameters := [] |} ];
    recipe_dump := JNull |};
  validate_context_result_item := λ item,
    Some {| env_profile := "health_v1"; env_collected_at := utc_datetime 0; env_dump := item |};
  parse_diagnostic := λ _, None;
  validate_diagnostic_result := λ item, Some item;
  sanitize_agent_public_text := λ text _ _, (text, false);
  dump_datetime := λ _, "2026-01-01T00:00:00Z";
  sha256_hexdigest := λ text, text;
  float_repr := λ _, "0.0";
  container_str := λ _, "" |}.

(** One device with one open session and one service client. *)
Definition demo_fleet : DB := empty_db
  <| devices := {[ 1 := {| dev_device_identifier := "pc-1"; dev_display_name := None;
                           dev_retired_at := None |} ]} |>
  <| device_instances := {[ 2 := {| inst_device_id := 1; inst_instance_identifier := "i-1";
                                    inst_agent_version := "1.0.0"; inst_launcher_version := None;
                                    inst_last_seen_at := None; inst_last_result_sequence := 4 |} ]} |>
  <| device_sessions := {[ 3 := {| sess_created_at := utc_datetime 0; sess_device_id := 1;
                                   sess_device_instance_id := Some 2;
                                   sess_session_identifier := "s-1";
                                   sess_expires_at := utc_datetime (hours 12);
                                   sess_closed_at := None; sess_last_seen_at := None;
                                   sess_source_address := None |} ]} |>
  <| service_clients := {[ 4 := {| cli_client_identifier := "svc"; cli_display_name := "Service";
                                   cli_disabled_at := None |} ]} |>.

Definition demo_start : World := {|
  committed := demo_fleet; db := demo_fleet; seed := 100; clock := λ n, Z.of_nat n; ticks := 0 |}.

(** The requests: a diagnostic operation is created, delivered, acknowledged
    and answered with a failure. *)
Definition demo_request : EndpointOperationCreateV1 :=
  {| request_capability := "context.diagnostic.collect"; request_reason := "slow disk" |}.

Definition demo_create (w : World) : World :=
  (request (create_operation_outcome demo_request 4 1 "key-0001" None) w).2.
Definition demo_deliver (w : World) : World := (deliver_next 1 3 None None w).2.

(** The ids that the operation and its command get. *)
Definition demo_operation : uuid := 100.
Definition demo_command : uuid := 103.

Definition demo_ack (status : command_status) (w : World) : World :=
  (record_ack 1 3 {| ack_command_id := demo_command; ack_device_id := 1; ack_status := status;
                     ack_acknowledged_at := utc_datetime 5 |} w).2.

Definition demo_answer (status : command_status) : AgentResultV1 := {|
  result_command_id := demo_command; result_device_id := 1; result_status := status;
  result_items := []; result_message := None; result_completed_at := utc_datetime 6 |}.

Definition demo_finish (w : World) : World := (record_result 1 2 3 7 (demo_answer failed) w).2.

Definition demo_delivered : World := demo_deliver (demo_create demo_start).
Definition demo_ended : World := demo_finish (demo_ack running demo_delivered).

(** A module operation of two steps, the first of which has succeeded. *)
Definition demo_module_operation : EndpointOperation := {|
  op_created_at := utc_datetime 0; op_requested_by_service_client_id := 4; op_device_id := 1;
  op_idempotency_key := "module-key"; op_capability := "endpoint.module.recipe";
  op_parameters := JObj []; op_correlation := None; op_status := running;
  op_deadline_at := utc_datetime (minutes 15); op_completed_at := None; op_error_code := None;
  op_context_collection_id := None; op_command_id := None; op_module_version_id := Some 60;
  op_module_inputs := Some []; op_expected_step_count := Some 2 |}.

Definition demo_module_step (sequence : Z) (status : command_status) (command : option uuid)
    (completed : option datetime) : ModuleOperationStep := {|
  step_operation_id := 50; step_sequence := sequence;
  step_recipe_step_key := if sequence =? 0 then "first" else "second";
  step_capability := "windows.disk_free"; step_status := status; step_command_id := command;
  step_safe_result_json := None; step_error_code := None; step_started_at := None;
  step_completed_at := completed |}.

Definition demo_module_fleet : DB := demo_fleet
  <| module_versions := {[ 60 := {| mv_created_at := utc_datetime 0; mv_module_definition_id := 61; mv_version := "1.0.0";
                                   mv_state := "published"; mv_recipe := JNull |} ]} |>
  <| endpoint_operations := {[ 50 := demo_module_operation ]} |>
  <| endpoint_operation_steps :=
       {[ 51 := demo_module_step 0 succeeded (Some 70) (Some (utc_datetime 1));
          52 := demo_module_step 1 queued None None ]} |>.

Definition demo_module_start : World := {|
  committed := demo_module_fleet; db := demo_module_fleet; seed := 100;
  clock := λ n, Z.of_nat n; ticks := 0 |}.

(** The second step delivered, and its successful answer. *)
Definition demo_module_delivered : World := demo_deliver demo_module_start.

Definition demo_module_answer : AgentResultV1 := {|
  result_command_id := 100; result_device_id := 1; result_status := succeeded;
  result_items := [JNull]; result_message := None; result_completed_at := utc_datetime 2 |}.
