(* ===== verification/Presence.v ===== *)
(** * Gateway presence (endpoint_server/gateway/presence_service.py)

    The durable sessions of connected agents: opening one closes the others of
    its device, heartbeats extend it, and a closed one stays closed. *)

From S2P Require Import Prelude Store Session AuditLog.

Definition _PRESENCE_LIFETIME : timedelta := seconds 90.

Record GatewayPresence := { presence_session_id : uuid; presence_device_instance_id : uuid }.

(** The fields the service reads of AgentHelloV1 and AgentHeartbeatV1. *)
Record AgentHelloV1 := {
  hello_device_id : uuid;
  hello_agent_instance_id : uuid;
  hello_agent_version : string;
  hello_launcher_version : string
}.
Record AgentHeartbeatV1 := {
  heartbeat_device_id : uuid;
  heartbeat_agent_version : string
}.

Section presence.
(** [str(ipaddress.ip_address(text))]; [None] is its ValueError. *)
Context (canonical_address : string → option string).

Definition _utc (value : option datetime) : Tx datetime :=
  timestamp ← now_or value;
  raise_if (negb (is_aware timestamp))
    (ValueError "presence timestamp must be timezone-aware") ;;
  mret (as_utc timestamp).

Definition canonical_source (source_address : string) : Tx string :=
  require (canonical_address source_address)
    (PresenceRejected "observed source address is invalid").

Definition usable_device (device_id : uuid) (id : uuid) (d : Device) : bool :=
  (id =? device_id) && is_none (dev_retired_at d).

(** A session seen at [now]; [created_at] is the database clock's. *)
Definition new_session (created_at : datetime) (device_id : uuid) (instance_id : option uuid)
    (identifier source : string) (now : datetime) : DeviceSession := {|
  sess_created_at := created_at;
  sess_device_id := device_id;
  sess_device_instance_id := instance_id;
  sess_session_identifier := identifier;
  sess_expires_at := dt_add now _PRESENCE_LIFETIME;
  sess_closed_at := None;
  sess_last_seen_at := Some now;
  sess_source_address := Some source |}.

Definition seen (now : datetime) (s : DeviceSession) : DeviceSession :=
  s <| sess_last_seen_at := Some now |> <| sess_expires_at := dt_add now _PRESENCE_LIFETIME |>.

Definition record_http_pull_presence (device_id : uuid) (source_address : string)
    (observed_at : option datetime) : Tx unit :=
  source ← canonical_source source_address;
  now ← _utc observed_at;
  device ← scalar (usable_device device_id);
  raise_if (is_none device) (PresenceRejected "gateway device is unavailable") ;;
  let identifier := "http-pull-" +:+ uuid_hex device_id in
  pull_session ← scalar (λ _ s, (sess_device_id s =? device_id)
                                && bool_decide (sess_session_identifier s = identifier));
  match pull_session with
  | None =>
      id ← uuid4;
      created_at ← utcnow;
      insert id (new_session created_at device_id None identifier source now)
  | Some (id, _) =>
      update id (λ s : DeviceSession,
        seen now s <| sess_closed_at := None |> <| sess_source_address := Some source |>)
  end.

Definition _audit (device_id session_id : uuid) (action : string)
    (details : list (pykey * pyval)) (occurred_at : datetime) : Tx unit :=
  append_audit_event "device" (Some (uuid_str device_id)) action "device_session"
    (Some (uuid_str session_id)) ("gateway-" +:+ uuid_hex session_id) details
    (Some occurred_at) ;;
  mret tt.

(** The instance a hello comes from, created when it is new. *)
Definition greet_instance (device_id : uuid) (hello : AgentHelloV1) (now : datetime) : Tx uuid :=
  let identifier := uuid_str (hello_agent_instance_id hello) in
  instance ← scalar (λ _ i, (inst_device_id i =? device_id)
                            && bool_decide (inst_instance_identifier i = identifier));
  match instance with
  | None =>
      id ← uuid4;
      insert id {|
        inst_device_id := device_id;
        inst_instance_identifier := identifier;
        inst_agent_version := hello_agent_version hello;
        inst_launcher_version := Some (hello_launcher_version hello);
        inst_last_seen_at := Some now;
        inst_last_result_sequence := 0 |} ;;
      flush ;;
      mret id
  | Some (id, _) =>
      update id (λ i : DeviceInstance,
        i <| inst_agent_version := hello_agent_version hello |>
          <| inst_launcher_version := Some (hello_launcher_version hello) |>
          <| inst_last_seen_at := Some now |>) ;;
      mret id
  end.

Definition open_session_row (device_id : uuid) (_ : uuid) (s : DeviceSession) : bool :=
  (sess_device_id s =? device_id) && is_none (sess_closed_at s).

Definition session_order (a b : uuid * DeviceSession) : bool :=
  lex_leb (instant (sess_created_at a.2), a.1) (instant (sess_created_at b.2), b.1).

Definition close_session_row (now : datetime) (s : DeviceSession) : DeviceSession :=
  s <| sess_closed_at := Some now |>.

(** Close one session that a new one replaces. *)
Definition replace_session (device_id : uuid) (now : datetime) (active : uuid * DeviceSession)
    : Tx unit :=
  update active.1 (close_session_row now) ;;
  _audit device_id active.1 "gateway.session_replaced"
    [(KStr "replacement", PStr "new_authenticated_session")] now.

Definition open_session (device_id : uuid) (hello : AgentHelloV1) (source_address : string)
    (observed_at : option datetime) : Tx GatewayPresence :=
  raise_if (negb (hello_device_id hello =? device_id))
    (PresenceRejected "agent hello device does not match credential") ;;
  source ← canonical_source source_address;
  now ← _utc observed_at;
  in_session (rollback_on_error (
    device ← scalar (usable_device device_id);
    raise_if (is_none device) (PresenceRejected "gateway device is unavailable") ;;
    instance_id ← greet_instance device_id hello now;
    active_sessions ← select (open_session_row device_id);
    for_each (order_by session_order active_sessions) (replace_session device_id now) ;;
    session_id ← uuid4;
    suffix ← uuid4;
    created_at ← utcnow;
    insert session_id
      (new_session created_at device_id (Some instance_id) ("gateway-" +:+ uuid_hex suffix)
         source now) ;;
    _audit device_id session_id "gateway.session_connected"
      [(KStr "source_address", PStr source)] now ;;
    commit ;;
    mret {| presence_session_id := session_id; presence_device_instance_id := instance_id |})).

Definition record_heartbeat (device_id session_id : uuid) (heartbeat : AgentHeartbeatV1)
    (observed_at : option datetime) : Tx unit :=
  raise_if (negb (heartbeat_device_id heartbeat =? device_id))
    (PresenceRejected "heartbeat device does not match session") ;;
  now ← _utc observed_at;
  in_session (rollback_on_error (
    gateway_session ← scalar (λ id s, (id =? session_id) && open_session_row device_id id s);
    gateway_session ← require gateway_session (PresenceRejected "gateway session is not active");
    instance ← scalar (λ id i,
      bool_decide (sess_device_instance_id gateway_session.2 = Some id)
      && (inst_device_id i =? device_id));
    instance ← require instance (PresenceRejected "gateway device instance is unavailable");
    update gateway_session.1 (seen now) ;;
    update instance.1 (λ i : DeviceInstance,
      i <| inst_last_seen_at := Some now |>
        <| inst_agent_version := heartbeat_agent_version heartbeat |>) ;;
    commit)).

Definition close_session (device_id session_id : uuid) (reason : string)
    (observed_at : option datetime) : Tx unit :=
  now ← _utc observed_at;
  in_session (rollback_on_error (
    gateway_session ← scalar (λ id s, (id =? session_id) && (sess_device_id s =? device_id));
    match gateway_session with
    | None => rollback
    | Some (id, s) =>
        if is_some (sess_closed_at s) then rollback
        else
          update id (close_session_row now) ;;
          _audit device_id session_id "gateway.session_closed"
            [(KStr "reason", PStr (String.substring 0 64 reason))] now ;;
          commit
    end)).
End presence.
