(* ===== verification/Finality.v ===== *)
(** * Finished work stays finished

    The lifecycle of operations, module steps and stored results over every
    interleaving of requests to the gateway (its presence service included) and
    the operations service: what has ended is never changed again, but for the
    payload of a step that the cleanup scrubs and a missing sequence number of a
    result that is filled in. *)

From S2P Require Import Prelude Store Session AuditLog Frames Contracts Recipe Canonical.
From S2P Require Import Operations Context Evidence Commands Presence Demo.

(** ** What must last *)

(** The tables whose rows have a lifecycle. *)
Definition work_tables (w : World) :=
  (endpoint_operations (db w), endpoint_operation_steps (db w), command_results (db w),
   device_instances (db w), committed w).

(** A stored result keeps all its columns; only a missing sequence number is
    filled in. *)
Definition result_kept (r r' : CommandResult) : Prop :=
  r' = r ∨ (res_result_sequence r = None
            ∧ ∃ n, r' = r <| res_result_sequence := Some n |>).

(** A step keeps all its columns; only the cleanup may scrub its payload. *)
Definition step_kept (s s' : ModuleOperationStep) : Prop := s' = s ∨ s' = scrub_step s.

Lemma step_kept_trans s1 s2 s3 : step_kept s1 s2 → step_kept s2 s3 → step_kept s1 s3.
Proof. intros [->| ->] [->| ->]; [by left|by right|by right|by right]. Qed.

Lemma result_kept_trans r1 r2 r3 : result_kept r1 r2 → result_kept r2 r3 → result_kept r1 r3.
Proof.
  intros [->|(Hn & n & ->)]; [done|]. intros [->|(Hn' & m & ->)]; [|done]. right. eauto.
Qed.

(** What lasts of an operation, a step, a stored result and an instance. *)
Definition op_lasts (o o' : EndpointOperation) : Prop := terminal (op_status o) = true → o' = o.
Definition step_lasts (s s' : ModuleOperationStep) : Prop :=
  terminal (step_status s) = true → step_kept s s'.
Definition sequence_lasts (i i' : DeviceInstance) : Prop :=
  inst_last_result_sequence i <= inst_last_result_sequence i'.

Record lasting (d d' : DB) : Prop := {
  last_operations : rows_kept op_lasts (endpoint_operations d) (endpoint_operations d');
  last_steps : rows_kept step_lasts (endpoint_operation_steps d) (endpoint_operation_steps d');
  last_results : rows_kept result_kept (command_results d) (command_results d');
  last_sequences : rows_kept sequence_lasts (device_instances d) (device_instances d')
}.

Lemma op_lasts_refl o : op_lasts o o. Proof. done. Qed.
Lemma step_lasts_refl s : step_lasts s s. Proof. intros _. by left. Qed.
Lemma result_kept_refl r : result_kept r r. Proof. by left. Qed.
Lemma sequence_lasts_refl i : sequence_lasts i i. Proof. unfold sequence_lasts. lia. Qed.
#[export] Hint Resolve op_lasts_refl step_lasts_refl result_kept_refl sequence_lasts_refl
  rows_kept_refl rows_kept_alter rows_kept_insert rows_kept_subseteq : lasting.

#[export] Instance lasting_preorder : PreOrder lasting.
Proof.
  split.
  - intros d. split; auto with lasting.
  - intros d1 d2 d3 [A B C D] [A' B' C' D']. split.
    + eapply rows_kept_trans; [|exact A|exact A']. intros x y z Hxy Hyz Hx.
      rewrite Hyz; rewrite Hxy by done; done.
    + eapply rows_kept_trans; [|exact B|exact B']. intros x y z Hxy Hyz Hx.
      eapply step_kept_trans; [by apply Hxy|]. apply Hyz. by destruct (Hxy Hx) as [->| ->].
    + eapply rows_kept_trans; [exact result_kept_trans|exact C|exact C'].
    + eapply rows_kept_trans; [|exact D|exact D']. unfold sequence_lasts. lia.
Qed.

Definition ids_fresh (w : World) : Prop :=
  fresh (seed w) (endpoint_operations (db w)) ∧ fresh (seed w) (command_results (db w))
  ∧ fresh (seed w) (device_instances (db w)).

(** What every part of the service guarantees. *)
Definition durable (w w' : World) : Prop :=
  ids_fresh w → ids_fresh w' ∧ lasting (db w) (db w').

#[export] Instance durable_preorder : PreOrder durable.
Proof.
  split.
  - intros w Hw. split; [done|reflexivity].
  - intros w1 w2 w3 H12 H23 H1. destruct (H12 H1) as [H2 L12]. destruct (H23 H2) as [H3 L23].
    split; [done|]. by etrans.
Qed.

(** Parts that leave the tables alone. *)
Definition calm (w w' : World) : Prop := same work_tables w w' ∧ seed_le w w'.

#[export] Instance calm_preorder : PreOrder calm.
Proof. split; [by split; reflexivity|]. intros w1 w2 w3 [? ?] [? ?]. split; by etrans. Qed.

Ltac calm := apply pres_and; frame.

Lemma calm_durable w w' : calm w w' → durable w w'.
Proof.
  intros [[= Eo Es Er Ei _] Hs] (Ho & Hr & Hi). unfold seed_le in Hs. split.
  - unfold ids_fresh. rewrite Eo, Er, Ei. eauto 6 using fresh_le.
  - split; rewrite ?Eo, ?Es, ?Er, ?Ei; auto with lasting.
Qed.

Lemma durable_of_calm {A} (m : Tx A) : pres calm m → pres durable m.
Proof. apply pres_mono. intros w w'. apply calm_durable. Qed.

(** ** Changes that are allowed *)

(** The operation or step [id], if it exists, has not ended. *)
Definition op_open (id : uuid) (w : World) : Prop :=
  ∀ o, endpoint_operations (db w) !! id = Some o → terminal (op_status o) = false.
Definition step_open (id : uuid) (w : World) : Prop :=
  ∀ s, endpoint_operation_steps (db w) !! id = Some s → terminal (step_status s) = false.

Lemma op_open_calm id w w' : calm w w' → op_open id w → op_open id w'.
Proof. intros [[= Eo _ _ _ _] _] Ho. unfold op_open. by rewrite Eo. Qed.

Lemma step_open_calm id w w' : calm w w' → step_open id w → step_open id w'.
Proof. intros [[= _ Es _ _ _] _] Ho. unfold step_open. by rewrite Es. Qed.

Lemma op_open_row id o w :
  endpoint_operations (db w) !! id = Some o → terminal (op_status o) = false → op_open id w.
Proof. intros Hid Ho o' Hid'. congruence. Qed.

Lemma step_open_row id s w :
  endpoint_operation_steps (db w) !! id = Some s → terminal (step_status s) = false →
  step_open id w.
Proof. intros Hid Hs s' Hid'. congruence. Qed.

Section changes.
Implicit Types (w : World).

Lemma durable_update_op id (f : EndpointOperation → EndpointOperation) w :
  op_open id w → durable w (with_table (alter f id) w).
Proof.
  intros Hopen (Ho & Hr & Hi). unfold with_table, ids_fresh; simpl.
  split; [split_and!|split]; simpl; auto with lasting.
  - intros j v (v' & _ & Hj)%lookup_alter_cases. eauto.
  - apply rows_kept_alter; [auto with lasting|]. intros o Hid Ht. specialize (Hopen _ Hid). congruence.
Qed.

Lemma durable_update_step id (f : ModuleOperationStep → ModuleOperationStep) w :
  step_open id w → durable w (with_table (alter f id) w).
Proof.
  intros Hopen (Ho & Hr & Hi). unfold with_table, ids_fresh; simpl.
  split; [split_and!|split]; simpl; auto with lasting.
  apply rows_kept_alter; [auto with lasting|]. intros s Hid Ht. specialize (Hopen _ Hid). congruence.
Qed.

Lemma durable_scrub_step id w : durable w (with_table (alter scrub_step id) w).
Proof.
  intros (Ho & Hr & Hi). unfold with_table, ids_fresh; simpl.
  split; [split_and!|split]; simpl; auto with lasting.
  apply rows_kept_alter; [auto with lasting|]. intros s _ _. by right.
Qed.

(** A new row, under an id taken since [w]. *)
Lemma durable_insert_op id (o : EndpointOperation) w w1 :
  calm w w1 → seed w <= id < seed w1 → durable w (with_table <[id := o]> w1).
Proof.
  intros [[= Eo Es Er Ei _] _] Hid (Ho & Hr & Hi). unfold with_table, ids_fresh; simpl.
  rewrite Eo, Er, Ei. split; [split_and!|split]; simpl; rewrite ?Eo, ?Es, ?Er, ?Ei; auto with lasting.
  - apply fresh_insert; [eapply fresh_le; [done|lia]|lia].
  - eapply fresh_le; [done|lia].
  - eapply fresh_le; [done|lia].
  - apply rows_kept_insert; [auto with lasting|]. apply fresh_lookup. eapply fresh_le; [exact Ho|lia].
Qed.

Lemma durable_insert_result id (r : CommandResult) w w1 :
  calm w w1 → seed w <= id < seed w1 → durable w (with_table <[id := r]> w1).
Proof.
  intros [[= Eo Es Er Ei _] _] Hid (Ho & Hr & Hi). unfold with_table, ids_fresh; simpl.
  rewrite Eo, Er, Ei. split; [split_and!|split]; simpl; rewrite ?Eo, ?Es, ?Er, ?Ei; auto with lasting.
  - eapply fresh_le; [done|lia].
  - apply fresh_insert; [eapply fresh_le; [done|lia]|lia].
  - eapply fresh_le; [done|lia].
  - apply rows_kept_insert; [auto with lasting|]. apply fresh_lookup. eapply fresh_le; [exact Hr|lia].
Qed.

Lemma durable_fill_sequence id (r : CommandResult) n w :
  command_results (db w) !! id = Some r → res_result_sequence r = None →
  durable w (with_table (alter (λ r : CommandResult, r <| res_result_sequence := Some n |>) id) w).
Proof.
  intros Hid Hn (Ho & Hr & Hi). unfold with_table, ids_fresh; simpl.
  split; [split_and!|split]; simpl; auto with lasting.
  - intros j v (v' & _ & Hj)%lookup_alter_cases. eauto.
  - apply rows_kept_alter; [auto with lasting|]. intros r' Hr'. right. split; [congruence|eauto].
Qed.

(** An instance whose sequence does not go back. *)
Lemma durable_update_instance id (f : DeviceInstance → DeviceInstance) :
  (∀ i, sequence_lasts i (f i)) → pres durable (update id f).
Proof.
  intros Hf w (Ho & Hr & Hi). unfold update, with_table, ids_fresh; simpl.
  split; [split_and!|split]; simpl; auto with lasting.
  intros j v (v' & _ & Hj)%lookup_alter_cases. eauto.
Qed.

Lemma durable_insert_instance id (i : DeviceInstance) w w1 :
  calm w w1 → seed w <= id < seed w1 → durable w (with_table <[id := i]> w1).
Proof.
  intros [[= Eo Es Er Ei _] _] Hid (Ho & Hr & Hi). unfold with_table, ids_fresh; simpl.
  rewrite Eo, Er, Ei. split; [split_and!|split]; simpl; rewrite ?Eo, ?Es, ?Er; auto with lasting.
  - eapply fresh_le; [done|lia].
  - eapply fresh_le; [done|lia].
  - apply fresh_insert; [eapply fresh_le; [done|lia]|lia].
  - apply rows_kept_insert; [auto with lasting|]. apply fresh_lookup. eapply fresh_le; [exact Hi|lia].
Qed.

Lemma advance_result_sequence_durable id n : pres durable (advance_result_sequence id n).
Proof. apply durable_update_instance. intros i. unfold sequence_lasts; simpl. lia. Qed.
End changes.

#[export] Hint Resolve advance_result_sequence_durable : frame.

Lemma scrub_step_durable id : pres durable (update id scrub_step).
Proof. intros w. apply durable_scrub_step. Qed.
#[export] Hint Resolve scrub_step_durable : frame.

(** Go on after a part that leaves the tables alone. *)
Lemma wp_calm_bind {A B} (m : Tx A) (k : A → Tx B) w0 w :
  calm w0 w → pres calm m → (∀ a w', calm w0 w' → wp (k a) (λ _, durable w0) w') →
  wp (m ≫= k) (λ _, durable w0) w.
Proof.
  intros H0 Hm Hk. apply (wp_bind_pres calm); [done| |].
  - intros a w' Hq. apply Hk. by etrans.
  - intros e w' Hq. apply calm_durable. by etrans.
Qed.

Ltac calm_bind := eapply wp_calm_bind; [eassumption|calm|].

(** The rest of a function that leaves the tables alone. *)
Ltac rest_calm := apply wp_of_pres, durable_of_calm; calm.
(** Go on after a part that leaves them alone. *)
Ltac skip_calm := apply (wp_bind_pres calm); [calm| |intros ? ? ?; by apply calm_durable].

(** ** The operations service *)

Lemma step_open_update_ne id j (f : ModuleOperationStep → ModuleOperationStep) w :
  j ≠ id → step_open j w → step_open j (with_table (alter f id) w).
Proof. intros Hne Hj s. unfold with_table; simpl. rewrite lookup_alter_ne by done. apply Hj. Qed.

(** The steps a query found, in a loop that changes one after the other. *)
Definition steps_current (steps : list (uuid * ModuleOperationStep)) (w : World) : Prop :=
  ∀ id s, (id, s) ∈ steps → terminal (step_status s) = false → step_open id w.

Lemma expire_steps_durable device_id at_ steps w :
  NoDup steps.*1 → steps_current steps w →
  wp (for_each steps (λ step,
        if terminal (step_status step.2) then mret tt
        else
          update step.1 (expire_step at_) ;;
          match step_command_id step.2 with
          | None => mret tt
          | Some command_id => expire_command command_id device_id
          end)) (λ _, durable w) w.
Proof.
  revert w. induction steps as [|[id s] steps IH]; intros w Hnd Hcur; simpl; [by wp_step|].
  apply NoDup_cons in Hnd as [Hid Hnd].
  assert (steps_current steps w) as Hrest by (intros j t Hj; apply Hcur; by right).
  destruct (terminal (step_status s)) eqn:Ht; [wp_step; by apply IH|].
  apply wp_bind. wp_step.
  assert (durable w (with_table (alter (expire_step at_) id) w)) as H1
    by (apply durable_update_step, (Hcur id s); [left|done]).
  eapply wp_pres; [instantiate (1 := calm); calm|]. intros [[]|e] w' Hc; wp_k;
    (apply calm_durable in Hc as Hd).
  - apply wp_trans; [apply _|by etrans|]. apply IH; [done|].
    intros j t Hj Htt. eapply step_open_calm; [done|]. apply step_open_update_ne; [|by eapply Hrest].
    intros ->. apply Hid. apply list_elem_of_fmap. by exists (id, t).
  - by etrans.
Qed.

Lemma expire_module_operation_durable id o coll at_ w :
  op_open id w → wp (expire_module_operation id o coll at_) (λ _, durable w) w.
Proof.
  intros Ho. unfold expire_module_operation. do 4 wp_step.
  apply wp_trans; [apply _|by apply durable_update_op|].
  apply wp_bind_then; [apply _| |intros; apply durable_of_calm; calm].
  apply expire_steps_durable; [done|]. intros j s Hj Hs. eapply step_open_row; [|done]. by apply H1.
Qed.

Lemma expire_collection_operation_durable id o coll at_ w :
  op_open id w → wp (expire_collection_operation id o coll at_) (λ _, durable w) w.
Proof.
  intros Ho. unfold expire_collection_operation. wp_step.
  apply wp_trans; [apply _|by apply durable_update_op|]. rest_calm.
Qed.

Lemma expire_operation_if_due_durable id o now coll w :
  (terminal (op_status o) = false → op_open id w) →
  wp (expire_operation_if_due id o now coll) (λ _, durable w) w.
Proof.
  intros Ho. unfold expire_operation_if_due. skip_calm. intros at_ w1 Hq.
  destruct (in_set _ _) eqn:Ha; simpl; [|wp_step; by apply calm_durable].
  destruct (dt_ltb _ _); simpl; [wp_step; by apply calm_durable|].
  assert (op_open id w1) as Ho1
    by (apply (op_open_calm _ w); [done|]; apply Ho; by destruct (op_status o)).
  apply wp_trans; [apply _|by apply calm_durable|].
  destruct (decide _);
    [by apply expire_module_operation_durable|by apply expire_collection_operation_durable].
Qed.

(** Expiring one operation leaves the others as they are. *)
Lemma others_update (id : uuid) (f : EndpointOperation → EndpointOperation) :
  keeps (λ w, delete id (endpoint_operations (db w))) (update id f).
Proof. intros w. unfold same, update, with_table; simpl. apply delete_alter_eq. Qed.
#[export] Hint Resolve others_update : frame.

Lemma expire_operation_if_due_others id o now coll :
  keeps (λ w, delete id (endpoint_operations (db w))) (expire_operation_if_due id o now coll).
Proof. frame. Qed.

Lemma op_open_others id j w w' :
  delete id (endpoint_operations (db w')) = delete id (endpoint_operations (db w)) →
  j ≠ id → op_open j w → op_open j w'.
Proof.
  intros E Hne Hj o Ho. apply (Hj o).
  rewrite <- (lookup_delete_ne (endpoint_operations (db w)) id j) by done.
  rewrite <- E. by rewrite lookup_delete_ne.
Qed.

Definition operations_current (ops : list (uuid * EndpointOperation)) (w : World) : Prop :=
  ∀ id o, (id, o) ∈ ops → terminal (op_status o) = false → op_open id w.

Lemma expire_loop_durable at_ ops w :
  NoDup ops.*1 → operations_current ops w →
  wp (for_each ops (λ operation : uuid * EndpointOperation,
        expire_operation_if_due operation.1 operation.2 (Some at_) None ;; mret tt))
    (λ _, durable w) w.
Proof.
  revert w. induction ops as [|[id o] ops IH]; intros w Hnd Hcur; simpl; [by wp_step|].
  apply NoDup_cons in Hnd as [Hid Hnd].
  assert (wp (expire_operation_if_due id o (Some at_) None) (λ _ w', durable w w' ∧
    delete id (endpoint_operations (db w')) = delete id (endpoint_operations (db w))) w) as Hb.
  { pose proof (expire_operation_if_due_durable id o (Some at_) None w) as Hd.
    pose proof (expire_operation_if_due_others id o (Some at_) None w) as Hk.
    rewrite wp_unfold in *. split; [|exact Hk]. apply Hd. apply Hcur. left. }
  apply wp_bind, wp_bind. eapply wp_mono; [exact Hb|]. intros [b|e] w1 [H1 E1]; wp_k; [|done].
  wp_step. apply wp_trans; [apply _|done|]. apply IH; [done|].
  intros j t Hj Ht. eapply op_open_others; [exact E1| |eapply Hcur; [by right|done]].
  intros ->. apply Hid. apply list_elem_of_fmap. by exists (id, t).
Qed.

Lemma NoDup_fst_take {R} n (l : list (uuid * R)) : NoDup l.*1 → NoDup (take n l).*1.
Proof. intros Hl. rewrite fmap_take. eapply sublist_NoDup; [done|apply sublist_take]. Qed.

Lemma NoDup_fst_order_by {R} leb (l : list (uuid * R)) : NoDup l.*1 → NoDup (order_by leb l).*1.
Proof. by rewrite order_by_Permutation. Qed.

Lemma expire_operations_durable now limit : pres durable (expire_operations now limit).
Proof.
  apply pres_of_wp. intros w. unfold expire_operations. wp_step. skip_calm. intros at_ w1 Hq.
  apply wp_trans; [apply _|by apply calm_durable|]. wp_open. do 2 wp_step.
  apply wp_bind_then; [apply _| |intros; apply durable_of_calm; calm].
  apply expire_loop_durable.
  - by apply NoDup_fst_take, NoDup_fst_order_by.
  - intros id o Hin Ho. eapply op_open_row; [|exact Ho]. apply H1.
    eapply elem_of_order_by, subseteq_take, Hin.
Qed.

Lemma calm_refl_db w w1 :
  db w1 = db w → committed w1 = committed w → seed w <= seed w1 → calm w w1.
Proof. intros E Ec Hs. split; [|done]. unfold same, work_tables. by rewrite E, Ec. Qed.

Lemma create_operation_durable request client device key now :
  pres durable (create_operation_outcome request client device key now).
Proof.
  apply pres_of_wp. intros w. unfold create_operation_outcome. skip_calm. intros key' w1 Hq1.
  apply wp_trans; [apply _|by apply calm_durable|]. clear w Hq1. rename w1 into w.
  destruct (_normalized_request request) as [capability parameters].
  skip_calm. intros profile w1 Hq1.
  apply (wp_bind_pres calm); [calm| |intros ? ? ?; apply calm_durable; by etrans].
  intros at_ w2 Hq2. assert (calm w w2) as Hq by by etrans.
  apply wp_trans; [apply _|by apply calm_durable|]. clear. 
  do 2 wp_step. wp_step; [rest_calm|]. do 4 wp_step. wp_step.
  apply wp_trans; [apply _|apply durable_insert_op with (w := w2); [|simpl; lia]|rest_calm].
  apply calm_refl_db; simpl; [done|done|lia].
Qed.

Lemma cancel_queued_operation_durable id o at_ kind ident w :
  endpoint_operations (db w) !! id = Some o →
  wp (_cancel_queued_operation id o at_ kind ident) (λ _, durable w) w.
Proof.
  intros Ho. unfold _cancel_queued_operation. destruct (decide _); [by wp_step|].
  do 2 wp_step; [|by wp_step]. do 3 wp_step. 
  apply wp_trans; [apply _|apply durable_update_op|rest_calm].
  eapply op_open_row; [exact Ho|]. propify. by match goal with E : op_status o = _ |- _ => rewrite E end.
Qed.

Lemma cancel_for_service_durable id client now :
  pres durable (cancel_operation_for_service id client now).
Proof.
  apply pres_of_wp. intros w. unfold cancel_operation_for_service. skip_calm. intros at_ w1 Hq1.
  apply wp_trans; [apply _|by apply calm_durable|]. wp_open.
  wp_step; [|by wp_step]. do 3 wp_step. simpl. by apply cancel_queued_operation_durable.
Qed.

Lemma cancel_for_admin_durable id admin now :
  pres durable (cancel_operation_for_admin id admin now).
Proof.
  apply pres_of_wp. intros w. unfold cancel_operation_for_admin. do 3 wp_step.
  skip_calm. intros at_ w1 Hq1.
  apply wp_trans; [apply _|by apply calm_durable|]. apply cancel_queued_operation_durable.
  destruct Hq1 as [[= Eo _ _ _ _] _]. by rewrite Eo.
Qed.

(** ** The gateway *)

Section gateway.
Context `{Contracts}.

Lemma op_open_update id (f : EndpointOperation → EndpointOperation) w :
  (∀ o, terminal (op_status (f o)) = false) → op_open id (with_table (alter f id) w).
Proof.
  intros Hf o. unfold with_table; simpl. rewrite lookup_alter_eq.
  destruct (_ !! id); simpl; [intros [= <-]; apply Hf|done].
Qed.

Lemma materialize_step_durable device_id op_id o step_id s now w :
  op_open op_id w → step_open step_id w →
  wp (materialize_step device_id op_id o step_id s now)
    (λ r w', durable w w' ∧ match r with Ok _ => op_open op_id w' | Exn _ => True end) w.
Proof.
  intros Ho Hs. unfold materialize_step. do 2 wp_step. set (w1 := with_table <[seed w := _]> _).
  assert (calm w w1) as H1. { split; [done|unfold seed_le; simpl; lia]. }
  wp_step; [|by split; [apply calm_durable|]]. do 2 wp_step.
  match goal with |- wp _ _ ?x => assert (durable w x ∧ op_open op_id x) as [Hd Hop] end.
  { split; [|by apply op_open_update].
    etrans; [etrans; [by apply calm_durable|by apply durable_update_step, (step_open_calm _ w)]|].
    apply durable_update_op. intros o'. unfold with_table; simpl. apply Ho. }
  apply (wp_pres calm); [calm|]. intros r w2 Hc.
  split; [etrans; [done|by apply calm_durable]|]. destruct r; [|done]. by eapply op_open_calm.
Qed.

Lemma step_to_deliver_durable device_id op_id o steps now caps w :
  op_open op_id w → steps_current steps w →
  wp (step_to_deliver device_id op_id o steps now caps) (λ r w', durable w w' ∧
    match r with
    | Ok None => w' = w
    | Ok (Some (s, _)) => (w' = w ∨ allowed caps (step_capability s.2) = true) ∧ op_open op_id w'
    | Exn _ => True
    end) w.
Proof.
  intros Ho Hs. unfold step_to_deliver.
  destruct (List.filter _ steps) as [|a [|b l]] eqn:Ef; [|destruct (negb _)|by wp_step].
  - destruct (List.filter (λ s, bool_decide _) steps) as [|[sid s] l] eqn:Eq; [by wp_step|].
    destruct (existsb _ _); [by wp_step|]. destruct (allowed _ _) eqn:Ha; simpl; [|by wp_step].
    apply wp_bind. eapply wp_mono; [apply materialize_step_durable; [done|]|].
    + assert ((sid, s) ∈ (sid, s) :: l) as Hin by left. rewrite <- Eq, elem_of_filter_bool in Hin.
      destruct Hin as [Hin Hq]. apply (Hs _ _ Hin). propify. simpl in Hq. by rewrite Hq.
    + intros [c|e] w1 [H1 H2]; wp_k; [|done]. wp_step. split; [done|]. split; [by right|done].
  - by wp_step.
  - apply (wp_pres unmoved); [frame|]. intros [[[s' ?]|]|e] w' ->; (split; [done|]); [by split; [left|]|done..].
Qed.

(** A module operation that is skipped is left as it was. *)
Lemma module_operation_command_durable device_id caps platform now op_id o w :
  op_open op_id w →
  wp (module_operation_command device_id caps platform now op_id o) (λ r w', durable w w' ∧
    match r with Ok None => w' = w | _ => True end) w.
Proof.
  intros Ho. unfold module_operation_command.
  destruct (op_module_version_id o), (op_module_inputs o); try by wp_step.
  apply (wp_bind_pres unmoved); [frame| |by intros ? ? ->]. intros [mode vs] w1 ->.
  apply (wp_bind_pres unmoved); [frame| |by intros ? ? ->]. intros plat w1 ->.
  do 3 wp_step. destruct (dt_leb _ _); [by wp_step|]. do 2 wp_step.
  apply wp_bind. eapply wp_mono; [apply step_to_deliver_durable; [done|]|].
  { intros sid s Hin Hs. rewrite elem_of_order_by in Hin. eapply step_open_row; [|done]. by apply H2. }
  intros [[[[sid s] [cid c]]|]|e] w1 [Hd Hr]; wp_k; [|by wp_step|done].
  destruct Hr as [Hr Hop].
  destruct (allowed _ _) eqn:Ha; simpl in *; [|wp_step; by destruct Hr as [->|?]].
  eapply wp_mono.
  { apply (wp_returns (λ p, p ≠ None) _ (λ _, durable w)); [returns|].
    apply wp_trans; [apply _|exact Hd|]. apply wp_bind_then; [apply _| |intros; apply durable_of_calm; calm].
    destruct mode, plat, platform; try by wp_step. wp_step. by apply durable_update_op. }
  by intros [[p|]|e] w2 [? ?].
Qed.

Lemma next_pending_module_command_durable device_id caps platform :
  pres durable (_next_pending_module_command device_id caps platform).
Proof.
  apply pres_of_wp. intros w0. unfold _next_pending_module_command. do 2 wp_step. simpl.
  match goal with |- wp _ _ ?x => set (w := x) end.
  apply wp_trans; [apply _| |]. { apply calm_durable. apply calm_refl_db; [done|done|simpl; lia]. }
  apply (wp_for_return _ _ (λ w', w' = w)); [done| |by intros ? ->].
  intros [id o] w1 Hin ->. rewrite elem_of_order_by in Hin. apply H1 in Hin as [Hid Ho].
  assert (op_open id w) as Hopen.
  { eapply op_open_row; [exact Hid|]. cbn in Ho. propify.
    by match goal with E : in_set (op_status o) _ = true |- _ => revert E; destruct (op_status o) end. }
  eapply wp_mono; [by apply module_operation_command_durable|].
  intros [[p|]|e] w2 [Hd Hr]; simpl; done.
Qed.

(** An operation that is not due yet is left alone. *)
Lemma expire_operation_if_due_false id o now coll w :
  wp (expire_operation_if_due id o now coll)
    (λ r w', match r with Ok false => calm w w' | _ => True end) w.
Proof.
  unfold expire_operation_if_due. apply (wp_bind_pres calm); [calm| |done]. intros at_ w1 Hq.
  destruct (_ || _); [by wp_step|].
  eapply wp_mono; [apply (wp_returns (λ b, b = true) _ (λ _ _, True));
                   [unfold expire_module_operation, expire_collection_operation; returns|done]|].
  by intros [[]|e] w2 [_ Hb].
Qed.

Lemma opt_expire_if_due_durable operation coll w :
  match operation with
  | Some (id, o) => endpoint_operations (db w) !! id = Some o
  | None => True
  end →
  wp (opt_expire_if_due operation coll) (λ r w', durable w w' ∧
    match r with Ok false => calm w w' | _ => True end) w.
Proof.
  destruct operation as [[id o]|]; intros Hid; simpl; [|by wp_step].
  wp_step. match goal with |- wp _ _ ?x => set (w1 := x) end.
  assert (calm w w1) as Hc by (apply calm_refl_db; [done|done|simpl; lia]).
  eapply wp_mono; [apply wp_and; [apply expire_operation_if_due_durable|apply expire_operation_if_due_false]|].
  - intros Ho. by eapply op_open_row.
  - intros r w2 [H1 H2]. split; [etrans; [by apply calm_durable|done]|].
    destruct r as [[]|]; [done| |done]. by etrans.
Qed.

(** What an operation fetched for a collection is. *)
Lemma operation_for_collection_spec cid c command w :
  wp (_operation_for_collection cid c command) (λ r w', w' = w ∧
    match r with
    | Ok (Some (id, o)) => endpoint_operations (db w) !! id = Some o
    | _ => True
    end) w.
Proof.
  unfold _operation_for_collection, _validate_operation_relation, get_row.
  destruct (col_operation_id c) as [id|]; [|by wp_step]. do 2 wp_step. 
  wp_step. destruct a as [id' o]. apply fmap_Some in Hsome as (o' & Ho & [= -> ->]).
  do 4 wp_step.
Qed.

(** Collections that are skipped, replayed or delivered. *)
Lemma replay_collection_durable device_id cid c capability command_id :
  pres durable (replay_collection device_id cid c capability command_id).
Proof.
  apply pres_of_wp. intros w. unfold replay_collection. wp_step; [|by wp_step].
  destruct (negb _); [by wp_step|].
  apply wp_bind. eapply wp_mono; [apply operation_for_collection_spec|].
  intros [operation|e] w1 [-> Ho]; wp_k; [|done].
  apply wp_bind. eapply wp_mono; [by apply opt_expire_if_due_durable|].
  intros [[]|e] w1 [Hd Hc]; wp_k; [by wp_step| |done].
  apply wp_trans; [apply _|done|]. rest_calm.
Qed.

Lemma deliver_collection_durable device_id cid c capability operation now w :
  match operation with
  | Some (id, o) => endpoint_operations (db w) !! id = Some o
  | None => True
  end →
  wp (deliver_collection device_id cid c capability operation now) (λ _, durable w) w.
Proof.
  intros Ho. unfold deliver_collection.
  apply wp_bind. eapply wp_mono; [by apply opt_expire_if_due_durable|].
  intros [[]|e] w1 [Hd Hc]; wp_k; [by wp_step| |done].
  apply wp_trans; [apply _|done|]. wp_step.
  assert (match operation with
          | Some (id, _) => op_open id w1
          | None => True end) as Hopen.
  { destruct operation as [[id o]|]; [|done]. apply (op_open_calm _ _ _ Hc).
    eapply op_open_row; [exact Ho|]. simpl in H0. propify. by rewrite H0. }
  clear H0 Ho Hd Hc w. rename w1 into w. assert (calm w w) as Hc by reflexivity.
  repeat (calm_bind; intros ? ? ?).
  apply wp_trans; [apply _|by apply calm_durable|].
  apply wp_bind_then; [apply _| |intros; apply durable_of_calm; calm].
  destruct operation as [[id o]|]; wp_step. apply durable_update_op. by eapply op_open_calm.
Qed.

Lemma collection_command_durable device_id caps channel now cid c :
  pres durable (collection_command device_id caps channel now cid c).
Proof.
  apply pres_of_wp. intros w. unfold collection_command.
  destruct (_ && _); [by wp_step|]. destruct (assoc _ _); [|by wp_step].
  destruct (negb _); [by wp_step|].
  apply wp_bind. eapply wp_mono; [apply operation_for_collection_spec|].
  intros [operation|e] w1 [-> Ho]; wp_k; [|done].
  destruct (col_command_id c); [apply wp_of_pres, replay_collection_durable|].
  by apply deliver_collection_durable.
Qed.

Lemma next_pending_command_durable device_id caps channel platform :
  pres durable (next_pending_command device_id caps channel platform).
Proof.
  unfold next_pending_command.
  apply pres_bind; [apply _|apply durable_of_calm; calm|intros _].
  apply pres_bind; [apply _|apply durable_of_calm; calm|intros ?].
  apply pres_bind; [apply _|apply durable_of_calm; calm|intros _].
  apply pres_bind; [apply _| |intros [p|]].
  - destruct (decide _); [apply next_pending_module_command_durable|apply durable_of_calm; calm].
  - apply durable_of_calm; calm.
  - do 2 (apply pres_bind; [apply _|apply durable_of_calm; calm|intros ?]).
    apply pres_for_return; [apply _|]. intros; apply collection_command_durable.
Qed.

(** ** Results *)

Lemma finish_context_operation_durable id o status at_ code w :
  op_open id w → wp (finish_context_operation id o status at_ code) (λ _, durable w) w.
Proof.
  intros Ho. unfold finish_context_operation. wp_step.
  apply wp_trans; [apply _|by apply durable_update_op|]. rest_calm.
Qed.

Lemma accept_operation_result_spec c d o session_id result w :
  wp (accept_operation_result c d o session_id result) (λ r w', calm w w' ∧
    match r with Ok _ => in_flight (op_status o) = true | Exn _ => True end) w.
Proof.
  unfold accept_operation_result. wp_step. apply (wp_pres calm); [calm|].
  intros [a|e] w' Hq; (split; [done|]); [|done]. by propify.
Qed.

Lemma in_flight_open s : in_flight s = true → terminal s = false.
Proof. by destruct s. Qed.

Lemma store_first_result_durable cid c d coll operation session_id n result digest w :
  match operation with
  | Some (id, o) => endpoint_operations (db w) !! id = Some o
  | None => True
  end →
  wp (store_first_result cid c d coll operation session_id n result digest) (λ _, durable w) w.
Proof.
  intros Hop. unfold store_first_result.
  apply wp_bind. eapply (wp_mono _ (λ r w', calm w w' ∧ match r with
    | Ok _ => match operation with Some (id, _) => op_open id w' | None => True end
    | Exn _ => True end)).
  { destruct operation as [[id o]|]; [|by wp_step].
    eapply wp_mono; [apply accept_operation_result_spec|]. intros [a|e] w1 [Hc Hf]; [|done].
    split; [done|]. apply (op_open_calm _ _ _ Hc). eapply op_open_row; [exact Hop|].
    by apply in_flight_open. }
  intros [[accepted at_]|e] w1 [Hc Hopen]; wp_k; [|by apply calm_durable].
  apply wp_trans; [apply _|by apply calm_durable|]. clear Hc Hop w. rename w1 into w.
  do 2 wp_step. match goal with |- wp _ _ ?x => set (w1 := x) end.
  assert (durable w w1) as Hd.
  { apply durable_insert_result; simpl; [|lia]. apply calm_refl_db; [done|done|simpl; lia]. }
  apply wp_trans; [apply _|done|].
  assert (match operation with Some (id, _) => op_open id w1 | None => True end) as Hop1 by done.
  clearbody w1. generalize (seed w). intros rid. clear Hd Hopen w. rename w1 into w. assert (calm w w) as Hc by reflexivity.
  repeat (calm_bind; intros ? ? ?).
  destruct operation as [[id o]|], at_ as [at_|]; try (wp_step; by apply calm_durable).
  apply wp_trans; [apply _|by apply calm_durable|]. apply finish_context_operation_durable.
  by eapply op_open_calm.
Qed.

Lemma replay_result_durable device_id instance cid c d coll operation rid r n result digest w :
  command_results (db w) !! rid = Some r →
  wp (replay_result device_id instance cid c d coll operation rid r n result digest)
    (λ _, durable w) w.
Proof.
  intros Hr. unfold replay_result. destruct operation as [[id o]|]; [rest_calm|].
  apply wp_when; intros Hn; [|done]. wp_step. apply (durable_fill_sequence rid r); [done|].
  by destruct (res_result_sequence r).
Qed.

Lemma advance_module_operation_durable id o s n at_ w :
  op_open id w → wp (advance_module_operation id o s n at_) (λ _, durable w) w.
Proof.
  intros Ho. unfold advance_module_operation. destruct (_ =? _); wp_step.
  - apply wp_trans; [apply _|by apply durable_update_op|]. rest_calm.
  - by apply durable_update_op.
Qed.

Lemma record_module_step_result_durable cid c d sid s id o instance session_id n result digest w :
  endpoint_operations (db w) !! id = Some o → endpoint_operation_steps (db w) !! sid = Some s →
  wp (_record_module_step_result cid c d sid s id o instance session_id n result digest)
    (λ _, durable w) w.
Proof.
  intros Ho Hs. unfold _record_module_step_result.
  apply (wp_bind_pres unmoved); [frame| |by intros ? ? ->]. intros count w1 ->.
  wp_step; [wp_step; apply wp_of_pres, advance_result_sequence_durable|].
  do 2 wp_step. propify.
  assert (op_open id w) as Hop by (eapply op_open_row; [exact Ho|by apply in_flight_open]).
  assert (step_open sid w) as Hst by (eapply step_open_row; [exact Hs|by apply in_flight_open]).
  assert (calm w w) as Hc by reflexivity.
  do 3 (calm_bind; intros ? ? ?).
  destruct a2 as [safe_result error_code]. apply wp_trans; [apply _|by apply calm_durable|].
  apply (op_open_calm _ _ w'1) in Hop; [|done]. apply (step_open_calm _ _ w'1) in Hst; [|done].
  do 2 wp_step. match goal with |- wp _ _ ?x => set (w1 := x) end.
  assert (durable w'1 w1) as Hd.
  { apply durable_insert_result; simpl; [|lia]. apply calm_refl_db; [done|done|simpl; lia]. }
  apply wp_trans; [apply _|done|].
  assert (op_open id w1) as Hop1 by done. assert (step_open sid w1) as Hst1 by done.
  clearbody w1. do 3 wp_step. match goal with |- wp _ _ ?x => set (w2 := x) end.
  assert (durable w1 w2 ∧ op_open id w2) as [Hd2 Hop2].
  { split; [|done]. etrans; [|apply durable_update_step; exact Hst1].
    apply calm_durable. split; [done|unfold seed_le; simpl; lia]. }
  apply wp_trans; [apply _|done|]. clearbody w2.
  apply wp_bind_then; [apply _| |intros; apply advance_result_sequence_durable].
  destruct (decide _); [by apply advance_module_operation_durable|].
  wp_step. apply wp_trans; [apply _|by apply durable_update_op|]. rest_calm.
Qed.

(** ** Whole requests

    What a request leaves committed, from the committed state it began in. *)

(** The part of a request before its commit. *)
Definition working (w w' : World) : Prop := durable w w' ∧ same committed w w' ∧ seed_le w w'.

#[local] Instance working_preorder : PreOrder working.
Proof.
  split; [intros w; split; [|split]; reflexivity|].
  intros w1 w2 w3 (? & ? & ?) (? & ? & ?). split; [|split]; by etrans.
Qed.

Lemma working_of {A} (m : Tx A) :
  pres durable m → keeps committed m → pres seed_le m → pres working m.
Proof. intros Hd Hk Hs w. split; [apply Hd|split; [apply Hk|apply Hs]]. Qed.

Definition advances (w w' : World) : Prop := durable (stored w) (stored w').

#[local] Instance advances_preorder : PreOrder advances.
Proof. unfold advances. split; [intros w; reflexivity|]. intros w1 w2 w3 H12 H23. etrans; [exact H12|exact H23]. Qed.

Lemma working_aborted w w' : working (stored w) w' → advances w (w' <| db := committed w' |>).
Proof.
  intros (_ & E & Hs) (Ho & Hr & Hi). unfold same, seed_le, stored in *; simpl in *.
  unfold ids_fresh; simpl. rewrite E. split; [eauto 6 using fresh_le|reflexivity].
Qed.

Lemma working_committed w w' :
  working (stored w) w' → advances w (w' <| committed := db w' |>).
Proof. intros (Hd & _ & _) Hf. destruct (Hd Hf) as [Hf' Hl]. by split. Qed.

Lemma wp_working {A} (m : Tx A) w :
  wp m (λ _, durable w) w → keeps committed m → pres seed_le m → wp m (λ _, working w) w.
Proof.
  intros Hd Hk Hs. specialize (Hk w). specialize (Hs w). rewrite wp_unfold in *.
  split; [exact Hd|split; [exact Hk|exact Hs]].
Qed.

(** The end of a request: what it leaves committed. *)
Definition settles (w w' : World) : Prop := advances w (w' <| db := committed w' |>).

Lemma wp_session_settles {A} (body : Tx A) w :
  wp body (λ _, settles w) (stored w) →
  wp (in_session (rollback_on_error body)) (λ _, advances w) w.
Proof.
  intros Hb. apply wp_in_session, wp_rollback_on_error. eapply wp_mono; [exact Hb|].
  intros [a|e] w' Hs; exact Hs.
Qed.

Lemma wp_commit_end w w' : working (stored w) w' → wp commit (λ _, settles w) w'.
Proof.
  intros Hw. wp_step; [exact (working_committed _ _ Hw)|exact (working_aborted _ _ Hw)].
Qed.

Lemma wp_commit_settles {A} (k : Tx A) w w' :
  working (stored w) w' → (∀ w2, wp k (λ _ w3, w3 = w2) w2) →
  wp (commit ;; k) (λ _, settles w) w'.
Proof.
  intros Hw Hk. wp_step.
  - eapply wp_mono; [apply Hk|]. intros _ w3 ->. exact (working_committed _ _ Hw).
  - exact (working_aborted _ _ Hw).
Qed.

(** Go on after a part that works towards the commit. *)
Lemma wp_working_bind {A B} (m : Tx A) (k : A → Tx B) w w' :
  working (stored w) w' → pres working m →
  (∀ a w2, working (stored w) w2 → wp (k a) (λ _, settles w) w2) →
  wp (m ≫= k) (λ _, settles w) w'.
Proof.
  intros Hw Hm Hk. apply (wp_bind_pres working); [done| |].
  - intros a w2 H2. apply Hk. by etrans.
  - intros e w2 H2. apply working_aborted. by etrans.
Qed.

Lemma calm_working w w' : calm w w' → working w w'.
Proof.
  intros Hc. split; [by apply calm_durable|]. destruct Hc as [[= _ _ _ _ Ec] Hs]. by split.
Qed.

Lemma working_of_calm {A} (m : Tx A) : pres calm m → pres working m.
Proof. apply pres_mono. intros w w'. apply calm_working. Qed.

Lemma working_step w w' w2 :
  working w w' → durable w' w2 → committed w2 = committed w' → seed w' <= seed w2 → working w w2.
Proof. intros Hw Hd Hk Hs. etrans; [exact Hw|]. by split_and!. Qed.

Ltac work_calm := apply working_of_calm; calm.
Ltac aborted Hw := exact (working_aborted _ _ Hw).

Lemma deliver_next_advances device_id session_id caps platform :
  pres advances (deliver_next device_id session_id caps platform).
Proof.
  apply pres_of_wp. intros w. apply wp_session_settles.
  apply wp_working_bind; [reflexivity| |].
  - apply working_of; [apply next_pending_command_durable|frame|frame].
  - intros [p|] w' Hw; [|by apply wp_commit_settles].
    repeat (wp_step; try aborted Hw).
    destruct (decide _); [by apply wp_commit_settles|]. wp_step.
    apply wp_commit_settles; [|by intros]. eapply working_step; [exact Hw| |done|simpl; lia].
    apply calm_durable. split; [done|unfold seed_le; simpl; lia].
Qed.

(** The records an acknowledgement or a result starts from. *)
Lemma resolve_module_step_spec cid c w :
  wp (resolve_module_step_relation cid c) (λ r w', w' = w ∧
    match r with
    | Ok (Some ((sid, s), (id, o))) =>
        endpoint_operation_steps (db w) !! sid = Some s ∧ step_command_id s = Some cid
        ∧ endpoint_operations (db w) !! id = Some o ∧ step_operation_id s = id
    | _ => True
    end) w.
Proof.
  unfold resolve_module_step_relation, get_row. wp_step. do 2 wp_step.
  destruct (_ !! step_operation_id r) as [o|] eqn:Eo; simpl.
  - do 3 wp_step. propify. split_and!; try done.
  - wp_step; by wp_step.
Qed.

Lemma validate_operation_relation_spec cid c operation command w :
  wp (_validate_operation_relation cid c operation command) (λ r w', w' = w ∧
    match r with Ok x => operation = Some x | Exn _ => True end) w.
Proof.
  unfold _validate_operation_relation. wp_step. destruct a as [id o]. do 3 wp_step.
Qed.

Lemma resolve_command_context_spec cid c w :
  wp (resolve_command_context_relation cid c) (λ r w', w' = w ∧
    match r with
    | Ok (_, Some (id, o)) => endpoint_operations (db w) !! id = Some o
    | _ => True
    end) w.
Proof.
  unfold resolve_command_context_relation.
  apply (wp_bind_pres unmoved); [frame| |by intros ? ? ->]. intros collection w1 ->.
  wp_step.
  - apply (wp_bind_pres unmoved); [frame| |by intros ? ? ->]. intros canonical w1 ->.
    do 2 wp_step. apply wp_bind. eapply wp_mono; [apply validate_operation_relation_spec|].
    intros [[id' o]|e] w1 [-> Ho]; wp_k; [|done]. injection Ho as -> ->. by wp_step.
  - destruct collection as [[id c']|]; [|done].
    apply wp_bind. eapply wp_mono; [apply operation_for_collection_spec|].
    intros [[[id' o]|]|e] w1 [-> Ho]; wp_k; done.
Qed.

(** Open rows stay open under changes that do not end them. *)
Lemma op_open_keep id j (f : EndpointOperation → EndpointOperation) w :
  (∀ o, terminal (op_status o) = false → terminal (op_status (f o)) = false) →
  op_open id w → op_open id (with_table (alter f j) w).
Proof.
  intros Hf Ho o (o' & Hc & Ho')%lookup_alter_cases. specialize (Ho _ Ho').
  destruct Hc as [->| ->]; auto.
Qed.

Lemma step_open_keep id j (f : ModuleOperationStep → ModuleOperationStep) w :
  (∀ s, terminal (step_status s) = false → terminal (step_status (f s)) = false) →
  step_open id w → step_open id (with_table (alter f j) w).
Proof.
  intros Hf Ho o (o' & Hc & Ho')%lookup_alter_cases. specialize (Ho _ Ho').
  destruct Hc as [->| ->]; auto.
Qed.

Lemma actionable_open s : in_set s [acknowledged; running] = true → terminal s = false.
Proof. by destruct s. Qed.

(** The rows of a request, open, with the work done so far. *)
Definition ongoing (w : World) (sid id : uuid) (w' : World) : Prop :=
  working (stored w) w' ∧ step_open sid w' ∧ op_open id w'.

Lemma record_module_ack_settles ack cid c did step operation w :
  in_set (ack_status ack) [acknowledged; running] = true →
  endpoint_operation_steps (db (stored w)) !! step.1 = Some step.2 →
  endpoint_operations (db (stored w)) !! operation.1 = Some operation.2 →
  wp (record_module_ack ack cid c did step operation) (λ _, settles w) (stored w).
Proof.
  intros Ha%actionable_open Hs Ho. unfold record_module_ack.
  assert (working (stored w) (stored w)) as Hw by reflexivity.
  destruct (terminal (cmd_status c)).
  { do 2 (wp_step; try aborted Hw). }
  wp_step; try aborted Hw. propify.
  assert (ongoing w step.1 operation.1 (stored w)) as H0'.
  { split; [done|]. split; [eapply step_open_row|eapply op_open_row]; try done; by apply in_flight_open. }
  clear Hw H0 H1 H2.
  assert (∀ w', ongoing w step.1 operation.1 w' →
    wp (update did (acknowledge_delivery (ack_acknowledged_at ack)) ;;
        update step.1 (λ s : ModuleOperationStep,
          s <| step_started_at := or_else (step_started_at s) (Some (ack_acknowledged_at ack)) |>) ;;
        commit) (λ _, settles w) w') as Hend.
  { intros w' (Hw & Hst & Hop). do 2 wp_step. 
    apply wp_commit_end. eapply working_step; [exact Hw| |done|simpl; lia].
    etrans; [|apply durable_update_step; exact Hst].
    apply calm_durable. split; [done|unfold seed_le; simpl; lia]. }
  apply wp_bind. eapply (wp_mono _ (λ r w', r = Ok tt ∧ ongoing w step.1 operation.1 w')).
  { apply wp_when; intros _; [|done]. do 3 wp_step. split; [done|]. destruct H0' as (Hw & Hst & Hop).
    split; [|split; [by apply step_open_keep|done]].
    eapply working_step; [exact Hw| |done|simpl; lia].
    etrans; [|apply durable_update_step; exact Hst].
    apply calm_durable. split; [done|unfold seed_le; simpl; lia]. }
  intros r w1 [-> (Hw & Hst & Hop)]. wp_k.
  apply wp_bind. eapply (wp_mono _ (λ r w', r = Ok tt ∧ ongoing w step.1 operation.1 w')).
  { apply wp_when; intros _; [|done]. wp_step. split; [done|].
    split; [|split; [done|by apply op_open_keep]].
    eapply working_step; [exact Hw|by apply durable_update_op|done|simpl; lia]. }
  intros r w2 [-> Hon]. wp_k. by apply Hend.
Qed.

Lemma record_context_ack_settles ack cid c did w :
  wp (record_context_ack ack cid c did) (λ _, settles w) (stored w).
Proof.
  unfold record_context_ack.
  assert (working (stored w) (stored w)) as Hw by reflexivity.
  apply wp_bind. eapply wp_mono; [apply resolve_command_context_spec|].
  intros [[collection operation]|e] w1 [-> Ho]; wp_k; [|aborted Hw].
  destruct (terminal (cmd_status c)).
  { do 2 (wp_step; try aborted Hw). }
  do 2 (wp_step; try aborted Hw).
  apply (wp_bind_pres calm); [calm| |intros e w1 Hc; exact (working_aborted _ _ (calm_working _ _ Hc))].
  intros _ w1 Hc. clear Hw. assert (working (stored w) w1) as Hw by by apply calm_working.
  apply wp_bind. eapply (wp_mono _ (λ r w', r = Ok tt ∧ working (stored w) w')).
  { destruct operation as [[id o]|]; [|done]. apply wp_when; intros _; [|done]. wp_step.
    split; [done|]. eapply working_step; [exact Hw| |done|simpl; lia].
    apply durable_update_op. apply (op_open_calm _ _ _ Hc). eapply op_open_row; [exact Ho|].
    apply in_flight_open. by propify. }
  intros r w2 [-> Hw2]. wp_k.
  do 2 (apply wp_working_bind; [done|work_calm|]; clear; intros _ w2 Hw2). by apply wp_commit_end.
Qed.

Lemma record_ack_advances device_id session_id ack :
  pres advances (record_ack device_id session_id ack).
Proof.
  unfold record_ack. apply pres_of_wp. intros w. do 2 wp_step. apply wp_session_settles.
  assert (working (stored w) (stored w)) as Hw by reflexivity.
  repeat (wp_step; try aborted Hw).
  apply wp_bind. eapply wp_mono; [apply resolve_module_step_spec|].
  intros [[[[sid s] [oid o]]|]|e] w1 [-> Hr]; wp_k; [| |aborted Hw].
  - destruct Hr as (Hs & _ & Ho & _). apply record_module_ack_settles; [by propify|done..].
  - apply record_context_ack_settles.
Qed.

Lemma record_result_advances device_id instance session_id n result :
  pres advances (record_result device_id instance session_id n result).
Proof.
  unfold record_result. apply pres_of_wp. intros w. do 2 wp_step.
  apply wp_bind. apply wp_in_session.
  change (w <| db := committed w |>) with (stored w).
  eapply (wp_mono _ (λ _, settles w)).
  2: { intros [[]|e] w1 Hw1; wp_k; [wp_step|]; exact Hw1. }
  apply wp_try.
  eapply (wp_mono _ (λ _, settles w)).
  2: { intros [[]|e] w1 Hw1; [done|]. do 2 wp_step. }
  assert (working (stored w) (stored w)) as Hw by reflexivity.
  repeat (wp_step; try aborted Hw).
  all: match goal with |- context [store_first_result _ _ ?d] => generalize d; intros delivery end.
  all: apply wp_bind; eapply wp_mono; [apply resolve_module_step_spec|].
  all: intros [[[[sid s] [oid o]]|]|e] w1 [-> Hr]; wp_k; [| |aborted Hw].
  all: try (apply wp_bind; eapply wp_mono; [apply resolve_command_context_spec|];
    intros [[collection operation]|e] w1 [-> Ho]; wp_k; [|aborted Hw]).
  all: try (wp_step; [|]).
  all: apply wp_bind; eapply (wp_mono _ (λ _, working (stored w))); [apply wp_working; [|frame|frame]|].
  all: try (intros [[]|e] w1 Hw1; wp_k; [|aborted Hw1]; try by apply wp_commit_end).
  all: try (apply wp_working_bind; [done| |intros _ w2 Hw2; by apply wp_commit_end];
    apply working_of; [apply advance_result_sequence_durable|frame|frame]).
  all: first [by apply replay_result_durable|by apply store_first_result_durable
             |destruct Hr as (Hs & _ & Ho & _); by apply record_module_step_result_durable].
Qed.

(** A request of the operations service, in its own transaction. *)
Lemma request_advances {A} (m : Tx A) :
  pres durable m → keeps committed m → pres seed_le m → pres advances (request m).
Proof.
  intros Hd Hk Hs. apply pres_of_wp. intros w. apply wp_session_settles.
  apply wp_working_bind; [reflexivity|by apply working_of|].
  intros a w' Hw. by apply wp_commit_settles.
Qed.

Lemma for_each_scrub_durable {R} (l : list (uuid * R)) :
  pres durable (for_each l (λ step, update step.1 scrub_step)).
Proof. apply pres_for_each; [apply _|]. intros x _. apply scrub_step_durable. Qed.

(** The cleanup scrubs payloads and nothing else. *)
Lemma cleanup_operation_results_durable now limit :
  pres durable (cleanup_operation_results now limit).
Proof.
  unfold cleanup_operation_results.
  do 4 (apply pres_bind; [apply _|apply durable_of_calm; calm|intros ?]).
  apply pres_bind; [apply _| |intros _; apply durable_of_calm; calm].
  apply pres_for_each; [apply _|]. intros x _.
  do 2 (apply pres_bind; [apply _|apply durable_of_calm; calm|intros ?]).
  apply for_each_scrub_durable.
Qed.

Lemma cleanup_module_step_results_durable now limit :
  pres durable (cleanup_module_step_results now limit).
Proof.
  unfold cleanup_module_step_results.
  do 4 (apply pres_bind; [apply _|apply durable_of_calm; calm|intros ?]).
  apply pres_bind; [apply _|apply for_each_scrub_durable|intros _; apply durable_of_calm; calm].
Qed.

(** ** Presence

    A greeting adds an instance or says what it runs now; heartbeats say it
    again.  The sequence of results stays. *)

Lemma greet_instance_working device hello now : pres working (greet_instance device hello now).
Proof.
  apply working_of; [|frame|frame]. apply pres_of_wp. intros w. unfold greet_instance. wp_step.
  - wp_step. wp_step. apply durable_update_instance. intros i. unfold sequence_lasts; simpl. lia.
  - do 2 wp_step. match goal with |- wp _ _ ?x => assert (durable w x) as Hd end.
    { apply durable_insert_instance; simpl; [|lia]. apply calm_refl_db; [done|done|simpl; lia]. }
    apply wp_trans; [apply _|done|]. rest_calm.
Qed.

Lemma advances_of_calm {A} (m : Tx A) : pres calm m → pres advances m.
Proof.
  apply pres_mono. intros w w' Hc. destruct (calm_working _ _ Hc) as (_ & E & Hs).
  intros (Ho & Hr & Hi). unfold same, seed_le, stored in *; simpl in *. unfold ids_fresh; simpl.
  rewrite E. split; [eauto 6 using fresh_le|reflexivity].
Qed.

(** What a request does before its session begins. *)
Ltac prepare := apply pres_bind; [apply _|apply advances_of_calm; calm|intros ?].
(** The session of a request, and a step of it that leaves the tables alone. *)
Ltac settle_session :=
  apply pres_of_wp; let w := fresh "w" in intros w; apply wp_session_settles;
  assert (working (stored w) (stored w)) as ? by reflexivity.
Ltac settle_calm := apply wp_working_bind; [eassumption|work_calm|]; intros ? ? ?.

Lemma open_session_advances canonical device hello source observed :
  pres advances (open_session canonical device hello source observed).
Proof.
  unfold open_session. do 3 prepare. settle_session. do 2 settle_calm.
  apply wp_working_bind; [eassumption|apply greet_instance_working|]. intros instance w3 H3.
  do 7 settle_calm. by apply wp_commit_settles.
Qed.

Lemma record_heartbeat_advances device session beat observed :
  pres advances (record_heartbeat device session beat observed).
Proof.
  unfold record_heartbeat. do 2 prepare. settle_session. do 5 settle_calm.
  apply wp_working_bind; [eassumption| |].
  { apply working_of; [|frame|frame]. apply durable_update_instance.
    intros i. unfold sequence_lasts; simpl. lia. }
  intros [] w' Hw'. by apply wp_commit_end.
Qed.

Lemma close_session_advances device session reason observed :
  pres advances (close_session device session reason observed).
Proof.
  unfold close_session. prepare. settle_session. settle_calm.
  assert (∀ w1, working (stored w) w1 → wp rollback (λ _, settles w) w1) as Hroll.
  { intros w' Hw'. wp_step. by apply working_aborted. }
  match goal with |- wp (match ?x with _ => _ end) _ _ => destruct x as [[id s]|] end; [|by apply Hroll].
  destruct (is_some _); [by apply Hroll|].
  do 2 settle_calm. by apply wp_commit_end.
Qed.

(** ** Requests in any order *)

(** One request to the gateway, its presence or the operations service, or other
    work of the server that only adds rows to their tables. *)
Inductive work_step (w : World) : World → Prop :=
| step_deliver device session caps platform :
    work_step w (deliver_next device session caps platform w).2
| step_acknowledge device session ack : work_step w (record_ack device session ack w).2
| step_result device instance session n result :
    work_step w (record_result device instance session n result w).2
| step_create_operation r client device key now :
    work_step w (request (create_operation_outcome r client device key now) w).2
| step_read_operation id client now :
    work_step w (request (read_operation_for_service id client now) w).2
| step_cancel_for_service id client now :
    work_step w (request (cancel_operation_for_service id client now) w).2
| step_cancel_for_admin id admin now :
    work_step w (request (cancel_operation_for_admin id admin now) w).2
| step_expire now limit : work_step w (request (expire_operations now limit) w).2
| step_request_collection device profile by_ key now :
    work_step w (request (request_collection_outcome device profile by_ key now) w).2
| step_pin_evidence id kind actor req reason now :
    work_step w (request (pin_operation_evidence id kind actor req reason now) w).2
| step_cleanup_results now limit :
    work_step w (request (cleanup_operation_results now limit) w).2
| step_cleanup_steps now limit :
    work_step w (request (cleanup_module_step_results now limit) w).2
| step_greet canonical device hello source observed :
    work_step w (open_session canonical device hello source observed w).2
| step_agent_heartbeat device session beat observed :
    work_step w (record_heartbeat device session beat observed w).2
| step_disconnect device session reason observed :
    work_step w (close_session device session reason observed w).2
| step_elsewhere_added w' :
    endpoint_operations (committed w) ⊆ endpoint_operations (committed w') →
    endpoint_operation_steps (committed w) ⊆ endpoint_operation_steps (committed w') →
    command_results (committed w) ⊆ command_results (committed w') →
    device_instances (committed w) ⊆ device_instances (committed w') →
    ids_fresh (stored w') → work_step w w'.

Lemma work_step_advances w w' : work_step w w' → advances w w'.
Proof.
  intros [d s c p|d s a|d i s n r|r c d k n|i c n|i c n|i a n|n l|d p b k n|i k a r o n|n l|n l
         |c d h s o|d s b o|d s r o|w'' Eo Es Er Ei Hf].
  - apply deliver_next_advances.
  - apply record_ack_advances.
  - apply record_result_advances.
  - apply (request_advances (create_operation_outcome r c d k n));
      [apply create_operation_durable|frame|frame].
  - apply (request_advances (read_operation_for_service i c n));
      [apply durable_of_calm; calm|frame|frame].
  - apply (request_advances (cancel_operation_for_service i c n));
      [apply cancel_for_service_durable|frame|frame].
  - apply (request_advances (cancel_operation_for_admin i a n));
      [apply cancel_for_admin_durable|frame|frame].
  - apply (request_advances (expire_operations n l));
      [apply expire_operations_durable|frame|frame].
  - apply (request_advances (request_collection_outcome d p b k n));
      [apply durable_of_calm; calm|frame|frame].
  - apply (request_advances (pin_operation_evidence i k a r o n));
      [apply durable_of_calm; calm|frame|frame].
  - apply (request_advances (cleanup_operation_results n l));
      [apply cleanup_operation_results_durable|frame|frame].
  - apply (request_advances (cleanup_module_step_results n l));
      [apply cleanup_module_step_results_durable|frame|frame].
  - apply open_session_advances.
  - apply record_heartbeat_advances.
  - apply close_session_advances.
  - intros _. split; [done|]. split; simpl; auto with lasting.
Qed.

Lemma work_steps_advance w w' : rtc work_step w w' → advances w w'.
Proof. induction 1; [reflexivity|]. etrans; [by apply work_step_advances|done]. Qed.

(** C2: however requests interleave (commands delivered, acknowledged and
    answered, operations created, read, cancelled and expired, collections
    requested, evidence pinned and cleaned up, agents greeting, beating and
    disconnecting, each accepted or refused, and work elsewhere that only adds
    rows to these tables), an operation that has ended (succeeded, failed,
    expired or canceled) is never changed again in any column, and a module
    step that has ended is kept in every column but the payload that the
    cleanup scrubs: a late acknowledgement, result, cancellation or deadline
    cannot alter an outcome. *)
Theorem ended_operations_and_steps_are_final w w' :
  ids_fresh (stored w) → rtc work_step w w' →
  (∀ id o, endpoint_operations (committed w) !! id = Some o → terminal (op_status o) = true →
     endpoint_operations (committed w') !! id = Some o)
  ∧ (∀ id s, endpoint_operation_steps (committed w) !! id = Some s →
       terminal (step_status s) = true →
       ∃ s', endpoint_operation_steps (committed w') !! id = Some s' ∧ step_kept s s').
Proof.
  intros Hw Hs. apply work_steps_advance in Hs. destruct (Hs Hw) as [_ [Ho Hst _ _]]. split.
  - intros id o Hid Ht. destruct (Ho id o Hid) as (o' & Ho' & Hl). by rewrite <- (Hl Ht).
  - intros id s Hid Ht. destruct (Hst id s Hid) as (s' & Hs' & Hl). eauto.
Qed.

(** C3: however those requests interleave, a stored command result is never lost and
    never overwritten (at most a missing sequence number is filled in), and
    the last result sequence of a device instance never goes back. *)
Theorem results_are_kept_and_sequences_advance w w' :
  ids_fresh (stored w) → rtc work_step w w' →
  (∀ id r, command_results (committed w) !! id = Some r →
     ∃ r', command_results (committed w') !! id = Some r' ∧ result_kept r r')
  ∧ (∀ id i, device_instances (committed w) !! id = Some i →
       ∃ i', device_instances (committed w') !! id = Some i'
             ∧ inst_last_result_sequence i <= inst_last_result_sequence i').
Proof.
  intros Hw Hs. apply work_steps_advance in Hs. destruct (Hs Hw) as [_ [_ _ Hr Hi]]. by split.
Qed.
End gateway.

(** ** A finished operation

    The operation of Demo.v fails; a heartbeat and a late acknowledgement,
    result, cancellation and deadline leave it as it is. *)

Section demo.
#[local] Existing Instance demo_contracts.

Lemma demo_ended_fresh : ids_fresh (stored demo_ended).
Proof.
  assert (ids_fresh (stored demo_start)) as H0.
  { split_and!; intros id v Hid; cbn in Hid; [discriminate Hid..|].
    apply lookup_singleton_Some in Hid as [<- _]. simpl. lia. }
  assert (rtc work_step demo_start demo_ended) as Hs.
  { eapply rtc_l; [apply (step_create_operation _ demo_request 4 1 "key-0001" None)|].
    eapply rtc_l; [apply (step_deliver _ 1 3 None None)|].
    eapply rtc_l; [apply (step_acknowledge _ 1 3)|].
    eapply rtc_l; [apply (step_result _ 1 2 3 7 (demo_answer failed))|]. apply rtc_refl. }
  exact (proj1 (work_steps_advance _ _ Hs H0)).
Qed.

Definition demo_beat : AgentHeartbeatV1 :=
  {| heartbeat_device_id := 1; heartbeat_agent_version := "1.0.1" |}.
Definition demo_heartbeat (w : World) : World := (record_heartbeat 1 3 demo_beat None w).2.

Definition demo_later : World :=
  (request (expire_operations (Some (utc_datetime (hours 1))) 100)
     (request (cancel_operation_for_admin demo_operation 9 None)
        (record_result 1 2 3 2 (demo_answer succeeded)
           (demo_ack running (demo_heartbeat demo_ended))).2).2).2.

Lemma demo_later_steps : rtc work_step demo_ended demo_later.
Proof.
  eapply rtc_l; [apply (step_agent_heartbeat _ 1 3 demo_beat None)|].
  eapply rtc_l; [apply (step_acknowledge _ 1 3)|].
  eapply rtc_l; [apply (step_result _ 1 2 3 2 (demo_answer succeeded))|].
  eapply rtc_l; [apply (step_cancel_for_admin _ demo_operation 9 None)|].
  eapply rtc_l; [apply (step_expire _ (Some (utc_datetime (hours 1))) 100)|]. apply rtc_refl.
Qed.

Lemma ended_operations_and_steps_are_final_witness :
  (op_status <$> endpoint_operations (committed demo_ended) !! demo_operation) = Some failed
  ∧ (∀ id o, endpoint_operations (committed demo_ended) !! id = Some o →
       terminal (op_status o) = true →
       endpoint_operations (committed demo_later) !! id = Some o).
Proof.
  split; [vm_compute; reflexivity|].
  apply (ended_operations_and_steps_are_final demo_ended demo_later demo_ended_fresh demo_later_steps).
Defined.

Lemma results_are_kept_and_sequences_advance_witness :
  size (command_results (committed demo_ended)) = 1%nat
  ∧ (inst_last_result_sequence <$> device_instances (committed demo_ended) !! 2) = Some 7
  ∧ (∀ id i, device_instances (committed demo_ended) !! id = Some i →
       ∃ i', device_instances (committed demo_later) !! id = Some i'
             ∧ inst_last_result_sequence i <= inst_last_result_sequence i').
Proof.
  split; [vm_compute; reflexivity|]. split; [vm_compute; reflexivity|].
  apply (results_are_kept_and_sequences_advance demo_ended demo_later demo_ended_fresh
           demo_later_steps).
Defined.
End demo.
