(* ===== verification/GatewaySpecs.v ===== *)
(** * The gateway: what each request does

    Delivery to a session, the order of module steps, acknowledgements and
    results. *)

From S2P Require Import Prelude Store Session AuditLog Frames Contracts Recipe Canonical.
From S2P Require Import Operations Context Evidence Commands Demo Finality.

Section gateway.
Context `{Contracts}.

(** ** The order of module steps *)

(** [s'] is [s] sent for the first time: no step of its operation is in
    flight, and all the earlier ones have succeeded. *)
Definition first_delivery (d : DB) (s s' : ModuleOperationStep) : Prop :=
  step_status s = queued
  ∧ (∃ cid, s' = s <| step_command_id := Some cid |> <| step_status := delivered |>)
  ∧ ∀ tid t, endpoint_operation_steps d !! tid = Some t →
      step_operation_id t = step_operation_id s →
      in_flight (step_status t) = false
      ∧ (step_sequence t < step_sequence s → step_status t = succeeded).

Definition steps_in_order (w w' : World) : Prop :=
  ∀ sid s s', endpoint_operation_steps (db w) !! sid = Some s →
    endpoint_operation_steps (db w') !! sid = Some s' → s' ≠ s → first_delivery (db w) s s'.

Lemma steps_in_order_same w w' :
  endpoint_operation_steps (db w') = endpoint_operation_steps (db w) → steps_in_order w w'.
Proof. intros E sid s s' Hs Hs' Hne. congruence. Qed.

Lemma materialize_step_steps device_id op_id o sid s now w :
  wp (materialize_step device_id op_id o sid s now) (λ _ w',
    endpoint_operation_steps (db w') = endpoint_operation_steps (db w)
    ∨ ∃ cid, endpoint_operation_steps (db w')
             = alter (λ s : ModuleOperationStep,
                 s <| step_command_id := Some cid |> <| step_status := delivered |>) sid
                 (endpoint_operation_steps (db w))) w.
Proof.
  unfold materialize_step. do 2 wp_step. wp_step; [|by left]. do 5 wp_step. right. eauto.
Qed.

(** The steps of an operation, as the selection loop sees them. *)
Definition steps_of (op_id : uuid) (l : list (uuid * ModuleOperationStep)) (d : DB) : Prop :=
  ∀ sid s, (sid, s) ∈ l ↔
    endpoint_operation_steps d !! sid = Some s ∧ (step_operation_id s =? op_id) = true.

Lemma sequence_constraints d i j s t :
  integrity_ok d = true →
  endpoint_operation_steps d !! i = Some s → endpoint_operation_steps d !! j = Some t →
  0 <= step_sequence s
  ∧ (step_operation_id s = step_operation_id t → step_sequence s = step_sequence t → i = j).
Proof.
  intros Hi Hs Ht. split.
  - assert (check_rows (λ s, 0 <=? step_sequence s) (endpoint_operation_steps d) = true) as Hck
      by (apply (integrity_constraint d "ck_endpoint_operation_steps_sequence"); [done|constraint]).
    eapply check_rows_lookup in Hck; [|exact Hs]. by propify.
  - intros Ho Hq.
    assert (unique_on (λ s, Some (step_operation_id s, step_sequence s))
              (endpoint_operation_steps d) = true) as Hu
      by (apply (integrity_constraint d "uq_endpoint_operation_steps_sequence"); [done|constraint]).
    eapply unique_on_inj in Hu; [by destruct Hu|exact Hs|exact Ht|done|]. simpl. by rewrite Ho, Hq.
Qed.

Lemma sequence_sorted l :
  StronglySorted (λ a b : uuid * ModuleOperationStep, step_sequence a.2 <= step_sequence b.2)
    (order_by sequence_order l).
Proof.
  eapply StronglySorted_impl; [|apply order_by_sorted].
  - intros a b. unfold bool_rel, sequence_order, lex_leb; simpl. lia.
  - intros a b c. apply lex_leb_trans.
  - intros a b. apply lex_leb_total.
Qed.

(** Below the first queued step of an operation, in its order. *)
Lemma earlier_steps_taken op_id l d sid s tid t :
  integrity_ok d = true → NoDup l.*1 → steps_of op_id l d → (sid, s) ∈ l → (tid, t) ∈ l →
  step_sequence t < step_sequence s →
  (tid, t) ∈ take (Z.to_nat (step_sequence s)) (order_by sequence_order l).
Proof.
  intros Hi Hnd Hl Hs Ht Hlt.
  replace (step_sequence s) with (step_sequence s - 0) by lia.
  apply (sorted_below (λ a : uuid * ModuleOperationStep, step_sequence a.2) _ 0 (sid, s)).
  - apply sequence_sorted.
  - rewrite order_by_Permutation. apply NoDup_fmap_2_strong; [|by eapply NoDup_fmap_1].
    intros [i x] [j y] Hx Hy Hxy. simpl in Hxy. apply Hl in Hx as [Hx Ox], Hy as [Hy Oy].
    destruct (sequence_constraints d i j x y Hi Hx Hy) as [_ Hij]. propify.
    assert (i = j) as -> by (apply Hij; congruence). congruence.
  - intros [i x] Hx. rewrite elem_of_order_by in Hx. apply Hl in Hx as [Hx _]. simpl.
    by apply (sequence_constraints d i i x x).
  - by rewrite elem_of_order_by.
  - by rewrite elem_of_order_by.
  - done.
Qed.

Lemma step_to_deliver_order device_id op_id o l now caps w :
  integrity_ok (db w) = true → NoDup l.*1 → steps_of op_id l (db w) →
  wp (step_to_deliver device_id op_id o (order_by sequence_order l) now caps)
    (λ _, steps_in_order w) w.
Proof.
  intros Hi Hnd Hl. unfold step_to_deliver.
  destruct (List.filter _ _) as [|a [|b k]] eqn:Ef; [|destruct (negb _)|].
  2,4: wp_step; by apply steps_in_order_same.
  2: { apply (wp_pres unmoved); [frame|]. intros r w' ->. by apply steps_in_order_same. }
  destruct (List.filter (λ s, bool_decide _) _) as [|[sid s] k] eqn:Eq;
    [wp_step; by apply steps_in_order_same|].
  destruct (existsb _ _) eqn:Ee; [wp_step; by apply steps_in_order_same|].
  destruct (negb _); [wp_step; by apply steps_in_order_same|].
  assert ((sid, s) ∈ l ∧ step_status s = queued) as [Hs Hq].
  { assert ((sid, s) ∈ (sid, s) :: k) as Hin by left.
    rewrite <- Eq, elem_of_filter_bool, elem_of_order_by in Hin. destruct Hin as [Hin Hq].
    simpl in Hq. by propify. }
  apply wp_bind. eapply wp_mono; [apply materialize_step_steps|]. intros r w' Hw'.
  assert (steps_in_order w w'); [|by destruct r; wp_k; [wp_step|]].
  destruct Hw' as [E|[cid E]]; [by apply steps_in_order_same|].
  intros i x x' Hx Hx' Hne. rewrite E in Hx'. destruct (decide (sid = i)) as [<-|Hij];
    [|rewrite lookup_alter_ne in Hx' by done; congruence].
  apply Hl in Hs as Hs'. destruct Hs' as [Hs' Ho].
  rewrite lookup_alter_eq in Hx'. simpl in Hx'. rewrite Hx in Hx'. injection Hx' as <-.
  assert (x = s) as -> by congruence. split; [done|]. split; [by eexists|].
  intros tid t Ht Hot. propify.
  assert ((tid, t) ∈ l) as Htl. { apply Hl. split; [done|]. apply Z.eqb_eq. congruence. }
  split.
  - destruct (in_flight (step_status t)) eqn:Eflight; [|done].
    assert ((tid, t) ∈ []) as Hnil; [|by apply elem_of_nil in Hnil].
    rewrite <- Ef. apply elem_of_filter_bool. by rewrite elem_of_order_by.
  - intros Hlt. eapply earlier_steps_taken in Hlt; [|done..].
    eapply existsb_false in Ee; [|exact Hlt]. simpl in Ee. by propify.
Qed.

Definition same_steps : World → World → Prop := same (λ w, endpoint_operation_steps (db w)).

Lemma steps_in_order_then w w1 w2 : steps_in_order w w1 → same_steps w1 w2 → steps_in_order w w2.
Proof. intros H1 E sid s s' Hs Hs'. apply (H1 sid s s' Hs). by rewrite <- E. Qed.

Lemma module_operation_command_order device_id caps platform now op_id o w :
  integrity_ok (db w) = true →
  wp (module_operation_command device_id caps platform now op_id o) (λ _, steps_in_order w) w.
Proof.
  intros Hi. assert (steps_in_order w w) as Hrefl by by apply steps_in_order_same.
  unfold module_operation_command.
  destruct (op_module_version_id o), (op_module_inputs o); try by wp_step.
  apply (wp_bind_pres unmoved); [frame| |by intros ? ? ->]. intros [mode vs] w1 ->.
  apply (wp_bind_pres unmoved); [frame| |by intros ? ? ->]. intros plat w1 ->.
  do 3 wp_step. destruct (dt_leb _ _); [by wp_step|]. do 2 wp_step.
  apply wp_bind. eapply wp_mono; [by apply step_to_deliver_order|].
  intros [[[[sid s] [cid c]]|]|e] w1 Hw1; wp_k; [|by wp_step|done].
  eapply wp_pres; [instantiate (1 := same_steps); unfold same_steps; frame|].
  intros r w2 E. by eapply steps_in_order_then.
Qed.

(** Selecting the next module command changes a step only by sending it
    for the first time, and only when it is queued, no step of its operation
    is in flight and every step with a smaller sequence number has succeeded:
    the steps of a module operation run strictly one after the other. *)
Theorem module_steps_are_sent_in_order device_id caps platform w :
  integrity_ok (db w) = true →
  wp (_next_pending_module_command device_id caps platform) (λ _ w',
    ∀ sid s s', endpoint_operation_steps (db w) !! sid = Some s →
      endpoint_operation_steps (db w') !! sid = Some s' → s' ≠ s →
      first_delivery (db w) s s') w.
Proof.
  intros Hi. unfold _next_pending_module_command. do 2 wp_step.
  match goal with |- wp _ _ ?x => set (w1 := x) end.
  apply (wp_for_return _ _ (λ w', w' = w1)); [done| |].
  - intros [id o] w2 Hin ->. rewrite elem_of_order_by in Hin. apply H1 in Hin as [Hid Ho].
    assert (op_open id w1) as Hopen.
    { eapply op_open_row; [exact Hid|]. cbn in Ho. propify.
      by match goal with E : in_set (op_status o) _ = true |- _ => revert E; destruct (op_status o) end. }
    eapply wp_mono; [apply wp_and;
      [by apply module_operation_command_durable|by apply module_operation_command_order]|].
    intros [[p|]|e] w3 [[_ Hr] Hord]; [exact Hord|done|exact Hord].
  - intros w2 -> sid s s' Hs Hs' Hne. simpl in *. congruence.
Qed.

(** ** Delivery *)

(** The validity that the constructor of a command checks. *)
Definition wellformed (p : GatewayCommandV1) : Prop :=
  dt_leb (gc_deadline_at p) (gc_created_at p) = false
  ∧ validate_control_parameters (gc_capability p) (gc_parameters p) = true.

Lemma make_gateway_command_returns c :
  returns (λ p, p = c ∧ wellformed p) (make_gateway_command c).
Proof. intros w. unfold make_gateway_command. do 3 wp_step. by propify. Qed.

(** A command that may be sent on a session of the device. *)
Definition sendable (device_id : uuid) (caps : option (list string)) (p : GatewayCommandV1) : Prop :=
  gc_device_id p = device_id ∧ allowed caps (gc_capability p) = true ∧ wellformed p.

Definition opt_sendable device_id caps (p : option GatewayCommandV1) : Prop :=
  match p with Some p => sendable device_id caps p | None => True end.

Lemma returns_use {A B} (P : A → Prop) (Q : B → Prop) (m : Tx A) (k : A → Tx B) :
  returns P m → (∀ a, P a → returns Q (k a)) → returns Q (m ≫= k).
Proof.
  intros Hm Hk w. apply wp_bind. eapply wp_mono; [apply Hm|].
  intros [a|e] w'; simpl; [|done]. intros Ha. by apply Hk.
Qed.

Lemma returns_impl {A} (P Q : A → Prop) (m : Tx A) :
  returns P m → (∀ a, P a → Q a) → returns Q m.
Proof. intros Hm HPQ w. eapply wp_mono; [apply Hm|]. intros [a|e] w'; [apply HPQ|done]. Qed.

Lemma returns_raise_if {A} (P : A → Prop) c e (k : unit → Tx A) :
  (c = false → returns P (k tt)) → returns P (raise_if c e ≫= k).
Proof. intros Hk w. wp_step. by apply Hk. Qed.

Lemma command_payload_returns command_id c cid coll capability operation :
  returns (λ p, gc_device_id p = cmd_device_id c ∧ gc_capability p = capability ∧ wellformed p)
    (_command_payload command_id c cid coll capability operation).
Proof.
  unfold _command_payload. do 2 (apply returns_bind; intros ?).
  destruct operation as [[id o]|]; [do 2 (apply returns_bind; intros ?)|];
    (eapply returns_impl; [apply make_gateway_command_returns|by intros p [-> ?]]).
Qed.

Lemma module_step_payload_returns command_id c id o sid s parameters :
  returns (λ p, gc_device_id p = op_device_id o ∧ gc_capability p = step_capability s ∧ wellformed p)
    (_module_step_payload command_id c id o sid s parameters).
Proof.
  unfold _module_step_payload. apply returns_bind; intros _.
  eapply returns_impl; [apply make_gateway_command_returns|by intros p [-> ?]].
Qed.

Lemma module_operation_command_sendable device_id caps platform now id o :
  op_device_id o = device_id →
  returns (opt_sendable device_id caps) (module_operation_command device_id caps platform now id o).
Proof.
  intros Ho. unfold module_operation_command.
  destruct (op_module_version_id o), (op_module_inputs o); try apply returns_raise.
  apply returns_bind; intros [mode vs]. do 4 (apply returns_bind; intros ?).
  destruct (dt_leb _ _); [by apply returns_ret|]. do 3 (apply returns_bind; intros ?).
  match goal with |- returns _ (match ?x with _ => _ end) => destruct x as [[[sid s] [cid c]]|] end;
    [|by apply returns_ret].
  destruct (allowed _ _) eqn:Ha; simpl; [|by apply returns_ret].
  do 4 (apply returns_bind; intros ?). eapply returns_use; [apply module_step_payload_returns|].
  intros p (Hd & Hc & Hw). apply returns_ret. simpl. split; [congruence|]. by rewrite Hc.
Qed.

Lemma replay_collection_sendable device_id caps cid coll capability command_id :
  allowed caps capability = true →
  returns (opt_sendable device_id caps) (replay_collection device_id cid coll capability command_id).
Proof.
  intros Ha w. unfold replay_collection. wp_step. destruct (negb _); [by wp_step|].
  match goal with |- wp ?m _ _ => assert (returns (opt_sendable device_id caps) m) as Hr end;
    [|by apply Hr].
  do 2 (apply returns_bind; intros ?).
  match goal with |- returns _ (if ?x then _ else _) => destruct x end; [by apply returns_ret|].
  do 2 (apply returns_bind; intros ?). eapply returns_use; [apply command_payload_returns|].
  intros p (Hd & Hc & Hw). apply returns_ret. simpl in *. propify. split; [congruence|].
  by rewrite Hc.
Qed.

Lemma deliver_collection_sendable device_id caps cid coll capability operation now :
  allowed caps capability = true →
  returns (opt_sendable device_id caps)
    (deliver_collection device_id cid coll capability operation now).
Proof.
  intros Ha. unfold deliver_collection. apply returns_bind; intros [].
  { by apply returns_ret. }
  do 9 (apply returns_bind; intros ?). eapply returns_use; [apply command_payload_returns|].
  intros p (Hd & Hc & Hw). apply returns_ret. simpl in *. split; [done|]. by rewrite Hc.
Qed.

Lemma collection_command_sendable device_id caps channel now cid coll :
  returns (opt_sendable device_id caps) (collection_command device_id caps channel now cid coll).
Proof.
  unfold collection_command. destruct (_ && _); [by apply returns_ret|].
  destruct (assoc _ _); [|by apply returns_ret].
  destruct (allowed _ _) eqn:Ha; simpl; [|by apply returns_ret].
  apply returns_bind; intros ?. destruct (col_command_id coll).
  - by apply replay_collection_sendable.
  - by apply deliver_collection_sendable.
Qed.

Lemma returns_for_return {A B} (P : option B → Prop) (l : list A) (body : A → Tx (option B)) :
  P None → (∀ x, x ∈ l → returns P (body x)) → returns P (for_return l body).
Proof.
  intros Hn Hb. induction l as [|x l IH]; simpl; [by apply returns_ret|].
  eapply returns_use; [apply Hb; left|]. intros [b|] Hx; [by apply returns_ret|].
  apply IH. intros y Hy. apply Hb. by right.
Qed.

Lemma next_pending_command_sendable device_id caps channel platform :
  returns (opt_sendable device_id caps) (next_pending_command device_id caps channel platform).
Proof.
  unfold next_pending_command. do 3 (apply returns_bind; intros ?).
  eapply (returns_use (opt_sendable device_id caps)).
  - destruct (decide _); [|by apply returns_ret]. intros w. unfold _next_pending_module_command.
    do 2 wp_step. match goal with |- wp ?m _ _ => assert (returns (opt_sendable device_id caps) m) as Hr end;
      [|by apply Hr].
    apply returns_for_return; [done|]. intros [id o] Hin. rewrite elem_of_order_by in Hin.
    apply module_operation_command_sendable. apply H1 in Hin as [_ Ho]. cbn in Ho. by propify.
  - intros [p|] Hp; [by apply returns_ret|]. do 2 (apply returns_bind; intros ?).
    apply returns_for_return; [done|]. intros x _. apply collection_command_sendable.
Qed.

(** Deliveries stay with their command and session until [deliver_next] hands
    one over. *)
Record deliveries_kept (w w' : World) : Prop := {
  dk_rows id d : command_deliveries (db w) !! id = Some d →
    ∃ d', command_deliveries (db w') !! id = Some d' ∧ dlv_command_id d' = dlv_command_id d
          ∧ dlv_device_session_id d' = dlv_device_session_id d;
  dk_fresh : fresh (seed w') (command_deliveries (db w'));
  dk_sessions : device_sessions (db w') = device_sessions (db w)
}.

Definition holds_deliveries (w w' : World) : Prop :=
  fresh (seed w) (command_deliveries (db w)) → deliveries_kept w w'.

#[local] Instance holds_deliveries_preorder : PreOrder holds_deliveries.
Proof.
  split.
  - intros w Hf. split; [|done..]. eauto.
  - intros w1 w2 w3 H12 H23 Hf. destruct (H12 Hf) as [R12 F12 S12].
    destruct (H23 F12) as [R23 F23 S23]. split; [|done|congruence].
    intros id d Hd. destruct (R12 id d Hd) as (d2 & Hd2 & E1 & E2).
    destruct (R23 id d2 Hd2) as (d3 & Hd3 & E3 & E4). exists d3. split_and!; congruence.
Qed.

Lemma holds_same w w' :
  command_deliveries (db w') = command_deliveries (db w) →
  device_sessions (db w') = device_sessions (db w) → seed w <= seed w' → holds_deliveries w w'.
Proof.
  intros Ed Es Hs Hf. split; rewrite ?Ed; [eauto|by eapply fresh_le|done].
Qed.

Lemma holds_update id (f : CommandDelivery → CommandDelivery) :
  (∀ d, dlv_command_id (f d) = dlv_command_id d) →
  (∀ d, dlv_device_session_id (f d) = dlv_device_session_id d) →
  pres holds_deliveries (update id f).
Proof.
  intros Hc Hs w Hf. unfold update, with_table; simpl. split; simpl; [| |done].
  - intros j d Hj. destruct (decide (id = j)) as [<-|Hne].
    + exists (f d). by rewrite lookup_alter_eq, Hj.
    + exists d. by rewrite lookup_alter_ne.
  - intros j v (v' & _ & Hj)%lookup_alter_cases. eauto.
Qed.

(** A new delivery takes an id that is not in use. *)
Lemma holds_new_delivery {A} (row : CommandDelivery) (k : Tx A) :
  pres holds_deliveries k →
  pres holds_deliveries (id ← uuid4; insert id row ;; k).
Proof.
  intros Hk w. pose (w1 := with_table <[seed w := row]> (w <| seed := seed w + 1 |>)).
  change (holds_deliveries w (k w1).2). etrans; [|apply Hk]. intros Hf. split; simpl; [| |done].
  - intros id d Hid. exists d. split; [|done]. rewrite lookup_insert_ne; [done|].
    specialize (Hf _ _ Hid). lia.
  - apply fresh_insert; [eapply fresh_le; [done|lia]|lia].
Qed.

Ltac keep_step :=
  lazymatch goal with
  | |- pres _ (uuid4 ≫= (λ id, insert id (new_delivery _) ≫= _)) => apply holds_new_delivery
  | |- pres _ (update _ _) =>
      first [apply holds_update; intros; done
            |intros ?; apply holds_same; simpl; [done|done|lia]]
  | |- pres _ (insert _ _) => intros ?; apply holds_same; simpl; [done|done|lia]
  | |- pres _ uuid4 => intros ?; apply holds_same; simpl; [done|done|lia]
  | |- pres _ utcnow => intros ?; apply holds_same; simpl; [done|done|lia]
  | |- _ => frame_step
  end.

Lemma next_pending_command_keeps_deliveries device_id caps channel platform :
  pres holds_deliveries (next_pending_command device_id caps channel platform).
Proof. repeat (keep_step; cbv zeta). Qed.

Definition session_of (d : DB) (did : uuid) : option (option uuid) :=
  dlv_device_session_id <$> command_deliveries d !! did.

Lemma session_of_kept d d' :
  (∀ id x, command_deliveries d !! id = Some x →
     ∃ x', command_deliveries d' !! id = Some x' ∧ dlv_command_id x' = dlv_command_id x
           ∧ dlv_device_session_id x' = dlv_device_session_id x) →
  ∀ did, is_some (session_of d did) = true → session_of d' did = session_of d did.
Proof.
  intros Hrows did Hin. unfold session_of in *.
  destruct (command_deliveries d !! did) as [x|] eqn:Ed; [|done].
  destruct (Hrows did x Ed) as (x' & -> & _ & Es). simpl. by rewrite Es.
Qed.

(** C12: [deliver_next] hands out a command only for this device, within the
    allowed capabilities and well formed, on an open session of the device,
    and only after it has committed that the command's delivery belongs to
    the session; a delivery that belonged to the session already is not sent
    again.  When it sends nothing no stored delivery changes session, and
    when it raises nothing at all is committed. *)
Theorem commands_are_sent_once_per_session device_id session_id caps platform w :
  fresh (seed w) (command_deliveries (committed w)) →
  wp (deliver_next device_id session_id caps platform) (λ r w',
    match r with
    | Ok (Some p) =>
        sendable device_id caps p
        ∧ (∃ s, device_sessions (committed w) !! session_id = Some s
                ∧ sess_device_id s = device_id ∧ sess_closed_at s = None)
        ∧ ∃ did d, command_deliveries (committed w') !! did = Some d
                   ∧ dlv_command_id d = gc_command_id p
                   ∧ dlv_device_session_id d = Some session_id
                   ∧ session_of (committed w) did ≠ Some (Some session_id)
    | Ok None => ∀ did, is_some (session_of (committed w) did) = true →
                 session_of (committed w') did = session_of (committed w) did
    | Exn _ => committed w' = committed w
    end) w.
Proof.
  intros Hf. unfold deliver_next. apply wp_in_session, wp_rollback_on_error.
  change (w <| db := committed w |>) with (stored w).
  assert (keeps committed (next_pending_command device_id caps gateway_wss platform)) as Hk by frame.
  apply wp_bind. eapply wp_mono.
  { apply (wp_and _ (λ _ w', holds_deliveries (stored w) w' ∧ committed w' = committed w)
      (λ r _, match r with Ok p => opt_sendable device_id caps p | Exn _ => True end)).
    - rewrite wp_unfold. split; [apply next_pending_command_keeps_deliveries|exact (Hk (stored w))].
    - apply next_pending_command_sendable. }
  intros [[p|]|e] w1 [[Hd Hc] Hp]; wp_k; [| |done].
  all: destruct (Hd Hf) as [Hrows _ Hsess]; pose proof (session_of_kept (committed w) _ Hrows) as Hsame.
  - repeat (wp_step; try exact Hc).
    destruct (decide _) as [Hown|Hnew].
    + repeat (wp_step; try first [exact Hc|exact Hsame]).
    + repeat (wp_step; try exact Hc). propify. unfold open_session_of in *. propify.
      split; [exact Hp|]. split.
      * exists r0. cbn in H2. rewrite Hsess in H2. subst id0 device_id. split; [done|]. split; [done|].
        by destruct (sess_closed_at r0).
      * exists id, (r <| dlv_device_session_id := Some session_id |>). simpl.
        cbn in H0. rewrite lookup_alter_eq, H0. split_and!; [done..|].
        intros Hown. apply Hnew. rewrite <- Hsame in Hown by by rewrite Hown.
        unfold session_of in Hown. rewrite H0 in Hown. by injection Hown.
  - repeat (wp_step; try first [exact Hc|exact Hsame]).
Qed.

(** ** Acknowledgements *)

(** Whether an acknowledgement moves a status. *)
Definition ack_moves (current ack : command_status) : bool :=
  bool_decide (current ≠ running) || bool_decide (ack = running).

Definition acked_command (ack : command_status) (c : Command) : Command :=
  if ack_moves (cmd_status c) ack then c <| cmd_status := ack |> else c.

Definition acked_delivery (c : Command) (ack : AgentCommandAckV1) (d : CommandDelivery)
    : CommandDelivery :=
  acknowledge_delivery (ack_acknowledged_at ack)
    (if ack_moves (cmd_status c) (ack_status ack) then d <| dlv_status := ack_status ack |> else d).

(** The command and delivery rows before and after an acknowledgement. *)
Definition ack_recorded (d d' : DB) (ack : AgentCommandAckV1) (cid : uuid) (c : Command)
    (did : uuid) (dl : CommandDelivery) : Prop :=
  (terminal (cmd_status c) = true ∧ d' = d)
  ∨ (in_flight (cmd_status c) = true
     ∧ commands d' = <[cid := acked_command (ack_status ack) c]> (commands d)
     ∧ command_deliveries d' = <[did := acked_delivery c ack dl]> (command_deliveries d)
     ∧ command_results d' = command_results d ∧ operation_evidence d' = operation_evidence d
     ∧ device_instances d' = device_instances d).

Definition ack_post (w : World) (ack : AgentCommandAckV1) (cid : uuid) (c : Command) (did : uuid)
    (dl : CommandDelivery) (r : res unit) (w' : World) : Prop :=
  match r with
  | Ok _ => ack_recorded (committed w) (committed w') ack cid c did dl
  | Exn _ => committed w' = committed w
  end.

Lemma acked_command_running ack (c : Command) m cid :
  commands m !! cid = Some c → ack_moves (cmd_status c) ack = false →
  commands m = <[cid := acked_command ack c]> (commands m).
Proof. intros Hc Hm. unfold acked_command. rewrite Hm. by rewrite insert_id. Qed.

Lemma acked_command_moved ack (c : Command) m cid :
  commands m !! cid = Some c → ack_moves (cmd_status c) ack = true →
  alter (λ c : Command, c <| cmd_status := ack |>) cid (commands m)
  = <[cid := acked_command ack c]> (commands m).
Proof. intros Hc Hm. unfold acked_command. rewrite Hm. by apply alter_stored. Qed.

Lemma acked_delivery_moved ack c (dl : CommandDelivery) m did :
  command_deliveries m !! did = Some dl → ack_moves (cmd_status c) (ack_status ack) = true →
  alter (acknowledge_delivery (ack_acknowledged_at ack)) did
    (alter (λ d : CommandDelivery, d <| dlv_status := ack_status ack |>) did (command_deliveries m))
  = <[did := acked_delivery c ack dl]> (command_deliveries m).
Proof.
  intros Hd Hm. unfold acked_delivery. rewrite Hm, (alter_stored _ did dl (command_deliveries m)) by done.
  erewrite alter_stored by by rewrite lookup_insert_eq. by rewrite insert_insert_eq.
Qed.

Lemma acked_delivery_running ack c (dl : CommandDelivery) m did :
  command_deliveries m !! did = Some dl → ack_moves (cmd_status c) (ack_status ack) = false →
  alter (acknowledge_delivery (ack_acknowledged_at ack)) did (command_deliveries m)
  = <[did := acked_delivery c ack dl]> (command_deliveries m).
Proof. intros Hd Hm. unfold acked_delivery. rewrite Hm. by apply alter_stored. Qed.

#[local] Hint Resolve acked_command_running acked_command_moved acked_delivery_moved
  acked_delivery_running : acks.

Lemma record_module_ack_spec ack cid c did dl step operation w :
  commands (committed w) !! cid = Some c → command_deliveries (committed w) !! did = Some dl →
  wp (record_module_ack ack cid c did step operation) (ack_post w ack cid c did dl) (stored w).
Proof.
  intros Hc Hd. unfold record_module_ack.
  destruct (terminal (cmd_status c)) eqn:Ht.
  { do 2 wp_step. by left. }
  wp_step. propify. unfold ack_post, ack_recorded.
  change (bool_decide (cmd_status c ≠ running) || bool_decide (ack_status ack = running))
    with (ack_moves (cmd_status c) (ack_status ack)).
  destruct (ack_moves _ _) eqn:Hm; simpl;
    repeat wp_step; right; split_and!; try done; simpl; eauto with acks.
Qed.

Lemma record_context_ack_spec ack cid c did dl w :
  commands (committed w) !! cid = Some c → command_deliveries (committed w) !! did = Some dl →
  wp (record_context_ack ack cid c did) (ack_post w ack cid c did dl) (stored w).
Proof.
  intros Hc Hd. unfold record_context_ack.
  apply (wp_bind_pres unmoved); [frame| |by intros ? ? ->]. intros [collection operation] w1 ->.
  destruct (terminal (cmd_status c)) eqn:Ht.
  { do 2 wp_step. by left. }
  do 2 wp_step. propify. unfold ack_post, ack_recorded.
  change (bool_decide (cmd_status c ≠ running) || bool_decide (ack_status ack = running))
    with (ack_moves (cmd_status c) (ack_status ack)).
  destruct (ack_moves _ _) eqn:Hm, operation as [[id o]|], collection as [[cid' coll]|]; simpl;
    repeat wp_step; right; split_and!; try done; simpl; eauto with acks.
Qed.

(** An acknowledgement that is accepted comes on an open session of the
    command's device and the command's delivery belongs to that session.  For
    a command that has ended it commits nothing; for one in flight it moves
    the command and its delivery to the acknowledged status, never back from
    running, keeps the first acknowledgement time and stores no result.  A
    refused acknowledgement commits nothing. *)
Theorem acknowledgements_never_regress device_id session_id ack w :
  wp (record_ack device_id session_id ack) (λ r w',
    match r with
    | Ok _ => ∃ s c did dl,
        device_sessions (committed w) !! session_id = Some s
        ∧ sess_device_id s = device_id ∧ sess_closed_at s = None
        ∧ commands (committed w) !! ack_command_id ack = Some c
        ∧ cmd_device_id c = device_id ∧ ack_device_id ack = device_id
        ∧ command_deliveries (committed w) !! did = Some dl
        ∧ dlv_command_id dl = ack_command_id ack
        ∧ dlv_device_session_id dl = Some session_id
        ∧ ack_recorded (committed w) (committed w') ack (ack_command_id ack) c did dl
        ∧ ack_status_update (cmd_status c) (ack_status ack)
          = cmd_status (acked_command (ack_status ack) c)
        ∧ (cmd_status c = running → cmd_status (acked_command (ack_status ack) c) = running)
    | Exn _ => committed w' = committed w
    end) w.
Proof.
  unfold record_ack. do 2 wp_step. apply wp_in_session, wp_rollback_on_error.
  change (w <| db := committed w |>) with (stored w).
  repeat wp_step. unfold open_session_of in *. propify. 
  assert (wp (module_relation ← resolve_module_step_relation id0 r0;
              match module_relation with
              | Some (step, operation) => record_module_ack ack id0 r0 id1 step operation
              | None => record_context_ack ack id0 r0 id1
              end) (ack_post w ack id0 r0 id1 r1) (stored w)) as Hb.
  { apply (wp_bind_pres unmoved); [frame| |by intros ? ? ->]. intros [[step operation]|] w1 ->.
    - by apply record_module_ack_spec.
    - by apply record_context_ack_spec. }
  eapply wp_mono; [exact Hb|]. intros [[]|e] w1; simpl; [|done]. intros Hrec.
  subst id id0. exists r, r0, id1, r1. cbn in H2, H4, H7. split_and!; try done.
  - by destruct (sess_closed_at r).
  - unfold ack_status_update, acked_command, ack_moves. by destruct (_ || _).
  - intros Hrun. unfold acked_command, ack_moves. rewrite Hrun. simpl.
    destruct (bool_decide (ack_status ack = running)) eqn:E; by propify.
Qed.

(** ** Results *)

(** The tables a result is recorded in. *)
Definition core_tables (w : World) :=
  (commands (db w), command_results (db w), device_instances (db w), committed w).

(** [max(last_result_sequence, n)] *)
Definition advance_sequence (n : Z) (i : DeviceInstance) : DeviceInstance :=
  i <| inst_last_result_sequence := Z.max (inst_last_result_sequence i) n |>.

Definition finish_command (status : command_status) (c : Command) : Command :=
  c <| cmd_status := status |>.

(** The first result of a command: one new row, under an id not taken before
    [first], and the command's end. *)
Definition result_added (d d' : DB) (first : uuid) (cid : uuid) (n : Z) (result : AgentResultV1)
    (digest : string) : Prop :=
  (∀ i r, command_results d !! i = Some r → res_result_identifier r ≠ result_identifier cid)
  ∧ (∃ rid r, command_results d' = <[rid := r]> (command_results d)
       ∧ (fresh first (command_results d) → command_results d !! rid = None)
       ∧ res_result_identifier r = result_identifier cid ∧ res_command_id r = cid
       ∧ res_status r = result_status result ∧ res_result_sequence r = Some n
       ∧ res_result_payload_digest r = Some digest)
  ∧ commands d' = alter (finish_command (result_status result)) cid (commands d).

(** A repeated result: nothing at all changes, but that a stored result without
    a sequence number gets the one of the repetition. *)
Definition result_repeated (d d' : DB) (cid : uuid) (n : Z) : Prop :=
  ∃ rid r, command_results d !! rid = Some r ∧ res_result_identifier r = result_identifier cid
    ∧ (d' = d
       ∨ res_result_sequence r = None
         ∧ d' = d <| command_results := <[rid := r <| res_result_sequence := Some n |>]> (command_results d) |>).

(** What recording a result has done before the instance's sequence moves. *)
Definition result_recorded (w w' : World) (cid : uuid) (n : Z) (result : AgentResultV1)
    (digest : string) : Prop :=
  device_instances (db w') = device_instances (db w) ∧ committed w' = committed w
  ∧ (result_added (db w) (db w') (seed w) cid n result digest
     ∨ result_repeated (db w) (db w') cid n).

Definition core_kept (w w' : World) : Prop := same core_tables w w' ∧ seed_le w w'.

#[local] Instance core_kept_preorder : PreOrder core_kept.
Proof. split; [by split; reflexivity|]. intros w1 w2 w3 [? ?] [? ?]. split; by etrans. Qed.

Ltac core_bind := apply (wp_bind_pres core_kept); [apply pres_and; frame| |done].

(** The id of a row inserted after [w] was not in use. *)
Lemma later_id_free {V} (m : gmap uuid V) n id : n <= id → fresh n m → m !! id = None.
Proof. intros Hle Hf. apply fresh_lookup. by eapply fresh_le. Qed.

Lemma replay_result_spec device_id instance cid c d coll operation rid r n result digest w :
  command_results (db w) !! rid = Some r → res_result_identifier r = result_identifier cid →
  wp (replay_result device_id instance cid c d coll operation rid r n result digest) (λ r' w',
    match r' with
    | Ok _ => result_recorded w w' cid n result digest
    | Exn _ => True
    end) w.
Proof.
  intros Hr Hid.
  assert (result_recorded w w cid n result digest) as Hsame.
  { split; [done|]. split; [done|]. right. exists rid, r. split_and!; [done..|by left]. }
  unfold replay_result. destruct operation as [[id o]|].
  - apply (wp_pres unmoved); [frame|]. by intros [[]|e] w' ->.
  - apply wp_when; intros Hn; [|done]. wp_step. split; [done|]. split; [done|]. right.
    exists rid, r. split_and!; [done..|]. right. cbn in Hr |- *. split; [by destruct (res_result_sequence r)|].
    by rewrite (alter_stored _ _ r).
Qed.

Lemma store_first_result_spec cid c d coll operation session_id n result digest w :
  (∀ i r, command_results (db w) !! i = Some r → res_result_identifier r ≠ result_identifier cid) →
  wp (store_first_result cid c d coll operation session_id n result digest) (λ r' w',
    match r' with
    | Ok _ => result_recorded w w' cid n result digest
    | Exn _ => True
    end) w.
Proof.
  intros Hnone. unfold store_first_result.
  core_bind. intros [accepted at_] w1 [[= C1 R1 I1 W1] S1]. do 2 wp_step.
  core_bind. intros _ w3 [[= C3 R3 I3 W3] _]. core_bind. intros ingested w4 [[= C4 R4 I4 W4] _]. wp_step.
  eapply (wp_pres core_kept); [apply pres_and; frame|]. intros [[]|e] w6 [[= C6 R6 I6 W6] _]; [|done].
  unfold with_table, seed_le in *; simpl in *.
  split; [congruence|]. split; [congruence|]. left. split; [done|]. split.
  - rewrite R6, R4, R3, R1. eexists _, _. split; [done|]. split; [by apply later_id_free|]. by split_and!.
  - rewrite C6, C4, C3, C1. done.
Qed.

Lemma record_module_step_result_spec cid c d sid s id o instance session_id n result digest w :
  wp (_record_module_step_result cid c d sid s id o instance session_id n result digest) (λ r' w',
    match r' with
    | Ok _ => ∃ w1, w' = (advance_result_sequence instance n w1).2
                    ∧ result_recorded w w1 cid n result digest
    | Exn _ => True
    end) w.
Proof.
  unfold _record_module_step_result.
  apply (wp_bind_pres unmoved); [frame| |done]. intros count w1 ->.
  wp_step.
  - wp_step. exists w. split; [done|]. split; [done|]. split; [done|]. right. propify.
    eexists _, _. split_and!; [done..|by left].
  - do 2 wp_step. core_bind. intros at_ w1 [[= C1 R1 I1 W1] S1]. core_bind. intros _ w2 [[= C2 R2 I2 W2] S2].
    core_bind. intros [safe_result error_code] w3 [[= C3 R3 I3 W3] S3]. do 5 wp_step.
    core_bind. intros _ w4 [[= C4 R4 I4 W4] _].
    rewrite wp_unfold. exists w4. split; [done|]. unfold with_table, seed_le in *; simpl in *.
    split; [congruence|]. split; [congruence|]. left. split.
    { intros i r Hr Hkey. specialize (H0 i r Hr). by propify. }
    split.
    + rewrite R4, R3, R2, R1. eexists _, _. split; [done|]. split; [apply later_id_free; lia|]. by split_and!.
    + rewrite C4, C3, C2, C1. done.
Qed.

(** What a result request leaves committed. *)
Definition result_post (w : World) (cid instance : uuid) (n : Z) (result : AgentResultV1)
    (r : res unit) (w' : World) : Prop :=
  match r with
  | Ok _ =>
      ∃ d, committed w' = d <| device_instances :=
                            alter (advance_sequence n) instance (device_instances (committed w)) |>
        ∧ (result_added (committed w) d (seed w) cid n result (result_payload_digest result)
           ∨ result_repeated (committed w) d cid n)
  | Exn _ => committed w' = committed w
  end.

Lemma advance_and_commit w w1 cid instance n result :
  result_recorded (stored w) w1 cid n result (result_payload_digest result) →
  wp commit (result_post w cid instance n result) (advance_result_sequence instance n w1).2.
Proof.
  intros (Ei & Ec & Hr). simpl in *. wp_step. exists (db w1). simpl. by rewrite Ei.
Qed.

Lemma record_result_tail device_id instance session_id cid c delivery n result w :
  wp (module_relation ← resolve_module_step_relation cid c;
      match module_relation with
      | Some ((step_id, step), (operation_id, o)) =>
          _record_module_step_result cid c delivery step_id step operation_id o
            instance session_id n result (result_payload_digest result) ;;
          commit
      | None =>
          '(collection, operation) ← resolve_command_context_relation cid c;
          stored ← scalar (λ _ r, bool_decide (res_result_identifier r = result_identifier cid));
          match stored with
          | None =>
              store_first_result cid c delivery collection operation session_id
                n result (result_payload_digest result)
          | Some (stored_id, stored) =>
              replay_result device_id instance cid c delivery collection operation
                stored_id stored n result (result_payload_digest result)
          end ;;
          advance_result_sequence instance n ;;
          commit
      end) (result_post w cid instance n result) (stored w).
Proof.
  apply (wp_bind_pres unmoved); [frame| |by intros ? ? ->]. intros [[[sid s] [id o]]|] w1 ->.
  - apply wp_bind. eapply wp_mono.
    { eapply (wp_and _ (λ _ w', committed w' = committed w));
        [by apply (wp_pres (same committed)); [frame|]|apply record_module_step_result_spec]. }
    intros [[]|e] w1 [Ec Hr]; wp_k; [|exact Ec]. destruct Hr as (w2 & -> & Hr).
    by apply advance_and_commit.
  - apply (wp_bind_pres unmoved); [frame| |by intros ? ? ->]. intros [collection operation] w1 ->.
    apply wp_bind. wp_step; wp_k.
    all: apply wp_bind; eapply wp_mono;
      [eapply (wp_and _ (λ _ w', committed w' = committed w));
        [apply (wp_pres (same committed)); [frame|done]
        |first [apply replay_result_spec; [done|by propify]
               |apply store_first_result_spec; intros i x Hx Hkey; specialize (H0 i x Hx); by propify]]|].
    all: intros [[]|e] w1 [Ec Hr]; wp_k; [|exact Ec].
    all: apply wp_bind; rewrite wp_unfold; by apply advance_and_commit.
Qed.

(** C1: a result that is accepted names a command of this device on an open
    session of this device and instance.  The first result of a command adds
    exactly one stored result, under the command's own identifier, with the
    reported status and sequence, and ends the command with that status; a
    repeated one changes no row of any table, but that a stored result without
    a sequence number gets the repeated one.  Either way the instance's last
    result sequence then becomes the larger of the two.  A refused result
    commits nothing. *)
Theorem results_are_stored_exactly_once device_id instance session_id n result w :
  wp (record_result device_id instance session_id n result) (λ r w',
    match r with
    | Ok ack =>
        let cid := result_command_id result in
        ack = {| ra_command_id := cid; ra_result_sequence := n |}
        ∧ terminal (result_status result) = true
        ∧ (∃ s, device_sessions (committed w) !! session_id = Some s
                ∧ open_session_of session_id device_id session_id s = true
                ∧ sess_device_instance_id s = Some instance)
        ∧ (∃ c, commands (committed w) !! cid = Some c ∧ cmd_device_id c = device_id)
        ∧ (∃ d, committed w' = d <| device_instances :=
                                alter (advance_sequence n) instance (device_instances (committed w)) |>
            ∧ (result_added (committed w) d (seed w) cid n result (result_payload_digest result)
               ∨ result_repeated (committed w) d cid n))
    | Exn _ => committed w' = committed w
    end) w.
Proof.
  unfold record_result. do 2 wp_step. apply wp_bind, wp_in_session.
  change (w <| db := committed w |>) with (stored w).
  apply wp_try. repeat wp_step.
  all: (eapply wp_mono; [apply record_result_tail|]).
  all: intros [[]|e] w1 Hpost; [wp_step|by do 3 wp_step].
  all: unfold open_session_of in *; propify; subst id id1.
  all: split_and!; try done; [exists r|exists r1|apply Hpost..].
  all: split_and!; try done.
  all: unfold open_session_of; rewrite !andb_true_iff, !Z.eqb_eq; by split_and!.
Qed.

(** ** Results of module steps *)

(** The tables a module result ends up in. *)
Definition module_tables (w : World) :=
  (endpoint_operations (db w), endpoint_operation_steps (db w), operation_evidence (db w)).
Definition module_kept : World → World → Prop := same module_tables.

Ltac module_bind := apply (wp_bind_pres module_kept); [unfold module_kept; frame| |done].

(** What a result makes of the operation: running until its last step has
    succeeded, and ended with the step that did not succeed. *)
Definition module_outcome (status : command_status) (last_step : bool) (error : option string)
    (at_ : datetime) (o : EndpointOperation) : EndpointOperation :=
  if decide (status = succeeded)
  then if last_step then finish_operation succeeded at_ o else o <| op_status := running |>
  else finish_operation status at_ o <| op_error_code := error |>.

(** A success keeps its validated payload; anything else only an error code. *)
Definition safe_payload_of (status : command_status) (safe : option json) (error : option string)
    : Prop :=
  if decide (status = succeeded) then is_some safe = true ∧ error = None
  else safe = None ∧ is_some error = true.

Lemma safe_module_step_result_spec s result w :
  wp (_safe_module_step_result s result) (λ r w', w' = w ∧
    match r with
    | Ok (safe, error) => safe_payload_of (result_status result) safe error
    | Exn _ => True
    end) w.
Proof.
  unfold _safe_module_step_result, safe_payload_of. wp_step.
  destruct (result_status result), (result_items result) as [|item [|? ?]]; repeat wp_step;
    (split; [done|]); by rewrite ?decide_True, ?decide_False by done.
Qed.

Lemma create_operation_evidence_spec id kind payload at_ w :
  wp (create_operation_evidence id kind payload at_) (λ r w',
    match r with
    | Ok e => endpoint_operations (db w') = endpoint_operations (db w)
              ∧ endpoint_operation_steps (db w') = endpoint_operation_steps (db w)
              ∧ ∃ x, operation_evidence (db w') = <[e := x]> (operation_evidence (db w))
                     ∧ evd_operation_id x = id ∧ evd_safe_payload x = Some payload
    | Exn _ => True
    end) w.
Proof.
  unfold create_operation_evidence, evidence_utc. repeat wp_step.
  all: split_and!; try done; eexists; split; [reflexivity|done].
Qed.

Definition evidence_added (d d' : DB) (id : uuid) : Prop :=
  ∃ e x, operation_evidence d' = <[e := x]> (operation_evidence d)
         ∧ evd_operation_id x = id ∧ is_some (evd_safe_payload x) = true.

Lemma advance_module_operation_spec id o s n at_ w :
  endpoint_operations (db w) !! id = Some o →
  wp (advance_module_operation id o s n at_) (λ r w',
    match r with
    | Ok _ =>
        endpoint_operation_steps (db w') = endpoint_operation_steps (db w)
        ∧ endpoint_operations (db w')
          = <[id := module_outcome succeeded (step_sequence s =? n - 1) None at_ o]>
              (endpoint_operations (db w))
        ∧ (if step_sequence s =? n - 1 then evidence_added (db w) (db w') id
           else operation_evidence (db w') = operation_evidence (db w))
    | Exn _ => True
    end) w.
Proof.
  intros Ho. unfold advance_module_operation, module_outcome. rewrite decide_True by done.
  destruct (_ =? _); wp_step.
  - module_bind. intros _ w1 [= E1 F1 G1]. wp_step.
    apply wp_bind. eapply wp_mono; [apply create_operation_evidence_spec|].
    intros [e|x] w2 Hw2; wp_k; [|done]. destruct Hw2 as (E2 & F2 & x & G2 & Hx & Hp).
    eapply (wp_pres module_kept); [unfold module_kept; frame|]. intros [[]|?] w3 [= E3 F3 G3]; [|done].
    unfold with_table in *; simpl in *. split_and!.
    + congruence.
    + rewrite E3, E2, E1. by apply alter_stored.
    + exists e, x. rewrite G3, G2, G1. split_and!; [done..|]. by rewrite Hp.
  - split_and!; [done| |done]. simpl. by apply alter_stored.
Qed.

(** What the first result of a step leaves behind. *)
Definition module_result_stored (d d' : DB) (sid : uuid) (s : ModuleOperationStep) (id : uuid)
    (o : EndpointOperation) (count : Z) (result : AgentResultV1) (at_ : datetime) : Prop :=
  let status := result_status result in
  let last_step := step_sequence s =? count - 1 in
  ∃ safe error,
    safe_payload_of status safe error
    ∧ endpoint_operation_steps d' = <[sid := finish_step status safe error at_ s]>
                                      (endpoint_operation_steps d)
    ∧ endpoint_operations d' = <[id := module_outcome status last_step error at_ o]>
                                 (endpoint_operations d)
    ∧ (if decide (status = succeeded) then
         if last_step then evidence_added d d' id else operation_evidence d' = operation_evidence d
       else operation_evidence d' = operation_evidence d).

Lemma finish_module_step_spec s id o count instance n status safe error at_ w :
  endpoint_operations (db w) !! id = Some o →
  wp ((if decide (status = succeeded)
       then advance_module_operation id o (finish_step status safe error at_ s) count at_
       else
         let fail (o : EndpointOperation) :=
           finish_operation status at_ o <| op_error_code := error |> in
         update id fail ;;
         _append_module_terminal_audit id (fail o) (finish_step status safe error at_ s) at_) ;;
      advance_result_sequence instance n) (λ r w',
    match r with
    | Ok _ =>
        endpoint_operation_steps (db w') = endpoint_operation_steps (db w)
        ∧ endpoint_operations (db w')
          = <[id := module_outcome status (step_sequence s =? count - 1) error at_ o]>
              (endpoint_operations (db w))
        ∧ (if decide (status = succeeded) then
             if step_sequence s =? count - 1 then evidence_added (db w) (db w') id
             else operation_evidence (db w') = operation_evidence (db w)
           else operation_evidence (db w') = operation_evidence (db w))
    | Exn _ => True
    end) w.
Proof.
  intros Ho. destruct (decide (status = succeeded)) as [->|Hne].
  - apply wp_bind. eapply wp_mono; [by apply advance_module_operation_spec|].
    intros [[]|e] w1 Hw1; wp_k; [|done]. simpl in *. destruct Hw1 as (E1 & F1 & G1).
    eapply (wp_pres module_kept); [unfold module_kept; frame|]. intros [[]|?] w2 [= E2 F2 G2]; [|done].
    unfold evidence_added, module_outcome in *. rewrite decide_True in * by done.
    rewrite E2, F2, G2. by split_and!.
  - cbv zeta. apply wp_bind. wp_step.
    eapply (wp_pres module_kept); [unfold module_kept; frame|]. intros [[]|?] w1 [= E1 F1 G1]; wp_k; [|done].
    eapply (wp_pres module_kept); [unfold module_kept; frame|]. intros [[]|?] w2 [= E2 F2 G2]; [|done].
    unfold module_outcome. rewrite decide_False by done. rewrite E2, F2, G2, E1, F1, G1.
    split_and!; [done| |done]. simpl. by rewrite (alter_stored _ id o) by done.
Qed.

(** The steps of an operation are numbered 0 to [count - 1]. *)
Definition steps_complete (d : DB) (id : uuid) (count : Z) : Prop :=
  ∀ k, 0 <= k < count ↔ ∃ tid t, endpoint_operation_steps d !! tid = Some t
                                 ∧ step_operation_id t = id ∧ step_sequence t = k.

Lemma require_step_set_spec id o w :
  wp (_require_authoritative_module_step_set id o) (λ r w', w' = w ∧
    match r with
    | Ok count => op_expected_step_count o = Some count ∧ 1 <= count <= 8
                  ∧ steps_complete (db w) id count
    | Exn _ => True
    end) w.
Proof.
  unfold _require_authoritative_module_step_set. repeat wp_step. propify. split; [done|].
  split; [done|]. split; [done|]. intros k. unfold range in *.
  match goal with E : order_by _ _ = seqZ _ _ |- _ => pose proof (elem_of_order_by Z.leb k
    (map (λ s : uuid * ModuleOperationStep, step_sequence s.2) l)) as Hk; rewrite E in Hk end.
  rewrite elem_of_seqZ, list_elem_of_fmap in Hk. rewrite Z.add_0_l in Hk. rewrite Hk. split.
  - intros ([tid t] & -> & Hin). apply H2 in Hin as [Ht Hid]. propify. eauto.
  - intros (tid & t & Ht & Hid & <-). exists (tid, t). split; [done|]. apply H2.
    split; [done|]. by apply Z.eqb_eq.
Qed.

(** The first result of a module step is accepted only while command, step
    and operation are in flight, before the operation's deadline and with
    exactly its expected number of steps stored.  It ends the step with the
    reported status, keeping a validated payload only for a success; it ends
    the operation with that status unless it is a success of a step that is
    not the last, which leaves the operation running; and evidence is kept
    exactly when the last step has succeeded. *)
Theorem module_results_advance_the_operation cid c d sid s id o instance session_id n result
    digest w :
  endpoint_operation_steps (db w) !! sid = Some s → endpoint_operations (db w) !! id = Some o →
  (∀ i r, command_results (db w) !! i = Some r → res_result_identifier r ≠ result_identifier cid) →
  wp (_record_module_step_result cid c d sid s id o instance session_id n result digest) (λ r w',
    match r with
    | Ok _ => ∃ count at_,
        op_expected_step_count o = Some count ∧ steps_complete (db w) id count
        ∧ in_flight (cmd_status c) = true ∧ in_flight (step_status s) = true
        ∧ in_flight (op_status o) = true
        ∧ instant at_ < instant (op_deadline_at o)
        ∧ module_result_stored (db w) (db w') sid s id o count result at_
    | Exn _ => True
    end) w.
Proof.
  intros Hs Ho Hnone. unfold _record_module_step_result.
  apply wp_bind. eapply wp_mono; [apply require_step_set_spec|].
  intros [count|e] w1 [-> Hcount]; wp_k; [|done]. destruct Hcount as (Hcount & _ & Hset). wp_step.
  { exfalso. apply (Hnone id0 r); [done|]. by propify. }
  do 2 wp_step. propify. wp_step.
  match goal with |- wp _ _ ?x => set (w1 := x) end. wp_step.
  apply wp_bind. eapply wp_mono; [apply safe_module_step_result_spec|].
  intros [[safe error]|e] w2 [-> Hsafe]; wp_k; [|done]. do 5 wp_step.
  eapply wp_mono; [apply finish_module_step_spec with (o := o); exact Ho|].
  intros [[]|e] w3 Hw3; [|done]. destruct Hw3 as (E3 & F3 & G3).
  exists count, (utc_datetime (clock w (ticks w))). split_and!; try done.
  - propify. unfold timely in H5. propify. unfold dt_leb in *. rewrite instant_as_utc in *. by propify.
  - exists safe, error. split; [done|]. simpl in E3. rewrite E3. split; [by apply alter_stored|].
    split; [exact F3|exact G3].
Qed.

(** ** Results of diagnostic operations *)

Definition diagnostic_outcome (status : command_status) (at_ : datetime) (code : option string)
    (o : EndpointOperation) : EndpointOperation :=
  if decide (status = succeeded) then finish_operation status at_ o
  else finish_operation status at_ o <| op_error_code := code |>.

Lemma finish_context_operation_spec id o status at_ code w :
  endpoint_operations (db w) !! id = Some o →
  wp (finish_context_operation id o status at_ code) (λ r w',
    match r with
    | Ok _ =>
        endpoint_operations (db w')
          = <[id := diagnostic_outcome status at_ code o]> (endpoint_operations (db w))
        ∧ (if decide (status = succeeded) then evidence_added (db w) (db w') id
           else operation_evidence (db w') = operation_evidence (db w))
    | Exn _ => True
    end) w.
Proof.
  intros Ho. unfold finish_context_operation, diagnostic_outcome. wp_step.
  apply wp_bind, wp_when; intros Hs; propify.
  - apply (wp_bind_pres unmoved); [frame| |done]. intros snapshot w1 ->.
    apply (wp_bind_pres unmoved); [frame| |done]. intros safe w1 ->.
    apply wp_bind. eapply wp_mono; [apply create_operation_evidence_spec|].
    intros [e|x] w2 Hw2; wp_k; [|done]. destruct Hw2 as (E2 & _ & x & G2 & Hx & Hp). wp_step.
    eapply (wp_pres module_kept); [unfold module_kept; frame|]. intros [[]|?] w3 [= E3 F3 G3]; [|done].
    rewrite !(decide_True _ _ Hs). split.
    + rewrite E3, E2. simpl. by rewrite (alter_stored _ id o), !decide_True by done.
    + exists e, x. rewrite G3, G2. split_and!; [done..|]. by rewrite Hp.
  - eapply (wp_pres module_kept); [unfold module_kept; frame|]. intros [[]|?] w3 [= E3 F3 G3]; [|done].
    rewrite E3, G3, !(decide_False _ _ Hs). split; [|done].
    simpl. by rewrite (alter_stored _ id o), !decide_False by done.
Qed.

(** The first result of a diagnostic operation is accepted only on the
    session its delivery belongs to, while command and operation are in
    flight and before the deadline.  It ends the operation with the reported
    status at the time of acceptance, changes no other operation, and keeps
    evidence with a safe payload exactly when the status is succeeded. *)
Theorem results_end_their_operation cid c d coll id o session_id n result digest w :
  endpoint_operations (db w) !! id = Some o →
  wp (store_first_result cid c d coll (Some (id, o)) session_id n result digest) (λ r w',
    match r with
    | Ok _ => ∃ at_ code,
        (∃ did dl, d = Some (did, dl) ∧ dlv_device_session_id dl = Some session_id)
        ∧ in_flight (cmd_status c) = true ∧ in_flight (op_status o) = true
        ∧ instant at_ < instant (op_deadline_at o)
        ∧ endpoint_operations (db w')
          = <[id := diagnostic_outcome (result_status result) at_ code o]>
              (endpoint_operations (db w))
        ∧ (if decide (result_status result = succeeded) then evidence_added (db w) (db w') id
           else operation_evidence (db w') = operation_evidence (db w))
    | Exn _ => True
    end) w.
Proof.
  intros Ho. unfold store_first_result, accept_operation_result.
  do 2 wp_step.
  match goal with |- wp _ _ ?x => set (w0 := x) end. wp_step.
  apply wp_bind. apply (wp_pres unmoved); [frame|]. intros [safe|e] w1 ->; wp_k; [|done]. wp_step.
  module_bind. intros rid w1 [= E1 F1 G1]. module_bind. intros [] w2 [= E2 F2 G2].
  module_bind. intros [] w3 [= E3 F3 G3]. module_bind. intros ingested w4 [= E4 F4 G4].
  module_bind. intros [] w5 [= E5 F5 G5]. module_bind. intros [] w6 [= E6 F6 G6].
  eapply wp_mono; [apply finish_context_operation_spec with (o := o); rewrite E6, E5, E4, E3, E2, E1; exact Ho|].
  intros [[]|e] w7 Hw7; [|done]. destruct Hw7 as [E7 G7].
  propify. destruct d as [[did dl]|]; [|discriminate]. propify.
  eexists (utc_datetime (clock w (ticks w))), _. split_and!; try done.
  - by eexists _, _.
  - unfold timely in H1. propify. unfold dt_leb in *. rewrite instant_as_utc in *. by propify.
  - rewrite E7, E6, E5, E4, E3, E2, E1. done.
  - unfold evidence_added in *. rewrite G6, G5, G4, G3, G2, G1 in G7. exact G7.
Qed.
End gateway.

(** ** Runs *)

Section demo.
#[local] Existing Instance demo_contracts.

(** The second step of the demo operation is sent, and only that one. *)
Lemma module_steps_are_sent_in_order_witness :
  (step_status <$> endpoint_operation_steps
     (db (_next_pending_module_command 1 None None demo_module_start).2) !! 52) = Some delivered
  ∧ first_delivery (db demo_module_start) (demo_module_step 1 queued None None)
      (demo_module_step 1 delivered (Some 100) None).
Proof.
  split; [vm_compute; reflexivity|].
  pose proof (module_steps_are_sent_in_order 1 None None demo_module_start eq_refl) as Hw.
  rewrite wp_unfold in Hw.
  apply (Hw 52 (demo_module_step 1 queued None None)
           (demo_module_step 1 delivered (Some 100) None)); [vm_compute; reflexivity..|discriminate].
Defined.

Lemma commands_are_sent_once_per_session_witness :
  is_some (match (deliver_next 1 3 None None demo_module_start).1 with
           | Ok p => p | Exn _ => None end) = true
  ∧ wp (deliver_next 1 3 None None) (λ r w',
      match r with
      | Ok None => ∀ did, is_some (session_of (committed demo_module_delivered) did) = true →
          session_of (committed w') did = session_of (committed demo_module_delivered) did
      | _ => True
      end) demo_module_delivered.
Proof.
  split; [vm_compute; reflexivity|].
  eapply wp_mono; [apply (commands_are_sent_once_per_session 1 3 None None demo_module_delivered)|].
  - intros id v Hid. assert ((id, v) ∈ map_to_list (command_deliveries (committed demo_module_delivered)))
      as Hin by by apply elem_of_map_to_list.
    vm_compute in Hin. apply list_elem_of_singleton in Hin. injection Hin as -> ->. done.
  - by intros [[p|]|e] w'.
Defined.

Lemma module_results_advance_the_operation_witness :
  (op_status <$> endpoint_operations
     (committed (record_result 1 2 3 7 demo_module_answer demo_module_delivered).2) !! 50)
    = Some succeeded
  ∧ ∃ c dl, wp (_record_module_step_result 100 c (Some (101, dl)) 52
      (demo_module_step 1 delivered (Some 100) None) 50
      (demo_module_operation <| op_status := delivered |>) 2 3 7 demo_module_answer "digest")
    (λ r _, match r with Ok _ => in_flight (cmd_status c) = true | Exn _ => True end)
    demo_module_delivered.
Proof.
  split; [vm_compute; reflexivity|].
  assert (is_some (commands (db demo_module_delivered) !! 100) = true
    ∧ is_some (command_deliveries (db demo_module_delivered) !! 101) = true) as [Hc Hd]
    by (split; vm_compute; reflexivity).
  destruct (commands _ !! 100) as [c|]; [|done]. destruct (command_deliveries _ !! 101) as [dl|]; [|done].
  exists c, dl. eapply wp_mono;
    [apply (module_results_advance_the_operation 100 c (Some (101, dl)) 52
       (demo_module_step 1 delivered (Some 100) None) 50
       (demo_module_operation <| op_status := delivered |>)); [vm_compute; reflexivity..|]|].
  - intros i r Hr. assert (command_results (db demo_module_delivered) = ∅) as E by (vm_compute; reflexivity).
    by rewrite E, lookup_empty in Hr.
  - intros [[]|e] w' Hw; [|done]. by destruct Hw as (count & at_ & _ & _ & Hc' & _).
Defined.

Lemma results_end_their_operation_witness :
  (op_status <$> endpoint_operations (committed demo_ended) !! demo_operation) = Some failed
  ∧ ∃ c dl o, op_status o = delivered
    ∧ wp (store_first_result demo_command c (Some (105, dl)) None (Some (demo_operation, o)) 3 7
            (demo_answer failed) "digest")
        (λ r w', match r with
           | Ok _ => operation_evidence (db w') = operation_evidence (db demo_delivered)
           | Exn _ => True end) demo_delivered.
Proof.
  split; [vm_compute; reflexivity|].
  destruct (commands (db demo_delivered) !! demo_command) as [c|] eqn:Hc;
    [|vm_compute in Hc; discriminate Hc].
  destruct (endpoint_operations (db demo_delivered) !! demo_operation) as [o|] eqn:Ho;
    [|vm_compute in Ho; discriminate Ho].
  exists c, (new_delivery demo_command), o. split; [vm_compute in Ho; by injection Ho as <-|].
  eapply wp_mono; [apply (results_end_their_operation _ c _ _ _ o _ _ _ _ _ Ho)|].
  intros [[]|e] w' Hw; [|done]. by destruct Hw as (at_ & code & _ & _ & _ & _ & _ & He).
Defined.
End demo.
