(* ===== verification/OperationsSpecs.v ===== *)
(** * The operations service: what each request does

    Creation under an idempotency key, cancellation before delivery and the
    bounded expiry of overdue operations. *)

From S2P Require Import Prelude Store Session AuditLog Frames Operations.

(** The tables the service works on, and their frame. *)
Definition operation_tables (w : World) :=
  (endpoint_operations (db w), context_collections (db w), commands (db w), devices (db w),
   service_clients (db w)).
Definition operations_kept : World → World → Prop := same operation_tables.

Ltac operations_bind := apply (wp_bind_pres operations_kept); [unfold operations_kept; frame| |done].

(** ** Creation *)

Definition operation_created (d d' : DB) (request : EndpointOperationCreateV1)
    (client device : uuid) (key : string) (id : uuid) : Prop :=
  (∀ i o, endpoint_operations d !! i = Some o → owns_key client key i o = false)
  ∧ (∃ dev, devices d !! device = Some dev ∧ dev_retired_at dev = None)
  ∧ ∃ o cid c,
      endpoint_operations d' = <[id := o]> (endpoint_operations d)
      ∧ context_collections d' = <[cid := c]> (context_collections d)
      ∧ owns_key client key id o = true ∧ op_device_id o = device
      ∧ op_capability o = request_capability request
      ∧ op_parameters o = JObj [("reason", JStr (request_reason request))]
      ∧ op_status o = queued ∧ op_command_id o = None ∧ op_completed_at o = None
      ∧ instant (op_deadline_at o) = instant (op_created_at o) + minutes 15
      ∧ op_context_collection_id o = Some cid ∧ col_operation_id c = Some id
      ∧ col_device_id c = device ∧ col_status c = c_requested ∧ col_command_id c = None
      ∧ col_expires_at c = Some (op_deadline_at o)
      ∧ assoc (op_capability o) CAPABILITY_PROFILES = Some (col_profile c).

(** The stored operation of an idempotency key that a repeated request finds. *)
Definition operation_replayed (d d' : DB) (request : EndpointOperationCreateV1)
    (client device : uuid) (key : string) (id : uuid) : Prop :=
  (∃ o, endpoint_operations d !! id = Some o ∧ owns_key client key id o = true
        ∧ op_device_id o = device ∧ op_capability o = request_capability request
        ∧ json_eqb (op_parameters o) (JObj [("reason", JStr (request_reason request))]) = true)
  ∧ endpoint_operations d' = endpoint_operations d
  ∧ context_collections d' = context_collections d ∧ commands d' = commands d.

Lemma create_operation_committed request client device key now :
  keeps committed (create_operation_outcome request client device key now).
Proof. frame. Qed.

(** C18: creating an operation under a client's idempotency key either finds no
    earlier operation with that key, and then adds exactly one queued operation
    for the active device, due in fifteen minutes, together with the one
    requested collection it is linked to and shares its deadline with; or it
    finds an operation with the same device, capability and parameters, and
    then returns that one and changes no operation, collection or command.  A
    key that owns a different request is refused, and a refused request commits
    nothing. *)
Theorem operations_are_created_once_per_key req client device key now w :
  wp (request (create_operation_outcome req client device key now)) (λ r w',
    match r with
    | Ok (id, true) => operation_created (committed w) (committed w') req client device key id
    | Ok (id, false) => operation_replayed (committed w) (committed w') req client device key id
    | Exn _ => committed w' = committed w
    end) w.
Proof.
  apply wp_request_ok; [apply create_operation_committed|done|].
  change (w <| db := committed w |>) with (stored w).
  unfold create_operation_outcome, _idempotency_key, _normalized_request, profile_for_capability, _now.
  do 3 wp_step. operations_bind. intros at_ w1 [= E1 C1 M1 D1 S1]. 
  do 2 wp_step. wp_step.
  - wp_step. operations_bind. intros _ w2 [= E2 C2 M2 D2 S2]. do 2 wp_step. intros _. propify. cbn in *.
    rewrite E1 in *. split; [|simpl; split_and!; congruence]. eexists. split_and!; eauto.
  - do 6 wp_step. operations_bind. intros _ w2 [= E2 C2 M2 D2 S2]. do 2 wp_step. intros _.
    cbn in *. rewrite E1 in *. split; [done|]. propify. 
    split. { exists r. rewrite <- D1. subst. split; [done|]. by destruct (dev_retired_at r). }
    eexists _, _, _. rewrite E2, C2, C1. split_and!; try done; simpl.
    + unfold owns_key; simpl. by rewrite Z.eqb_refl, bool_decide_true.
    + by rewrite instant_dt_add.
Qed.

(** ** Cancellation *)

Definition cancel_row (at_ : datetime) (o : EndpointOperation) : EndpointOperation :=
  o <| op_status := canceled |> <| op_completed_at := Some at_ |>.

Definition cancel_collection (at_ : datetime) (c : ContextCollection) : ContextCollection :=
  c <| col_status := c_expired |> <| col_failed_at := Some at_ |>
    <| col_failure_code := Some "operation_canceled" |>.

(** A queued operation and its undelivered collection are closed together. *)
Definition operation_canceled (d d' : DB) (id : uuid) (o : EndpointOperation) : Prop :=
  op_status o = queued ∧ op_command_id o = None
  ∧ ∃ at_ cid c,
      context_collections d !! cid = Some c ∧ op_context_collection_id o = Some cid
      ∧ col_operation_id c = Some id ∧ col_status c = c_requested ∧ col_command_id c = None
      ∧ endpoint_operations d' = <[id := cancel_row at_ o]> (endpoint_operations d)
      ∧ context_collections d' = <[cid := cancel_collection at_ c]> (context_collections d)
      ∧ commands d' = commands d.

Lemma cancel_queued_operation_spec id o at_ kind ident w :
  endpoint_operations (db w) !! id = Some o →
  wp (_cancel_queued_operation id o at_ kind ident) (λ r w',
    match r with
    | Ok id' => id' = id ∧ ((op_status o = canceled ∧ w' = w)
                            ∨ operation_canceled (db w) (db w') id o)
    | Exn _ => True
    end) w.
Proof.
  intros Ho. unfold _cancel_queued_operation. destruct (decide _) as [Hc|Hc].
  { wp_step. split; [done|by left]. }
  do 6 wp_step. operations_bind. intros _ w2 [= E2 C2 M2 _ _].
  do 2 wp_step. split; [done|]. right. cbn in *. propify. split; [done|].
  split; [by destruct (op_command_id o)|].
  exists at_, id0, r. rewrite E2, C2, M2. split_and!; try done.
  - by destruct (col_command_id r).
  - by apply alter_stored.
  - by apply alter_stored.
Qed.

(** A service cancels only its own operation, and only while it is queued:
    no command exists and its collection has not been delivered; both rows are
    closed together and no command is touched.  Cancelling a canceled operation
    again changes nothing, and a refused cancellation commits nothing. *)
Theorem only_queued_operations_are_canceled id client now w :
  wp (request (cancel_operation_for_service id client now)) (λ r w',
    match r with
    | Ok id' => id' = id ∧ ∃ o,
        endpoint_operations (committed w) !! id = Some o
        ∧ op_requested_by_service_client_id o = client
        ∧ ((op_status o = canceled ∧ committed w' = committed w)
           ∨ operation_canceled (committed w) (committed w') id o)
    | Exn _ => committed w' = committed w
    end) w.
Proof.
  apply wp_request_ok; [frame|done|]. change (w <| db := committed w |>) with (stored w).
  unfold cancel_operation_for_service, _now, owned_operation.
  apply wp_bind. eapply (wp_mono _ (λ _ w', db w' = db (stored w))).
  { unfold now_or. destruct now; repeat wp_step. }
  intros [at_|e] w1 E1; wp_k; [|done]. do 4 wp_step. propify. subst.
  eapply wp_mono; [by apply cancel_queued_operation_spec|].
  intros [id'|e] w2; [|done]. intros [-> Hr] _. split; [done|]. exists r.
  rewrite E1 in *. split_and!; try done. destruct Hr as [[Hc ->]|Hr]; [|by right].
  left. by rewrite E1.
Qed.

(** ** Expiry *)

(** The overdue active operations of a database. *)
Definition is_due (at_ : datetime) (o : EndpointOperation) : bool :=
  in_set (op_status o) _ACTIVE_STATUSES && dt_leb (op_deadline_at o) at_.

Definition ops_table (w : World) := endpoint_operations (db w).

Lemma expire_operation_if_due_spec id o at_ w :
  is_aware at_ = true → is_due at_ o = true → endpoint_operations (db w) !! id = Some o →
  wp (expire_operation_if_due id o (Some at_) None) (λ r w',
    match r with
    | Ok _ => endpoint_operations (db w')
              = <[id := expire_operation (as_utc at_) o]> (endpoint_operations (db w))
    | Exn _ => True
    end) w.
Proof.
  intros Ha Hd Ho. unfold expire_operation_if_due, _now, now_or. do 3 wp_step.
  unfold is_due in Hd. propify.
  match goal with |- context [in_set ?a ?b] => assert (in_set a b = true) as -> by done end.
  assert (dt_ltb (as_utc at_) (_stored_utc (op_deadline_at o)) = false) as ->.
  { unfold dt_ltb, dt_leb, _stored_utc in *. rewrite !instant_as_utc. lia. }
  simpl. destruct (decide _).
  - unfold expire_module_operation. do 4 wp_step.
    eapply (wp_pres (same ops_table)); [frame|]. intros [b|x] w1 E1; [|done].
    unfold same, ops_table in E1. rewrite E1. by apply alter_stored.
  - unfold expire_collection_operation. wp_step.
    eapply (wp_pres (same ops_table)); [frame|]. intros [b|x] w1 E1; [|done].
    unfold same, ops_table in E1. rewrite E1. by apply alter_stored.
Qed.

(** The rows of [l] are expired and the others kept. *)
Definition rows_expired (at_ : datetime) (l : list (uuid * EndpointOperation))
    (m m' : gmap uuid EndpointOperation) : Prop :=
  (∀ id o, (id, o) ∈ l → m' !! id = Some (expire_operation at_ o))
  ∧ ∀ id, id ∉ l.*1 → m' !! id = m !! id.

Lemma expire_loop_spec at_ l w :
  is_aware at_ = true → NoDup l.*1 →
  (∀ id o, (id, o) ∈ l → endpoint_operations (db w) !! id = Some o ∧ is_due at_ o = true) →
  wp (for_each l (λ operation : uuid * EndpointOperation,
        expire_operation_if_due operation.1 operation.2 (Some at_) None ;; mret tt)) (λ r w',
    match r with
    | Ok _ => rows_expired (as_utc at_) l (endpoint_operations (db w)) (endpoint_operations (db w'))
    | Exn _ => True
    end) w.
Proof.
  intros Ha. revert w. induction l as [|[id o] l IH]; intros w Hnd Hl; simpl.
  { wp_step. split; [|done]. intros id o []%elem_of_nil. }
  apply NoDup_cons in Hnd as [Hid Hnd]. destruct (Hl id o) as [Ho Hd]; [left|].
  apply wp_bind, wp_bind. eapply wp_mono; [by apply expire_operation_if_due_spec|].
  intros [b|e] w1 E1; wp_k; [|done]. wp_step. wp_k.
  assert (∀ j p, (j, p) ∈ l → id ≠ j) as Hne.
  { intros j p Hj ->. apply Hid, list_elem_of_fmap. by exists (j, p). }
  eapply wp_mono; [apply IH; [done|]|].
  { intros j p Hj. destruct (Hl j p) as [Hp Hdp]; [by right|]. split; [|done].
    rewrite E1, lookup_insert_ne; [done|]. by eapply Hne. }
  intros [[]|e] w2; [|done]. intros [Hin Hout]. rewrite E1 in Hout. split.
  - intros j p [[= -> ->]|Hj]%elem_of_cons; [|by apply Hin].
    rewrite Hout by done. by rewrite lookup_insert_eq.
  - intros j Hj. simpl in Hj. apply not_elem_of_cons in Hj as [Hji Hj].
    rewrite Hout by done. by rewrite lookup_insert_ne.
Qed.

Lemma deadline_sorted l :
  StronglySorted (λ a b : uuid * EndpointOperation,
    instant (op_deadline_at a.2) <= instant (op_deadline_at b.2)) (order_by deadline_order l).
Proof.
  eapply StronglySorted_impl; [|apply order_by_sorted].
  - intros a b. unfold bool_rel, deadline_order, lex_leb; simpl. lia.
  - intros a b c. apply lex_leb_trans.
  - intros a b. apply lex_leb_total.
Qed.

(** A successful expiry run handles at most [limit] operations (one to a
    hundred), all of them active and overdue: each one ends as expired with the
    error code operation_expired, every other operation keeps its row, nothing
    overdue is left when fewer than [limit] were found, and none that was left
    has an earlier deadline than one that was handled.  A run that raises
    commits nothing. *)
Theorem overdue_operations_expire_oldest_first now limit w :
  wp (request (expire_operations now limit)) (λ r w',
    match r with
    | Ok n => ∃ at_ l,
        1 <= limit <= 100 ∧ n = Z.of_nat (length l) ∧ n <= limit ∧ NoDup l.*1
        ∧ (∀ id o, (id, o) ∈ l →
             endpoint_operations (committed w) !! id = Some o ∧ is_due at_ o = true)
        ∧ rows_expired at_ l (endpoint_operations (committed w)) (endpoint_operations (committed w'))
        ∧ (∀ id o, endpoint_operations (committed w) !! id = Some o → is_due at_ o = true →
             (id, o) ∈ l ∨ (n = limit ∧ ∀ j p, (j, p) ∈ l →
                              instant (op_deadline_at p) <= instant (op_deadline_at o)))
    | Exn _ => committed w' = committed w
    end) w.
Proof.
  apply wp_request_ok; [frame|done|]. change (w <| db := committed w |>) with (stored w).
  unfold expire_operations. wp_step.
  apply wp_bind. eapply (wp_mono _ (λ r w', db w' = db (stored w) ∧
    match r with Ok t => is_aware t = true ∧ as_utc t = t | Exn _ => True end)).
  { unfold _now, now_or. destruct now; repeat wp_step; split; [done| |done|];
      (split; [done|apply as_utc_idem]). }
  intros [at_|e] w1 [E1 Hat]; wp_k; [|done]. destruct Hat as [Ha Hidem].
  unfold due_operations. do 2 wp_step. cbv zeta.
  set (k := order_by deadline_order l). set (ops := take (Z.to_nat limit) k).
  assert (∀ id o, (id, o) ∈ k ↔ endpoint_operations (committed w) !! id = Some o ∧ is_due at_ o = true)
    as Hk.
  { intros id o. unfold k. rewrite elem_of_order_by, H1. cbn. by rewrite E1. }
  assert (NoDup ops.*1) as Hnd.
  { unfold ops. rewrite fmap_take. eapply sublist_NoDup; [|apply sublist_take].
    unfold k. by rewrite order_by_Permutation. }
  assert (∀ id o, (id, o) ∈ ops → (id, o) ∈ k) as Hops by (intros id o; apply subseteq_take).
  apply wp_bind. eapply wp_mono; [apply (expire_loop_spec at_ ops); [done|done|]|].
  { intros id o Hin. rewrite E1. by apply Hk, Hops. }
  intros [[]|e] w2 Hrows; wp_k; [|done]. wp_step. intros _. propify.
  rewrite E1, Hidem in Hrows.
  assert (Z.of_nat (length ops) <= limit) by (unfold ops; rewrite length_take; lia).
  exists at_, ops. split_and!; try done.
  - intros id o Hin. by apply Hk, Hops.
  - intros id o Hid Hd. destruct (decide (Z.of_nat (length ops) = limit)) as [Hlen|Hlen].
    + assert ((id, o) ∈ k) as Hin by by apply Hk.
      rewrite <- (take_drop (Z.to_nat limit) k) in Hin.
      apply elem_of_app in Hin as [Hin|Hin]; [by left|right]. split; [done|].
      intros j p Hj. by apply (sorted_take_drop _ _ _ _ _ (deadline_sorted l) Hj Hin).
    + left. unfold ops. rewrite take_ge; [by apply Hk|]. unfold ops in *. rewrite length_take in *. lia.
Qed.
