(* ===== verification/ContextSpecs.v ===== *)
(** * Device context: what the collections guarantee

    Idempotent requests, the exactly-once ingestion of results, the monotone
    current pointer and the expiry of overdue collections. *)

From S2P Require Import Prelude Store Session AuditLog Frames Contracts Canonical Context.

(** ** Requests *)

(** A collection is requested once per device, profile, requester and
    idempotency key: a repeated request returns the stored collection and
    commits nothing new; a first one adds exactly one requested collection, not
    owned by an operation and without a command, for an existing device and a
    known profile.  A refused request commits nothing. *)
Theorem collections_are_requested_once device profile by_ key now w :
  wp (request (request_collection_outcome device profile by_ key now)) (λ r w',
    match r with
    | Ok (id, false) => committed w' = committed w
        ∧ ∃ c, context_collections (committed w) !! id = Some c
               ∧ same_request device profile by_ key id c = true
    | Ok (id, true) =>
        (∀ i c, context_collections (committed w) !! i = Some c →
           same_request device profile by_ key i c = false)
        ∧ profile ∈ PROFILES ∧ is_some (devices (committed w) !! device) = true
        ∧ ∃ c, context_collections (committed w')
               = <[id := c]> (context_collections (committed w))
             ∧ same_request device profile by_ key id c = true
             ∧ col_status c = c_requested ∧ col_operation_id c = None ∧ col_command_id c = None
             ∧ col_command_result_id c = None
    | Exn _ => committed w' = committed w
    end) w.
Proof.
  apply wp_request_ok; [frame|done|]. change (w <| db := committed w |>) with (stored w).
  unfold request_collection_outcome, require_profile. do 4 wp_step. do 2 wp_step.
  - wp_step. intros _. eauto.
  - wp_step. apply wp_bind.
    eapply (wp_mono _ (λ _ w', db w' = db (stored w))).
    { unfold _now, now_or. destruct now; repeat wp_step. }
    intros [at_|e] w1 E1; wp_k; [|done]. do 3 wp_step. intros _. cbn in *. rewrite E1.
    split; [done|]. split.
    { unfold str_in in *. propify. done. }
    split; [by destruct (devices _ !! device)|].
    eexists. split_and!; try done. unfold same_request; simpl.
    by rewrite Z.eqb_refl, !bool_decide_true.
Qed.

(** ** Expiry *)

(** A command that expires with an overdue collection of the device. *)
Definition command_expires (device : uuid) (linked : uuid → Prop) (id : uuid) (c c' : Command) : Prop :=
  c' = c ∨ (c' = c <| cmd_status := expired |> ∧ unfinished (cmd_status c) = true
            ∧ cmd_device_id c = device ∧ linked id).

(** The commands before and after: only linked, unfinished ones expire. *)
Definition commands_expire (device : uuid) (linked : uuid → Prop) (w w' : World) : Prop :=
  ∀ id c, commands (db w) !! id = Some c →
    ∃ c', commands (db w') !! id = Some c' ∧ command_expires device linked id c c'.

Lemma commands_expire_refl device linked w : commands_expire device linked w w.
Proof. intros id c Hc. exists c. split; [done|by left]. Qed.

Lemma commands_expire_trans device linked w1 w2 w3 :
  commands_expire device linked w1 w2 → commands_expire device linked w2 w3 →
  commands_expire device linked w1 w3.
Proof.
  intros H12 H23 id c Hc. destruct (H12 id c Hc) as (c2 & Hc2 & K2).
  destruct (H23 id c2 Hc2) as (c3 & Hc3 & K3). exists c3. split; [done|].
  destruct K2 as [->|(-> & Hu & Hd & Hl)]; [done|]. destruct K3 as [->|(-> & Hu' & _)]; [|done].
  right. by split_and!.
Qed.

Definition collections_kept (w w' : World) : Prop :=
  context_collections (db w') = context_collections (db w)
  ∧ endpoint_operations (db w') = endpoint_operations (db w)
  ∧ endpoint_operation_steps (db w') = endpoint_operation_steps (db w).

Lemma expire_collection_command_spec command_id device (linked : uuid → Prop) w :
  linked command_id →
  wp (expire_collection_command command_id device) (λ r w', r = Ok tt ∧
    collections_kept w w' ∧ commands_expire device linked w w') w.
Proof.
  intros Hl. unfold expire_collection_command.
  assert (∀ w, collections_kept w w ∧ commands_expire device linked w w) as Hrefl
    by (intros w'; split; [done|apply commands_expire_refl]).
  wp_step; try by split. wp_step; try by split. propify. subst id. wp_step.
  match goal with |- wp _ _ ?x => set (w1 := x) end.
  assert (collections_kept w w1 ∧ commands_expire device linked w w1) as [Hk Hx].
  { split; [done|]. intros j c Hj. unfold w1, with_table; simpl.
    destruct (decide (command_id = j)) as [<-|Hne].
    - rewrite lookup_alter_eq, Hj. eexists. split; [done|]. right.
      cbn in *. assert (c = r) as -> by congruence. done.
    - exists c. rewrite lookup_alter_ne by done. split; [done|by left]. }
  clearbody w1. repeat (wp_step; try by split).
Qed.

Lemma expire_collections_spec at_ device (linked : uuid → Prop) l w :
  NoDup l.*1 →
  (∀ id c command_id, (id, c) ∈ l → col_command_id c = Some command_id → linked command_id) →
  wp (for_each l (λ collection : uuid * ContextCollection,
        update collection.1 (expire_collection "collection_expired" at_) ;;
        match col_command_id collection.2 with
        | None => mret tt
        | Some command_id => expire_collection_command command_id device
        end)) (λ r w', r = Ok tt
    ∧ updated (expire_collection "collection_expired" at_) l
        (context_collections (db w)) (context_collections (db w'))
    ∧ endpoint_operations (db w') = endpoint_operations (db w)
    ∧ endpoint_operation_steps (db w') = endpoint_operation_steps (db w)
    ∧ commands_expire device linked w w') w.
Proof.
  revert w. induction l as [|[id c] l IH]; intros w Hnd Hl; simpl.
  { wp_step. split_and!; [done|apply updated_nil|done..|apply commands_expire_refl]. }
  apply NoDup_cons in Hnd as [Hid Hnd]. apply wp_bind. wp_step.
  set (w1 := with_table _ w).
  eapply (wp_mono _ (λ r w', r = Ok tt ∧ collections_kept w1 w' ∧ commands_expire device linked w1 w')).
  { destruct (col_command_id c) as [command_id|] eqn:Hc.
    - apply expire_collection_command_spec. eapply Hl; [left|done].
    - wp_step. split; [done|]. split; [done|apply commands_expire_refl]. }
  intros r w2 (-> & (E2 & O2 & S2) & X2). wp_k.
  eapply wp_mono; [apply IH; [done|]|]. { intros j d k Hj. apply (Hl j d k). by right. }
  intros r w3 (-> & E3 & O3 & S3 & X3). split; [done|]. split.
  - apply updated_cons; [done|]. by rewrite E2 in E3.
  - split; [by rewrite O3, O2|]. split; [by rewrite S3, S2|].
    eapply commands_expire_trans; [|exact X3]. intros j x Hj. by apply X2.
Qed.

(** Expiring the overdue collections of a device closes exactly those that
    no operation owns, that are still unanswered and whose expiry has passed
    (of the given profile, if there is one), as expired with the code
    collection_expired.  No operation or step changes, and a command changes
    only from an unfinished status to expired, and only if it belongs to the
    device and to one of those collections. *)
Theorem only_overdue_ordinary_collections_expire device now profile w :
  wp (expire_overdue_collections device now profile) (λ r w',
    match r with
    | Ok _ =>
        (∀ id, context_collections (db w') !! id
               = (λ c, if overdue device (as_utc now) profile id c
                       then expire_collection "collection_expired" (as_utc now) c else c)
                 <$> context_collections (db w) !! id)
        ∧ endpoint_operations (db w') = endpoint_operations (db w)
        ∧ endpoint_operation_steps (db w') = endpoint_operation_steps (db w)
        ∧ commands_expire device (λ command_id, ∃ id c,
            context_collections (db w) !! id = Some c
            ∧ overdue device (as_utc now) profile id c = true
            ∧ col_operation_id c = None ∧ col_command_id c = Some command_id) w w'
    | Exn _ => True
    end) w.
Proof.
  unfold expire_overdue_collections, _now, now_or. do 4 wp_step.
  match goal with |- context [commands_expire device ?L w] => set (linked := L) end.
  assert (selected (overdue device (as_utc now) profile) (context_collections (db w))
    (order_by id_order l)) as Hl by (apply selected_order; exact H1).
  apply wp_bind. eapply wp_mono; [apply (expire_collections_spec _ _ linked)|].
  - by rewrite order_by_Permutation.
  - intros id c command_id Hin Hc. apply Hl in Hin as [Hid Hov]. exists id, c. split_and!; try done.
    unfold overdue in Hov. propify. by destruct (col_operation_id c).
  - intros r w1 (-> & E1 & O1 & S1 & X1). wp_k. wp_step. split; [|done].
    by apply (updated_selected _ _ _ _ _ Hl).
Qed.

(** ** Ingestion *)

Section ingestion.
Context `{Contracts}.

(** The tables of the ingested data, and the rest that ingestion must keep. *)
Definition snapshot_tables (w : World) :=
  (context_snapshots (db w), context_diffs (db w), device_events (db w), context_current (db w)).
Definition unrelated_tables (w : World) :=
  (commands (db w), command_results (db w), command_deliveries (db w),
   endpoint_operations (db w), endpoint_operation_steps (db w), committed w).
Definition data_tables (w : World) := (context_collections (db w), context_snapshots (db w)).

(** Every collection but [cid]. *)
Definition other_collections (cid : uuid) (w : World) := delete cid (context_collections (db w)).

Lemma other_collections_update cid (f : ContextCollection → ContextCollection) :
  keeps (other_collections cid) (update cid f).
Proof. intros w. unfold same, other_collections, update, with_table; simpl. apply delete_alter_eq. Qed.
#[local] Hint Resolve other_collections_update : frame.

(** The collection of a result: found by the result, found by the command, or
    created. *)
Lemma current_collection_spec command_id command rid record profile w :
  wp (_current_collection command_id command rid record profile) (λ r w',
    match r with
    | Ok (cid, c) =>
        snapshot_tables w' = snapshot_tables w ∧ unrelated_tables w' = unrelated_tables w
        ∧ other_collections cid w' = other_collections cid w
        ∧ context_collections (db w') !! cid = Some c
        ∧ (col_command_result_id c = None →
           ∀ i x, context_collections (db w) !! i = Some x → col_command_result_id x ≠ Some rid)
        ∧ (is_some (col_command_result_id c) = true → w' = w)
    | Exn _ => True
    end) w.
Proof.
  unfold _current_collection, require_profile. wp_step.
  { wp_step. propify. split_and!; try done. intros Hn. congruence. }
  assert (∀ i x, context_collections (db w) !! i = Some x → col_command_result_id x ≠ Some rid) as Hno.
  { intros i x Hx. specialize (H0 i x Hx). by propify. }
  wp_step; [by do 2 wp_step|]. do 3 wp_step.
  apply wp_bind. eapply (wp_mono _ (λ _ w', db w' = db w ∧ committed w' = committed w)).
  { unfold _now, now_or. destruct (res_completed_at record); repeat wp_step. }
  intros [at_|e] w1 [E1 F1]; wp_k; [|done]. do 3 wp_step. simpl.
  unfold snapshot_tables, unrelated_tables, other_collections, with_table; simpl. rewrite E1, F1.
  split_and!; try done; [by rewrite delete_insert_eq|by rewrite lookup_insert_eq].
Qed.

(** One new snapshot of the collection. *)
Definition snapshot_added (d d' : DB) (cid device : uuid) (profile : string) (hash : option string)
    (result : AgentResultV1) : Prop :=
  ∃ sid s, context_snapshots d' = <[sid := s]> (context_snapshots d)
    ∧ snap_collection_id s = cid ∧ snap_device_id s = device ∧ snap_profile s = profile
    ∧ snap_semantic_hash s = hash ∧ snap_raw_payload s = Some (result_dump result).

Definition snapshots_view (w : World) := context_snapshots (db w).

Lemma store_snapshot_spec cid device profile envelope hash result latest at_ w :
  wp (store_snapshot cid device profile envelope hash (result_dump result) latest at_) (λ r w',
    match r with
    | Ok _ => snapshot_added (db w) (db w') cid device profile hash result
    | Exn _ => True
    end) w.
Proof.
  unfold store_snapshot. do 3 wp_step.
  eapply (wp_pres (same snapshots_view)); [frame|]. intros [[]|e] w1 E1; [|done].
  unfold same, snapshots_view in E1. eexists _, _. rewrite E1. by split_and!.
Qed.

Lemma store_snapshot_keeps cid device profile envelope hash raw latest at_ :
  keeps (λ w, (context_collections (db w), unrelated_tables w))
    (store_snapshot cid device profile envelope hash raw latest at_).
Proof. frame. Qed.

Lemma advance_pointer_keeps sid s at_ :
  keeps (λ w, (context_collections (db w), unrelated_tables w, context_snapshots (db w),
               context_diffs (db w), device_events (db w)))
    (_advance_current_pointer sid s at_).
Proof. frame. Qed.

(** The newest snapshot of a device and profile. *)
Definition newest_of (d : DB) (device : uuid) (profile : string) (id : uuid) (s : ContextSnapshot)
    : Prop :=
  context_snapshots d !! id = Some s ∧ snapshots_of device profile id s = true
  ∧ ∀ j t, context_snapshots d !! j = Some t → snapshots_of device profile j t = true →
      newest_snapshot (id, s) (j, t) = true.

Lemma newest_of_unique d device profile i s j t :
  newest_of d device profile i s → newest_of d device profile j t → i = j ∧ s = t.
Proof.
  intros (Hi & Si & Mi) (Hj & Sj & Mj). specialize (Mi j t Hj Sj). specialize (Mj i s Hi Si).
  unfold newest_snapshot, lex_leb in *. simpl in *. assert (i = j) as -> by lia.
  split; [done|congruence].
Qed.

Lemma latest_snapshot_of_spec device profile w :
  wp (latest_snapshot_of device profile) (λ r w', w' = w ∧
    match r with
    | Ok (Some (id, s)) => newest_of (db w) device profile id s
    | Ok None => ∀ id s, ¬ newest_of (db w) device profile id s
    | Exn _ => True
    end) w.
Proof.
  unfold latest_snapshot_of. do 2 wp_step. split; [done|].
  destruct (head (order_by newest_snapshot l)) as [[id s]|] eqn:Eh.
  - assert ((id, s) ∈ l) as Hin by (apply head_Some_elem_of in Eh; by rewrite elem_of_order_by in Eh).
    apply H1 in Hin as [Hid Hs]. split_and!; [done..|]. intros j t Hj Ht.
    eapply (order_by_head newest_snapshot l); [| |exact Eh|by apply H1].
    + intros a b c. unfold newest_snapshot. intros Hab Hbc. by eapply lex_leb_trans.
    + intros a b. apply lex_leb_total.
  - intros j t (Hj & Ht & _).
    assert ((j, t) ∈ order_by newest_snapshot l) as Hjl by (rewrite elem_of_order_by; by apply H1).
    destruct (order_by newest_snapshot l); [by apply elem_of_nil in Hjl|done].
Qed.

(** The newest snapshot has the semantic identity [hash] already. *)
Definition content_known (d : DB) (device : uuid) (profile : string) (hash : option string) : Prop :=
  ∃ id s h, newest_of d device profile id s ∧ hash = Some h ∧ snap_semantic_hash s = Some h.

Lemma content_known_latest d device profile hash latest :
  (is_some hash = true → match latest with
     | Some (id, s) => newest_of d device profile id s
     | None => ∀ id s, ¬ newest_of d device profile id s end) →
  (is_some hash = false → latest = None) →
  same_hash latest hash = true ↔ content_known d device profile hash.
Proof.
  intros Hl Hn. unfold same_hash, content_known. split.
  - destruct latest as [[id s]|], hash as [h|]; try done. intros Heq%bool_decide_eq_true.
    exists id, s, h. split; [by apply Hl|done].
  - intros (id & s & h & Hnew & -> & Hs). specialize (Hl eq_refl).
    destruct latest as [[id' s']|]; [|by destruct (Hl id s)].
    destruct (newest_of_unique _ _ _ _ _ _ _ Hnew Hl) as [-> ->]. by apply bool_decide_eq_true.
Qed.

(** What an accepted success adds: nothing when its content is known, one
    snapshot otherwise. *)
Definition content_stored (d d' : DB) (cid device : uuid) (profile : string)
    (hash : option string) (result : AgentResultV1) : Prop :=
  (content_known d device profile hash ∧ context_snapshots d' = context_snapshots d
   ∧ context_diffs d' = context_diffs d ∧ device_events d' = device_events d)
  ∨ (¬ content_known d device profile hash
     ∧ snapshot_added d d' cid device profile hash result).

Lemma content_stored_same d1 d1' d2 d2' cid device profile hash result :
  (context_snapshots d2, context_diffs d2, device_events d2)
  = (context_snapshots d1, context_diffs d1, device_events d1) →
  (context_snapshots d2', context_diffs d2', device_events d2')
  = (context_snapshots d1', context_diffs d1', device_events d1') →
  content_stored d1 d1' cid device profile hash result →
  content_stored d2 d2' cid device profile hash result.
Proof.
  intros [= E1 E2 E3] [= E1' E2' E3'].
  unfold content_stored, content_known, newest_of, snapshot_added.
  by rewrite E1, E2, E3, E1', E2', E3'.
Qed.

Definition failure_stored (d d' : DB) : Prop :=
  context_snapshots d' = context_snapshots d ∧ context_diffs d' = context_diffs d
  ∧ device_events d' = device_events d ∧ context_current d' = context_current d.

(** The first result of a collection. *)
Definition result_ingested (w w' : World) (cid rid : uuid) (command : Command)
    (result : AgentResultV1) : Prop :=
  (∀ i x, context_collections (db w) !! i = Some x → col_command_result_id x ≠ Some rid)
  ∧ other_collections cid w' = other_collections cid w
  ∧ ∃ c', context_collections (db w') !! cid = Some c' ∧ col_command_result_id c' = Some rid
      ∧ if decide (result_status result = succeeded) then
          col_status c' = c_completed
          ∧ ∃ envelope hash, _success_envelope result w = (Ok envelope, w)
              ∧ _snapshot_semantic_hash (env_profile envelope) (env_dump envelope) = Ok hash
              ∧ content_stored (db w) (db w') cid (cmd_device_id command) (env_profile envelope)
                  hash result
        else
          col_status c' = c_failed
          ∧ col_failure_code c' = Some ("command_" +:+ status_str (result_status result))
          ∧ failure_stored (db w) (db w').

Lemma result_profile_spec command result w :
  wp (result_profile command result) (λ r w', w' = w ∧
    match r with
    | Ok (Some envelope, profile) =>
        result_status result = succeeded ∧ _success_envelope result w = (Ok envelope, w)
        ∧ profile = env_profile envelope
    | Ok (None, _) => result_status result ≠ succeeded
    | Exn _ => True
    end) w.
Proof.
  unfold result_profile. destruct (decide _) as [Hs|Hs].
  - apply wp_bind. rewrite wp_unfold.
    assert (∃ r, _success_envelope result w = (r, w)) as [r Hr].
    { assert (pres unmoved (_success_envelope result)) as Hp by frame. specialize (Hp w).
      unfold unmoved in Hp. destruct (_success_envelope result w) as [r w'] eqn:E. simpl in Hp.
      exists r. congruence. }
    rewrite Hr. simpl. destruct r as [envelope|e]; wp_k; [|done].
    unfold _profile_for_failed_command. do 3 wp_step.
  - destruct (in_set _ _); [|by wp_step]. unfold _profile_for_failed_command. do 2 wp_step.
Qed.

(** The part between validation and completion. *)
Lemma store_content_spec cid device profile envelope hash result at_ w :
  wp (latest ← (if is_some hash then latest_snapshot_of device profile else mret None);
      match latest with
      | Some (latest_id, latest_row) =>
          if same_hash latest hash
          then _advance_current_pointer latest_id latest_row at_
          else store_snapshot cid device profile envelope hash (result_dump result) latest at_
      | None => store_snapshot cid device profile envelope hash (result_dump result) latest at_
      end) (λ r w',
    (context_collections (db w'), unrelated_tables w')
    = (context_collections (db w), unrelated_tables w)
    ∧ match r with
      | Ok _ => content_stored (db w) (db w') cid device profile hash result
      | Exn _ => True
      end) w.
Proof.
  apply wp_bind. eapply (wp_mono _ (λ r w', w' = w ∧
    match r with
    | Ok latest => same_hash latest hash = true ↔ content_known (db w) device profile hash
    | Exn _ => True end)).
  { destruct hash as [h|]; simpl.
    - eapply wp_mono; [apply latest_snapshot_of_spec|]. intros [latest|e] w' [-> Hl]; [|done].
      split; [done|]. by apply content_known_latest.
    - wp_step. split; [done|]. by apply content_known_latest. }
  intros [latest|e] w1 [-> Hk]; wp_k; [|done].
  assert (same_hash latest hash = false →
    wp (store_snapshot cid device profile envelope hash (result_dump result) latest at_) (λ r w',
      (context_collections (db w'), unrelated_tables w')
      = (context_collections (db w), unrelated_tables w)
      ∧ match r with
        | Ok _ => content_stored (db w) (db w') cid device profile hash result
        | Exn _ => True
        end) w) as Hstore.
  { intros Hf. eapply wp_mono; [apply wp_and; [apply wp_of_pres, store_snapshot_keeps|apply store_snapshot_spec]|].
    intros r w' [Hsame Hadd]. split; [exact Hsame|]. destruct r; [|done]. right.
    split; [|done]. rewrite <- Hk. by rewrite Hf. }
  destruct latest as [[id s]|]; [|by apply Hstore].
  destruct (same_hash (Some (id, s)) hash) eqn:Hsame; [|by apply Hstore].
  eapply wp_mono; [apply wp_of_pres, advance_pointer_keeps|].
  intros r w' [= Ec Eu1 Eu2 Eu3 Eu4 Eu5 Eu6 Es Ed Ee]. unfold unrelated_tables.
  split; [congruence|]. destruct r; [|done]. left. split; [by apply Hk|done].
Qed.

(** C17: a result that is ingested without an error names the command of its
    record.  Either its collection holds a result already, and then nothing
    at all changes, or no collection held this result before, and exactly one
    collection takes it.  That collection is completed for a success: a
    snapshot whose semantic content equals the newest one of the device and
    profile is not stored again, and any other adds exactly one snapshot; for
    any other outcome the collection fails with the status in its code, and no
    snapshot, diff, event or current pointer changes. *)
Theorem results_are_ingested_once rid result now w :
  wp (ingest_context_result rid result now) (λ r w',
    match r with
    | Ok cid => ∃ record command,
        command_results (db w) !! rid = Some record
        ∧ res_command_id record = result_command_id result
        ∧ commands (db w) !! result_command_id result = Some command
        ∧ result_device_id result = cmd_device_id command
        ∧ unrelated_tables w' = unrelated_tables w
        ∧ ((w' = w ∧ ∃ c, context_collections (db w) !! cid = Some c
                          ∧ is_some (col_command_result_id c) = true)
           ∨ result_ingested w w' cid rid command result)
    | Exn _ => True
    end) w.
Proof.
  unfold ingest_context_result. do 5 wp_step. propify. rewrite <- H0 in Hsome0.
  apply wp_bind. eapply wp_mono; [apply result_profile_spec|].
  intros [[envelope profile]|e] w1 [-> Hp]; wp_k; [|done].
  apply wp_bind. eapply wp_mono; [apply current_collection_spec|].
  intros [[cid c]|e] w1 Hc; wp_k; [|done]. destruct Hc as (Es & Eu & Eo & Hcid & Hfirst & Hheld).
  destruct (col_command_result_id c) as [held|] eqn:Ec; simpl.
  { wp_step. rewrite Hheld in * by done. exists a, a0.
    split_and!; try done. left. split; [done|]. exists c. by rewrite Ec. }
  specialize (Hfirst eq_refl). clear Hheld.
  apply wp_bind. eapply (wp_mono _ (λ _ w', db w' = db w1 ∧ committed w' = committed w1)).
  { unfold _now, now_or. destruct (or_else _ _); repeat wp_step. }
  intros [at_|e] w2 [E2 F2]; wp_k; [|done]. wp_step.
  destruct envelope as [envelope|].
  - destruct Hp as (Hs & Henv & ->). do 2 wp_step.
    destruct (_snapshot_semantic_hash _ _) as [hash|e] eqn:Eh; wp_k; [|done].
    apply wp_assoc, wp_bind. eapply wp_mono; [apply store_content_spec|].
    intros [[]|e] w3 [Ekeep Hw3]; wp_k; [|done]. do 3 wp_step.
    exists a, a0. injection Ekeep as C3 U1 U2 U3 U4 U5 U6. simpl in *.
    assert (context_collections (db w3) !! cid
            = Some (validate_collection at_ (receive_result rid at_ (result_dump result) c))) as Hc3.
    { by rewrite C3, E2, !lookup_alter_eq, Hcid. }
    split_and!; try done.
    { unfold unrelated_tables in *; simpl. congruence. }
    right. split; [done|]. split.
    { unfold other_collections in *; simpl. rewrite delete_alter_eq, C3, E2, !delete_alter_eq. done. }
    unfold with_table; simpl. rewrite lookup_alter_eq, Hc3. eexists. split; [done|]. split; [done|].
    rewrite decide_True by done. split; [done|]. exists envelope, hash. split; [done|].
    split; [done|]. eapply content_stored_same; [| |exact Hw3]; [|done].
    injection Es as E3 E4 E5 E6. simpl. rewrite E2. by rewrite E3, E4, E5.
  - injection Es as E3 E4 E5 E6. do 3 wp_step. exists a, a0. split_and!; try done.
    { unfold unrelated_tables in *; simpl in *. congruence. }
    right. split; [done|]. split.
    { unfold other_collections in *; simpl. by rewrite !delete_alter_eq, E2. }
    unfold with_table; simpl. rewrite !lookup_alter_eq, E2, Hcid. eexists. split; [done|].
    split; [done|]. rewrite decide_False by done. split; [done|]. split; [done|].
    unfold failure_stored; simpl. by split_and!.
Qed.

(** ** The current pointer *)

(** A pointer stays with its device and profile, and moves only to a snapshot
    of them collected later than the one it leaves. *)
Definition pointer_moves (d d' : DB) (c c' : ContextCurrent) : Prop :=
  cur_device_id c' = cur_device_id c ∧ cur_profile c' = cur_profile c
  ∧ (cur_snapshot_id c' = cur_snapshot_id c
     ∨ ∃ s', context_snapshots d' !! cur_snapshot_id c' = Some s'
         ∧ snap_device_id s' = cur_device_id c ∧ snap_profile s' = cur_profile c
         ∧ ∀ s, context_snapshots d !! cur_snapshot_id c = Some s →
             instant (snap_collected_at s) < instant (snap_collected_at s')).

Definition context_fresh (w : World) : Prop :=
  fresh (seed w) (context_snapshots (db w)) ∧ fresh (seed w) (context_current (db w)).

Definition moves_forward (w w' : World) : Prop :=
  context_fresh w →
  context_fresh w' ∧ context_snapshots (db w) ⊆ context_snapshots (db w')
  ∧ rows_kept (pointer_moves (db w) (db w')) (context_current (db w)) (context_current (db w')).

#[local] Instance moves_forward_preorder : PreOrder moves_forward.
Proof.
  split.
  - intros w Hf. split; [done|]. split; [done|]. apply rows_kept_refl. intros c. by split_and!; [..|left].
  - intros w1 w2 w3 H12 H23 Hf. destruct (H12 Hf) as (F2 & S2 & R2).
    destruct (H23 F2) as (F3 & S3 & R3). split; [done|]. split; [by etrans|].
    intros id c Hc. destruct (R2 id c Hc) as (c2 & Hc2 & D2 & P2 & M2).
    destruct (R3 id c2 Hc2) as (c3 & Hc3 & D3 & P3 & M3). exists c3. split; [done|].
    split; [congruence|]. split; [congruence|].
    assert (∀ s, context_snapshots (db w1) !! cur_snapshot_id c = Some s →
      context_snapshots (db w2) !! cur_snapshot_id c = Some s) as Hsub
      by (intros s Hs; by eapply lookup_weaken).
    destruct M3 as [E3|(s3 & Hs3 & Dt & Pt & Lt')].
    + destruct M2 as [E2|(s2 & Hs2 & Ds & Ps & Lt)]; [left; congruence|right].
      exists s2. rewrite E3. split_and!; try done. by eapply lookup_weaken.
    + right. exists s3. split_and!; [done|congruence..|]. intros s Hs.
      destruct M2 as [E2|(s2 & Hs2 & Ds & Ps & Lt)].
      * apply Lt'. rewrite E2. by apply Hsub.
      * specialize (Lt s Hs). specialize (Lt' s2 Hs2). lia.
Qed.

Lemma moves_forward_same w w' :
  context_current (db w') = context_current (db w) →
  context_snapshots (db w') = context_snapshots (db w) → seed w <= seed w' → moves_forward w w'.
Proof.
  intros Ec Es Hs [Fs Fc]. unfold context_fresh. rewrite Ec, Es. split; [split; by eapply fresh_le|].
  split; [done|]. apply rows_kept_refl. intros c. by split_and!; [..|left].
Qed.

Ltac forward_step :=
  lazymatch goal with
  | |- pres _ (update _ _) => intros ?; apply moves_forward_same; simpl; [done|done|lia]
  | |- pres _ (insert _ _) => intros ?; apply moves_forward_same; simpl; [done|done|lia]
  | |- pres _ uuid4 => intros ?; apply moves_forward_same; simpl; [done|done|lia]
  | |- pres _ utcnow => intros ?; apply moves_forward_same; simpl; [done|done|lia]
  | |- _ => frame_step
  end.
Ltac forward := repeat (forward_step; cbv zeta).

Lemma moves_forward_update id (f : ContextCurrent → ContextCurrent) w :
  (∀ c, context_current (db w) !! id = Some c → pointer_moves (db w) (db w) c (f c)) →
  moves_forward w (with_table (alter f id) w).
Proof.
  intros Hf [Fs Fc]. unfold with_table, context_fresh; simpl. split; [split; [done|]|split; [done|]].
  - intros j v (v' & _ & Hj)%lookup_alter_cases. eauto.
  - apply rows_kept_alter; [|exact Hf]. intros c. by split_and!; [..|left].
Qed.

Lemma moves_forward_new_pointer (c : ContextCurrent) w :
  moves_forward w (with_table <[seed w := c]> (w <| seed := seed w + 1 |>)).
Proof.
  intros [Fs Fc]. unfold with_table, context_fresh; simpl. split; [split|split; [done|]].
  - eapply fresh_le; [done|lia].
  - apply fresh_insert; [eapply fresh_le; [done|lia]|lia].
  - apply rows_kept_insert; [|by apply fresh_lookup]. intros x. by split_and!; [..|left].
Qed.

Lemma moves_forward_new_snapshot (s : ContextSnapshot) w :
  moves_forward w (with_table <[seed w := s]> (w <| seed := seed w + 1 |>)).
Proof.
  intros [Fs Fc]. unfold with_table, context_fresh; simpl. split; [split|split].
  - apply fresh_insert; [eapply fresh_le; [done|lia]|lia].
  - eapply fresh_le; [done|lia].
  - by apply insert_subseteq, fresh_lookup.
  - apply rows_kept_refl. intros x. by split_and!; [..|left].
Qed.

Lemma advance_pointer_forward sid s at_ w :
  context_snapshots (db w) !! sid = Some s →
  wp (_advance_current_pointer sid s at_) (λ _, moves_forward w) w.
Proof.
  intros Hs. unfold _advance_current_pointer. wp_step.
  - do 2 wp_step. propify. cbn in H0, Hsome. apply wp_bind.
    eapply (wp_mono _ (λ r' w', r' = Ok tt ∧ moves_forward w w'
      ∧ context_snapshots (db w') = context_snapshots (db w)
      ∧ ∃ r', context_current (db w') !! id = Some r' ∧ cur_snapshot_id r' = cur_snapshot_id r
              ∧ cur_device_id r' = cur_device_id r ∧ cur_profile r' = cur_profile r)).
    { apply wp_when; intros _; [wp_step|by split_and!; [..|exists r]].
      split_and!; [done|apply moves_forward_update; intros c Hc; by split_and!; [..|left]|done|].
      simpl. rewrite lookup_alter_eq, H0. by eexists. }
    intros r' w1 (-> & H1' & Es & c & Hc & Ec & Ed & Ep). wp_k.
    destruct (dt_leb _ _) eqn:Hle; wp_step. etrans; [exact H1'|].
    apply moves_forward_update. intros c' Hc'. assert (c' = c) as -> by congruence.
    split_and!; try done. right. exists s. simpl. rewrite Es. split; [done|].
    split; [congruence|]. split; [congruence|]. intros t. rewrite Ec, Hsome. intros [= <-].
    unfold dt_leb in Hle. rewrite !instant_as_utc in Hle. lia.
  - do 2 wp_step. apply moves_forward_new_pointer.
Qed.

(** Work that keeps the snapshots and moves no pointer. *)
Definition touching (w w' : World) : Prop := moves_forward w w' ∧ same snapshots_view w w'.

#[local] Instance touching_preorder : PreOrder touching.
Proof. split; [by split|]. intros w1 w2 w3 [? ?] [? ?]. split; by etrans. Qed.

Ltac touch := apply pres_and; [forward|frame].

Lemma wp_touch_bind {A B} (m : Tx A) (k : A → Tx B) w0 w :
  touching w0 w → pres touching m → (∀ a w', touching w0 w' → wp (k a) (λ _, moves_forward w0) w') →
  wp (m ≫= k) (λ _, moves_forward w0) w.
Proof.
  intros H0 Hm Hk. apply (wp_bind_pres touching); [done| |].
  - intros a w' Hq. apply Hk. by etrans.
  - intros e w' [Hq _]. etrans; [apply H0|done].
Qed.

Lemma store_snapshot_forward cid device profile envelope hash raw latest at_ :
  pres moves_forward (store_snapshot cid device profile envelope hash raw latest at_).
Proof.
  apply pres_of_wp. intros w. unfold store_snapshot. do 2 wp_step.
  match goal with |- wp (flush ≫= _) _ ?x => set (w1 := x) end.
  apply wp_trans; [apply _|apply moves_forward_new_snapshot|].
  match goal with |- context [_advance_current_pointer _ ?row] => set (s := row) end.
  assert (context_snapshots (db w1) !! seed w = Some s) as Hs by (simpl; by rewrite lookup_insert_eq).
  clearbody w1. generalize dependent w1. generalize (seed w) as sid. clear w. intros sid w Hs.
  assert (touching w w) as Hw by reflexivity.
  apply wp_touch_bind; [done|touch|]. clear Hw. intros _ w1 Hw.
  apply wp_touch_bind; [done|touch|]. clear Hw. intros diff w2 Hw.
  apply wp_touch_bind; [done|touch|]. clear Hw. intros _ w3 [Hw Es].
  apply wp_trans; [apply _|done|]. apply advance_pointer_forward.
  unfold same, snapshots_view in Es. by rewrite Es.
Qed.

(** However a result is ingested, and even when it is refused halfway, the
    current pointer of a device and profile never disappears, never changes
    device or profile, and moves only to a snapshot of that device and profile
    that was collected strictly later; no snapshot is lost. *)
Theorem current_pointers_move_forward rid result now w :
  context_fresh w →
  wp (ingest_context_result rid result now) (λ _ w',
    context_snapshots (db w) ⊆ context_snapshots (db w')
    ∧ rows_kept (pointer_moves (db w) (db w')) (context_current (db w)) (context_current (db w'))) w.
Proof.
  intros Hf.
  assert (wp (ingest_context_result rid result now) (λ _, moves_forward w) w) as Hm;
    [|eapply wp_mono; [exact Hm|]; intros r w' Hw; by destruct (Hw Hf)].
  apply wp_of_pres. unfold ingest_context_result.
  do 2 (apply pres_bind; [apply _|forward|intros ?]).
  do 3 (apply pres_bind; [apply _|forward|intros ?]).
  apply pres_bind; [apply _|forward|intros [envelope profile]].
  apply pres_bind; [apply _|forward|intros [cid c]].
  destruct (is_some _); [forward|].
  do 2 (apply pres_bind; [apply _|forward|intros ?]).
  destruct envelope as [envelope|]; [|forward].
  do 2 (apply pres_bind; [apply _|forward|intros ?]).
  apply pres_of_wp. intros w1. apply wp_bind. eapply (wp_mono _ (λ r w', w' = w1 ∧
    match r with
    | Ok (Some (id, s)) => context_snapshots (db w1) !! id = Some s
    | _ => True
    end)).
  { destruct (is_some _); [|by wp_step]. eapply wp_mono; [apply latest_snapshot_of_spec|].
    intros [[[id s]|]|e] w' [-> Hl]; split; try done. apply Hl. }
  intros [latest|e] w2 [-> Hl]; wp_k; [|reflexivity].
  apply wp_bind_then; [apply _| |intros; forward].
  destruct latest as [[id s]|]; [|apply wp_of_pres, store_snapshot_forward].
  destruct (same_hash _ _); [by apply advance_pointer_forward|].
  apply wp_of_pres, store_snapshot_forward.
Qed.
End ingestion.

(** ** A run: the pointer moves on to a later snapshot *)

Section demo.
#[local] Instance later_contracts : Contracts := {|
  capability_parameters := λ _, None;
  validate_capability_payload := λ _ payload, Some payload;
  validate_capability_result := λ _ _, None;
  parse_recipe := λ _, None;
  validate_context_result_item := λ item,
    Some {| env_profile := "health_v1"; env_collected_at := utc_datetime 5; env_dump := item |};
  parse_diagnostic := λ _, None;
  validate_diagnostic_result := λ _, None;
  sanitize_agent_public_text := λ text _ _, (text, false);
  dump_datetime := λ _, "2026-01-01T00:00:00Z";
  sha256_hexdigest := λ text, text;
  float_repr := λ _, "0.0";
  container_str := λ _, "" |}.

Definition old_snapshot : ContextSnapshot := {|
  snap_collection_id := 20; snap_device_id := 1; snap_profile := "health_v1";
  snap_collected_at := utc_datetime 3; snap_pinned_at := None; snap_semantic_hash := None;
  snap_raw_payload := None; snap_normalized_projection := JNull |}.

Definition health_world : World := {|
  committed := empty_db;
  db := empty_db
    <| commands := {[ 30 := {| cmd_command_identifier := "ctx"; cmd_created_at := utc_datetime 1;
                               cmd_device_id := 1; cmd_command_kind := "context.health.collect";
                               cmd_status := running; cmd_expires_at := None |} ]} |>
    <| command_results := {[ 31 := {| res_command_id := 30; res_delivery_id := None;
                                      res_result_identifier := "result"; res_status := succeeded;
                                      res_completed_at := None; res_result_sequence := None;
                                      res_result_payload_digest := None |} ]} |>
    <| context_snapshots := {[ 40 := old_snapshot ]} |>
    <| context_current := {[ 41 := {| cur_device_id := 1; cur_profile := "health_v1";
                                      cur_snapshot_id := 40; cur_updated_at := utc_datetime 3;
                                      cur_last_observed_at := None |} ]} |>;
  seed := 100; clock := λ n, Z.of_nat n; ticks := 0 |}.

Definition health_answer : AgentResultV1 := {|
  result_command_id := 30; result_device_id := 1; result_status := succeeded;
  result_items := [JNull]; result_message := None; result_completed_at := utc_datetime 6 |}.

Lemma current_pointers_move_forward_witness :
  (cur_snapshot_id <$> context_current
     (db (ingest_context_result 31 health_answer None health_world).2) !! 41) ≠ Some 40
  ∧ wp (ingest_context_result 31 health_answer None) (λ _ w',
      context_snapshots (db w') !! 40 = Some old_snapshot) health_world.
Proof.
  split; [vm_compute; discriminate|].
  eapply wp_mono; [apply (current_pointers_move_forward 31 health_answer None health_world)|].
  - split; intros id v Hv; simpl in Hv; apply lookup_singleton_Some in Hv as [<- _]; done.
  - intros r w' [Hsub _]. eapply lookup_weaken; [|exact Hsub]. vm_compute; reflexivity.
Defined.
End demo.
