(* ===== verification/Semver.v ===== *)
(** * Semantic versions and public update text
    (endpoint_server/updates/service.py: [_semver_parts], [_compare_semver];
    endpoint_contracts/updates.py: the wire patterns;
    endpoint_contracts/update_safety.py)

    The comparison of versions that gates rollbacks and launcher minimums, the
    patterns that guard the identifiers of an update, and the filter on the
    prose that reaches an agent.  Text is ASCII. *)

From S2P Require Import Prelude Store Session AuditLog.

(** ** Splitting *)

(** [value.partition(sep)]: what stands before the first separator, and after
    it when there is one. *)
Fixpoint partition (sep : Z) (l : list Ascii.ascii)
    : list Ascii.ascii * option (list Ascii.ascii) :=
  match l with
  | [] => ([], None)
  | c :: l' =>
      if code c =? sep then ([], Some l')
      else let (before, after) := partition sep l' in (c :: before, after)
  end.

(** [value.split(sep)] *)
Fixpoint split (sep : Z) (l : list Ascii.ascii) : list (list Ascii.ascii) :=
  match l with
  | [] => [[]]
  | c :: l' =>
      if code c =? sep then [] :: split sep l'
      else match split sep l' with
           | item :: items => (c :: item) :: items
           | [] => [[c]]
           end
  end.

Definition dot : Z := 46.
Definition hyphen : Z := 45.
Definition plus : Z := 43.

(** ** Numbers *)

(** [value.isdigit()] *)
Definition isdigit (l : list Ascii.ascii) : bool :=
  negb (bool_decide (l = [])) && forallb is_digit l.

Fixpoint digits_value (acc : Z) (l : list Ascii.ascii) : Z :=
  match l with
  | [] => acc
  | c :: l' => digits_value (10 * acc + (code c - 48)) l'
  end.

(** [int(value)] of a string of digits; other spellings that Python accepts
    (signs, spaces, underscores) do not occur in a version. *)
Definition int (l : list Ascii.ascii) : option Z :=
  if isdigit l then Some (digits_value 0 l) else None.

(** ** [_semver_parts] and [_compare_semver] *)

Definition semver : Type := (Z * Z * Z) * option (list (list Ascii.ascii)).

Definition _semver_parts (value : string) : option semver :=
  let without_build := (partition plus (chars value)).1 in
  let (core, prerelease) := partition hyphen without_build in
  match split dot core with
  | [a; b; c] =>
      major ← int a; minor ← int b; patch ← int c;
      Some ((major, minor, patch), split dot <$> prerelease)
  | _ => None
  end.

(** [left < right] on tuples of three integers *)
Definition core_ltb (a b : Z * Z * Z) : bool :=
  let '(a1, a2, a3) := a in
  let '(b1, b2, b3) := b in
  (a1 <? b1) || ((a1 =? b1) && ((a2 <? b2) || ((a2 =? b2) && (a3 <? b3)))).

(** [left < right] on strings, by code points *)
Fixpoint chars_ltb (a b : list Ascii.ascii) : bool :=
  match a, b with
  | _, [] => false
  | [], _ :: _ => true
  | x :: a', y :: b' => (code x <? code y) || ((code x =? code y) && chars_ltb a' b')
  end.

(** The loop over two lists of prerelease identifiers. *)
Fixpoint compare_prerelease (left right : list (list Ascii.ascii)) : Z :=
  match left, right with
  | left_item :: left', right_item :: right' =>
      if decide (left_item = right_item) then compare_prerelease left' right'
      else
        let left_numeric := isdigit left_item in
        let right_numeric := isdigit right_item in
        if left_numeric && right_numeric then
          if digits_value 0 left_item <? digits_value 0 right_item then -1 else 1
        else if negb (Bool.eqb left_numeric right_numeric) then
          if left_numeric then -1 else 1
        else if chars_ltb left_item right_item then -1 else 1
  | [], [] => 0
  | [], _ :: _ => -1
  | _ :: _, [] => 1
  end.

Definition compare_parts (left right : semver) : Z :=
  if negb (bool_decide (left.1 = right.1)) then if core_ltb left.1 right.1 then -1 else 1
  else
    match left.2, right.2 with
    | None, None => 0
    | None, Some _ => 1
    | Some _, None => -1
    | Some left_pre, Some right_pre => compare_prerelease left_pre right_pre
    end.

(** [None] is the ValueError of [_semver_parts]. *)
Definition _compare_semver (left right : string) : option Z :=
  left ← _semver_parts left; right ← _semver_parts right; Some (compare_parts left right).

(** ** SemanticVersionV1 *)

Definition is_ident_char (c : Ascii.ascii) : bool :=
  is_upper c || is_lower c || is_digit c || (code c =? hyphen).

(** [0|[1-9][0-9]*] *)
Definition numeric_identifier (l : list Ascii.ascii) : bool :=
  isdigit l && (bool_decide (length l = 1%nat)
                || match l with c :: _ => negb (code c =? 48) | [] => false end).

(** [0|[1-9][0-9]*|[0-9]*[A-Za-z-][0-9A-Za-z-]*] *)
Definition prerelease_identifier (l : list Ascii.ascii) : bool :=
  numeric_identifier l || (forallb is_ident_char l && existsb (λ c, negb (is_digit c)) l).

(** [[0-9A-Za-z-]+] *)
Definition build_identifier (l : list Ascii.ascii) : bool :=
  negb (bool_decide (l = [])) && forallb is_ident_char l.

Definition opt_all {A} (P : A → bool) (o : option A) : bool :=
  match o with Some a => P a | None => true end.

Definition semver_pattern (l : list Ascii.ascii) : bool :=
  let (without_build, build) := partition plus l in
  let (core, prerelease) := partition hyphen without_build in
  let core := split dot core in
  bool_decide (length core = 3%nat) && forallb numeric_identifier core
  && opt_all (λ p, forallb prerelease_identifier (split dot p)) prerelease
  && opt_all (λ b, forallb build_identifier (split dot b)) build.

Definition SemanticVersionV1 (s : string) : bool :=
  let n := Z.of_nat (String.length s) in
  (5 <=? n) && (n <=? 64) && semver_pattern (chars s).

(** ** The other wire patterns *)

(** [[A-Za-z0-9][A-Za-z0-9._-]{0,limit}] *)
Definition safe_name (limit : Z) (s : string) : bool :=
  match chars s with
  | c :: rest =>
      (is_upper c || is_lower c || is_digit c)
      && forallb (λ c, is_word c || (code c =? dot) || (code c =? hyphen)) rest
      && (Z.of_nat (length rest) <=? limit)
  | [] => false
  end.

Definition UpdateIdentifierV1 : string → bool := safe_name 127.
Definition ArtifactNameV1 : string → bool := safe_name 255.

(** [[0-9a-f]{64}] *)
Definition Sha256V1 (s : string) : bool :=
  (String.length s =? 64)%nat && forallb (λ c, is_digit c || between 97 102 c) (chars s).

(** [[a-z][a-z0-9._-]{0,127}] *)
Definition SafeCodeV1 (s : string) : bool :=
  match chars s with
  | c :: rest =>
      is_lower c
      && forallb (λ c, is_lower c || is_digit c || (code c =? dot) || (code c =? 95)
                       || (code c =? hyphen)) rest
      && (Z.of_nat (length rest) <=? 127)
  | [] => false
  end.

(** ** update_safety.py *)

(** [_OPAQUE_32_BYTE_SECRET.search]: 43 base64url characters in a row; [run]
    counts those that end at the current position. *)
Fixpoint opaque_run (run : Z) (l : list Ascii.ascii) : bool :=
  match l with
  | [] => false
  | c :: l' =>
      if is_word c || (code c =? hyphen)
      then (43 <=? run + 1) || opaque_run (run + 1) l'
      else opaque_run 0 l'
  end.

Definition has_opaque_secret (s : string) : bool := opaque_run 0 (chars s).

(** A word boundary before [rest], after a word character or not. *)
Definition boundary (prev : bool) (rest : list Ascii.ascii) : bool :=
  negb (Bool.eqb prev (match rest with c :: _ => is_word c | [] => false end)).

(** [word\b] at the head of [l], ignoring case. *)
Definition ends_word (word : string) (l : list Ascii.ascii) : bool :=
  match drop_prefix (chars word) l with
  | Some rest => boundary true rest
  | None => false
  end.

(** [first[ ._-]+second\b] at the head of [l], ignoring case. *)
Definition joined_words (first second : string) (l : list Ascii.ascii) : bool :=
  match drop_prefix (chars first) l with
  | Some rest =>
      match drop_some (λ c, in_set (code c) [32; dot; 95; hyphen]) rest with
      | Some rest => ends_word second rest
      | None => false
      end
  | None => false
  end.

Definition marker_words : list string :=
  ["token"; "secret"; "bearer"; "authorization"; "password"; "cookie"; "log"; "logs"; "trace";
   "traceback"; "stacktrace"; "pending"; "archive"; "stdout"; "stderr"].

(** [_DIAGNOSTIC_MARKER] at the head of [l]. *)
Definition marker_at (prev : bool) (l : list Ascii.ascii) : bool :=
  (boundary prev l
   && (existsb (λ w, ends_word w l) marker_words
       || joined_words "access" "token" l || joined_words "log" "output" l
       || joined_words "stack" "trace" l || joined_words "pending" "update" l))
  || existsb (λ w, ends_word w l) [".zip"; ".tar.gz"; ".tgz"; ".7z"].

Fixpoint marker_search (prev : bool) (l : list Ascii.ascii) : bool :=
  marker_at prev l ||
  match l with
  | c :: l' => marker_search (is_word c) l'
  | [] => false
  end.

Definition has_diagnostic_marker (s : string) : bool := marker_search false (chars s).

Definition _SAFE_PROSE_PUNCTUATION : list Ascii.ascii := chars " .,:;()!?&#+%'-".

(** [validate_public_update_prose]; [None] is its ValueError. *)
Definition validate_public_update_prose (value : option string) (max_length : Z)
    (required allow_newlines : bool) : option (option string) :=
  match value with
  | None => if required then None else Some None
  | Some value =>
      let l := chars value in
      let allowed c :=
        is_upper c || is_lower c || is_digit c
        || bool_decide (c ∈ _SAFE_PROSE_PUNCTUATION) || (allow_newlines && (code c =? 10)) in
      let trimmed :=
        match l, last l with
        | first :: _, Some last => negb (is_space first) && negb (is_space last)
        | _, _ => false
        end in
      if trimmed && (Z.of_nat (length l) <=? max_length) && forallb allowed l
         && negb (has_opaque_secret value) && negb (has_diagnostic_marker value)
      then Some (Some value) else None
  end.
