(* ===== verification/SemverFacts.v ===== *)
(** * Semantic versions: properties

    [_compare_semver] on the versions the contracts accept: it always answers,
    and it is a total order whose equality ignores only build metadata. *)

From S2P Require Import Prelude Store Session AuditLog Contracts Semver.

(** ** Text: facts about characters, digits and printed numbers

    What the parsers of the development share: characters as code points,
    concatenation of their lists, decimal and hexadecimal digits. *)

(** ** Digits *)

Lemma code_range c : 0 <= code c < 256.
Proof. unfold code. pose proof (Ascii.N_ascii_bounded c). lia. Qed.

Lemma code_inj c d : code c = code d → c = d.
Proof.
  unfold code. intros H%N2Z.inj. rewrite <- (Ascii.ascii_N_embedding c), H.
  apply Ascii.ascii_N_embedding.
Qed.

Lemma is_digit_range c : is_digit c = true → 48 <= code c <= 57.
Proof. unfold is_digit, between. intros. propify. lia. Qed.

Lemma digits_value_app l acc c :
  digits_value acc (l ++ [c]) = 10 * digits_value acc l + (code c - 48).
Proof. revert acc. induction l as [|d l IH]; intros acc; simpl; [done|apply IH]. Qed.

Lemma digits_value_bound l :
  forallb is_digit l = true → 0 <= digits_value 0 l < 10 ^ Z.of_nat (length l).
Proof.
  induction l as [|c l IH] using rev_ind; simpl; [lia|]. rewrite forallb_app. simpl. intros Hd.
  propify. specialize (IH ltac:(done)). pose proof (is_digit_range c ltac:(done)).
  rewrite digits_value_app, length_app. simpl.
  rewrite Nat2Z.inj_add, Z.pow_add_r by lia. change (10 ^ Z.of_nat 1) with 10. lia.
Qed.

Lemma digits_value_acc l acc :
  digits_value acc l = acc * 10 ^ Z.of_nat (length l) + digits_value 0 l.
Proof.
  revert acc. induction l as [|c l IH]; intros acc; cbn [digits_value length]; [lia|].
  rewrite (IH (10 * acc + _)), (IH (10 * 0 + _)).
  rewrite Nat2Z.inj_succ, Z.pow_succ_r by lia. lia.
Qed.

Lemma digits_value_inj l l' :
  forallb is_digit l = true → forallb is_digit l' = true → length l = length l' →
  digits_value 0 l = digits_value 0 l' → l = l'.
Proof.
  revert l'. induction l as [|c l IH] using rev_ind; intros l'.
  - intros _ _ Hlen _. by destruct l'.
  - destruct l' as [|d l' _] using rev_ind; rewrite ?length_app; simpl; [lia|].
    rewrite !forallb_app, !digits_value_app; simpl. intros H1 H2 Hlen Hv. propify.
    pose proof (is_digit_range c ltac:(done)). pose proof (is_digit_range d ltac:(done)).
    rewrite (IH l') by (done || lia). do 2 f_equal. apply code_inj. lia.
Qed.

(** ** Characters *)

Lemma chars_app a b : chars (a +:+ b) = chars a ++ chars b.
Proof. induction a as [|c a IH]; [done|]. unfold chars in *. simpl. by rewrite IH. Qed.

Lemma chars_text l : chars (text l) = l.
Proof. apply String.list_ascii_of_string_of_list_ascii. Qed.

Lemma text_chars s : text (chars s) = s.
Proof. apply String.string_of_list_ascii_of_string. Qed.

#[export] Instance chars_inj : Inj (=) (=) chars.
Proof. intros a b H. by rewrite <- (text_chars a), H, text_chars. Qed.

Lemma length_chars s : length (chars s) = String.length s.
Proof. unfold chars. induction s as [|c s IH]; simpl; [done|by rewrite IH]. Qed.

(** ** Hexadecimal digits *)

Lemma hex_digits_text n z acc :
  hex_digits n z acc = text (map (λ i : nat, hex_digit ((z / 16 ^ Z.of_nat i) mod 16)) (rev (seq 0 n))) +:+ acc.
Proof.
  revert z acc. induction n as [|n IH]; intros z acc; [done|].
  cbn [hex_digits]. rewrite IH. cbn [seq rev]. rewrite <- seq_shift, <- map_rev.
  rewrite map_app. cbn [map]. rewrite map_map. unfold text.
  assert (∀ l k, String.string_of_list_ascii (l ++ k) = String.string_of_list_ascii l +:+ String.string_of_list_ascii k)
    as Happ by (induction l as [|x l IHl]; intros; [done|]; simpl; rewrite IHl; reflexivity).
  rewrite Happ. cbn. rewrite Z.pow_0_r, Z.div_1_r.
  assert (∀ a b c, (a +:+ b) +:+ c = a +:+ (b +:+ c)) as Hass
    by (induction a as [|x a IHa]; intros; [done|]; change (String x ((a +:+ b) +:+ c) = String x (a +:+ (b +:+ c))); f_equal; apply IHa).
  rewrite Hass. f_equal. f_equal. apply map_ext. intros i.
  rewrite Nat2Z.inj_succ, Z.pow_succ_r by lia. by rewrite Z.div_div by lia.
Qed.

Lemma uuid_str_chars u :
  let d (i : nat) := hex_digit ((u / 16 ^ Z.of_nat i) mod 16) in
  chars (uuid_str u)
  = map d [31; 30; 29; 28; 27; 26; 25; 24]%nat ++ chars "-" ++ map d [23; 22; 21; 20]%nat
    ++ chars "-" ++ map d [19]%nat ++ map d [18; 17; 16]%nat
    ++ chars "-" ++ map d [15]%nat ++ map d [14; 13; 12]%nat
    ++ chars "-" ++ map d [11; 10; 9; 8; 7; 6; 5; 4; 3; 2; 1; 0]%nat.
Proof.
  intros d. unfold uuid_str, uuid_hex. rewrite hex_digits_text. fold d. clearbody d. reflexivity.
Qed.

(** ** Decimal digits *)

(** The decimal digits of a positive number, without leading zeros. *)
Definition decimal_of (l : list Ascii.ascii) (n : Z) : Prop :=
  forallb is_digit l = true ∧ digits_value 0 l = n
  ∧ match l with c :: _ => code c ≠ 48 | [] => False end.

Lemma pretty_digits_go x s :
  (0 < x)%N → ∃ l, chars (pretty.pretty_N_go x s) = l ++ chars s ∧ decimal_of l (Z.of_N x).
Proof.
  revert s. induction (N.lt_wf_0 x) as [x _ IH]; intros s Hx.
  rewrite pretty.pretty_N_go_step by done.
  set (d := pretty.pretty_N_char (x mod 10)).
  assert (is_digit d = true ∧ code d = 48 + Z.of_N (x mod 10)) as [Hd Hc].
  { pose proof (N.mod_lt x 10 ltac:(done)) as Hlt. subst d. clear IH. revert Hlt.
    generalize (x mod 10)%N. intros r Hr.
    assert (r = 0 ∨ r = 1 ∨ r = 2 ∨ r = 3 ∨ r = 4 ∨ r = 5 ∨ r = 6 ∨ r = 7 ∨ r = 8 ∨ r = 9)%N
      as Hcases by lia.
    repeat destruct Hcases as [->|Hcases]; [split; reflexivity..|]. rewrite Hcases. split; reflexivity. }
  destruct (decide (x < 10)%N) as [Hsmall|Hbig].
  - rewrite N.div_small, pretty.pretty_N_go_0 by done. exists [d].
    rewrite N.mod_small in Hc by done. split; [done|]. split_and!; cbn [forallb digits_value]; [by rewrite Hd| |]; rewrite Hc; lia.
  - destruct (IH (x / 10)%N) with (s := String d s) as (l & El & Hdig & Hv & Hh).
    { apply N.div_lt; lia. } { apply N.div_str_pos. lia. }
    exists (l ++ [d]). rewrite El. split; [by rewrite <- app_assoc|]. split_and!.
    + by rewrite forallb_app, Hdig; simpl; rewrite Hd.
    + rewrite digits_value_app, Hv, Hc. pose proof (N.div_mod x 10). lia.
    + by destruct l.
Qed.

Lemma Z_str_positive p : ∃ l, chars (Z_str (Z.pos p)) = l ∧ decimal_of l (Z.pos p).
Proof.
  destruct (pretty_digits_go (N.pos p) "" ltac:(lia)) as (l & El & Hl). exists l. split; [|exact Hl].
  by rewrite app_nil_r in El.
Qed.

Lemma Z_str_negative p : chars (Z_str (Z.neg p)) = chars "-" ++ chars (Z_str (Z.pos p)).
Proof. apply chars_app. Qed.

(** ** The order of text *)

Lemma str_leb_le a b : str_leb a b = true ↔ String.le a b.
Proof. unfold str_leb, String.le, String.leb. destruct (String.compare a b); done. Qed.

Lemma str_leb_total a b : str_leb a b = true ∨ str_leb b a = true.
Proof. rewrite !str_leb_le. apply (total String.le). Qed.

Lemma str_leb_trans a b c : str_leb a b = true → str_leb b c = true → str_leb a c = true.
Proof. rewrite !str_leb_le. apply transitivity. Qed.

Lemma str_leb_antisym a b : str_leb a b = true → str_leb b a = true → a = b.
Proof. rewrite !str_leb_le. apply (anti_symm String.le). Qed.

(** ** Numeric identifiers *)

(** A numeric identifier is determined by its value: it has no leading zeros. *)
Lemma numeric_value_inj l l' :
  numeric_identifier l = true → numeric_identifier l' = true →
  digits_value 0 l = digits_value 0 l' → l = l'.
Proof.
  assert (∀ a b, numeric_identifier a = true → numeric_identifier b = true →
            (length a < length b)%nat → digits_value 0 a < digits_value 0 b) as Hlt.
  { intros a b Ha Hb Hlen. unfold numeric_identifier, isdigit in Ha, Hb. propify.
    pose proof (digits_value_bound a ltac:(done)) as Hba.
    destruct b as [|c b]; simpl in *; [lia|]. propify.
    assert (48 < code c).
    { match goal with H : _ || _ = true |- _ => apply orb_true_iff in H; destruct H as [H|H] end;
        propify; [destruct a; simpl in *; [done|lia]|].
      pose proof (is_digit_range c ltac:(done)). lia. }
    pose proof (digits_value_bound b ltac:(done)) as Hbb.
    rewrite (digits_value_acc b).
    pose proof (Z.pow_le_mono_r 10 (Z.of_nat (length a)) (Z.of_nat (length b)) ltac:(lia) ltac:(lia)).
    pose proof (Z.pow_nonneg 10 (Z.of_nat (length b)) ltac:(lia)).
    assert (1 * 10 ^ Z.of_nat (length b) ≤ (code c - 48) * 10 ^ Z.of_nat (length b))%Z;
      [apply Z.mul_le_mono_nonneg_r|]; lia. }
  intros Ha Hb Hv. destruct (lt_eq_lt_dec (length l) (length l')) as [[H|H]|H].
  - specialize (Hlt _ _ Ha Hb H). lia.
  - unfold numeric_identifier, isdigit in *. propify. by apply digits_value_inj.
  - specialize (Hlt _ _ Hb Ha H). lia.
Qed.

(** ** Lawful comparisons

    A three-way comparison by -1, 0 and 1 that is a total order on the values
    that satisfy [P]. *)

Record lawful {A} (P : A → Prop) (cmp : A → A → Z) : Prop := {
  cmp_values : ∀ x y, cmp x y = -1 ∨ cmp x y = 0 ∨ cmp x y = 1;
  cmp_zero : ∀ x y, P x → P y → cmp x y = 0 ↔ x = y;
  cmp_antisym : ∀ x y, P x → P y → cmp y x = - cmp x y;
  cmp_trans : ∀ x y z, P x → P y → P z → cmp x y < 0 → cmp y z < 0 → cmp x z < 0
}.

(** The comparison by a strict order. *)
Definition cmp_of {A} `{EqDecision A} (ltb : A → A → bool) (x y : A) : Z :=
  if decide (x = y) then 0 else if ltb x y then -1 else 1.

Record strict_total {A} (P : A → Prop) (ltb : A → A → bool) : Prop := {
  ltb_irrefl : ∀ x, P x → ltb x x = false;
  ltb_trans : ∀ x y z, P x → P y → P z → ltb x y = true → ltb y z = true → ltb x z = true;
  ltb_total : ∀ x y, P x → P y → x ≠ y → ltb x y = true ∨ ltb y x = true
}.

Lemma cmp_of_lawful {A} `{EqDecision A} P (ltb : A → A → bool) :
  strict_total P ltb → lawful P (cmp_of ltb).
Proof.
  intros [Hirr Htr Htot]. unfold cmp_of. split.
  - intros x y. repeat case_match; auto.
  - intros x y _ _. repeat case_match; naive_solver.
  - intros x y Hx Hy. destruct (decide (x = y)) as [->|Hne]; [by rewrite decide_True|].
    rewrite decide_False by done.
    destruct (ltb x y) eqn:Exy, (ltb y x) eqn:Eyx; try done.
    + pose proof (Htr x y x Hx Hy Hx Exy Eyx). by rewrite Hirr in *.
    + destruct (Htot x y Hx Hy Hne); congruence.
  - intros x y z Hx Hy Hz.
    destruct (decide (x = y)), (ltb x y) eqn:Exy; try done.
    destruct (decide (y = z)), (ltb y z) eqn:Eyz; try done.
    intros _ _. rewrite (Htr x y z) by done. destruct (decide (x = z)) as [->|]; [|done].
    pose proof (Htr z y z Hz Hy Hz Exy Eyz). by rewrite Hirr in *.
Qed.

(** Lexicographic comparison of lists: a proper prefix comes first. *)
Fixpoint cmp_lex {A} (cmp : A → A → Z) (l r : list A) : Z :=
  match l, r with
  | [], [] => 0
  | [], _ :: _ => -1
  | _ :: _, [] => 1
  | x :: l', y :: r' => if cmp x y =? 0 then cmp_lex cmp l' r' else cmp x y
  end.

Lemma cmp_lex_lawful {A} P (cmp : A → A → Z) : lawful P cmp → lawful (Forall P) (cmp_lex cmp).
Proof.
  intros [Hval Hz Ha Ht]. split.
  - intros l. induction l as [|x l IH]; intros [|y r]; simpl; auto.
    destruct (cmp x y =? 0); auto.
  - intros l. induction l as [|x l IH]; intros [|y r]; simpl; [done|done|done|].
    intros [Hx Hl]%Forall_cons [Hy Hr]%Forall_cons.
    destruct (Z.eqb_spec (cmp x y) 0) as [E|E].
    + rewrite IH by done. apply Hz in E as ->; [|done..]. split; [by intros ->|by intros [=]].
    + split; [done|]. intros [= -> ->]. by destruct E; apply Hz.
  - intros l. induction l as [|x l IH]; intros [|y r]; simpl; [done|done|done|].
    intros [Hx Hl]%Forall_cons [Hy Hr]%Forall_cons. rewrite (Ha x y) by done.
    destruct (Z.eqb_spec (cmp x y) 0) as [E|E].
    + rewrite E. simpl. by apply IH.
    + destruct (Z.eqb_spec (- cmp x y) 0); lia.
  - intros l. induction l as [|x l IH]; intros [|y r] [|z s]; simpl; try done.
    intros [Hx Hl]%Forall_cons [Hy Hr]%Forall_cons [Hz' Hs]%Forall_cons.
    destruct (Z.eqb_spec (cmp x y) 0) as [E|E].
    + apply Hz in E as ->; [|done..]. destruct (cmp y z =? 0); [by apply IH|done].
    + intros Hxy. destruct (Z.eqb_spec (cmp y z) 0) as [E'|E'].
      * apply Hz in E' as <-; [|done..]. by rewrite (proj2 (Z.eqb_neq _ _) E).
      * intros Hyz. pose proof (Ht x y z Hx Hy Hz' Hxy Hyz).
        by rewrite (proj2 (Z.eqb_neq (cmp x z) 0)) by lia.
Qed.

(** ** Prerelease identifiers *)

Definition item_ltb (x y : list Ascii.ascii) : bool :=
  if isdigit x && isdigit y then digits_value 0 x <? digits_value 0 y
  else if negb (Bool.eqb (isdigit x) (isdigit y)) then isdigit x
  else chars_ltb x y.

Lemma chars_ltb_strict : strict_total (λ _, True) chars_ltb.
Proof.
  split.
  - intros x _. induction x as [|c x IH]; simpl; [done|]. by rewrite Z.ltb_irrefl, IH, andb_false_r.
  - intros x y z _ _ _. revert y z.
    induction x as [|c x IH]; intros [|d y] [|e z]; simpl; try done.
    rewrite !orb_true_iff, !andb_true_iff, !Z.ltb_lt, !Z.eqb_eq.
    intros [H1|[H1 H1']] [H2|[H2 H2']]; try (left; lia). right. split; [lia|by eapply IH].
  - intros x y _ _. revert y. induction x as [|c x IH]; intros [|d y]; simpl; auto.
    intros Hne. rewrite !orb_true_iff, !andb_true_iff, !Z.ltb_lt, !Z.eqb_eq.
    destruct (Z.lt_trichotomy (code c) (code d)) as [H|[H|H]]; auto.
    apply code_inj in H as ->. destruct (IH y) as [H|H]; [congruence|auto..].
Qed.

Definition prerelease_ok (l : list Ascii.ascii) : Prop := prerelease_identifier l = true.

Lemma prerelease_numeric l : prerelease_ok l → isdigit l = true → numeric_identifier l = true.
Proof.
  unfold prerelease_ok, prerelease_identifier. intros [H|H]%orb_true_iff Hd; [done|].
  propify. unfold isdigit in Hd. propify.
  rewrite existsb_exists in H0. destruct H0 as (c & Hc & Hnd).
  rewrite forallb_forall in H2. rewrite (H2 c Hc) in Hnd. done.
Qed.

Lemma item_ltb_strict : strict_total prerelease_ok item_ltb.
Proof.
  destruct chars_ltb_strict as [Hirr Htr Htot]. unfold item_ltb. split.
  - intros x _. rewrite Bool.eqb_reflx, Z.ltb_irrefl. simpl. destruct (isdigit x); simpl; auto.
  - intros x y z _ _ _. destruct (isdigit x), (isdigit y), (isdigit z); simpl; try done.
    + rewrite !Z.ltb_lt. lia.
    + eauto.
  - intros x y Hx Hy Hne. destruct (isdigit x) eqn:Ex, (isdigit y) eqn:Ey; simpl; auto.
    rewrite !Z.ltb_lt.
    destruct (Z.lt_trichotomy (digits_value 0 x) (digits_value 0 y)) as [H|[H|H]]; auto.
    apply numeric_value_inj in H; [done|by apply prerelease_numeric..].
Qed.

Lemma compare_prerelease_lex l r : compare_prerelease l r = cmp_lex (cmp_of item_ltb) l r.
Proof.
  revert r. induction l as [|x l IH]; intros [|y r]; simpl; auto.
  unfold cmp_of, item_ltb. destruct (decide (x = y)) as [->|Hne]; [apply IH|].
  destruct (isdigit x), (isdigit y); simpl; try done; by repeat case_match.
Qed.

(** ** Versions *)

Lemma core_ltb_strict : strict_total (λ _, True) core_ltb.
Proof.
  unfold core_ltb. split.
  - intros [[a b] c] _. rewrite !Z.ltb_irrefl. by rewrite !andb_false_r.
  - intros [[a b] c] [[a' b'] c'] [[a'' b''] c''] _ _ _.
    rewrite !orb_true_iff, !andb_true_iff, !orb_true_iff, !andb_true_iff, !Z.ltb_lt, !Z.eqb_eq. lia.
  - intros [[a b] c] [[a' b'] c'] _ _ Hne.
    rewrite !orb_true_iff, !andb_true_iff, !orb_true_iff, !andb_true_iff, !Z.ltb_lt, !Z.eqb_eq.
    destruct (decide (a = a')), (decide (b = b')), (decide (c = c')); subst; try done; lia.
Qed.

(** The parts of a version the contracts accept. *)
Definition semver_ok (v : semver) : Prop := from_option (Forall prerelease_ok) True v.2.

(** A release comes after its prereleases. *)
Definition cmp_pre (l r : option (list (list Ascii.ascii))) : Z :=
  match l, r with
  | None, None => 0 | None, Some _ => 1 | Some _, None => -1
  | Some l, Some r => compare_prerelease l r
  end.

Lemma compare_parts_lex l r :
  compare_parts l r
  = if cmp_of core_ltb l.1 r.1 =? 0 then cmp_pre l.2 r.2 else cmp_of core_ltb l.1 r.1.
Proof.
  unfold compare_parts, cmp_of, cmp_pre. rewrite <- decide_bool_decide || idtac.
  case_bool_decide; simpl; [rewrite decide_True by done; by repeat case_match|].
  rewrite decide_False by done. by destruct (core_ltb l.1 r.1).
Qed.

Lemma compare_parts_lawful : lawful semver_ok compare_parts.
Proof.
  destruct (cmp_of_lawful _ _ core_ltb_strict) as [CV CZ CA CT].
  destruct (cmp_lex_lawful _ _ (cmp_of_lawful _ _ item_ltb_strict)) as [PV PZ PA PT].
  split.
  - intros x y. rewrite compare_parts_lex. destruct (_ =? 0); [|apply CV].
    destruct (x.2), (y.2); simpl; rewrite ?compare_prerelease_lex; auto.
  - intros [xc xp] [yc yp] Hx Hy. unfold semver_ok in *. rewrite compare_parts_lex; simpl in *.
    destruct (Z.eqb_spec (cmp_of core_ltb xc yc) 0) as [E|E].
    + apply CZ in E as ->; [|done..]. destruct xp, yp; simpl in *; try done.
      rewrite compare_prerelease_lex, PZ by done. split; [by intros ->|by intros [=]].
    + split; [done|]. intros [= -> ->]. by destruct E; apply CZ.
  - intros [xc xp] [yc yp] Hx Hy. unfold semver_ok in *. rewrite !compare_parts_lex; simpl in *.
    rewrite (CA xc yc) by done. destruct (Z.eqb_spec (cmp_of core_ltb xc yc) 0) as [E|E].
    + rewrite E; simpl. destruct xp, yp; simpl in *; try done. rewrite !compare_prerelease_lex. auto.
    + destruct (Z.eqb_spec (- cmp_of core_ltb xc yc) 0); lia.
  - intros [xc xp] [yc yp] [zc zp] Hx Hy Hz. unfold semver_ok in *.
    rewrite !compare_parts_lex; simpl in *.
    destruct (Z.eqb_spec (cmp_of core_ltb xc yc) 0) as [E|E].
    + apply CZ in E as ->; [|done..]. destruct (_ =? 0); [|done].
      destruct xp, yp, zp; simpl in *; try done. rewrite !compare_prerelease_lex. eauto.
    + intros Hxy. destruct (Z.eqb_spec (cmp_of core_ltb yc zc) 0) as [E'|E'].
      * apply CZ in E' as <-; [|done..]. by rewrite (proj2 (Z.eqb_neq _ _) E).
      * intros Hyz. pose proof (CT xc yc zc I I I Hxy Hyz).
        by rewrite (proj2 (Z.eqb_neq (cmp_of core_ltb xc zc) 0)) by lia.
Qed.

(** ** Accepted versions have parts *)

Lemma numeric_int l : numeric_identifier l = true → int l = Some (digits_value 0 l).
Proof. unfold numeric_identifier, int. intros. propify. by rewrite H. Qed.

Lemma accepted_parts s :
  SemanticVersionV1 s = true → ∃ v, _semver_parts s = Some v ∧ semver_ok v.
Proof.
  unfold SemanticVersionV1, semver_pattern, _semver_parts. intros H. propify.
  destruct (partition plus (chars s)) as [without_build build]; simpl.
  destruct (partition hyphen without_build) as [core pre]. propify.
  destruct (split dot core) as [|a [|b [|c [|d core']]]]; simpl in *; try done.
  propify. rewrite !numeric_int by done. eexists; split; [done|].
  unfold semver_ok. destruct pre as [p|]; simpl in *; [|done].
  apply Forall_forall. intros x Hx. 
  match goal with H : forallb prerelease_identifier _ = true |- _ =>
    rewrite forallb_forall in H; by apply H, list_elem_of_In end.
Qed.

(** C15: [_compare_semver] never fails on versions the contracts accept
    (SemanticVersionV1), answers -1, 0 or 1, and is a total order on them:
    antisymmetric, transitive, and 0 exactly for versions with the same core
    and prerelease parts (build metadata is ignored). *)
Theorem compare_semver_total_order a b c :
  SemanticVersionV1 a = true → SemanticVersionV1 b = true → SemanticVersionV1 c = true →
  ∃ ab bc ac,
    _compare_semver a b = Some ab ∧ _compare_semver b c = Some bc ∧ _compare_semver a c = Some ac
    ∧ _compare_semver b a = Some (- ab)
    ∧ (ab = -1 ∨ ab = 0 ∨ ab = 1)
    ∧ (ab = 0 ↔ _semver_parts a = _semver_parts b)
    ∧ (ab <= 0 → bc <= 0 → ac <= 0).
Proof.
  intros (x & Hx & Ox)%accepted_parts (y & Hy & Oy)%accepted_parts (z & Hz & Oz)%accepted_parts.
  destruct compare_parts_lawful as [V Z' A T]. unfold _compare_semver. rewrite Hx, Hy, Hz; simpl.
  eexists _, _, _. repeat (split; [done|]). split; [f_equal; by apply A|].
  split; [apply V|]. split; [rewrite Z' by done; split; [by intros ->|by intros [=]]|].
  intros Hxy Hyz.
  destruct (decide (x = y)) as [->|Hne]; [done|]. destruct (decide (y = z)) as [->|Hne']; [done|].
  assert (∀ u v, semver_ok u → semver_ok v → u ≠ v → compare_parts u v <= 0 → compare_parts u v < 0)
    as Hstrict.
  { intros u v Hu Hv Huv Hle. destruct (V u v) as [E|[E|E]]; [lia| |lia]. by apply Z' in E. }
  pose proof (T x y z Ox Oy Oz (Hstrict x y Ox Oy Hne Hxy) (Hstrict y z Oy Oz Hne' Hyz)). lia.
Qed.

Lemma compare_semver_total_order_witness :
  ∃ ab bc ac,
    _compare_semver "1.0.0-rc.2" "1.0.0-rc.10" = Some ab
    ∧ _compare_semver "1.0.0-rc.10" "1.0.0+build.7" = Some bc
    ∧ _compare_semver "1.0.0-rc.2" "1.0.0+build.7" = Some ac
    ∧ _compare_semver "1.0.0-rc.10" "1.0.0-rc.2" = Some (- ab)
    ∧ (ab = -1 ∨ ab = 0 ∨ ab = 1)
    ∧ (ab = 0 ↔ _semver_parts "1.0.0-rc.2" = _semver_parts "1.0.0-rc.10")
    ∧ (ab <= 0 → bc <= 0 → ac <= 0).
Proof. apply compare_semver_total_order; vm_compute; reflexivity. Defined.
