(* ===== verification/Updates.v ===== *)
(** * Update rollouts (endpoint_server/updates/service.py)

    Immutable builds, rollouts with one target per device, the agent's
    acknowledgements and terminal reports, rollbacks, the recommendation an agent
    is given and the cancellation of a paused singleton rollout with its receipt.
    Advisory and row locks have no effect here. *)

From S2P Require Import Prelude Store Session AuditLog Semver.

(** ** Contracts (endpoint_contracts/updates.py) *)

Record UpdateBuildManifestV1 := {
  manifest_build_identifier : string;
  manifest_version : string;
  manifest_minimum_launcher_version : option string;
  manifest_platform : string;
  manifest_channel : string;
  manifest_artifact_url : string;
  manifest_artifact_name : string;
  manifest_archive_type : string;
  manifest_sha256 : string;
  manifest_size : Z;
  manifest_release_notes : option string
}.

Record AgentUpdateReportV1 := {
  report_key : string;
  report_status : target_status;
  reported_version : string;
  report_safe_code : option string
}.

Record AgentUpdateRecommendationV1 := {
  rec_build_identifier : string;
  rec_version : string;
  rec_platform : string;
  rec_channel : string;
  rec_artifact_url : string;
  rec_artifact_name : string;
  rec_archive_type : string;
  rec_sha256 : string;
  rec_size : Z;
  rec_operation_id : string;
  rec_reason : option string
}.

(** What the service calls outside: the URL checks of pydantic and urllib, and
    the inspection of a Windows archive on disk
    (endpoint_contracts/runtime_payload.py), by its root directory. *)
Class UpdateContracts := {
  canonical_artifact_url : string → bool;
  windows_artifact_verified : string → UpdateBuildManifestV1 → bool
}.

Definition _ACTIVE_TARGET_STATUSES : list target_status := [t_assigned; t_requested; t_scheduled].
Definition _TERMINAL_TARGET_STATUSES : list target_status :=
  [t_applied; t_failed; t_rolled_back; t_cancelled].
Definition _PLATFORMS : list string := ["linux_amd64"; "windows_amd64"].

(** [value.endswith(suffix)] *)
Definition endswith (suffix value : string) : bool :=
  let n := (String.length value - String.length suffix)%nat in
  bool_decide (String.substring n (String.length suffix) value = suffix).

Definition target_status_str (s : target_status) : string :=
  match s with
  | t_assigned => "assigned" | t_requested => "requested" | t_scheduled => "scheduled"
  | t_applied => "applied" | t_failed => "failed" | t_rolled_back => "rolled_back"
  | t_cancelled => "cancelled"
  end.

Definition mode_str (m : rollout_mode) : string :=
  match m with m_canary => "canary" | m_bulk => "bulk" | m_rollback => "rollback" end.

Definition parse_mode (s : string) : option rollout_mode :=
  if decide (s = "canary") then Some m_canary
  else if decide (s = "bulk") then Some m_bulk
  else if decide (s = "rollback") then Some m_rollback else None.

#[export] Instance UpdateBuild_eq_dec : EqDecision UpdateBuild.
Proof. solve_decision. Defined.

Section updates.
Context `{UpdateContracts}.

(** ** Validation *)

(** _ImmutableUpdateManifestV1 *)
Definition immutable_manifest_ok (build_identifier version platform channel artifact_url
    artifact_name archive_type sha256 : string) (size : Z) : bool :=
  UpdateIdentifierV1 build_identifier && SemanticVersionV1 version
  && str_in platform ["linux_amd64"; "windows_amd64"] && str_in channel ["stable"; "canary"]
  && str_in archive_type ["zip"; "tar.gz"] && canonical_artifact_url artifact_url
  && ArtifactNameV1 artifact_name && Sha256V1 sha256
  && (0 <? size) && (size <=? 2 ^ 63 - 1)
  && endswith ("." +:+ archive_type) artifact_name.

(** [UpdateBuildManifestV1.model_validate] *)
Definition manifest_ok (m : UpdateBuildManifestV1) : bool :=
  immutable_manifest_ok (manifest_build_identifier m) (manifest_version m)
    (manifest_platform m) (manifest_channel m) (manifest_artifact_url m)
    (manifest_artifact_name m) (manifest_archive_type m) (manifest_sha256 m) (manifest_size m)
  && opt_all SemanticVersionV1 (manifest_minimum_launcher_version m)
  && is_some (validate_public_update_prose (manifest_release_notes m) 4096 false true).

Definition _manifest (m : UpdateBuildManifestV1) : Tx UpdateBuildManifestV1 :=
  raise_if (negb (manifest_ok m)) (UpdateValidationError "invalid immutable build manifest") ;;
  mret m.

Definition _acknowledgement (status : target_status) : Tx target_status :=
  raise_if (negb (in_set status [t_requested; t_scheduled]))
    (UpdateValidationError "invalid update acknowledgement") ;;
  mret status.

(** [AgentUpdateReportV1.model_validate] *)
Definition report_ok (r : AgentUpdateReportV1) : bool :=
  UpdateIdentifierV1 (report_key r) && in_set (report_status r) [t_applied; t_failed; t_rolled_back]
  && SemanticVersionV1 (reported_version r) && opt_all SafeCodeV1 (report_safe_code r)
  && negb (has_opaque_secret (report_key r)) && negb (has_opaque_secret (reported_version r)).

Definition _report (r : AgentUpdateReportV1) : Tx AgentUpdateReportV1 :=
  raise_if (negb (report_ok r)) (UpdateValidationError "invalid update report") ;;
  mret r.

Definition _timestamp (value : option datetime) : Tx datetime :=
  checked ← now_or value;
  raise_if (negb (is_aware checked)) (UpdateValidationError "timestamp must be timezone-aware") ;;
  mret (as_utc checked).

Definition _request_id (value : string) : Tx string :=
  raise_if (negb (safe_name 127 value))
    (UpdateValidationError "request id must be an opaque safe identifier") ;;
  mret value.

(** The actor arrives as the text of its identifier. *)
Definition _actor_identifier (actor : string) : Tx string :=
  raise_if (negb (safe_name 127 actor))
    (UpdateValidationError "actor must have a bounded identifier") ;;
  mret actor.

Definition _safe_reason (value : option string) (required : bool) : Tx (option string) :=
  require (validate_public_update_prose value 512 required false)
    (UpdateValidationError "reason must be bounded safe text").

(** ** Builds *)

Definition _build_values (m : UpdateBuildManifestV1) : Tx UpdateBuild :=
  release_notes ← require (validate_public_update_prose (manifest_release_notes m) 4096 false true)
    (UpdateValidationError "release notes must be bounded safe text");
  mret {|
    bld_build_identifier := manifest_build_identifier m;
    bld_version := manifest_version m;
    bld_minimum_launcher_version := manifest_minimum_launcher_version m;
    bld_platform := manifest_platform m;
    bld_channel := manifest_channel m;
    bld_artifact_identifier := manifest_artifact_name m;
    bld_artifact_url := manifest_artifact_url m;
    bld_artifact_name := manifest_artifact_name m;
    bld_archive_type := manifest_archive_type m;
    bld_sha256_digest := manifest_sha256 m;
    bld_size := manifest_size m;
    bld_release_notes := release_notes |}.

(** A build with the same identifier, or the same platform, channel and version. *)
Definition same_identity (m : UpdateBuildManifestV1) (_ : uuid) (b : UpdateBuild) : bool :=
  bool_decide (bld_build_identifier b = manifest_build_identifier m)
  || (bool_decide (bld_platform b = manifest_platform m)
      && bool_decide (bld_channel b = manifest_channel m)
      && bool_decide (bld_version b = manifest_version m)).

(** [try: flush except IntegrityError: raise UpdateConflict] *)
Definition flush_or_conflict (message : string) : Tx unit :=
  try_except flush (λ e, match e with
                         | IntegrityError _ => Some (raise (UpdateConflict message))
                         | _ => None
                         end).

Definition register_build (manifest : UpdateBuildManifestV1) (actor request_id : string)
    (now : option datetime) (artifact_root : option string) : Tx uuid :=
  validated ← _manifest manifest;
  actor_id ← _actor_identifier actor;
  correlation_id ← _request_id request_id;
  occurred_at ← _timestamp now;
  values ← _build_values validated;
  existing ← select (same_identity validated);
  match existing with
  | (id, build) :: rest =>
      if bool_decide (rest = []) && bool_decide (build = values) then mret id
      else raise (UpdateConflict "build identity already owns a different manifest")
  | [] =>
      when (bool_decide (manifest_platform validated = "windows_amd64"))
        (raise_if
           (match artifact_root with
            | None => true
            | Some root => negb (bool_decide (manifest_archive_type validated = "zip"))
                           || negb (windows_artifact_verified root validated)
            end)
           (UpdateValidationError "Windows artifact provenance is invalid")) ;;
      build_id ← uuid4;
      insert build_id values ;;
      append_audit_event "admin" (Some actor_id) "updates.build_registered" "update_build"
        (Some (uuid_str build_id)) correlation_id
        [(KStr "build_identifier", PStr (bld_build_identifier values));
         (KStr "channel", PStr (bld_channel values));
         (KStr "platform", PStr (bld_platform values));
         (KStr "version", PStr (bld_version values))]
        (Some occurred_at) ;;
      flush_or_conflict "build identity is already registered" ;;
      mret build_id
  end.

Definition _locked_build (build_id : uuid) : Tx UpdateBuild :=
  build ← get build_id;
  require build (UpdateNotFound "update build not found").

Definition _locked_rollout (rollout_id : uuid) : Tx UpdateRollout :=
  rollout ← get rollout_id;
  require rollout (UpdateNotFound "update rollout not found").

(** ** Creating rollouts *)

(** [UpdateRolloutCreateV1.model_validate] *)
Definition rollout_input_ok (build_identifier mode : string) (device_ids : list uuid)
    (reason : option string) : bool :=
  let n := Z.of_nat (length device_ids) in
  UpdateIdentifierV1 build_identifier && is_some (parse_mode mode)
  && (1 <=? n) && (n <=? 10000) && bool_decide (NoDup device_ids)
  && opt_all (λ r, negb (bool_decide (r = "")) && (Z.of_nat (String.length r) <=? 512)) reason
  && negb (bool_decide (mode = "rollback") && is_none reason).

Definition _validate_rollout_input (build : UpdateBuild) (mode : string)
    (device_ids : list uuid) (reason : option string)
    : Tx (rollout_mode * list uuid * option string) :=
  normalized_reason ← _safe_reason reason (bool_decide (mode = "rollback"));
  raise_if (negb (rollout_input_ok (bld_build_identifier build) mode device_ids normalized_reason))
    (UpdateValidationError "invalid update rollout") ;;
  mode ← require (parse_mode mode) (UpdateValidationError "invalid update rollout");
  mret (mode, device_ids, normalized_reason).

Definition _lock_assignable_devices (device_ids : list uuid)
    (excluding_rollout_id : option uuid) : Tx unit :=
  devices ← select (λ id (d : Device), bool_decide (id ∈ device_ids) && is_none (dev_retired_at d));
  raise_if (negb (length devices =? length device_ids)%nat)
    (UpdateNotFound "one or more update devices were not found") ;;
  owned ← select (λ _ t,
    bool_decide (tgt_device_id t ∈ device_ids) && in_set (tgt_status t) _ACTIVE_TARGET_STATUSES
    && negb (bool_decide (excluding_rollout_id = Some (tgt_rollout_id t))));
  raise_if (negb (bool_decide (owned = [])))
    (UpdateConflict "one or more devices already have an active update").

(** A completed canary of the build. *)
Definition completed_canary (build_id : uuid) (_ : uuid) (r : UpdateRollout) : bool :=
  (ro_build_id r =? build_id) && bool_decide (ro_mode r = m_canary)
  && bool_decide (ro_status r = r_completed).

Definition _require_completed_canary (build_id : uuid) : Tx unit :=
  canary ← scalar (completed_canary build_id);
  raise_if (is_none canary) (UpdateStateError "bulk rollout requires a completed canary").

Definition new_target (rollout_id device_id : uuid) (target_identifier operation_id : string)
    (reason : option string) (now : datetime) : UpdateTarget := {|
  tgt_rollout_id := rollout_id;
  tgt_device_id := device_id;
  tgt_target_identifier := target_identifier;
  tgt_operation_id := operation_id;
  tgt_status := t_assigned;
  tgt_assigned_at := now;
  tgt_requested_at := None;
  tgt_scheduled_at := None;
  tgt_terminal_at := None;
  tgt_safe_reason := reason;
  tgt_updated_at := Some now |}.

(** The body of the loop that assigns a rollout to a device. *)
Definition assign_target (rollout_id : uuid) (rollout_identifier : string)
    (reason : option string) (actor_id request_id : string) (now : datetime)
    (device_id : uuid) : Tx unit :=
  target_id ← uuid4;
  suffix ← uuid4;
  operation_id ← uuid4;
  insert target_id
    (new_target rollout_id device_id ("ut_" +:+ uuid_hex suffix) (uuid_str operation_id) reason now) ;;
  append_audit_event "admin" (Some actor_id) "updates.target_assigned" "update_target"
    (Some (uuid_str target_id)) request_id
    [(KStr "device_id", PUuid device_id); (KStr "rollout_identifier", PStr rollout_identifier);
     (KStr "status", PStr "assigned")]
    (Some now) ;;
  mret tt.

Definition _create_active_rollout (build_id : uuid) (build : UpdateBuild) (mode : rollout_mode)
    (device_ids : list uuid) (reason : option string) (actor_id request_id : string)
    (now : datetime) : Tx uuid :=
  _lock_assignable_devices device_ids None ;;
  rollout_id ← uuid4;
  suffix ← uuid4;
  let rollout_identifier := "ur_" +:+ uuid_hex suffix in
  insert rollout_id {|
    ro_rollout_identifier := rollout_identifier;
    ro_build_id := build_id;
    ro_mode := mode;
    ro_reason := reason;
    ro_status := r_active;
    ro_started_at := Some now;
    ro_paused_at := None;
    ro_completed_at := None;
    ro_cancelled_at := None |} ;;
  append_audit_event "admin" (Some actor_id) "updates.rollout_created" "update_rollout"
    (Some (uuid_str rollout_id)) request_id
    [(KStr "build_identifier", PStr (bld_build_identifier build));
     (KStr "mode", PStr (mode_str mode));
     (KStr "reason", from_option PStr PNone reason);
     (KStr "status", PStr "active");
     (KStr "target_count", PInt (Z.of_nat (length device_ids)))]
    (Some now) ;;
  for_each device_ids (assign_target rollout_id rollout_identifier reason actor_id request_id now) ;;
  flush_or_conflict "an update target is already active" ;;
  mret rollout_id.

Definition create_rollout (build_id : uuid) (mode : string) (device_ids : list uuid)
    (reason : option string) (actor request_id : string) (now : option datetime) : Tx uuid :=
  raise_if (bool_decide (mode = "rollback"))
    (UpdateStateError "rollback must name a triggering rollout") ;;
  build ← _locked_build build_id;
  '(mode, normalized_ids, normalized_reason) ←
    _validate_rollout_input build mode device_ids reason;
  when (bool_decide (mode = m_bulk)) (_require_completed_canary build_id) ;;
  actor_id ← _actor_identifier actor;
  request_id ← _request_id request_id;
  now ← _timestamp now;
  _create_active_rollout build_id build mode normalized_ids normalized_reason actor_id request_id now.

(** ** The life of a rollout *)

Definition device_order (a b : uuid * UpdateTarget) : bool :=
  tgt_device_id a.2 <=? tgt_device_id b.2.

Definition targets_of (rollout_id : uuid) : Tx (list (uuid * UpdateTarget)) :=
  select (λ _ t, tgt_rollout_id t =? rollout_id).

Definition active_target (t : uuid * UpdateTarget) : bool :=
  in_set (tgt_status t.2) _ACTIVE_TARGET_STATUSES.
Definition terminal_target (t : uuid * UpdateTarget) : bool :=
  in_set (tgt_status t.2) _TERMINAL_TARGET_STATUSES.

(** The audit event of an administrator's change to a rollout. *)
Definition audit_rollout (actor_kind actor_id action request_id : string) (rollout_id : uuid)
    (details : list (pykey * pyval)) (occurred_at : datetime) : Tx unit :=
  append_audit_event actor_kind (Some actor_id) action "update_rollout"
    (Some (uuid_str rollout_id)) request_id details (Some occurred_at) ;;
  mret tt.

Definition activate_rollout (rollout_id : uuid) (actor request_id : string)
    (now : option datetime) : Tx uuid :=
  rollout ← _locked_rollout rollout_id;
  if decide (ro_status rollout = r_active) then mret rollout_id
  else
    raise_if (negb (bool_decide (ro_status rollout = r_paused)))
      (UpdateStateError "rollout cannot be activated from its current state") ;;
    let no_targets := UpdateStateError "rollout has no resumable targets" in
    targets ← targets_of rollout_id;
    let device_ids :=
      map (λ t : uuid * UpdateTarget, tgt_device_id t.2)
        (order_by device_order (List.filter active_target targets)) in
    raise_if (bool_decide (device_ids = [])) no_targets ;;
    _lock_assignable_devices device_ids (Some rollout_id) ;;
    targets ← targets_of rollout_id;
    let active_targets := List.filter active_target (order_by device_order targets) in
    raise_if (negb (bool_decide
      (map (λ t : uuid * UpdateTarget, tgt_device_id t.2) active_targets = device_ids))) no_targets ;;
    occurred_at ← _timestamp now;
    update rollout_id (λ r : UpdateRollout,
      r <| ro_status := r_active |>
        <| ro_started_at := or_else (ro_started_at r) (Some occurred_at) |>
        <| ro_paused_at := None |>) ;;
    actor_id ← _actor_identifier actor;
    request_id ← _request_id request_id;
    audit_rollout "admin" actor_id "updates.rollout_activated" request_id rollout_id
      [(KStr "status", PStr "active")] occurred_at ;;
    flush ;;
    mret rollout_id.

Definition pause_rollout (rollout_id : uuid) (actor request_id : string)
    (now : option datetime) : Tx uuid :=
  rollout ← _locked_rollout rollout_id;
  if decide (ro_status rollout = r_paused) then mret rollout_id
  else
    raise_if (negb (bool_decide (ro_status rollout = r_active)))
      (UpdateStateError "only an active rollout can be paused") ;;
    occurred_at ← _timestamp now;
    update rollout_id (λ r : UpdateRollout,
      r <| ro_status := r_paused |> <| ro_paused_at := Some occurred_at |>) ;;
    actor_id ← _actor_identifier actor;
    request_id ← _request_id request_id;
    audit_rollout "admin" actor_id "updates.rollout_paused" request_id rollout_id
      [(KStr "status", PStr "paused")] occurred_at ;;
    flush ;;
    mret rollout_id.

Definition complete (occurred_at : datetime) (r : UpdateRollout) : UpdateRollout :=
  r <| ro_status := r_completed |> <| ro_completed_at := Some occurred_at |>
    <| ro_paused_at := None |>.

Definition all_terminal (targets : list (uuid * UpdateTarget)) : bool :=
  negb (bool_decide (targets = [])) && forallb terminal_target targets.

Definition complete_rollout (rollout_id : uuid) (actor request_id : string)
    (now : option datetime) : Tx uuid :=
  rollout ← _locked_rollout rollout_id;
  if decide (ro_status rollout = r_completed) then mret rollout_id
  else
    raise_if (negb (in_set (ro_status rollout) [r_active; r_paused]))
      (UpdateStateError "rollout cannot be completed from its current state") ;;
    targets ← targets_of rollout_id;
    raise_if (negb (all_terminal targets))
      (UpdateStateError "all rollout targets must be terminal") ;;
    occurred_at ← _timestamp now;
    update rollout_id (complete occurred_at) ;;
    actor_id ← _actor_identifier actor;
    request_id ← _request_id request_id;
    audit_rollout "admin" actor_id "updates.rollout_completed" request_id rollout_id
      [(KStr "status", PStr "completed");
       (KStr "target_count", PInt (Z.of_nat (length targets)))] occurred_at ;;
    flush ;;
    mret rollout_id.

(** ** Rollback *)

(** [{target.device_id: target for target in ordered}[device_id]]: the last
    target of a device wins. *)
Definition target_by_device (device_id : uuid) (ordered : list (uuid * UpdateTarget))
    : option (uuid * UpdateTarget) :=
  last (List.filter (λ t : uuid * UpdateTarget, tgt_device_id t.2 =? device_id) ordered).

Definition device_id_order (a b : uuid * UpdateTarget) : bool :=
  lex_leb (tgt_device_id a.2, a.1) (tgt_device_id b.2, b.1).

Definition create_rollback_rollout (trigger_id rollback_build_id : uuid) (device_ids : list uuid)
    (reason actor request_id : string) (now : option datetime) : Tx uuid :=
  trigger_row ← get (R := UpdateRollout) trigger_id;
  trigger_row ← require trigger_row (UpdateNotFound "update rollout not found");
  let trigger_build_id := ro_build_id trigger_row in
  trigger_build ← get trigger_build_id;
  rollback_build ← get rollback_build_id;
  trigger_build ← require trigger_build (UpdateNotFound "update build not found");
  rollback_build ← require rollback_build (UpdateNotFound "update build not found");
  trigger ← _locked_rollout trigger_id;
  raise_if (negb (ro_build_id trigger =? trigger_build_id))
    (UpdateConflict "triggering rollout changed during rollback") ;;
  trigger_targets ← targets_of trigger_id;
  let trigger_targets := order_by device_id_order trigger_targets in
  raise_if (bool_decide (trigger_targets = []))
    (UpdateStateError "triggering rollout has no affected devices") ;;
  raise_if (bool_decide (ro_status trigger = r_draft))
    (UpdateStateError "a targetless draft cannot trigger rollback") ;;
  raise_if (rollback_build_id =? trigger_build_id)
    (UpdateStateError "rollback build must differ from trigger build") ;;
  raise_if (negb (bool_decide (bld_platform rollback_build = bld_platform trigger_build)))
    (UpdateStateError "rollback build must target the same platform") ;;
  order ← require (_compare_semver (bld_version rollback_build) (bld_version trigger_build))
    (ValueError "invalid version");
  raise_if (0 <=? order) (UpdateStateError "rollback build must be older than trigger build") ;;
  safe_reason ← _safe_reason (Some reason) true;
  let combined_reason :=
    "rollback of " +:+ uuid_str trigger_id +:+ "; " +:+ default "None" safe_reason in
  raise_if (512 <? Z.of_nat (String.length combined_reason))
    (UpdateValidationError "rollback reason is too long") ;;
  '(_, normalized_ids, normalized_reason) ←
    _validate_rollout_input rollback_build "rollback" device_ids (Some combined_reason);
  raise_if (existsb (λ d, is_none (target_by_device d trigger_targets)) normalized_ids)
    (UpdateStateError "rollback devices must be a subset of the triggering rollout") ;;
  raise_if (existsb (λ d, negb (from_option terminal_target false
                                  (target_by_device d trigger_targets))) normalized_ids)
    (UpdateStateError "rollback devices must have terminal trigger targets") ;;
  actor_id ← _actor_identifier actor;
  request_id ← _request_id request_id;
  now ← _timestamp now;
  _create_active_rollout rollback_build_id rollback_build m_rollback normalized_ids
    normalized_reason actor_id request_id now.

(** ** What an agent is recommended *)

(** db/instance_order.py: [last_seen_at DESC NULLS LAST, id DESC] *)
Definition latest_instance_order (a b : uuid * DeviceInstance) : bool :=
  match inst_last_seen_at a.2, inst_last_seen_at b.2 with
  | Some x, Some y => lex_leb (instant y, b.1) (instant x, a.1)
  | Some _, None => true
  | None, Some _ => false
  | None, None => b.1 <=? a.1
  end.

Definition latest_launcher_version (device_id : uuid) : Tx (option string) :=
  instances ← select (λ _ i, inst_device_id i =? device_id);
  mret (i ← head (order_by latest_instance_order instances); inst_launcher_version i.2).

(** The launcher reported last is a valid version not older than [minimum]. *)
Definition launcher_suffices (reported : option string) (minimum : string) : bool :=
  match reported with
  | None => false
  | Some reported =>
      SemanticVersionV1 reported && SemanticVersionV1 minimum
      && match _compare_semver reported minimum with Some c => 0 <=? c | None => false end
  end.

(** The target, rollout and build of the joined query. *)
Definition visible_update (device_id : uuid) (platform : string)
    : Tx (option (UpdateTarget * UpdateRollout * UpdateBuild)) :=
  targets ← select (λ _ t,
    (tgt_device_id t =? device_id) && in_set (tgt_status t) _ACTIVE_TARGET_STATUSES);
  for_return targets (λ t,
    rollout ← get (tgt_rollout_id t.2);
    match rollout with
    | None => mret None
    | Some rollout =>
        build ← get (ro_build_id rollout);
        match build with
        | None => mret None
        | Some build =>
            mret (if bool_decide (ro_status rollout = r_active)
                     && bool_decide (bld_platform build = platform)
                  then Some (t.2, rollout, build) else None)
        end
    end).

(** [a or b] on optional strings, where the empty string is falsy *)
Definition text_or (a b : option string) : option string :=
  match a with Some "" | None => b | Some _ => a end.

Definition make_recommendation (target : UpdateTarget) (rollout : UpdateRollout)
    (build : UpdateBuild) : Tx AgentUpdateRecommendationV1 :=
  let reason := text_or (tgt_safe_reason target) (ro_reason rollout) in
  raise_if
    (negb (immutable_manifest_ok (bld_build_identifier build) (bld_version build)
             (bld_platform build) (bld_channel build) (bld_artifact_url build)
             (bld_artifact_name build) (bld_archive_type build) (bld_sha256_digest build)
             (bld_size build))
     || negb (opt_all (λ r, negb (bool_decide (r = ""))
                            && (Z.of_nat (String.length r) <=? 512)) reason))
    (ValidationError "AgentUpdateRecommendationV1") ;;
  mret {|
    rec_build_identifier := bld_build_identifier build;
    rec_version := bld_version build;
    rec_platform := bld_platform build;
    rec_channel := bld_channel build;
    rec_artifact_url := bld_artifact_url build;
    rec_artifact_name := bld_artifact_name build;
    rec_archive_type := bld_archive_type build;
    rec_sha256 := bld_sha256_digest build;
    rec_size := bld_size build;
    rec_operation_id := tgt_operation_id target;
    rec_reason := reason |}.

Definition recommendation_for_device (device_id : uuid) (platform : string)
    (now : option datetime) : Tx (option AgentUpdateRecommendationV1) :=
  _timestamp now ;;
  if negb (str_in platform _PLATFORMS) then mret None
  else
    row ← visible_update device_id platform;
    match row with
    | None => mret None
    | Some (target, rollout, build) =>
        suffices ←
          match bld_minimum_launcher_version build with
          | None => mret true
          | Some minimum =>
              reported ← latest_launcher_version (tgt_device_id target);
              mret (launcher_suffices reported minimum)
          end;
        if suffices : bool then
          recommendation ← make_recommendation target rollout build;
          mret (Some recommendation)
        else mret None
    end.

(** ** What an agent reports *)

(** The target of an operation of a device, its rollout and its build, with
    the ids of target and rollout. *)
Definition _locked_target_context (device_id operation_id : uuid)
    : Tx ((uuid * UpdateTarget) * (uuid * UpdateRollout) * UpdateBuild) :=
  let owned (_ : uuid) (t : UpdateTarget) :=
    bool_decide (tgt_operation_id t = uuid_str operation_id) && (tgt_device_id t =? device_id) in
  identity ← scalar owned;
  identity ← require identity (UpdateNotFound "update operation not found");
  let '(target_id, found) := identity in
  let rollout_id := tgt_rollout_id found in
  rollout_row ← get (R := UpdateRollout) rollout_id;
  rollout_row ← require rollout_row (UpdateNotFound "update operation not found");
  build ← _locked_build (ro_build_id rollout_row);
  rollout ← _locked_rollout rollout_id;
  target ← scalar (λ id t, (id =? target_id) && (tgt_rollout_id t =? rollout_id) && owned id t);
  target ← require target (UpdateNotFound "update operation not found");
  raise_if (negb (ro_build_id rollout =? ro_build_id rollout_row))
    (UpdateConflict "update rollout changed during target transition") ;;
  mret (target, (rollout_id, rollout), build).

(** [target.status = desired] with its timestamps *)
Definition acknowledge_target (desired : target_status) (at_ : datetime) (t : UpdateTarget)
    : UpdateTarget :=
  let t := t <| tgt_status := desired |> <| tgt_updated_at := Some at_ |> in
  if decide (desired = t_requested) then t <| tgt_requested_at := Some at_ |>
  else t <| tgt_scheduled_at := Some at_ |>.

(** Whether the acknowledgement repeats what is recorded, or its error. *)
Definition ack_transition (desired current : target_status) : res bool :=
  if decide (desired = t_requested) then
    if in_set current [t_requested; t_scheduled] then Ok true
    else if decide (current = t_assigned) then Ok false
    else Exn (UpdateStateError "update target cannot acknowledge requested")
  else
    if decide (current = t_scheduled) then Ok true
    else if decide (current = t_requested) then Ok false
    else Exn (UpdateStateError "requested acknowledgement must precede scheduled").

(** [revalidate] is the caller's optional [authorization_revalidator]. *)
Definition record_ack (device_id operation_id : uuid) (acknowledgement : target_status)
    (request_id : string) (now : option datetime) (revalidate : Tx unit) : Tx uuid :=
  desired ← _acknowledgement acknowledgement;
  '((target_id, target), (_, rollout), _) ← _locked_target_context device_id operation_id;
  revalidate ;;
  raise_if (negb (bool_decide (ro_status rollout = r_active)))
    (UpdateStateError "update rollout is not active") ;;
  repeated ← lift_res (ack_transition desired (tgt_status target));
  if repeated : bool then mret target_id
  else
    occurred_at ← _timestamp now;
    update target_id (acknowledge_target desired occurred_at) ;;
    request_id ← _request_id request_id;
    append_audit_event "agent" (Some (uuid_str (tgt_device_id target)))
      "updates.target_acknowledged" "update_target" (Some (uuid_str target_id)) request_id
      [(KStr "status", PStr (target_status_str desired))] (Some occurred_at) ;;
    flush ;;
    mret target_id.

Definition _same_report (existing : UpdateReport) (r : AgentUpdateReportV1) : bool :=
  bool_decide (rep_report_key existing = report_key r)
  && bool_decide (rep_status existing = report_status r)
  && bool_decide (rep_reported_version existing = reported_version r)
  && bool_decide (rep_safe_code existing = report_safe_code r).

Definition finish_target (status : target_status) (at_ : datetime) (t : UpdateTarget)
    : UpdateTarget :=
  t <| tgt_status := status |> <| tgt_terminal_at := Some at_ |> <| tgt_updated_at := Some at_ |>.

(** The errors of a first report, by the states of rollout, target and build. *)
Definition report_error (rollout : UpdateRollout) (target : UpdateTarget) (build : UpdateBuild)
    (r : AgentUpdateReportV1) : option exn :=
  if negb (in_set (ro_status rollout) [r_active; r_paused])
  then Some (UpdateStateError "update rollout cannot accept terminal reports")
  else if negb (in_set (tgt_status target) _ACTIVE_TARGET_STATUSES)
  then Some (UpdateStateError "update target is already terminal")
  else if in_set (report_status r) [t_applied; t_rolled_back]
          && negb (bool_decide (tgt_status target = t_scheduled))
  then Some (UpdateStateError "launcher outcome requires scheduled acknowledgement")
  else if bool_decide (report_status r = t_applied)
          && negb (bool_decide (reported_version r = bld_version build))
  then Some (UpdateStateError "applied version does not match assigned build")
  else None.

(** A first report: the report row, the target's end, and the rollout's when
    it was the last. *)
Definition store_report (target_id : uuid) (target : UpdateTarget) (rollout_id : uuid)
    (r : AgentUpdateReportV1) (request_id : string) (now : option datetime) : Tx uuid :=
  occurred_at ← _timestamp now;
  record_id ← uuid4;
  suffix ← uuid4;
  insert record_id {|
    rep_update_target_id := target_id;
    rep_device_id := tgt_device_id target;
    rep_report_identifier := "upr_" +:+ uuid_hex suffix;
    rep_report_key := report_key r;
    rep_reported_version := reported_version r;
    rep_status := report_status r;
    rep_safe_code := report_safe_code r |} ;;
  update target_id (finish_target (report_status r) occurred_at) ;;
  checked_request_id ← _request_id request_id;
  append_audit_event "agent" (Some (uuid_str (tgt_device_id target)))
    "updates.target_reported" "update_target" (Some (uuid_str target_id)) checked_request_id
    [(KStr "reported_version", PStr (reported_version r));
     (KStr "safe_code", from_option PStr PNone (report_safe_code r));
     (KStr "status", PStr (target_status_str (report_status r)))] (Some occurred_at) ;;
  flush ;; (* autoflush of the query *)
  targets ← targets_of rollout_id;
  when (all_terminal targets)
    (update rollout_id (complete occurred_at) ;;
     audit_rollout "system" "update-controller" "updates.rollout_completed" checked_request_id
       rollout_id
       [(KStr "status", PStr "completed");
        (KStr "target_count", PInt (Z.of_nat (length targets)))] occurred_at) ;;
  flush_or_conflict "report key is already in use" ;;
  mret record_id.

Definition record_report (device_id operation_id : uuid) (report : AgentUpdateReportV1)
    (request_id : string) (now : option datetime) (revalidate : Tx unit) : Tx uuid :=
  validated ← _report report;
  '((target_id, target), (rollout_id, rollout), build) ←
    _locked_target_context device_id operation_id;
  revalidate ;;
  existing ← scalar (λ _ e, (rep_update_target_id e =? target_id)
                            && bool_decide (rep_report_key e = report_key validated));
  match existing with
  | Some (existing_id, existing) =>
      if _same_report existing validated then mret existing_id
      else raise (UpdateConflict "report key already owns a different result")
  | None =>
      match report_error rollout target build validated with
      | Some e => raise e
      | None => store_report target_id target rollout_id validated request_id now
      end
  end.
End updates.

(** ** Cancelling a paused rollout of one target

    The contracts of updates/admin_contracts.py, without their literals.  The
    dumps and validation of pydantic in JSON, SHA-256 and the UUID of a receipt
    are outside.  A budget is an argument that may raise at each of its explicit
    checks; the session checks it at every statement as well, which ends the
    request in the same way. *)

Record UpdateRolloutCancellationContextV1 := {
  cx_rollout_id : uuid;
  cx_rollout_identifier : string;
  cx_paused_at : datetime;
  cx_build_id : uuid;
  cx_build_identifier : string;
  cx_artifact_name : string;
  cx_artifact_sha256 : string;
  cx_target_id : uuid;
  cx_target_identifier : string;
  cx_device_id : uuid;
  cx_operation_identity : string;
  cx_target_status : target_status
}.
#[export] Instance cancellation_context_eq_dec : EqDecision UpdateRolloutCancellationContextV1.
Proof. solve_decision. Defined.

Record UpdateRolloutRecoveryAttestationV1 := {
  att_run_id : uuid;
  att_evidence_sha256 : string;
  att_verified_at : datetime
}.

Record UpdateRolloutCancellationRequestV1 := {
  cr_cancellation_id : uuid;
  cr_expected : UpdateRolloutCancellationContextV1;
  cr_recovery : UpdateRolloutRecoveryAttestationV1
}.

Record UpdateRolloutCancellationResponseV1 := {
  cs_cancellation_id : uuid;
  cs_rollout_id : uuid;
  cs_rollout_identifier : string;
  cs_build_id : uuid;
  cs_build_identifier : string;
  cs_target_id : uuid;
  cs_target_identifier : string;
  cs_device_id : uuid;
  cs_operation_identity : string;
  cs_artifact_sha256 : string;
  cs_cancelled_at : datetime;
  cs_terminal_at : datetime
}.
#[export] Instance cancellation_response_eq_dec : EqDecision UpdateRolloutCancellationResponseV1.
Proof. solve_decision. Defined.

Class CancellationContracts := {
  sha256_of_text : string → string;
  cancellation_receipt_id : uuid → uuid;  (* uuid5 of the rollout's id *)
  request_json : UpdateRolloutCancellationRequestV1 → json;
  json_request : json → option UpdateRolloutCancellationRequestV1;
  response_json : UpdateRolloutCancellationResponseV1 → json;
  json_response : json → option UpdateRolloutCancellationResponseV1
}.

(** A JSON value as the Python value that the audit log redacts. *)
Fixpoint json_value (j : json) : pyval :=
  match j with
  | JNull => PNone
  | JBool b => PBool b
  | JInt n => PInt n
  | JFloat x => PFloat x
  | JStr s => PStr s
  | JList items => PList (map json_value items)
  | JObj entries => PMap (map (λ e : string * json, (KStr e.1, json_value e.2)) entries)
  end.

Definition hex_value (c : Ascii.ascii) : option Z :=
  if is_digit c then Some (code c - 48) else if between 97 102 c then Some (code c - 87) else None.

(** [UUID(text)] of a text that must then be its own [str] *)
Definition canonical_uuid (s : string) : option uuid :=
  digits ← mapM hex_value (List.filter (λ c, negb (code c =? 45)) (chars s));
  let value := foldl (λ n d, 16 * n + d) 0 digits in
  if bool_decide (uuid_str value = s) then Some value else None.

Section cancellation.
Context `{CancellationContracts}.

Definition _cancellation_conflict : exn := UpdateConflict "rollout cancellation context conflicts".

Definition _operation_identity (operation_id : string) : Tx string :=
  value ← require (canonical_uuid operation_id) _cancellation_conflict;
  raise_if (value =? 0) _cancellation_conflict ;;
  mret (sha256_of_text
          ("endpoint-update-operation-identity-v1" +:+ String Ascii.zero (uuid_str value))).

(** The validators of UpdateRolloutCancellationContextV1. *)
Definition context_ok (c : UpdateRolloutCancellationContextV1) : bool :=
  forallb (λ id, negb (id =? 0)) [cx_rollout_id c; cx_build_id c; cx_target_id c; cx_device_id c]
  && forallb UpdateIdentifierV1 [cx_rollout_identifier c; cx_build_identifier c; cx_target_identifier c]
  && ArtifactNameV1 (cx_artifact_name c)
  && forallb Sha256V1 [cx_artifact_sha256 c; cx_operation_identity c]
  && is_aware (cx_paused_at c) && in_set (cx_target_status c) _ACTIVE_TARGET_STATUSES.

Definition utc_context (c : UpdateRolloutCancellationContextV1) : UpdateRolloutCancellationContextV1 := {|
  cx_rollout_id := cx_rollout_id c; cx_rollout_identifier := cx_rollout_identifier c;
  cx_paused_at := as_utc (cx_paused_at c);
  cx_build_id := cx_build_id c; cx_build_identifier := cx_build_identifier c;
  cx_artifact_name := cx_artifact_name c; cx_artifact_sha256 := cx_artifact_sha256 c;
  cx_target_id := cx_target_id c; cx_target_identifier := cx_target_identifier c;
  cx_device_id := cx_device_id c; cx_operation_identity := cx_operation_identity c;
  cx_target_status := cx_target_status c |}.

(** [UpdateRolloutCancellationRequestV1.model_validate] *)
Definition cancellation_ok (c : UpdateRolloutCancellationRequestV1) : bool :=
  let recovery := cr_recovery c in
  negb (cr_cancellation_id c =? 0) && context_ok (cr_expected c)
  && negb (att_run_id recovery =? 0) && Sha256V1 (att_evidence_sha256 recovery)
  && is_aware (att_verified_at recovery).

Definition validated_cancellation (c : UpdateRolloutCancellationRequestV1)
    : UpdateRolloutCancellationRequestV1 :=
  let recovery := cr_recovery c in {|
  cr_cancellation_id := cr_cancellation_id c;
  cr_expected := utc_context (cr_expected c);
  cr_recovery := {| att_run_id := att_run_id recovery; att_evidence_sha256 := att_evidence_sha256 recovery;
                    att_verified_at := as_utc (att_verified_at recovery) |} |}.

Definition _cancellation_context (build_id : uuid) (build : UpdateBuild) (rollout_id : uuid)
    (rollout : UpdateRollout) (target_id : uuid) (target : UpdateTarget)
    (prior_status : option target_status) : Tx UpdateRolloutCancellationContextV1 :=
  identity ← _operation_identity (tgt_operation_id target);
  paused_at ← require (ro_paused_at rollout) _cancellation_conflict;
  let context := {|
    cx_rollout_id := rollout_id; cx_rollout_identifier := ro_rollout_identifier rollout;
    cx_paused_at := paused_at;
    cx_build_id := build_id; cx_build_identifier := bld_build_identifier build;
    cx_artifact_name := bld_artifact_name build; cx_artifact_sha256 := bld_sha256_digest build;
    cx_target_id := target_id; cx_target_identifier := tgt_target_identifier target;
    cx_device_id := tgt_device_id target; cx_operation_identity := identity;
    cx_target_status := default (tgt_status target) prior_status |} in
  raise_if (negb (bool_decide (ro_mode rollout = m_canary)) || negb (context_ok context))
    _cancellation_conflict ;;
  mret (utc_context context).

(** A paused canary that was neither completed nor cancelled. *)
Definition paused_canary (rollout : UpdateRollout) : bool :=
  bool_decide (ro_mode rollout = m_canary) && bool_decide (ro_status rollout = r_paused)
  && is_some (ro_paused_at rollout) && is_none (ro_completed_at rollout)
  && is_none (ro_cancelled_at rollout).

(** An active target without an end. *)
Definition open_target (target : UpdateTarget) : bool :=
  in_set (tgt_status target) _ACTIVE_TARGET_STATUSES && is_none (tgt_terminal_at target).

Definition only {A} (l : list A) : option A := match l with [x] => Some x | _ => None end.

Definition rollout_cancellation_context (rollout_id : uuid) (budget_check : Tx unit)
    : Tx UpdateRolloutCancellationContextV1 :=
  budget_check ;;
  rollout ← get (R := UpdateRollout) rollout_id;
  rollout ← require rollout (UpdateNotFound "rollout not found");
  build ← get (R := UpdateBuild) (ro_build_id rollout);
  build ← require build (UpdateNotFound "rollout not found");
  targets ← targets_of rollout_id;
  '(target_id, target) ← require (only targets) _cancellation_conflict;
  raise_if (negb (paused_canary rollout) || negb (open_target target)) _cancellation_conflict ;;
  _cancellation_context (ro_build_id rollout) build rollout_id rollout target_id target None.

Definition _cancellation_response (body : UpdateRolloutCancellationRequestV1) (occurred_at : datetime)
    : UpdateRolloutCancellationResponseV1 :=
  let expected := cr_expected body in {|
  cs_cancellation_id := cr_cancellation_id body;
  cs_rollout_id := cx_rollout_id expected; cs_rollout_identifier := cx_rollout_identifier expected;
  cs_build_id := cx_build_id expected; cs_build_identifier := cx_build_identifier expected;
  cs_target_id := cx_target_id expected; cs_target_identifier := cx_target_identifier expected;
  cs_device_id := cx_device_id expected; cs_operation_identity := cx_operation_identity expected;
  cs_artifact_sha256 := cx_artifact_sha256 expected;
  cs_cancelled_at := occurred_at; cs_terminal_at := occurred_at |}.

(** The recovery was verified after the pause and within the last 20 minutes. *)
Definition recovery_timely (body : UpdateRolloutCancellationRequestV1) (at_ : datetime) : bool :=
  let verified := att_verified_at (cr_recovery body) in
  dt_leb (cx_paused_at (cr_expected body)) verified && dt_leb verified at_
  && (instant at_ - instant verified <=? seconds 1200).

Definition receipt_details (request response : json) (prior_target_status : target_status)
    : list (string * json) :=
  [("version", JInt 1); ("request", request); ("response", response);
   ("prior_rollout_status", JStr "paused");
   ("prior_target_status", JStr (target_status_str prior_target_status)); ("target_count", JInt 1)].

(** [a == b] of an optional column and a time *)
Definition at_time (a : option datetime) (b : datetime) : bool :=
  match a with Some a => dt_eqb a b | None => false end.

(** The receipt of a cancellation that was already made answers it again. *)
Definition replay_cancellation (body : UpdateRolloutCancellationRequestV1) (actor_id : string)
    (build_id : uuid) (build : UpdateBuild) (rollout_id : uuid) (rollout : UpdateRollout)
    (target_id : uuid) (target : UpdateTarget) (receipt : AuditEvent)
    (revalidate budget_check : Tx unit) : Tx UpdateRolloutCancellationResponseV1 :=
  revalidate ;;
  budget_check ;;
  let details := match aud_details receipt with JObj entries => entries | _ => [] end in
  let entry key := default JNull (assoc key details) in
  saved ← require (json_request (entry "request")) _cancellation_conflict;
  response ← require (json_response (entry "response")) _cancellation_conflict;
  cancelled_at ← require (ro_cancelled_at rollout) _cancellation_conflict;
  raise_if
    (negb (json_eqb (aud_details receipt)
             (JObj (receipt_details (request_json saved) (response_json response)
                      (cx_target_status (cr_expected saved)))))
     || negb (json_eqb (request_json saved) (request_json body))
     || negb (bool_decide (aud_action receipt = "updates.rollout_cancelled"))
     || negb (bool_decide (aud_actor_kind receipt = "admin"))
     || negb (bool_decide (aud_actor_identifier receipt = Some actor_id))
     || negb (bool_decide (aud_object_kind receipt = "update_rollout"))
     || negb (bool_decide (aud_object_identifier receipt = Some (uuid_str rollout_id)))
     || negb (bool_decide (ro_status rollout = r_cancelled)) || is_some (ro_completed_at rollout)
     || negb (bool_decide (tgt_status target = t_cancelled))
     || negb (at_time (tgt_terminal_at target) cancelled_at)
     || negb (at_time (tgt_updated_at target) cancelled_at)
     || negb (dt_eqb (aud_created_at receipt) cancelled_at)
     || negb (recovery_timely saved cancelled_at)) _cancellation_conflict ;;
  context ← _cancellation_context build_id build rollout_id rollout target_id target
              (Some (cx_target_status (cr_expected saved)));
  raise_if (negb (bool_decide (context = cr_expected saved))) _cancellation_conflict ;;
  raise_if (negb (bool_decide (response = _cancellation_response saved cancelled_at)))
    _cancellation_conflict ;;
  mret response.

Definition cancel_rollout (at_ : datetime) (r : UpdateRollout) : UpdateRollout :=
  r <| ro_status := r_cancelled |> <| ro_cancelled_at := Some at_ |>.

(** The event under the receipt's own id. *)
Definition receipt_event (receipt_id : uuid) (actor_id request_id : string) (rollout_id : uuid)
    (details : list (string * json)) (occurred_at : datetime) : Tx unit :=
  event_id ← append_audit_event "admin" (Some actor_id) "updates.rollout_cancelled" "update_rollout"
    (Some (uuid_str rollout_id)) request_id
    (map (λ e : string * json, (KStr e.1, json_value e.2)) details) (Some occurred_at);
  event ← get (R := AuditEvent) event_id;
  event ← require event (KeyError "event");
  delete_row (R := AuditEvent) event_id ;;
  insert receipt_id event ;;
  raise_if (negb (json_eqb (aud_details event) (JObj details)))
    (UpdateValidationError "cancellation receipt did not survive audit redaction").

Definition apply_cancellation (body : UpdateRolloutCancellationRequestV1) (actor_id request_id : string)
    (receipt_id build_id : uuid) (build : UpdateBuild) (rollout_id : uuid) (rollout : UpdateRollout)
    (found_id : uuid) (found : UpdateTarget) (revalidate budget_check : Tx unit) (now : option datetime)
    : Tx UpdateRolloutCancellationResponseV1 :=
  let expected := cr_expected body in
  raise_if (negb (paused_canary rollout)) _cancellation_conflict ;;
  device ← get (R := Device) (tgt_device_id found);
  target ← get (R := UpdateTarget) found_id;
  membership ← targets_of rollout_id;
  owners ← select (λ _ t, (tgt_device_id t =? cx_device_id expected)
                          && in_set (tgt_status t) _ACTIVE_TARGET_STATUSES);
  terminal_report ← scalar (λ _ r, (rep_update_target_id r =? cx_target_id expected)
                                   && in_set (rep_status r) [t_applied; t_failed; t_rolled_back]);
  target ← require target _cancellation_conflict;
  raise_if
    (negb (from_option (λ d, is_none (dev_retired_at d)) false device)
     || negb (bool_decide (membership.*1 = [found_id])) || negb (tgt_rollout_id target =? rollout_id)
     || negb (bool_decide (owners.*1 = [found_id])) || is_some terminal_report
     || negb (open_target target)) _cancellation_conflict ;;
  context ← _cancellation_context build_id build rollout_id rollout found_id target None;
  raise_if (negb (bool_decide (context = expected))) _cancellation_conflict ;;
  revalidate ;;
  budget_check ;;
  occurred_at ← _timestamp now;
  raise_if (negb (recovery_timely body occurred_at)) _cancellation_conflict ;;
  let response := _cancellation_response body occurred_at in
  update found_id (finish_target t_cancelled occurred_at) ;;
  update rollout_id (cancel_rollout occurred_at) ;;
  receipt_event receipt_id actor_id request_id rollout_id
    (receipt_details (request_json body) (response_json response) (cx_target_status expected)) occurred_at ;;
  flush ;;
  budget_check ;;
  mret response.

Definition cancel_paused_singleton_rollout (rollout_id : uuid)
    (cancellation : UpdateRolloutCancellationRequestV1) (actor request_id : string)
    (revalidate budget_check : Tx unit) (now : option datetime)
    : Tx UpdateRolloutCancellationResponseV1 :=
  budget_check ;;
  raise_if (negb (cancellation_ok cancellation)) (UpdateValidationError "invalid cancellation request") ;;
  let body := validated_cancellation cancellation in
  actor_id ← _actor_identifier actor;
  correlation_id ← _request_id request_id;
  raise_if (negb (cx_rollout_id (cr_expected body) =? rollout_id)) _cancellation_conflict ;;
  row ← get (R := UpdateRollout) rollout_id;
  row ← require row (UpdateNotFound "rollout not found");
  let build_id := ro_build_id row in
  build ← get (R := UpdateBuild) build_id;
  rollout ← get (R := UpdateRollout) rollout_id;
  build ← require build _cancellation_conflict;
  rollout ← require rollout _cancellation_conflict;
  raise_if (negb (ro_build_id rollout =? build_id)) _cancellation_conflict ;;
  let receipt_id := cancellation_receipt_id rollout_id in
  receipt ← get (R := AuditEvent) receipt_id;
  targets ← targets_of rollout_id;
  '(target_id, target) ← require (only targets) _cancellation_conflict;
  match receipt with
  | Some receipt =>
      replay_cancellation body actor_id build_id build rollout_id rollout target_id target receipt
        revalidate budget_check
  | None =>
      apply_cancellation body actor_id correlation_id receipt_id build_id build rollout_id rollout
        target_id target revalidate budget_check now
  end.
End cancellation.
