(* ===== verification/UpdatesFacts.v ===== *)
(** * Update rollouts: properties

    The lifecycle of targets and rollouts over every interleaving of requests,
    and what each operation guarantees. *)

From S2P Require Import Prelude Store Session AuditLog Frames AuditFacts Semver Updates.

(** ** Views of the world that parts of the service keep *)

Definition rollout_tables (w : World) :=
  (committed w, clock w, devices (db w), update_builds (db w), update_rollouts (db w),
   update_targets (db w), update_reports (db w)).

Section facts.
Context `{UpdateContracts}.

Lemma timestamp_frame now : pres (same (λ w, (db w, committed w, seed w, clock w))) (_timestamp now).
Proof. frame. Qed.

(** What a timestamp, a request id, an actor or a reason leave unchanged. *)
Lemma audit_rollout_frame a b c d e f g :
  keeps rollout_tables (audit_rollout a b c d e f g).
Proof. frame. Qed.

Lemma flush_or_conflict_frame R `{!PreOrder R} m : pres R (flush_or_conflict m).
Proof. frame. Qed.

(** ** The target of an operation *)

Record target_context (device_id operation_id : uuid) (d : DB) (target_id : uuid)
    (t : UpdateTarget) (rollout_id : uuid) (ro : UpdateRollout) (b : UpdateBuild) : Prop := {
  tc_target : update_targets d !! target_id = Some t;
  tc_rollout_id : tgt_rollout_id t = rollout_id;
  tc_device : tgt_device_id t = device_id;
  tc_operation : tgt_operation_id t = uuid_str operation_id;
  tc_rollout : update_rollouts d !! rollout_id = Some ro;
  tc_build : update_builds d !! ro_build_id ro = Some b
}.

Lemma locked_target_context_spec device_id operation_id w :
  wp (_locked_target_context device_id operation_id) (λ r w', w' = w ∧
    match r with
    | Ok ((target_id, t), (rollout_id, ro), b) =>
        target_context device_id operation_id (db w) target_id t rollout_id ro b
    | Exn _ => True
    end) w.
Proof.
  unfold _locked_target_context, _locked_build, _locked_rollout.
  repeat wp_step.
  simpl in *; propify; simplify_eq. split; [done|]. split; congruence.
Qed.

(** ** The state invariant

    Every id in use is below the next one, at most one active target owns a
    device, and a rollout that is finished has no active target. *)

Definition one_owner (m : gmap uuid UpdateTarget) : Prop :=
  ∀ i j ti tj, m !! i = Some ti → m !! j = Some tj →
    target_active (tgt_status ti) = true → target_active (tgt_status tj) = true →
    tgt_device_id ti = tgt_device_id tj → i = j.

(** A finished target or rollout is never changed again. *)
Definition finished (r : UpdateRollout) : bool :=
  in_set (ro_status r) [r_completed; r_cancelled].

Definition no_open_work (d : DB) : Prop :=
  ∀ i t ro, update_targets d !! i = Some t → update_rollouts d !! tgt_rollout_id t = Some ro →
    finished ro = true → target_active (tgt_status t) = false.

Definition inv (w : World) : Prop :=
  fresh (seed w) (update_targets (db w)) ∧ fresh (seed w) (update_rollouts (db w))
  ∧ one_owner (update_targets (db w)) ∧ no_open_work (db w).

(** ** The state machines

    A target is requested, then scheduled, and ends; only a scheduled one was
    applied or rolled back.  A rollout is paused and resumed until it is
    completed; a paused one may be cancelled. *)

Definition target_next (s : target_status) : list target_status :=
  match s with
  | t_assigned => [t_requested; t_failed; t_cancelled]
  | t_requested => [t_scheduled; t_failed; t_cancelled]
  | t_scheduled => [t_applied; t_failed; t_rolled_back; t_cancelled]
  | _ => []
  end.

Definition rollout_next (s : rollout_status) : list rollout_status :=
  match s with
  | r_active => [r_paused; r_completed]
  | r_paused => [r_active; r_completed; r_cancelled]
  | _ => []
  end.

Definition reaches {A} (next : A → list A) : A → A → Prop := rtc (λ a b, b ∈ next a).

Lemma reaches_once {A} (next : A → list A) a b : b ∈ next a → reaches next a b.
Proof. intros Hab. by apply rtc_once. Qed.

(** A row keeps what it is for, moves along its machine, and stays once it has
    ended. *)
Definition target_moves (t t' : UpdateTarget) : Prop :=
  tgt_rollout_id t' = tgt_rollout_id t ∧ tgt_device_id t' = tgt_device_id t
  ∧ tgt_target_identifier t' = tgt_target_identifier t ∧ tgt_operation_id t' = tgt_operation_id t
  ∧ tgt_assigned_at t' = tgt_assigned_at t
  ∧ reaches target_next (tgt_status t) (tgt_status t')
  ∧ (target_active (tgt_status t) = false → t' = t).

Definition rollout_moves (r r' : UpdateRollout) : Prop :=
  ro_rollout_identifier r' = ro_rollout_identifier r ∧ ro_build_id r' = ro_build_id r
  ∧ ro_mode r' = ro_mode r ∧ ro_reason r' = ro_reason r
  ∧ reaches rollout_next (ro_status r) (ro_status r')
  ∧ (finished r = true → r' = r).

#[export] Instance target_moves_preorder : PreOrder target_moves.
Proof.
  split; [intros t; split_and!; try done; apply rtc_refl|].
  intros t1 t2 t3 (A1 & B1 & C1 & D1 & E1 & F1 & G1) (A2 & B2 & C2 & D2 & E2 & F2 & G2).
  split_and!; try congruence; [unfold reaches in *; by etrans|]. intros Ha. rewrite <- G1 by done. apply G2.
  by rewrite G1.
Qed.

#[export] Instance rollout_moves_preorder : PreOrder rollout_moves.
Proof.
  split; [intros r; split_and!; try done; apply rtc_refl|].
  intros r1 r2 r3 (A1 & B1 & C1 & D1 & E1 & F1) (A2 & B2 & C2 & D2 & E2 & F2).
  split_and!; try congruence; [unfold reaches in *; by etrans|]. intros Ha. rewrite <- F1 by done. apply F2.
  by rewrite F1.
Qed.

Lemma target_ended t t' : target_moves t t' → target_active (tgt_status t) = false → t' = t.
Proof. by intros (_ & _ & _ & _ & _ & _ & Hend). Qed.

Lemma rollout_ended r r' : rollout_moves r r' → finished r = true → r' = r.
Proof. by intros (_ & _ & _ & _ & _ & Hend). Qed.

Definition moved (d d' : DB) : Prop :=
  rows_kept target_moves (update_targets d) (update_targets d')
  ∧ rows_kept rollout_moves (update_rollouts d) (update_rollouts d').

#[export] Instance moved_preorder : PreOrder moved.
Proof.
  split; [intros d; split; by apply rows_kept_refl|].
  intros d1 d2 d3 [A B] [A' B']. split.
  - eapply rows_kept_trans; [intros x y z; apply transitivity|exact A|exact A'].
  - eapply rows_kept_trans; [intros x y z; apply transitivity|exact B|exact B'].
Qed.

Lemma moved_same d d' :
  update_targets d' = update_targets d → update_rollouts d' = update_rollouts d → moved d d'.
Proof. intros Et Er. split; rewrite ?Et, ?Er; by apply rows_kept_refl. Qed.

(** What every operation guarantees. *)
Definition sound (w w' : World) : Prop := inv w → inv w' ∧ moved (db w) (db w').

#[export] Instance sound_preorder : PreOrder sound.
Proof.
  split.
  - intros w Hw. by split.
  - intros w1 w2 w3 H12 H23 H1. destruct (H12 H1) as [H2 M12].
    destruct (H23 H2) as [H3 M23]. split; [done|]. by etrans.
Qed.

(** Work that keeps the tables of the service, and only takes ids. *)
Definition quiet (w w' : World) : Prop := same rollout_tables w w' ∧ seed_le w w'.

#[export] Instance quiet_preorder : PreOrder quiet.
Proof.
  split; [by split; reflexivity|]. intros w1 w2 w3 [? ?] [? ?]. split; by etrans.
Qed.

(** The same targets and rollouts, and no id given back. *)
Lemma sound_same w w' :
  update_targets (db w') = update_targets (db w) → update_rollouts (db w') = update_rollouts (db w) →
  seed w <= seed w' → sound w w'.
Proof.
  intros Et Er Hs (Ht & Hr & Ho & Hn). split; [|by apply moved_same].
  unfold inv, no_open_work. rewrite Et, Er. split_and!; eauto using fresh_le.
Qed.

Lemma quiet_sound w w' : quiet w w' → sound w w'.
Proof. intros [[= _ _ _ _ Er Et _] Hs]. by apply sound_same. Qed.

Lemma sound_of_quiet {A} (m : Tx A) : pres quiet m → pres sound m.
Proof. apply pres_mono. intros w w'. apply quiet_sound. Qed.

(** A change of one active target along its machine. *)
Lemma sound_update_target id t (f : UpdateTarget → UpdateTarget) w :
  update_targets (db w) !! id = Some t → target_active (tgt_status t) = true →
  target_moves t (f t) → sound w (with_table (alter f id) w).
Proof.
  intros Hid Hact Hmoves (Ht & Hr & Ho & Hn). destruct Hmoves as (Hro & Hdev & Hmoves).
  unfold with_table; simpl. unfold sound, inv, moved, no_open_work; simpl.
  rewrite (alter_stored f id t) by done. split_and!; try done.
  - intros j v [[-> <-]|[_ Hj]]%lookup_insert_Some; eauto.
  - intros i j ti tj [[-> <-]|[Hi Hti]]%lookup_insert_Some [[-> <-]|[Hj Htj]]%lookup_insert_Some Hai Haj Hd;
      [done| | |eauto]; rewrite Hdev in Hd; [eapply (Ho _ _ t tj)|eapply (Ho _ _ ti t)]; eauto.
  - intros i ti ro [[-> <-]|[Hi Hti]]%lookup_insert_Some Hr' Hf; [|eauto].
    rewrite Hro in Hr'. specialize (Hn _ _ _ Hid Hr' Hf). congruence.
  - intros j v Hj. destruct (decide (id = j)) as [<-|Hne].
    + exists (f t). rewrite lookup_insert_eq. split; [done|]. rewrite Hid in Hj. injection Hj as <-.
      by split_and!; try apply Hmoves.
    + exists v. rewrite lookup_insert_ne by done. by split.
  - by apply rows_kept_refl.
Qed.

(** A change of an unfinished rollout along its machine; it ends when none of its
    targets is active. *)
Lemma sound_update_rollout id (r : UpdateRollout) (f : UpdateRollout → UpdateRollout) w :
  update_rollouts (db w) !! id = Some r → finished r = false → rollout_moves r (f r) →
  (finished (f r) = true → ∀ i t, update_targets (db w) !! i = Some t → tgt_rollout_id t = id →
     target_active (tgt_status t) = false) →
  sound w (with_table (alter f id) w).
Proof.
  intros Hid Hnf Hmoves Hend (Ht & Hr & Ho & Hn). unfold with_table; simpl.
  unfold sound, inv, moved, no_open_work; simpl. rewrite (alter_stored f id r) by done. split_and!; try done.
  - intros j v [[-> <-]|[_ Hj]]%lookup_insert_Some; eauto.
  - intros i t ro Hi [[Hj <-]|[Hj Hro]]%lookup_insert_Some Hf; [|eauto]. by eapply Hend.
  - by apply rows_kept_refl.
  - intros j v Hj. destruct (decide (id = j)) as [<-|Hne].
    + exists (f r). rewrite lookup_insert_eq. split; [done|]. rewrite Hid in Hj. by injection Hj as <-.
    + exists v. rewrite lookup_insert_ne by done. by split.
Qed.

(** A new rollout is sound. *)
Lemma sound_new_rollout id (r : UpdateRollout) w :
  id < seed w → update_rollouts (db w) !! id = None → finished r = false →
  sound w (with_table <[id := r]> w).
Proof.
  intros Hid Hnew Hnf (Ht & Hr & Ho & Hn). unfold with_table, inv, moved, no_open_work; simpl. split_and!; try done.
  - by apply fresh_insert.
  - intros i t ro Hi [[Hj <-]|[Hj Hro]]%lookup_insert_Some Hf; [congruence|eauto].
  - by apply rows_kept_refl.
  - by apply rows_kept_insert.
Qed.

(** No active target owns any of the devices. *)
Definition unowned (ids : list uuid) (m : gmap uuid UpdateTarget) : Prop :=
  ∀ id t, m !! id = Some t → target_active (tgt_status t) = true → tgt_device_id t ∉ ids.

(** A new target of an unfinished rollout, for a device that no active target
    owns, is sound. *)
Lemma sound_new_target id (t : UpdateTarget) ro w :
  id < seed w → update_targets (db w) !! id = None →
  update_rollouts (db w) !! tgt_rollout_id t = Some ro → finished ro = false →
  unowned [tgt_device_id t] (update_targets (db w)) → sound w (with_table <[id := t]> w).
Proof.
  intros Hid Hnew Hro Hnf Hfree (Ht & Hr & Ho & Hn). unfold with_table, inv, moved, no_open_work; simpl.
  split_and!; try done.
  - by apply fresh_insert.
  - intros i j ti tj [[<- <-]|[Hi Hti]]%lookup_insert_Some [[<- <-]|[Hj Htj]]%lookup_insert_Some
      Hai Haj Hd; [done| | |eauto].
    + destruct (Hfree _ _ Htj Haj). rewrite Hd. left.
    + destruct (Hfree _ _ Hti Hai). rewrite Hd. left.
  - intros i ti r [[<- <-]|[Hi Hti]]%lookup_insert_Some Hr' Hf; [congruence|eauto].
  - by apply rows_kept_insert.
  - by apply rows_kept_refl.
Qed.

(** ** Every operation is sound *)

Ltac quiet := apply pres_and; frame.

Lemma register_build_sound m a r n root : pres sound (register_build m a r n root).
Proof. 
  apply pres_mono with (R := λ w w', same (λ w, (update_targets (db w), update_rollouts (db w))) w w'
                                    ∧ seed_le w w').
  - intros w w' [[= Et Er] Hs]. by apply sound_same.
  - quiet.
Qed.

Lemma wp_assume_inv {A} (m : Tx A) w : (inv w → wp m (λ _, sound w) w) → wp m (λ _, sound w) w.
Proof. rewrite wp_unfold. intros Hm Hw. by apply Hm. Qed.

Lemma assign_target_spec rid ro ident reason actor req now d w :
  inv w → update_rollouts (db w) !! rid = Some ro → finished ro = false → unowned [d] (update_targets (db w)) →
  wp (assign_target rid ident reason actor req now d) (λ r w', sound w w' ∧
    match r with
    | Ok _ => ∃ t, tgt_device_id t = d ∧ tgt_rollout_id t = rid ∧ tgt_status t = t_assigned
                   ∧ update_rollouts (db w') = update_rollouts (db w)
                   ∧ update_targets (db w') = <[seed w := t]> (update_targets (db w))
    | Exn _ => True
    end) w.
Proof.
  intros Hinv Hro Hnf Hfree. unfold assign_target. do 4 wp_step.
  set (t := new_target _ _ _ _ _ _). set (w1 := with_table _ _).
  assert (sound w w1) as H1.
  { destruct Hinv as (Ht & Hr & Ho). etrans; [|apply (sound_new_target (seed w) t ro); simpl].
    - apply quiet_sound. split; [done|]. unfold seed_le; simpl. lia.
    - lia.
    - by apply fresh_lookup.
    - done.
    - done.
    - done. }
  apply (wp_bind_pres quiet); [quiet| |]; intros ? w2 Hq.
  - wp_step. split; [etrans; [exact H1|by apply quiet_sound]|].
    exists t. split_and!; [done..| |]; destruct Hq as [[= _ _ _ _ Er Et _] _].
    + by rewrite Er.
    + by rewrite Et.
  - split; [|done]. etrans; [exact H1|by apply quiet_sound].
Qed.

Lemma assign_targets_sound rid ro ident reason actor req now ids w :
  NoDup ids → update_rollouts (db w) !! rid = Some ro → finished ro = false → unowned ids (update_targets (db w)) →
  wp (for_each ids (assign_target rid ident reason actor req now)) (λ _, sound w) w.
Proof.
  revert w. induction ids as [|d ids IH]; intros w Hnd Hro Hnf Hfree; simpl; [by wp_step|].
  apply NoDup_cons in Hnd as [Hd Hnd]. apply wp_assume_inv. intros Hinv.
  apply wp_bind. eapply wp_mono; [apply (assign_target_spec rid ro); [done..|]|].
  - intros id t Ht Ha Hin. apply (Hfree id t Ht Ha). apply list_elem_of_singleton in Hin as ->. left.
  - intros [[]|e] w1 [H1 Hr]; wp_k; [|done]. destruct Hr as (t & Htd & _ & _ & Er & Et).
    apply wp_trans; [apply _|done|]. apply IH; [done|by rewrite Er|done|]. rewrite Et.
    intros id u [[<- <-]|[_ Hu]]%lookup_insert_Some Ha; [by rewrite Htd|].
    intros Hin. apply (Hfree id u Hu Ha). by right.
Qed.

Lemma lock_assignable_spec ids w :
  wp (_lock_assignable_devices ids None) (λ r w', w' = w ∧
    match r with Ok _ => unowned ids (update_targets (db w)) | Exn _ => True end) w.
Proof.
  unfold _lock_assignable_devices. repeat wp_step. split; [done|].
  propify. subst. intros id t Ht Ha Hin.
  assert ((id, t) ∈ []) as Hnil; [|by apply elem_of_nil in Hnil].
  apply H4. split; [done|]. cbn. rewrite bool_decide_true by done. simpl. rewrite andb_true_r.
  exact Ha.
Qed.

Lemma create_active_rollout_sound bid b m ids reason actor req now :
  NoDup ids → pres sound (_create_active_rollout bid b m ids reason actor req now).
Proof.
  intros Hnd. apply pres_of_wp. intros w. apply wp_assume_inv. intros Hinv.
  unfold _create_active_rollout.
  apply wp_bind. eapply wp_mono; [apply lock_assignable_spec|].
  intros [[]|e] w0 [-> Hfree]; wp_k; [|done]. do 3 wp_step.
  match goal with |- wp _ _ ?x => set (w1 := x) end.
  assert (sound w w1) as H1.
  { destruct Hinv as (Ht & Hr & Ho). etrans; [|apply sound_new_rollout; simpl].
    - apply quiet_sound. split; [done|]. unfold seed_le; simpl. lia.
    - lia.
    - by apply fresh_lookup.
    - done. }
  assert (∃ ro, update_rollouts (db w1) !! seed w = Some ro ∧ finished ro = false) as (ro & Hro & Hnf).
  { eexists. split; [apply lookup_insert_eq|done]. }
  apply wp_trans; [apply _|done|].
  apply (wp_bind_pres quiet); [quiet| |]; intros ? w2 Hq; [|by apply quiet_sound].
  apply wp_trans; [apply _|by apply quiet_sound|].
  destruct Hq as [[= _ _ _ _ Er Et _] _].
  apply wp_bind. eapply wp_mono; [apply (assign_targets_sound (seed w) ro); [done|by rewrite Er|done|by rewrite Et]|].
  intros [[]|e] w3 H3; wp_k; [|done].
  apply wp_trans; [apply _|done|]. apply wp_of_pres, sound_of_quiet. quiet.
Qed.

Lemma prose_unchanged value n required newlines out :
  validate_public_update_prose value n required newlines = Some out → out = value.
Proof.
  unfold validate_public_update_prose. destruct value; [|by destruct required; intros [=]].
  case_match; by intros [=].
Qed.

Lemma validate_rollout_input_spec b mode ids reason w :
  wp (_validate_rollout_input b mode ids reason) (λ r w', w' = w ∧
    match r with
    | Ok (m, ids', reason') =>
        parse_mode mode = Some m ∧ ids' = ids ∧ NoDup ids ∧ ids ≠ [] ∧ reason' = reason
    | Exn _ => True
    end) w.
Proof.
  unfold _validate_rollout_input, _safe_reason. repeat wp_step. split; [done|].
  unfold rollout_input_ok in *. propify. split_and!; try done; [intros ->; simpl in *; lia|].
  by eapply prose_unchanged.
Qed.

Lemma create_rollout_sound bid mode ids reason actor req now :
  pres sound (create_rollout bid mode ids reason actor req now).
Proof.
  apply pres_of_wp. intros w. unfold create_rollout, _locked_build. do 3 wp_step.
  apply wp_bind. eapply wp_mono; [apply validate_rollout_input_spec|].
  intros [[[m ids'] reason']|e] w0 [-> Hv]; wp_k; [|done]. destruct Hv as (_ & -> & Hnd & _).
  apply wp_of_pres. apply pres_bind; [apply _|apply sound_of_quiet; quiet|]. intros _.
  apply pres_bind; [apply _|apply sound_of_quiet; quiet|]. intros ?.
  apply pres_bind; [apply _|apply sound_of_quiet; quiet|]. intros ?.
  apply pres_bind; [apply _|apply sound_of_quiet; quiet|]. intros ?.
  by apply create_active_rollout_sound.
Qed.

(** The rest of an operation that only audits and flushes. *)
Ltac rest_quiet := apply wp_of_pres, sound_of_quiet; quiet.

(** Read what the next part keeps, and go on from its end. *)
Ltac skip_quiet := apply (wp_bind_pres quiet);
  [quiet | | intros ? ? ?; by apply quiet_sound].

(** An update of the unfinished rollout [r] seen at the beginning. *)
Lemma rollout_change_sound {A} rid r (f : UpdateRollout → UpdateRollout) (k : unit → Tx A) w w1 :
  update_rollouts (db w) !! rid = Some r → finished r = false → rollout_moves r (f r) →
  (finished (f r) = true → ∀ i t, update_targets (db w) !! i = Some t → tgt_rollout_id t = rid →
     target_active (tgt_status t) = false) →
  quiet w w1 → pres sound (k tt) → wp (update rid f ≫= k) (λ _, sound w) w1.
Proof.
  intros Hr Hf Hm He Hq Hk. wp_step. apply wp_trans; [apply _| |by apply wp_of_pres].
  etrans; [by apply quiet_sound|]. destruct Hq as [[= _ _ _ _ Er Et _] _].
  apply (sound_update_rollout rid r); [by rewrite Er|done..|by rewrite Et].
Qed.

(** One step along the machine of a rollout. *)
Lemma rollout_step (r r' : UpdateRollout) :
  ro_rollout_identifier r' = ro_rollout_identifier r → ro_build_id r' = ro_build_id r →
  ro_mode r' = ro_mode r → ro_reason r' = ro_reason r →
  ro_status r' ∈ rollout_next (ro_status r) → finished r = false → rollout_moves r r'.
Proof. intros ? ? ? ? Hn Hf. split_and!; [done..|by apply reaches_once|congruence]. Qed.

(** The targets of a rollout, all of them ended. *)
Lemma all_targets_ended l :
  all_terminal l = true → ∀ i t, (i, t) ∈ l → target_active (tgt_status t) = false.
Proof.
  unfold all_terminal. intros Hl i t Hin. propify. rewrite forallb_forall in *.
  match goal with H : ∀ x, _ |- _ => specialize (H (i, t) ltac:(by apply list_elem_of_In)) end.
  unfold terminal_target in *. simpl in *. by destruct (tgt_status t).
Qed.

Lemma activate_rollout_sound rid actor req now : pres sound (activate_rollout rid actor req now).
Proof.
  apply pres_of_wp. intros w. unfold activate_rollout, _locked_rollout. do 2 wp_step.
  destruct (decide _); [by wp_step|]. wp_step. wp_open. do 2 wp_step.
  skip_quiet. intros ? w1 Hq1.
  wp_step. wp_step; [by apply quiet_sound|]. apply (wp_bind_pres quiet); [quiet| |intros; apply quiet_sound; by etrans].
  intros at_ w2 Hq2.
  propify. assert (finished a = false) as Hf by (unfold finished; by rewrite H0).
  eapply rollout_change_sound; [exact Hsome|done| |done|by etrans|apply sound_of_quiet; quiet].
  apply rollout_step; try done. rewrite H0. set_solver.
Qed.

Lemma pause_rollout_sound rid actor req now : pres sound (pause_rollout rid actor req now).
Proof.
  apply pres_of_wp. intros w. unfold pause_rollout, _locked_rollout. do 2 wp_step.
  destruct (decide _); [by wp_step|]. wp_step. skip_quiet. intros at_ w1 Hq1.
  propify. assert (finished a = false) as Hf by (unfold finished; by rewrite H0).
  eapply rollout_change_sound; [exact Hsome|done| |done|done|apply sound_of_quiet; quiet].
  apply rollout_step; try done. rewrite H0. set_solver.
Qed.

Lemma open_unfinished r : in_set (ro_status r) [r_active; r_paused] = true → finished r = false.
Proof. unfold finished. by destruct (ro_status r). Qed.

Lemma completed_step at_ r : in_set (ro_status r) [r_active; r_paused] = true → rollout_moves r (complete at_ r).
Proof.
  intros Hs. apply rollout_step; try done; [|by apply open_unfinished].
  destruct (ro_status r); try done; simpl; set_solver.
Qed.

Lemma complete_rollout_sound rid actor req now : pres sound (complete_rollout rid actor req now).
Proof.
  apply pres_of_wp. intros w. unfold complete_rollout, _locked_rollout. do 2 wp_step.
  destruct (decide _); [by wp_step|]. wp_step. wp_open. do 2 wp_step. skip_quiet. intros at_ w1 Hq1.
  propify. assert (finished a = false) as Hf by by apply open_unfinished.
  eapply rollout_change_sound; [exact Hsome|done|by apply completed_step| |done|apply sound_of_quiet; quiet].
  intros _ i t Ht Hrid. eapply all_targets_ended; [eassumption|]. apply H2. split; [done|by apply Z.eqb_eq].
Qed.

Lemma create_rollback_rollout_sound tid bid ids reason actor req now :
  pres sound (create_rollback_rollout tid bid ids reason actor req now).
Proof.
  unfold create_rollback_rollout.
  repeat lazymatch goal with
         | |- pres _ (mbind _ (_validate_rollout_input _ _ _ _)) => fail
         | _ => apply pres_bind; [apply _|solve [apply sound_of_quiet; quiet]|intros ?]
         end.
  apply pres_of_wp. intros w. apply wp_bind.
  eapply wp_mono; [apply validate_rollout_input_spec|].
  intros [[[m ids'] reason']|e] w0 [-> Hv]; wp_k; [|done]. destruct Hv as (_ & -> & Hnd & _).
  apply wp_of_pres. do 5 (apply pres_bind; [apply _|solve [apply sound_of_quiet; quiet]|intros ?]).
  by apply create_active_rollout_sound.
Qed.

(** What an authorization revalidator can do: return, or raise. *)
Definition revalidation (e : option exn) : Tx unit :=
  match e with None => mret tt | Some e => raise e end.

Lemma revalidation_spec e w :
  wp (revalidation e) (λ r w', w' = w) w.
Proof. unfold revalidation. destruct e; by wp_step. Qed.

Lemma ack_transition_active desired current :
  ack_transition desired current = Ok false → target_active current = true.
Proof. unfold ack_transition. destruct (decide _), current; simpl; try done; by repeat case_match. Qed.

(** One step along the machine of a target. *)
Lemma target_step (t t' : UpdateTarget) :
  tgt_rollout_id t' = tgt_rollout_id t → tgt_device_id t' = tgt_device_id t →
  tgt_target_identifier t' = tgt_target_identifier t → tgt_operation_id t' = tgt_operation_id t →
  tgt_assigned_at t' = tgt_assigned_at t → tgt_status t' ∈ target_next (tgt_status t) →
  target_active (tgt_status t) = true → target_moves t t'.
Proof. intros ? ? ? ? ? Hn Ha. split_and!; [done..|by apply reaches_once|congruence]. Qed.

Lemma acknowledge_moves desired at_ t :
  in_set desired [t_requested; t_scheduled] = true → ack_transition desired (tgt_status t) = Ok false →
  target_moves t (acknowledge_target desired at_ t).
Proof.
  intros Hd Ht. pose proof (ack_transition_active _ _ Ht) as Ha.
  apply target_step; [unfold acknowledge_target; by destruct (decide _)..| |done].
  assert (tgt_status (acknowledge_target desired at_ t) = desired) as ->
    by (unfold acknowledge_target; by destruct (decide _)).
  unfold ack_transition in Ht. destruct desired, (tgt_status t); try done; simpl; set_solver.
Qed.

(** An update of the active target [t] seen at the beginning. *)
Lemma target_change_sound id t (f : UpdateTarget → UpdateTarget) w w1 :
  update_targets (db w) !! id = Some t → target_active (tgt_status t) = true →
  target_moves t (f t) → quiet w w1 → sound w (with_table (alter f id) w1).
Proof.
  intros Hid Ha Hf Hq. etrans; [by apply quiet_sound|].
  apply (sound_update_target id t); [|done..]. destruct Hq as [[= _ _ _ _ _ Et _] _]. by rewrite Et.
Qed.

Lemma record_ack_sound dev op ack req now e :
  pres sound (record_ack dev op ack req now (revalidation e)).
Proof.
  apply pres_of_wp. intros w. unfold record_ack, _acknowledgement. do 2 wp_step.
  apply wp_bind. eapply wp_mono; [apply locked_target_context_spec|].
  intros [[[[tid t] [rid ro]] b]|x] w0 [-> Hc]; wp_k; [|done].
  apply wp_bind. eapply wp_mono; [apply revalidation_spec|].
  intros [[]|x] w0 ->; wp_k; [|done]. do 2 wp_step.
  destruct (ack_transition _ _) as [[]|x] eqn:Ht; wp_k; [by wp_step| |done].
  skip_quiet. intros at_ w1 Hq. wp_step.
  apply wp_trans; [apply _| |rest_quiet].
  propify. eapply target_change_sound; [apply Hc|by eapply ack_transition_active| |done].
  by apply acknowledge_moves.
Qed.

(** Only a rollout that accepts reports gets past the checks of a report, with a
    target whose machine has the reported end. *)
Lemma report_error_none ro t b r :
  report_ok r = true → report_error ro t b r = None →
  in_set (ro_status ro) [r_active; r_paused] = true ∧ target_active (tgt_status t) = true
  ∧ report_status r ∈ target_next (tgt_status t).
Proof.
  unfold report_ok, report_error. intros Hok. repeat case_match; try done. intros _. propify.
  split; [done|]. split; [done|]. destruct (report_status r); try done;
    destruct (tgt_status t); try done; simpl; set_solver.
Qed.

Lemma store_report_sound tid t rid ro r req now w :
  update_targets (db w) !! tid = Some t → target_active (tgt_status t) = true →
  report_status r ∈ target_next (tgt_status t) →
  update_rollouts (db w) !! rid = Some ro → in_set (ro_status ro) [r_active; r_paused] = true →
  wp (store_report tid t rid r req now) (λ _, sound w) w.
Proof.
  intros Ht Ha Hn Hr Hf. unfold store_report. skip_quiet. intros at_ w1 Hq1. do 4 wp_step.
  match goal with |- wp _ _ ?x => set (w2 := x) end.
  assert (sound w w2 ∧ update_rollouts (db w2) = update_rollouts (db w)) as [H2 E2].
  { destruct Hq1 as [[= _ _ _ _ Er Et _] Hs]. split; [|done].
    set (w1' := with_table <[seed w1 := _]> _) in w2.
    assert (sound w w1') as H1.
    { apply sound_same; unfold w1', with_table; simpl; [done..|unfold seed_le in Hs; lia]. }
    etrans; [exact H1|]. apply (sound_update_target tid t); [|done|by apply target_step].
    unfold w1', with_table; simpl. by rewrite Et. }
  clearbody w2. apply wp_trans; [apply _|done|].
  skip_quiet. intros req' w3 Hq3. apply wp_trans; [apply _|by apply quiet_sound|].
  skip_quiet. intros ? w4 Hq4. apply wp_trans; [apply _|by apply quiet_sound|].
  wp_step. wp_open. wp_step.
  assert (update_rollouts (db w4) !! rid = Some ro) as Er.
  { destruct Hq3 as [[= _ _ _ _ E3 _ _] _], Hq4 as [[= _ _ _ _ E4 _ _] _]. by rewrite E4, E3, E2. }
  apply wp_bind_then; [apply _| |intros; apply sound_of_quiet; quiet].
  apply wp_when; intros Hall; [|reflexivity].
  eapply rollout_change_sound; [exact Er|by apply open_unfinished|by apply completed_step| |reflexivity
    |apply sound_of_quiet; quiet].
  intros _ i x Hx Hrid. eapply all_targets_ended; [eassumption|]. apply H3. split; [done|by apply Z.eqb_eq].
Qed.

Lemma record_report_sound dev op r req now e :
  pres sound (record_report dev op r req now (revalidation e)).
Proof.
  apply pres_of_wp. intros w. unfold record_report, _report. do 2 wp_step.
  apply wp_bind. eapply wp_mono; [apply locked_target_context_spec|].
  intros [[[[tid t] [rid ro]] b]|x] w0 [-> Hc]; wp_k; [|done].
  apply wp_bind. eapply wp_mono; [apply revalidation_spec|].
  intros [[]|x] w0 ->; wp_k; [|done]. wp_step.
  - destruct (_same_report _ _); by wp_step.
  - destruct (report_error ro t b r) eqn:He; [by wp_step|].
    propify. apply report_error_none in He as (Hf & Ha & Hn); [|done].
    apply store_report_sound with ro; [apply Hc|done..|apply Hc|done].
Qed.

(** ** Cancellation *)

(** What a check of authority or of the budget can do: pass or raise, as it
    finds the world. *)
Definition checking (f : World → option exn) : Tx unit := λ w,
  (match f w with None => Ok tt | Some e => Exn e end, w).

Lemma checking_frame (R : World → World → Prop) `{!PreOrder R} f : pres R (checking f).
Proof. intros w. simpl. reflexivity. Qed.
#[local] Hint Extern 1 (pres _ (checking _)) => apply checking_frame; apply _ : frame.

Section cancellation.
Context `{CancellationContracts}.

Lemma wp_unseen_bind {A B} (m : Tx A) (k : A → Tx B) w0 w :
  quiet w0 w → pres quiet m → (∀ a w', quiet w0 w' → wp (k a) (λ _, sound w0) w') →
  wp (m ≫= k) (λ _, sound w0) w.
Proof.
  intros H0' Hm Hk. apply (wp_bind_pres quiet); [done| |].
  - intros a w' Hq. apply Hk. by etrans.
  - intros e w' Hq. apply quiet_sound. by etrans.
Qed.

Lemma apply_cancellation_sound body actor req receipt_id bid b rid ro tid found authority budget now w :
  update_rollouts (db w) !! rid = Some ro →
  wp (apply_cancellation body actor req receipt_id bid b rid ro tid found (checking authority)
        (checking budget) now) (λ _, sound w) w.
Proof.
  intros Hro. unfold apply_cancellation. do 3 wp_step. wp_open. do 4 wp_step.
  all: apply wp_bind, wp_raise_if; intros Hok; wp_k; [done|].
  { propify. discriminate. }
  propify. match goal with Hl : l.*1 = [tid], Ho : open_target a = true, Hp : paused_canary ro = true |- _ =>
    rename Hl into Honly; rename Ho into Hopen; rename Hp into Hpaused end.
  unfold open_target, paused_canary in *. propify.
  assert (finished ro = false) as Hf by (unfold finished; by destruct (ro_status ro)).
  assert (∀ i t, update_targets (db w) !! i = Some t → tgt_rollout_id t = rid → i = tid) as Hmember.
  { intros i t Ht Hrid. apply list_elem_of_singleton. rewrite <- Honly. apply list_elem_of_fmap.
    exists (i, t). split; [done|]. apply H3. split; [done|by apply Z.eqb_eq]. }
  assert (quiet w w) as Hq by reflexivity.
  do 6 (eapply wp_unseen_bind; [eassumption|quiet|]; intros ? ? ?).
  match goal with Hq : quiet w ?x |- wp _ _ ?x => rename x into w1, Hq into Hq1 end.
  wp_step. match goal with |- wp _ _ ?x => set (w2 := x) end.
  assert (sound w w2) as H2s.
  { apply (target_change_sound tid a); [done|done| |done]. apply target_step; try done.
    by destruct (tgt_status a); try done; simpl; set_solver. }
  apply wp_trans; [apply _|done|]. destruct Hq1 as [[= _ _ _ _ Er Et _] _].
  eapply rollout_change_sound; [unfold w2; simpl; rewrite Er; exact Hro|done| | |reflexivity|].
  - apply rollout_step; try done. rewrite H16. simpl. set_solver.
  - unfold w2; simpl. rewrite Et. rewrite (alter_stored _ tid a) by exact Hsome.
    intros _ i t [[_ <-]|[Hne Ht]]%lookup_insert_Some Hrid; [done|]. by destruct Hne; rewrite (Hmember i t).
  - apply sound_of_quiet; quiet.
Qed.

Lemma cancel_sound rid c actor req authority budget now :
  pres sound (cancel_paused_singleton_rollout rid c actor req (checking authority) (checking budget) now).
Proof.
  apply pres_of_wp. intros w. unfold cancel_paused_singleton_rollout. skip_quiet. intros [] w1 Hq1.
  apply wp_trans; [apply _|by apply quiet_sound|]. clear w Hq1. rename w1 into w. wp_step.
  assert (quiet w w) as Hq by reflexivity. do 2 (eapply wp_unseen_bind; [eassumption|quiet|]; intros ? ? ?).
  match goal with Hq : quiet w ?x |- wp _ _ ?x => rename x into w1, Hq into Hq1 end.
  apply wp_trans; [apply _|by apply quiet_sound|]. clear dependent w. rename w1 into w.
  do 9 wp_step. wp_open. do 2 wp_step. case_match. case_match; [rest_quiet|].
  apply apply_cancellation_sound. simpl in *. congruence.
Qed.
End cancellation.

(** ** Requests in any order *)

(** A request that commits nothing. *)
Lemma sound_aborted w w' :
  committed w' = committed w → seed w <= seed w' → sound (stored w) (stored w').
Proof.
  intros Ec Hs. apply sound_same; unfold stored; simpl; by rewrite ?Ec.
Qed.

Lemma request_sound {A} (m : Tx A) :
  pres sound m → keeps committed m → pres seed_le m →
  pres (λ w w', sound (stored w) (stored w')) (request m).
Proof.
  intros Hm Hk Hs. apply pres_of_wp. intros w. apply wp_request; [done|].
  specialize (Hm (stored w)). specialize (Hk (stored w)). specialize (Hs (stored w)).
  rewrite wp_unfold. change (w <| db := committed w |>) with (stored w).
  destruct (m (stored w)) as [[a|e] w']; cbn [fst snd] in *.
  - split; [intros _; exact Hm|]. intros _. by apply sound_aborted.
  - by apply sound_aborted.
Qed.

Context `{CancellationContracts}.

(** One request to the service, or anything the rest of the server commits. *)
Inductive update_step (w : World) : World → Prop :=
| step_register m actor req now root :
    update_step w (request (register_build m actor req now root) w).2
| step_create bid mode ids reason actor req now :
    update_step w (request (create_rollout bid mode ids reason actor req now) w).2
| step_activate rid actor req now :
    update_step w (request (activate_rollout rid actor req now) w).2
| step_pause rid actor req now : update_step w (request (pause_rollout rid actor req now) w).2
| step_complete rid actor req now :
    update_step w (request (complete_rollout rid actor req now) w).2
| step_rollback tid bid ids reason actor req now :
    update_step w (request (create_rollback_rollout tid bid ids reason actor req now) w).2
| step_cancel rid c actor req authority budget now :
    update_step w (request (cancel_paused_singleton_rollout rid c actor req (checking authority)
                              (checking budget) now) w).2
| step_ack dev op ack req now e :
    update_step w (request (record_ack dev op ack req now (revalidation e)) w).2
| step_report dev op r req now e :
    update_step w (request (record_report dev op r req now (revalidation e)) w).2
| step_elsewhere w' :
    update_targets (committed w') = update_targets (committed w) →
    update_rollouts (committed w') = update_rollouts (committed w) →
    seed w <= seed w' → update_step w w'.

Lemma update_step_sound w w' : update_step w w' → sound (stored w) (stored w').
Proof.
  intros [m a r n root|b m ids re a r n|i a r n|i a r n|i a r n|t b ids re a r n|i c a r au bu n
         |d o k r n e|d o p r n e|w'' Et Er Hs];
    [apply (request_sound (register_build m a r n root))
    |apply (request_sound (create_rollout b m ids re a r n))
    |apply (request_sound (activate_rollout i a r n))
    |apply (request_sound (pause_rollout i a r n))
    |apply (request_sound (complete_rollout i a r n))
    |apply (request_sound (create_rollback_rollout t b ids re a r n))
    |apply (request_sound (cancel_paused_singleton_rollout i c a r (checking au) (checking bu) n))
    |apply (request_sound (record_ack d o k r n (revalidation e)))
    |apply (request_sound (record_report d o p r n (revalidation e)))|];
    auto using register_build_sound, create_rollout_sound, activate_rollout_sound,
      pause_rollout_sound, complete_rollout_sound, create_rollback_rollout_sound,
      cancel_sound, record_ack_sound, record_report_sound; try solve [frame].
  by apply sound_same.
Qed.

Lemma update_steps_sound w w' : rtc update_step w w' → sound (stored w) (stored w').
Proof. induction 1; [reflexivity|]. etrans; [by apply update_step_sound|done]. Qed.

(** C11: however requests interleave (builds registered, rollouts created,
    activated, paused, completed, rolled back and cancelled, targets
    acknowledged and reported, accepted or refused, and anything else the server
    commits outside these tables), no target or rollout is lost or changes what
    it is for.  A target only moves from assigned to requested to scheduled and
    then to applied or rolled back, or fails or is cancelled before; a rollout is
    paused and resumed until it is completed, or cancelled while it is paused;
    and a row that has ended is never changed again.  No device ever has two
    active targets, and a rollout that is completed or cancelled has none. *)
Theorem updates_follow_their_state_machines w w' :
  inv (stored w) → rtc update_step w w' →
  rows_kept target_moves (update_targets (committed w)) (update_targets (committed w'))
  ∧ rows_kept rollout_moves (update_rollouts (committed w)) (update_rollouts (committed w'))
  ∧ one_owner (update_targets (committed w')) ∧ no_open_work (committed w').
Proof.
  intros Hw Hs. apply update_steps_sound in Hs. destruct (Hs Hw) as [(_ & _ & Ho & Hn) [Ht Hr]].
  by split_and!.
Qed.

(** Once a target has ended (applied, failed, rolled back, cancelled) or
    a rollout has completed or been cancelled, no later request changes its
    row in any way. *)
Theorem ended_targets_and_rollouts_are_final w w' :
  inv (stored w) → rtc update_step w w' →
  (∀ id t, update_targets (committed w) !! id = Some t → target_active (tgt_status t) = false →
     update_targets (committed w') !! id = Some t)
  ∧ (∀ id r, update_rollouts (committed w) !! id = Some r →
       in_set (ro_status r) [r_completed; r_cancelled] = true →
       update_rollouts (committed w') !! id = Some r).
Proof.
  intros Hw Hs. apply update_steps_sound in Hs. destruct (Hs Hw) as [_ [Ht Hr]]. split.
  - intros id t Hid Ha. destruct (Ht id t Hid) as (t' & Hid' & Hm). by rewrite <- (target_ended _ _ Hm Ha).
  - intros id r Hid Ha. destruct (Hr id r Hid) as (r' & Hid' & Hm). by rewrite <- (rollout_ended _ _ Hm Ha).
Qed.
End facts.

(** ** A run of the service

    One build, one device: a canary rollout is created, its target
    acknowledged twice and reported applied, and later requests are refused; in
    another run the rollout is paused and cancelled. *)

Section demo.
#[local] Instance demo_contracts : UpdateContracts :=
  {| canonical_artifact_url := λ _, true; windows_artifact_verified := λ _ _, true |}.

Definition demo_digest : string := text (repeat (Ascii.ascii_of_nat 97) 64).

#[local] Instance demo_cancellations : CancellationContracts := {|
  sha256_of_text := λ _, demo_digest; cancellation_receipt_id := λ _, 9;
  request_json := λ _, JNull; json_request := λ _, None;
  response_json := λ _, JNull; json_response := λ _, None |}.

Definition demo_build : UpdateBuild := {|
  bld_build_identifier := "build-1"; bld_version := "1.2.0";
  bld_minimum_launcher_version := None; bld_platform := "linux_amd64";
  bld_channel := "stable"; bld_artifact_identifier := "a.zip";
  bld_artifact_url := "https://example.org/a.zip"; bld_artifact_name := "a.zip";
  bld_archive_type := "zip"; bld_sha256_digest := demo_digest; bld_size := 1;
  bld_release_notes := None |}.

Definition demo_world : World := {|
  committed := empty_db
    <| devices := {[ 1 := {| dev_device_identifier := "pc-1"; dev_display_name := None;
                             dev_retired_at := None |} ]} |>
    <| update_builds := {[ 10 := demo_build ]} |>;
  db := empty_db; seed := 100; clock := λ n, Z.of_nat n; ticks := 0 |}.

Definition demo_report : AgentUpdateReportV1 :=
  {| report_key := "r-1"; report_status := t_applied; reported_version := "1.2.0";
     report_safe_code := None |}.

(** The target's operation is [uuid4] number 105. *)
Definition demo_create (w : World) : World :=
  (request (create_rollout 10 "canary" [1] None "admin" "req-1" None) w).2.
Definition demo_ack (status : target_status) (w : World) : World :=
  (request (record_ack 1 105 status "req-2" None (revalidation None)) w).2.
Definition demo_finish (w : World) : World :=
  (request (record_report 1 105 demo_report "req-3" None (revalidation None)) w).2.

Definition demo_ended : World :=
  demo_finish (demo_ack t_scheduled (demo_ack t_requested (demo_create demo_world))).

Lemma demo_inv : inv (stored demo_world).
Proof.
  split_and!; [intros id v Hid|intros id v Hid|intros i j ti tj Hid|intros i t ro Hid];
    by destruct (lookup_empty_Some (M:=gmap uuid) _ _ Hid).
Qed.

Lemma demo_steps : rtc update_step demo_world demo_ended.
Proof.
  eapply rtc_l; [apply (step_create _ 10 "canary" [1] None "admin" "req-1" None)|].
  eapply rtc_l; [apply (step_ack _ 1 105 t_requested "req-2" None None)|].
  eapply rtc_l; [apply (step_ack _ 1 105 t_scheduled "req-2" None None)|].
  eapply rtc_l; [apply (step_report _ 1 105 demo_report "req-3" None None)|]. apply rtc_refl.
Qed.

(** A canary that is paused and cancelled, its recovery verified in between. *)
Definition demo_paused : World :=
  (request (pause_rollout 100 "admin" "req-4" (Some (utc_datetime (seconds 60)))) (demo_create demo_world)).2.

Definition demo_cancellation : option UpdateRolloutCancellationRequestV1 :=
  match (rollout_cancellation_context 100 (mret tt) (stored demo_paused)).1 with
  | Ok context => Some {| cr_cancellation_id := 7; cr_expected := context;
      cr_recovery := {| att_run_id := 8; att_evidence_sha256 := demo_digest;
                        att_verified_at := utc_datetime (seconds 90) |} |}
  | Exn _ => None
  end.

Definition demo_cancelled : World :=
  match demo_cancellation with
  | Some c => (request (cancel_paused_singleton_rollout 100 c "admin" "req-5" (checking (λ _, None))
                          (checking (λ _, None)) (Some (utc_datetime (seconds 120)))) demo_paused).2
  | None => demo_paused
  end.

Lemma demo_cancelled_steps : rtc update_step demo_world demo_cancelled.
Proof.
  eapply rtc_l; [apply (step_create _ 10 "canary" [1] None "admin" "req-1" None)|].
  eapply rtc_l; [apply (step_pause _ 100 "admin" "req-4" (Some (utc_datetime (seconds 60))))|].
  unfold demo_cancelled. destruct demo_cancellation as [c|]; [|apply rtc_refl].
  eapply rtc_l; [apply (step_cancel _ 100 c "admin" "req-5" (λ _, None) (λ _, None) (Some (utc_datetime (seconds 120))))|].
  apply rtc_refl.
Qed.

Lemma updates_follow_their_state_machines_witness :
  (ro_status <$> update_rollouts (committed demo_cancelled) !! 100) = Some r_cancelled
  ∧ (tgt_status <$> update_targets (committed demo_cancelled) !! 103) = Some t_cancelled
  ∧ no_open_work (committed demo_cancelled)
  ∧ one_owner (update_targets (committed demo_ended))
  ∧ rows_kept target_moves (update_targets (committed demo_world)) (update_targets (committed demo_ended)).
Proof.
  split; [vm_compute; reflexivity|]. split; [vm_compute; reflexivity|]. split_and!.
  - apply (updates_follow_their_state_machines demo_world _ demo_inv demo_cancelled_steps).
  - apply (updates_follow_their_state_machines demo_world _ demo_inv demo_steps).
  - apply (updates_follow_their_state_machines demo_world _ demo_inv demo_steps).
Defined.

Lemma demo_ended_inv : inv (stored demo_ended).
Proof. apply (update_steps_sound _ _ demo_steps), demo_inv. Qed.

Lemma ended_targets_and_rollouts_are_final_witness :
  (ro_status <$> update_rollouts (committed demo_ended) !! 100) = Some r_completed
  ∧ (tgt_status <$> update_targets (committed demo_ended) !! 103) = Some t_applied
  ∧ ∀ id r, update_rollouts (committed demo_ended) !! id = Some r →
      in_set (ro_status r) [r_completed; r_cancelled] = true →
      update_rollouts (committed (demo_create demo_ended)) !! id = Some r.
Proof.
  split; [vm_compute; reflexivity|]. split; [vm_compute; reflexivity|].
  apply (ended_targets_and_rollouts_are_final demo_ended (demo_create demo_ended) demo_ended_inv).
  apply rtc_once. apply (step_create _ 10 "canary" [1] None "admin" "req-1" None).
Defined.
End demo.
