(* ===== verification/UpdatesSpecs.v ===== *)
(** * Update rollouts: what each request does

    The functional behaviour of acknowledgements, reports, rollout creation,
    rollback, build registration and recommendations. *)

From S2P Require Import Prelude Store Session AuditLog Frames AuditFacts Semver Updates UpdatesFacts.

Section specs.
Context `{UpdateContracts}.

Ltac quiet := apply pres_and; frame.
Ltac skip_quiet := apply (wp_bind_pres quiet); [quiet | | done].

(** ** Acknowledgements *)

(** The one status an acknowledgement advances from. *)
Definition ack_predecessor (desired : target_status) : target_status :=
  if decide (desired = t_requested) then t_assigned else t_requested.

Lemma ack_transition_spec desired current repeated :
  in_set desired [t_requested; t_scheduled] = true →
  ack_transition desired current = Ok repeated →
  if repeated then current = desired ∨ current = t_scheduled
  else current = ack_predecessor desired.
Proof.
  unfold ack_transition, ack_predecessor.
  destruct desired; try done; simpl; intros _; destruct current; simpl; intros [= <-]; auto.
Qed.

Lemma record_ack_committed dev op ack req now e :
  keeps committed (record_ack dev op ack req now (revalidation e)).
Proof. unfold revalidation. frame. Qed.

(** An acknowledgement that is accepted names a target of this device
    and operation whose rollout is active.  It either repeats what the target
    already reached and changes no target, or it moves that one target from
    assigned to requested, or from requested to scheduled, never skipping or
    reversing a stage; a refused one commits nothing. *)
Theorem acknowledgements_advance_in_order dev op ack req now e w :
  wp (request (record_ack dev op ack req now (revalidation e))) (λ r w',
    match r with
    | Ok tid => ∃ t rid ro b,
        target_context dev op (committed w) tid t rid ro b ∧ ro_status ro = r_active
        ∧ in_set ack [t_requested; t_scheduled] = true
        ∧ (((tgt_status t = ack ∨ tgt_status t = t_scheduled)
            ∧ update_targets (committed w') = update_targets (committed w))
           ∨ (tgt_status t = ack_predecessor ack
              ∧ ∃ at_, update_targets (committed w')
                       = <[tid := acknowledge_target ack at_ t]> (update_targets (committed w))))
    | Exn _ => committed w' = committed w
    end) w.
Proof.
  apply wp_request_ok; [apply record_ack_committed|done|].
  change (w <| db := committed w |>) with (stored w).
  unfold record_ack, _acknowledgement. do 2 wp_step.
  apply wp_bind. eapply wp_mono; [apply locked_target_context_spec|].
  intros [[[[tid t] [rid ro]] b]|x] w1 [-> Hc]; wp_k; [|done].
  apply wp_bind. eapply wp_mono; [apply revalidation_spec|].
  intros [[]|x] w1 ->; wp_k; [|done]. do 2 wp_step. propify.
  destruct (ack_transition _ _) as [[]|x] eqn:Ht; wp_k; [| |done];
    (apply ack_transition_spec in Ht; [|done]).
  - wp_step. intros _. exists t, rid, ro, b. split_and!; [done..|by left].
  - skip_quiet. intros at_ w1 Hq1. wp_step.
    apply (wp_bind_pres quiet); [quiet| |done]. intros ? w2 Hq2.
    apply (wp_bind_pres quiet); [quiet| |done]. intros ? w3 Hq3.
    do 2 wp_step. intros _. exists t, rid, ro, b. split_and!; try done. right. split; [done|].
    exists at_. destruct Hq1 as [[= _ _ _ _ _ E1 _] _], Hq2 as [[= _ _ _ _ _ E2 _] _],
      Hq3 as [[= _ _ _ _ _ E3 _] _]. simpl. rewrite E3, E2; simpl. rewrite E1.
    apply alter_stored, Hc.
Qed.

(** ** Reports *)

Lemma record_report_committed dev op r req now e :
  keeps committed (record_report dev op r req now (revalidation e)).
Proof. unfold revalidation. frame. Qed.

(** The targets of a rollout have all ended. *)
Definition rollout_ended (rid : uuid) (m : gmap uuid UpdateTarget) : Prop :=
  ∀ id t, m !! id = Some t → tgt_rollout_id t = rid → target_active (tgt_status t) = false.

Lemma terminal_target_active t : terminal_target t = negb (target_active (tgt_status t.2)).
Proof. unfold terminal_target, target_active. by destruct (tgt_status t.2). Qed.

Lemma all_terminal_ended rid (m : gmap uuid UpdateTarget) l id t :
  (∀ i u, (i, u) ∈ l ↔ m !! i = Some u ∧ (tgt_rollout_id u =? rid) = true) →
  m !! id = Some t → tgt_rollout_id t = rid →
  all_terminal l = true ↔ rollout_ended rid m.
Proof.
  intros Hl Hid Hr. unfold all_terminal. rewrite andb_true_iff, negb_true_iff, bool_decide_eq_false.
  rewrite forallb_forall. split.
  - intros [_ Hall] i u Hu Hru. specialize (Hall (i, u)). rewrite terminal_target_active in Hall.
    simpl in Hall. apply negb_true_iff, Hall. apply list_elem_of_In, Hl. split; [done|].
    by apply Z.eqb_eq.
  - intros Hend. split.
    + intros ->. assert ((id, t) ∈ []) as Hin by (apply Hl; split; [done|by apply Z.eqb_eq]).
      by apply elem_of_nil in Hin.
    + intros [i u] Hin%list_elem_of_In%Hl. destruct Hin as [Hu Hru%Z.eqb_eq].
      rewrite terminal_target_active. simpl. by rewrite (Hend i u).
Qed.

(** What a first report leaves behind: the report row, the target's end, and
    the rollout's completion exactly when it was the last target. *)
Definition report_stored (d d' : DB) (id tid : uuid) (t : UpdateTarget) (rid : uuid)
    (ro : UpdateRollout) (r : AgentUpdateReportV1) : Prop :=
  ∃ at_ x,
    update_reports d' = <[id := x]> (update_reports d)
    ∧ rep_update_target_id x = tid ∧ rep_device_id x = tgt_device_id t ∧ _same_report x r = true
    ∧ update_targets d' = <[tid := finish_target (report_status r) at_ t]> (update_targets d)
    ∧ (rollout_ended rid (update_targets d') →
       update_rollouts d' = <[rid := complete at_ ro]> (update_rollouts d))
    ∧ (¬ rollout_ended rid (update_targets d') → update_rollouts d' = update_rollouts d).

Lemma same_report_refl tid dev ident r :
  _same_report {| rep_update_target_id := tid; rep_device_id := dev;
                  rep_report_identifier := ident; rep_report_key := report_key r;
                  rep_reported_version := reported_version r; rep_status := report_status r;
                  rep_safe_code := report_safe_code r |} r = true.
Proof. unfold _same_report; simpl. by rewrite !bool_decide_true by done. Qed.

Lemma store_report_spec tid t rid ro r req now w :
  update_targets (db w) !! tid = Some t → tgt_rollout_id t = rid →
  update_rollouts (db w) !! rid = Some ro →
  wp (store_report tid t rid r req now) (λ r' w',
    match r' with
    | Ok id => report_stored (db w) (db w') id tid t rid ro r
    | Exn _ => True
    end) w.
Proof.
  intros Ht Hrid Hro. unfold store_report. skip_quiet. intros at_ w1 Hq1. do 4 wp_step.
  match goal with |- wp _ _ ?x => set (w2 := x) end.
  skip_quiet. intros req' w3 Hq3. skip_quiet. intros ? w4 Hq4. wp_step. wp_open. wp_step.
  assert (∃ x, update_reports (db w4) = <[seed w1 := x]> (update_reports (db w))
            ∧ rep_update_target_id x = tid ∧ rep_device_id x = tgt_device_id t
            ∧ _same_report x r = true) as (x & Ex & Hx).
  { destruct Hq1 as [[= _ _ _ _ _ _ E1] _], Hq3 as [[= _ _ _ _ _ _ E3] _],
      Hq4 as [[= _ _ _ _ _ _ E4] _]. rewrite E4, E3. unfold w2; simpl. rewrite E1.
    eexists. split_and!; [done..|apply same_report_refl]. }
  set (t' := finish_target (report_status r) at_ t).
  assert (update_targets (db w4) = <[tid := t']> (update_targets (db w))) as Et.
  { destruct Hq1 as [[= _ _ _ _ _ E1 _] _], Hq3 as [[= _ _ _ _ _ E3 _] _],
      Hq4 as [[= _ _ _ _ _ E4 _] _]. rewrite E4, E3. unfold w2; simpl. rewrite E1.
    by apply alter_stored. }
  assert (update_rollouts (db w4) = update_rollouts (db w)) as Er.
  { destruct Hq1 as [[= _ _ _ _ E1 _ _] _], Hq3 as [[= _ _ _ _ E3 _ _] _],
      Hq4 as [[= _ _ _ _ E4 _ _] _]. by rewrite E4, E3. }
  clear Hq1 Hq3 Hq4. clearbody w2. simpl in H2. rewrite Et in H2.
  assert (all_terminal l = true ↔ rollout_ended rid (<[tid := t']> (update_targets (db w)))) as Hall.
  { apply (all_terminal_ended _ _ _ tid t' H2); [by rewrite lookup_insert_eq|done]. }
  apply wp_bind, wp_when; intros Hend; wp_k.
  - wp_step. apply (wp_pres quiet); [quiet|]. intros [[]|?] w6 Hq6; wp_k; [|done].
    apply (wp_bind_pres quiet); [quiet| |done]. intros ? w7 Hq7. wp_step.
    destruct Hq6 as [[= _ _ _ _ E6 F6 G6] _], Hq7 as [[= _ _ _ _ E7 F7 G7] _].
    exists at_, x. rewrite G7, G6, F7, F6, E7, E6. simpl. rewrite Ex, Et, Er.
    split_and!; try apply Hx; [done..| |].
    + intros _. by apply alter_stored.
    + intros Hn. by destruct Hn; apply Hall.
  - apply (wp_bind_pres quiet); [quiet| |done]. intros ? w7 Hq7. wp_step.
    destruct Hq7 as [[= _ _ _ _ E7 F7 G7] _].
    exists at_, x. rewrite G7, F7, E7, Ex, Et, Er. split_and!; try apply Hx; [done..| |done].
    intros He. apply Hall in He. congruence.
Qed.

(** A report that is accepted names a target of this device and
    operation.  Either the same report was stored before, and then nothing is
    committed; or it is the first with its key, the rollout was open and the
    target active (and scheduled and at the build's version, where the outcome
    needs it), and exactly the report row is added, the target ends with the
    reported status, and the rollout completes if and only if this was its
    last unfinished target.  A refused report commits nothing. *)
Theorem reports_are_recorded_once dev op r req now e w :
  wp (request (record_report dev op r req now (revalidation e))) (λ r' w',
    match r' with
    | Ok id => ∃ tid t rid ro b,
        target_context dev op (committed w) tid t rid ro b
        ∧ ((committed w' = committed w
            ∧ ∃ x, update_reports (committed w) !! id = Some x
                   ∧ rep_update_target_id x = tid ∧ _same_report x r = true)
           ∨ (report_error ro t b r = None
              ∧ (∀ i x, update_reports (committed w) !! i = Some x →
                   rep_update_target_id x = tid → rep_report_key x ≠ report_key r)
              ∧ report_stored (committed w) (committed w') id tid t rid ro r))
    | Exn _ => committed w' = committed w
    end) w.
Proof.
  apply wp_request_ok; [apply record_report_committed|done|].
  change (w <| db := committed w |>) with (stored w).
  unfold record_report, _report. do 2 wp_step.
  apply wp_bind. eapply wp_mono; [apply locked_target_context_spec|].
  intros [[[[tid t] [rid ro]] b]|x] w1 [-> Hc]; wp_k; [|done].
  apply wp_bind. eapply wp_mono; [apply revalidation_spec|].
  intros [[]|x] w1 ->; wp_k; [|done]. wp_step.
  - destruct (_same_report _ _) eqn:Hs; wp_step. intros _. exists tid, t, rid, ro, b.
    split; [done|]. left. propify. eauto.
  - destruct (report_error ro t b r) eqn:He; [by wp_step|]. destruct Hc.
    eapply wp_mono; [by apply store_report_spec with (rid := rid) (ro := ro)|].
    intros [id|x] w2 Hst; [|done]. intros _. exists tid, t, rid, ro, b. split; [by split|].
    right. split_and!; [done| |exact Hst].
    intros i x Hi Htid Hkey. specialize (H1 i x Hi). cbn in H1.
    rewrite Htid, Z.eqb_refl, Hkey, bool_decide_true in H1; done.
Qed.

(** ** Creating a rollout *)

Definition assigned_to (rid d : uuid) (m : gmap uuid UpdateTarget) : Prop :=
  ∃ tid t, m !! tid = Some t ∧ tgt_device_id t = d ∧ tgt_rollout_id t = rid
           ∧ tgt_status t = t_assigned.

Lemma assign_targets_spec rid ro ident reason actor req now ids w :
  inv w → NoDup ids → update_rollouts (db w) !! rid = Some ro → finished ro = false → unowned ids (update_targets (db w)) →
  wp (for_each ids (assign_target rid ident reason actor req now)) (λ r w',
    match r with
    | Ok _ => update_targets (db w) ⊆ update_targets (db w')
              ∧ update_rollouts (db w') = update_rollouts (db w)
              ∧ ∀ d, d ∈ ids → assigned_to rid d (update_targets (db w'))
    | Exn _ => True
    end) w.
Proof.
  revert w. induction ids as [|d ids IH]; intros w Hinv Hnd Hro Hnf Hfree; simpl.
  { wp_step. split_and!; [done..|]. intros d []%elem_of_nil. }
  apply NoDup_cons in Hnd as [Hd Hnd].
  apply wp_bind. eapply wp_mono; [apply (assign_target_spec rid ro); [done..|]|].
  { intros id t Ht Ha Hin. apply (Hfree id t Ht Ha). apply list_elem_of_singleton in Hin as ->. left. }
  intros [[]|e] w1 [H1 Hr]; wp_k; [|done]. destruct Hr as (t & Htd & Htr & Hts & Er & Et).
  destruct (H1 Hinv) as [Hinv1 _].
  eapply wp_mono; [apply IH; [done|done|by rewrite Er|done|]|].
  { rewrite Et. intros id u [[<- <-]|[_ Hu]]%lookup_insert_Some Ha; [by rewrite Htd|].
    intros Hin. apply (Hfree id u Hu Ha). by right. }
  intros [[]|e] w2; [|done]. intros (Hsub & Er2 & Hall). rewrite Et in Hsub.
  destruct Hinv as (Hfr & _ & _). split_and!; [|congruence|].
  - etrans; [|exact Hsub]. by apply insert_subseteq, fresh_lookup.
  - intros d' [->|Hd']%elem_of_cons; [|by apply Hall].
    exists (seed w), t. split_and!; try done.
    eapply lookup_weaken; [|exact Hsub]. by rewrite lookup_insert_eq.
Qed.

Definition devices_ready (ids : list uuid) (d : DB) : Prop :=
  ∀ i, i ∈ ids → ∃ dev, devices d !! i = Some dev ∧ dev_retired_at dev = None.

Lemma covering_NoDup (l k : list uuid) :
  NoDup l → l ⊆ k → length l = length k → k ⊆ l.
Proof.
  intros Hl Hsub Hlen x Hx. apply list_elem_of_In.
  apply (List.NoDup_length_incl (l:=l) (l':=k)); [by apply NoDup_ListNoDup|lia| |by apply list_elem_of_In].
  intros y Hy. apply list_elem_of_In, Hsub. by apply list_elem_of_In.
Qed.

Lemma lock_assignable_devices_ready ids w :
  wp (_lock_assignable_devices ids None) (λ r w', w' = w ∧
    match r with
    | Ok _ => devices_ready ids (db w) ∧ unowned ids (update_targets (db w))
    | Exn _ => True
    end) w.
Proof.
  pose proof (lock_assignable_spec ids w) as Hown. revert Hown. rewrite !wp_unfold.
  intros [Hw Hown]. split; [done|].
  destruct (_lock_assignable_devices ids None w) as [[[]|e] w'] eqn:E; [|done]. split; [|done].
  assert (wp (_lock_assignable_devices ids None) (λ r _, match r with Ok _ => devices_ready ids (db w) | _ => True end) w)
    as Hready; [|by rewrite wp_unfold, E in Hready].
  unfold _lock_assignable_devices. repeat wp_step. intros i Hi. propify.
  apply Nat.eqb_eq in H2.
  assert (i ∈ l.*1) as Hin.
  { apply (covering_NoDup l.*1 ids); [done| |by rewrite length_fmap|done].
    intros j (y & -> & Hy)%list_elem_of_fmap. destruct y as [j d]. apply H1 in Hy as [_ Hp].
    propify. done. }
  apply list_elem_of_fmap in Hin as ([j d] & -> & Hy). apply H1 in Hy as [Hj Hp]. propify.
  exists d. split; [done|]. by destruct (dev_retired_at d).
Qed.

(** What creating an active rollout found and left behind. *)
Definition rollout_created (w w' : World) (bid : uuid) (m : rollout_mode) (ids : list uuid)
    (reason : option string) (id : uuid) : Prop :=
  devices_ready ids (db w) ∧ unowned ids (update_targets (db w))
  ∧ (inv w → ∃ r, update_rollouts (db w') !! id = Some r ∧ ro_build_id r = bid ∧ ro_mode r = m
       ∧ ro_status r = r_active ∧ ro_reason r = reason
       ∧ ∀ d, d ∈ ids → assigned_to id d (update_targets (db w'))).

Lemma create_active_rollout_spec bid b m ids reason actor req now w :
  NoDup ids →
  wp (_create_active_rollout bid b m ids reason actor req now) (λ r w',
    match r with
    | Ok id => rollout_created w w' bid m ids reason id
    | Exn _ => True
    end) w.
Proof.
  intros Hnd. unfold _create_active_rollout.
  apply wp_bind. eapply wp_mono; [apply lock_assignable_devices_ready|].
  intros [[]|e] w0 [-> Hl]; wp_k; [|done]. destruct Hl as [Hready Hfree]. do 3 wp_step.
  match goal with |- wp _ _ ?x => set (w1 := x) end.
  skip_quiet. intros ? w2 Hq2.
  assert (wp (for_each ids (assign_target (seed w) ("ur_" +:+ uuid_hex (seed w + 1)) reason actor req now))
    (λ r w', match r with
      | Ok _ => inv w → update_rollouts (db w') = update_rollouts (db w2)
                ∧ ∀ d, d ∈ ids → assigned_to (seed w) d (update_targets (db w'))
      | Exn _ => True end) w2) as Hloop.
  { rewrite wp_unfold. destruct (for_each _ _ w2) as [[[]|e] w3] eqn:E; [|done]. intros Hinv.
    assert (wp (for_each ids (assign_target (seed w) ("ur_" +:+ uuid_hex (seed w + 1)) reason actor
              req now)) (λ r w', match r with
      | Ok _ => update_targets (db w2) ⊆ update_targets (db w')
                ∧ update_rollouts (db w') = update_rollouts (db w2)
                ∧ ∀ d, d ∈ ids → assigned_to (seed w) d (update_targets (db w'))
      | Exn _ => True end) w2) as Hs; [|by rewrite wp_unfold, E in Hs; apply Hs].
    assert (sound w w1) as H1.
    { destruct Hinv as (It & Ir & Io). etrans; [|apply sound_new_rollout; simpl].
      - apply quiet_sound. split; [done|]. unfold seed_le; simpl. lia.
      - lia.
      - by apply fresh_lookup.
      - done. }
    destruct (Hq2) as [[= _ _ _ _ Er Et _] _].
    assert (∃ ro, update_rollouts (db w2) !! seed w = Some ro ∧ finished ro = false) as (ro & Hro & Hnf).
    { rewrite Er. eexists. split; [apply lookup_insert_eq|done]. }
    apply (assign_targets_spec (seed w) ro); [|done..|by rewrite Et].
    apply (quiet_sound w1 w2 Hq2). by apply H1. }
  apply wp_bind. eapply wp_mono; [exact Hloop|]. intros [[]|e] w3 Hw3; wp_k; [|done].
  skip_quiet. intros ? w4 Hq4. wp_step. split_and!; [done..|]. intros Hinv.
  destruct (Hw3 Hinv) as [Er Hall].
  destruct Hq2 as [[= _ _ _ _ E2 _ _] _], Hq4 as [[= _ _ _ _ E4 F4 _] _].
  rewrite E4, F4, Er, E2. unfold w1; simpl. eexists. by rewrite lookup_insert_eq.
Qed.

Lemma rollout_created_quiet w w1 w' bid m ids reason id :
  quiet w w1 → rollout_created w1 w' bid m ids reason id → rollout_created w w' bid m ids reason id.
Proof.
  intros Hq (Hd & Hu & Hc). destruct (Hq) as [[= _ _ Ed _ _ Et _] _].
  split_and!.
  - intros d Hin. rewrite <- Ed. by apply Hd.
  - by rewrite <- Et.
  - intros Hinv. apply Hc. by apply (quiet_sound w w1 Hq).
Qed.

Lemma create_rollout_committed bid mode ids reason actor req now :
  keeps committed (create_rollout bid mode ids reason actor req now).
Proof. frame. Qed.

(** A rollout is created only for an existing build, a canary or bulk
    mode and a non-empty list of distinct devices that all exist, are not
    retired and are owned by no active target; a bulk rollout also needs a
    completed canary of the same build.  The new rollout is active and
    assigns every listed device; a refused request commits nothing. *)
Theorem rollouts_need_a_canary_and_free_devices bid mode ids reason actor req now w :
  wp (request (create_rollout bid mode ids reason actor req now)) (λ r w',
    match r with
    | Ok id => ∃ m b, parse_mode mode = Some m ∧ m ≠ m_rollback
        ∧ update_builds (committed w) !! bid = Some b ∧ ids ≠ [] ∧ NoDup ids
        ∧ (m = m_bulk → ∃ cid c, update_rollouts (committed w) !! cid = Some c
             ∧ ro_build_id c = bid ∧ ro_mode c = m_canary ∧ ro_status c = r_completed)
        ∧ rollout_created (stored w) (stored w') bid m ids reason id
    | Exn _ => committed w' = committed w
    end) w.
Proof.
  apply wp_request_ok; [apply create_rollout_committed|done|].
  change (w <| db := committed w |>) with (stored w).
  unfold create_rollout, _locked_build. do 3 wp_step.
  apply wp_bind. eapply wp_mono; [apply validate_rollout_input_spec|].
  intros [[[m ids'] reason']|e] w0 [-> Hv]; wp_k; [|done]. destruct Hv as (Hm & -> & Hnd & Hne & ->).
  propify. assert (m ≠ m_rollback) as Hmr.
  { intros ->. unfold parse_mode in Hm. repeat case_match; simplify_eq. }
  assert (wp (when (bool_decide (m = m_bulk)) (_require_completed_canary bid)) (λ r w', w' = stored w
    ∧ match r with
      | Ok _ => m = m_bulk → ∃ cid c, update_rollouts (committed w) !! cid = Some c
             ∧ ro_build_id c = bid ∧ ro_mode c = m_canary ∧ ro_status c = r_completed
      | Exn _ => True end) (stored w)) as Hcanary.
  { apply wp_when; intros Hb; propify; [|done]. unfold _require_completed_canary. repeat wp_step.
    split; [done|]. intros _. unfold completed_canary in *. propify. eauto 7. }
  apply wp_bind. eapply wp_mono; [exact Hcanary|]. intros [[]|e] w0 [-> Hb]; wp_k; [|done].
  skip_quiet. intros a1 w1 Hq1. skip_quiet. intros a2 w2 Hq2. skip_quiet. intros a3 w3 Hq3.
  eapply wp_mono; [by apply create_active_rollout_spec|]. intros [id|e] w4; [|done].
  intros Hc _. exists m, a. split_and!; try done.
  eapply rollout_created_quiet, Hc. etrans; [exact Hq1|]. by etrans.
Qed.

(** ** Rolling back *)

Lemma last_Some_elem_of {A} (l : list A) x : last l = Some x → x ∈ l.
Proof. intros (l' & ->)%last_Some. apply elem_of_app. right. by apply list_elem_of_singleton. Qed.


Lemma create_rollback_committed tid bid ids reason actor req now :
  keeps committed (create_rollback_rollout tid bid ids reason actor req now).
Proof. frame. Qed.

(** What a created rollback says of the rollout [tid] it undoes. *)
Definition rollback_of (w w' : World) (tid bid : uuid) (ids : list uuid) (reason : string) (id : uuid)
    : Prop :=
  ∃ trigger old new c,
    update_rollouts (committed w) !! tid = Some trigger ∧ ro_status trigger ≠ r_draft
    ∧ update_builds (committed w) !! ro_build_id trigger = Some new
    ∧ update_builds (committed w) !! bid = Some old
    ∧ bid ≠ ro_build_id trigger ∧ bld_platform old = bld_platform new
    ∧ _compare_semver (bld_version old) (bld_version new) = Some c ∧ c < 0
    ∧ ids ≠ [] ∧ NoDup ids
    ∧ (∀ d, d ∈ ids → ∃ i t, update_targets (committed w) !! i = Some t
         ∧ tgt_rollout_id t = tid ∧ tgt_device_id t = d ∧ target_active (tgt_status t) = false)
    ∧ validate_public_update_prose (Some reason) 512 true false = Some (Some reason)
    ∧ rollout_created (stored w) (stored w') bid m_rollback ids
        (Some ("rollback of " +:+ uuid_str tid +:+ "; " +:+ reason)) id.

#[local] Opaque validate_public_update_prose.

Lemma create_rollback_spec tid bid ids reason actor req now w :
  wp (request (create_rollback_rollout tid bid ids reason actor req now)) (λ r w',
    match r with
    | Ok id => rollback_of w w' tid bid ids reason id
    | Exn _ => committed w' = committed w
    end) w.
Proof.
  apply wp_request_ok; [apply create_rollback_committed|done|].
  change (w <| db := committed w |>) with (stored w).
  unfold create_rollback_rollout, _locked_rollout, targets_of, _safe_reason. repeat wp_step.
  apply wp_bind. eapply wp_mono; [apply validate_rollout_input_spec|].
  intros [[[m ids'] reason']|e] w0 [-> Hv]; wp_k; [|done]. destruct Hv as (Hm & -> & Hnd & Hne & ->).
  do 2 wp_step.
  skip_quiet. intros a1' w1 Hq1. skip_quiet. intros a2' w2 Hq2. skip_quiet. intros a3' w3 Hq3.
  eapply wp_mono; [by apply create_active_rollout_spec|]. intros [id|e] w4; [|done].
  intros Hc _. simpl in *. simplify_eq. propify.
  pose proof (prose_unchanged _ _ _ _ _ Hsome4) as ->.
  exists a, a1, a0, a3. split_and!; try done.
  - intros d Hd.
    assert (from_option terminal_target false (target_by_device d (order_by device_id_order l)) = true)
      as Hterm by (apply negb_false_iff; by apply (existsb_false _ _ d H10)).
    destruct (target_by_device d _) as [[i t]|] eqn:Et; [|done]. simpl in Hterm.
    unfold target_by_device in Et. apply last_Some_elem_of, elem_of_filter_bool in Et as [Ein Ed].
    apply elem_of_order_by, H2 in Ein as [Ht Hr]. propify. exists i, t. split_and!; try done.
    rewrite terminal_target_active in Hterm. by apply negb_true_iff.
  - eapply rollout_created_quiet, Hc. etrans; [exact Hq1|]. by etrans.
Qed.

#[local] Transparent validate_public_update_prose.

(** A rollback is created only against an existing rollout that is past
    its draft, to another build of the same platform whose version is strictly
    older than the build being rolled back, and only for devices whose target
    in that rollout has ended; the devices are also free of active targets.
    A refused request commits nothing. *)
Theorem rollbacks_go_to_an_older_build tid bid ids reason actor req now w :
  wp (request (create_rollback_rollout tid bid ids reason actor req now)) (λ r w',
    match r with
    | Ok id => ∃ trigger old new c,
        update_rollouts (committed w) !! tid = Some trigger ∧ ro_status trigger ≠ r_draft
        ∧ update_builds (committed w) !! ro_build_id trigger = Some new
        ∧ update_builds (committed w) !! bid = Some old
        ∧ bid ≠ ro_build_id trigger ∧ bld_platform old = bld_platform new
        ∧ _compare_semver (bld_version old) (bld_version new) = Some c ∧ c < 0
        ∧ ids ≠ [] ∧ NoDup ids
        ∧ (∀ d, d ∈ ids → ∃ i t, update_targets (committed w) !! i = Some t
             ∧ tgt_rollout_id t = tid ∧ tgt_device_id t = d ∧ target_active (tgt_status t) = false)
        ∧ rollout_created (stored w) (stored w') bid m_rollback ids
            (Some ("rollback of " +:+ uuid_str tid +:+ "; " +:+ reason)) id
    | Exn _ => committed w' = committed w
    end) w.
Proof.
  eapply wp_mono; [apply create_rollback_spec|]. intros [id|e] w' Hr; [|done].
  destruct Hr as (trigger & old & new & c & Hr). exists trigger, old, new, c. naive_solver.
Qed.

(** ** Recommendations *)

Lemma latest_instance_order_laws :
  (∀ a b c, latest_instance_order a b = true → latest_instance_order b c = true →
     latest_instance_order a c = true)
  ∧ (∀ a b, latest_instance_order a b = true ∨ latest_instance_order b a = true).
Proof.
  unfold latest_instance_order, lex_leb. split.
  - intros [i a] [j b] [k c]; simpl.
    destruct (inst_last_seen_at a), (inst_last_seen_at b), (inst_last_seen_at c); simpl; try done;
      rewrite ?orb_true_iff, ?andb_true_iff, ?Z.ltb_lt, ?Z.eqb_eq, ?Z.leb_le; lia.
  - intros [i a] [j b]; simpl.
    destruct (inst_last_seen_at a), (inst_last_seen_at b); simpl; auto;
      rewrite ?orb_true_iff, ?andb_true_iff, ?Z.ltb_lt, ?Z.eqb_eq, ?Z.leb_le; lia.
Qed.

(** [i] is the instance of the device that was seen last. *)
Definition latest_instance (d : DB) (device_id iid : uuid) (i : DeviceInstance) : Prop :=
  device_instances d !! iid = Some i ∧ inst_device_id i = device_id
  ∧ ∀ jid j, device_instances d !! jid = Some j → inst_device_id j = device_id →
      latest_instance_order (iid, i) (jid, j) = true.

Lemma latest_launcher_version_spec dev w :
  wp (latest_launcher_version dev) (λ r w', w' = w ∧
    match r with
    | Ok (Some v) => ∃ iid i, latest_instance (db w) dev iid i ∧ inst_launcher_version i = Some v
    | _ => True
    end) w.
Proof.
  unfold latest_launcher_version. do 2 wp_step. split; [done|].
  destruct (head _) as [[iid i]|] eqn:Eh; simpl; [|done].
  destruct (inst_launcher_version i) as [v|] eqn:Ev; [|done]. exists iid, i. split; [|done].
  destruct latest_instance_order_laws as [Htr Htot].
  pose proof (head_Some_elem_of _ _ Eh) as [Hi Hd]%elem_of_order_by%H1. propify.
  split_and!; [done..|]. intros jid j Hj Hdj. apply (order_by_head _ l); [done..|].
  apply H1. split; [done|]. by apply Z.eqb_eq.
Qed.

(** An active target of the device, in an active rollout, to a build of the
    platform. *)
Definition visible (d : DB) (device_id : uuid) (platform : string) (t : UpdateTarget)
    (ro : UpdateRollout) (b : UpdateBuild) : Prop :=
  (∃ tid, update_targets d !! tid = Some t) ∧ tgt_device_id t = device_id
  ∧ target_active (tgt_status t) = true ∧ update_rollouts d !! tgt_rollout_id t = Some ro
  ∧ ro_status ro = r_active ∧ update_builds d !! ro_build_id ro = Some b
  ∧ bld_platform b = platform.

Lemma visible_update_spec dev platform w :
  wp (visible_update dev platform) (λ r w', w' = w ∧
    match r with Ok (Some (t, ro, b)) => visible (db w) dev platform t ro b | _ => True end) w.
Proof.
  unfold visible_update. wp_step. apply (wp_for_return _ _ (λ w', w' = w)); [done| |by intros w' ->].
  intros [tid t] w' Hin ->. apply H1 in Hin as [Ht Hp]. wp_step.
  destruct (table (db w) !! tgt_rollout_id t) as [ro|] eqn:Er; [|by wp_step]. wp_step.
  destruct (table (db w) !! ro_build_id ro) as [b|] eqn:Eb; [|by wp_step]. wp_step.
  destruct (bool_decide (ro_status ro = r_active) && bool_decide (bld_platform b = platform)) eqn:Ec;
    [|done]. split; [done|]. propify. unfold visible. eauto 10.
Qed.

(** An agent is recommended an update only if its device has an active
    target in an active rollout whose build is for the agent's platform; the
    recommendation carries that build's identity and that target's operation;
    and where the build demands a launcher version, the launcher reported by
    the most recently seen instance of the device is not older than that
    minimum.  Reading a recommendation changes nothing. *)
Theorem recommendations_are_authorized dev platform now w :
  wp (recommendation_for_device dev platform now) (λ r w',
    db w' = db w ∧ committed w' = committed w ∧
    match r with
    | Ok (Some rec) => platform ∈ _PLATFORMS ∧ ∃ t ro b,
        visible (db w) dev platform t ro b
        ∧ rec_version rec = bld_version b ∧ rec_sha256 rec = bld_sha256_digest b
        ∧ rec_artifact_url rec = bld_artifact_url b ∧ rec_size rec = bld_size b
        ∧ rec_operation_id rec = tgt_operation_id t
        ∧ (∀ minimum, bld_minimum_launcher_version b = Some minimum →
             ∃ iid i v c, latest_instance (db w) dev iid i ∧ inst_launcher_version i = Some v
               ∧ _compare_semver v minimum = Some c ∧ 0 <= c)
    | _ => True
    end) w.
Proof.
  unfold recommendation_for_device.
  apply (wp_bind_pres (same (λ w, (db w, committed w)))); [frame| |by intros e w1 [= -> ->]].
  intros _ w1 [= Ed Ec]. rewrite <- Ed, <- Ec. clear Ed Ec.
  destruct (negb (str_in platform _PLATFORMS)) eqn:Hp; [by wp_step|].
  unfold str_in in Hp. propify.
  apply wp_bind. eapply wp_mono; [apply visible_update_spec|].
  intros [[[[t ro] b]|]|e] w2 [-> Hv]; wp_k; [|by wp_step|done].
  assert (wp (match bld_minimum_launcher_version b with
     | Some minimum =>
         latest_launcher_version (tgt_device_id t) ≫= λ reported,
           mret (launcher_suffices reported minimum)
     | None => mret true end) (λ r w', w' = w1 ∧ match r with
       | Ok true => ∀ minimum, bld_minimum_launcher_version b = Some minimum →
             ∃ iid i v c, latest_instance (db w1) dev iid i ∧ inst_launcher_version i = Some v
               ∧ _compare_semver v minimum = Some c ∧ 0 <= c
       | _ => True end) w1) as Hl.
  { destruct (bld_minimum_launcher_version b) as [minimum|]; [|by wp_step].
    apply wp_bind. eapply wp_mono; [apply latest_launcher_version_spec|].
    destruct Hv as (_ & -> & _). intros [[v|]|e] w2 [-> Hr]; wp_k; [|by wp_step|done].
    wp_step. split; [done|]. destruct (launcher_suffices _ _) eqn:Es; [|done].
    intros ? [= <-]. destruct Hr as (iid & i & Hi & Hiv). unfold launcher_suffices in Es. propify.
    destruct (_compare_semver v minimum) as [c|] eqn:Ev; [|done]. propify. eauto 10. }
  apply wp_bind. eapply wp_mono; [exact Hl|].
  intros [[]|e] w2 [-> Hs]; wp_k; [|by wp_step|done].
  unfold make_recommendation. repeat wp_step. split_and!; try done.
  exists t, ro, b. by split_and!.
Qed.

(** ** Builds *)

(** The row of a manifest, as [_build_values] makes it. *)
Definition row_of (m : UpdateBuildManifestV1) (notes : option string) : UpdateBuild := {|
  bld_build_identifier := manifest_build_identifier m;
  bld_version := manifest_version m;
  bld_minimum_launcher_version := manifest_minimum_launcher_version m;
  bld_platform := manifest_platform m;
  bld_channel := manifest_channel m;
  bld_artifact_identifier := manifest_artifact_name m;
  bld_artifact_url := manifest_artifact_url m;
  bld_artifact_name := manifest_artifact_name m;
  bld_archive_type := manifest_archive_type m;
  bld_sha256_digest := manifest_sha256 m;
  bld_size := manifest_size m;
  bld_release_notes := notes |}.

Lemma register_build_committed m actor req now root :
  keeps committed (register_build m actor req now root).
Proof. frame. Qed.

(** The state a registered build leaves: its row, and no other build with its
    identifier or its platform, channel and version. *)
Definition build_registered (d : DB) (m : UpdateBuildManifestV1) (id : uuid) : Prop :=
  update_builds d !! id = Some (row_of m (manifest_release_notes m))
  ∧ ∀ i b, update_builds d !! i = Some b → same_identity m i b = true → i = id.

Lemma same_identity_row m id : same_identity m id (row_of m (manifest_release_notes m)) = true.
Proof. unfold same_identity; simpl. by rewrite bool_decide_true. Qed.

(** Registering a build is idempotent and never overwrites: a request
    that succeeds leaves the manifest's row as the only build with that
    identifier or with that platform, channel and version, and every earlier
    build as it was; registering the same manifest again, by anyone and at any
    later time, returns the same build and commits no change. *)
Theorem builds_are_immutable m actor req now root w :
  wp (request (register_build m actor req now root)) (λ r w',
    match r with
    | Ok id =>
        build_registered (committed w') m id
        ∧ (fresh (seed w) (update_builds (committed w)) →
           update_builds (committed w) ⊆ update_builds (committed w'))
        ∧ (∀ id0, build_registered (committed w) m id0 → id = id0 ∧ committed w' = committed w)
    | Exn _ => committed w' = committed w
    end) w.
Proof.
  apply wp_request_ok; [apply register_build_committed|done|].
  change (w <| db := committed w |>) with (stored w).
  unfold register_build, _manifest. do 2 wp_step.
  apply (wp_bind_pres (same (λ w, (db w, seed w)))); [frame| |done]. intros actor' w1 [= E1 S1].
  apply (wp_bind_pres (same (λ w, (db w, seed w)))); [frame| |done]. intros req' w2 [= E2 S2].
  apply (wp_bind_pres (same (λ w, (db w, seed w)))); [frame| |done]. intros at_ w3 [= E3 S3].
  rewrite E2, E1 in E3. rewrite S2, S1 in S3. clear E1 E2 S1 S2. simpl in *.
  unfold _build_values. do 2 wp_step. apply prose_unchanged in Hsome as ->.
  change (Build_UpdateBuild _ _ _ _ _ _ _ _ _ _ _ _) with (row_of m (manifest_release_notes m)).
  wp_step. simpl in H2. rewrite E3 in H2. simpl in H2. destruct l as [|[id b] rest].
  - assert (∀ i b, update_builds (committed w) !! i = Some b → same_identity m i b = true → False)
      as Hnone by (intros i b Hi Hs; apply (elem_of_nil (i, b)), H2; by split).
    apply (wp_bind_pres (same (λ w, (db w, seed w)))); [frame| |done]. intros _ w4 [= E4 S4].
    rewrite E3 in E4. rewrite S3 in S4. do 2 wp_step.
    set (w5 := with_table _ _).
    assert (update_builds (db w5) = <[seed w := row_of m (manifest_release_notes m)]>
              (update_builds (committed w))) as E5 by (unfold w5; simpl; by rewrite E4, S4).
    clearbody w5. skip_quiet. intros ? w6 [[= _ _ _ E6 _ _ _] _].
    skip_quiet. intros ? w7 [[= _ _ _ E7 _ _ _] _]. wp_step. intros _. simpl.
    rewrite E7, E6, E5, S4. split_and!.
    + unfold build_registered. rewrite E7, E6, E5. split; [by rewrite lookup_insert_eq|].
      intros i b [[-> _]|[_ Hi]]%lookup_insert_Some Hs; [done|]. by destruct (Hnone i b).
    + intros Hfresh. by apply insert_subseteq, fresh_lookup.
    + intros id0 [Hin _]. by destruct (Hnone _ _ Hin (same_identity_row m (seed w))).
  - destruct (_ && _) eqn:Hsame; wp_step. intros _. simpl. rewrite E3. propify. subst.
    assert (∀ i b, (i, b) ∈ [(id, row_of m (manifest_release_notes m))] → i = id) as Hone
      by (intros i b [=]%list_elem_of_singleton; done).
    split_and!; [split| |].
    + by apply H2, list_elem_of_singleton.
    + intros i b Hi Hs. apply (Hone i b), H2. by split.
    + done.
    + intros id0 [Hin _]. split; [|done]. symmetry. eapply Hone, H2. split; [exact Hin|].
      apply same_identity_row.
Qed.
End specs.
