(* ===== verification/PresenceSpecs.v ===== *)
(** * Gateway presence: what the sessions guarantee

    Opening a session closes the others of its device, and a closed session
    stays closed, over every interleaving of the presence requests. *)

From S2P Require Import Prelude Store Session AuditLog Frames Presence.

Section presence.
Context (canonical_address : string → option string).

Definition sessions_view (w : World) := (device_sessions (db w), committed w).
Definition sessions_kept (w w' : World) : Prop := same sessions_view w w' ∧ seed_le w w'.

#[local] Instance sessions_kept_preorder : PreOrder sessions_kept.
Proof. split; [by split; reflexivity|]. intros w1 w2 w3 [? ?] [? ?]. split; by etrans. Qed.

Ltac keep := apply pres_and; frame.

(** A session after another one was opened for [device] at [now]. *)
Definition replaced (device : uuid) (now : datetime) (s : DeviceSession) : DeviceSession :=
  if open_session_row device 0 s then close_session_row now s else s.

Lemma replace_sessions_spec device now l w :
  NoDup l.*1 →
  wp (for_each l (replace_session device now)) (λ r w',
    committed w' = committed w ∧ seed w <= seed w' ∧
    match r with
    | Ok _ => updated (close_session_row now) l (device_sessions (db w)) (device_sessions (db w'))
    | Exn _ => True
    end) w.
Proof.
  revert w. induction l as [|[id s] l IH]; intros w Hnd; simpl.
  { wp_step. split; [done|]. split; [lia|]. apply updated_nil. }
  apply NoDup_cons in Hnd as [Hid Hnd]. apply wp_bind. wp_open. wp_step.
  eapply (wp_pres sessions_kept); [keep|].
  intros [[]|e] w1 [[= E1 F1] S1]; wp_k; [|done]. unfold seed_le in S1; simpl in *.
  eapply wp_mono; [by apply IH|]. intros [[]|e] w2 (F2 & S2 & E2);
    (split; [congruence|split; [lia|]]); [|done].
  apply updated_cons; [done|]. by rewrite E1 in E2.
Qed.

(** What a connection leaves behind. *)
Definition session_opened (d d' : DB) (device : uuid) (p : GatewayPresence) (now : datetime) : Prop :=
  (∃ s, device_sessions d' !! presence_session_id p = Some s
        ∧ sess_device_id s = device ∧ sess_closed_at s = None
        ∧ sess_device_instance_id s = Some (presence_device_instance_id p)
        ∧ sess_last_seen_at s = Some now ∧ sess_expires_at s = dt_add now _PRESENCE_LIFETIME)
  ∧ ∀ id, id ≠ presence_session_id p →
      device_sessions d' !! id = replaced device now <$> device_sessions d !! id.

Lemma utc_frame value w : wp (_utc value) (λ _ w', committed w' = committed w ∧ db w' = db w ∧ seed w' = seed w) w.
Proof. unfold _utc, now_or. destruct value; repeat wp_step. Qed.

Lemma open_session_spec device hello source observed w :
  wp (open_session canonical_address device hello source observed) (λ r w',
    match r with
    | Ok p => ∃ now,
        hello_device_id hello = device
        ∧ (∃ dev, devices (committed w) !! device = Some dev ∧ dev_retired_at dev = None)
        ∧ session_opened (committed w) (committed w') device p now
        ∧ seed w <= presence_session_id p < seed w'
    | Exn _ => committed w' = committed w ∧ seed w <= seed w'
    end) w.
Proof.
  unfold open_session, canonical_source. do 2 wp_step.
  apply wp_bind. eapply wp_mono; [apply utc_frame|].
  intros [now|e] w1 (E1 & _ & S1); wp_k; [|split; [done|lia]]. apply wp_in_session, wp_rollback_on_error.
  change (w1 <| db := committed w1 |>) with (stored w1). repeat wp_step; try (simpl; split; [congruence|lia]).
  apply (wp_bind_pres sessions_kept); [keep| |intros e w2 [[= _ F2] S2]; unfold seed_le in *; simpl in *; split; [congruence|lia]].
  intros instance w2 [[= E2 F2] S2]. wp_step.
  apply wp_bind. eapply wp_mono; [apply replace_sessions_spec; by rewrite order_by_Permutation|].
  intros [[]|e] w3 (F3 & S3 & E3); wp_k; unfold seed_le in *; simpl in *; [|split; [congruence|lia]]. do 4 wp_step.
  apply (wp_bind_pres sessions_kept); [keep| |intros e w4 [[= _ F4] S4]; unfold seed_le in *; simpl in *; split; [congruence|lia]].
  intros [] w4 [[= E4 F4] S4]. wp_step; [|unfold seed_le in *; simpl in *; split; [congruence|lia]]. wp_step. exists now. propify.
  set (sid := seed w3) in *.
  assert (selected (open_session_row device) (device_sessions (committed w)) (order_by session_order l))
    as Hl.
  { apply selected_order. intros j s. rewrite H4. cbn. by rewrite E2, <- E1. }
  assert (∀ id, id ≠ sid → device_sessions (db w4) !! id
    = replaced device now <$> device_sessions (committed w) !! id) as Hrest.
  { intros j Hj. simpl in E4. rewrite E4, lookup_insert_ne by done. rewrite E2 in E3. simpl in E3.
    rewrite E1 in E3. rewrite (updated_selected _ _ _ _ _ Hl E3). done. }
  split; [done|]. split.
  { exists r. unfold usable_device in *. propify. subst. cbn in *. rewrite <- E1. split; [done|].
    by destruct (dev_retired_at r). }
  split.
  - split; [|exact Hrest]. simpl in E4. simpl. rewrite E4, lookup_insert_eq. eexists. by split_and!.
  - unfold seed_le, sid in *. simpl in *. lia.
Qed.

(** Opening a session for an active device commits one new open session
    of the greeting instance, closes every other open session of that device
    at the time of the greeting, and leaves the sessions of other devices and
    the closed ones as they are; so the new session is the only open one of
    its device.  A refused greeting commits nothing. *)
Theorem a_new_session_replaces_the_others device hello source observed w :
  wp (open_session canonical_address device hello source observed) (λ r w',
    match r with
    | Ok p => ∃ now,
        hello_device_id hello = device
        ∧ (∃ dev, devices (committed w) !! device = Some dev ∧ dev_retired_at dev = None)
        ∧ session_opened (committed w) (committed w') device p now
        ∧ ∀ id s, device_sessions (committed w') !! id = Some s → sess_device_id s = device →
            sess_closed_at s = None → id = presence_session_id p
    | Exn _ => committed w' = committed w
    end) w.
Proof.
  eapply wp_mono; [apply open_session_spec|]. intros [p|e] w'; [|by intros [? _]].
  intros (now & Hh & Hd & Hopen & _). exists now. split_and!; [done..|].
  intros j s Hj Hdev Hc. destruct (decide (j = presence_session_id p)) as [->|Hne]; [done|exfalso].
  destruct Hopen as [_ Hrest]. rewrite Hrest in Hj by done. apply fmap_Some in Hj as (t & Ht & ->).
  unfold replaced, open_session_row in *.
  destruct (sess_device_id t =? device) eqn:Ed; simpl in *;
    [destruct (sess_closed_at t) eqn:Ec; simpl in *; congruence|].
  propify. congruence.
Qed.


(** ** Heartbeats and closing *)

(** A heartbeat moves only the open session it names, and keeps it alive. *)
Lemma record_heartbeat_spec device session_id beat observed w :
  wp (record_heartbeat device session_id beat observed) (λ r w',
    match r with
    | Ok _ => ∃ s now, device_sessions (committed w) !! session_id = Some s
        ∧ open_session_row device session_id s = true
        ∧ device_sessions (committed w') = <[session_id := seen now s]> (device_sessions (committed w))
        ∧ seed w <= seed w'
    | Exn _ => committed w' = committed w ∧ seed w <= seed w'
    end) w.
Proof.
  unfold record_heartbeat. wp_step.
  apply wp_bind. eapply wp_mono; [apply utc_frame|].
  intros [now|e] w1 (E1 & _ & S1); wp_k; [|split; [done|lia]]. apply wp_in_session, wp_rollback_on_error.
  change (w1 <| db := committed w1 |>) with (stored w1). simpl.
  repeat (wp_step; try (split; [done|simpl; lia])). propify. subst id. cbn in *. rewrite E1 in *.
  exists r, now. split; [done|]. split; [done|]. split; [by apply alter_stored|lia].
Qed.

Lemma close_session_spec device session_id reason observed w :
  wp (close_session device session_id reason observed) (λ r w',
    seed w <= seed w' ∧
    (committed w' = committed w
     ∨ ∃ s now, device_sessions (committed w) !! session_id = Some s
         ∧ sess_device_id s = device ∧ sess_closed_at s = None
         ∧ device_sessions (committed w')
           = <[session_id := close_session_row now s]> (device_sessions (committed w)))) w.
Proof.
  unfold close_session. apply wp_bind. eapply wp_mono; [apply utc_frame|].
  intros [now|e] w1 (E1 & _ & S1); wp_k; [|split; [lia|by left]].
  apply wp_in_session, wp_rollback_on_error.
  change (w1 <| db := committed w1 |>) with (stored w1). wp_step.
  - destruct (is_some (sess_closed_at r)) eqn:Ec.
    { wp_step. simpl. split; [lia|by left]. }
    wp_step. apply (wp_bind_pres sessions_kept); [keep| |].
    + intros [] w2 [[= E2 F2] S2]. unfold seed_le in S2; simpl in *.
      wp_step; simpl; (split; [lia|]); [right|left; congruence].
      propify. subst id. cbn in *. rewrite E1 in *. exists r, now.
      split_and!; [done..| |by rewrite E2; apply alter_stored].
      by destruct (sess_closed_at r).
    + intros e w2 [[= E2 F2] S2]. unfold seed_le in S2; simpl in *. split; [lia|]. left. congruence.
  - wp_step. simpl. split; [lia|by left].
Qed.

(** ** Sessions over any interleaving *)

(** The sessions of the gateway channel, by the identifier they were given;
    the others are those of agents that pull over HTTP. *)
Definition gateway_session (s : DeviceSession) : bool :=
  String.prefix "gateway-" (sess_session_identifier s).

(** A session keeps its identity, and a gateway session all of its row once
    it is closed. *)
Definition session_lasts (s s' : DeviceSession) : Prop :=
  sess_device_id s' = sess_device_id s ∧ sess_device_instance_id s' = sess_device_instance_id s
  ∧ sess_session_identifier s' = sess_session_identifier s
  ∧ sess_created_at s' = sess_created_at s
  ∧ (gateway_session s = true → sess_closed_at s ≠ None → s' = s).

(** The gateway sessions [s] and [t] of one device that are open are one. *)
Definition one_open (m : gmap uuid DeviceSession) : Prop :=
  ∀ i j s t, m !! i = Some s → m !! j = Some t → sess_device_id s = sess_device_id t →
    gateway_session s = true → gateway_session t = true →
    sess_closed_at s = None → sess_closed_at t = None → i = j.

Definition sessions_sound (w w' : World) : Prop :=
  fresh (seed w) (device_sessions (committed w)) → one_open (device_sessions (committed w)) →
  fresh (seed w') (device_sessions (committed w')) ∧ one_open (device_sessions (committed w'))
  ∧ rows_kept session_lasts (device_sessions (committed w)) (device_sessions (committed w')).

Lemma session_lasts_refl s : session_lasts s s. Proof. by split_and!. Qed.
#[local] Hint Resolve session_lasts_refl : core.

Lemma session_lasts_trans s1 s2 s3 : session_lasts s1 s2 → session_lasts s2 s3 → session_lasts s1 s3.
Proof.
  intros (A & B & C & D & E) (A' & B' & C' & D' & E'). split_and!; try congruence.
  intros Hg Hc. assert (s2 = s1) as -> by auto. auto.
Qed.

#[local] Instance sessions_sound_preorder : PreOrder sessions_sound.
Proof.
  split.
  - intros w Hf Ho. split_and!; [done..|]. by apply rows_kept_refl.
  - intros w1 w2 w3 H12 H23 Hf Ho. destruct (H12 Hf Ho) as (F2 & O2 & R2).
    destruct (H23 F2 O2) as (F3 & O3 & R3). split_and!; [done..|].
    eapply rows_kept_trans; [apply session_lasts_trans|exact R2|exact R3].
Qed.

Lemma sessions_sound_same w w' :
  device_sessions (committed w') = device_sessions (committed w) → seed w <= seed w' →
  sessions_sound w w'.
Proof.
  intros E Hs Hf Ho. rewrite E. split_and!; [by eapply fresh_le|done|by apply rows_kept_refl].
Qed.

(** A change of one open session that keeps it with its device. *)
Lemma sessions_sound_update w w' id s s' :
  device_sessions (committed w) !! id = Some s → sess_closed_at s = None ∨ gateway_session s = false →
  device_sessions (committed w') = <[id := s']> (device_sessions (committed w)) →
  sess_device_id s' = sess_device_id s → sess_device_instance_id s' = sess_device_instance_id s →
  sess_session_identifier s' = sess_session_identifier s → sess_created_at s' = sess_created_at s →
  seed w <= seed w' → sessions_sound w w'.
Proof.
  intros Hid Hc E Hd Hi Hn Hcr Hs Hf Ho. rewrite E. split_and!.
  - apply fresh_insert; [by eapply fresh_le|]. specialize (Hf _ _ Hid). lia.
  - assert (gateway_session s' = gateway_session s) as Hg by (unfold gateway_session; congruence).
    intros i j x y [[<- <-]|[_ Hx]]%lookup_insert_Some [[<- <-]|[_ Hy]]%lookup_insert_Some
      Hxy Hxg Hyg Hxc Hyc; [done|destruct Hc; [eapply Ho; eauto; congruence|congruence]..|eauto].
  - intros i x Hx. destruct (decide (id = i)) as [<-|Hne].
    + exists s'. rewrite lookup_insert_eq. split; [done|]. rewrite Hid in Hx. injection Hx as <-.
      split_and!; try done. destruct Hc; congruence.
    + exists x. by rewrite lookup_insert_ne.
Qed.

(** A new pull session. *)
Lemma sessions_sound_insert w w' id s :
  gateway_session s = false → seed w <= id < seed w' →
  device_sessions (committed w') = <[id := s]> (device_sessions (committed w)) →
  seed w <= seed w' → sessions_sound w w'.
Proof.
  intros Hg Hid E Hs Hf Ho. rewrite E. split_and!.
  - apply fresh_insert; [by eapply fresh_le|lia].
  - intros i j x y [[<- <-]|[_ Hx]]%lookup_insert_Some [[<- <-]|[_ Hy]]%lookup_insert_Some
      Hxy Hxg Hyg Hxc Hyc; [done|congruence..|eauto].
  - apply rows_kept_insert; [apply session_lasts_refl|].
    destruct (device_sessions (committed w) !! id) eqn:Ei; [|done]. specialize (Hf _ _ Ei). lia.
Qed.

Lemma session_opened_sound w w' device p now :
  session_opened (committed w) (committed w') device p now →
  seed w <= presence_session_id p < seed w' → sessions_sound w w'.
Proof.
  intros [(s & Hs & Hd & Hc & _) Hrest] Hp Hf Ho.
  assert (∀ i x, device_sessions (committed w) !! i = Some x → i ≠ presence_session_id p) as Hne
    by (intros i x Hx ->; specialize (Hf _ _ Hx); lia).
  assert (∀ i x, i ≠ presence_session_id p → device_sessions (committed w') !! i = Some x →
    ∃ y, device_sessions (committed w) !! i = Some y ∧ x = replaced device now y) as Hold.
  { intros i x Hi Hx. rewrite Hrest in Hx by done. apply fmap_Some in Hx as (y & Hy & ->). eauto. }
  assert (∀ y, sess_closed_at (replaced device now y) = None →
    replaced device now y = y ∧ sess_device_id y ≠ device) as Hopen.
  { intros y. unfold replaced, open_session_row.
    destruct (sess_device_id y =? device) eqn:Ed; simpl; [|intros _; split; [done|by propify]].
    destruct (sess_closed_at y) eqn:Ec; simpl; congruence. }
  split_and!.
  - intros i x Hx. destruct (decide (i = presence_session_id p)) as [->|Hi]; [lia|].
    destruct (Hold i x Hi Hx) as (y & Hy & _). specialize (Hf _ _ Hy). lia.
  - intros i j x y Hx Hy Hxy Hxg Hyg Hxc Hyc.
    destruct (decide (i = presence_session_id p)) as [->|Hi],
      (decide (j = presence_session_id p)) as [->|Hj]; [done|exfalso..|].
    + destruct (Hold j y Hj Hy) as (z & Hz & ->). destruct (Hopen z Hyc) as [E Hnd].
      rewrite E in *. congruence.
    + destruct (Hold i x Hi Hx) as (z & Hz & ->). destruct (Hopen z Hxc) as [E Hnd].
      rewrite E in *. congruence.
    + destruct (Hold i x Hi Hx) as (z & Hz & ->), (Hold j y Hj Hy) as (z' & Hz' & ->).
      destruct (Hopen z Hxc) as [E _], (Hopen z' Hyc) as [E' _]. rewrite E, E' in *.
      by eapply Ho.
  - intros i x Hx. exists (replaced device now x).
    rewrite Hrest, Hx by by eapply Hne. split; [done|].
    unfold replaced, open_session_row. destruct (sess_device_id x =? device); simpl; [|done].
    destruct (sess_closed_at x) eqn:Ec; simpl; [done|]. by split_and!.
Qed.

(** An HTTP pull adds or refreshes the pull session of its device. *)
Lemma record_http_pull_presence_spec device source observed w :
  wp (record_http_pull_presence canonical_address device source observed) (λ _ w',
    committed w' = committed w ∧ seed w <= seed w' ∧
    (device_sessions (db w') = device_sessions (db w)
     ∨ (∃ s, gateway_session s = false
          ∧ device_sessions (db w') = <[seed w := s]> (device_sessions (db w)) ∧ seed w < seed w')
     ∨ ∃ id s s', device_sessions (db w) !! id = Some s ∧ gateway_session s = false
          ∧ device_sessions (db w') = <[id := s']> (device_sessions (db w))
          ∧ sess_device_id s' = sess_device_id s
          ∧ sess_device_instance_id s' = sess_device_instance_id s
          ∧ sess_session_identifier s' = sess_session_identifier s
          ∧ sess_created_at s' = sess_created_at s)) w.
Proof.
  unfold record_http_pull_presence, canonical_source. wp_step; [|split_and!; auto; lia].
  apply wp_bind. eapply wp_mono; [apply utc_frame|].
  intros [now|e] w1 (E1 & D1 & S1); wp_k; [|split_and!; [done|lia|left; congruence]].
  repeat (wp_step; try (simpl; split_and!; [done|lia|left; congruence])).
  - propify. subst. split_and!; [done|simpl; lia|]. right; right. do 3 eexists.
    split; [rewrite <- D1; eassumption|].
    split; [unfold gateway_session; by match goal with H : sess_session_identifier _ = _ |- _ => rewrite H end|].
    split; [simpl; rewrite D1; apply alter_stored; rewrite <- D1; eassumption|]. by split_and!.
  - split_and!; [done|simpl; lia|]. right; left. eexists. split; [|split; [|simpl; lia]];
      [|simpl; rewrite D1, <- S1; reflexivity]. done.
Qed.

(** One presence request of the gateway channel, a pull request (with the work
    it does for the device before it commits), or other work of the server
    that leaves the sessions alone. *)
Inductive presence_step (w : World) : World → Prop :=
| step_open device hello source observed :
    presence_step w (open_session canonical_address device hello source observed w).2
| step_heartbeat device session_id beat observed :
    presence_step w (record_heartbeat device session_id beat observed w).2
| step_close device session_id reason observed :
    presence_step w (close_session device session_id reason observed w).2
| step_pull device source observed (work : Tx unit) :
    pres sessions_kept work →
    presence_step w (in_session (record_http_pull_presence canonical_address device source observed ;;
                                 work ;; commit) w).2
| step_presence_elsewhere w' :
    device_sessions (committed w') = device_sessions (committed w) → seed w <= seed w' →
    presence_step w w'.

Lemma pull_spec device source observed (work : Tx unit) w :
  pres sessions_kept work →
  wp (in_session (record_http_pull_presence canonical_address device source observed ;; work ;; commit))
    (λ _, sessions_sound w) w.
Proof.
  intros Hwork. apply wp_in_session. change (w <| db := committed w |>) with (stored w).
  apply wp_bind. eapply wp_mono; [apply record_http_pull_presence_spec|].
  intros [[]|e] w1 (F1 & S1 & E1); wp_k; simpl in *; [|apply sessions_sound_same; simpl; congruence].
  apply (wp_bind_pres sessions_kept); [done| |intros e w2 [[= _ F2] S2]; unfold seed_le in *;
    apply sessions_sound_same; simpl; [congruence|lia]].
  intros [] w2 [[= E2 F2] S2]. unfold seed_le in *.
  wp_step; [|apply sessions_sound_same; simpl; [congruence|lia]].
  destruct E1 as [E1|[(s & Hg & E1 & Hs)|(id & s & s' & Hid & Hg & E1 & ? & ? & ? & ?)]].
  - apply sessions_sound_same; simpl; [congruence|lia].
  - apply (sessions_sound_insert _ _ (seed w) s); simpl; [done|lia|congruence|lia].
  - apply (sessions_sound_update _ _ id s s'); simpl; auto; [congruence|lia].
Qed.

Lemma presence_step_sound w w' : presence_step w w' → sessions_sound w w'.
Proof.
  intros [d h s o|d s b o|d s r o|d s o work Hk|w'' E Hs].
  - pose proof (open_session_spec d h s o w) as Hp. rewrite wp_unfold in Hp.
    destruct (open_session _ _ _ _ _ w) as [[p|e] w'']; simpl in *;
      [|by destruct Hp; apply sessions_sound_same; congruence].
    destruct Hp as (now & _ & _ & Hop & Hid). by eapply session_opened_sound.
  - pose proof (record_heartbeat_spec d s b o w) as Hp. rewrite wp_unfold in Hp.
    destruct (record_heartbeat _ _ _ _ w) as [[[]|e] w'']; simpl in *;
      [|by destruct Hp; apply sessions_sound_same; congruence].
    destruct Hp as (x & now & Hx & Hopen & E & Hs). unfold open_session_row in Hopen. propify.
    eapply (sessions_sound_update _ _ s x); try done. left; destruct (sess_closed_at x); done.
  - pose proof (close_session_spec d s r o w) as Hp. rewrite wp_unfold in Hp.
    destruct Hp as [Hs [E|(x & now & Hx & Hd & Hc & E)]].
    + apply sessions_sound_same; [congruence|done].
    + apply (sessions_sound_update _ _ s x (close_session_row now x)); auto.
  - pose proof (pull_spec d s o work w Hk) as Hp. by rewrite wp_unfold in Hp.
  - by apply sessions_sound_same.
Qed.

(** C13: however greetings, heartbeats, disconnections and HTTP pull requests
    interleave, accepted or refused, no device ever has two open gateway
    sessions, no session changes its device, instance, identifier or creation
    time, and a gateway session that was closed is never changed again: a late
    heartbeat cannot revive it. *)
Theorem closed_sessions_stay_closed w w' :
  fresh (seed w) (device_sessions (committed w)) → one_open (device_sessions (committed w)) →
  rtc presence_step w w' →
  one_open (device_sessions (committed w'))
  ∧ rows_kept session_lasts (device_sessions (committed w)) (device_sessions (committed w')).
Proof.
  intros Hf Ho Hs. assert (sessions_sound w w') as Hw;
    [|by destruct (Hw Hf Ho) as (_ & ? & ?)].
  clear Hf Ho. induction Hs as [|w1 w2 w3 H12 _ IH]; [reflexivity|].
  etrans; [by apply presence_step_sound|done].
Qed.
End presence.

(** ** A run: a reconnecting agent *)

Section demo.
Definition any_address (text : string) : option string := Some text.

Definition presence_world : World := {|
  committed := empty_db <| devices := {[ 1 := {| dev_device_identifier := "pc-1";
                                                  dev_display_name := None;
                                                  dev_retired_at := None |} ]} |>;
  db := empty_db; seed := 100; clock := λ n, Z.of_nat n; ticks := 0 |}.

Definition greeting : AgentHelloV1 :=
  {| hello_device_id := 1; hello_agent_instance_id := 7; hello_agent_version := "1.0.0";
     hello_launcher_version := "1.0.0" |}.

Definition connect (w : World) : World := (open_session any_address 1 greeting "10.0.0.1" None w).2.

(** The id of the first session, and a heartbeat that comes after it was
    replaced. *)
Definition first_session : uuid := 101.
Definition late_heartbeat (w : World) : World :=
  (record_heartbeat 1 first_session {| heartbeat_device_id := 1; heartbeat_agent_version := "1.0.0" |}
     None w).2.

Lemma closed_sessions_stay_closed_witness :
  size (device_sessions (committed (connect (connect presence_world)))) = 2%nat
  ∧ (is_some ∘ sess_closed_at
     <$> device_sessions (committed (connect (connect presence_world))) !! first_session) = Some true
  ∧ one_open (device_sessions (committed (late_heartbeat (connect (connect presence_world))))).
Proof.
  split; [vm_compute; reflexivity|]. split; [vm_compute; reflexivity|].
  apply (closed_sessions_stay_closed any_address presence_world).
  - intros id v Hid. discriminate Hid.
  - intros i j s t Hi. discriminate Hi.
  - eapply rtc_l; [apply (step_open _ _ 1 greeting "10.0.0.1" None)|].
    eapply rtc_l; [apply (step_open _ _ 1 greeting "10.0.0.1" None)|].
    eapply rtc_l; [apply (step_heartbeat _ _ 1 first_session
      {| heartbeat_device_id := 1; heartbeat_agent_version := "1.0.0" |} None)|]. apply rtc_refl.
Defined.
End demo.
