(* ===== verification/Registry.v ===== *)
(** * Active connections (endpoint_server/gateway/connection_registry.py)

    The process-local registry of Gateway connections: a dictionary in
    insertion order with at most one connection per device and a capacity.
    Sockets are identified by their session; what the registry does to one (the
    shutdown notice and the close) is recorded in [closed], in order.  Every
    method holds the lock while it reads or writes the dictionary. *)

From S2P Require Import Prelude.

Record GatewayConnection := {
  conn_device_id : uuid;
  conn_session_id : uuid;
  conn_agent_version : string;
  conn_platform : string;
  conn_effective_capabilities : list string;
  conn_protocol_features : list string
}.

Definition _SESSION_REPLACED_CLOSE_CODE : Z := 4001.

(** A shutdown notice's reason and the close code that follows it. *)
Record Shutdown := { down_session : uuid; down_reason : string; down_code : Z }.

Record ConnectionRegistry := {
  max_connections : Z;
  connections : list (uuid * GatewayConnection);  (* insertion order *)
  closed : list Shutdown
}.

#[export] Instance ConnectionRegistry_eta : Eta ConnectionRegistry := λ r,
  Build_ConnectionRegistry (max_connections r) (connections r) (closed r).

Abbreviation Reg := (M ConnectionRegistry).

(** [ConnectionRegistry(max_connections=n)] *)
Definition new_registry (n : Z) : res ConnectionRegistry :=
  if n <=? 0 then Exn (ValueError "max_connections must be positive")
  else Ok {| max_connections := n; connections := []; closed := [] |}.

(** [dict.get], [dict[key] = value], [del dict[key]] in insertion order *)
Fixpoint dict_get (key : uuid) (d : list (uuid * GatewayConnection)) : option GatewayConnection :=
  match d with
  | [] => None
  | (k, v) :: rest => if k =? key then Some v else dict_get key rest
  end.

Fixpoint dict_set (key : uuid) (value : GatewayConnection)
    (d : list (uuid * GatewayConnection)) : list (uuid * GatewayConnection) :=
  match d with
  | [] => [(key, value)]
  | (k, v) :: rest =>
      if k =? key then (k, value) :: rest else (k, v) :: dict_set key value rest
  end.

Fixpoint dict_del (key : uuid) (d : list (uuid * GatewayConnection))
    : list (uuid * GatewayConnection) :=
  match d with
  | [] => []
  | (k, v) :: rest => if k =? key then rest else (k, v) :: dict_del key rest
  end.

Definition connection_count (r : ConnectionRegistry) : Z := Z.of_nat (length (connections r)).

(** [_shutdown]: failures to send or close are swallowed. *)
Definition _shutdown (connection : GatewayConnection) (reason : string) (close_code : Z)
    : Reg unit := λ r,
  (Ok tt, r <| closed := closed r ++ [{| down_session := conn_session_id connection;
                                         down_reason := reason; down_code := close_code |}] |>).

Definition _replace (connection : GatewayConnection) : Reg unit :=
  _shutdown connection "session_replaced" _SESSION_REPLACED_CLOSE_CODE.

Definition read {A} (f : ConnectionRegistry → A) : Reg A := λ r, (Ok (f r), r).
Definition write (f : list (uuid * GatewayConnection) → list (uuid * GatewayConnection))
    : Reg unit := λ r, (Ok tt, r <| connections := f (connections r) |>).

Definition register (connection : GatewayConnection) : Reg (option GatewayConnection) :=
  previous ← read (λ r, dict_get (conn_device_id connection) (connections r));
  full ← read (λ r, max_connections r <=? connection_count r);
  raise_if (is_none previous && full)
    (RegistryCapacityExceeded "gateway connection capacity reached") ;;
  write (dict_set (conn_device_id connection) connection) ;;
  match previous with
  | Some old =>
      if negb (conn_session_id old =? conn_session_id connection)
      then _replace old ;; mret (Some old)
      else mret None
  | None => mret None
  end.

Definition unregister (device_id session_id : uuid) : Reg unit :=
  current ← read (λ r, dict_get device_id (connections r));
  match current with
  | Some c => when (conn_session_id c =? session_id) (write (dict_del device_id))
  | None => mret tt
  end.

Definition get_connection (device_id : uuid) : Reg (option GatewayConnection) :=
  read (λ r, dict_get device_id (connections r)).

Definition connected : Reg (list GatewayConnection) := read (λ r, map snd (connections r)).

Definition shutdown_all : Reg unit :=
  all ← read (λ r, map snd (connections r));
  write (λ _, []) ;;
  for_each all (λ c, _shutdown c "server_shutdown" 1001).
