(* ===== verification/RegistrySpecs.v ===== *)
(** * Active connections: the registry is a bounded map

    Every registry reached from an empty one is a well-formed dictionary within
    its capacity, and the methods implement a finite map from devices to
    connections. *)

From S2P Require Import Prelude Registry.

(** ** The dictionary in insertion order *)

Definition as_map (d : list (uuid * GatewayConnection)) : gmap uuid GatewayConnection :=
  list_to_map d.

Lemma dict_get_lookup k d : dict_get k d = as_map d !! k.
Proof.
  induction d as [|[j c] d IH]; simpl; [done|]. destruct (Z.eqb_spec j k) as [->|Hne].
  - by rewrite lookup_insert_eq.
  - by rewrite lookup_insert_ne.
Qed.

Lemma dict_set_keys k c d :
  (dict_set k c d).*1 = if bool_decide (k ∈ d.*1) then d.*1 else d.*1 ++ [k].
Proof.
  induction d as [|[j c'] d IH]; [done|]. simpl dict_set. destruct (Z.eqb_spec j k) as [->|Hne].
  - by rewrite bool_decide_true by left.
  - rewrite !fmap_cons, IH. rewrite (bool_decide_ext (k ∈ (j, c').1 :: d.*1) (k ∈ d.*1)).
    + by case_bool_decide.
    + rewrite elem_of_cons. split; [|by right]. by intros [->|?].
Qed.

Lemma dict_set_map k c d : as_map (dict_set k c d) = <[k := c]> (as_map d).
Proof.
  induction d as [|[j c'] d IH]; simpl; [done|]. destruct (Z.eqb_spec j k) as [->|Hne]; simpl.
  - by rewrite insert_insert_eq.
  - rewrite IH. by apply insert_insert_ne.
Qed.

Lemma dict_del_sublist k d : dict_del k d `sublist_of` d.
Proof.
  induction d as [|[j c] d IH]; simpl; [done|]. destruct (j =? k); [|by apply sublist_skip].
  by apply sublist_cons.
Qed.

Lemma dict_del_map k d : NoDup d.*1 → as_map (dict_del k d) = delete k (as_map d).
Proof.
  induction d as [|[j c] d IH]; simpl; intros Hnd.
  { by rewrite delete_empty. }
  apply NoDup_cons in Hnd as [Hj Hnd]. destruct (Z.eqb_spec j k) as [->|Hne]; simpl.
  - rewrite delete_insert_id; [done|]. by apply not_elem_of_list_to_map_1.
  - rewrite IH by done. by rewrite delete_insert_ne.
Qed.

Lemma dict_set_elem k c d p : p ∈ dict_set k c d → p = (k, c) ∨ p ∈ d.
Proof.
  induction d as [|[j c'] d IH]; simpl; [by intros ->%list_elem_of_singleton; left|].
  destruct (Z.eqb_spec j k) as [->|Hne]; rewrite !elem_of_cons; naive_solver.
Qed.

Lemma length_dict (d : list (uuid * GatewayConnection)) : NoDup d.*1 → length d = size (as_map d).
Proof.
  intros Hnd. unfold as_map. rewrite map_size_list_to_map by done. done.
Qed.

(** ** Well-formed registries *)

Definition well_formed (r : ConnectionRegistry) : Prop :=
  NoDup (connections r).*1
  ∧ (∀ device c, (device, c) ∈ connections r → conn_device_id c = device)
  ∧ 0 < max_connections r ∧ connection_count r <= max_connections r.

Inductive registry_step (r : ConnectionRegistry) : ConnectionRegistry → Prop :=
| step_register connection : registry_step r (register connection r).2
| step_unregister device_id session_id : registry_step r (unregister device_id session_id r).2
| step_shutdown_all : registry_step r (shutdown_all r).2.

Lemma well_formed_set c r :
  well_formed r →
  is_some (dict_get (conn_device_id c) (connections r)) = true ∨ connection_count r < max_connections r →
  well_formed (r <| connections := dict_set (conn_device_id c) c (connections r) |>).
Proof.
  intros (Hnd & Hkey & Hpos & Hlen) Hroom.
  assert (NoDup (dict_set (conn_device_id c) c (connections r)).*1) as Hnd'.
  { rewrite dict_set_keys. case_bool_decide; [done|]. apply NoDup_app. split_and!; [done| |apply NoDup_singleton].
    by intros k Hk ->%list_elem_of_singleton. }
  split_and!; [done| |done|].
  - intros device c' [[= -> ->]|Hin]%dict_set_elem; [done|by apply Hkey].
  - unfold connection_count in *. simpl. rewrite !length_dict in * by done. rewrite dict_set_map.
    destruct Hroom as [Hin|Hlt].
    + rewrite dict_get_lookup in Hin. rewrite map_size_insert.
      destruct (as_map _ !! _); [done|discriminate].
    + rewrite map_size_insert. destruct (as_map _ !! _); simpl; lia.
Qed.

Lemma well_formed_sublist f r :
  f (connections r) `sublist_of` connections r → well_formed r →
  well_formed (r <| connections := f (connections r) |>).
Proof.
  intros Hf (Hnd & Hkey & Hpos & Hlen). split_and!; [| |done|].
  - simpl. eapply sublist_NoDup; [exact Hnd|]. by apply fmap_sublist.
  - intros device c Hin. apply Hkey. simpl in Hin. by eapply elem_of_sublist.
  - unfold connection_count in *. simpl. apply sublist_length in Hf. lia.
Qed.

(** Only the record of the shutdowns is written by [_shutdown]. *)
Definition notice (reason : string) (code : Z) (c : GatewayConnection) : Shutdown :=
  {| down_session := conn_session_id c; down_reason := reason; down_code := code |}.

Lemma shutdown_each reason code l r :
  for_each l (λ c, _shutdown c reason code) r
  = (Ok tt, r <| closed := closed r ++ map (notice reason code) l |>).
Proof.
  revert r. induction l as [|c l IH]; intros r; simpl.
  - rewrite app_nil_r. by destruct r.
  - unfold mbind, M_bind, _shutdown. simpl. rewrite IH. simpl. by rewrite <- app_assoc.
Qed.

(** ** The abstract registry: a bounded finite map *)

Record BoundedMap := {
  capacity : Z;
  members : gmap uuid GatewayConnection;
  notices : list Shutdown
}.

Definition abstraction (r : ConnectionRegistry) : BoundedMap := {|
  capacity := max_connections r;
  members := as_map (connections r);
  notices := closed r |}.

(** Add a connection; a connection of another session that it displaces is
    told so and returned. *)
Definition put (c : GatewayConnection) (b : BoundedMap)
    : res (option GatewayConnection) * BoundedMap :=
  let device := conn_device_id c in
  let joined told := {| capacity := capacity b; members := <[device := c]> (members b);
                        notices := notices b ++ told |} in
  match members b !! device with
  | None =>
      if capacity b <=? Z.of_nat (size (members b))
      then (Exn (RegistryCapacityExceeded "gateway connection capacity reached"), b)
      else (Ok None, joined [])
  | Some old =>
      if conn_session_id old =? conn_session_id c then (Ok None, joined [])
      else (Ok (Some old), joined [notice "session_replaced" 4001 old])
  end.

(** Drop the connection of a device, when it is still the given session. *)
Definition drop (device session : uuid) (b : BoundedMap) : BoundedMap :=
  match members b !! device with
  | Some c => if conn_session_id c =? session
              then {| capacity := capacity b; members := delete device (members b);
                      notices := notices b |}
              else b
  | None => b
  end.

Lemma register_put c r :
  well_formed r →
  (register c r).1 = (put c (abstraction r)).1
  ∧ abstraction (register c r).2 = (put c (abstraction r)).2.
Proof.
  intros (Hnd & _). unfold register, put, read, write, raise_if, _replace, _shutdown, mbind, M_bind,
    mret, M_ret, connection_count. simpl.
  rewrite <- dict_get_lookup, <- length_dict by done.
  destruct (dict_get _ _) as [old|] eqn:Eg; simpl.
  - destruct (conn_session_id old =? conn_session_id c); simpl;
      (split; [done|]); unfold abstraction; simpl; rewrite dict_set_map, ?app_nil_r; done.
  - destruct (_ <=? _); simpl; [done|]. split; [done|]. unfold abstraction; simpl.
    by rewrite dict_set_map, app_nil_r.
Qed.

Lemma unregister_drop device session r :
  well_formed r →
  (unregister device session r).1 = Ok tt
  ∧ abstraction (unregister device session r).2 = drop device session (abstraction r).
Proof.
  intros (Hnd & _). unfold unregister, drop, read, write, when, mbind, M_bind, mret, M_ret. simpl.
  rewrite <- dict_get_lookup. destruct (dict_get _ _) as [c|]; simpl; [|done].
  destruct (_ =? _); simpl; [|done]. split; [done|]. unfold abstraction. simpl.
  by rewrite dict_del_map.
Qed.

Lemma shutdown_all_run r :
  shutdown_all r
  = (Ok tt, r <| connections := [] |>
              <| closed := closed r ++ map (notice "server_shutdown" 1001) (connections r).*2 |>).
Proof. unfold shutdown_all, read, write, mbind, M_bind. simpl. by rewrite shutdown_each. Qed.

Lemma registry_step_well_formed r r' : registry_step r r' → well_formed r → well_formed r'.
Proof.
  intros [c|device session|] Hr.
  - unfold register, read, write, raise_if, _replace, _shutdown, mbind, M_bind, mret, M_ret. simpl.
    destruct (is_none _ && _) eqn:Eg; simpl; [done|].
    assert (well_formed (r <| connections := dict_set (conn_device_id c) c (connections r) |>)) as Hw.
    { apply well_formed_set; [done|]. destruct (dict_get _ _); simpl in *; [by left|right].
      by propify. }
    destruct (dict_get _ _) as [old|]; simpl; [destruct (negb _); simpl|]; exact Hw.
  - unfold unregister, read, write, when, mbind, M_bind, mret, M_ret. simpl.
    destruct (dict_get _ _) as [c|]; simpl; [|done]. destruct (_ =? _); simpl; [|done].
    apply well_formed_sublist; [apply dict_del_sublist|done].
  - rewrite shutdown_all_run. destruct Hr as (_ & _ & Hpos & _).
    split_and!; simpl; [constructor|by intros ? ? ?%not_elem_of_nil|done|].
    unfold connection_count. simpl. lia.
Qed.

Lemma registry_step_capacity r r' : registry_step r r' → max_connections r' = max_connections r.
Proof.
  intros [c|device session|]; [| |by rewrite shutdown_all_run].
  - unfold register, read, write, raise_if, _replace, _shutdown, mbind, M_bind, mret, M_ret. simpl.
    destruct (is_none _ && _); simpl; [done|]. destruct (dict_get _ _); simpl; [destruct (negb _)|]; done.
  - unfold unregister, read, write, when, mbind, M_bind, mret, M_ret. simpl.
    destruct (dict_get _ _); simpl; [destruct (_ =? _)|]; done.
Qed.

(** In every registry reached from a new one by any sequence of
    registrations (accepted, replacing or refused), removals and shutdowns, no
    device has two connections, a connection is filed under its own device, and
    the number of connections stays within the capacity given at the start. *)
Theorem reachable_registries_are_bounded n r0 r :
  new_registry n = Ok r0 → rtc registry_step r0 r →
  well_formed r ∧ max_connections r = n.
Proof.
  unfold new_registry. destruct (Z.leb_spec n 0); [done|]. intros [= <-] Hs.
  cut (∀ r1, well_formed r1 → max_connections r1 = n → rtc registry_step r1 r →
         well_formed r ∧ max_connections r = n).
  { intros Hcut. apply (Hcut _) in Hs; [done| |done].
    split_and!; simpl; [constructor|by intros ? ? ?%not_elem_of_nil|lia|].
    unfold connection_count. simpl. lia. }
  intros r1 Hr1 Hm1 Hs1. clear Hs. induction Hs1 as [|r1 r2 r3 H12 _ IH]; [done|].
  apply IH; [by eapply registry_step_well_formed|]. by rewrite (registry_step_capacity _ _ H12).
Qed.

(** C14: over well-formed registries the methods implement a bounded finite map:
    [register] answers and changes the map exactly as [put] does, so a full
    registry refuses only new devices and a displaced session of the same device
    is told and closed with 4001 once; [unregister] removes a connection only
    for the session that owns it; [get] looks up; and a shutdown empties the map
    and closes every member once. *)
Theorem registry_implements_a_bounded_map r :
  well_formed r →
  (∀ c, (register c r).1 = (put c (abstraction r)).1
        ∧ abstraction (register c r).2 = (put c (abstraction r)).2)
  ∧ (∀ device session, (unregister device session r).1 = Ok tt
        ∧ abstraction (unregister device session r).2 = drop device session (abstraction r))
  ∧ (∀ device, get_connection device r = (Ok (members (abstraction r) !! device), r))
  ∧ (∃ told, abstraction (shutdown_all r).2
             = {| capacity := max_connections r; members := ∅; notices := closed r ++ told |}
           ∧ told ≡ₚ (notice "server_shutdown" 1001 ∘ snd) <$> map_to_list (members (abstraction r))).
Proof.
  intros Hr. split_and!.
  - intros c. by apply register_put.
  - intros device session. by apply unregister_drop.
  - intros device. unfold get_connection, read. by rewrite dict_get_lookup.
  - rewrite shutdown_all_run. eexists. split; [reflexivity|].
    destruct Hr as (Hnd & _). simpl. unfold as_map.
    rewrite map_to_list_to_map by done. rewrite <- list_fmap_compose. done.
Qed.

(** ** A registry of one place *)

Definition demo_connection (device session : uuid) : GatewayConnection := {|
  conn_device_id := device; conn_session_id := session; conn_agent_version := "1.0.0";
  conn_platform := "windows"; conn_effective_capabilities := []; conn_protocol_features := [] |}.

Definition one_place : ConnectionRegistry :=
  {| max_connections := 1; connections := []; closed := [] |}.

(** A device connects, reconnects, and another finds the registry full. *)
Definition busy : ConnectionRegistry :=
  (register (demo_connection 2 20)
    (register (demo_connection 1 11) (register (demo_connection 1 10) one_place).2).2).2.

Lemma one_place_busy : rtc registry_step one_place busy.
Proof.
  eapply rtc_l; [apply (step_register _ (demo_connection 1 10))|].
  eapply rtc_l; [apply (step_register _ (demo_connection 1 11))|].
  eapply rtc_l; [apply (step_register _ (demo_connection 2 20))|]. apply rtc_refl.
Qed.

Lemma reachable_registries_are_bounded_witness :
  map fst (connections busy) = [1] ∧ well_formed busy ∧ max_connections busy = 1.
Proof.
  split; [vm_compute; reflexivity|].
  apply (reachable_registries_are_bounded 1 one_place busy); [reflexivity|exact one_place_busy].
Defined.

Lemma busy_well_formed : well_formed busy.
Proof.
  split_and!; simpl.
  - apply NoDup_singleton.
  - by intros device c [= -> ->]%list_elem_of_singleton.
  - lia.
  - done.
Qed.

Lemma registry_implements_a_bounded_map_witness :
  (register (demo_connection 1 12) busy).1 = Ok (Some (demo_connection 1 11))
  ∧ (register (demo_connection 1 12) busy).1 = (put (demo_connection 1 12) (abstraction busy)).1.
Proof.
  split; [vm_compute; reflexivity|].
  apply (registry_implements_a_bounded_map busy busy_well_formed).
Defined.
