(* ===== verification/Scheduler.v ===== *)
(** * Periodic context requests (endpoint_server/context/scheduler.py)

    The server-owned schedule: overdue scheduled collections expire, and each
    active device gets at most one active collection per periodic profile. *)

From S2P Require Import Prelude Store Session AuditLog Context.

Record ContextScheduleRule := { rule_profile : string; rule_interval : timedelta }.

Definition SCHEDULE_RULES : list ContextScheduleRule :=
  [{| rule_profile := "baseline_v1"; rule_interval := hours 24 |};
   {| rule_profile := "health_v1"; rule_interval := minutes 5 |};
   {| rule_profile := "network_v1"; rule_interval := minutes 15 |};
   {| rule_profile := "inventory_v1"; rule_interval := hours 24 |};
   {| rule_profile := "session_v1"; rule_interval := minutes 5 |}].

Definition _ACTIVE_STATUSES : list collection_status :=
  [c_requested; c_queued; c_delivered; c_collecting; c_result_received; c_validated].

Definition _now (value : option datetime) : Tx datetime :=
  timestamp ← now_or value;
  raise_if (negb (is_aware timestamp)) (ValueError "now must be timezone-aware") ;;
  mret (as_utc timestamp).

(** Active scheduled collections past their expiry. *)
Definition overdue_scheduled (now : datetime) (_ : uuid) (c : ContextCollection) : bool :=
  bool_decide (col_requested_by c = "scheduler") && in_set (col_status c) _ACTIVE_STATUSES
  && match col_expires_at c with Some e => dt_leb e now | None => false end.

Definition _expire_overdue_scheduled_collections (now : datetime) : Tx unit :=
  overdue ← select (overdue_scheduled now);
  for_each overdue (λ collection,
    update collection.1 (expire_collection "schedule_expired" now)).

(** The collections of a device and profile, and the active ones. *)
Definition of_profile (device_id : uuid) (profile : string) (_ : uuid)
    (c : ContextCollection) : bool :=
  (col_device_id c =? device_id) && bool_decide (col_profile c = profile).

Definition active_of_profile (device_id : uuid) (profile : string) (id : uuid)
    (c : ContextCollection) : bool :=
  of_profile device_id profile id c && in_set (col_status c) _ACTIVE_STATUSES.

(** [ORDER BY requested_at DESC, id DESC] *)
Definition latest_request_order (a b : uuid * ContextCollection) : bool :=
  lex_leb (instant (col_requested_at b.2), b.1) (instant (col_requested_at a.2), a.1).

(** [int(scheduled_at.timestamp() // rule.interval.total_seconds())] *)
Definition bucket (scheduled_at : datetime) (interval : timedelta) : Z :=
  instant scheduled_at / interval.

Definition schedule_key (profile : string) (bucket : Z) : string :=
  "scheduler:" +:+ profile +:+ ":" +:+ Z_str bucket.

(** The body of the inner loop: 1 when a collection was created. *)
Definition schedule_rule (scheduled_at : datetime) (device_id : uuid)
    (rule : ContextScheduleRule) : Tx Z :=
  active ← scalar (active_of_profile device_id (rule_profile rule));
  if is_some active then mret 0
  else
    history ← select (of_profile device_id (rule_profile rule));
    if match head (order_by latest_request_order history) with
       | Some (_, latest) =>
           instant scheduled_at - instant (as_utc (col_requested_at latest)) <? rule_interval rule
       | None => false
       end
    then mret 0
    else
      '(collection_id, inserted) ←
        request_collection_outcome device_id (rule_profile rule) "scheduler"
          (schedule_key (rule_profile rule) (bucket scheduled_at (rule_interval rule)))
          (Some scheduled_at);
      if inserted : bool then
        update collection_id (λ c : ContextCollection,
          c <| col_expires_at := Some (dt_add scheduled_at (rule_interval rule)) |>) ;;
        mret 1
      else mret 0.

(** The nested loops, with the count so far. *)
Fixpoint schedule_all (scheduled_at : datetime) (work : list (uuid * ContextScheduleRule))
    (created : Z) : Tx Z :=
  match work with
  | [] => mret created
  | (device_id, rule) :: rest =>
      n ← schedule_rule scheduled_at device_id rule;
      schedule_all scheduled_at rest (created + n)
  end.

Definition device_id_order (a b : uuid * Device) : bool := a.1 <=? b.1.

Definition schedule_due_collections (now : option datetime) : Tx Z :=
  scheduled_at ← _now now;
  _expire_overdue_scheduled_collections scheduled_at ;;
  devices ← select (λ _ (d : Device), is_none (dev_retired_at d));
  created ← schedule_all scheduled_at
    (flat_map (λ d : uuid * Device, map (pair d.1) SCHEDULE_RULES)
       (order_by device_id_order devices)) 0;
  flush ;;
  mret created.
