(* ===== verification/SchedulerSpecs.v ===== *)
(** * Periodic requests: what the scheduler guarantees

    A run expires exactly the overdue scheduled collections, adds at most one
    active collection per device and profile, and leaves no active device
    without a current one. *)

From S2P Require Import Prelude Store Session AuditLog Frames Context Scheduler.

Definition device_table (w : World) := devices (db w).

(** A request of the scheduler: a stored one is returned, a new one takes the
    next id. *)
Lemma scheduled_request_spec device profile key at_ w :
  wp (request_collection_outcome device profile "scheduler" key (Some at_)) (λ r w',
    match r with
    | Ok (id, false) => w' = w
        ∧ ∃ c, context_collections (db w) !! id = Some c
               ∧ same_request device profile "scheduler" key id c = true
    | Ok (id, true) => id = seed w ∧ seed w' = seed w + 1 ∧ device_table w' = device_table w
        ∧ context_collections (db w')
          = <[id := new_collection device profile "scheduler" key c_requested (as_utc at_) None]>
              (context_collections (db w))
    | Exn _ => True
    end) w.
Proof.
  unfold request_collection_outcome, require_profile, _now, now_or. do 5 wp_step. wp_step.
  - wp_step. split; [done|]. by exists r.
  - unfold Context._now, now_or. repeat wp_step; eauto.
Qed.

(** ** What one run adds *)

(** The collection a rule requests at [at_]. *)
Definition scheduled_collection (at_ : datetime) (device : uuid) (rule : ContextScheduleRule)
    : ContextCollection :=
  new_collection device (rule_profile rule) "scheduler"
    (schedule_key (rule_profile rule) (bucket at_ (rule_interval rule))) c_requested at_ None
    <| col_expires_at := Some (dt_add at_ (rule_interval rule)) |>.

Definition active_device (d : gmap uuid Device) (device : uuid) : Prop :=
  ∃ dev, d !! device = Some dev ∧ dev_retired_at dev = None.

(** [m'] holds the collections of [m] and new ones, each the only active
    collection of its device and profile. *)
Definition scheduled (at_ : datetime) (d : gmap uuid Device)
    (m m' : gmap uuid ContextCollection) : Prop :=
  m ⊆ m' ∧ ∀ id c, m' !! id = Some c → m !! id = None →
    ∃ device rule, active_device d device ∧ rule ∈ SCHEDULE_RULES
      ∧ c = scheduled_collection at_ device rule
      ∧ ∀ j c', m' !! j = Some c' → active_of_profile device (rule_profile rule) j c' = true → j = id.

(** The device has an active or a recent collection of the rule's profile, or
    one was requested in the same period already. *)
Definition covered (at_ : datetime) (m : gmap uuid ContextCollection) (device : uuid)
    (rule : ContextScheduleRule) : Prop :=
  ∃ id c, m !! id = Some c ∧ of_profile device (rule_profile rule) id c = true
    ∧ (in_set (col_status c) _ACTIVE_STATUSES = true
       ∨ instant at_ - instant (col_requested_at c) < rule_interval rule
       ∨ (col_requested_by c = "scheduler"
          ∧ col_idempotency_key c
            = schedule_key (rule_profile rule) (bucket at_ (rule_interval rule)))).

Lemma covered_mono at_ m m' device rule : m ⊆ m' → covered at_ m device rule → covered at_ m' device rule.
Proof. intros Hm (id & c & Hid & Hc). exists id, c. split; [by eapply lookup_weaken|done]. Qed.

Lemma scheduled_active at_ device rule id :
  active_of_profile device (rule_profile rule) id (scheduled_collection at_ device rule) = true.
Proof. unfold active_of_profile, of_profile; simpl. by rewrite Z.eqb_refl, bool_decide_true. Qed.

Lemma scheduled_same at_ d m : scheduled at_ d m m.
Proof. split; [done|]. intros id c Hc Hn. congruence. Qed.

(** One more collection for a device and profile that have no active one. *)
Lemma scheduled_add at_ d m m' id device rule :
  scheduled at_ d m m' → m' !! id = None → active_device d device → rule ∈ SCHEDULE_RULES →
  (∀ j c, m' !! j = Some c → active_of_profile device (rule_profile rule) j c = false) →
  scheduled at_ d m (<[id := scheduled_collection at_ device rule]> m').
Proof.
  intros [Hsub Hnew] Hid Hdev Hrule Hidle. split.
  { apply insert_subseteq_r; [by eapply lookup_weaken_None|done]. }
  intros j c [[<- <-]|[Hne Hj]]%lookup_insert_Some Hm.
  - exists device, rule. do 3 (split; [done|]).
    intros k c' [[<- <-]|[_ Hk]]%lookup_insert_Some Hact; [done|].
    rewrite Hidle in Hact by done. discriminate.
  - destruct (Hnew j c Hj Hm) as (device' & rule' & Hd' & Hr' & -> & Huniq).
    exists device', rule'. do 3 (split; [done|]).
    intros k c' [[<- <-]|[_ Hk]]%lookup_insert_Some Hact;
      [|by eapply Huniq].
    exfalso.
    assert (active_of_profile device (rule_profile rule) j (scheduled_collection at_ device' rule') = true)
      as Hcon; [|rewrite Hidle in Hcon by done; discriminate].
    unfold active_of_profile, of_profile in *. simpl in *. propify. subst.
    match goal with H : rule_profile _ = rule_profile _ |- _ => rewrite H end.
    by rewrite Z.eqb_refl, bool_decide_true.
Qed.

(** The state of a run: what was there when it began is kept and what it added
    is scheduled; [n] collections were added. *)
Definition running (at_ : datetime) (m : gmap uuid ContextCollection) (n : Z) (w w' : World) : Prop :=
  let m' := context_collections (db w') in
  device_table w' = device_table w ∧ fresh (seed w') m'
  ∧ scheduled at_ (device_table w) m m' ∧ Z.of_nat (size m') = Z.of_nat (size m) + n.

Lemma schedule_rule_spec at_ m n device rule w0 w :
  as_utc at_ = at_ → active_device (device_table w0) device → rule ∈ SCHEDULE_RULES →
  running at_ m n w0 w →
  wp (schedule_rule at_ device rule) (λ r w',
    match r with
    | Ok k => running at_ m (n + k) w0 w'
              ∧ context_collections (db w) ⊆ context_collections (db w')
              ∧ covered at_ (context_collections (db w')) device rule
    | Exn _ => True
    end) w.
Proof.
  intros Hat Hdev Hrule (Hd & Hf & Hs & Hn). unfold schedule_rule. wp_step.
  { simpl. wp_step. rewrite Z.add_0_r. split; [by split_and!|]. split; [done|].
    unfold active_of_profile in *. propify. exists id, r. by split_and!; [| |left]. }
  simpl. wp_step. destruct (match head _ with Some _ => _ | None => _ end) eqn:Eh.
  { wp_step. rewrite Z.add_0_r. split; [by split_and!|]. split; [done|].
    destruct (head _) as [[id c]|] eqn:E; [|done].
    apply head_Some_elem_of in E. rewrite elem_of_order_by in E. apply H1 in E as [Hid Hc].
    exists id, c. rewrite instant_as_utc in Eh. propify. by split_and!; [| |right; left]. }
  apply wp_bind. eapply wp_mono; [apply scheduled_request_spec|].
  intros [[id [|]]|e] w1; [| |done]; wp_k.
  - intros (-> & S1 & D1 & E1). do 2 wp_step. rewrite Hat in E1. unfold with_table; simpl.
    assert (context_collections (db w) !! seed w = None) as Hfree by by apply fresh_lookup.
    assert (alter (λ c : ContextCollection, c <| col_expires_at := Some (dt_add at_ (rule_interval rule)) |>)
        (seed w) (context_collections (db w1))
      = <[seed w := scheduled_collection at_ device rule]> (context_collections (db w))) as E.
    { rewrite E1, (alter_stored _ _ _ _ (lookup_insert_eq _ _ _)). by rewrite insert_insert_eq. }
    split; [|split].
    + unfold running. simpl. rewrite E. split_and!.
      * unfold device_table in *. simpl. congruence.
      * apply fresh_insert; [eapply fresh_le; [done|lia]|lia].
      * by apply scheduled_add.
      * rewrite map_size_insert, Hfree. lia.
    + rewrite E. by apply insert_subseteq.
    + rewrite E. exists (seed w), (scheduled_collection at_ device rule).
      rewrite lookup_insert_eq. split; [done|]. unfold of_profile; simpl.
      rewrite Z.eqb_refl, bool_decide_true by done. auto.
  - intros (-> & c & Hid & Hc). wp_step. rewrite Z.add_0_r. split; [by split_and!|]. split; [done|].
    exists id, c. unfold same_request, of_profile in *. propify. subst. split; [done|].
    rewrite Z.eqb_refl, bool_decide_true by done. auto.
Qed.

(** Reading the rules of a work list one after another. *)
Lemma schedule_all_spec at_ m work n w0 w :
  as_utc at_ = at_ → running at_ m n w0 w →
  (∀ device rule, (device, rule) ∈ work → active_device (device_table w0) device ∧ rule ∈ SCHEDULE_RULES) →
  wp (schedule_all at_ work n) (λ r w',
    match r with
    | Ok k => running at_ m k w0 w' ∧ context_collections (db w) ⊆ context_collections (db w')
              ∧ ∀ device rule, (device, rule) ∈ work → covered at_ (context_collections (db w')) device rule
    | Exn _ => True
    end) w.
Proof.
  intros Hat. revert n w. induction work as [|[device rule] work IH]; intros n w Hrun Hwork; simpl.
  { wp_step. split; [done|]. split; [done|]. by intros ? ? ?%not_elem_of_nil. }
  destruct (Hwork device rule) as [Hdev Hrule]; [left|].
  apply wp_bind. eapply wp_mono; [by apply (schedule_rule_spec at_ m n device rule w0)|].
  intros [k|e] w1; wp_k; [|done]. intros (Hrun1 & Hsub1 & Hcov1).
  eapply wp_mono; [apply IH; [done|]; intros d r Hin; apply Hwork; by right|].
  intros [k'|e] w2; [|done]. intros (Hrun2 & Hsub2 & Hcov2). split; [done|]. split; [by etrans|].
  intros d r [[= -> ->]|Hin]%elem_of_cons; [|by apply Hcov2]. by eapply covered_mono.
Qed.

(** The overdue scheduled collections of [m] as the run leaves them. *)
Definition expired_scheduled (at_ : datetime) (m : gmap uuid ContextCollection)
    : gmap uuid ContextCollection :=
  map_imap (λ id c, Some (if overdue_scheduled at_ id c
                          then expire_collection "schedule_expired" at_ c else c)) m.

Lemma expire_overdue_scheduled_spec at_ w :
  wp (_expire_overdue_scheduled_collections at_) (λ r w',
    r = Ok tt ∧ device_table w' = device_table w ∧ seed w' = seed w
    ∧ context_collections (db w') = expired_scheduled at_ (context_collections (db w))) w.
Proof.
  unfold _expire_overdue_scheduled_collections. wp_step.
  eapply wp_mono; [by apply update_each_spec|]. intros r w1 (-> & m' & -> & Hm'). split_and!; [done..|].
  apply map_eq. intros id. simpl. rewrite (updated_selected _ _ _ _ _ H0 Hm').
  unfold expired_scheduled. rewrite map_lookup_imap. cbn. by destruct (_ !! id).
Qed.

(** C16: one run of the schedule first expires exactly the overdue active
    collections that the scheduler requested, and then keeps every collection.
    Each one it adds is a fresh request of the scheduler for an active device
    and one of the fixed profiles, expires after that rule's interval, and is
    the only active collection of its device and profile.  Afterwards every
    active device has, for every rule, an active collection, one requested
    within the interval, or one of the same period; and the returned number is
    the number of collections added. *)
Theorem schedule_fills_the_gaps now w :
  fresh (seed w) (context_collections (db w)) →
  wp (schedule_due_collections now) (λ r w',
    match r with
    | Ok n => ∃ at_,
        let m := expired_scheduled at_ (context_collections (db w)) in
        let m' := context_collections (db w') in
        (∀ t, now = Some t → at_ = as_utc t)
        ∧ scheduled at_ (devices (db w)) m m'
        ∧ Z.of_nat (size m') = Z.of_nat (size m) + n
        ∧ ∀ device rule, active_device (devices (db w)) device → rule ∈ SCHEDULE_RULES →
            covered at_ m' device rule
    | Exn _ => True
    end) w.
Proof.
  intros Hf. unfold schedule_due_collections. apply wp_bind.
  eapply (wp_mono _ (λ r w1, db w1 = db w ∧ seed w1 = seed w ∧
    match r with Ok at_ => as_utc at_ = at_ ∧ ∀ t, now = Some t → at_ = as_utc t | Exn _ => True end)).
  { unfold _now, now_or. destruct now; repeat wp_step; (split_and!; [done..|by rewrite as_utc_idem|]);
      by intros ? [= ->]. }
  intros [at_|e] w1; wp_k; [|done]. intros (E1 & S1 & Hat & Hnow).
  apply wp_bind. eapply wp_mono; [apply expire_overdue_scheduled_spec|].
  intros r w2 (-> & D2 & S2 & E2). wp_k. wp_step.
  set (m := expired_scheduled at_ (context_collections (db w))).
  assert (context_collections (db w2) = m) as Em by (by rewrite E2, E1).
  apply wp_bind. eapply wp_mono; [apply (schedule_all_spec at_ m _ 0 w2); [done| |]|].
  - split_and!; [done| |rewrite Em; apply scheduled_same|rewrite Em; lia].
    rewrite Em. intros id c Hc. unfold m, expired_scheduled in Hc. rewrite map_lookup_imap in Hc.
    apply bind_Some in Hc as (c0 & Hc0 & _). apply Hf in Hc0. lia.
  - intros device rule Hin. apply list_elem_of_In, in_flat_map in Hin as ([d dev] & Hd & Hin).
    apply in_map_iff in Hin as (rule' & [= -> ->] & Hr%list_elem_of_In).
    split; [|done]. apply list_elem_of_In in Hd. rewrite elem_of_order_by in Hd.
    apply H0 in Hd as [Hd Hact]. exists dev. split; [done|]. by destruct (dev_retired_at dev).
  - intros [n|e] w3; wp_k; [|done]. intros ((D3 & _ & Hs3 & Hn3) & _ & Hcov). wp_step. wp_step.
    exists at_. unfold device_table in *. rewrite E1 in D2. split_and!; [done| |done|].
    + by rewrite <- D2.
    + intros device rule (dev & Hd & Hact) Hr. apply Hcov. apply list_elem_of_In, in_flat_map.
      exists (device, dev). split.
      * apply list_elem_of_In. rewrite elem_of_order_by. apply H0. cbn. rewrite D2, Hact. done.
      * apply in_map_iff. exists rule. split; [done|]. by apply list_elem_of_In.
Qed.

(** ** A first run for one device *)

Definition scheduler_world : World := {|
  committed := empty_db;
  db := empty_db <| devices := {[ 1 := {| dev_device_identifier := "pc-1"; dev_display_name := None;
                                          dev_retired_at := None |} ]} |>;
  seed := 100; clock := λ n, Z.of_nat n; ticks := 0 |}.

Definition first_run : res Z * World := schedule_due_collections None scheduler_world.

Lemma schedule_fills_the_gaps_witness :
  first_run.1 = Ok 5
  ∧ ∃ at_, covered at_ (context_collections (db first_run.2)) 1
             {| rule_profile := "health_v1"; rule_interval := minutes 5 |}.
Proof.
  split; [vm_compute; reflexivity|].
  assert (fresh (seed scheduler_world) (context_collections (db scheduler_world))) as Hf
    by (intros id c Hc; discriminate Hc).
  pose proof (schedule_fills_the_gaps None scheduler_world Hf) as H. rewrite wp_unfold in H.
  fold first_run in H. assert (first_run.1 = Ok 5) as E by (vm_compute; reflexivity).
  rewrite E in H. destruct H as (at_ & _ & _ & _ & Hcov). exists at_. apply Hcov.
  - exists {| dev_device_identifier := "pc-1"; dev_display_name := None; dev_retired_at := None |}.
    split; reflexivity.
  - right. left.
Defined.
