(* ===== verification/EvidenceSpecs.v ===== *)
(** * Operation evidence: what retention guarantees

    A cleanup scrubs exactly a batch of expired, unpinned evidence, and over
    every interleaving of creation, pinning and cleanup evidence only moves
    forward: pinned or scrubbed rows never change again. *)

From S2P Require Import Prelude Store Session AuditLog Frames Contracts Evidence Demo.

Section evidence.
Context `{Contracts}.

(** ** Cleanup *)

Definition evidence_table (w : World) := operation_evidence (db w).
Definition step_table (w : World) := endpoint_operation_steps (db w).

(** The step results of the given operations are gone. *)
Definition steps_scrubbed (operations : list uuid) (m m' : gmap uuid ModuleOperationStep) : Prop :=
  ∀ id, m' !! id = (λ s, if bool_decide (step_operation_id s ∈ operations) then scrub_step s else s)
                   <$> m !! id.

Lemma scrub_step_none s : step_safe_result_json s = None → scrub_step s = s.
Proof. destruct s; simpl. by intros ->. Qed.

Lemma steps_scrubbed_cons operation l operations m m1 m' :
  selected (λ _ s, (step_operation_id s =? operation) && is_some (step_safe_result_json s)) m l →
  updated scrub_step l m m1 → steps_scrubbed operations m1 m' →
  steps_scrubbed (operation :: operations) m m'.
Proof.
  intros Hl Hm1 Hm' id. rewrite Hm', (updated_selected _ _ _ _ _ Hl Hm1).
  destruct (m !! id) as [s|]; simpl; [|done]. f_equal.
  destruct (Z.eqb_spec (step_operation_id s) operation) as [<-|Hne]; simpl.
  - rewrite (bool_decide_true (_ ∈ _ :: _)) by left.
    destruct (step_safe_result_json s) eqn:Es; simpl; [by case_bool_decide|].
    case_bool_decide; [done|]. by rewrite scrub_step_none.
  - rewrite (bool_decide_ext (step_operation_id s ∈ operation :: operations)
      (step_operation_id s ∈ operations)); [done|].
    rewrite elem_of_cons. split; [by intros [?|?]|by right].
Qed.

Definition owner (x : uuid * OperationEvidence) : uuid := evd_operation_id x.2.

Lemma cleanup_loop_spec at_ l w :
  NoDup l.*1 →
  wp (for_each l (λ evidence : uuid * OperationEvidence,
    update evidence.1 (scrub_evidence at_) ;;
    steps ← select (λ _ s, (step_operation_id s =? evd_operation_id evidence.2)
                           && is_some (step_safe_result_json s));
    for_each steps (λ step, update step.1 scrub_step))) (λ r w', r = Ok tt ∧
    updated (scrub_evidence at_) l (evidence_table w) (evidence_table w')
    ∧ steps_scrubbed (owner <$> l) (step_table w) (step_table w')
    ∧ seed w' = seed w ∧ committed w' = committed w) w.
Proof.
  revert w. induction l as [|[id e] l IH]; intros w Hnd.
  { simpl. wp_step. split; [done|]. split; [apply updated_nil|]. split; [|done].
    intros j. by destruct (_ !! j). }
  apply NoDup_cons in Hnd as [Hid Hnd]. simpl for_each. apply wp_bind. do 2 wp_step.
  eapply wp_mono; [by apply update_each_spec|]. intros r w1 (-> & m1 & -> & Hm1). wp_k.
  eapply wp_mono; [by apply IH|]. intros r w2 (-> & He & Hs & S2 & F2). split; [done|].
  split; [by apply updated_cons|]. split; [|done]. by eapply steps_scrubbed_cons.
Qed.

Definition expiry_instant (x : uuid * OperationEvidence) : Z := from_option instant 0 (evd_expires_at x.2).

(** [evidence_utc(now or datetime.now(UTC))], and the rest of the body. *)
Lemma wp_evidence_now {B} now (k : datetime → Tx B) Q w :
  (∀ at_ w1, db w1 = db w → seed w1 = seed w → committed w1 = committed w → wp (k at_) Q w1) →
  (∀ e w1, db w1 = db w → seed w1 = seed w → committed w1 = committed w → Q (Exn e) w1) →
  wp (now ← now_or now; at_ ← evidence_utc now; k at_) Q w.
Proof.
  intros Hk He. unfold evidence_utc, now_or.
  destruct now; do 3 (wp_step; try by apply He); by apply Hk.
Qed.

Lemma expiry_order_trans a b c :
  expiry_order a b = true → expiry_order b c = true → expiry_order a c = true.
Proof. apply lex_leb_trans. Qed.

Lemma expiry_order_total a b : expiry_order a b = true ∨ expiry_order b a = true.
Proof. apply lex_leb_total. Qed.

Lemma expiry_order_instant a b : expiry_order a b = true → expiry_instant a <= expiry_instant b.
Proof. unfold expiry_order, lex_leb, expiry_instant; simpl. lia. Qed.

Lemma cleanup_scrubs_spec now limit w :
  wp (cleanup_operation_results now limit) (λ r w',
    match r with
    | Ok n => ∃ at_ l, 1 <= limit <= 1000 ∧ n = Z.of_nat (length l)
        ∧ batch (expired_evidence at_) expiry_instant limit (evidence_table w) l
        ∧ updated (scrub_evidence at_) l (evidence_table w) (evidence_table w')
        ∧ steps_scrubbed (owner <$> l) (step_table w) (step_table w')
        ∧ (∀ id e, evidence_table w !! id = Some e → evd_pinned_at e ≠ None →
             evidence_table w' !! id = Some e)
        ∧ committed w' = committed w ∧ seed w' = seed w
    | Exn _ => True
    end) w.
Proof.
  unfold cleanup_operation_results. wp_step. apply wp_evidence_now; [|done].
  intros at_ w1 D1 S1 F1. wp_step. propify.
  assert (selected (expired_evidence at_) (evidence_table w) l) as Hl.
  { unfold evidence_table. by rewrite <- D1. }
  match goal with |- context [take ?n ?k] => set (rows := take n k) end.
  assert (batch (expired_evidence at_) expiry_instant limit (evidence_table w) rows) as Hb.
  { apply batch_take; [lia|apply expiry_order_trans|apply expiry_order_total|
      apply expiry_order_instant|done|done]. }
  apply wp_bind. eapply wp_mono; [apply cleanup_loop_spec; apply Hb|].
  intros r w2 (-> & He & Hs & S2 & F2). wp_k. do 2 wp_step.
  unfold evidence_table, step_table in *. rewrite D1 in He, Hs. rewrite F1 in F2.
  exists at_, rows. split_and!; try done; [|by rewrite S2].
  intros id e Hid Hpin. rewrite He, Hid. simpl. case_bool_decide as Hin; [|done]. exfalso.
  apply list_elem_of_fmap in Hin as ([j x] & -> & Hin). destruct Hb as (_ & _ & Hb & _).
  apply Hb in Hin as [Hj Hx]. simpl in Hid. assert (x = e) as -> by congruence.
  unfold expired_evidence in Hx. destruct (evd_pinned_at e); [|done]. by propify.
Qed.

(** A cleanup scrubs a batch of at most [limit] (one to a thousand)
    evidence rows, all of them expired, unpinned and still holding a payload,
    the earliest expiries first, and reports how many: each loses its payload
    and is stamped, together with the safe results of the steps of its
    operation.  Every other row is as it was: pinned evidence in particular
    keeps its payload whatever its expiry says, and evidence never scrubs
    early. *)
Theorem cleanup_scrubs_only_expired_evidence now limit w :
  wp (cleanup_operation_results now limit) (λ r w',
    match r with
    | Ok n => ∃ at_ l, 1 <= limit <= 1000 ∧ n = Z.of_nat (length l)
        ∧ batch (expired_evidence at_) expiry_instant limit (evidence_table w) l
        ∧ updated (scrub_evidence at_) l (evidence_table w) (evidence_table w')
        ∧ steps_scrubbed (owner <$> l) (step_table w) (step_table w')
        ∧ (∀ id e, evidence_table w !! id = Some e → evd_pinned_at e ≠ None →
             evidence_table w' !! id = Some e)
        ∧ committed w' = committed w
    | Exn _ => True
    end) w.
Proof.
  eapply wp_mono; [apply cleanup_scrubs_spec|]. intros [n|e] w'; [|done].
  intros (at_ & l & Hp). exists at_, l. by destruct_and! Hp.
Qed.
(** ** The life of an evidence row *)

Lemma create_spec operation kind payload created w :
  wp (create_operation_evidence operation kind payload created) (λ r w',
    seed w <= seed w' ∧
    match r with
    | Ok id => id = seed w ∧ seed w' = seed w + 1
        ∧ (∀ j e, evidence_table w !! j = Some e → evd_operation_id e ≠ operation)
        ∧ ∃ e, evidence_table w' = <[id := e]> (evidence_table w)
               ∧ evd_operation_id e = operation ∧ evd_scrubbed_at e = None
    | Exn _ => True
    end) w.
Proof.
  unfold create_operation_evidence, evidence_utc.
  repeat (wp_step; try (simpl; split; [lia|done])).
  simpl. split; [lia|]. split; [done|]. split; [done|]. split.
  - intros j e Hj. match goal with Hn : ∀ id r, _ → _ = false |- _ => specialize (Hn j e Hj) end.
    by propify.
  - eexists. by split_and!.
Qed.

(** The pinned row: it no longer expires. *)
Definition pin_row (e e' : OperationEvidence) : Prop :=
  evd_created_at e' = evd_created_at e ∧ evd_operation_id e' = evd_operation_id e
  ∧ evd_result_kind e' = evd_result_kind e ∧ evd_safe_payload e' = evd_safe_payload e
  ∧ evd_payload_sha256 e' = evd_payload_sha256 e ∧ evd_scrubbed_at e' = evd_scrubbed_at e
  ∧ evd_expires_at e' = None ∧ is_some (evd_pinned_at e') = true.

Definition evidence_view (w : World) := (evidence_table w, committed w).
Definition evidence_unmoved (w w' : World) : Prop := same evidence_view w w' ∧ seed_le w w'.

#[local] Instance evidence_unmoved_preorder : PreOrder evidence_unmoved.
Proof. split; [by split; reflexivity|]. intros w1 w2 w3 [? ?] [? ?]. split; by etrans. Qed.

Lemma pin_spec operation kind identifier request_id reason now w :
  wp (pin_operation_evidence operation kind identifier request_id reason now) (λ r w',
    seed w <= seed w' ∧
    match r with
    | Ok id => ∃ e, evidence_table w !! id = Some e ∧ evd_operation_id e = operation
        ∧ evd_scrubbed_at e = None ∧ is_some (evd_safe_payload e) = true
        ∧ (evidence_table w' = evidence_table w ∧ is_some (evd_pinned_at e) = true
           ∨ evd_pinned_at e = None ∧ ∃ e', pin_row e e'
               ∧ evidence_table w' = <[id := e']> (evidence_table w))
    | Exn _ => True
    end) w.
Proof.
  unfold pin_operation_evidence. wp_step.
  apply wp_evidence_now; [|intros e w1 _ -> _; split; [lia|done]].
  intros at_ w1 D1 S1 F1. wp_step.
  - do 2 (wp_step; try (simpl; split; [lia|done])). destruct (is_some (evd_pinned_at r)) eqn:Ep.
    + wp_step. split; [lia|]. propify. unfold evidence_table. rewrite D1 in *.
      exists r. split_and!; auto; [by destruct (evd_scrubbed_at r)|by destruct (evd_safe_payload r)].
    + repeat (wp_step; try (simpl; split; [lia|done])).
      apply (wp_bind_pres evidence_unmoved); [apply pres_and; frame| |].
      * intros _ w2 [[= E2 F2] S2]. unfold seed_le in S2; simpl in S2.
        wp_step; [|simpl; split; [lia|done]]. wp_step. split; [lia|]. propify.
        unfold evidence_table in *. simpl in E2. rewrite E2, D1 in *.
        exists r. split_and!; try done; [by destruct (evd_scrubbed_at r)|by destruct (evd_safe_payload r)|].
        right. split; [by destruct (evd_pinned_at r)|].
        eexists. split; [|by apply alter_stored]. by split_and!.
      * intros e w2 [_ S2]. unfold seed_le in S2; simpl in S2. split; [lia|done].
  - wp_step. split; [lia|done].
Qed.
(** One request on evidence, or other work of the server that leaves the
    evidence alone. *)
Inductive evidence_step (w : World) : World → Prop :=
| step_create operation kind payload created :
    evidence_step w (request (create_operation_evidence operation kind payload created) w).2
| step_pin operation kind identifier request_id reason now :
    evidence_step w (request (pin_operation_evidence operation kind identifier request_id reason now) w).2
| step_cleanup now limit :
    evidence_step w (request (cleanup_operation_results now limit) w).2
| step_evidence_elsewhere w' :
    operation_evidence (committed w') = operation_evidence (committed w) → seed w <= seed w' →
    evidence_step w w'.

(** What never changes of a row, and how the rest may. *)
Definition evidence_moves (e e' : OperationEvidence) : Prop :=
  evd_created_at e' = evd_created_at e ∧ evd_operation_id e' = evd_operation_id e
  ∧ evd_result_kind e' = evd_result_kind e ∧ evd_payload_sha256 e' = evd_payload_sha256 e
  ∧ (evd_pinned_at e ≠ None ∨ evd_scrubbed_at e ≠ None → e' = e)
  ∧ (evd_safe_payload e' = evd_safe_payload e
     ∨ evd_safe_payload e' = None ∧ evd_scrubbed_at e' ≠ None).

(** A scrubbed row has no payload, and an operation has one row. *)
Definition evidence_ok (m : gmap uuid OperationEvidence) : Prop :=
  (∀ id e, m !! id = Some e → evd_scrubbed_at e ≠ None → evd_safe_payload e = None)
  ∧ ∀ i j d e, m !! i = Some d → m !! j = Some e → evd_operation_id d = evd_operation_id e → i = j.

Definition evidence_sound (w w' : World) : Prop :=
  let m := operation_evidence (committed w) in
  let m' := operation_evidence (committed w') in
  fresh (seed w) m → evidence_ok m →
  fresh (seed w') m' ∧ evidence_ok m' ∧ rows_kept evidence_moves m m'.

Lemma evidence_moves_refl e : evidence_moves e e.
Proof. split_and!; auto. Qed.
#[local] Hint Resolve evidence_moves_refl : core.

Lemma evidence_moves_trans e1 e2 e3 :
  evidence_moves e1 e2 → evidence_moves e2 e3 → evidence_moves e1 e3.
Proof.
  intros (A & B & C & D & E & F) (A' & B' & C' & D' & E' & F'). split_and!; try congruence.
  - intros Hc. rewrite E' by (rewrite E by done; done). auto.
  - destruct F' as [F'|F']; [|by right]. rewrite F'. destruct F as [F|[F G]]; [by left|right].
    split; [done|]. rewrite E' by by right. done.
Qed.

#[local] Instance evidence_sound_preorder : PreOrder evidence_sound.
Proof.
  split.
  - intros w Hf Ho. split_and!; [done..|]. by apply rows_kept_refl.
  - intros w1 w2 w3 H12 H23 Hf Ho. destruct (H12 Hf Ho) as (F2 & O2 & R2).
    destruct (H23 F2 O2) as (F3 & O3 & R3). split_and!; [done..|].
    eapply rows_kept_trans; [apply evidence_moves_trans|exact R2|exact R3].
Qed.

Lemma evidence_sound_same w w' :
  operation_evidence (committed w') = operation_evidence (committed w) → seed w <= seed w' →
  evidence_sound w w'.
Proof.
  intros E Hs Hf Ho. rewrite E. split_and!; [by eapply fresh_le|apply Ho..|by apply rows_kept_refl].
Qed.

Lemma evidence_sound_insert w w' e :
  operation_evidence (committed w') = <[seed w := e]> (operation_evidence (committed w)) →
  seed w' = seed w + 1 → evd_scrubbed_at e = None →
  (∀ j d, operation_evidence (committed w) !! j = Some d → evd_operation_id d ≠ evd_operation_id e) →
  evidence_sound w w'.
Proof.
  intros E Hs Hn Hnew Hf [Ho Hu]. rewrite E, Hs.
  split; [apply fresh_insert; [eapply fresh_le; [done|lia]|lia]|]. split; [split|].
  - intros id d [[<- <-]|[_ Hd]]%lookup_insert_Some; [done|by eapply Ho].
  - intros i j c d [[<- <-]|[_ Hc]]%lookup_insert_Some [[<- <-]|[_ Hd]]%lookup_insert_Some Hcd;
      [done|by destruct (Hnew _ _ Hd)|by destruct (Hnew _ _ Hc)|by eapply Hu].
  - apply rows_kept_insert; [done|by apply fresh_lookup].
Qed.

Lemma pin_sound w w' id e e' :
  operation_evidence (committed w) !! id = Some e → evd_scrubbed_at e = None → evd_pinned_at e = None →
  pin_row e e' → operation_evidence (committed w') = <[id := e']> (operation_evidence (committed w)) →
  seed w <= seed w' → evidence_sound w w'.
Proof.
  intros Hid Hs Hp (A & B & C & D & F & G & _) E Hseed Hf [Ho Hu]. rewrite E.
  split; [apply fresh_insert; [by eapply fresh_le|specialize (Hf _ _ Hid); lia]|]. split; [split|].
  - intros j d [[<- <-]|[_ Hd]]%lookup_insert_Some; [congruence|by eapply Ho].
  - intros i j c d [[<- <-]|[_ Hc]]%lookup_insert_Some [[<- <-]|[_ Hd]]%lookup_insert_Some Hcd;
      [done| | |by eapply Hu]; eapply Hu; eauto; congruence.
  - intros j d Hj. destruct (decide (id = j)) as [<-|Hne].
    + exists e'. rewrite lookup_insert_eq. split; [done|]. assert (d = e) as -> by congruence.
      split_and!; try done; [intros []; congruence|by left].
    + exists d. by rewrite lookup_insert_ne.
Qed.

Lemma scrub_sound w w' at_ l :
  updated (scrub_evidence at_) l (operation_evidence (committed w)) (operation_evidence (committed w')) →
  (∀ id e, (id, e) ∈ l → operation_evidence (committed w) !! id = Some e ∧ expired_evidence at_ id e = true) →
  seed w <= seed w' → evidence_sound w w'.
Proof.
  intros Hup Hl Hseed Hf [Ho Hu].
  assert (∀ id e, operation_evidence (committed w) !! id = Some e → id ∈ l.*1 →
    evd_pinned_at e = None ∧ evd_safe_payload e ≠ None) as Hin.
  { intros id e Hid ([j x] & -> & Hx)%list_elem_of_fmap. apply Hl in Hx as [Hj Hx].
    simpl in Hid. assert (x = e) as -> by congruence. unfold expired_evidence in Hx.
    destruct (evd_pinned_at e), (evd_safe_payload e); propify; done. }
  assert (∀ id e', operation_evidence (committed w') !! id = Some e' → ∃ e,
    operation_evidence (committed w) !! id = Some e ∧ evd_operation_id e' = evd_operation_id e
    ∧ (e' = e ∨ e' = scrub_evidence at_ e)) as Hback.
  { intros id e' He. rewrite Hup in He. apply fmap_Some in He as (e & He & ->). exists e.
    case_bool_decide; auto. }
  split; [|split; [split|]].
  - intros id e' (e & He & _)%Hback. specialize (Hf _ _ He). lia.
  - intros id e' (e & He & _ & [->| ->])%Hback; [by eapply Ho|done].
  - intros i j d' e' (d & Hd & Ed & _)%Hback (e & He & Ee & _)%Hback Hde. eapply Hu; eauto. congruence.
  - intros id e He. rewrite Hup, He. simpl. eexists. split; [done|].
    case_bool_decide as Hid; [|done]. destruct (Hin id e He Hid) as [Hp Hs].
    split_and!; try done; [|by right]. intros [|Hc]; [done|]. by destruct Hs, (Ho id e He Hc).
Qed.
(** A request whose body does one sound thing is sound. *)
Lemma evidence_request_sound {A} (body : Tx A) w :
  keeps committed body →
  wp body (λ r w', seed w <= seed w' ∧
    match r with
    | Ok _ => evidence_sound w (w' <| committed := db w' |>)
    | Exn _ => True
    end) (stored w) →
  evidence_sound w (request body w).2.
Proof.
  intros Hk Hb. assert (wp (request body) (λ _, evidence_sound w) w) as Hw;
    [|by rewrite wp_unfold in Hw].
  apply wp_request; [done|].
  eapply wp_mono; [apply wp_and; [by apply (wp_of_pres (same committed))|exact Hb]|].
  intros [a|e] w' (Hc & Hs & Hp); [split; [done|intros e]|]; apply evidence_sound_same; simpl;
    try done; by rewrite Hc.
Qed.

Lemma evidence_step_sound w w' : evidence_step w w' → evidence_sound w w'.
Proof.
  intros [operation kind payload created|operation kind identifier rid reason now|now limit|w'' E Hs].
  - apply evidence_request_sound; [frame|]. eapply wp_mono; [apply create_spec|].
    intros [id|e] w1 [Hs Hp]; (split; [done|]); [|done].
    destruct Hp as (-> & S1 & Hnew & e & E & Eo & En).
    apply (evidence_sound_insert _ _ e); try done. intros j d Hj. rewrite Eo. by eapply Hnew.
  - apply evidence_request_sound; [frame|]. eapply wp_mono; [apply pin_spec|].
    intros [id|e] w1 [Hs Hp]; (split; [done|]); [|done].
    destruct Hp as (e & He & _ & Hn & _ & [[E _]|(Hp & e' & Hpin & E)]).
    + by apply evidence_sound_same.
    + by apply (pin_sound _ _ id e e').
  - apply evidence_request_sound; [frame|]. 
    eapply wp_mono; [apply wp_and; [apply (wp_of_pres seed_le); frame|apply cleanup_scrubs_spec]|].
    intros [n|e] w1 [Hle Hp]; (split; [done|]); [|done]. destruct Hp as (at_ & l & _ & _ & (_ & _ & Hl & _) & Hup & _).
    apply (scrub_sound _ _ at_ l); done.
  - by apply evidence_sound_same.
Qed.
(** C4: however creations, pins and cleanups interleave, accepted or refused,
    an operation keeps at most one evidence row; a row keeps its operation,
    kind, digest and creation time; a payload is never altered, only dropped
    by a stamped scrubbing; and once a row is pinned or scrubbed it never
    changes again, so pinned evidence cannot be scrubbed later and scrubbed
    evidence cannot be pinned. *)
Theorem evidence_is_pinned_or_scrubbed_for_good w w' :
  fresh (seed w) (operation_evidence (committed w)) → evidence_ok (operation_evidence (committed w)) →
  rtc evidence_step w w' →
  evidence_ok (operation_evidence (committed w'))
  ∧ rows_kept evidence_moves (operation_evidence (committed w)) (operation_evidence (committed w')).
Proof.
  intros Hf Ho Hs. assert (evidence_sound w w') as Hw; [|by destruct (Hw Hf Ho) as (_ & ? & ?)].
  clear Hf Ho. induction Hs as [|w1 w2 w3 H12 _ IH]; [reflexivity|].
  etrans; [by apply evidence_step_sound|done].
Qed.
End evidence.

(** ** A run: two results, one of them pinned *)

Section demo.
#[local] Existing Instance demo_contracts.

Definition evidence_world : World := {|
  committed := empty_db <| endpoint_operations := {[ 50 := demo_module_operation;
                                                     51 := demo_module_operation <| op_idempotency_key := "other-key" |> ]} |>;
  db := empty_db; seed := 100; clock := λ n, Z.of_nat n; ticks := 0 |}.

Definition demo_evidence (operation : uuid) (w : World) : World :=
  (request (create_operation_evidence operation "module" (JObj []) (utc_datetime 0)) w).2.

Definition demo_pin (w : World) : World :=
  (request (pin_operation_evidence 50 "user" "operator" "r-1" None (Some (utc_datetime 0))) w).2.

Definition demo_cleanup (w : World) : World :=
  (request (cleanup_operation_results (Some (utc_datetime (days 2))) 10) w).2.

Definition pinned_run : World := demo_pin (demo_evidence 51 (demo_evidence 50 evidence_world)).

Lemma evidence_is_pinned_or_scrubbed_for_good_witness :
  (is_some ∘ evd_safe_payload <$> operation_evidence (committed (demo_cleanup pinned_run)) !! 100)
    = Some true
  ∧ (is_some ∘ evd_safe_payload <$> operation_evidence (committed (demo_cleanup pinned_run)) !! 101)
    = Some false
  ∧ rows_kept evidence_moves (operation_evidence (committed evidence_world))
      (operation_evidence (committed (demo_cleanup pinned_run))).
Proof.
  split; [vm_compute; reflexivity|]. split; [vm_compute; reflexivity|].
  apply (evidence_is_pinned_or_scrubbed_for_good evidence_world).
  - intros id e Hid. discriminate Hid.
  - split; [intros id e Hid|intros i j d e Hid]; discriminate Hid.
  - eapply rtc_l; [apply (step_create _ 50 "module" (JObj []) (utc_datetime 0))|].
    eapply rtc_l; [apply (step_create _ 51 "module" (JObj []) (utc_datetime 0))|].
    eapply rtc_l; [apply (step_pin _ 50 "user" "operator" "r-1" None (Some (utc_datetime 0)))|].
    eapply rtc_l; [apply (step_cleanup _ (Some (utc_datetime (days 2))) 10)|].
    apply rtc_refl.
Defined.
End demo.
