(* ===== verification/Retention.v ===== *)
(** * Context retention (endpoint_server/context/retention.py, policy.py)

    The bounded deletion of snapshots by profile, the scrubbing of raw payloads
    and the removal of old scheduler bookkeeping.  Deleting a snapshot cascades
    to its diffs, its current pointer and its findings, as the foreign keys declare. *)

From S2P Require Import Prelude Store Session Evidence Context.

Inductive retention_mode := current_previous_pinned | hot | diagnostic.

#[export] Instance retention_mode_eq_dec : EqDecision retention_mode.
Proof. solve_decision. Defined.

Record ContextRetentionPolicy := { policy_mode : retention_mode; policy_ttl : option timedelta }.

Definition CONTEXT_RETENTION_POLICIES : list (string * ContextRetentionPolicy) :=
  [("baseline_v1", {| policy_mode := current_previous_pinned; policy_ttl := None |});
   ("inventory_v1", {| policy_mode := current_previous_pinned; policy_ttl := None |});
   ("health_v1", {| policy_mode := hot; policy_ttl := Some (hours 24) |});
   ("session_v1", {| policy_mode := hot; policy_ttl := Some (hours 24) |});
   ("network_v1", {| policy_mode := hot; policy_ttl := Some (hours 24) |});
   ("activity_v1", {| policy_mode := hot; policy_ttl := Some (hours 24) |});
   ("diagnostic_v1", {| policy_mode := diagnostic; policy_ttl := Some (hours 24) |})].

(** [CONTEXT_RETENTION_POLICIES[profile].ttl], 24 hours for every profile that
    has one. *)
Definition ttl_of (profile : string) : option timedelta :=
  p ← assoc profile CONTEXT_RETENTION_POLICIES; policy_ttl p.

Definition hot_profiles : list string :=
  map fst (List.filter (λ e : string * ContextRetentionPolicy,
                          bool_decide (policy_mode e.2 = hot)) CONTEXT_RETENTION_POLICIES).

Definition stable_profiles : list string := ["baseline_v1"; "inventory_v1"].

Definition pin_context_snapshot (snapshot_id : uuid) (pinned_at : option datetime) : Tx uuid :=
  when_ ← now_or pinned_at;
  raise_if (negb (is_aware when_)) (ContextValidationError "pinned_at must be timezone-aware") ;;
  snapshot ← get (R := ContextSnapshot) snapshot_id;
  raise_if (is_none snapshot) (ContextNotFound "context snapshot was not found") ;;
  update snapshot_id (λ s : ContextSnapshot, s <| snap_pinned_at := Some (as_utc when_) |>) ;;
  flush ;;
  mret snapshot_id.

(** [ORDER BY collected_at, id] *)
Definition oldest_snapshot (a b : uuid * ContextSnapshot) : bool :=
  lex_leb (instant (snap_collected_at a.2), a.1) (instant (snap_collected_at b.2), b.1).

(** Unpinned snapshots of the given profiles collected before [cutoff]. *)
Definition stale (profiles : list string) (cutoff : datetime) (_ : uuid)
    (s : ContextSnapshot) : bool :=
  str_in (snap_profile s) profiles && dt_ltb (snap_collected_at s) cutoff
  && is_none (snap_pinned_at s).

(** Of the same device and profile, and newer in the order
    [collected_at DESC, id DESC]. *)
Definition newer_sibling (x y : uuid * ContextSnapshot) : bool :=
  snapshots_of (snap_device_id x.2) (snap_profile x.2) y.1 y.2
  && negb (oldest_snapshot y x).

(** [row_number() OVER (PARTITION BY ... ORDER BY ...)] of [x] among [all]. *)
Definition position (all : list (uuid * ContextSnapshot)) (x : uuid * ContextSnapshot) : Z :=
  1 + Z.of_nat (length (List.filter (newer_sibling x) all)).

Definition candidates (limit : Z) (rows : list (uuid * ContextSnapshot))
    : list (uuid * ContextSnapshot) :=
  take (Z.to_nat (limit * 4)) (order_by oldest_snapshot rows).

(** [session.delete(snapshot)] with its cascades *)
Definition delete_snapshot (snapshot_id : uuid) : Tx unit :=
  delete_row (R := ContextSnapshot) snapshot_id ;;
  diffs ← select (λ _ d, (dif_before_snapshot_id d =? snapshot_id)
                         || (dif_after_snapshot_id d =? snapshot_id));
  for_each diffs (λ d, delete_row (R := ContextDiff) d.1) ;;
  pointers ← select (λ _ c, cur_snapshot_id c =? snapshot_id);
  for_each pointers (λ c, delete_row (R := ContextCurrent) c.1) ;;
  findings ← select (λ _ f, fnd_snapshot_id f =? snapshot_id);
  for_each findings (λ f, delete_row (R := ContextFinding) f.1).

(** The snapshot before [current], in the order of collection. *)
Definition previous_snapshot (current_id : uuid) (current : ContextSnapshot) (device_id : uuid)
    (profile : string) : Tx (option uuid) :=
  older ← select (λ id s, snapshots_of device_id profile id s
                          && negb (oldest_snapshot (current_id, current) (id, s)));
  mret (fst <$> head (order_by newest_snapshot older)).

(** Whether the loop keeps the candidate ([continue]) once it is known to be
    stored and not pinned. *)
Definition keep_snapshot (when_ : datetime) (snapshot_id : uuid) (snapshot : ContextSnapshot)
    (device_id : uuid) (profile : string) (current : option (uuid * ContextCurrent)) : Tx bool :=
  let is_current :=
    match current with Some (_, c) => cur_snapshot_id c =? snapshot_id | None => false end in
  if is_current && negb (bool_decide (profile = "diagnostic_v1")) then mret true
  else if str_in profile stable_profiles then
    match current with
    | None => mret false
    | Some (_, c) =>
        current_snapshot ← get (cur_snapshot_id c);
        match current_snapshot with
        | None => mret false
        | Some s =>
            previous_id ← previous_snapshot (cur_snapshot_id c) s device_id profile;
            mret (bool_decide (previous_id = Some snapshot_id))
        end
    end
  else
    ttl ← require (ttl_of profile) (KeyError profile);
    mret (dt_leb (dt_add when_ (- ttl)) (as_utc (snap_collected_at snapshot))).

(** The body of the loop: whether the candidate was deleted. *)
Definition retain_one (when_ : datetime) (candidate : uuid * ContextSnapshot) : Tx bool :=
  let '(snapshot_id, row) := candidate in
  let device_id := snap_device_id row in
  let profile := snap_profile row in
  snapshot ← get snapshot_id;
  match snapshot with
  | None => mret false
  | Some snapshot =>
      if is_some (snap_pinned_at snapshot) then mret false
      else
        current ← scalar (λ _ c, (cur_device_id c =? device_id)
                                 && bool_decide (cur_profile c = profile));
        keep ← keep_snapshot when_ snapshot_id snapshot device_id profile current;
        if keep : bool then mret false
        else
          match current with
          | Some (current_id, c) =>
              when (bool_decide (profile = "diagnostic_v1") && (cur_snapshot_id c =? snapshot_id))
                (delete_row (R := ContextCurrent) current_id ;; flush)
          | None => mret tt
          end ;;
          delete_snapshot snapshot_id ;;
          mret true
  end.

Fixpoint retain_loop (when_ : datetime) (limit : Z) (rows : list (uuid * ContextSnapshot))
    (deleted : Z) : Tx Z :=
  match rows with
  | [] => mret deleted
  | candidate :: rest =>
      gone ← retain_one when_ candidate;
      if gone : bool then
        if limit <=? deleted + 1 then mret (deleted + 1)
        else retain_loop when_ limit rest (deleted + 1)
      else retain_loop when_ limit rest deleted
  end.

Definition retain_context_snapshots (limit : Z) (now : option datetime) : Tx Z :=
  raise_if (negb ((1 <=? limit) && (limit <=? 100)))
    (ValueError "retention limit must be between 1 and 100") ;;
  now ← now_or now;
  let when_ := as_utc now in
  let cutoff := dt_add when_ (- hours 24) in
  hot_rows ← select (stale hot_profiles cutoff);
  stable ← select (λ _ s, str_in (snap_profile s) stable_profiles);
  let stable_rows :=
    List.filter (λ x, (2 <? position stable x) && is_none (snap_pinned_at x.2)) stable in
  diagnostic_rows ← select (stale ["diagnostic_v1"] cutoff);
  deleted ← retain_loop when_ limit
    (candidates limit hot_rows ++ candidates limit stable_rows ++ candidates limit diagnostic_rows) 0;
  flush ;;
  mret deleted.

Definition received_before (cutoff : datetime) (c : ContextCollection) : bool :=
  match col_result_received_at c with Some t => dt_ltb t cutoff | None => false end.

Definition received_order (a b : uuid * ContextCollection) : bool :=
  lex_leb (from_option instant 0 (col_result_received_at a.2), a.1)
          (from_option instant 0 (col_result_received_at b.2), b.1).

(** A snapshot with the receipt time of its collection. *)
Definition received_snapshot_order (a b : datetime * (uuid * ContextSnapshot)) : bool :=
  lex_leb (instant a.1, a.2.1) (instant b.1, b.2.1).

Definition cleanup_raw_context_payloads (now : option datetime) (limit : Z) : Tx (Z * Z) :=
  raise_if (negb ((1 <=? limit) && (limit <=? 1000)))
    (ValueError "cleanup limit must be between 1 and 1000") ;;
  now ← now_or now;
  let cutoff := dt_add (as_utc now) (- RAW_CONTEXT_TTL) in
  collections ← select (λ _ c, received_before cutoff c && is_some (col_raw_result_payload c));
  let collections := take (Z.to_nat limit) (order_by received_order collections) in
  for_each collections (λ c,
    update c.1 (λ c : ContextCollection, c <| col_raw_result_payload := None |>)) ;;
  received ← select (λ _ c, received_before cutoff c);
  with_payload ← select (λ _ s, is_some (snap_raw_payload s));
  let joined :=
    omap (λ s : uuid * ContextSnapshot,
      c ← List.find (λ c : uuid * ContextCollection, c.1 =? snap_collection_id s.2) received;
      t ← col_result_received_at c.2;
      Some (t, s)) with_payload in
  let snapshots := take (Z.to_nat limit) (order_by received_snapshot_order joined) in
  for_each snapshots (λ s,
    update s.2.1 (λ s : ContextSnapshot, s <| snap_raw_payload := None |>)) ;;
  flush ;;
  mret (Z.of_nat (length collections), Z.of_nat (length snapshots)).

(** Finished bookkeeping older than [cutoff], without an operation or a snapshot. *)
Definition removable (cutoff : datetime) (collections_with_snapshot : list uuid) (id : uuid)
    (c : ContextCollection) : bool :=
  str_in (col_requested_by c) ["scheduler"; "activity-sensor"]
  && in_set (col_status c) [c_completed; c_failed; c_expired]
  && dt_ltb (col_requested_at c) cutoff && is_none (col_operation_id c)
  && negb (bool_decide (id ∈ collections_with_snapshot)).

Definition requested_order (a b : uuid * ContextCollection) : bool :=
  lex_leb (instant (col_requested_at a.2), a.1) (instant (col_requested_at b.2), b.1).

Definition cleanup_context_collections (now : option datetime) (limit : Z) : Tx Z :=
  raise_if (negb ((1 <=? limit) && (limit <=? 1000)))
    (ValueError "cleanup limit must be between 1 and 1000") ;;
  now ← now_or now;
  let cutoff := dt_add (as_utc now) (- hours 24) in
  snapshots ← select (λ _ (_ : ContextSnapshot), true);
  rows ← select (removable cutoff (map (λ s : uuid * ContextSnapshot, snap_collection_id s.2) snapshots));
  let rows := take (Z.to_nat limit) (order_by requested_order rows) in
  for_each rows (λ c, delete_row (R := ContextCollection) c.1) ;;
  flush ;;
  mret (Z.of_nat (length rows)).
