(* ===== verification/RetentionSpecs.v ===== *)
(** * Context retention: what a run may delete

    A retention run deletes a bounded set of old, unpinned snapshots with
    everything that refers to them; never the current snapshot of a device,
    diagnostics apart, nor of inventories and baselines the one before it. *)

From S2P Require Import Prelude Store Session Frames Evidence Context Retention.

(** ** Deleting with the cascades *)

(** The tables without the snapshots [l] and what refers to them. *)
Definition without (l : list uuid) (d d' : DB) : Prop :=
  (∀ id, context_snapshots d' !! id
         = if bool_decide (id ∈ l) then None else context_snapshots d !! id)
  ∧ (∀ k, context_diffs d' !! k
          = x ← context_diffs d !! k;
            if bool_decide (dif_before_snapshot_id x ∈ l) || bool_decide (dif_after_snapshot_id x ∈ l)
            then None else Some x)
  ∧ (∀ k, context_current d' !! k
          = c ← context_current d !! k; if bool_decide (cur_snapshot_id c ∈ l) then None else Some c)
  ∧ (∀ k, context_findings d' !! k
          = f ← context_findings d !! k; if bool_decide (fnd_snapshot_id f ∈ l) then None else Some f).

Lemma without_nil d : without [] d d.
Proof.
  split; [done|]. split_and!; intros k; [by destruct (context_diffs d !! k)|by destruct (context_current d !! k)
    |by destruct (context_findings d !! k)].
Qed.

(** The rows that [l] lists are gone. *)
Lemma deleted_lookup {V} (P : uuid → V → bool) (m m' : gmap uuid V) (l : list (uuid * V)) :
  selected P m l → (∀ id, m' !! id = if bool_decide (id ∈ l.*1) then None else m !! id) →
  ∀ id, m' !! id = v ← m !! id; if P id v then None else Some v.
Proof.
  intros Hl Hm id. rewrite Hm. destruct (m !! id) as [v|] eqn:Hid; simpl; [|by case_bool_decide].
  by rewrite (selected_decide P m l id v).
Qed.

Lemma without_app l k d d1 d' : without l d d1 → without k d1 d' → without (l ++ k) d d'.
Proof.
  intros (S1 & D1 & C1 & F1) (S2 & D2 & C2 & F2).
  assert (∀ id : uuid, bool_decide (id ∈ l ++ k) = bool_decide (id ∈ l) || bool_decide (id ∈ k)) as E.
  { intros id. rewrite (bool_decide_ext (id ∈ l ++ k) (id ∈ l ∨ id ∈ k)) by apply elem_of_app.
    by rewrite bool_decide_or. }
  split_and!; intros id.
  - rewrite S2, S1, E. by destruct (bool_decide (id ∈ l)), (bool_decide (id ∈ k)).
  - rewrite D2, D1. destruct (context_diffs d !! id) as [x|]; simpl; [|done]. rewrite !E.
    by destruct (bool_decide (_ ∈ l)), (bool_decide (_ ∈ l)); simpl; rewrite ?orb_true_r; simpl.
  - rewrite C2, C1. destruct (context_current d !! id) as [c|]; simpl; [|done]. rewrite !E.
    by destruct (bool_decide (_ ∈ l)).
  - rewrite F2, F1. destruct (context_findings d !! id) as [f|]; simpl; [|done]. rewrite !E.
    by destruct (bool_decide (_ ∈ l)).
Qed.

Lemma bool_decide_one (x id : uuid) : bool_decide (x ∈ [id]) = (x =? id).
Proof.
  destruct (Z.eqb_spec x id) as [->|Hne]; [by apply bool_decide_true; left|].
  apply bool_decide_false. by intros ?%list_elem_of_singleton.
Qed.

Lemma delete_snapshot_spec id w :
  wp (delete_snapshot id) (λ r w', r = Ok tt ∧ without [id] (db w) (db w')
    ∧ seed w' = seed w ∧ committed w' = committed w) w.
Proof.
  unfold delete_snapshot. do 2 wp_step.
  apply wp_bind. eapply wp_mono; [apply delete_each_spec|]. intros r w1 (-> & m1 & -> & Hm1). wp_k.
  wp_step. apply wp_bind. eapply wp_mono; [apply delete_each_spec|]. intros r w2 (-> & m2 & -> & Hm2). wp_k.
  wp_step. eapply wp_mono; [apply delete_each_spec|]. intros r w3 (-> & m3 & -> & Hm3).
  split; [done|]. split; [|done]. simpl in *. split_and!; simpl.
  - intros j. destruct (decide (j = id)) as [->|Hne].
    + rewrite lookup_delete_eq, bool_decide_true; [done|by left].
    + rewrite lookup_delete_ne by done. rewrite bool_decide_false; [done|]. by intros ?%list_elem_of_singleton.
  - intros k. rewrite (deleted_lookup _ _ _ _ H0 Hm1). simpl.
    destruct (_ !! k) as [x|]; simpl; [|done].
    by rewrite !bool_decide_one.
  - intros k. rewrite (deleted_lookup _ _ _ _ H2 Hm2). simpl.
    destruct (_ !! k) as [c|]; simpl; [|done]. by rewrite bool_decide_one.
  - intros k. rewrite (deleted_lookup _ _ _ _ H4 Hm3). simpl.
    destruct (_ !! k) as [f|]; simpl; [|done]. by rewrite bool_decide_one.
Qed.

(** ** What may be deleted *)

(** The pointers of the current snapshots: one per device and profile, each to
    a snapshot of that device and profile. *)
Definition pointer_of (device : uuid) (profile : string) (c : ContextCurrent) : Prop :=
  cur_device_id c = device ∧ cur_profile c = profile.

Definition pointers_ok (d : DB) : Prop :=
  (∀ i j b c, context_current d !! i = Some b → context_current d !! j = Some c →
     cur_device_id b = cur_device_id c → cur_profile b = cur_profile c → i = j)
  ∧ ∀ i c, context_current d !! i = Some c → ∃ s,
      context_snapshots d !! cur_snapshot_id c = Some s
      ∧ pointer_of (snap_device_id s) (snap_profile s) c.

(** [x] was collected before [y]. *)
Definition collected_before (x y : uuid * ContextSnapshot) : Prop := oldest_snapshot y x = false.

(** [x] is the snapshot before the current one [y] of its device and profile. *)
Definition previous_of (d : DB) (x y : uuid * ContextSnapshot) : Prop :=
  let older z := snapshots_of (snap_device_id x.2) (snap_profile x.2) z.1 z.2 = true
                 ∧ collected_before z y in
  context_snapshots d !! x.1 = Some x.2 ∧ older x
  ∧ ∀ j t, context_snapshots d !! j = Some t → older (j, t) → newest_snapshot x (j, t) = true.

(** [x] may be deleted at [at_]: it is not pinned; it is not the current one
    unless it is a diagnostic; an inventory or baseline is not the one before
    the current one and has two newer siblings; another profile is older than a
    day. *)
Definition deletable (at_ : datetime) (d : DB) (x : uuid * ContextSnapshot) : Prop :=
  let s := x.2 in
  context_snapshots d !! x.1 = Some s ∧ snap_pinned_at s = None
  ∧ (∀ k c, context_current d !! k = Some c → pointer_of (snap_device_id s) (snap_profile s) c →
       snap_profile s ≠ "diagnostic_v1" → cur_snapshot_id c ≠ x.1)
  ∧ (if str_in (snap_profile s) stable_profiles
     then (∃ y z, y.1 ≠ z.1 ∧ newer_sibling x y = true ∧ newer_sibling x z = true
             ∧ context_snapshots d !! y.1 = Some y.2 ∧ context_snapshots d !! z.1 = Some z.2)
          ∧ ∀ k c y, context_current d !! k = Some c →
              pointer_of (snap_device_id s) (snap_profile s) c →
              context_snapshots d !! cur_snapshot_id c = Some y → ¬ previous_of d x (cur_snapshot_id c, y)
     else str_in (snap_profile s) ("diagnostic_v1" :: hot_profiles) = true
          ∧ instant (snap_collected_at s) + hours 24 < instant at_).

(** A candidate row as the queries select it. *)
Definition candidate_ok (at_ : datetime) (d : DB) (x : uuid * ContextSnapshot) : Prop :=
  let s := x.2 in
  context_snapshots d !! x.1 = Some s
  ∧ (if str_in (snap_profile s) stable_profiles
     then ∃ y z, y.1 ≠ z.1 ∧ newer_sibling x y = true ∧ newer_sibling x z = true
             ∧ context_snapshots d !! y.1 = Some y.2 ∧ context_snapshots d !! z.1 = Some z.2
     else str_in (snap_profile s) ("diagnostic_v1" :: hot_profiles) = true
          ∧ instant (snap_collected_at s) + hours 24 < instant at_).

(** The state of a run that has deleted [l] from [d]. *)
Definition retained (at_ : datetime) (l : list uuid) (w w' : World) : Prop :=
  without l (db w) (db w') ∧ NoDup l
  ∧ (∀ id, id ∈ l → ∃ s, deletable at_ (db w) (id, s))
  ∧ seed w' = seed w ∧ committed w' = committed w.

Lemma newest_snapshot_antisym x y :
  newest_snapshot x y = true → newest_snapshot y x = true → x.1 = y.1.
Proof. unfold newest_snapshot, lex_leb; simpl. lia. Qed.

Lemma previous_snapshot_spec cid cs device profile w :
  wp (previous_snapshot cid cs device profile) (λ r w', w' = w ∧
    match r with
    | Ok previous => ∀ x, snap_device_id x.2 = device → snap_profile x.2 = profile →
        previous_of (db w) x (cid, cs) → previous = Some x.1
    | Exn _ => True
    end) w.
Proof.
  unfold previous_snapshot. do 2 wp_step. split; [done|].
  intros x <- <- (Hx & [Hs Hb] & Hmax). unfold collected_before in Hb.
  assert (x ∈ order_by newest_snapshot l) as Hin.
  { rewrite elem_of_order_by. destruct x as [id s]. apply H0. split; [done|]. simpl in *. by rewrite Hs, Hb. }
  destruct (head (order_by newest_snapshot l)) as [y|] eqn:Eh; simpl.
  2: { destruct (order_by newest_snapshot l); [by apply elem_of_nil in Hin|done]. }
  f_equal. apply newest_snapshot_antisym.
  - eapply (order_by_head newest_snapshot l); [| |exact Eh|by rewrite elem_of_order_by in Hin].
    + intros a b c. unfold newest_snapshot. intros Hab Hbc. by eapply lex_leb_trans.
    + intros a b. apply lex_leb_total.
  - apply head_Some_elem_of in Eh. rewrite elem_of_order_by in Eh. destruct y as [j t].
    apply H0 in Eh as [Hj Ht]. apply andb_prop in Ht as [Ht Hn]. apply Hmax; [done|].
    split; [done|]. by apply negb_true_iff in Hn.
Qed.

(** Among the snapshots that are left, the candidate is still the one before
    the current one. *)
Lemma previous_of_without l d d' x y :
  without l d d' → x.1 ∉ l → previous_of d x y → previous_of d' x y.
Proof.
  intros (Hs & _) Hx (Hin & Ho & Hmax). split; [|split; [done|]].
  - by rewrite Hs, bool_decide_false.
  - intros j t Hj Ht. apply Hmax; [|done]. rewrite Hs in Hj. by case_bool_decide.
Qed.

Lemma stable_not_diagnostic profile : str_in profile stable_profiles = true → profile ≠ "diagnostic_v1".
Proof. intros Hs ->. done. Qed.

(** The current snapshots of other profiles than diagnostics stay. *)
Lemma current_not_deleted at_ l w0 w k c :
  retained at_ l w0 w → pointers_ok (db w0) → context_current (db w0) !! k = Some c →
  cur_profile c ≠ "diagnostic_v1" → cur_snapshot_id c ∉ l.
Proof.
  intros (_ & _ & Hl & _) [_ Hmatch] Hk Hdiag Hin. destruct (Hl _ Hin) as (s & Hs & _ & Hcur & _).
  destruct (Hmatch _ _ Hk) as (s' & Hs' & Hp). simpl in *. assert (s' = s) as -> by congruence.
  destruct Hp as [Hd Hp]. by eapply Hcur; [exact Hk|split|congruence|].
Qed.

(** The pointer that a candidate's checks read is the stored one. *)
Definition pointer_read (w : World) (s : ContextSnapshot) (current : option (uuid * ContextCurrent))
    : Prop :=
  match current with
  | Some (k, c) => context_current (db w) !! k = Some c
      ∧ pointer_of (snap_device_id s) (snap_profile s) c
  | None => ∀ k c, context_current (db w) !! k = Some c →
      ¬ pointer_of (snap_device_id s) (snap_profile s) c
  end.

Lemma pointer_read_stored at_ l w0 w s current k c :
  pointers_ok (db w0) → retained at_ l w0 w → pointer_read w s current →
  context_current (db w0) !! k = Some c → pointer_of (snap_device_id s) (snap_profile s) c →
  cur_snapshot_id c ∉ l → ∃ k', current = Some (k', c).
Proof.
  intros [Huniq _] ((_ & _ & Hc & _) & _) Hcur Hk Hp Hcl.
  assert (context_current (db w) !! k = Some c) as Hk'.
  { rewrite Hc, Hk. simpl. by rewrite bool_decide_false. }
  destruct current as [[k' c']|]; [|by destruct (Hcur k c)]. destruct Hcur as [Hk0 Hp'].
  rewrite Hc in Hk0. apply bind_Some in Hk0 as (c0 & Hk0 & Hc0).
  case_bool_decide; [done|]. injection Hc0 as ->. destruct Hp as [? ?], Hp' as [? ?].
  assert (k' = k) as -> by (eapply Huniq; eauto; congruence). exists k. congruence.
Qed.

(** The candidate that the checks do not keep may be deleted. *)
Lemma keep_snapshot_spec at_ l w0 w id s current :
  pointers_ok (db w0) → retained at_ l w0 w → candidate_ok at_ (db w0) (id, s) → id ∉ l →
  snap_pinned_at s = None → pointer_read w s current →
  wp (keep_snapshot at_ id s (snap_device_id s) (snap_profile s) current) (λ r w', w' = w ∧
    match r with Ok false => deletable at_ (db w0) (id, s) | _ => True end) w.
Proof.
  intros Hok Hret [Hid Hcand] Hnotin Hpin Hcur. simpl in Hid, Hcand. unfold keep_snapshot.
  destruct (match current with Some (_, c) => cur_snapshot_id c =? id | None => false end
            && negb (bool_decide (snap_profile s = "diagnostic_v1"))) eqn:Ekeep; [by wp_step|].
  assert (∀ k c, context_current (db w0) !! k = Some c → pointer_of (snap_device_id s) (snap_profile s) c →
    snap_profile s ≠ "diagnostic_v1" → cur_snapshot_id c ≠ id) as Hncur.
  { intros k c Hk Hp Hdiag <-.
    destruct (pointer_read_stored _ _ _ _ _ _ k c Hok Hret Hcur Hk Hp Hnotin) as [k' ->].
    rewrite Z.eqb_refl, bool_decide_false in Ekeep by done. done. }
  destruct (str_in (snap_profile s) stable_profiles) eqn:Estable.
  2: { wp_step. wp_step. split; [done|]. destruct (dt_leb _ _); [done|]. split_and!; try done.
       simpl. by rewrite Estable. }
  assert (∀ k c, context_current (db w0) !! k = Some c → pointer_of (snap_device_id s) (snap_profile s) c →
    cur_snapshot_id c ∉ l ∧ ∃ k', current = Some (k', c)) as Hthe.
  { intros k c Hk [Hd Hp]. assert (cur_snapshot_id c ∉ l) as Hcl.
    { eapply current_not_deleted; eauto. rewrite Hp. by apply stable_not_diagnostic. }
    split; [done|]. by eapply (pointer_read_stored _ _ _ _ s). }
  assert ((∀ k c y, context_current (db w0) !! k = Some c →
      pointer_of (snap_device_id s) (snap_profile s) c →
      context_snapshots (db w0) !! cur_snapshot_id c = Some y →
      ¬ previous_of (db w0) (id, s) (cur_snapshot_id c, y)) → deletable at_ (db w0) (id, s)) as Hdel.
  { intros Hprev. split_and!; try done. simpl. by rewrite Estable. }
  destruct current as [[k c]|].
  - destruct Hcur as [Hk Hp]. destruct Hret as (Hwo & _). pose proof Hwo as (Hs & _ & Hc & _).
    rewrite Hc in Hk. apply bind_Some in Hk as (c0 & Hk & Hc0).
    destruct (bool_decide (cur_snapshot_id c0 ∈ l)) eqn:Ecl; [done|].
    apply bool_decide_eq_false in Ecl. injection Hc0 as ->. destruct Hok as [_ Hmatch]. destruct (Hmatch k c Hk) as (cs & Hcs & _).
    wp_step. assert (table (db w) !! cur_snapshot_id c = Some cs) as ->.
    { cbn. rewrite Hs, bool_decide_false by done. done. }
    apply wp_bind. eapply wp_mono; [apply previous_snapshot_spec|].
    intros [previous|e] w1 [-> Hprev]; wp_k; [|done]. wp_step. split; [done|].
    destruct (bool_decide (previous = Some id)) eqn:Hq; [done|]. apply bool_decide_eq_false in Hq. apply Hdel. intros k' c' y Hk' Hp' Hy Hpy.
    destruct (Hthe k' c' Hk' Hp') as [_ [? [= _ <-]]]. assert (y = cs) as -> by congruence.
    apply Hq, (Hprev (id, s)); [done..|]. by eapply previous_of_without.
  - wp_step. split; [done|]. apply Hdel. intros k c y Hk Hp. by destruct (Hthe k c Hk Hp) as [_ [? ?]].
Qed.

(** A pointer that goes with its snapshot may be deleted first. *)
Lemma without_pointer l d d' k c :
  context_current d !! k = Some c → cur_snapshot_id c ∈ l →
  without l (d <| context_current := delete k (context_current d) |>) d' → without l d d'.
Proof.
  intros Hk Hc (H1 & H2 & H3 & H4). split_and!; [done..| |done]. intros j. rewrite H3. simpl.
  destruct (decide (j = k)) as [->|Hne].
  - rewrite lookup_delete_eq, Hk. simpl. by rewrite bool_decide_true.
  - by rewrite lookup_delete_ne.
Qed.

Lemma retained_deleted at_ l id s w0 w w1 :
  retained at_ l w0 w → id ∉ l → deletable at_ (db w0) (id, s) → without [id] (db w) (db w1) →
  seed w1 = seed w → committed w1 = committed w → retained at_ (l ++ [id]) w0 w1.
Proof.
  intros (Hwo & Hnd & Hl & Hs & Hc) Hid Hdel Hwo1 Hs1 Hc1. split_and!; [by eapply without_app| | |congruence..].
  - apply NoDup_app. split_and!; [done| |apply NoDup_singleton]. by intros j Hj ->%list_elem_of_singleton.
  - intros j [Hj| ->%list_elem_of_singleton]%elem_of_app; [by apply Hl|by exists s].
Qed.

(** The deletion of a candidate, its pointer first when it is a diagnostic. *)
Lemma delete_candidate_spec id (current : option (uuid * ContextCurrent)) (b : bool) w :
  match current with Some (k, c) => context_current (db w) !! k = Some c | None => True end →
  wp (match current with
      | Some (k, c) => when (b && (cur_snapshot_id c =? id)) (delete_row (R := ContextCurrent) k ;; flush)
      | None => mret tt
      end ;;
      delete_snapshot id ;;
      mret true) (λ r w', match r with
        | Ok gone => gone = true ∧ without [id] (db w) (db w') ∧ seed w' = seed w
                     ∧ committed w' = committed w
        | Exn _ => True
        end) w.
Proof.
  intros Hcur. apply wp_bind.
  eapply (wp_mono _ (λ r w', (∀ d', without [id] (db w') d' → without [id] (db w) d')
    ∧ seed w' = seed w ∧ committed w' = committed w)).
  - destruct current as [[k c]|]; [|by wp_step]. wp_step. propify. wp_step.
    assert (∀ w', db w' = db w <| context_current := delete k (context_current (db w)) |> →
      seed w' = seed w → committed w' = committed w →
      (∀ d', without [id] (db w') d' → without [id] (db w) d')
      ∧ seed w' = seed w ∧ committed w' = committed w) as Hdone.
    { intros w' Hw Hs Hc. split; [|done]. intros d'. rewrite Hw. apply (without_pointer _ _ _ k c); [done|].
      subst. by left. }
    wp_step; by apply Hdone.
  - intros [[]|e] w1 (Hwo & Hs & Hc); wp_k; [|done]. apply wp_bind.
    eapply wp_mono; [apply delete_snapshot_spec|]. intros r w2 (-> & H2 & Hs2 & Hc2). wp_k. wp_step.
    split_and!; [done|by apply Hwo|congruence..].
Qed.

Lemma retain_one_spec at_ l w0 w id s :
  pointers_ok (db w0) → retained at_ l w0 w → candidate_ok at_ (db w0) (id, s) →
  wp (retain_one at_ (id, s)) (λ r w',
    match r with
    | Ok gone => retained at_ (if gone : bool then l ++ [id] else l) w0 w'
    | Exn _ => True
    end) w.
Proof.
  intros Hok Hret Hcand. unfold retain_one. wp_step. pose proof Hcand as [Hid _]. simpl in Hid.
  pose proof Hret as ((Hs & _) & _). cbn. rewrite Hs. case_bool_decide as Hnotin; [by wp_step|]. rewrite Hid.
  destruct (snap_pinned_at s) eqn:Hpin; simpl; [by wp_step|].
  apply wp_bind. eapply (wp_mono _ (λ r w', w' = w ∧
    match r with Ok current => pointer_read w s current | Exn _ => False end)).
  { wp_step; (split; [done|]).
    - propify. done.
    - intros k c Hk [Hp1 Hp2]. specialize (H k c Hk).
      by rewrite Hp1, Hp2, Z.eqb_refl, bool_decide_true in H. }
  intros [current|e] w1 [-> Hcur]; wp_k; [|done].
  apply wp_bind. eapply wp_mono; [by eapply keep_snapshot_spec|].
  intros [[]|e] w1 [-> Hdel]; wp_k; [by wp_step| |done].
  eapply wp_mono; [apply delete_candidate_spec; by destruct current as [[k c]|]; [apply Hcur|]|].
  intros [gone|e] w1; [|done]. intros (-> & Hwo1 & Hs1 & Hc1). by eapply retained_deleted.
Qed.

Lemma retain_loop_spec at_ limit rows l w0 w :
  pointers_ok (db w0) → retained at_ l w0 w → Z.of_nat (length l) < limit →
  (∀ x, x ∈ rows → candidate_ok at_ (db w0) x) →
  wp (retain_loop at_ limit rows (Z.of_nat (length l))) (λ r w',
    match r with
    | Ok n => ∃ l', retained at_ l' w0 w' ∧ n = Z.of_nat (length l') ∧ n <= limit
    | Exn _ => True
    end) w.
Proof.
  intros Hok. revert l w. induction rows as [|[id s] rows IH]; intros l w Hret Hlen Hrows; simpl.
  { wp_step. exists l. split_and!; [done..|lia]. }
  apply wp_bind. eapply wp_mono; [apply (retain_one_spec at_ l w0); [done|done|apply Hrows; left]|].
  intros [[]|e] w1; wp_k; [| |done]; intros Hret1.
  - assert (Z.of_nat (length l) + 1 = Z.of_nat (length (l ++ [id]))) as E by (rewrite length_app; simpl; lia).
    rewrite E. destruct (limit <=? _) eqn:El.
    + wp_step. exists (l ++ [id]). split_and!; [done..|lia].
    + apply IH; [done|lia|]. intros x Hx. apply Hrows. by right.
  - apply IH; [done..|]. intros x Hx. apply Hrows. by right.
Qed.

(** ** The candidates *)

Lemma stale_candidate profiles at_ d id s :
  context_snapshots d !! id = Some s → stale profiles (dt_add at_ (- hours 24)) id s = true →
  (∀ p, str_in p profiles = true → str_in p ("diagnostic_v1" :: hot_profiles) = true
                                    ∧ str_in p stable_profiles = false) →
  candidate_ok at_ d (id, s).
Proof.
  intros Hid Hs Hp. unfold stale in Hs. split; [done|]. simpl.
  apply andb_prop in Hs as [Hs _]. apply andb_prop in Hs as [Hs Ht].
  destruct (Hp _ Hs) as [Hp1 Hp2]. rewrite Hp2. split; [done|].
  unfold dt_ltb in Ht. rewrite instant_dt_add in Ht. lia.
Qed.

Lemma position_candidate at_ d id s (stable : list (uuid * ContextSnapshot)) :
  NoDup stable.*1 → selected (λ _ s, str_in (snap_profile s) stable_profiles) (context_snapshots d) stable →
  (id, s) ∈ stable → 2 < position stable (id, s) → candidate_ok at_ d (id, s).
Proof.
  intros Hnd Hsel Hin Hpos. unfold position in Hpos. apply Hsel in Hin as [Hid Hst].
  split; [done|]. simpl. rewrite Hst.
  assert (∀ y, y ∈ List.filter (newer_sibling (id, s)) stable →
    newer_sibling (id, s) y = true ∧ context_snapshots d !! y.1 = Some y.2) as Hf.
  { intros [j t] Hy%elem_of_filter_bool. destruct Hy as [Hy Hn]. split; [done|]. by apply Hsel. }
  assert (NoDup (List.filter (newer_sibling (id, s)) stable).*1) as Hnd' by by apply NoDup_filter_bool.
  destruct (List.filter _ stable) as [|y [|z rest]]; simpl in Hpos; [lia|lia|].
  exists y, z. destruct (Hf y) as [? ?]; [left|]. destruct (Hf z) as [? ?]; [right; left|].
  split_and!; try done. rewrite !fmap_cons in Hnd'. apply NoDup_cons in Hnd' as [Hyz _].
  intros E. apply Hyz. rewrite E. left.
Qed.

Lemma hot_not_stable p :
  str_in p hot_profiles = true →
  str_in p ("diagnostic_v1" :: hot_profiles) = true ∧ str_in p stable_profiles = false.
Proof.
  unfold str_in at 1. intros Hp%bool_decide_eq_true. cbn in Hp.
  by repeat (apply elem_of_cons in Hp as [->|Hp]; [done|]); apply elem_of_nil in Hp.
Qed.

Lemma diagnostic_not_stable p :
  str_in p ["diagnostic_v1"] = true →
  str_in p ("diagnostic_v1" :: hot_profiles) = true ∧ str_in p stable_profiles = false.
Proof.
  unfold str_in at 1. intros Hp%bool_decide_eq_true. cbn in Hp.
  by repeat (apply elem_of_cons in Hp as [->|Hp]; [done|]); apply elem_of_nil in Hp.
Qed.

Lemma candidates_elem limit rows x : x ∈ candidates limit rows → x ∈ rows.
Proof. intros Hx%subseteq_take. by rewrite elem_of_order_by in Hx. Qed.

(** C12: a retention run deletes at most [limit] snapshots (one to a hundred)
    and returns how many.  Each was unpinned; none was the current snapshot of
    its device and profile, expired diagnostics apart; of the inventories and
    baselines none was the one before the current one, and each had two newer
    siblings; every other one had been collected more than a day before.  What
    goes with them is exactly the diffs from or to them, the pointers to them and
    their findings; every other snapshot, diff, pointer and finding stays as it
    was. *)
Theorem retention_keeps_pinned_and_current limit now w :
  pointers_ok (db w) →
  wp (retain_context_snapshots limit now) (λ r w',
    match r with
    | Ok n => ∃ at_ l,
        1 <= limit <= 100 ∧ (∀ t, now = Some t → at_ = as_utc t)
        ∧ n = Z.of_nat (length l) ∧ n <= limit ∧ NoDup l
        ∧ (∀ id, id ∈ l → ∃ s, deletable at_ (db w) (id, s))
        ∧ without l (db w) (db w') ∧ committed w' = committed w
    | Exn _ => True
    end) w.
Proof.
  intros Hok. unfold retain_context_snapshots. wp_step.
  apply wp_bind. eapply (wp_mono _ (λ r w1, db w1 = db w ∧ committed w1 = committed w ∧
    match r with Ok t => ∀ t', now = Some t' → t = t' | Exn _ => True end)).
  { unfold now_or. destruct now; wp_step; split_and!; try done. by intros ? [= ->]. }
  intros [t|e] w1 (D1 & F1 & Hnow); wp_k; [|done].
  wp_step. wp_step. wp_step. rewrite D1 in *. set (at_ := as_utc t) in *. cbv zeta.
  apply wp_bind. eapply wp_mono; [apply (retain_loop_spec at_ limit _ [] w1 w1)|].
  - by rewrite D1.
  - split_and!; [by apply without_nil|constructor|by intros ? ?%not_elem_of_nil|done..].
  - simpl. propify. lia.
  - intros [id s]. rewrite D1, !elem_of_app. intros [Hx|[Hx|Hx]]; apply candidates_elem in Hx.
    + apply H1 in Hx as [Hid Hs]. eapply stale_candidate; [done|exact Hs|].
      by apply hot_not_stable.
    + apply elem_of_filter_bool in Hx as [Hx Hpos]. apply andb_prop in Hpos as [Hpos _].
      eapply (position_candidate _ _ _ _ l0); [done..|]. lia.
    + apply H5 in Hx as [Hid Hs]. eapply stale_candidate; [done|exact Hs|].
      by apply diagnostic_not_stable.
  - intros [n|e] w2; wp_k; [|done]. intros (l' & (Hwo & Hnd & Hl & _ & Hc) & -> & Hlen). do 2 wp_step.
    rewrite D1 in *. exists at_, l'. split_and!; try done; [by propify|by propify| |congruence].
    intros t' Ht'. unfold at_. f_equal. by apply Hnow.
Qed.

(** ** Runs *)

Definition demo_snapshot (collection device : uuid) (profile : string) (collected : datetime)
    : ContextSnapshot := {|
  snap_collection_id := collection; snap_device_id := device; snap_profile := profile;
  snap_collected_at := collected; snap_pinned_at := None; snap_semantic_hash := None;
  snap_raw_payload := None; snap_normalized_projection := JNull |}.

Definition demo_pointer (device : uuid) (profile : string) (snapshot : uuid) : ContextCurrent := {|
  cur_device_id := device; cur_profile := profile; cur_snapshot_id := snapshot;
  cur_updated_at := utc_datetime 0; cur_last_observed_at := None |}.

Definition retention_world (d : DB) : World :=
  {| committed := d; db := d; seed := 100; clock := λ n, Z.of_nat n; ticks := 0 |}.

(** Three baselines of one device, the newest of them current. *)
Definition three_baselines : DB := empty_db
  <| context_snapshots := {[ 10 := demo_snapshot 30 1 "baseline_v1" (utc_datetime (days 0));
                             11 := demo_snapshot 31 1 "baseline_v1" (utc_datetime (days 1));
                             12 := demo_snapshot 32 1 "baseline_v1" (utc_datetime (days 2)) ]} |>
  <| context_current := {[ 20 := demo_pointer 1 "baseline_v1" 12 ]} |>.

Definition baseline_run : res Z * World :=
  retain_context_snapshots 10 (Some (utc_datetime (days 5))) (retention_world three_baselines).

Lemma retention_keeps_pinned_and_current_witness :
  baseline_run.1 = Ok 1 ∧ context_snapshots (db baseline_run.2) !! 10 = None
  ∧ ∃ l, without l three_baselines (db baseline_run.2).
Proof.
  split; [vm_compute; reflexivity|]. split; [vm_compute; reflexivity|].
  assert (pointers_ok (db (retention_world three_baselines))) as Hok.
  { split; change (context_current (db (retention_world three_baselines)))
      with ({[ 20 := demo_pointer 1 "baseline_v1" 12 ]} : gmap uuid ContextCurrent).
    - intros i j b c [<- _]%lookup_singleton_Some [<- _]%lookup_singleton_Some. done.
    - intros i c [<- <-]%lookup_singleton_Some.
      exists (demo_snapshot 32 1 "baseline_v1" (utc_datetime (days 2))). by split. }
  pose proof (retention_keeps_pinned_and_current 10 (Some (utc_datetime (days 5)))
    (retention_world three_baselines) Hok) as Hrun.
  rewrite wp_unfold in Hrun. fold baseline_run in Hrun.
  assert (baseline_run.1 = Ok 1) as E by (vm_compute; reflexivity). rewrite E in Hrun.
  destruct Hrun as (at_ & l & Hrun). exists l. apply Hrun.
Defined.

(** Four devices have been away for days, so their last health snapshots are
    current and old; a fifth has an older snapshot behind its current one. *)
Definition fleet_with_absent_devices : DB := empty_db
  <| context_snapshots :=
       {[ 11 := demo_snapshot 31 1 "health_v1" (utc_datetime (days 0));
          12 := demo_snapshot 32 2 "health_v1" (utc_datetime (days 0));
          13 := demo_snapshot 33 3 "health_v1" (utc_datetime (days 0));
          14 := demo_snapshot 34 4 "health_v1" (utc_datetime (days 0));
          15 := demo_snapshot 35 5 "health_v1" (utc_datetime (days 1));
          16 := demo_snapshot 36 5 "health_v1" (utc_datetime (days 5)) ]} |>
  <| context_current :=
       {[ 21 := demo_pointer 1 "health_v1" 11; 22 := demo_pointer 2 "health_v1" 12;
          23 := demo_pointer 3 "health_v1" 13; 24 := demo_pointer 4 "health_v1" 14;
          25 := demo_pointer 5 "health_v1" 16 ]} |>.

(** The queries read [4 * limit] candidates before the current ones are passed
    over, so the current snapshots of absent devices, always the oldest, can
    fill the batch: the run deletes nothing, and nor does any later one, though
    a snapshot may be deleted. *)
Example absent_devices_stop_retention :
  (retain_context_snapshots 1 (Some (utc_datetime (days 5))) (retention_world fleet_with_absent_devices)).1
    = Ok 0
  ∧ deletable (utc_datetime (days 5)) fleet_with_absent_devices
      (15, demo_snapshot 35 5 "health_v1" (utc_datetime (days 1))).
Proof.
  split; [vm_compute; reflexivity|]. split_and!; [done|done| |by split].
  intros k c Hk [Hd _] _ Hid. unfold fleet_with_absent_devices in Hk. simpl in Hd, Hid.
  change (context_current _) with
    ({[ 21 := demo_pointer 1 "health_v1" 11; 22 := demo_pointer 2 "health_v1" 12;
        23 := demo_pointer 3 "health_v1" 13; 24 := demo_pointer 4 "health_v1" 14;
        25 := demo_pointer 5 "health_v1" 16 ]} : gmap uuid ContextCurrent) in Hk.
  repeat (apply lookup_insert_Some in Hk as [[_ <-]|[_ Hk]]; [done|]).
  apply lookup_singleton_Some in Hk as [_ <-]. done.
Qed.

(** ** Payloads and bookkeeping *)

Lemma received_order_trans a b c :
  received_order a b = true → received_order b c = true → received_order a c = true.
Proof. apply lex_leb_trans. Qed.
Lemma received_order_total a b : received_order a b = true ∨ received_order b a = true.
Proof. apply lex_leb_total. Qed.

Definition received_instant (x : uuid * ContextCollection) : Z :=
  from_option instant 0 (col_result_received_at x.2).

Definition drop_raw_result (c : ContextCollection) : ContextCollection :=
  c <| col_raw_result_payload := None |>.
Definition drop_raw_payload (s : ContextSnapshot) : ContextSnapshot := s <| snap_raw_payload := None |>.

(** The raw payload of a snapshot whose collection was answered before [cutoff]. *)
Definition outlived (cutoff : datetime) (d : DB) (_ : uuid) (s : ContextSnapshot) : Prop :=
  is_some (snap_raw_payload s) = true ∧ ∃ c, context_collections d !! snap_collection_id s = Some c
    ∧ received_before cutoff c = true.

Lemma take_order_NoDup {A B} (f : A → B) n leb (l : list A) :
  NoDup (f <$> l) → NoDup (f <$> take n (order_by leb l)).
Proof.
  intros Hnd. rewrite fmap_take. eapply sublist_NoDup; [|apply sublist_take].
  by rewrite order_by_Permutation.
Qed.

Lemma for_each_fmap {S A B} (f : A → B) (l : list A) (body : B → M S unit) :
  for_each (f <$> l) body = for_each l (λ x, body (f x)).
Proof. induction l as [|x l IH]; simpl; [done|]. by rewrite <- IH. Qed.

(** The snapshots with the receipt time of their collection. *)
Definition with_receipt (received : list (uuid * ContextCollection)) (s : uuid * ContextSnapshot)
    : option (datetime * (uuid * ContextSnapshot)) :=
  c ← List.find (λ c : uuid * ContextCollection, c.1 =? snap_collection_id s.2) received;
  t ← col_result_received_at c.2;
  Some (t, s).

Lemma with_receipt_sublist received (l : list (uuid * ContextSnapshot)) : (omap (with_receipt received) l).*2 `sublist_of` l.
Proof.
  induction l as [|s l IH]; simpl; [done|]. unfold with_receipt at 1.
  destruct (List.find _ _) as [c|]; simpl; [|by apply sublist_cons].
  destruct (col_result_received_at c.2); simpl; [by apply sublist_skip|by apply sublist_cons].
Qed.

Lemma with_receipt_elem received (l : list (uuid * ContextSnapshot)) t s :
  (t, s) ∈ omap (with_receipt received) l → s ∈ l ∧ ∃ c, (snap_collection_id s.2, c) ∈ received.
Proof.
  intros (s' & Hs & Hr)%list_elem_of_omap. unfold with_receipt in Hr.
  destruct (List.find _ _) as [[id c]|] eqn:Ef; simpl in Hr; [|done].
  destruct (col_result_received_at c); simpl in Hr; [|done]. injection Hr as -> ->.
  apply find_some in Ef as [Hin%list_elem_of_In Hid]. simpl in Hid.
  apply Z.eqb_eq in Hid as ->. eauto.
Qed.

(** A cleanup drops the raw results of a batch of at most [limit] (one to a
    thousand) collections answered more than an hour before, earliest answers
    first, and the raw payloads of at most [limit] snapshots of such
    collections, and reports both numbers.  Nothing else of a collection or a
    snapshot changes: normalized projections and hashes stay. *)
Theorem only_outlived_raw_payloads_are_dropped now limit w :
  wp (cleanup_raw_context_payloads now limit) (λ r w',
    match r with
    | Ok (n, k) => ∃ at_ l m,
        let cutoff := dt_add at_ (- RAW_CONTEXT_TTL) in
        1 <= limit <= 1000 ∧ n = Z.of_nat (length l) ∧ k = Z.of_nat (length m)
        ∧ batch (λ _ c, received_before cutoff c && is_some (col_raw_result_payload c))
            received_instant limit (context_collections (db w)) l
        ∧ updated drop_raw_result l (context_collections (db w)) (context_collections (db w'))
        ∧ k <= limit ∧ NoDup m.*1
        ∧ (∀ id s, (id, s) ∈ m → context_snapshots (db w) !! id = Some s ∧ outlived cutoff (db w) id s)
        ∧ updated drop_raw_payload m (context_snapshots (db w)) (context_snapshots (db w'))
        ∧ committed w' = committed w
    | Exn _ => True
    end) w.
Proof.
  unfold cleanup_raw_context_payloads. wp_step.
  apply wp_bind. eapply (wp_mono _ (λ r w1, db w1 = db w ∧ committed w1 = committed w)).
  { unfold now_or. destruct now; by wp_step. }
  intros [t|e] w1 [D1 F1]; wp_k; [|done]. set (cutoff := dt_add (as_utc t) (- RAW_CONTEXT_TTL)).
  cbv zeta. wp_step. set (cs := take (Z.to_nat limit) (order_by received_order l)).
  apply wp_bind. eapply wp_mono; [apply (update_each_spec drop_raw_result cs); by apply take_order_NoDup|].
  intros r w2 (-> & m2 & -> & Hm2). wp_k. do 2 wp_step.
  match goal with |- context [order_by received_snapshot_order ?J] => set (joined := J) end.
  set (ss := take (Z.to_nat limit) (order_by received_snapshot_order joined)).
  assert (∀ x, x ∈ ss → x ∈ joined) as Hss.
  { intros x Hx%subseteq_take. by rewrite elem_of_order_by in Hx. }
  change joined with (omap (with_receipt l0) l1) in *.
  assert (NoDup (ss.*2).*1) as Hnd.
  { unfold ss. rewrite !fmap_take. eapply sublist_NoDup; [|apply sublist_take].
    rewrite order_by_Permutation. eapply sublist_NoDup; [|apply fmap_sublist, with_receipt_sublist]. done. }
  apply wp_bind. rewrite <- (for_each_fmap snd ss (λ x, update x.1 drop_raw_payload)).
  eapply wp_mono; [by apply (update_each_spec drop_raw_payload)|].
  intros r w3 (-> & m3 & -> & Hm3). wp_k. do 2 wp_step. rewrite D1 in *.
  exists (as_utc t), cs, (ss.*2). propify. split_and!; try done.
  - f_equal. symmetry. apply length_fmap.
  - apply batch_take; [lia|apply received_order_trans|apply received_order_total| |done|done].
    intros a b. unfold received_order, lex_leb, received_instant; simpl. lia.
  - unfold ss. rewrite length_take. lia.
  - intros id s ([t' s'] & E & Hin%Hss)%list_elem_of_fmap. simpl in E. subst s'.
    apply with_receipt_elem in Hin as [Hs [c Hc]]. simpl in *.
    apply H3 in Hc as [Hc Hrec]. apply H5 in Hs as [Hs Hraw]. cbn in Hs, Hc. rewrite D1 in Hs.
    split; [done|]. split; [done|]. rewrite Hm2 in Hc. apply fmap_Some in Hc as (c0 & Hc0 & ->).
    exists c0. split; [done|]. by case_bool_decide.
  - simpl in *. by rewrite D1 in Hm3.
Qed.

Definition requested_instant (x : uuid * ContextCollection) : Z := instant (col_requested_at x.2).

(** The removal of bookkeeping deletes a batch of at most [limit] (one to a
    thousand) collections, oldest requests first, and returns their number.
    Each was requested by the scheduler or the activity sensor more than a day
    before, is finished, belongs to no operation and has no snapshot left; every
    other collection and every snapshot stays. *)
Theorem only_finished_bookkeeping_is_removed now limit w :
  wp (cleanup_context_collections now limit) (λ r w',
    match r with
    | Ok n => ∃ at_ l snapshots,
        1 <= limit <= 1000 ∧ n = Z.of_nat (length l)
        ∧ (∀ id, id ∈ snapshots ↔ ∃ sid s, context_snapshots (db w) !! sid = Some s
             ∧ snap_collection_id s = id)
        ∧ batch (removable (dt_add at_ (- hours 24)) snapshots) requested_instant limit
            (context_collections (db w)) l
        ∧ (∀ id, context_collections (db w') !! id
                 = if bool_decide (id ∈ l.*1) then None else context_collections (db w) !! id)
        ∧ context_snapshots (db w') = context_snapshots (db w) ∧ committed w' = committed w
    | Exn _ => True
    end) w.
Proof.
  unfold cleanup_context_collections. wp_step.
  apply wp_bind. eapply (wp_mono _ (λ r w1, db w1 = db w ∧ committed w1 = committed w)).
  { unfold now_or. destruct now; by wp_step. }
  intros [t|e] w1 [D1 F1]; wp_k; [|done]. cbv zeta. do 2 wp_step. rewrite D1 in *.
  set (rows := take (Z.to_nat limit) (order_by requested_order l0)).
  apply wp_bind. eapply wp_mono; [apply delete_each_spec|].
  intros r w2 (-> & m2 & -> & Hm2). wp_k. do 2 wp_step. cbn in Hm2. rewrite D1 in Hm2.
  eexists (as_utc t), rows, _. split_and!; [by propify|by propify|done| | |exact Hm2| |done].
  2: { propify. apply batch_take; [lia|intros a b c; apply lex_leb_trans|intros a b; apply lex_leb_total|
         |done|exact H3]. intros a b. unfold requested_order, lex_leb, requested_instant; simpl. lia. }
  - intros id. rewrite list_elem_of_In, in_map_iff. split.
    + intros ([sid s] & <- & Hin%list_elem_of_In). apply H1 in Hin as [Hs _]. by exists sid, s.
    + intros (sid & s & Hs & <-). exists (sid, s). split; [done|]. apply list_elem_of_In, H1. done.
  - simpl. by rewrite D1.
Qed.
