(* ===== verification/Intervals.v ===== *)
(** * Activity intervals (endpoint_server/activity/analytics_math.py)

    The half-open interval algebra of the activity reports: a sweep over the end
    points of observed intervals that attributes every moment to one of the
    intervals that cover it.  Points are instants in microseconds; [start] and
    [end] are in UTC, as [day_bounds] returns them.  A heap of the standard
    library is a list in ascending order, of which the sweep reads the least
    item and removes it. *)

From S2P Require Import Prelude Store Session Contracts.

(** The columns of an ActivityInterval the sweep reads. *)
Record ActivityInterval := {
  act_device_id : uuid;
  act_started_at : datetime;
  act_ended_at : datetime;
  act_session_state : string;
  act_process_name : option string;
  act_application_category : option string
}.

Definition STATES : list string := ["ACTIVE"; "IDLE"; "LOCKED"; "DISCONNECTED"; "UNKNOWN"].

(** [_PRIORITY[state]] *)
Fixpoint position_of (state : string) (states : list string) (i : Z) : option Z :=
  match states with
  | [] => None
  | s :: rest => if bool_decide (s = state) then Some i else position_of state rest (i + 1)
  end.

Definition _PRIORITY (state : string) : option Z := position_of state STATES 0.

(** One dictionary of the result; [seconds] is kept as the difference of the
    two instants, in microseconds. *)
Record segment := {
  seg_started_at : Z;
  seg_ended_at : Z;
  seg_seconds : timedelta;
  seg_state : string;
  seg_process_name : option string;
  seg_application_category : option string;
  seg_device_id : string;
  seg_overlap : bool;
  seg_attributed : bool
}.

(** ** The events of the sweep *)

(** [(1, index, row)] and [(-1, index, row)] *)
Record event := { ev_direction : Z; ev_index : Z; ev_row : ActivityInterval }.

(** [events[point].append(event)] of a [defaultdict(list)] *)
Definition append_event (point : Z) (e : event) (events : gmap Z (list event)) : gmap Z (list event) :=
  <[point := default [] (events !! point) ++ [e]]> events.

(** The part of a row within the bounds. *)
Definition clip (start end_ : datetime) (row : ActivityInterval) : Z * Z :=
  (Z.max (instant start) (instant (act_started_at row)), Z.min (instant end_) (instant (act_ended_at row))).

Fixpoint collect_events (start end_ : datetime) (index : Z) (intervals : list ActivityInterval)
    (events : gmap Z (list event)) : gmap Z (list event) :=
  match intervals with
  | [] => events
  | row :: rest =>
      let '(left_, right_) := clip start end_ row in
      collect_events start end_ (index + 1) rest
        (if right_ <=? left_ then events
         else append_event right_ {| ev_direction := -1; ev_index := index; ev_row := row |}
                (append_event left_ {| ev_direction := 1; ev_index := index; ev_row := row |} events))
  end.

(** ** The heap of candidates *)

(** [(_PRIORITY[state], str(device_id), index)] *)
Definition item : Type := Z * string * Z.

(** Tuples compare by their first difference. *)
Definition item_leb (a b : item) : bool :=
  let '(p, d, i) := a in let '(q, e, j) := b in
  (p <? q) || (p =? q) && (negb (str_leb e d) || bool_decide (d = e) && (i <=? j)).

Fixpoint heappush (x : item) (heap : list item) : list item :=
  match heap with
  | [] => [x]
  | y :: rest => if item_leb x y then x :: heap else y :: heappush x rest
  end.

(** [while heap and heap[0][-1] not in active: heappop(heap)] *)
Fixpoint drop_stale (active : gmap Z ActivityInterval) (heap : list item) : list item :=
  match heap with
  | [] => []
  | x :: rest => if is_some (active !! x.2) then heap else drop_stale active rest
  end.

(** ** The sweep *)

Record sweep := {
  sw_active : gmap Z ActivityInterval;
  sw_heap : list item;
  sw_result : list segment;
  sw_previous : option Z
}.

Definition no_sweep : sweep :=
  {| sw_active := ∅; sw_heap := []; sw_result := []; sw_previous := None |}.

Definition segment_of (previous point : Z) (winner : ActivityInterval) (overlap : bool) : segment := {|
  seg_started_at := previous; seg_ended_at := point; seg_seconds := point - previous;
  seg_state := act_session_state winner;
  seg_process_name := act_process_name winner;
  seg_application_category := act_application_category winner;
  seg_device_id := uuid_str (act_device_id winner);
  seg_overlap := overlap; seg_attributed := true |}.

(** One event of a point. *)
Definition apply_event (s : gmap Z ActivityInterval * list item) (e : event)
    : res (gmap Z ActivityInterval * list item) :=
  let '(active, heap) := s in
  let row := ev_row e in
  if ev_direction e =? -1 then Ok (delete (ev_index e) active, heap)
  else
    match _PRIORITY (act_session_state row) with
    | None => Exn (KeyError (act_session_state row))
    | Some priority =>
        Ok (<[ev_index e := row]> active,
            heappush (priority, uuid_str (act_device_id row), ev_index e) heap)
    end.

Fixpoint apply_events (s : gmap Z ActivityInterval * list item) (l : list event)
    : res (gmap Z ActivityInterval * list item) :=
  match l with
  | [] => Ok s
  | e :: rest => match apply_event s e with Ok s' => apply_events s' rest | Exn x => Exn x end
  end.

(** The segment between the previous point and this one, if something is
    active; [heap[0]] of an empty heap is an IndexError. *)
Definition emit (point : Z) (s : sweep) : res sweep :=
  match sw_previous s with
  | Some previous =>
      if (previous <? point) && negb (bool_decide (sw_active s = ∅)) then
        let heap := drop_stale (sw_active s) (sw_heap s) in
        match x ← head heap; sw_active s !! x.2 with
        | None => Exn (IndexError "list index out of range")
        | Some winner =>
            Ok {| sw_active := sw_active s; sw_heap := heap;
                  sw_result := sw_result s
                    ++ [segment_of previous point winner (1 <? Z.of_nat (size (sw_active s)))];
                  sw_previous := sw_previous s |}
        end
      else Ok s
  | None => Ok s
  end.

Definition sweep_point (events : gmap Z (list event)) (point : Z) (s : sweep) : res sweep :=
  match emit point s with
  | Exn x => Exn x
  | Ok s =>
      match apply_events (sw_active s, sw_heap s) (default [] (events !! point)) with
      | Exn x => Exn x
      | Ok (active, heap) =>
          Ok {| sw_active := active; sw_heap := heap; sw_result := sw_result s;
                sw_previous := Some point |}
      end
  end.

Fixpoint sweep_points (events : gmap Z (list event)) (points : list Z) (s : sweep) : res sweep :=
  match points with
  | [] => Ok s
  | point :: rest =>
      match sweep_point events point s with
      | Exn x => Exn x
      | Ok s => sweep_points events rest s
      end
  end.

Definition merged_segments (intervals : list ActivityInterval) (start end_ : datetime)
    : res (list segment) :=
  let events := collect_events start end_ 0 intervals ∅ in
  let points := order_by Z.leb (map_to_list events).*1 in
  match sweep_points events points no_sweep with
  | Exn x => Exn x
  | Ok s => Ok (sw_result s)
  end.
