(* ===== verification/IntervalsFacts.v ===== *)
(** * Activity intervals: every moment is attributed once

    The sweep over end points, with its heap of candidates and their lazy
    removal, computes what a declarative reading of the rows says: between two
    neighbouring end points the least of the covering rows, by state, device and
    position, has the time. *)

From S2P Require Import Prelude Store Session Contracts SemverFacts Intervals.

(** ** The order of candidates *)

(** Two candidates by their first difference. *)
Lemma item_leb_spec (a b : item) :
  item_leb a b = true ↔
  a.1.1 < b.1.1 ∨ a.1.1 = b.1.1 ∧ (str_leb b.1.2 a.1.2 = false ∨ a.1.2 = b.1.2 ∧ a.2 <= b.2).
Proof.
  destruct a as [[p d] i], b as [[q e] j]; simpl.
  destruct (str_leb e d); simpl; rewrite orb_true_iff, andb_true_iff, Z.ltb_lt, Z.eqb_eq.
  - rewrite andb_true_iff, bool_decide_eq_true, Z.leb_le. intuition congruence.
  - intuition.
Qed.

Lemma item_leb_total a b : item_leb a b = true ∨ item_leb b a = true.
Proof.
  rewrite !item_leb_spec. destruct (Z.lt_trichotomy a.1.1 b.1.1) as [|[]]; [by left; left| |by right; left].
  destruct (str_leb b.1.2 a.1.2) eqn:E1; [|by left; right; auto].
  destruct (str_leb a.1.2 b.1.2) eqn:E2; [|by right; right; auto].
  assert (a.1.2 = b.1.2) as E by by apply str_leb_antisym.
  destruct (Z.le_gt_cases a.2 b.2); [left|right]; right; (split; [done|right]); split; auto; lia.
Qed.

Lemma item_leb_trans a b c : item_leb a b = true → item_leb b c = true → item_leb a c = true.
Proof.
  rewrite !item_leb_spec. intros [?|[? Hab]] [?|[? Hbc]]; [left; lia..|].
  right. split; [lia|].
  assert (∀ x y z, str_leb y x = false → str_leb z y = false → str_leb z x = false) as Hlt.
  { intros x y z Hxy Hyz. destruct (str_leb z x) eqn:E; [|done].
    destruct (str_leb_total y z) as [Hy|Hy]; [|congruence].
    assert (str_leb y x = true) by by eapply str_leb_trans. congruence. }
  destruct Hab as [Hab|[-> Hab]], Hbc as [Hbc|[<- Hbc]]; auto.
  - left. by eapply Hlt.
  - right. split; [done|lia].
Qed.

Lemma item_leb_antisym a b : item_leb a b = true → item_leb b a = true → a = b.
Proof.
  rewrite !item_leb_spec. destruct a as [[p d] i], b as [[q e] j]; simpl.
  intros [?|[-> Hab]] [?|[? Hba]]; [lia..|].
  destruct Hab as [Hab|[-> ?]], Hba as [Hba|[? ?]]; subst.
  - destruct (str_leb_total d e); congruence.
  - destruct (str_leb_total d d); congruence.
  - destruct (str_leb_total e e); congruence.
  - f_equal. lia.
Qed.

Lemma heappush_elem x y heap : y ∈ heappush x heap ↔ y = x ∨ y ∈ heap.
Proof.
  induction heap as [|z heap IH]; simpl; [by rewrite list_elem_of_singleton, elem_of_nil; intuition|].
  destruct (item_leb x z); rewrite !elem_of_cons; [done|]. rewrite IH. intuition.
Qed.

Notation heap_order := (StronglySorted (bool_rel item_leb)).

Lemma heappush_sorted x heap : heap_order heap → heap_order (heappush x heap).
Proof.
  induction heap as [|y heap IH]; simpl; intros Hs; [by repeat constructor|].
  apply StronglySorted_inv in Hs as [Hs Hy]. destruct (item_leb x y) eqn:E.
  - constructor; [by constructor|]. constructor; [done|]. eapply Forall_impl; [exact Hy|].
    intros z. by apply item_leb_trans.
  - constructor; [by apply IH|]. apply Forall_forall. intros z [->|Hz]%heappush_elem.
    + unfold bool_rel. destruct (item_leb_total x y); [congruence|done].
    + by eapply Forall_forall in Hy.
Qed.

(** ** Rows and their events *)

Section rows.
Context (start end_ : datetime).
#[local] Opaque clip.

(** The row covers the moments from its clipped start to its clipped end. *)
Definition covers (t : Z) (row : ActivityInterval) : bool :=
  let '(left_, right_) := clip start end_ row in (left_ <=? t) && (t <? right_).

(** Something of the row is left within the bounds. *)
Definition in_bounds (row : ActivityInterval) : bool :=
  let '(left_, right_) := clip start end_ row in left_ <? right_.

Fixpoint indexed (index : Z) (rows : list ActivityInterval) : list (Z * ActivityInterval) :=
  match rows with
  | [] => []
  | row :: rest => (index, row) :: indexed (index + 1) rest
  end.

Lemma indexed_ge index rows i row : (i, row) ∈ indexed index rows → index <= i.
Proof.
  revert index. induction rows as [|r rows IH]; intros index; simpl; [by intros ?%elem_of_nil|].
  intros [[= -> ->]|Hin]%elem_of_cons; [lia|]. apply IH in Hin. lia.
Qed.

Lemma indexed_NoDup index rows : NoDup (indexed index rows).*1.
Proof.
  revert index. induction rows as [|r rows IH]; intros index; simpl; [constructor|].
  constructor; [|apply IH]. intros ([i row] & Hi & Hin)%list_elem_of_fmap. simpl in Hi. subst i.
  apply indexed_ge in Hin. lia.
Qed.

Definition start_event (x : Z * ActivityInterval) : event :=
  {| ev_direction := 1; ev_index := x.1; ev_row := x.2 |}.
Definition end_event (x : Z * ActivityInterval) : event :=
  {| ev_direction := -1; ev_index := x.1; ev_row := x.2 |}.

(** The event of a row at a point. *)
Definition events_of (p : Z) (x : Z * ActivityInterval) : list event :=
  let '(left_, right_) := clip start end_ x.2 in
  if right_ <=? left_ then []
  else (if left_ =? p then [start_event x] else []) ++ (if right_ =? p then [end_event x] else []).

Lemma append_event_lookup q e acc p :
  default [] (append_event q e acc !! p) = default [] (acc !! p) ++ (if q =? p then [e] else []).
Proof.
  unfold append_event. destruct (Z.eqb_spec q p) as [->|Hne].
  - by rewrite lookup_insert_eq.
  - by rewrite lookup_insert_ne, app_nil_r.
Qed.

Lemma collect_events_lookup index rows acc p :
  default [] (collect_events start end_ index rows acc !! p)
  = default [] (acc !! p) ++ flat_map (events_of p) (indexed index rows).
Proof.
  revert index acc. induction rows as [|row rows IH]; intros index acc; simpl; [by rewrite app_nil_r|].
  unfold events_of at 1. simpl. destruct (clip start end_ row) as [left_ right_].
  rewrite IH. destruct (right_ <=? left_); simpl; [done|].
  by rewrite !append_event_lookup, <- !app_assoc.
Qed.

Lemma append_event_dom q e acc p :
  is_Some (append_event q e acc !! p) ↔ p = q ∨ is_Some (acc !! p).
Proof.
  unfold append_event. rewrite lookup_insert_is_Some. split; [intros [->|[_ ?]]; auto|].
  intros [->|?]; [by left|]. destruct (decide (q = p)); auto.
Qed.

(** The end points of the rows. *)
Definition end_point (rows : list (Z * ActivityInterval)) (p : Z) : Prop :=
  ∃ x, x ∈ rows ∧ in_bounds x.2 = true ∧ (p = (clip start end_ x.2).1 ∨ p = (clip start end_ x.2).2).

Lemma collect_events_dom index rows acc p :
  is_Some (collect_events start end_ index rows acc !! p)
  ↔ is_Some (acc !! p) ∨ end_point (indexed index rows) p.
Proof.
  revert index acc. induction rows as [|row rows IH]; intros index acc; simpl.
  { split; [by left|]. intros [?|(x & Hx & _)]; [done|]. by apply elem_of_nil in Hx. }
  assert (end_point ((index, row) :: indexed (index + 1) rows) p ↔
    (in_bounds row = true ∧ (p = (clip start end_ row).1 ∨ p = (clip start end_ row).2))
    ∨ end_point (indexed (index + 1) rows) p) as ->.
  { unfold end_point. split.
    - intros (x & [->|Hx]%elem_of_cons & Hb & Hp); [by left|right; eauto].
    - intros [[Hb Hp]|(x & Hx & Hp)]; [exists (index, row)|exists x]; (split; [|done]);
        by rewrite elem_of_cons; auto. }
  unfold in_bounds at 1. destruct (clip start end_ row) as [left_ right_]. rewrite IH. simpl.
  rewrite Z.ltb_lt. destruct (Z.leb_spec right_ left_) as [Hle|Hlt].
  - split; [intros [?|?]; auto|intros [?|[[? _]|?]]; auto; lia].
  - rewrite !append_event_dom. intuition.
Qed.

Lemma events_of_elem p x e :
  e ∈ events_of p x ↔ in_bounds x.2 = true ∧
    ((clip start end_ x.2).1 = p ∧ e = start_event x ∨ (clip start end_ x.2).2 = p ∧ e = end_event x).
Proof.
  unfold events_of, in_bounds. destruct (clip start end_ x.2) as [left_ right_]; simpl.
  destruct (Z.leb_spec right_ left_); rewrite Z.ltb_lt; [rewrite elem_of_nil; intuition lia|].
  rewrite elem_of_app.
  destruct (Z.eqb_spec left_ p), (Z.eqb_spec right_ p);
    rewrite ?list_elem_of_singleton, ?elem_of_nil; intuition lia.
Qed.

Lemma events_of_index p x : Forall (λ e, ev_index e = x.1) (events_of p x).
Proof. apply Forall_forall. intros e (_ & [[_ ->]|[_ ->]])%events_of_elem; done. Qed.

Lemma events_NoDup p rows :
  NoDup rows.*1 → NoDup (ev_index <$> flat_map (events_of p) rows).
Proof.
  induction rows as [|x rows IH]; intros Hnd; simpl; [constructor|].
  rewrite fmap_cons in Hnd. apply NoDup_cons in Hnd as [Hx Hnd]. rewrite fmap_app.
  apply NoDup_app. split_and!; [| |by apply IH].
  - unfold events_of. destruct (clip start end_ x.2) as [left_ right_].
    destruct (Z.leb_spec right_ left_); [constructor|].
    destruct (Z.eqb_spec left_ p), (Z.eqb_spec right_ p); simpl; try lia;
      first [apply NoDup_singleton|constructor].
  - intros i (e & -> & He)%list_elem_of_fmap (e' & Hi & He')%list_elem_of_fmap.
    apply Hx. pose proof (events_of_index p x) as Hall. rewrite Forall_forall in Hall.
    rewrite (Hall e He) in Hi. apply list_elem_of_In, in_flat_map in He' as (y & Hy & He').
    apply list_elem_of_In in Hy, He'. pose proof (events_of_index p y) as Hally.
    rewrite Forall_forall in Hally. rewrite (Hally e' He') in Hi. apply list_elem_of_fmap. by exists y.
Qed.

(** ** The sweep *)

Context (rows : list (Z * ActivityInterval)).

(** The candidate of a row. *)
Definition rank (x : Z * ActivityInterval) : item :=
  (default 0 (_PRIORITY (act_session_state x.2)), uuid_str (act_device_id x.2), x.1).

Definition known_states : Prop :=
  ∀ x, x ∈ rows → in_bounds x.2 = true → is_some (_PRIORITY (act_session_state x.2)) = true.

Context (rows_unique : NoDup rows.*1) (states_known : known_states).

Definition covering (t : Z) : list (Z * ActivityInterval) := List.filter (λ x, covers t x.2) rows.

Definition active_ok (t : Z) (active : gmap Z ActivityInterval) : Prop :=
  ∀ i row, active !! i = Some row ↔ (i, row) ∈ covering t.

Definition heap_ok (active : gmap Z ActivityInterval) (heap : list item) : Prop :=
  heap_order heap ∧ (∀ x, x ∈ heap → ∃ y, y ∈ rows ∧ x = rank y)
  ∧ ∀ i row, active !! i = Some row → rank (i, row) ∈ heap.


Lemma apply_events_spec l active heap :
  NoDup (ev_index <$> l) →
  (∀ e, e ∈ l → ∃ x, x ∈ rows ∧ in_bounds x.2 = true ∧ (e = start_event x ∨ e = end_event x)) →
  heap_ok active heap →
  ∃ active' heap', apply_events (active, heap) l = Ok (active', heap') ∧ heap_ok active' heap'
    ∧ (∀ x, start_event x ∈ l → active' !! x.1 = Some x.2)
    ∧ (∀ x, end_event x ∈ l → active' !! x.1 = None)
    ∧ ∀ i, i ∉ ev_index <$> l → active' !! i = active !! i.
Proof.
  revert active heap. induction l as [|e l IH]; intros active heap Hnd Hl Hheap.
  { exists active, heap. split_and!; [done|apply Hheap..| | |done]; by intros x ?%elem_of_nil. }
  rewrite fmap_cons in Hnd. apply NoDup_cons in Hnd as [He Hnd].
  assert (∃ active1 heap1, apply_event (active, heap) e = Ok (active1, heap1) ∧ heap_ok active1 heap1
    ∧ (∀ x, e = start_event x → active1 !! x.1 = Some x.2) ∧ (∀ x, e = end_event x → active1 !! x.1 = None)
    ∧ ∀ i, i ≠ ev_index e → active1 !! i = active !! i) as (active1 & heap1 & E1 & H1 & Hs1 & He1 & Hk1).
  { destruct (Hl e) as (x & Hx & Hb & Hcase); [left|]. destruct Hheap as (Hord & Hrank & Hact).
    destruct Hcase as [->| ->]; unfold apply_event; simpl.
    - pose proof (states_known x Hx Hb) as Hp. destruct (_PRIORITY _) as [priority|] eqn:Ep; [|done].
      assert ((priority, uuid_str (act_device_id x.2), x.1) = rank x) as -> by (unfold rank; by rewrite Ep).
      do 2 eexists. split; [done|]. split; [split_and!|].
      + by apply heappush_sorted.
      + intros y [->|Hy]%heappush_elem; [by exists x|by apply Hrank].
      + intros i row Hi. apply heappush_elem. apply lookup_insert_Some in Hi as [[<- <-]|[_ Hi]];
          [left; by destruct x|right; by apply Hact].
      + split_and!; [intros y Hy; assert (y = x) as -> by (destruct x, y; injection Hy; congruence)|
          done|intros i Hi]; [by rewrite lookup_insert_eq|by rewrite lookup_insert_ne].
    - do 2 eexists. split; [done|]. split; [split_and!; [done..|]|].
      + intros i row [_ Hi]%lookup_delete_Some. by apply Hact.
      + split_and!; [done|intros y Hy; assert (y.1 = x.1) as -> by (injection Hy; congruence)|
          intros i Hi]; [by rewrite lookup_delete_eq|by rewrite lookup_delete_ne]. }
  destruct (IH active1 heap1) as (active' & heap' & E' & H' & Hs' & He' & Hk'); [done| |done|].
  { intros e' He''. apply Hl. by right. }
  exists active', heap'. cbn [apply_events]. rewrite E1. split; [done|]. split; [done|]. split_and!.
  - intros x [Hx|Hx]%elem_of_cons; [|by apply Hs']. rewrite Hk'; [by apply Hs1|by rewrite <- Hx in He].
  - intros x [Hx|Hx]%elem_of_cons; [|by apply He']. rewrite Hk'; [by apply He1|by rewrite <- Hx in He].
  - intros i Hi. rewrite fmap_cons in Hi. apply not_elem_of_cons in Hi as [Hi Hil].
    rewrite Hk' by done. by apply Hk1.
Qed.

(** What is active just before a point, when its ends have not yet applied. *)
Definition covers_before (q : Z) (row : ActivityInterval) : bool :=
  let '(left_, right_) := clip start end_ row in (left_ <? q) && (q <=? right_).

Definition active_before (q : Z) (active : gmap Z ActivityInterval) : Prop :=
  ∀ i row, active !! i = Some row ↔ (i, row) ∈ rows ∧ covers_before q row = true.

Lemma covering_elem t x : x ∈ covering t ↔ x ∈ rows ∧ covers t x.2 = true.
Proof. unfold covering. by rewrite list_elem_of_In, filter_In, <- list_elem_of_In. Qed.

Lemma rows_fun i row row' : (i, row) ∈ rows → (i, row') ∈ rows → row = row'.
Proof.
  intros H1 H2. apply (elem_of_list_to_map_1 (M := gmap Z)) in H1, H2; [|done..]. congruence.
Qed.

(** The events of a point make the rows it starts active and drop those it ends. *)
Lemma events_advance q active heap :
  active_before q active → heap_ok active heap →
  ∃ active' heap', apply_events (active, heap) (flat_map (events_of q) rows) = Ok (active', heap')
    ∧ active_ok q active' ∧ heap_ok active' heap'.
Proof.
  intros Hact Hheap.
  assert (∀ e, e ∈ flat_map (events_of q) rows ↔ ∃ x, x ∈ rows ∧ e ∈ events_of q x) as Hin.
  { intros e. rewrite list_elem_of_In, in_flat_map. by setoid_rewrite <- list_elem_of_In. }
  destruct (apply_events_spec (flat_map (events_of q) rows) active heap) as
    (active' & heap' & E & H' & Hs & He & Hk); [by apply events_NoDup| |done|].
  { intros e (x & Hx & (Hb & Hcase)%events_of_elem)%Hin. exists x. intuition. }
  exists active', heap'. split; [done|]. split; [|done]. intros i row. rewrite covering_elem. simpl.
  destruct (decide (i ∈ ev_index <$> flat_map (events_of q) rows)) as [Hi|Hi].
  - apply list_elem_of_fmap in Hi as (e & -> & Hel). pose proof Hel as (x & Hx & (Hb & Hcase)%events_of_elem)%Hin.
    assert (in_bounds x.2 = true ↔ (clip start end_ x.2).1 < (clip start end_ x.2).2) as Hb'
      by (unfold in_bounds; destruct (clip start end_ x.2); by rewrite Z.ltb_lt).
    apply Hb' in Hb. unfold covers.
    destruct Hcase as [[Hq ->]|[Hq ->]]; simpl.
    + rewrite (Hs x Hel). split.
      * intros [= <-]. split; [by destruct x|]. destruct (clip start end_ x.2) as [l r]; simpl in *.
        by rewrite andb_true_iff, Z.leb_le, Z.ltb_lt; lia.
      * intros [Hr _]. f_equal. eapply rows_fun; [|exact Hr]. by destruct x.
    + rewrite (He x Hel). split; [done|]. intros [Hr Hc].
      assert (row = x.2) as -> by (eapply rows_fun; [exact Hr|by destruct x]).
      destruct (clip start end_ x.2) as [l r]; simpl in *.
      rewrite andb_true_iff, Z.leb_le, Z.ltb_lt in Hc. lia.
  - rewrite (Hk i Hi), (Hact i row). assert (∀ P Q R : Prop, (P → Q ↔ R) → P ∧ Q ↔ P ∧ R) as Hand by tauto.
    apply Hand. clear Hand. intros Hr.
    unfold covers_before, covers. assert (¬ ∃ e, e ∈ events_of q (i, row)) as Hno.
    { intros [e He']. apply Hi. apply list_elem_of_fmap. exists e. split; [|apply Hin; eauto].
      pose proof (events_of_index q (i, row)) as Hf. rewrite Forall_forall in Hf. by rewrite (Hf e He'). }
    setoid_rewrite events_of_elem in Hno. unfold in_bounds in Hno. simpl in Hno.
    destruct (clip start end_ row) as [l r]. simpl in Hno. rewrite !andb_true_iff, !Z.leb_le, !Z.ltb_lt.
    setoid_rewrite Z.ltb_lt in Hno.
    assert (l < r → l ≠ q ∧ r ≠ q) as Hlr by (intros ?; split; intros ?; apply Hno; eauto 6).
    split; intros [? ?]; lia.
Qed.

(** ** The declarative reading *)

(** The covering row with the least candidate. *)
Definition winner (t : Z) : option (Z * ActivityInterval) :=
  List.find (λ x, forallb (λ y, item_leb (rank x) (rank y)) (covering t)) (covering t).

Definition attributed (p q : Z) : list segment :=
  match winner p with
  | None => []
  | Some x => [segment_of p q x.2 (1 <? Z.of_nat (length (covering p)))]
  end.

Fixpoint timeline (p : Z) (points : list Z) : list segment :=
  match points with
  | [] => []
  | q :: rest => attributed p q ++ timeline q rest
  end.

Lemma covering_rows_NoDup t : NoDup (covering t).*1.
Proof. by apply NoDup_filter_bool. Qed.

Lemma active_covering t active :
  active_ok t active → active = list_to_map (covering t).
Proof.
  intros Hact. apply map_eq. intros i. apply option_eq. intros row.
  rewrite (Hact i row). apply elem_of_list_to_map, covering_rows_NoDup.
Qed.

Lemma rank_inj x y : x ∈ rows → y ∈ rows → rank x = rank y → x = y.
Proof.
  destruct x as [i r], y as [j r']. intros Hx Hy Hr. apply (f_equal snd) in Hr. cbn in Hr. subst j.
  f_equal. by eapply rows_fun.
Qed.

Lemma winner_least t x :
  winner t = Some x ↔ x ∈ covering t ∧ ∀ y, y ∈ covering t → item_leb (rank x) (rank y) = true.
Proof.
  unfold winner. split.
  - intros [Hx Hall]%find_some. rewrite forallb_forall in Hall. split; [by apply list_elem_of_In|].
    intros y Hy. by apply Hall, list_elem_of_In.
  - intros [Hx Hall]. destruct (List.find _ _) as [y|] eqn:E.
    + apply find_some in E as [Hy Hmin]. rewrite forallb_forall in Hmin.
      f_equal. apply rank_inj; [apply list_elem_of_In in Hy; by apply covering_elem in Hy as []|
        by apply covering_elem in Hx as []|].
      apply item_leb_antisym; [by apply Hmin, list_elem_of_In|by apply Hall, list_elem_of_In].
    + eapply find_none in E; [|by apply list_elem_of_In].
      apply not_true_iff_false in E. destruct E. apply forallb_forall. intros y Hy.
      by apply Hall, list_elem_of_In.
Qed.

Lemma drop_stale_ok active heap : heap_ok active heap → heap_ok active (drop_stale active heap).
Proof.
  intros (Hord & Hrank & Hact). induction heap as [|x heap IH]; simpl; [done|].
  destruct (active !! x.2) eqn:E; [done|]. simpl. apply StronglySorted_inv in Hord as [Hord _].
  apply IH; [done|intros y Hy; apply Hrank; by right|].
  intros i row Hi. pose proof (Hact i row Hi) as [Hx|?]%elem_of_cons; [|done].
  rewrite <- Hx in E. simpl in E. congruence.
Qed.

(** The head of the heap, stale items apart, is the candidate of the winner. *)
Lemma drop_stale_winner t active heap :
  active_ok t active → heap_ok active heap → active ≠ ∅ →
  ∃ x, winner t = Some x ∧ head (drop_stale active heap) = Some (rank x) ∧ active !! x.1 = Some x.2.
Proof.
  intros Hact Hheap Hne. apply map_choose in Hne as (i & row & Hi).
  pose proof (drop_stale_ok _ _ Hheap) as (Hord & Hrank & Hin).
  assert (∀ y, head (drop_stale active heap) = Some y → is_Some (active !! y.2)) as Hlive.
  { clear. induction heap as [|x heap IH]; simpl; [done|].
    destruct (active !! x.2) eqn:E; [|done]. simpl. intros y [= <-]. by rewrite E. }
  destruct (drop_stale active heap) as [|z rest].
  { by apply Hin, elem_of_nil in Hi. }
  destruct (Hrank z) as (x & Hx & ->); [left|]. exists x.
  destruct (Hlive (rank x) eq_refl) as [row' Hrow]. unfold rank in Hrow. simpl in Hrow.
  assert (row' = x.2) as ->.
  { eapply (rows_fun x.1); [|by destruct x]. by apply Hact, covering_elem in Hrow as []. }
  split; [|done]. apply winner_least. split; [destruct x as [j r]; by apply Hact|].
  intros [j row'] Hj. pose proof (Hin j row' (proj2 (Hact j row') Hj)) as [Hr|Hr]%elem_of_cons.
  - rewrite Hr. destruct (item_leb_total (rank x) (rank x)); done.
  - apply StronglySorted_inv in Hord as [_ Hord]. rewrite Forall_forall in Hord. by apply Hord.
Qed.

(** Nothing starts or ends between neighbouring end points. *)
Lemma active_until p q active :
  p < q → (∀ t, end_point rows t → p < t → q <= t) → active_ok p active → active_before q active.
Proof.
  intros Hpq Hno Hact i row. rewrite (Hact i row), covering_elem. simpl.
  assert (∀ P Q R : Prop, (P → Q ↔ R) → P ∧ Q ↔ P ∧ R) as Hand by tauto. apply Hand. intros Hr.
  assert (in_bounds row = true → ∀ t, t = (clip start end_ row).1 ∨ t = (clip start end_ row).2 →
    p < t → q <= t) as Hends.
  { intros Hb t Ht. apply Hno. exists (i, row). done. }
  unfold covers, covers_before, in_bounds in *. destruct (clip start end_ row) as [l r]. simpl in Hends.
  rewrite Z.ltb_lt in Hends. rewrite !andb_true_iff, !Z.leb_le, !Z.ltb_lt.
  split; intros [H1 H2].
  - pose proof (Hends ltac:(lia) r). intuition lia.
  - pose proof (Hends ltac:(lia) l). intuition lia.
Qed.

(** A sweep that stands at the point [p]. *)
Definition swept (p : Z) (s : sweep) : Prop :=
  sw_previous s = Some p ∧ active_ok p (sw_active s) ∧ heap_ok (sw_active s) (sw_heap s).

Lemma emit_ok p q s :
  swept p s → p < q →
  ∃ s', emit q s = Ok s' ∧ swept p s' ∧ sw_active s' = sw_active s
    ∧ sw_result s' = sw_result s ++ attributed p q.
Proof.
  intros (Hp & Hact & Hheap) Hpq. unfold emit. rewrite Hp.
  assert (p <? q = true) as -> by by apply Z.ltb_lt.
  destruct (decide (sw_active s = ∅)) as [He|He].
  - rewrite bool_decide_true by done. simpl. exists s. split_and!; [done..|].
    unfold attributed. destruct (winner p) as [[i row]|] eqn:Ew; [|by rewrite app_nil_r].
    apply winner_least in Ew as [Hx%Hact _]. by rewrite He in Hx.
  - rewrite bool_decide_false by done. simpl.
    destruct (drop_stale_winner p _ _ Hact Hheap He) as (x & Hw & Hh & Hx).
    rewrite Hh. simpl. rewrite Hx. eexists. split; [done|]. split_and!; [|done|].
    + split_and!; [done|done|by apply drop_stale_ok].
    + simpl. unfold attributed. rewrite Hw, (active_covering p (sw_active s)) by done.
      by rewrite map_size_list_to_map by apply covering_rows_NoDup.
Qed.

Context (events : gmap Z (list event)).
Context (events_ok : ∀ q, default [] (events !! q) = flat_map (events_of q) rows).

Lemma sweep_point_ok p q s :
  swept p s → p < q → (∀ t, end_point rows t → p < t → q <= t) →
  ∃ s', sweep_point events q s = Ok s' ∧ swept q s' ∧ sw_result s' = sw_result s ++ attributed p q.
Proof.
  intros Hs Hpq Hno. destruct (emit_ok p q s Hs Hpq) as (s1 & E & (_ & Hact & Hheap) & _ & Hres).
  unfold sweep_point. rewrite E, events_ok.
  destruct (events_advance q (sw_active s1) (sw_heap s1)) as (active & heap & E' & Ha & Hh);
    [by eapply active_until|done|].
  rewrite E'. eexists. split; [done|]. split; [|done]. split_and!; done.
Qed.

Lemma sweep_points_ok points p s :
  swept p s → StronglySorted Z.lt (p :: points) → (∀ t, end_point rows t → p < t → t ∈ points) →
  ∃ s', sweep_points events points s = Ok s' ∧ sw_result s' = sw_result s ++ timeline p points.
Proof.
  revert p s. induction points as [|q points IH]; intros p s Hs Hord Hall; simpl.
  { exists s. by rewrite app_nil_r. }
  apply StronglySorted_inv in Hord as [Hord Hp]. pose proof Hord as [_ Hq]%StronglySorted_inv.
  rewrite Forall_forall in Hp, Hq.
  destruct (sweep_point_ok p q s) as (s1 & -> & Hs1 & Hr1); [done|apply Hp; left| |].
  { intros t Ht Hpt. pose proof (Hall t Ht Hpt) as [->|Hin]%elem_of_cons; [lia|].
    apply Hq in Hin. lia. }
  destruct (IH q s1 Hs1 Hord) as (s' & -> & Hr').
  { intros t Ht Hqt. pose proof (Hp q ltac:(by left)). pose proof (Hall t Ht ltac:(lia)) as [->|?]%elem_of_cons;
      [lia|done]. }
  exists s'. split; [done|]. by rewrite Hr', Hr1, <- app_assoc.
Qed.

(** The first point starts with nothing active. *)
Lemma sweep_first p s :
  (∀ t, end_point rows t → p <= t) → s = no_sweep →
  ∃ s', sweep_point events p s = Ok s' ∧ swept p s' ∧ sw_result s' = [].
Proof.
  intros Hmin ->. unfold sweep_point. simpl. rewrite events_ok.
  destruct (events_advance p ∅ []) as (active & heap & E' & Ha & Hh).
  - intros i row. split; [done|]. intros [Hr Hc]. exfalso.
    assert (in_bounds row = true → p <= (clip start end_ row).1) as Hb.
    { intros Hb. apply Hmin. exists (i, row). simpl. auto. }
    unfold covers_before, in_bounds in *. destruct (clip start end_ row) as [l r]. simpl in Hb.
    rewrite Z.ltb_lt in Hb. rewrite andb_true_iff, Z.ltb_lt, Z.leb_le in Hc. lia.
  - split_and!; [constructor|by intros ? ?%elem_of_nil|done].
  - rewrite E'. eexists. split; [done|]. split; [|done]. split_and!; done.
Qed.

Definition whole_timeline (points : list Z) : list segment :=
  match points with [] => [] | p :: rest => timeline p rest end.

Lemma sweep_points_timeline points :
  StronglySorted Z.lt points → (∀ t, end_point rows t → t ∈ points) →
  ∃ s, sweep_points events points no_sweep = Ok s ∧ sw_result s = whole_timeline points.
Proof.
  destruct points as [|p points]; simpl; intros Hord Hall; [by exists no_sweep|].
  pose proof Hord as [_ Hp]%StronglySorted_inv. rewrite Forall_forall in Hp.
  destruct (sweep_first p no_sweep) as (s1 & -> & Hs1 & Hr1); [|done|].
  { intros t [->|Hin]%Hall%elem_of_cons; [lia|]. apply Hp in Hin. lia. }
  destruct (sweep_points_ok points p s1) as (s' & -> & Hr'); [done|done| |].
  { intros t [->|?]%Hall%elem_of_cons Hpt; [lia|done]. }
  exists s'. split; [done|]. by rewrite Hr', Hr1.
Qed.

(** ** Moments *)

(** The segment covers a moment, and what it says of it. *)
Definition spans (t : Z) (seg : segment) : bool := (seg_started_at seg <=? t) && (t <? seg_ended_at seg).

Definition attribution (seg : segment) : string * option string * option string * string * bool :=
  (seg_state seg, seg_process_name seg, seg_application_category seg, seg_device_id seg, seg_overlap seg).

(** What the rows say of a moment. *)
Definition attribution_at (t : Z) : list (string * option string * option string * string * bool) :=
  match winner t with
  | None => []
  | Some x =>
      [(act_session_state x.2, act_process_name x.2, act_application_category x.2,
        uuid_str (act_device_id x.2), 1 <? Z.of_nat (length (covering t)))]
  end.

Lemma covers_end_points x t :
  x ∈ rows → covers t x.2 = true →
  ∃ l r, l <= t < r ∧ end_point rows l ∧ end_point rows r ∧ clip start end_ x.2 = (l, r).
Proof.
  intros Hx Hc. destruct (clip start end_ x.2) as [l r] eqn:E. exists l, r.
  assert (l <= t < r) as Hlr by (unfold covers in Hc; rewrite E in Hc; lia).
  split; [done|]. split_and!; [exists x..|done]; unfold in_bounds; rewrite E; simpl;
    (split_and!; [done|apply Z.ltb_lt; lia|auto]).
Qed.

Lemma covering_nothing t :
  (∀ l r, end_point rows l → end_point rows r → ¬ l <= t < r) → attribution_at t = [].
Proof.
  intros Hno. unfold attribution_at. destruct (winner t) as [x|] eqn:E; [|done].
  apply winner_least in E as [[Hx Hc]%covering_elem _].
  destruct (covers_end_points x t Hx Hc) as (l & r & Hlr & Hl & Hr & _). by destruct (Hno l r).
Qed.

(** Between neighbouring end points the same rows cover every moment. *)
Lemma covering_until p q t :
  p <= t < q → (∀ u, end_point rows u → p < u → q <= u) → covering t = covering p.
Proof.
  intros Htq Hno. apply filter_ext_in. intros x Hx. apply list_elem_of_In in Hx.
  apply eq_true_iff_eq. split; intros Hc;
    destruct (covers_end_points x _ Hx Hc) as (l & r & Hlr & Hl & Hr & E);
    unfold covers; rewrite E, andb_true_iff, Z.leb_le, Z.ltb_lt.
  - destruct (Z.le_gt_cases l p); [lia|]. pose proof (Hno l Hl). lia.
  - pose proof (Hno r Hr). lia.
Qed.

Lemma attributed_at p q t :
  p < q → (∀ u, end_point rows u → p < u → q <= u) →
  attribution <$> List.filter (spans t) (attributed p q)
  = if (p <=? t) && (t <? q) then attribution_at t else [].
Proof.
  intros Hpq Hno. destruct ((p <=? t) && (t <? q)) eqn:E.
  - unfold attributed, attribution_at, winner. rewrite (covering_until p q t) by (done || lia).
    destruct (List.find _ _) as [x|]; [|done]. simpl. unfold spans. simpl. by rewrite E.
  - unfold attributed. destruct (winner p) as [x|]; [|done]. simpl. unfold spans. simpl. by rewrite E.
Qed.

Lemma timeline_before p points t :
  StronglySorted Z.lt (p :: points) → t < p → List.filter (spans t) (timeline p points) = [].
Proof.
  revert p. induction points as [|q points IH]; intros p Hord Ht; simpl; [done|].
  apply StronglySorted_inv in Hord as [Hord Hp]. rewrite Forall_forall in Hp.
  pose proof (Hp q ltac:(by left)). rewrite List.filter_app, IH by (done || lia).
  unfold attributed. destruct (winner p) as [x|]; [|done]. simpl. unfold spans. simpl.
  by assert (p <=? t = false) as -> by lia.
Qed.

Lemma timeline_at p points t :
  StronglySorted Z.lt (p :: points) → (∀ u, end_point rows u → p < u → u ∈ points) → p <= t →
  attribution <$> List.filter (spans t) (timeline p points) = attribution_at t.
Proof.
  revert p. induction points as [|q points IH]; intros p Hord Hall Ht; simpl.
  { symmetry. apply covering_nothing. intros l r _ Hr Hlr. apply Hall, elem_of_nil in Hr; [done|lia]. }
  apply StronglySorted_inv in Hord as [Hord Hp]. pose proof Hord as [_ Hq]%StronglySorted_inv.
  rewrite Forall_forall in Hp, Hq. pose proof (Hp q ltac:(by left)).
  rewrite List.filter_app, fmap_app, attributed_at; [|done|].
  - destruct (Z.lt_ge_cases t q).
    + assert (((p <=? t) && (t <? q)) = true) as -> by lia.
      by rewrite timeline_before, app_nil_r by done.
    + assert (((p <=? t) && (t <? q)) = false) as -> by lia. apply IH; [done| |done].
      intros u Hu Hqu. pose proof (Hall u Hu ltac:(lia)) as [->|?]%elem_of_cons; [lia|done].
  - intros u Hu Hpu. pose proof (Hall u Hu Hpu) as [->|Hin]%elem_of_cons; [lia|]. apply Hq in Hin. lia.
Qed.

Lemma whole_timeline_at points t :
  StronglySorted Z.lt points → (∀ u, end_point rows u → u ∈ points) →
  attribution <$> List.filter (spans t) (whole_timeline points) = attribution_at t.
Proof.
  destruct points as [|p points]; simpl; intros Hord Hall.
  { symmetry. apply covering_nothing. by intros l r ?%Hall%elem_of_nil. }
  pose proof Hord as [_ Hp]%StronglySorted_inv. rewrite Forall_forall in Hp.
  destruct (Z.lt_ge_cases t p).
  - rewrite timeline_before by done. symmetry. apply covering_nothing.
    intros l r Hl%Hall _ Hlr. apply elem_of_cons in Hl as [->|Hl]; [lia|]. apply Hp in Hl. lia.
  - apply timeline_at; [done| |done]. intros u [->|?]%Hall%elem_of_cons Hpu; [lia|done].
Qed.

(** No segment is empty, and each carries its length. *)
Definition proper_segment (seg : segment) : Prop :=
  seg_started_at seg < seg_ended_at seg ∧ seg_seconds seg = seg_ended_at seg - seg_started_at seg.

Lemma timeline_proper p points :
  StronglySorted Z.lt (p :: points) → Forall proper_segment (timeline p points).
Proof.
  revert p. induction points as [|q points IH]; intros p Hord; simpl; [constructor|].
  apply StronglySorted_inv in Hord as [Hord Hp]. rewrite Forall_forall in Hp.
  apply Forall_app. split; [|by apply IH]. unfold attributed. destruct (winner p); [|constructor].
  repeat constructor. simpl. apply Hp. left.
Qed.

Lemma whole_timeline_proper points :
  StronglySorted Z.lt points → Forall proper_segment (whole_timeline points).
Proof. destruct points; [constructor|apply timeline_proper]. Qed.

End rows.

(** ** The report *)

Lemma sorted_points (points : list Z) :
  NoDup points → StronglySorted Z.lt (order_by Z.leb points).
Proof.
  intros Hnd. rewrite <- (order_by_Permutation Z.leb points) in Hnd.
  pose proof (order_by_sorted Z.leb points ltac:(lia) ltac:(lia)) as Hs.
  induction (order_by Z.leb points) as [|x l IH]; constructor.
  - apply IH; [by apply NoDup_cons in Hnd as []|by apply StronglySorted_inv in Hs as []].
  - apply NoDup_cons in Hnd as [Hx _]. apply StronglySorted_inv in Hs as [_ Hall].
    rewrite !Forall_forall in *. intros y Hy. pose proof (Hall y Hy) as Hle. unfold bool_rel in Hle.
    assert (x ≠ y) by (intros ->; done). lia.
Qed.

Lemma indexed_elem index rows row : row ∈ rows ↔ ∃ i, (i, row) ∈ indexed index rows.
Proof.
  revert index. induction rows as [|r rows IH]; intros index; simpl.
  - split; [by intros ?%elem_of_nil|by intros [i ?%elem_of_nil]].
  - rewrite elem_of_cons, (IH (index + 1)). setoid_rewrite elem_of_cons. split.
    + intros [->|[i Hi]]; [exists index; by left|exists i; by right].
    + intros [i [[= -> ->]|Hi]]; [by left|right; by exists i].
Qed.

Lemma known_priority state : state ∈ STATES → is_some (_PRIORITY state) = true.
Proof. unfold STATES. rewrite !elem_of_cons, elem_of_nil. by intros [->|[->|[->|[->|[->|[]]]]]]. Qed.

(** C20: for rows in known states the sweep returns segments, none of them
    empty, that attribute every moment to exactly what the rows say of it: the
    covering row that comes first by state, device and position, with the overlap
    disclosed, and nothing where no row covers it.  The heap, its lazy removals
    and the order of the events do not show in the result. *)
Theorem every_moment_is_attributed_once intervals start end_ :
  (∀ row, row ∈ intervals → in_bounds start end_ row = true → act_session_state row ∈ STATES) →
  ∃ segments, merged_segments intervals start end_ = Ok segments
    ∧ Forall proper_segment segments
    ∧ ∀ t, attribution <$> List.filter (spans t) segments
           = attribution_at start end_ (indexed 0 intervals) t.
Proof.
  intros Hknown. set (rows := indexed 0 intervals).
  assert (known_states start end_ rows) as Hk.
  { intros [i row] Hr Hb. apply known_priority, Hknown; [|done]. apply (indexed_elem 0). by exists i. }
  assert (NoDup rows.*1) as Hnd by apply indexed_NoDup.
  unfold merged_segments. set (events := collect_events start end_ 0 intervals ∅).
  set (points := order_by Z.leb (map_to_list events).*1).
  assert (StronglySorted Z.lt points) as Hs by apply sorted_points, NoDup_fst_map_to_list.
  assert (∀ t, end_point start end_ rows t → t ∈ points) as Hall.
  { intros t Ht. apply elem_of_order_by, list_elem_of_fmap.
    destruct (collect_events_dom start end_ 0 intervals ∅ t) as [_ [l Hl]]; [by right|].
    exists (t, l). split; [done|]. by apply elem_of_map_to_list. }
  destruct (sweep_points_timeline start end_ rows Hnd Hk events) with (points := points)
    as (s & -> & ->); [|done|done|].
  { intros q. unfold events. by rewrite collect_events_lookup, lookup_empty. }
  eexists. split; [done|]. split; [by apply whole_timeline_proper|].
  intros t. by apply whole_timeline_at.
Qed.

(** Two devices: the second one is ACTIVE while the first one is IDLE. *)
Definition idle_row : ActivityInterval :=
  {| act_device_id := 1; act_started_at := Datetime 0 (Some 0); act_ended_at := Datetime 100 (Some 0);
     act_session_state := "IDLE"; act_process_name := None; act_application_category := None |}.
Definition active_row : ActivityInterval :=
  {| act_device_id := 2; act_started_at := Datetime 40 (Some 0); act_ended_at := Datetime 60 None;
     act_session_state := "ACTIVE"; act_process_name := Some "excel.exe";
     act_application_category := Some "office" |}.

Example two_devices :
  match merged_segments [idle_row; active_row] (Datetime 10 (Some 0)) (Datetime 90 (Some 0)) with
  | Ok segments => map (λ seg, (seg_started_at seg, seg_ended_at seg, seg_state seg, seg_overlap seg)) segments
  | Exn _ => []
  end = [(10, 40, "IDLE", false); (40, 60, "ACTIVE", true); (60, 90, "IDLE", false)].
Proof. vm_compute. reflexivity. Qed.

Lemma every_moment_is_attributed_once_witness :
  ∃ segments, merged_segments [idle_row; active_row] (Datetime 10 (Some 0)) (Datetime 90 (Some 0)) = Ok segments
    ∧ Forall proper_segment segments
    ∧ ∀ t, attribution <$> List.filter (spans t) segments
           = attribution_at (Datetime 10 (Some 0)) (Datetime 90 (Some 0)) (indexed 0 [idle_row; active_row]) t.
Proof.
  apply every_moment_is_attributed_once. intros row Hrow _.
  apply elem_of_cons in Hrow as [->|Hrow].
  - simpl. unfold STATES. right. left.
  - apply list_elem_of_singleton in Hrow as ->. simpl. left.
Defined.
