(* ===== verification/Json.v ===== *)
(** * Reading JSON text

    [json.loads] of Python's standard library, as the code uses it: the text is
    scanned by recursive descent, [object_pairs_hook] turns the pairs of each
    object into a value and [parse_constant] decides on NaN and the infinities.
    Containers nest at most as deep as the interpreter's recursion limit, beyond
    which a RecursionError is raised; an integer has at most 4300 digits.  Text
    is a list of code points below 256; an escape above that is outside the
    model.  [dumps] is in Contracts.v. *)

From S2P Require Import Prelude Store AuditLog Contracts Canonical Semver.

Notation text_in := (list Ascii.ascii).

(** [error.__class__ is ValueError]: what a JSONDecodeError is caught as. *)
Definition JSONDecodeError {A} (message : string) : res A := Exn (ValueError message).

Record hooks := {
  object_pairs_hook : list (string * json) → res json;
  parse_constant : string → res json
}.

(** [\t\n\r ] and the rest *)
Definition is_json_space (c : Ascii.ascii) : bool := in_set (code c) [32; 9; 10; 13].

(** ** Strings *)

Definition hex_value (c : Ascii.ascii) : option Z :=
  if is_digit c then Some (code c - 48)
  else if between 97 102 c then Some (code c - 87)
  else if between 65 70 c then Some (code c - 55)
  else None.

Definition backslash_value (c : Ascii.ascii) : option Ascii.ascii :=
  let n := code c in
  if in_set n [34; 92; 47] then Some c
  else if n =? 98 then Some (Ascii.ascii_of_nat 8)
  else if n =? 102 then Some (Ascii.ascii_of_nat 12)
  else if n =? 110 then Some (Ascii.ascii_of_nat 10)
  else if n =? 114 then Some (Ascii.ascii_of_nat 13)
  else if n =? 116 then Some (Ascii.ascii_of_nat 9)
  else None.

(** The rest of a string after its opening quote. *)
Fixpoint scanstring (acc l : text_in) : res (text_in * text_in) :=
  match l with
  | [] => JSONDecodeError "Unterminated string"
  | c :: l =>
      if code c =? 34 then Ok (rev acc, l)
      else if code c <? 32 then JSONDecodeError "Invalid control character"
      else if code c =? 92 then
        match l with
        | [] => JSONDecodeError "Unterminated string"
        | e :: l =>
            if code e =? 117 then
              match l with
              | h1 :: h2 :: h3 :: h4 :: l =>
                  match hex_value h1, hex_value h2, hex_value h3, hex_value h4 with
                  | Some v1, Some v2, Some v3, Some v4 =>
                      let n := ((v1 * 16 + v2) * 16 + v3) * 16 + v4 in
                      if n <? 256 then scanstring (Ascii.ascii_of_nat (Z.to_nat n) :: acc) l
                      else Exn (OutsideModel "code point")
                  | _, _, _, _ => JSONDecodeError "Invalid \uXXXX escape"
                  end
              | _ => JSONDecodeError "Invalid \uXXXX escape"
              end
            else
              match backslash_value e with
              | Some c => scanstring (c :: acc) l
              | None => JSONDecodeError "Invalid \escape"
              end
        end
      else scanstring (c :: acc) l
  end.

(** ** Numbers *)

Fixpoint take_while (P : Ascii.ascii → bool) (l : text_in) : text_in * text_in :=
  match l with
  | c :: l' => if P c then let (a, b) := take_while P l' in (c :: a, b) else ([], l)
  | [] => ([], [])
  end.

(** [0|[1-9][0-9]*] *)
Definition match_integer (l : text_in) : option (text_in * text_in) :=
  match l with
  | c :: l' =>
      if code c =? 48 then Some ([c], l')
      else if is_digit c then let (a, b) := take_while is_digit l' in Some (c :: a, b)
      else None
  | [] => None
  end.

(** [(\.[0-9]+)?] *)
Definition match_fraction (l : text_in) : option text_in * text_in :=
  match l with
  | c :: l' =>
      if code c =? 46 then
        match take_while is_digit l' with
        | ([], _) => (None, l)
        | (digits, rest) => (Some digits, rest)
        end
      else (None, l)
  | [] => (None, l)
  end.

(** [[-+]?] *)
Definition exponent_sign (l : text_in) : bool * text_in :=
  match l with
  | s :: rest => if code s =? 45 then (true, rest) else if code s =? 43 then (false, rest) else (false, l)
  | [] => (false, l)
  end.

(** [([eE][-+]?[0-9]+)?] *)
Definition match_exponent (l : text_in) : option (bool * text_in) * text_in :=
  match l with
  | c :: l' =>
      if in_set (code c) [101; 69] then
        let '(negative, l'') := exponent_sign l' in
        match take_while is_digit l'' with
        | ([], _) => (None, l)
        | (digits, rest) => (Some (negative, digits), rest)
        end
      else (None, l)
  | [] => (None, l)
  end.

(** The double nearest to [digits * 10 ^ exponent]. *)
Definition nearest_double (negative : bool) (digits exponent : Z) : spec_float :=
  match digits with
  | Z.pos m =>
      if 0 <=? exponent then
        binary_normalize 53 1024 ((if negative then Z.neg m else Z.pos m) * 10 ^ exponent) 0 negative
      else
        let '(q, e, loc) := SFdiv_core_binary 53 1024 (Z.pos m) 0 (10 ^ (- exponent)) 0 in
        binary_round_aux 53 1024 negative q e loc
  | _ => S754_zero negative
  end.

Definition int_max_str_digits : nat := 4300.

(** A number after its sign. *)
Definition match_unsigned (negative : bool) (l : text_in) : res (option (json * text_in)) :=
  match match_integer l with
  | None => Ok None
  | Some (integer, rest) =>
      let '(fraction, rest) := match_fraction rest in
      let '(exponent, rest) := match_exponent rest in
      match fraction, exponent with
      | None, None =>
          if (int_max_str_digits <? length integer)%nat
          then JSONDecodeError "Exceeds the limit for integer string conversion"
          else
            let n := digits_value 0 integer in
            Ok (Some (JInt (if negative then - n else n), rest))
      | _, _ =>
          let fraction := default [] fraction in
          let e := match exponent with
                   | Some (true, digits) => - digits_value 0 digits
                   | Some (false, digits) => digits_value 0 digits
                   | None => 0
                   end in
          Ok (Some (JFloat (nearest_double negative (digits_value 0 (integer ++ fraction))
                              (e - Z.of_nat (length fraction))), rest))
      end
  end.

(** [NUMBER_RE.match] and the number it stands for. *)
Definition match_number (l : text_in) : res (option (json * text_in)) :=
  match l with
  | c :: l' => if code c =? 45 then match_unsigned true l' else match_unsigned false l
  | [] => match_unsigned false l
  end.

(** [string[idx:idx + n] == word] *)
Fixpoint strip (word l : text_in) : option text_in :=
  match word, l with
  | [], _ => Some l
  | a :: word, c :: l => if decide (a = c) then strip word l else None
  | _ :: _, [] => None
  end.

(** ** Values *)

Section scanner.
Context (h : hooks).

(** Literals, constants and numbers. *)
Definition scan_scalar (l : text_in) : res (json * text_in) :=
  match strip (chars "null") l, strip (chars "true") l, strip (chars "false") l with
  | Some rest, _, _ => Ok (JNull, rest)
  | _, Some rest, _ => Ok (JBool true, rest)
  | _, _, Some rest => Ok (JBool false, rest)
  | None, None, None =>
      match match_number l with
      | Exn e => Exn e
      | Ok (Some (n, rest)) => Ok (n, rest)
      | Ok None =>
          let constant name :=
            rest ← strip (chars name) l; Some (name, rest) in
          match constant "NaN", constant "Infinity", constant "-Infinity" with
          | Some (name, rest), _, _ | None, Some (name, rest), _ | None, None, Some (name, rest) =>
              res_bind (parse_constant h name) (λ v, Ok (v, rest))
          | None, None, None => JSONDecodeError "Expecting value"
          end
      end
  end.

(** [_scan_once], the items of an array after [[] or a comma, and the pairs of an
    object after [{] or a comma; each call takes one unit of fuel. *)
Fixpoint scan_once (fuel depth : nat) (l : text_in) {struct fuel} : res (json * text_in) :=
  match fuel with
  | O => Exn (OutsideModel "fuel")
  | S fuel =>
      match l with
      | [] => JSONDecodeError "Expecting value"
      | c :: rest =>
          if code c =? 34 then
            res_bind (scanstring [] rest) (λ '(s, rest), Ok (JStr (text s), rest))
          else if code c =? 91 then
            match depth with
            | O => Exn (RecursionError "maximum recursion depth exceeded")
            | S depth =>
                match drop_while is_json_space rest with
                | d :: after =>
                    if code d =? 93 then Ok (JList [], after)
                    else scan_items fuel depth [] (d :: after)
                | [] => JSONDecodeError "Expecting value"
                end
            end
          else if code c =? 123 then
            match depth with
            | O => Exn (RecursionError "maximum recursion depth exceeded")
            | S depth =>
                match drop_while is_json_space rest with
                | d :: after =>
                    if code d =? 125 then res_bind (object_pairs_hook h []) (λ v, Ok (v, after))
                    else scan_pairs fuel depth [] (d :: after)
                | [] => JSONDecodeError "Expecting property name enclosed in double quotes"
                end
            end
          else scan_scalar l
      end
  end
with scan_items (fuel depth : nat) (items : list json) (l : text_in) {struct fuel}
    : res (json * text_in) :=
  match fuel with
  | O => Exn (OutsideModel "fuel")
  | S fuel =>
      res_bind (scan_once fuel depth l) (λ '(item, rest),
        match drop_while is_json_space rest with
        | c :: after =>
            if code c =? 93 then Ok (JList (rev (item :: items)), after)
            else if code c =? 44 then
              scan_items fuel depth (item :: items) (drop_while is_json_space after)
            else JSONDecodeError "Expecting ',' delimiter"
        | [] => JSONDecodeError "Expecting ',' delimiter"
        end)
  end
with scan_pairs (fuel depth : nat) (pairs : list (string * json)) (l : text_in) {struct fuel}
    : res (json * text_in) :=
  match fuel with
  | O => Exn (OutsideModel "fuel")
  | S fuel =>
      match l with
      | q :: l =>
          if code q =? 34 then
            res_bind (scanstring [] l) (λ '(key, rest),
              match drop_while is_json_space rest with
              | colon :: rest =>
                  if code colon =? 58 then
                    res_bind (scan_once fuel depth (drop_while is_json_space rest)) (λ '(value, rest),
                      let pairs := (text key, value) :: pairs in
                      match drop_while is_json_space rest with
                      | c :: after =>
                          if code c =? 125 then
                            res_bind (object_pairs_hook h (rev pairs)) (λ v, Ok (v, after))
                          else if code c =? 44 then
                            scan_pairs fuel depth pairs (drop_while is_json_space after)
                          else JSONDecodeError "Expecting ',' delimiter"
                      | [] => JSONDecodeError "Expecting ',' delimiter"
                      end)
                  else JSONDecodeError "Expecting ':' delimiter"
              | [] => JSONDecodeError "Expecting ':' delimiter"
              end)
          else JSONDecodeError "Expecting property name enclosed in double quotes"
      | [] => JSONDecodeError "Expecting property name enclosed in double quotes"
      end
  end.

(** [json.loads] under a recursion limit. *)
Definition loads (recursion_limit : nat) (s : text_in) : res json :=
  let l := drop_while is_json_space s in
  res_bind (scan_once (2 * length l + 1) recursion_limit l) (λ '(v, rest),
    match drop_while is_json_space rest with
    | [] => Ok v
    | _ => JSONDecodeError "Extra data"
    end).
End scanner.

(** ** The hooks of the code *)

Definition accept_constant (name : string) : res json :=
  Ok (JFloat (if bool_decide (name = "NaN") then S754_nan
              else S754_infinity (bool_decide (name = "-Infinity")))).

(** [dict(pairs)]: the last value of a key, at its first position. *)
Definition dict_of (pairs : list (string * json)) : list (string * json) :=
  fold_left (λ d p, assoc_set p.1 p.2 d) pairs [].

Definition default_hooks : hooks :=
  {| object_pairs_hook := λ pairs, Ok (JObj (dict_of pairs)); parse_constant := accept_constant |}.

(** [_unique_object], [_unique], [unique_pairs]: a duplicate key is [error]. *)
Fixpoint unique_object (error : exn) (result pairs : list (string * json)) : res json :=
  match pairs with
  | [] => Ok (JObj result)
  | (key, value) :: pairs =>
      if is_some (assoc key result) then Exn error
      else unique_object error (result ++ [(key, value)]) pairs
  end.

Definition unique_hooks (error : exn) (constant : string → res json) : hooks :=
  {| object_pairs_hook := unique_object error []; parse_constant := constant |}.
