(* ===== verification/JsonFacts.v ===== *)
(** * JSON text round trips

    Reading back what [json.dumps] writes: for values without floats and within
    the limits of the reader, [loads] of the text of a value is the value with
    its objects in key order.  In particular the text determines the value.
    The reader ends within its fuel, and with a hook that refuses duplicate keys it
    accepts exactly the text whose objects have none. *)

From S2P Require Import Prelude Store AuditLog Contracts Canonical Demo Semver SemverFacts Json.

(** ** Induction on values *)

Lemma json_nested_ind (P : json → Prop) :
  P JNull → (∀ b, P (JBool b)) → (∀ n, P (JInt n)) → (∀ x, P (JFloat x)) → (∀ s, P (JStr s)) →
  (∀ items, Forall P items → P (JList items)) →
  (∀ entries, Forall (λ e : string * json, P e.2) entries → P (JObj entries)) →
  ∀ v, P v.
Proof.
  intros Hn Hb Hi Hf Hs Hl Ho. fix IH 1. intros [|b|n|x|s|items|entries];
    [exact Hn|apply Hb|apply Hi|apply Hf|apply Hs| |].
  - apply Hl. induction items as [|v items IHitems]; constructor; [apply IH|apply IHitems].
  - apply Ho. induction entries as [|[k v] entries IHentries]; constructor; [apply IH|apply IHentries].
Qed.

(** ** Sorting commutes with a map that keeps the keys *)

Section order_map.
Context {A B : Type} (f : A → B) (leb : A → A → bool) (leb' : B → B → bool).
Context (Hf : ∀ x y, leb' (f x) (f y) = leb x y).

Lemma list_merge_map l k :
  list_merge (bool_rel leb') (map f l) (map f k) = map f (list_merge (bool_rel leb) l k).
Proof.
  revert k. induction l as [|x l IHl]; intros k; simpl; [by destruct k|].
  induction k as [|y k IHk]; simpl; [done|].
  destruct (decide (bool_rel leb x y)) as [H|H].
  - rewrite decide_True by (unfold bool_rel in *; by rewrite Hf). simpl. by rewrite <- IHl.
  - rewrite decide_False by (unfold bool_rel in *; by rewrite Hf). simpl. f_equal. exact IHk.
Qed.

Lemma merge_list_to_stack_map (st : list (option (list A))) (l : list A) :
  merge_list_to_stack (bool_rel leb') (map (option_map (map f)) st) (map f l)
  = map (option_map (map f)) (merge_list_to_stack (bool_rel leb) st l).
Proof.
  revert l. induction st as [|[l'|] st IH]; intros l; simpl; [done| |done].
  f_equal. by rewrite list_merge_map, IH.
Qed.

Lemma merge_stack_map (st : list (option (list A))) :
  merge_stack (bool_rel leb') (map (option_map (map f)) st) = map f (merge_stack (bool_rel leb) st).
Proof. induction st as [|[l|] st IH]; simpl; [done| |done]. by rewrite <- list_merge_map, <- IH. Qed.

Lemma order_by_map l : order_by leb' (map f l) = map f (order_by leb l).
Proof.
  unfold order_by, merge_sort.
  change (@nil (option (list B))) with (map (option_map (map f)) []).
  generalize (@nil (option (list A))) as st.
  induction l as [|x l IH]; intros st; simpl; [apply merge_stack_map|].
  change [f x] with (map f [x]). by rewrite merge_list_to_stack_map, IH.
Qed.
End order_map.

(** ** Strings *)

Definition dquote : Ascii.ascii := Ascii.ascii_of_nat 34.

Lemma chars_concat sep l :
  chars (String.concat sep l)
  = match l with [] => [] | s :: l => chars s ++ flat_map (λ s, chars sep ++ chars s) l end.
Proof.
  induction l as [|s l IH]; simpl; [done|]. destruct l as [|s' l]; [by rewrite app_nil_r|].
  rewrite !chars_app. f_equal. f_equal. rewrite IH. simpl. by rewrite <- app_assoc.
Qed.

Lemma chars_json_string s :
  chars (json_string s) = dquote :: flat_map (λ c, chars (escape_char c)) (chars s) ++ [dquote].
Proof.
  unfold json_string. rewrite !chars_app, chars_concat.
  change (chars quote) with [dquote]. cbn [app]. do 2 f_equal.
  induction (chars s) as [|c l IH]; [done|]. cbn [map flat_map]. rewrite <- IH. clear IH.
  destruct l as [|d l]; cbn [map flat_map]; [by rewrite app_nil_r|]. done.
Qed.

(** Each escape is read back as its character. *)
Lemma scan_escape_char c acc l :
  scanstring acc (chars (escape_char c) ++ l) = scanstring (c :: acc) l.
Proof. destruct c as [[] [] [] [] [] [] [] []]; reflexivity. Qed.

Lemma scan_escaped l acc rest :
  scanstring acc (flat_map (λ c, chars (escape_char c)) l ++ dquote :: rest) = Ok (rev acc ++ l, rest).
Proof.
  revert acc. induction l as [|c l IH]; intros acc; [by rewrite app_nil_r|].
  cbn [flat_map]. rewrite <- app_assoc, scan_escape_char, IH. simpl. by rewrite <- app_assoc.
Qed.

Lemma scan_json_string s rest :
  scanstring [] (flat_map (λ c, chars (escape_char c)) (chars s) ++ [dquote] ++ rest) = Ok (chars s, rest).
Proof. apply (scan_escaped _ []). Qed.

(** ** Numbers *)

(** What may follow a number without becoming part of it. *)
Definition ends_number (rest : text_in) : Prop :=
  match rest with
  | [] => True
  | c :: _ => is_digit c = false ∧ in_set (code c) [46; 101; 69] = false
  end.

Lemma take_while_digits l rest :
  forallb is_digit l = true → ends_number rest → take_while is_digit (l ++ rest) = (l, rest).
Proof.
  intros Hl Hr. induction l as [|c l IH]; simpl in *.
  - destruct rest as [|c rest]; [done|]. simpl. by destruct Hr as [-> _].
  - propify. rewrite H. by rewrite IH.
Qed.

Lemma match_integer_decimal l n rest :
  decimal_of l n → ends_number rest → match_integer (l ++ rest) = Some (l, rest).
Proof.
  intros (Hd & _ & Hh) Hr. destruct l as [|c l]; [done|]. simpl in *. propify.
  destruct (Z.eqb_spec (code c) 48); [done|]. rewrite H.
  by rewrite take_while_digits by done.
Qed.

Lemma no_fraction rest : ends_number rest → match_fraction rest = (None, rest).
Proof.
  destruct rest as [|c rest]; [done|]. intros [_ Hc]. simpl.
  destruct (Z.eqb_spec (code c) 46) as [E|]; [|done]. by rewrite E in Hc.
Qed.

Lemma no_exponent rest : ends_number rest → match_exponent rest = (None, rest).
Proof.
  destruct rest as [|c rest]; [done|]. intros [_ Hc]. unfold match_exponent.
  destruct (in_set (code c) [101; 69]) eqn:E; [|done]. exfalso.
  unfold in_set in *. apply bool_decide_eq_true in E. apply bool_decide_eq_false in Hc.
  apply Hc. by right.
Qed.

(** An integer whose digits the reader accepts. *)
Definition short_int (n : Z) : Prop := (String.length (Z_str (Z.abs n)) <= int_max_str_digits)%nat.

Lemma match_unsigned_int negative p l rest :
  decimal_of l (Z.pos p) → (length l <= int_max_str_digits)%nat → ends_number rest →
  match_unsigned negative (l ++ rest) = Ok (Some (JInt (if negative then - Z.pos p else Z.pos p), rest)).
Proof.
  intros Hl Hlen Hr. unfold match_unsigned. rewrite (match_integer_decimal l (Z.pos p)) by done.
  rewrite no_fraction, no_exponent by done. apply Nat.ltb_ge in Hlen. rewrite Hlen.
  by destruct Hl as (_ & -> & _).
Qed.

Lemma match_number_int n rest :
  short_int n → ends_number rest → match_number (chars (Z_str n) ++ rest) = Ok (Some (JInt n, rest)).
Proof.
  unfold short_int. rewrite <- length_chars. intros Hlen Hr. destruct n as [|p|p]; unfold match_number.
  - change (chars (Z_str 0) ++ rest) with (chars "0" ++ rest).
    change (match_unsigned false (chars "0" ++ rest) = Ok (Some (JInt 0, rest))).
    unfold match_unsigned. simpl match_integer. cbv iota beta. by rewrite no_fraction, no_exponent.
  - destruct (Z_str_positive p) as (l & El & Hl). change (Z.abs (Z.pos p)) with (Z.pos p) in Hlen.
    rewrite El in *. pose proof (match_unsigned_int false p l rest Hl Hlen Hr) as H.
    destruct l as [|c l]; [by destruct Hl as (_ & _ & [])|]. cbn [app] in *.
    destruct Hl as (Hd & _ & _). simpl in Hd. propify.
    destruct (Z.eqb_spec (code c) 45) as [E|]; [|exact H].
    unfold is_digit, between in *. propify. lia.
  - rewrite Z_str_negative. destruct (Z_str_positive p) as (l & El & Hl). change (Z.abs (Z.neg p)) with (Z.pos p) in Hlen.
    rewrite El in *. exact (match_unsigned_int true p l rest Hl Hlen Hr).
Qed.

(** ** Values *)

(** The containers of a value nest this deep. *)
Fixpoint json_depth (v : json) : nat :=
  match v with
  | JList items => S (list_max (map json_depth items))
  | JObj entries => S (list_max (map (λ e : string * json, json_depth e.2) entries))
  | _ => 0
  end%nat.

(** The value with the entries of its objects in key order. *)
Fixpoint sorted_json (v : json) : json :=
  match v with
  | JList items => JList (map sorted_json items)
  | JObj entries => JObj (sort_entries (map (λ e : string * json, (e.1, sorted_json e.2)) entries))
  | v => v
  end.

(** What the reader gives back: no floats, no integer beyond its limit, and
    objects that are dictionaries. *)
Inductive readable : json → Prop :=
| readable_null : readable JNull
| readable_bool b : readable (JBool b)
| readable_int n : short_int n → readable (JInt n)
| readable_str s : readable (JStr s)
| readable_list items : Forall readable items → readable (JList items)
| readable_obj entries :
    NoDup entries.*1 → Forall (λ e : string * json, readable e.2) entries → readable (JObj entries).

Lemma sorted_obj entries :
  sorted_json (JObj entries)
  = JObj (map (λ e : string * json, (e.1, sorted_json e.2)) (sort_entries entries)).
Proof. simpl. unfold sort_entries. by rewrite (order_by_map _ (λ a b, str_leb a.1 b.1)). Qed.

Lemma arrange_map {V W} (f : V → W) sort_keys (l : list (string * V)) :
  arrange sort_keys (map (λ e, (e.1, f e.2)) l) = map (λ e, (e.1, f e.2)) (arrange sort_keys l).
Proof. destruct sort_keys; [|done]. apply (order_by_map _ (λ a b, str_leb a.1 b.1)). done. Qed.

Section round_trip.
Context `{Contracts} (h : hooks) (sort_keys : bool) (item_sep key_sep : string) (item_spaces key_spaces : text_in).
Context (pairs_hook : ∀ pairs, NoDup pairs.*1 → object_pairs_hook h pairs = Ok (JObj pairs)).
Context (item_sep_ok : chars item_sep = Ascii.ascii_of_nat 44 :: item_spaces).
Context (key_sep_ok : chars key_sep = Ascii.ascii_of_nat 58 :: key_spaces).
Context (item_spaces_ok : forallb is_json_space item_spaces = true).
Context (key_spaces_ok : forallb is_json_space key_spaces = true).

(** The value as it is written. *)
Definition arranged (v : json) : json := if sort_keys then sorted_json v else v.

Definition dumped (v : json) : text_in := chars (json_dumps sort_keys item_sep key_sep v).

Definition dumped_entry (e : string * json) : text_in :=
  chars (json_string e.1) ++ chars key_sep ++ dumped e.2.

(** Texts between brackets, with separators. *)
Definition joined (l : list text_in) : text_in :=
  match l with [] => [] | t :: l => t ++ flat_map (λ t, chars item_sep ++ t) l end.

Lemma chars_joined l : chars (String.concat item_sep l) = joined (map chars l).
Proof.
  rewrite chars_concat. destruct l as [|s l]; [done|]. simpl. f_equal.
  induction l as [|s' l IH]; [done|]. simpl. by rewrite IH.
Qed.

Lemma dumped_list items :
  dumped (JList items) = [Ascii.ascii_of_nat 91] ++ joined (map dumped items) ++ [Ascii.ascii_of_nat 93].
Proof. unfold dumped. simpl json_dumps. rewrite !chars_app, chars_joined, map_map. done. Qed.

Lemma dumped_obj entries :
  dumped (JObj entries)
  = [Ascii.ascii_of_nat 123] ++ joined (map dumped_entry (arrange sort_keys entries)) ++ [Ascii.ascii_of_nat 125].
Proof.
  unfold dumped. simpl json_dumps. rewrite !chars_app, chars_joined, map_map.
  assert ((fix go (es : list (string * json)) : list (string * string) :=
             match es with
             | [] => []
             | (k, x) :: es' => (k, json_dumps sort_keys item_sep key_sep x) :: go es'
             end) entries = map (λ e, (e.1, json_dumps sort_keys item_sep key_sep e.2)) entries) as ->.
  { induction entries as [|[k x] es IH]; [done|]. simpl. by rewrite IH. }
  rewrite (arrange_map (json_dumps sort_keys item_sep key_sep)), map_map. do 3 f_equal. apply map_ext. intros e. unfold dumped_entry, dumped.
  by rewrite !chars_app.
Qed.

Lemma arranged_leaf v : sorted_json v = v → arranged v = v.
Proof. intros Hv. unfold arranged. by destruct sort_keys. Qed.

Lemma arranged_obj entries :
  arranged (JObj entries) = JObj (map (λ e : string * json, (e.1, arranged e.2)) (arrange sort_keys entries)).
Proof.
  unfold arranged, arrange. destruct sort_keys; [by rewrite sorted_obj|]. f_equal.
  rewrite <- (map_id entries) at 1. apply map_ext. by intros [].
Qed.

Lemma arranged_list items : arranged (JList items) = JList (map arranged items).
Proof. unfold arranged. destruct sort_keys; [done|]. by rewrite map_id. Qed.

Lemma arrange_perm {V} (entries : list (string * V)) : arrange sort_keys entries ≡ₚ entries.
Proof. unfold arrange. destruct sort_keys; [apply order_by_Permutation|done]. Qed.

Lemma skip_spaces l t : forallb is_json_space l = true → drop_while is_json_space (l ++ t) = drop_while is_json_space t.
Proof. induction l as [|c l IH]; simpl; [done|]. intros Hl. propify. by rewrite H0, IH. Qed.

(** A text that begins a value or a key: no space and no bracket comes first. *)
Definition starts (t : text_in) : Prop :=
  match t with
  | c :: _ => is_json_space c = false ∧ in_set (code c) [93; 125] = false
  | [] => False
  end.

Lemma skip_none t k : starts t → drop_while is_json_space (t ++ k) = t ++ k.
Proof. destruct t as [|c t]; [done|]. simpl. by intros [-> _]. Qed.

Lemma dumped_starts v : readable v → starts (dumped v).
Proof.
  intros Hv. destruct Hv as [|b|n Hn|s|items Hi|entries Hnd He].
  - done.
  - by destruct b.
  - unfold dumped. simpl json_dumps. destruct n as [|p|p]; [done| |by rewrite Z_str_negative].
    destruct (Z_str_positive p) as (l & -> & Hd & _ & Hh). destruct l as [|c l]; [done|]. simpl in Hd. propify.
    unfold starts, is_json_space, in_set, is_digit, between in *. propify.
    split; apply bool_decide_eq_false; intros Hin; rewrite !elem_of_cons, elem_of_nil in Hin; lia.
  - unfold dumped. simpl json_dumps. by rewrite chars_json_string.
  - by rewrite dumped_list.
  - by rewrite dumped_obj.
Qed.

(** The reader gives the value back, within its fuel and depth. *)
Definition reads_back (v : json) : Prop :=
  ∀ fuel depth rest, (2 * length (dumped v) <= fuel)%nat → (json_depth v <= depth)%nat → ends_number rest →
  scan_once h fuel depth (dumped v ++ rest) = Ok (arranged v, rest).

Lemma comma_ends rest : ends_number (chars item_sep ++ rest).
Proof. by rewrite item_sep_ok. Qed.

Lemma joined_cons t l rest :
  joined (t :: l) ++ rest = t ++ flat_map (λ t, chars item_sep ++ t) l ++ rest.
Proof. simpl. by rewrite <- app_assoc. Qed.

(** After a separator comes the rest of the list. *)
Lemma joined_next t t' l rest :
  starts t' →
  joined (t :: t' :: l) ++ rest
  = t ++ Ascii.ascii_of_nat 44 :: item_spaces ++ joined (t' :: l) ++ rest
  ∧ drop_while is_json_space (item_spaces ++ joined (t' :: l) ++ rest) = joined (t' :: l) ++ rest.
Proof.
  intros Ht'. split.
  - simpl. rewrite item_sep_ok. by rewrite <- !app_assoc.
  - rewrite skip_spaces by done. rewrite joined_cons. by apply skip_none.
Qed.

Lemma scan_items_comma fuel depth items l v rest :
  scan_once h fuel depth l = Ok (v, Ascii.ascii_of_nat 44 :: rest) →
  scan_items h (S fuel) depth items l
  = scan_items h fuel depth (v :: items) (drop_while is_json_space rest).
Proof. intros E. cbn [scan_items]. by rewrite E. Qed.

Lemma scan_items_close fuel depth items l v rest :
  scan_once h fuel depth l = Ok (v, Ascii.ascii_of_nat 93 :: rest) →
  scan_items h (S fuel) depth items l = Ok (JList (rev (v :: items)), rest).
Proof. intros E. cbn [scan_items]. by rewrite E. Qed.

(** The length of a list of texts. *)
Lemma joined_length t t' l :
  (length (joined (t :: t' :: l)) >= length t + 1 + length (joined (t' :: l)))%nat.
Proof.
  cbn [joined flat_map]. rewrite !length_app, item_sep_ok. cbn [length]. lia.
Qed.

Lemma scan_items_back v items acc fuel depth rest :
  readable v → Forall readable items → reads_back v → Forall reads_back items →
  (2 * length (joined (map dumped (v :: items))) + 1 <= fuel)%nat →
  (list_max (map json_depth (v :: items)) <= depth)%nat →
  scan_items h fuel depth acc (joined (map dumped (v :: items)) ++ Ascii.ascii_of_nat 93 :: rest)
  = Ok (JList (rev acc ++ map arranged (v :: items)), rest).
Proof.
  revert v acc fuel. induction items as [|v' items IH]; intros v acc fuel Hv Hvs Hb Hbs Hfuel Hdepth;
    (destruct fuel as [|fuel]; [lia|]).
  - cbn [map] in *. rewrite (scan_items_close _ _ _ _ (arranged v) rest); [done|].
    cbn [joined flat_map] in *. rewrite app_nil_r in *. apply Hb; [lia|simpl in *; lia|done].
  - apply Forall_cons in Hvs as [Hv' Hvs], Hbs as [Hb' Hbs]. cbn [map] in *.
    destruct (joined_next (dumped v) (dumped v') (map dumped items)
      (Ascii.ascii_of_nat 93 :: rest) (dumped_starts v' Hv')) as [E1 E2].
    pose proof (joined_length (dumped v) (dumped v') (map dumped items)) as Elen.
    cbn [list_max fold_right] in Hdepth. rewrite E1.
    rewrite (scan_items_comma _ _ _ _ (arranged v)
      (item_spaces ++ joined (dumped v' :: map dumped items) ++ Ascii.ascii_of_nat 93 :: rest)).
    2: { apply Hb; [lia|lia|done]. }
    rewrite E2, IH; [|done..|lia|exact (Nat.max_lub_r _ _ _ Hdepth)].
    simpl. by rewrite <- app_assoc.
Qed.

(** One pair of an object. *)
Definition entry_reads (e : string * json) : Prop := readable e.2 ∧ reads_back e.2.

Lemma scan_pair fuel depth e acc rest :
  entry_reads e → (2 * length (dumped_entry e) <= fuel)%nat → (json_depth e.2 <= depth)%nat →
  ends_number rest →
  scan_pairs h (S fuel) depth acc (dumped_entry e ++ rest)
  = match drop_while is_json_space rest with
    | c :: after =>
        if code c =? 125 then
          res_bind (object_pairs_hook h (rev ((e.1, arranged e.2) :: acc))) (λ v, Ok (v, after))
        else if code c =? 44 then
          scan_pairs h fuel depth ((e.1, arranged e.2) :: acc) (drop_while is_json_space after)
        else JSONDecodeError "Expecting ',' delimiter"
    | [] => JSONDecodeError "Expecting ',' delimiter"
    end.
Proof.
  intros [Hr Hb] Hfuel Hdepth Hrest. destruct e as [k v]. unfold dumped_entry in *. cbn [fst snd] in *.
  rewrite !length_app, chars_json_string, key_sep_ok in *. cbn [length] in Hfuel.
  cbn [app scan_pairs]. change (code dquote =? 34) with true. cbv iota.
  rewrite <- !app_assoc, scan_json_string. cbn [res_bind app]. rewrite <- (app_assoc key_spaces).
  change (drop_while is_json_space (Ascii.ascii_of_nat 58 :: key_spaces ++ dumped v ++ rest))
    with (Ascii.ascii_of_nat 58 :: key_spaces ++ dumped v ++ rest).
  cbv iota. change (code (Ascii.ascii_of_nat 58) =? 58) with true. cbv iota.
  rewrite skip_spaces by done. rewrite skip_none by by apply dumped_starts.
  rewrite Hb; [|lia|done|done]. cbn [res_bind]. by rewrite text_chars.
Qed.

Lemma dumped_entry_starts e : starts (dumped_entry e).
Proof. unfold dumped_entry. by rewrite chars_json_string. Qed.

Lemma scan_pairs_back e entries acc fuel depth rest :
  Forall entry_reads (e :: entries) →
  (2 * length (joined (map dumped_entry (e :: entries))) + 1 <= fuel)%nat →
  (list_max (map (λ e : string * json, json_depth e.2) (e :: entries)) <= depth)%nat →
  scan_pairs h fuel depth acc (joined (map dumped_entry (e :: entries)) ++ Ascii.ascii_of_nat 125 :: rest)
  = res_bind (object_pairs_hook h (rev acc ++ map (λ e, (e.1, arranged e.2)) (e :: entries)))
      (λ v, Ok (v, rest)).
Proof.
  revert e acc fuel. induction entries as [|e' entries IH]; intros e acc fuel Hall Hfuel Hdepth;
    (destruct fuel as [|fuel]; [lia|]); apply Forall_cons in Hall as [He Hall].
  - cbn [map] in *. cbn [joined flat_map] in *. rewrite app_nil_r in *.
    rewrite scan_pair; [|done|lia|simpl in *; lia|done]. done.
  - cbn [map] in *.
    destruct (joined_next (dumped_entry e) (dumped_entry e') (map dumped_entry entries)
      (Ascii.ascii_of_nat 125 :: rest) (dumped_entry_starts e')) as [E1 E2].
    pose proof (joined_length (dumped_entry e) (dumped_entry e') (map dumped_entry entries)) as Elen.
    cbn [list_max fold_right] in Hdepth. rewrite E1. rewrite scan_pair; [|done|lia|lia|done].
    change (drop_while is_json_space (Ascii.ascii_of_nat 44 :: ?l)) with (Ascii.ascii_of_nat 44 :: l).
    cbv iota. change (code (Ascii.ascii_of_nat 44) =? 125) with false.
    change (code (Ascii.ascii_of_nat 44) =? 44) with true. cbv iota.
    rewrite E2, IH; [|done|lia|exact (Nat.max_lub_r _ _ _ Hdepth)].
    simpl. by rewrite <- app_assoc.
Qed.

Lemma list_max_perm l k : l ≡ₚ k → list_max l = list_max k.
Proof. induction 1; simpl; lia. Qed.

Lemma scan_once_scalar fuel depth l :
  match l with c :: _ => in_set (code c) [34; 91; 123] = false | [] => False end →
  scan_once h (S fuel) depth l = scan_scalar h l.
Proof.
  destruct l as [|c l]; [done|]. intros Hc. unfold in_set in Hc. apply bool_decide_eq_false in Hc.
  rewrite !not_elem_of_cons in Hc. destruct Hc as (H1 & H2 & H3 & _). cbn [scan_once].
  by rewrite !(proj2 (Z.eqb_neq _ _)) by done.
Qed.

Lemma scan_scalar_int n rest :
  short_int n → ends_number rest → scan_scalar h (chars (Z_str n) ++ rest) = Ok (JInt n, rest).
Proof.
  intros Hn Hrest. unfold scan_scalar. rewrite match_number_int by done.
  destruct n as [|p|p]; [done| |by rewrite Z_str_negative].
  destruct (Z_str_positive p) as (l & -> & Hd & _ & Hh). destruct l as [|c l]; [done|]. simpl in Hd. propify.
  cbn [app]. assert (∀ d w, is_digit d = false → strip (d :: w) (c :: l ++ rest) = None) as Hs.
  { intros d w Hdd. simpl. destruct (decide (d = c)) as [->|]; [congruence|done]. }
  change (chars "null") with (Ascii.ascii_of_nat 110 :: chars "ull").
  change (chars "true") with (Ascii.ascii_of_nat 116 :: chars "rue").
  change (chars "false") with (Ascii.ascii_of_nat 102 :: chars "alse").
  by rewrite !Hs by done.
Qed.

Lemma scan_once_items fuel depth t :
  starts t → scan_once h (S fuel) (S depth) (Ascii.ascii_of_nat 91 :: t) = scan_items h fuel depth [] t.
Proof.
  intros Hst. destruct t as [|c t]; [done|]. pose proof (skip_none (c :: t) [] Hst) as Hskip.
  rewrite app_nil_r in Hskip. cbn [scan_once]. change (code (Ascii.ascii_of_nat 91) =? 34) with false.
  change (code (Ascii.ascii_of_nat 91) =? 91) with true. cbv iota. rewrite Hskip.
  destruct Hst as [_ Hc]. destruct (Z.eqb_spec (code c) 93) as [E|]; [by rewrite E in Hc|done].
Qed.

Lemma scan_once_pairs fuel depth t :
  starts t → scan_once h (S fuel) (S depth) (Ascii.ascii_of_nat 123 :: t) = scan_pairs h fuel depth [] t.
Proof.
  intros Hst. destruct t as [|c t]; [done|]. pose proof (skip_none (c :: t) [] Hst) as Hskip.
  rewrite app_nil_r in Hskip. cbn [scan_once]. change (code (Ascii.ascii_of_nat 123) =? 34) with false.
  change (code (Ascii.ascii_of_nat 123) =? 91) with false.
  change (code (Ascii.ascii_of_nat 123) =? 123) with true. cbv iota. rewrite Hskip.
  destruct Hst as [_ Hc]. destruct (Z.eqb_spec (code c) 125) as [E|]; [by rewrite E in Hc|done].
Qed.

Lemma starts_app t k : starts t → starts (t ++ k).
Proof. by destruct t. Qed.

Lemma scan_dumped v : readable v → reads_back v.
Proof.
  induction v as [|b|n|x|s|items IH|entries IH] using json_nested_ind; intros Hv fuel depth rest Hfuel Hdepth Hrest;
    (destruct fuel as [|fuel];
     [pose proof (dumped_starts _ Hv) as Hst; destruct (dumped _); [done|simpl in Hfuel; lia]|]);
    inversion Hv as [| |? Hn| |? Hi|? Hnd He]; subst.
  - by rewrite arranged_leaf.
  - rewrite arranged_leaf by done. by destruct b.
  - rewrite arranged_leaf by done. rewrite scan_once_scalar; [by apply scan_scalar_int|].
    unfold dumped. simpl json_dumps. destruct n as [|p|p]; [done| |by rewrite Z_str_negative].
    destruct (Z_str_positive p) as (l & -> & Hd & _ & Hh). destruct l as [|c l]; [done|]. simpl in *. propify.
    unfold is_digit, between, in_set in *. propify. apply bool_decide_eq_false.
    rewrite !elem_of_cons, elem_of_nil. lia.
  - rewrite arranged_leaf by done. unfold dumped. simpl json_dumps. rewrite chars_json_string. cbn [app scan_once].
    change (code dquote =? 34) with true. cbv iota. rewrite <- app_assoc, scan_json_string.
    cbn [res_bind]. by rewrite text_chars.
  - rewrite dumped_list, arranged_list in *. cbn [app] in *. rewrite <- app_assoc. cbn [app].
    rewrite length_cons, length_app in Hfuel. cbn [length] in Hfuel.
    destruct depth as [|depth]; [simpl in Hdepth; lia|]. destruct items as [|v items]; [done|].
    apply Forall_cons in IH as [IHv IH], Hi as [Hv0 Hvs].
    rewrite scan_once_items by (cbn [map]; rewrite joined_cons; by apply starts_app, dumped_starts).
    rewrite scan_items_back; [done|done|done|by apply IHv| |lia|simpl in *; lia].
    apply Forall_forall. intros x Hx. rewrite Forall_forall in IH, Hvs. auto.
  - rewrite dumped_obj, arranged_obj in *. cbn [app] in *. rewrite <- app_assoc. cbn [app].
    rewrite length_cons, length_app in Hfuel. cbn [length] in Hfuel.
    destruct depth as [|depth]; [simpl in Hdepth; lia|].
    assert (arrange sort_keys entries ≡ₚ entries) as Hperm by apply arrange_perm.
    assert (Forall entry_reads (arrange sort_keys entries)) as Hall.
    { rewrite Hperm. apply Forall_forall. intros e Hin. rewrite Forall_forall in IH, He.
      split; [by apply He|apply IH, He; done]. }
    assert (NoDup (map (λ e : string * json, (e.1, arranged e.2)) (arrange sort_keys entries)).*1) as Hnd'.
    { rewrite map_map. simpl. by rewrite Hperm. }
    assert (list_max (map (λ e : string * json, json_depth e.2) (arrange sort_keys entries)) <= depth)%nat as Hdep.
    { rewrite (list_max_perm _ (map (λ e : string * json, json_depth e.2) entries)); [simpl in *; lia|].
      by rewrite Hperm. }
    destruct (arrange sort_keys entries) as [|e entries'].
    { cbn [scan_once map joined app].
      change (code (Ascii.ascii_of_nat 123) =? 34) with false. change (code (Ascii.ascii_of_nat 123) =? 91) with false.
      change (code (Ascii.ascii_of_nat 123) =? 123) with true. cbv iota.
      change (drop_while is_json_space (Ascii.ascii_of_nat 125 :: rest)) with (Ascii.ascii_of_nat 125 :: rest).
      cbv iota. change (code (Ascii.ascii_of_nat 125) =? 125) with true. cbv iota.
      by rewrite (pairs_hook []) by constructor. }
    rewrite scan_once_pairs by (cbn [map]; rewrite joined_cons; apply starts_app, dumped_entry_starts).
    rewrite scan_pairs_back by (done || lia). simpl rev. cbn [app]. by rewrite pairs_hook.
Qed.

(** Reading back what was written. *)
Lemma loads_dumps limit v :
  readable v → (json_depth v <= limit)%nat → loads h limit (dumped v) = Ok (arranged v).
Proof.
  intros Hv Hdepth. unfold loads. pose proof (skip_none (dumped v) [] (dumped_starts v Hv)) as Hskip.
  rewrite app_nil_r in Hskip. rewrite Hskip. rewrite <- (app_nil_r (dumped v)) at 2.
  by rewrite scan_dumped by (done || lia).
Qed.
End round_trip.

(** ** The text identifies the value *)

Lemma assoc_app {V} key (l k : list (string * V)) :
  assoc key (l ++ k) = match assoc key l with Some v => Some v | None => assoc key k end.
Proof. induction l as [|[k' v] l IH]; simpl; [done|]. by destruct (decide (k' = key)). Qed.

Lemma assoc_None {V} key (l : list (string * V)) : key ∉ l.*1 → assoc key l = None.
Proof.
  induction l as [|[k v] l IH]; [done|]. rewrite fmap_cons, not_elem_of_cons. simpl. intros [Hne Hl].
  rewrite decide_False by congruence. by apply IH.
Qed.

Lemma assoc_set_new {V} key (v : V) l : key ∉ l.*1 → assoc_set key v l = l ++ [(key, v)].
Proof.
  induction l as [|[k x] l IH]; [done|]. rewrite fmap_cons, not_elem_of_cons. simpl. intros [Hne Hl].
  rewrite decide_False by congruence. by rewrite IH.
Qed.

Lemma dict_of_unique pairs : NoDup pairs.*1 → dict_of pairs = pairs.
Proof.
  intros Hnd. unfold dict_of. rewrite <- (app_nil_l pairs) at 2. revert Hnd.
  assert (∀ acc, NoDup (acc ++ pairs).*1 → fold_left (λ d p, assoc_set p.1 p.2 d) pairs acc = acc ++ pairs)
    as H; [|exact (H [])].
  induction pairs as [|[k v] pairs IH]; intros acc Hnd; simpl; [by rewrite app_nil_r|].
  rewrite assoc_set_new.
  - rewrite IH; [by rewrite <- app_assoc|]. by rewrite <- app_assoc.
  - rewrite fmap_app, fmap_cons in Hnd. apply NoDup_app in Hnd as (_ & Hd & _).
    intros Hin. apply (Hd k Hin). left.
Qed.

Lemma unique_object_unique error result pairs :
  NoDup (result ++ pairs).*1 → unique_object error result pairs = Ok (JObj (result ++ pairs)).
Proof.
  revert result. induction pairs as [|[k v] pairs IH]; intros result Hnd; simpl; [by rewrite app_nil_r|].
  rewrite assoc_None.
  - simpl. rewrite IH; [by rewrite <- app_assoc|]. by rewrite <- app_assoc.
  - rewrite fmap_app, fmap_cons in Hnd. apply NoDup_app in Hnd as (_ & Hd & _).
    intros Hin. apply (Hd k Hin). left.
Qed.

(** A duplicate key is the error. *)
Lemma unique_object_duplicate error result pairs :
  ¬ NoDup (result ++ pairs).*1 → NoDup result.*1 → unique_object error result pairs = Exn error.
Proof.
  revert result. induction pairs as [|[k v] pairs IH]; intros result Hnd Hr; simpl.
  { by rewrite app_nil_r in Hnd. }
  destruct (assoc k result) as [x|] eqn:E; [done|]. simpl.
  assert (k ∉ result.*1) as Hk.
  { clear -E. induction result as [|[k' v'] result IH]; [by intros ?%elem_of_nil|].
    simpl in E. destruct (decide (k' = k)) as [|Hne]; [done|]. rewrite fmap_cons, not_elem_of_cons. auto. }
  apply IH.
  - by rewrite <- app_assoc.
  - rewrite fmap_app. apply NoDup_app. split_and!; [done| |apply NoDup_singleton].
    intros y Hy ->%list_elem_of_singleton. done.
Qed.


Lemma sort_entries_sorted {V} (l : list (string * V)) :
  StronglySorted (bool_rel (λ a b : string * V, str_leb a.1 b.1)) (sort_entries l).
Proof.
  apply order_by_sorted; [intros a b c; apply str_leb_trans|intros a b; apply str_leb_total].
Qed.

(** Two lists of entries in key order, with the same entries, are the same. *)
Lemma sort_entries_unique {V} (l k : list (string * V)) :
  NoDup l.*1 → l ≡ₚ k → sort_entries l = sort_entries k.
Proof.
  intros Hnd Hlk. apply (StronglySorted_unique_strong (bool_rel (λ a b : string * V, str_leb a.1 b.1)));
    [|apply sort_entries_sorted..|unfold sort_entries; by rewrite !order_by_Permutation].
  intros [a x] [b y] Ha Hb Hab Hba. unfold bool_rel in *. simpl in *.
  assert (a = b) as -> by by apply str_leb_antisym.
  unfold sort_entries in *. rewrite elem_of_order_by in Ha. rewrite elem_of_order_by, <- Hlk in Hb.
  apply (elem_of_list_to_map_1 (M := gmap string)) in Ha, Hb; [|done..]. congruence.
Qed.

Section identity.
Context `{Contracts}.

Lemma sorted_map_entries {V W} (f : V → W) (l : list (string * V)) :
  sort_entries (map (λ e, (e.1, f e.2)) l) = map (λ e, (e.1, f e.2)) (sort_entries l).
Proof. apply (arrange_map f true). Qed.

Lemma dumps_obj isep ksep entries :
  json_dumps true isep ksep (JObj entries)
  = "{" +:+ String.concat isep
      (map (λ e : string * json, json_string e.1 +:+ ksep +:+ json_dumps true isep ksep e.2) (sort_entries entries))
    +:+ "}".
Proof.
  simpl json_dumps.
  assert ((fix go (es : list (string * json)) : list (string * string) :=
             match es with
             | [] => []
             | (k, x) :: es' => (k, json_dumps true isep ksep x) :: go es'
             end) entries = map (λ e, (e.1, json_dumps true isep ksep e.2)) entries) as ->.
  { induction entries as [|[k x] es IH]; [done|]. simpl. by rewrite IH. }
  by rewrite sorted_map_entries, map_map.
Qed.

(** The text does not depend on the order of the keys. *)
Lemma dumps_sorted isep ksep v : readable v → json_dumps true isep ksep (sorted_json v) = json_dumps true isep ksep v.
Proof.
  induction v as [|b|n|x|s|items IH|entries IH] using json_nested_ind; intros Hv; try done.
  - simpl. do 3 f_equal. rewrite map_map. apply map_ext_in. intros x Hx. apply list_elem_of_In in Hx.
    inversion Hv as [| | | |? Hi|]; subst. rewrite Forall_forall in IH, Hi. auto.
  - inversion Hv as [| | | | |? Hnd He]; subst. rewrite sorted_obj, !dumps_obj.
    rewrite sorted_map_entries, map_map.
    assert (sort_entries (sort_entries entries) = sort_entries entries) as ->.
    { symmetry. apply sort_entries_unique; [done|]. symmetry. apply order_by_Permutation. }
    do 3 f_equal. apply map_ext_in. intros [k x] Hx. simpl.
    apply list_elem_of_In, elem_of_order_by in Hx. rewrite Forall_forall in IH, He.
    assert (json_dumps true isep ksep (sorted_json x) = json_dumps true isep ksep x) as ->; [|done].
    apply (IH (k, x)); [done|]. by apply (He (k, x)).
Qed.

(** Both separators of the code. *)
Lemma loads_compact limit error v :
  readable v → (json_depth v <= limit)%nat →
  loads default_hooks limit (chars (json_compact v)) = Ok (sorted_json v)
  ∧ loads (unique_hooks error accept_constant) limit (chars (json_compact v)) = Ok (sorted_json v).
Proof.
  intros Hv Hd. split; (eapply loads_dumps with (item_spaces := []) (key_spaces := []); try done).
  - intros pairs Hp. simpl. by rewrite dict_of_unique.
  - intros pairs Hp. by apply (unique_object_unique error []).
Qed.

(** The same without [sort_keys]: the value itself. *)
Lemma loads_unsorted limit error constant v :
  readable v → (json_depth v <= limit)%nat →
  loads (unique_hooks error constant) limit (chars (json_dumps false "," ":" v)) = Ok v.
Proof.
  intros Hv Hd. apply (loads_dumps _ false) with (item_spaces := []) (key_spaces := []); try done.
  intros pairs Hp. by apply (unique_object_unique error []).
Qed.

(** [json.loads] reads back what [json.dumps] wrote: for a value of
    dictionaries, lists, text, booleans, null and integers the reader accepts,
    nested within the recursion limit, the result is the value with its keys in
    order, with and without the duplicate-key hook.  So the compact text (what
    the semantic hash and the result hash digest) is the same for two values
    exactly when they differ at most in the order of their keys. *)
Theorem json_text_identifies_the_value limit v :
  readable v → (json_depth v <= limit)%nat →
  loads default_hooks limit (chars (json_compact v)) = Ok (sorted_json v)
  ∧ (∀ error, loads (unique_hooks error accept_constant) limit (chars (json_compact v)) = Ok (sorted_json v))
  ∧ ∀ v', readable v' → json_compact v = json_compact v' ↔ sorted_json v = sorted_json v'.
Proof.
  intros Hv Hd. split; [by apply (loads_compact _ PayloadConflict)|]. split; [intros e; by apply loads_compact|].
  intros v' Hv'. split; intros E.
  - pose proof (loads_compact (json_depth v + json_depth v') PayloadConflict v Hv ltac:(lia)) as [E1 _].
    pose proof (loads_compact (json_depth v + json_depth v') PayloadConflict v' Hv' ltac:(lia)) as [E2 _].
    rewrite E, E2 in E1. by injection E1.
  - unfold json_compact. by rewrite <- (dumps_sorted _ _ v), E, dumps_sorted.
Qed.
End identity.

Definition demo_value : json :=
  JObj [("version", JInt (-120)); ("name", JStr (String dquote "a\b")); ("tags", JList [JBool true; JNull; JObj []])].

Lemma demo_value_readable : readable demo_value.
Proof.
  assert (∀ n, (String.length (Z_str (Z.abs n)) <=? int_max_str_digits)%nat = true → readable (JInt n)) as Hint
    by (intros n Hn; constructor; by apply Nat.leb_le).
  repeat constructor; try (by apply Hint; vm_compute); try (intros Hin; rewrite ?elem_of_cons, elem_of_nil in Hin;
    naive_solver).
Qed.

Lemma json_text_identifies_the_value_witness :
  loads default_hooks 3 (chars (@json_compact Demo.demo_contracts demo_value)) = Ok (sorted_json demo_value)
  ∧ (∀ error, loads (unique_hooks error accept_constant) 3 (chars (@json_compact Demo.demo_contracts demo_value))
       = Ok (sorted_json demo_value))
  ∧ ∀ v', readable v' →
      @json_compact Demo.demo_contracts demo_value = @json_compact Demo.demo_contracts v'
      ↔ sorted_json demo_value = sorted_json v'.
Proof. apply json_text_identifies_the_value; [exact demo_value_readable|simpl; lia]. Defined.

(** A duplicate key is seen. *)
Example duplicate_key :
  loads (unique_hooks PayloadConflict accept_constant) 3
    (chars "{" ++ dquote :: chars "a" ++ dquote :: chars ":1," ++ dquote :: chars "\u0061" ++ dquote :: chars ":2}")
  = Exn PayloadConflict.
Proof. vm_compute. reflexivity. Qed.

Example float_text : loads default_hooks 0 (chars "1.5e1") = Ok (JFloat (S754_finite false 8444249301319680 (-49))).
Proof. vm_compute. reflexivity. Qed.

(** ** The reader's fuel is enough *)

(** What a scan does: it consumes some of its text and produces a value [P] of it,
    or fails with an error in [E].  [E] need not contain the error for exhausted
    fuel. *)
Definition progress {A} (E : exn → Prop) (P : A → Prop) (l : text_in) (r : res (A * text_in)) : Prop :=
  match r with
  | Ok (v, rest) => P v ∧ (length rest < length l)%nat
  | Exn e => E e
  end.

(** A reader that ends with a value in [P] or an error in [E]. *)
Definition gives {A} (E : exn → Prop) (P : A → Prop) (r : res A) : Prop :=
  match r with Ok v => P v | Exn e => E e end.

Lemma drop_while_length P l : (length (drop_while P l) <= length l)%nat.
Proof. induction l as [|c l IH]; simpl; [done|]. destruct (P c); simpl; lia. Qed.

Lemma take_while_length P l a b : take_while P l = (a, b) → (length b <= length l)%nat.
Proof.
  revert a b. induction l as [|c l IH]; simpl; intros a b; [by intros [= _ <-]|].
  destruct (P c); [|by intros [= _ <-]]. destruct (take_while P l) as [a' b'] eqn:E.
  intros [= _ <-]. pose proof (IH a' b' eq_refl). lia.
Qed.

Lemma match_integer_shrinks l a b : match_integer l = Some (a, b) → (length b < length l)%nat.
Proof.
  destruct l as [|c l]; [done|]. simpl. destruct (code c =? 48); [intros [= _ <-]; lia|].
  destruct (is_digit c); [|done]. destruct (take_while is_digit l) as [a' b'] eqn:E.
  intros [= _ <-]. apply take_while_length in E. lia.
Qed.

Lemma match_fraction_length l a b : match_fraction l = (a, b) → (length b <= length l)%nat.
Proof.
  destruct l as [|c l]; simpl; [by intros [= _ <-]|]. destruct (code c =? 46); [|by intros [= _ <-]].
  destruct (take_while is_digit l) as [a' b'] eqn:E. apply take_while_length in E.
  destruct a'; intros [= _ <-]; simpl; lia.
Qed.

Lemma match_exponent_length l a b : match_exponent l = (a, b) → (length b <= length l)%nat.
Proof.
  destruct l as [|c l]; simpl; [by intros [= _ <-]|].
  destruct (in_set (code c) [101; 69]); [|by intros [= _ <-]].
  destruct (exponent_sign l) as [n l'] eqn:Es.
  assert (length l' <= length l)%nat as Hl.
  { unfold exponent_sign in Es. destruct l as [|s l]; [by injection Es as _ <-|].
    destruct (code s =? 45); [|destruct (code s =? 43)]; injection Es as _ <-; simpl; lia. }
  destruct (take_while is_digit l') as [a' b'] eqn:E. apply take_while_length in E.
  destruct a'; intros [= _ <-]; simpl; lia.
Qed.

Lemma strip_length word l rest : strip word l = Some rest → (length rest + length word = length l)%nat.
Proof.
  revert l. induction word as [|a word IH]; intros [|c l]; simpl; try done; [intros [= <-]; simpl; lia..|].
  destruct (decide (a = c)); [|done]. intros H%IH. lia.
Qed.

Section ends.
Context (h : hooks) (E : exn → Prop) (V : json → Prop).
Context (E_value : ∀ message, E (ValueError message)) (E_depth : ∀ message, E (RecursionError message))
        (E_code_point : E (OutsideModel "code point")).
Context (V_scalar : V JNull ∧ (∀ b, V (JBool b)) ∧ (∀ n, V (JInt n)) ∧ (∀ x, V (JFloat x)) ∧ (∀ s, V (JStr s))).
Context (V_list : ∀ items, Forall V items → V (JList items)).
Context (pairs_give : ∀ pairs, Forall (λ p : string * json, V p.2) pairs → gives E V (object_pairs_hook h pairs)).
Context (constant_gives : ∀ name, gives E V (parse_constant h name)).

Lemma decode_error_in {A} (P : A → Prop) message : gives E P (JSONDecodeError message).
Proof. apply E_value. Qed.

Lemma progress_le {A} (P : A → Prop) (l l' : text_in) r :
  progress E P l r → (length l <= length l')%nat → progress E P l' r.
Proof. intros Hr Hl. destruct r as [[v rest]|e]; simpl in *; [|done]. destruct Hr. split; [done|lia]. Qed.

Lemma progress_bind {A B} (P : A → Prop) (Q : B → Prop) (l : text_in) r k :
  progress E P l r → (∀ v rest, P v → (length rest < length l)%nat → progress E Q l (k (v, rest))) →
  progress E Q l (res_bind r k).
Proof. intros Hr Hk. destruct r as [[v rest]|e]; simpl in *; [|done]. destruct Hr. by apply Hk. Qed.

(** The value of a hook, in front of what is left. *)
Lemma gives_progress (l rest : text_in) r :
  gives E V r → (length rest < length l)%nat → progress E V l (res_bind r (λ v, Ok (v, rest))).
Proof. intros Hr Hl. by destruct r. Qed.

Lemma scanstring_progress acc l : progress E (λ _, True) l (scanstring acc l).
Proof.
  assert (∀ n acc l, (length l <= n)%nat → progress E (λ _, True) l (scanstring acc l)) as H;
    [|by apply (H (length l))].
  clear acc l. intros n. induction n as [|n IH]; intros acc l Hl; (destruct l as [|c l]; [apply E_value|]);
    simpl in Hl; [lia|].
  assert (∀ acc' l', (length l' <= length l)%nat → progress E (λ _, True) (c :: l) (scanstring acc' l')) as Hrec.
  { intros acc' l' Hle. eapply progress_le; [apply IH; lia|simpl; lia]. }
  cbn [scanstring]. destruct (code c =? 34); [simpl; split; [done|lia]|].
  destruct (code c <? 32); [apply E_value|]. destruct (code c =? 92); [|by apply Hrec].
  destruct l as [|e l]; [apply E_value|]. destruct (code e =? 117).
  - destruct l as [|h1 [|h2 [|h3 [|h4 l]]]]; try apply E_value.
    repeat (case_match; try apply E_value; try apply E_code_point). apply Hrec. simpl. lia.
  - destruct (backslash_value e); [apply Hrec; simpl; lia|apply E_value].
Qed.

(** A number, if there is one. *)
Definition number_progress (l : text_in) (r : res (option (json * text_in))) : Prop :=
  match r with
  | Ok (Some (v, rest)) => V v ∧ (length rest < length l)%nat
  | Ok None => True
  | Exn e => E e
  end.

Lemma match_unsigned_progress negative l : number_progress l (match_unsigned negative l).
Proof.
  destruct V_scalar as (_ & _ & Vi & Vf & _).
  unfold match_unsigned. destruct (match_integer l) as [[i r]|] eqn:Ei; [|done].
  apply match_integer_shrinks in Ei. destruct (match_fraction r) as [f r1] eqn:Ef.
  apply match_fraction_length in Ef. destruct (match_exponent r1) as [x r2] eqn:Ex.
  apply match_exponent_length in Ex.
  destruct f, x as [[]|]; simpl; try (split; [apply Vf|lia]).
  destruct (int_max_str_digits <? length i)%nat; simpl; [apply E_value|split; [apply Vi|lia]].
Qed.

Lemma match_number_progress l : number_progress l (match_number l).
Proof.
  unfold match_number. destruct l as [|c l]; [apply match_unsigned_progress|].
  destruct (code c =? 45); [|apply match_unsigned_progress].
  pose proof (match_unsigned_progress true l) as H.
  destruct (match_unsigned true l) as [[[v rest]|]|e]; [|done..]. destruct H. simpl. split; [done|lia].
Qed.

Lemma constant_shrinks name l :
  match rest ← strip (chars name) l; Some (name, rest) with
  | Some (name', rest) => (length rest + length (chars name) = length l)%nat
  | None => True
  end.
Proof. destruct (strip (chars name) l) eqn:Es; simpl; [|done]. by apply strip_length. Qed.

Lemma scan_scalar_progress l : progress E V l (scan_scalar h l).
Proof.
  destruct V_scalar as (V0 & Vb & _).
  unfold scan_scalar. pose proof (match_number_progress l) as Hn.
  destruct (strip (chars "null") l) eqn:E1; [apply strip_length in E1; simpl in *; split; [done|lia]|].
  destruct (strip (chars "true") l) eqn:E2; [apply strip_length in E2; simpl in *; split; [done|lia]|].
  destruct (strip (chars "false") l) eqn:E3; [apply strip_length in E3; simpl in *; split; [done|lia]|].
  destruct (match_number l) as [[[v rest]|]|e]; [done| |done].
  pose proof (constant_shrinks "NaN" l) as H1. pose proof (constant_shrinks "Infinity" l) as H2.
  pose proof (constant_shrinks "-Infinity" l) as H3.
  repeat (case_match; simplify_eq); try apply E_value;
    (apply gives_progress; [by apply constant_gives|simpl in *; lia]).
Qed.

(** Every scan ends within its fuel: twice the length of its text. *)
Lemma scan_progress fuel :
  (∀ depth l, (2 * length l + 1 <= fuel)%nat → progress E V l (scan_once h fuel depth l))
  ∧ (∀ depth items l, Forall V items → (2 * length l + 2 <= fuel)%nat →
       progress E V l (scan_items h fuel depth items l))
  ∧ (∀ depth pairs l, Forall (λ p : string * json, V p.2) pairs → (2 * length l + 2 <= fuel)%nat →
       progress E V l (scan_pairs h fuel depth pairs l)).
Proof.
  destruct V_scalar as (_ & _ & _ & _ & Vs).
  induction fuel as [|fuel (IH1 & IH2 & IH3)]; [split_and!; intros; lia|]. split_and!.
  - intros depth l Hl. cbn [scan_once]. destruct l as [|c l]; [apply E_value|]. cbn [length] in Hl.
    destruct (code c =? 34).
    { eapply progress_bind; [eapply progress_le; [apply scanstring_progress|simpl; lia]|].
      intros s rest _ Hr. split; [apply Vs|done]. }
    pose proof (drop_while_length is_json_space l) as Hd.
    destruct (code c =? 91).
    { destruct depth as [|depth]; [apply E_depth|]. destruct (drop_while is_json_space l) as [|d after]; [apply E_value|].
      cbn [length] in Hd. destruct (code d =? 93); [split; [by apply V_list|simpl; lia]|].
      eapply progress_le; [apply IH2; [constructor|simpl; lia]|simpl; lia]. }
    destruct (code c =? 123).
    { destruct depth as [|depth]; [apply E_depth|]. destruct (drop_while is_json_space l) as [|d after]; [apply E_value|].
      cbn [length] in Hd. destruct (code d =? 125); [apply gives_progress; [by apply pairs_give|simpl; lia]|].
      eapply progress_le; [apply IH3; [constructor|simpl; lia]|simpl; lia]. }
    apply scan_scalar_progress.
  - intros depth items l Hitems Hl. cbn [scan_items]. eapply progress_bind; [apply IH1; lia|].
    intros v rest Hv Hrest. pose proof (drop_while_length is_json_space rest) as Hd.
    destruct (drop_while is_json_space rest) as [|c after]; [apply E_value|]. cbn [length] in Hd.
    destruct (code c =? 93); [split; [|simpl; lia]; apply V_list, Forall_rev; by constructor|].
    destruct (code c =? 44); [|apply E_value].
    pose proof (drop_while_length is_json_space after) as Hd'.
    eapply progress_le; [apply IH2; [by constructor|lia]|lia].
  - intros depth pairs l Hpairs Hl. cbn [scan_pairs]. destruct l as [|q l]; [apply E_value|]. cbn [length] in Hl.
    destruct (code q =? 34); [|apply E_value].
    eapply progress_bind; [eapply progress_le; [apply scanstring_progress|simpl; lia]|].
    intros key rest _ Hrest. pose proof (drop_while_length is_json_space rest) as Hd.
    destruct (drop_while is_json_space rest) as [|colon after]; [apply E_value|]. cbn [length] in *.
    destruct (code colon =? 58); [|apply E_value]. pose proof (drop_while_length is_json_space after) as Hd'.
    eapply progress_bind; [eapply progress_le; [apply IH1; lia|simpl; lia]|].
    intros value rest' Hv Hrest'. cbn [length] in *.
    pose proof (drop_while_length is_json_space rest') as Hd2.
    destruct (drop_while is_json_space rest') as [|c after']; [apply E_value|]. cbn [length] in *.
    destruct (code c =? 125).
    { apply gives_progress; [|simpl; lia]. apply pairs_give, Forall_rev. by constructor. }
    destruct (code c =? 44); [|apply E_value]. pose proof (drop_while_length is_json_space after') as Hd3.
    eapply progress_le; [apply IH3; [by constructor|lia]|simpl; lia].
Qed.

(** The reader always ends, with a value in [V] or one of the errors in [E]: a
    ValueError, a RecursionError, an error of the hooks. *)
Lemma loads_gives limit s : gives E V (loads h limit s).
Proof.
  unfold loads. destruct (scan_progress (2 * length (drop_while is_json_space s) + 1)) as [Hs _].
  pose proof (Hs limit (drop_while is_json_space s) ltac:(lia)) as Hv.
  destruct (scan_once h _ limit _) as [[v rest]|e]; simpl in *; [|done].
  destruct (drop_while _ rest); [by destruct Hv|apply E_value].
Qed.
End ends.

(** ** Objects whose keys are distinct *)

(** No object of the value has a key twice. *)
Inductive distinct_keys : json → Prop :=
| distinct_null : distinct_keys JNull
| distinct_bool b : distinct_keys (JBool b)
| distinct_int n : distinct_keys (JInt n)
| distinct_float x : distinct_keys (JFloat x)
| distinct_str s : distinct_keys (JStr s)
| distinct_list items : Forall distinct_keys items → distinct_keys (JList items)
| distinct_obj entries :
    NoDup entries.*1 → Forall (λ e : string * json, distinct_keys e.2) entries → distinct_keys (JObj entries).

Lemma in_keys_assoc {V} key (l : list (string * V)) : key ∈ l.*1 → ∃ v, assoc key l = Some v.
Proof.
  induction l as [|[k v] l IH]; simpl; [by intros ?%elem_of_nil|].
  rewrite elem_of_cons. destruct (decide (k = key)) as [->|]; [by eexists|].
  intros [?|?]; [done|by apply IH].
Qed.

Lemma unique_object_gives (E : exn → Prop) error result pairs :
  E error → NoDup result.*1 → Forall (λ e : string * json, distinct_keys e.2) (result ++ pairs) →
  gives E distinct_keys (unique_object error result pairs).
Proof.
  intros He. revert result. induction pairs as [|[k v] pairs IH]; intros result Hd Hf; simpl.
  { rewrite app_nil_r in Hf. by constructor. }
  destruct (is_some (assoc k result)) eqn:Ek; [done|]. apply IH.
  - rewrite fmap_app. apply NoDup_app. split_and!; [done| |apply NoDup_singleton].
    intros x Hx ->%list_elem_of_singleton. apply (in_keys_assoc k) in Hx as [w Hw]. by rewrite Hw in Ek.
  - by rewrite <-app_assoc.
Qed.

(** [json.loads] with a hook that refuses duplicates. *)
Lemma unique_loads (E : exn → Prop) error constant limit s :
  (∀ message, E (ValueError message)) → (∀ message, E (RecursionError message)) →
  E (OutsideModel "code point") → E error → (∀ name, gives E distinct_keys (constant name)) →
  gives E distinct_keys (loads (unique_hooks error constant) limit s).
Proof.
  intros Hv Hr Hc He Hk. apply loads_gives; try done.
  - split_and!; constructor.
  - by constructor.
  - intros pairs Hp. apply unique_object_gives; [done|constructor|done].
Qed.

Lemma accept_constant_gives E name : gives E distinct_keys (accept_constant name).
Proof. constructor. Qed.

(** The error of exhausted fuel, which no reader raises. *)
Definition no_fuel : exn := OutsideModel "fuel".

Lemma unique_loads_ends error constant limit s :
  error ≠ no_fuel → (∀ name, gives (λ e, e ≠ no_fuel) distinct_keys (constant name)) →
  loads (unique_hooks error constant) limit s ≠ Exn no_fuel.
Proof.
  intros He Hk Hl. pose proof (unique_loads (λ e, e ≠ no_fuel) error constant limit s) as H.
  rewrite Hl in H. by apply H.
Qed.

(** ** What the hook that refuses duplicates accepts *)

(** Every pair of an object, repetitions included. *)
Definition pair_hooks (constant : string → res json) : hooks :=
  {| object_pairs_hook := λ pairs, Ok (JObj pairs); parse_constant := constant |}.

Lemma bind_yields {A B} (r : res A) (k : A → res B) b : res_bind r k = Ok b ↔ ∃ a, r = Ok a ∧ k a = Ok b.
Proof. destruct r as [a|e]; simpl; split; try done; [eauto|by intros (? & [= ->] & ?)|by intros (? & ? & _)]. Qed.

Lemma distinct_list_iff items : distinct_keys (JList items) ↔ Forall distinct_keys items.
Proof. split; [by inversion 1|apply distinct_list]. Qed.

Lemma distinct_obj_iff entries :
  distinct_keys (JObj entries) ↔ NoDup entries.*1 ∧ Forall (λ e : string * json, distinct_keys e.2) entries.
Proof. split; [by inversion 1|intros []; by constructor]. Qed.

Lemma unique_object_Ok error pairs v :
  unique_object error [] pairs = Ok v ↔ v = JObj pairs ∧ NoDup pairs.*1.
Proof.
  destruct (decide (NoDup pairs.*1)) as [Hn|Hn].
  - rewrite (unique_object_unique error []) by done. simpl. split; [by intros [= <-]|by intros [-> _]].
  - rewrite (unique_object_duplicate error []) by (done || constructor). by split; [|intros [_ ?]].
Qed.

Lemma Forall_reversed {A} (P : A → Prop) x l : Forall P (rev (x :: l)) → P x ∧ Forall P l.
Proof. intros H. apply (Forall_rev (l := rev _)) in H. rewrite rev_involutive in H. by inversion H. Qed.

Section accepted.
Context (error : exn) (constant : string → res json).
Context (constants_distinct : ∀ name v, constant name = Ok v → distinct_keys v).
Let U := unique_hooks error constant.
Let R := pair_hooks constant.

(** What an array or object has read is part of what it becomes. *)
Lemma scan_has fuel :
  (∀ depth items l v rest, scan_items R fuel depth items l = Ok (v, rest) →
     distinct_keys v → Forall distinct_keys items)
  ∧ (∀ depth pairs l v rest, scan_pairs R fuel depth pairs l = Ok (v, rest) →
     distinct_keys v → Forall (λ p : string * json, distinct_keys p.2) pairs).
Proof.
  induction fuel as [|fuel (IH1 & IH2)]; [done|]. split.
  - intros depth items l v rest. cbn [scan_items]. rewrite bind_yields. intros ([x r] & _ & E) Hv.
    destruct (drop_while is_json_space r) as [|c after]; [done|]. destruct (code c =? 93).
    + injection E as <- _. by apply distinct_list_iff, Forall_reversed in Hv as [_ Hv].
    + destruct (code c =? 44); [|done]. apply IH1 in E; [|done]. by inversion E.
  - intros depth pairs l v rest. cbn [scan_pairs]. destruct l as [|q l]; [done|].
    destruct (code q =? 34); [|done]. rewrite bind_yields. intros ([key r] & _ & E) Hv.
    destruct (drop_while is_json_space r) as [|c after]; [done|]. destruct (code c =? 58); [|done].
    apply bind_yields in E as ([x r'] & _ & E). cbn zeta in E.
    destruct (drop_while is_json_space r') as [|d after']; [done|]. destruct (code d =? 125).
    + injection E as <- _. by apply distinct_obj_iff in Hv as [_ [_ Hv]%Forall_reversed].
    + destruct (code d =? 44); [|done]. apply IH2 in E; [|done]. by inversion E.
Qed.

Lemma scan_scalar_distinct l v rest : scan_scalar U l = Ok (v, rest) → distinct_keys v.
Proof.
  pose proof (scan_scalar_progress U (λ _, True) distinct_keys) as H. intros E.
  specialize (H ltac:(done) ltac:(split_and!; constructor)). specialize (H ltac:(intros name; simpl;
    destruct (constant name) eqn:Ec; [by eapply constants_distinct|done]) l).
  rewrite E in H. by destruct H.
Qed.

(** The first scan accepts what the second finds distinct. *)
Definition agree (a b : res (json * text_in)) : Prop :=
  ∀ v rest, a = Ok (v, rest) ↔ b = Ok (v, rest) ∧ distinct_keys v.

Lemma agree_fail e e' : agree (Exn e) (Exn e').
Proof. intros v rest. naive_solver. Qed.

Lemma agree_value v rest : distinct_keys v → agree (Ok (v, rest)) (Ok (v, rest)).
Proof. intros Hv v' rest'. naive_solver. Qed.

Lemma agree_same {A} (r : res A) k k' : (∀ a, agree (k a) (k' a)) → agree (res_bind r k) (res_bind r k').
Proof. intros Hk. destruct r; [apply Hk|apply agree_fail]. Qed.

Lemma agree_bind r r' k k' :
  agree r r' → (∀ x rest, distinct_keys x → agree (k (x, rest)) (k' (x, rest))) →
  (∀ x rest v rest', k' (x, rest) = Ok (v, rest') → distinct_keys v → distinct_keys x) →
  agree (res_bind r k) (res_bind r' k').
Proof.
  intros Hr Hk Hhas v rest. rewrite !bind_yields. split.
  - intros ([x r1] & [E Hx]%Hr & [E' Hv]%Hk); [|done]. split; [by exists (x, r1)|done].
  - intros [([x r1] & E & E') Hv]. exists (x, r1). pose proof (Hhas _ _ _ _ E' Hv) as Hx.
    split; [by apply Hr|by apply Hk].
Qed.

Lemma agree_scalar l : agree (scan_scalar U l) (scan_scalar R l).
Proof. intros v rest. split; [|by intros [? _]]. intros E. split; [done|by eapply scan_scalar_distinct]. Qed.

Lemma agree_pairs pairs rest :
  Forall (λ p : string * json, distinct_keys p.2) pairs →
  agree (res_bind (object_pairs_hook U (rev pairs)) (λ v, Ok (v, rest)))
        (res_bind (object_pairs_hook R (rev pairs)) (λ v, Ok (v, rest))).
Proof.
  intros Hp v r. cbn. rewrite bind_yields. apply Forall_rev in Hp. split.
  - intros (w & [-> Hn]%unique_object_Ok & [= <- <-]). split; [done|by apply distinct_obj_iff].
  - intros [[= <- <-] [Hn _]%distinct_obj_iff]. exists (JObj (rev pairs)). by rewrite unique_object_Ok.
Qed.

(** A scan that refuses duplicates accepts what a scan that keeps every pair finds distinct. *)
Lemma scan_unique fuel :
  (∀ depth l, agree (scan_once U fuel depth l) (scan_once R fuel depth l))
  ∧ (∀ depth items l, Forall distinct_keys items →
       agree (scan_items U fuel depth items l) (scan_items R fuel depth items l))
  ∧ (∀ depth pairs l, Forall (λ p : string * json, distinct_keys p.2) pairs →
       agree (scan_pairs U fuel depth pairs l) (scan_pairs R fuel depth pairs l)).
Proof.
  induction fuel as [|fuel (IH1 & IH2 & IH3)]; [split_and!; intros; apply agree_fail|]. split_and!.
  - intros depth l. cbn [scan_once]. destruct l as [|c l]; [apply agree_fail|].
    destruct (code c =? 34); [apply agree_same; intros [s r]; apply agree_value; constructor|].
    destruct (code c =? 91).
    { destruct depth; [apply agree_fail|]. destruct (drop_while is_json_space l) as [|d after]; [apply agree_fail|].
      destruct (code d =? 93); [apply agree_value; by constructor|by apply IH2]. }
    destruct (code c =? 123); [|apply agree_scalar].
    destruct depth; [apply agree_fail|]. destruct (drop_while is_json_space l) as [|d after]; [apply agree_fail|].
    destruct (code d =? 125); [by apply (agree_pairs [])|by apply IH3].
  - intros depth items l Hi. cbn [scan_items]. apply agree_bind; [apply IH1|intros x r Hx|intros x r v rest E Hv];
      (destruct (drop_while is_json_space r) as [|c after]; [first [apply agree_fail|done]|]).
    + destruct (code c =? 93); [apply agree_value, distinct_list_iff, Forall_rev; by constructor|].
      destruct (code c =? 44); [apply IH2; by constructor|apply agree_fail].
    + destruct (code c =? 93).
      * injection E as <- _. by apply distinct_list_iff, Forall_reversed in Hv as [Hx _].
      * destruct (code c =? 44); [|done]. apply scan_has in E; [by inversion E|done].
  - intros depth pairs l Hp. cbn [scan_pairs]. destruct l as [|q l]; [apply agree_fail|].
    destruct (code q =? 34); [|apply agree_fail]. apply agree_same. intros [key r].
    destruct (drop_while is_json_space r) as [|colon after]; [apply agree_fail|].
    destruct (code colon =? 58); [|apply agree_fail]. cbn zeta.
    apply agree_bind; [apply IH1|intros x r' Hx|intros x r' v rest E Hv];
      (destruct (drop_while is_json_space r') as [|c after']; [first [apply agree_fail|done]|]).
    + destruct (code c =? 125); [apply agree_pairs; by constructor|].
      destruct (code c =? 44); [apply IH3; by constructor|apply agree_fail].
    + destruct (code c =? 125).
      * injection E as <- _. by apply distinct_obj_iff in Hv as [_ [Hx _]%Forall_reversed].
      * destruct (code c =? 44); [|done]. apply scan_has in E; [by inversion E|done].
Qed.

(** The reader that refuses duplicate keys accepts exactly the text whose objects, every pair of
    them kept, have none. *)
Lemma loads_unique limit s v :
  loads U limit s = Ok v ↔ loads R limit s = Ok v ∧ distinct_keys v.
Proof.
  unfold loads. destruct (scan_unique (2 * length (drop_while is_json_space s) + 1)) as [Hs _].
  specialize (Hs limit (drop_while is_json_space s)). rewrite !bind_yields. split.
  - intros ([x r] & [E Hx]%Hs & E'). assert (x = v) as <- by (by destruct (drop_while is_json_space r); simplify_eq).
    split; [by exists (x, r)|done].
  - intros [([x r] & E & E') Hv]. assert (x = v) as <- by (by destruct (drop_while is_json_space r); simplify_eq).
    exists (x, r). split; [by apply Hs|done].
Qed.
End accepted.
