(* ===== verification/LocalMessages.v ===== *)
(** * Messages between local processes of the agent

    The protocol of the privileged browser-policy helper
    (pc_agent/browser_policy_protocol.py) and the record of the device identity
    (pc_agent/enrollment_identity.py).  A message is a list of bytes; bytes
    above 127 are outside the model for UTF-8 and an error for ASCII. *)

From S2P Require Import Prelude Store AuditLog Contracts Canonical Semver Json.

(** ** Bytes and text *)

Definition is_ascii (payload : text_in) : bool := forallb (λ c, code c <? 128) payload.

(** [payload.decode('ascii')], [payload.decode('utf-8')] *)
Definition decode_ascii (payload : text_in) : res text_in :=
  if is_ascii payload then Ok payload else Exn (ValueError "UnicodeDecodeError").
Definition decode_utf_8 (payload : text_in) : res text_in :=
  if is_ascii payload then Ok payload else Exn (OutsideModel "UTF-8").

(** How [json.loads] decodes bytes: its UTF-16 and UTF-32 guesses need a NUL. *)
Definition decode_json_bytes (raw : text_in) : res text_in :=
  if is_ascii raw && forallb (λ c, negb (code c =? 0)) raw then Ok raw
  else Exn (OutsideModel "encoding").

(** [except ValueError as error: raise error'] *)
Definition except_value_error {A} (error : exn) (r : res A) : res A :=
  match r with
  | Ok a => Ok a
  | Exn e => if is_value_error e then Exn error else Exn e
  end.

(** [set(mapping) == {keys}] *)
Definition keys_are (keys : list string) (entries : list (string * json)) : bool :=
  forallb (λ e : string * json, str_in e.1 keys) entries && forallb (λ k, is_some (assoc k entries)) keys.

(** [mapping[key] == text] *)
Definition field_is (key text : string) (entries : list (string * json)) : bool :=
  match assoc key entries with Some v => json_eqb v (JStr text) | None => false end.

(** [mapping[key]] when it is text in [allowed] *)
Definition text_field (key : string) (allowed : list string) (entries : list (string * json)) : option string :=
  match assoc key entries with
  | Some (JStr s) => if str_in s allowed then Some s else None
  | _ => None
  end.

Section messages.
Context `{Contracts} (recursion_limit : nat).

(** ** browser_policy_protocol.py *)

Definition MAX_REQUEST_BYTES : Z := 1024.
Definition REQUEST_SCHEMA : string := "endpoint_browser_policy_request_v1".
Definition REPLY_SCHEMA : string := "endpoint_browser_policy_reply_v1".
Definition REPLY_STATUSES : list string :=
  ["APPLIED"; "EXTERNALLY_MANAGED"; "POLICY_CONFLICT"; "INVALID_REQUEST"; "HELPER_ERROR"].
Definition OPERATIONS : list string := ["apply"; "relinquish"].
Definition FAMILIES : list string := ["chrome"; "yandex"].

Definition _decode (payload : text_in) (decode : text_in → res text_in) : res json :=
  let n := Z.of_nat (length payload) in
  if negb ((1 <=? n) && (n <=? MAX_REQUEST_BYTES))
  then Exn (BrowserPolicyRequestError "invalid browser policy message size")
  else
    except_value_error (BrowserPolicyRequestError "invalid browser policy message")
      (res_bind (decode payload)
         (loads (unique_hooks (BrowserPolicyRequestError "duplicate browser policy field") accept_constant)
            recursion_limit)).

Definition decode_policy_request (payload : text_in) : res (string * string) :=
  res_bind (_decode payload decode_utf_8) (λ request,
    let error := Exn (BrowserPolicyRequestError "invalid browser policy request") in
    match request with
    | JObj request =>
        if keys_are ["schema_version"; "operation"; "browser_family"] request
           && field_is "schema_version" REQUEST_SCHEMA request
        then
          match text_field "operation" OPERATIONS request, text_field "browser_family" FAMILIES request with
          | Some operation, Some family => Ok (operation, family)
          | _, _ => error
          end
        else error
    | _ => error
    end).

Definition encode_policy_request (operation family : string) : res text_in :=
  let payload := chars (json_compact (JObj [("schema_version", JStr REQUEST_SCHEMA);
                   ("operation", JStr operation); ("browser_family", JStr family)])) in
  res_bind (decode_policy_request payload) (λ _, Ok payload).

Definition decode_policy_reply (payload : text_in) : res string :=
  res_bind (_decode payload decode_ascii) (λ reply,
    let error := Exn (BrowserPolicyRequestError "invalid browser policy reply") in
    match reply with
    | JObj reply =>
        if keys_are ["schema_version"; "status"] reply && field_is "schema_version" REPLY_SCHEMA reply
        then
          match text_field "status" REPLY_STATUSES reply with
          | Some status => Ok status
          | None => error
          end
        else error
    | _ => error
    end).

Definition encode_policy_reply (status : string) : res text_in :=
  let payload := chars (json_compact (JObj [("schema_version", JStr REPLY_SCHEMA);
                                            ("status", JStr status)])) in
  res_bind (decode_policy_reply payload) (λ _, Ok payload).

(** ** enrollment_identity.py *)

Definition ENROLLMENT_IDENTITY_SCHEMA_VERSION : string := "endpoint_enrollment_identity_v1".
Definition _MAX_IDENTITY_BYTES : Z := 160.

Definition identity_invalid {A} : res A :=
  Exn (EnrollmentIdentityError "Endpoint enrollment identity is invalid").

(** The value of hexadecimal digits, in front of which [acc] was read. *)
Fixpoint hex_int (acc : Z) (l : text_in) : option Z :=
  match l with
  | [] => Some acc
  | c :: l => match hex_value c with Some v => hex_int (16 * acc + v) l | None => None end
  end.

(** [UUID(value)]: 32 hexadecimal digits with hyphens anywhere.  The other
    spellings Python accepts (braces, [urn:uuid:]) print differently. *)
Definition UUID_of (value : string) : option uuid :=
  let hex := List.filter (λ c, negb (code c =? 45)) (chars value) in
  if (length hex =? 32)%nat then hex_int 0 hex else None.

(** [uuid.variant == RFC_4122] *)
Definition rfc_4122 (u : uuid) : bool :=
  negb (Z.land u (Z.shiftl 0x8000 48) =? 0) && (Z.land u (Z.shiftl 0x4000 48) =? 0).

(** [uuid.version], of a UUID of that variant *)
Definition uuid_version (u : uuid) : Z := Z.land (Z.shiftr u 76) 15.

Definition canonical_enrollment_uuid (parsed : uuid) : res uuid :=
  if rfc_4122 parsed && (1 <=? uuid_version parsed) && (uuid_version parsed <=? 5)
  then Ok parsed else identity_invalid.

(** The branch for a value that is not a UUID object. *)
Definition canonical_enrollment_device_id (value : json) : res uuid :=
  match value with
  | JStr value =>
      match UUID_of value with
      | Some parsed =>
          if bool_decide (value = uuid_str parsed) then canonical_enrollment_uuid parsed else identity_invalid
      | None => identity_invalid
      end
  | _ => identity_invalid
  end.

Definition serialize_enrollment_identity (device_id : uuid) : res text_in :=
  res_bind (canonical_enrollment_uuid device_id) (λ parsed,
    Ok (chars (json_compact (JObj [("schema_version", JStr ENROLLMENT_IDENTITY_SCHEMA_VERSION);
                                   ("device_id", JStr (uuid_str parsed))])))).

(** [raw] is the content of the file, [None] when it cannot be read. *)
Definition read_enrollment_device_id (raw : option text_in) : res uuid :=
  match raw with
  | None => Exn (EnrollmentIdentityError "Endpoint enrollment identity is unavailable")
  | Some raw =>
      let n := Z.of_nat (length raw) in
      if (n =? 0) || (_MAX_IDENTITY_BYTES <? n) then identity_invalid
      else
        res_bind
          (except_value_error (EnrollmentIdentityError "Endpoint enrollment identity is invalid")
             (res_bind (decode_json_bytes raw) (loads default_hooks recursion_limit)))
          (λ payload,
            match payload with
            | JObj payload =>
                if keys_are ["schema_version"; "device_id"] payload
                   && field_is "schema_version" ENROLLMENT_IDENTITY_SCHEMA_VERSION payload
                then canonical_enrollment_device_id (default JNull (assoc "device_id" payload))
                else identity_invalid
            | _ => identity_invalid
            end)
  end.
End messages.
