(* ===== verification/LocalMessagesSpecs.v ===== *)
(** * Local messages: round trips and closed vocabularies *)

From S2P Require Import Prelude Store AuditLog Contracts Canonical Demo Semver SemverFacts Json JsonFacts.
From S2P Require Import LocalMessages.

Section specs.
Context `{Contracts} (limit : nat).

Lemma res_bind_Ok {A B} (r : res A) (k : A → res B) b :
  res_bind r k = Ok b → ∃ a, r = Ok a ∧ k a = Ok b.
Proof. destruct r as [a|e]; simpl; [eauto|done]. Qed.

Definition is_ok {A} (r : res A) : bool := match r with Ok _ => true | Exn _ => false end.

Lemma is_ok_Ok {A} (r : res A) : is_ok r = true → ∃ a, r = Ok a.
Proof. destruct r as [a|e]; [by exists a|done]. Qed.

Lemma except_Ok {A} e (r : res A) a : except_value_error e r = Ok a → r = Ok a.
Proof. destruct r as [x|e']; simpl; [done|]. by destruct (is_value_error e'). Qed.

Lemma str_in_elem s l : str_in s l = true → s ∈ l.
Proof. unfold str_in. apply bool_decide_eq_true. Qed.

Lemma text_field_Some key allowed entries s :
  text_field key allowed entries = Some s → s ∈ allowed ∧ assoc key entries = Some (JStr s).
Proof.
  unfold text_field. destruct (assoc key entries) as [[]|]; try done.
  destruct (str_in _ _) eqn:E; [|done]. intros [= <-]. split; [by apply str_in_elem|done].
Qed.

(** What is decoded is in the closed vocabulary. *)
Lemma decode_request_closed p op fam :
  decode_policy_request limit p = Ok (op, fam) → op ∈ OPERATIONS ∧ fam ∈ FAMILIES.
Proof.
  unfold decode_policy_request. intros ([| | | | | |entries] & _ & E)%res_bind_Ok; try done.
  destruct (keys_are _ _ && field_is _ _ _); [|done].
  destruct (text_field "operation" _ _) eqn:E1; [|done].
  destruct (text_field "browser_family" _ _) eqn:E2; [|done]. injection E as -> ->.
  apply text_field_Some in E1 as [? _], E2 as [? _]. done.
Qed.

Lemma decode_reply_closed p s : decode_policy_reply limit p = Ok s → s ∈ REPLY_STATUSES.
Proof.
  unfold decode_policy_reply. intros ([| | | | | |entries] & _ & E)%res_bind_Ok; try done.
  destruct (keys_are _ _ && field_is _ _ _); [|done].
  destruct (text_field "status" _ _) eqn:E1; [|done]. injection E as ->. by apply text_field_Some in E1 as [? _].
Qed.

Lemma decode_size p decode v : _decode limit p decode = Ok v → (1 <= length p <= 1024)%nat.
Proof. unfold _decode, MAX_REQUEST_BYTES. case_match eqn:E; [done|]. intros _. propify. lia. Qed.

(** The text of a request or reply holds its fields, whatever they are. *)
Lemma decoded_text v decode w :
  readable v → (json_depth v <= limit)%nat → (∀ p q, decode p = Ok q → q = p) →
  _decode limit (chars (json_compact v)) decode = Ok w → w = sorted_json v.
Proof.
  intros Hv Hd Hdec. unfold _decode. case_match; [done|]. intros (q & Eq & E)%except_Ok%res_bind_Ok.
  apply Hdec in Eq as ->.
  destruct (loads_compact limit (BrowserPolicyRequestError "duplicate browser policy field") v Hv Hd) as [_ E'].
  rewrite E' in E. by injection E.
Qed.

Lemma decode_utf_8_same p q : decode_utf_8 p = Ok q → q = p.
Proof. unfold decode_utf_8. destruct (is_ascii p); [by intros [= ->]|done]. Qed.
Lemma decode_ascii_same p q : decode_ascii p = Ok q → q = p.
Proof. unfold decode_ascii. destruct (is_ascii p); [by intros [= ->]|done]. Qed.

Lemma text_object_readable (entries : list (string * string)) :
  NoDup entries.*1 → readable (JObj (map (λ e, (e.1, JStr e.2)) entries)).
Proof.
  intros Hnd. constructor; [by rewrite map_map|]. apply Forall_forall. intros e He.
  apply list_elem_of_In, in_map_iff in He as (x & <- & _). constructor.
Qed.

Definition request_fields (op fam : string) : list (string * string) :=
  [("schema_version", REQUEST_SCHEMA); ("operation", op); ("browser_family", fam)].
Definition reply_fields (status : string) : list (string * string) :=
  [("schema_version", REPLY_SCHEMA); ("status", status)].

Lemma encoded_request op fam x :
  (1 <= limit)%nat →
  decode_policy_request limit (chars (json_compact (JObj (map (λ e, (e.1, JStr e.2)) (request_fields op fam))))) = Ok x →
  x = (op, fam).
Proof.
  intros Hlimit. unfold decode_policy_request. intros (v & Ev & E)%res_bind_Ok.
  apply decoded_text in Ev as ->; [|apply text_object_readable|simpl; lia|exact decode_utf_8_same].
  - rewrite sorted_obj in E. unfold sort_entries in E. vm_compute in E.
    repeat (case_match; simplify_eq); done.
  - repeat constructor; rewrite ?elem_of_cons, elem_of_nil; naive_solver.
Qed.

Lemma encoded_reply status x :
  (1 <= limit)%nat →
  decode_policy_reply limit (chars (json_compact (JObj (map (λ e, (e.1, JStr e.2)) (reply_fields status))))) = Ok x →
  x = status.
Proof.
  intros Hlimit. unfold decode_policy_reply. intros (v & Ev & E)%res_bind_Ok.
  apply decoded_text in Ev as ->; [|apply text_object_readable|simpl; lia|exact decode_ascii_same].
  - rewrite sorted_obj in E. unfold sort_entries in E. vm_compute in E.
    repeat (case_match; simplify_eq); done.
  - repeat constructor; rewrite ?elem_of_cons, elem_of_nil; naive_solver.
Qed.
Lemma requests_encoded n :
  Forall (λ op, Forall (λ fam, is_ok (encode_policy_request (S n) op fam) = true) FAMILIES) OPERATIONS.
Proof. repeat constructor; vm_compute; reflexivity. Qed.

Lemma replies_encoded n : Forall (λ status, is_ok (encode_policy_reply (S n) status) = true) REPLY_STATUSES.
Proof. repeat constructor; vm_compute; reflexivity. Qed.

(** The pairs of an object with these text fields. *)
Definition text_pairs (fields : list (string * string)) : list (string * json) :=
  map (λ e, (e.1, JStr e.2)) fields.

Lemma assoc_elem key (l : list (string * json)) v : assoc key l = Some v → (key, v) ∈ l.
Proof.
  induction l as [|[k x] l IH]; simpl; [done|]. rewrite elem_of_cons.
  destruct (decide (k = key)) as [->|]; [intros [= ->]; by left|by right; apply IH].
Qed.

Lemma elem_assoc key (l : list (string * json)) v : NoDup l.*1 → (key, v) ∈ l → assoc key l = Some v.
Proof.
  intros Hn Hv. destruct (in_keys_assoc key l) as [x Hx]; [by apply (list_elem_of_fmap_2 fst) in Hv|].
  rewrite Hx. apply assoc_elem in Hx. apply (elem_of_list_to_map_1 (M := gmap string)) in Hv, Hx; [|done..]. congruence.
Qed.

(** A dictionary with exactly these text fields, in any order. *)
Lemma exact_fields entries fields :
  NoDup fields.*1 →
  NoDup entries.*1 ∧ keys_are fields.*1 entries = true
    ∧ Forall (λ f : string * string, assoc f.1 entries = Some (JStr f.2)) fields
  ↔ entries ≡ₚ text_pairs fields.
Proof.
  intros Hf. assert ((text_pairs fields).*1 = fields.*1) as Hkeys by (unfold text_pairs; by rewrite map_map).
  unfold keys_are. rewrite andb_true_iff, !forallb_forall. split.
  - intros (Hn & [Hk _] & Hv). rewrite Forall_forall in Hv.
    apply NoDup_Permutation; [by eapply NoDup_fmap_1|eapply NoDup_fmap_1; by rewrite Hkeys|].
    intros [k v]. unfold text_pairs. rewrite list_elem_of_fmap. split.
    + intros He. assert (k ∈ fields.*1) as [f [-> Hin]]%list_elem_of_fmap
        by (apply str_in_elem, (Hk (k, v)), list_elem_of_In, He).
      exists f. split; [|done]. apply Hv in Hin. rewrite (elem_assoc f.1 entries v) in Hin by done. congruence.
    + intros (f & [= -> ->] & Hin). by apply assoc_elem, Hv.
  - intros Hp. assert (NoDup entries.*1) as Hn by (rewrite Hp, Hkeys; done).
    assert (∀ f, f ∈ fields → assoc f.1 entries = Some (JStr f.2)) as Hv.
    { intros f Hin. apply elem_assoc; [done|]. rewrite Hp. apply list_elem_of_fmap. by exists f. }
    split_and!; [done| | |by apply Forall_forall].
    + intros e He%list_elem_of_In. unfold str_in. apply bool_decide_eq_true. rewrite <- Hkeys, <- Hp.
      by apply list_elem_of_fmap_2.
    + intros k [f [-> Hin]]%list_elem_of_In%list_elem_of_fmap. by rewrite (Hv f).
Qed.

Lemma field_is_Some key s entries : field_is key s entries = true ↔ assoc key entries = Some (JStr s).
Proof.
  unfold field_is. destruct (assoc key entries) as [v|]; [|done]. split; [|intros [= ->]; apply bool_decide_eq_true_2; done]. by destruct v; simpl; try done; intros ->%bool_decide_eq_true.
Qed.

Lemma text_field_iff key allowed entries s :
  text_field key allowed entries = Some s ↔ s ∈ allowed ∧ assoc key entries = Some (JStr s).
Proof.
  split; [apply text_field_Some|]. intros [Hs E]. unfold text_field, str_in. by rewrite E, bool_decide_true.
Qed.

(** The bytes are ASCII within the bound, and the JSON text of an object with these fields
    and nothing else: every pair counts, so that no field is given twice. *)
Definition is_text_of (p : text_in) (fields : list (string * string)) : Prop :=
  (1 <= length p <= 1024)%nat ∧ is_ascii p = true
  ∧ ∃ pairs, loads (pair_hooks accept_constant) limit p = Ok (JObj pairs) ∧ pairs ≡ₚ text_pairs fields.

Lemma except_bind_Ok e (r : res text_in) k (v : json) :
  except_value_error e (res_bind r k) = Ok v ↔ ∃ q, r = Ok q ∧ k q = Ok v.
Proof.
  rewrite <- bind_yields. split; [apply except_Ok|by intros ->].
Qed.

Lemma decode_Ok p decode v :
  (∀ q, decode p = Ok q ↔ is_ascii p = true ∧ q = p) →
  _decode limit p decode = Ok v ↔
  (1 <= length p <= 1024)%nat ∧ is_ascii p = true
  ∧ loads (pair_hooks accept_constant) limit p = Ok v ∧ distinct_keys v.
Proof.
  intros Hdec. assert ((1 <= length p <= 1024)%nat ↔
    negb ((1 <=? Z.of_nat (length p)) && (Z.of_nat (length p) <=? MAX_REQUEST_BYTES)) = false) as ->.
  { unfold MAX_REQUEST_BYTES. rewrite negb_false_iff, andb_true_iff. lia. }
  unfold _decode. destruct (negb _); [naive_solver|]. rewrite except_bind_Ok. split.
  - intros (q & [Ha ->]%Hdec & E%loads_unique); [done|by intros name w [= <-]; constructor].
  - intros (_ & Ha & E). exists p. split; [by apply Hdec|]. apply loads_unique; [|done].
    intros name w [= <-]. constructor.
Qed.

Lemma text_pairs_distinct fields entries :
  entries ≡ₚ text_pairs fields → NoDup entries.*1 → distinct_keys (JObj entries).
Proof.
  intros Hp Hn. constructor; [done|]. rewrite Hp. unfold text_pairs. apply Forall_forall.
  intros e (f & -> & _)%list_elem_of_fmap. constructor.
Qed.

Lemma decode_request_iff p op fam :
  decode_policy_request limit p = Ok (op, fam) ↔
  op ∈ OPERATIONS ∧ fam ∈ FAMILIES ∧ is_text_of p (request_fields op fam).
Proof.
  assert (NoDup (request_fields op fam).*1) as Hf
    by (repeat constructor; rewrite ?elem_of_cons, elem_of_nil; naive_solver).
  unfold decode_policy_request, is_text_of. rewrite bind_yields.
  setoid_rewrite (decode_Ok p decode_utf_8);
    [|intros q; unfold decode_utf_8; destruct (is_ascii p); naive_solver].
  split.
  - intros (v & (Hl & Ha & E & Hd) & E2). destruct v as [| | | | | |entries]; try done.
    destruct (keys_are _ _ && field_is _ _ _) eqn:Ek; [|done]. apply andb_prop in Ek as [Hk Hs%field_is_Some].
    destruct (text_field "operation" _ _) eqn:E1; [|done].
    destruct (text_field "browser_family" _ _) eqn:E3; [|done]. injection E2 as -> ->.
    apply text_field_iff in E1 as [? E1], E3 as [? E3]. split_and!; try done; try lia.
    exists entries. split; [done|]. apply exact_fields; [done|]. apply distinct_obj_iff in Hd as [Hn _].
    split_and!; [done|exact Hk|]. by repeat constructor.
  - intros (Ho & Hfam & Hl & Ha & entries & E & Hp). exists (JObj entries).
    pose proof Hp as (Hn & Hk & Hv)%exact_fields; [|done].
    split; [split_and!; try done; try lia; by eapply text_pairs_distinct|].
    apply Forall_cons in Hv as [Hv1 [Hv2 [Hv3 _]%Forall_cons]%Forall_cons]. simpl in Hv1, Hv2, Hv3.
    change ["schema_version"; "operation"; "browser_family"] with ((request_fields op fam).*1).
    rewrite Hk. rewrite (proj2 (field_is_Some _ _ _) Hv1). simpl.
    rewrite (proj2 (text_field_iff "operation" OPERATIONS entries op)) by done.
    by rewrite (proj2 (text_field_iff "browser_family" FAMILIES entries fam)).
Qed.

Lemma decode_reply_iff p status :
  decode_policy_reply limit p = Ok status ↔ status ∈ REPLY_STATUSES ∧ is_text_of p (reply_fields status).
Proof.
  assert (NoDup (reply_fields status).*1) as Hf
    by (repeat constructor; rewrite ?elem_of_cons, elem_of_nil; naive_solver).
  unfold decode_policy_reply, is_text_of. rewrite bind_yields.
  setoid_rewrite (decode_Ok p decode_ascii);
    [|intros q; unfold decode_ascii; destruct (is_ascii p); naive_solver].
  split.
  - intros (v & (Hl & Ha & E & Hd) & E2). destruct v as [| | | | | |entries]; try done.
    destruct (keys_are _ _ && field_is _ _ _) eqn:Ek; [|done]. apply andb_prop in Ek as [Hk Hs%field_is_Some].
    destruct (text_field "status" _ _) eqn:E1; [|done]. injection E2 as ->.
    apply text_field_iff in E1 as [? E1]. split_and!; try done; try lia.
    exists entries. split; [done|]. apply exact_fields; [done|]. apply distinct_obj_iff in Hd as [Hn _].
    split_and!; [done|exact Hk|]. by repeat constructor.
  - intros (Ho & Hl & Ha & entries & E & Hp). exists (JObj entries).
    pose proof Hp as (Hn & Hk & Hv)%exact_fields; [|done].
    split; [split_and!; try done; try lia; by eapply text_pairs_distinct|].
    apply Forall_cons in Hv as [Hv1 [Hv2 _]%Forall_cons]. simpl in Hv1, Hv2.
    change ["schema_version"; "status"] with ((reply_fields status).*1).
    rewrite Hk. rewrite (proj2 (field_is_Some _ _ _) Hv1). simpl.
    by rewrite (proj2 (text_field_iff "status" REPLY_STATUSES entries status)).
Qed.

(** C21: the privileged helper's messages are a closed vocabulary with one meaning each.
    Under a recursion limit of at least 1: the encoder of requests (of replies) succeeds on
    exactly the operations and browser families (the statuses) of the protocol, and what it
    produced is decoded to them.  The decoders accept exactly the ASCII texts of 1 to 1024
    bytes that are the JSON of an object whose pairs, none given twice, are in some order the
    schema version and the fields of the value they return, which is in the vocabulary. *)
Theorem policy_messages_round_trip op fam status :
  (1 <= limit)%nat →
  ((op ∈ OPERATIONS ∧ fam ∈ FAMILIES) ↔ ∃ p, encode_policy_request limit op fam = Ok p)
  ∧ (∀ p, encode_policy_request limit op fam = Ok p → decode_policy_request limit p = Ok (op, fam))
  ∧ (status ∈ REPLY_STATUSES ↔ ∃ p, encode_policy_reply limit status = Ok p)
  ∧ (∀ p, encode_policy_reply limit status = Ok p → decode_policy_reply limit p = Ok status)
  ∧ (∀ p, decode_policy_request limit p = Ok (op, fam) ↔
       op ∈ OPERATIONS ∧ fam ∈ FAMILIES ∧ is_text_of p (request_fields op fam))
  ∧ (∀ p, decode_policy_reply limit p = Ok status ↔
       status ∈ REPLY_STATUSES ∧ is_text_of p (reply_fields status)).
Proof.
  intros Hlimit. assert (∃ n, limit = S n) as [n En] by (exists (pred limit); lia).
  split_and!; [| | | |intros p; apply decode_request_iff|intros p; apply decode_reply_iff].
  - split.
    + intros [Hop Hfam]. apply is_ok_Ok. rewrite En. pose proof (requests_encoded n) as Hall.
      rewrite Forall_forall in Hall. specialize (Hall op Hop). rewrite Forall_forall in Hall. by apply Hall.
    + intros (p & ([op' fam'] & E & _)%res_bind_Ok). pose proof (decode_request_closed _ _ _ E) as Hc.
      apply encoded_request in E as [= -> ->]; [done|lia].
  - intros p ([op' fam'] & E & [= <-])%res_bind_Ok.
    pose proof E as E'. apply encoded_request in E' as [= -> ->]; [exact E|done].
  - split.
    + intros Hs. apply is_ok_Ok. rewrite En. pose proof (replies_encoded n) as Hall.
      rewrite Forall_forall in Hall. by apply Hall.
    + intros (p & (status' & E & _)%res_bind_Ok). pose proof (decode_reply_closed _ _ E) as Hc.
      apply encoded_reply in E as ->; [done|lia].
  - intros p (status' & E & [= <-])%res_bind_Ok.
    pose proof E as E'. apply encoded_reply in E' as ->; [exact E|done].
Qed.
(** ** UUIDs as text *)

Lemma hex_digit_value d : 0 <= d < 16 → hex_value (hex_digit d) = Some d ∧ code (hex_digit d) ≠ 45
  ∧ escape_char (hex_digit d) = String (hex_digit d) "" ∧ 0 < code (hex_digit d) < 128.
Proof.
  intros Hd. assert (d = 0 ∨ d = 1 ∨ d = 2 ∨ d = 3 ∨ d = 4 ∨ d = 5 ∨ d = 6 ∨ d = 7 ∨ d = 8 ∨ d = 9
    ∨ d = 10 ∨ d = 11 ∨ d = 12 ∨ d = 13 ∨ d = 14 ∨ d = 15) as Hcases by lia.
  repeat destruct Hcases as [->|Hcases]; [repeat split; done..|]. subst. repeat split; done.
Qed.

Definition hex_at (u : uuid) (i : nat) : Ascii.ascii := hex_digit ((u / 16 ^ Z.of_nat i) mod 16).

Lemma hex_int_digits u n acc :
  hex_int acc (map (hex_at u) (rev (seq 0 n))) = Some (acc * 16 ^ Z.of_nat n + u mod 16 ^ Z.of_nat n).
Proof.
  revert acc. induction n as [|n IH]; intros acc.
  { simpl. rewrite Z.mod_1_r. f_equal. lia. }
  rewrite seq_S, rev_app_distr. cbn [rev app map hex_int].
  destruct (hex_digit_value ((u / 16 ^ Z.of_nat n) mod 16)) as [E _]; [apply Z.mod_pos_bound; lia|].
  change (hex_at u (0 + n)) with (hex_digit ((u / 16 ^ Z.of_nat n) mod 16)). rewrite E, IH. f_equal.
  assert (0 < 16 ^ Z.of_nat n) by (apply Z.pow_pos_nonneg; lia).
  rewrite Nat2Z.inj_succ, Z.pow_succ_r by lia. rewrite (Z.mul_comm 16 (16 ^ _)), Z.rem_mul_r by lia. lia.
Qed.

(** Printing and parsing a UUID. *)
Lemma UUID_of_str u : 0 <= u < 2 ^ 128 → UUID_of (uuid_str u) = Some u.
Proof.
  intros Hu. unfold UUID_of. rewrite uuid_str_chars. fold (hex_at u).
  change (λ i : nat, hex_digit ((u / 16 ^ Z.of_nat i) mod 16)) with (hex_at u).
  assert (∀ l, List.filter (λ c, negb (code c =? 45)) (map (hex_at u) l) = map (hex_at u) l) as Hf.
  { intros l. induction l as [|i l IH]; [done|]. cbn [map List.filter].
    destruct (hex_digit_value ((u / 16 ^ Z.of_nat i) mod 16)) as (_ & Hne & _); [apply Z.mod_pos_bound; lia|].
    change (hex_digit ((u / 16 ^ Z.of_nat i) mod 16)) with (hex_at u i) in Hne.
    by rewrite (proj2 (Z.eqb_neq _ _) Hne), IH. }
  rewrite !List.filter_app, !Hf. change (List.filter (λ c, negb (code c =? 45)) (chars "-")) with (@nil Ascii.ascii).
  cbn [app]. rewrite <- !map_app.
  change ([31; 30; 29; 28; 27; 26; 25; 24]%nat ++ _) with (rev (seq 0 32)).
  rewrite length_map, length_rev, length_seq. cbn [Nat.eqb].
  rewrite hex_int_digits. f_equal. rewrite Z.mod_small; [lia|exact Hu].
Qed.
(** ** The identity record *)

(** A character that JSON text holds as it is. *)
Definition plain (c : Ascii.ascii) : Prop := escape_char c = String c "" ∧ 0 < code c < 128.

Lemma uuid_plain u : Forall plain (chars (uuid_str u)).
Proof.
  rewrite uuid_str_chars. rewrite !Forall_app.
  assert (∀ l : list nat, Forall plain (map (λ i : nat, hex_digit ((u / 16 ^ Z.of_nat i) mod 16)) l)) as Hl.
  { intros l. induction l as [|i l IH]; constructor; [|done].
    destruct (hex_digit_value ((u / 16 ^ Z.of_nat i) mod 16)) as (_ & _ & He & Hr); [apply Z.mod_pos_bound; lia|].
    by split. }
  split_and!; try apply Hl; repeat constructor; done.
Qed.

Lemma plain_json_string s : Forall plain (chars s) → chars (json_string s) = dquote :: chars s ++ [dquote].
Proof.
  intros Hp. rewrite chars_json_string. do 2 f_equal. induction Hp as [|c l [Hc _] _ IH]; [done|].
  cbn [flat_map]. by rewrite Hc, IH.
Qed.

Definition identity_record (u : uuid) : json :=
  JObj (map (λ e, (e.1, JStr e.2))
          [("schema_version", ENROLLMENT_IDENTITY_SCHEMA_VERSION); ("device_id", uuid_str u)]).

Lemma identity_readable u : readable (identity_record u).
Proof.
  apply text_object_readable. repeat constructor; rewrite ?elem_of_cons, elem_of_nil; naive_solver.
Qed.

Lemma identity_sorted u :
  sorted_json (identity_record u)
  = JObj [("device_id", JStr (uuid_str u)); ("schema_version", JStr ENROLLMENT_IDENTITY_SCHEMA_VERSION)].
Proof. unfold identity_record. rewrite sorted_obj. reflexivity. Qed.

Lemma identity_text u :
  chars (json_compact (identity_record u))
  = chars "{" ++ chars (json_string "device_id") ++ chars ":" ++ dquote :: chars (uuid_str u) ++ [dquote]
    ++ chars "," ++ chars (json_string "schema_version") ++ chars ":"
    ++ chars (json_string ENROLLMENT_IDENTITY_SCHEMA_VERSION) ++ chars "}".
Proof.
  unfold json_compact, identity_record. rewrite dumps_obj.
  change (sort_entries _) with [("device_id", JStr (uuid_str u));
    ("schema_version", JStr ENROLLMENT_IDENTITY_SCHEMA_VERSION)].
  cbn [map fst snd]. rewrite !chars_app, chars_concat. cbn [flat_map app]. rewrite !chars_app.
  cbn [json_dumps]. rewrite (plain_json_string (uuid_str u)) by apply uuid_plain.
  rewrite <- !app_assoc. cbn [app]. by rewrite <- !app_assoc.
Qed.

Lemma identity_bytes u :
  length (chars (json_compact (identity_record u))) = 103%nat
  ∧ decode_json_bytes (chars (json_compact (identity_record u))) = Ok (chars (json_compact (identity_record u))).
Proof.
  assert (length (chars (uuid_str u)) = 36%nat) as Hlen by (rewrite uuid_str_chars; reflexivity).
  assert (∀ l, Forall plain l → forallb (λ c, code c <? 128) l = true ∧ forallb (λ c, negb (code c =? 0)) l = true)
    as Hplain.
  { intros l Hl. induction Hl as [|c l [_ Hr] _ [IH1 IH2]]; [done|]. cbn [forallb]. rewrite IH1, IH2.
    rewrite !andb_true_r, negb_true_iff, Z.ltb_lt, Z.eqb_neq. lia. }
  destruct (Hplain _ (uuid_plain u)) as [H1 H2].
  unfold decode_json_bytes, is_ascii. rewrite identity_text. generalize dependent (chars (uuid_str u)).
  intros l Hl H1 H2. rewrite !length_app, length_cons, !length_app, Hl. split; [reflexivity|].
  rewrite !forallb_app. cbn [forallb]. rewrite !forallb_app, H1, H2. reflexivity.
Qed.
(** The identity record round trips: for every UUID of RFC 4122 with a
    version from 1 to 5 the record is written, fits the bound and is read back as
    that UUID; for any other UUID it is refused; and whatever bytes are read,
    the result is such a UUID or an error. *)
Theorem identity_record_round_trips u :
  (1 <= limit)%nat → 0 <= u < 2 ^ 128 →
  (rfc_4122 u = true ∧ 1 <= uuid_version u <= 5 →
   ∃ raw, serialize_enrollment_identity u = Ok raw ∧ Z.of_nat (length raw) <= _MAX_IDENTITY_BYTES
     ∧ read_enrollment_device_id limit (Some raw) = Ok u)
  ∧ (¬ (rfc_4122 u = true ∧ 1 <= uuid_version u <= 5) → serialize_enrollment_identity u = identity_invalid)
  ∧ ∀ raw v, read_enrollment_device_id limit raw = Ok v → rfc_4122 v = true ∧ 1 <= uuid_version v <= 5.
Proof.
  intros Hlimit Hu.
  assert (∀ v, canonical_enrollment_uuid v = Ok v ∧ rfc_4122 v = true ∧ 1 <= uuid_version v <= 5
             ∨ canonical_enrollment_uuid v = identity_invalid ∧ ¬ (rfc_4122 v = true ∧ 1 <= uuid_version v <= 5))
    as Hcanon.
  { intros v. unfold canonical_enrollment_uuid. generalize (rfc_4122 v) (uuid_version v). intros b n.
    destruct b; cbn [andb]; [|by right; split; [|intros [? _]]].
    destruct (Z.leb_spec 1 n), (Z.leb_spec n 5); cbn [andb]; [by left|right; split; [done|lia]..]. }
  unfold serialize_enrollment_identity. split_and!.
  - intros Hok. destruct (Hcanon u) as [[E _]|[_ Hn]]; [|done]. rewrite E. cbn [res_bind].
    destruct (identity_bytes u) as [Hlen Hdec]. eexists. split; [done|].
    change (JObj _) with (identity_record u). rewrite Hlen. split; [done|].
    unfold read_enrollment_device_id. rewrite Hlen. cbn [Z.of_nat Z.eqb orb].
    change (_MAX_IDENTITY_BYTES <? Z.of_nat 103) with false. cbv iota.
    change (Z.of_nat 103 =? 0) with false. cbn [orb]. rewrite Hdec. cbn [res_bind].
    destruct (loads_compact limit PayloadConflict (identity_record u) (identity_readable u)) as [El _]; [simpl; lia|].
    rewrite El, identity_sorted. cbn [except_value_error res_bind].
    change (keys_are _ _ && field_is _ _ _) with true. cbv iota.
    change (default JNull (assoc "device_id" _)) with (JStr (uuid_str u)).
    unfold canonical_enrollment_device_id. rewrite UUID_of_str by done. by rewrite bool_decide_true.
  - intros Hno. destruct (Hcanon u) as [[_ Hok]|[E _]]; [done|]. by rewrite E.
  - intros raw v. unfold read_enrollment_device_id. destruct raw as [raw|]; [|done].
    case_match; [done|]. intros (w & _ & E)%res_bind_Ok. destruct w; try done.
    destruct (keys_are _ _ && field_is _ _ _); [|done].
    unfold canonical_enrollment_device_id in E. destruct (default JNull _); try done.
    destruct (UUID_of s) as [x|]; [|done]. case_bool_decide; [|done].
    destruct (Hcanon x) as [[E' Hx]|[E' _]]; rewrite E' in E; [by injection E as <-|done].
Qed.
End specs.

#[local] Existing Instance Demo.demo_contracts.

Lemma policy_messages_round_trip_witness :
  ∃ p, encode_policy_request 1000 "apply" "chrome" = Ok p ∧ decode_policy_request 1000 p = Ok ("apply", "chrome").
Proof.
  destruct (policy_messages_round_trip 1000 "apply" "chrome" "APPLIED" ltac:(lia)) as ([Hp _] & Hd & _).
  destruct Hp as [p Hp]; [split; left|]. exists p. split; [exact Hp|by apply Hd].
Defined.

Definition demo_identity : uuid := 4 * 16 ^ 19 + 8 * 16 ^ 15 + 100.

Lemma identity_record_round_trips_witness :
  ∃ raw, serialize_enrollment_identity demo_identity = Ok raw
    ∧ Z.of_nat (length raw) <= _MAX_IDENTITY_BYTES
    ∧ read_enrollment_device_id 1000 (Some raw) = Ok demo_identity.
Proof.
  destruct (identity_record_round_trips 1000 demo_identity) as [H _]; [lia|vm_compute; split; congruence|].
  apply H. vm_compute. repeat split; congruence.
Defined.
