(* ===== verification/Bridge.v ===== *)
(** * The browser bridge (pc_agent/browser_protocol.py, pc_agent/browser_bridge.py)

    Chromium's Native Messaging host: length-prefixed messages on a byte stream,
    their validation, the session that binds one process to the pinned extension
    and one browser family, and the loop that forwards messages and answers with
    framed acknowledgements.

    A stream is the list of pieces in which its bytes arrive; a read returns at
    most one piece, and nothing at the end.  pydantic's validation of a payload
    and the dump of an acknowledgement are the class [BrowserContracts]. *)

From S2P Require Import Prelude Store AuditLog Contracts Canonical Semver Json LocalMessages.

Definition MAX_NATIVE_MESSAGE_BYTES : Z := 16 * 1024.

(** ** Messages *)

(** A validated message, by its class; [payload] holds the fields that are only
    passed on. *)
Inductive BrowserMessageV1 :=
| BrowserHelloV1 (extension_id browser_family : string) (payload : json)
| BrowserHeartbeatV1 (browser_family : string) (payload : json)
| BrowserContextV1 (browser_family : string) (payload : json)
| BrowserUploadV1 (browser_family : string) (payload : json)
| BrowserPasteV1 (browser_family : string) (payload : json).

Definition browser_family (m : BrowserMessageV1) : string :=
  match m with
  | BrowserHelloV1 _ f _ | BrowserHeartbeatV1 f _ | BrowserContextV1 f _
  | BrowserUploadV1 f _ | BrowserPasteV1 f _ => f
  end.

(** [isinstance(message, BrowserHelloV1)] *)
Definition is_hello (m : BrowserMessageV1) : bool :=
  match m with BrowserHelloV1 _ _ _ => true | _ => false end.

(** The classes of [_MODELS]. *)
Inductive browser_model := hello_model | heartbeat_model | context_model | upload_model | paste_model.

Class BrowserContracts := {
  model_validate : browser_model → json → option BrowserMessageV1;
  ack_json : bool → string → text_in
}.

(** [_MODELS.get((kind, event_type))], [event_type] of events only. *)
Definition _MODELS (kind event_type : json) : option browser_model :=
  match kind with
  | JStr kind =>
      if bool_decide (kind = "browser_sensor_hello_v1") then Some hello_model
      else if bool_decide (kind = "browser_sensor_heartbeat_v1") then Some heartbeat_model
      else if bool_decide (kind = "browser_sensor_context_v1") then Some context_model
      else if bool_decide (kind = "browser_sensor_event_v1") then
        match event_type with
        | JStr t =>
            if bool_decide (t = "BROWSER_UPLOAD") then Some upload_model
            else if bool_decide (t = "BROWSER_PASTE") then Some paste_model
            else None
        | _ => None
        end
      else None
  | _ => None
  end.

(** ** Reading *)

Abbreviation stream := (list text_in) (only parsing).

(** [stream.read(n)] *)
Definition stream_read (n : nat) (s : stream) : text_in * stream :=
  match s with
  | [] => ([], [])
  | piece :: rest =>
      (take n piece, match drop n piece with [] => rest | tail => tail :: rest end)
  end.

(** The loop of [_read_exact]; each turn reads at least one byte, so that
    [length + 1] turns are enough. *)
Fixpoint read_loop (fuel : nat) (s : stream) (length_ : nat) (allow_eof : bool) (result : text_in)
    : res (option text_in) * stream :=
  match fuel with
  | O => (Exn (OutsideModel "fuel"), s)
  | S fuel =>
      if (length result <? length_)%nat then
        let (chunk, s) := stream_read (length_ - length result) s in
        if bool_decide (chunk = []) then
          (if allow_eof && bool_decide (result = []) then Ok None
           else Exn (BrowserProtocolError "INVALID_MESSAGE"), s)
        else read_loop fuel s length_ allow_eof (result ++ chunk)
      else (Ok (Some result), s)
  end.

Definition _read_exact (s : stream) (length_ : nat) (allow_eof : bool) : res (option text_in) * stream :=
  read_loop (length_ + 1) s length_ allow_eof [].

(** [struct.unpack("<I", header)[0]] and [struct.pack("<I", n)] *)
Fixpoint unpack_le (l : text_in) : Z :=
  match l with [] => 0 | c :: l => code c + 256 * unpack_le l end.

Definition byte (n : Z) : Ascii.ascii := Ascii.ascii_of_N (Z.to_N n).

Definition pack_le (n : Z) : text_in :=
  [byte (n mod 256); byte (n / 256 mod 256); byte (n / 65536 mod 256); byte (n / 16777216 mod 256)].

Section bridge.
Context `{BrowserContracts} (recursion_limit : nat).

(** The [try] block: what the body of a message says. *)
Definition parse_native_body (body : text_in) : res BrowserMessageV1 :=
  let invalid := BrowserProtocolError "INVALID_MESSAGE" in
  match except_value_error invalid
          (res_bind (decode_json_bytes body)
             (loads (unique_hooks (ValueError "duplicate key") accept_constant) recursion_limit)) with
  | Exn e => Exn e
  | Ok (JObj payload) =>
      let get key := default JNull (assoc key payload) in
      if negb (json_eqb (get "protocol_version") (JInt 1))
      then Exn (BrowserProtocolError "UNSUPPORTED_VERSION")
      else
        match _MODELS (get "schema_version") (get "event_type") with
        | None => Exn invalid
        | Some model =>
            match model_validate model (JObj payload) with
            | Some message => Ok message
            | None => Exn invalid
            end
        end
  | Ok _ => Exn invalid
  end.

Definition decode_native_message (s : stream) : res (option BrowserMessageV1) * stream :=
  let (header, s) := _read_exact s 4 true in
  match header with
  | Exn e => (Exn e, s)
  | Ok None => (Ok None, s)
  | Ok (Some header) =>
      let length_ := unpack_le header in
      if negb ((1 <=? length_) && (length_ <=? MAX_NATIVE_MESSAGE_BYTES))
      then (Exn (BrowserProtocolError "OVERSIZE"), s)
      else
        let (body, s) := _read_exact s (Z.to_nat length_) false in
        match body with
        | Exn e => (Exn e, s)
        | Ok body => (res_bind (parse_native_body (default [] body)) (λ m, Ok (Some m)), s)
        end
  end.

(** ** Acknowledgements *)

Definition ACK_CODES : list string :=
  ["OK"; "INVALID_MESSAGE"; "UNSUPPORTED_VERSION"; "OVERSIZE"; "IDENTITY_MISMATCH"; "IPC_UNAVAILABLE";
   "POLICY_DISABLED"; "SENSOR_NOT_READY"].

(** The validators of BrowserBridgeAckV1. *)
Definition ack_valid (accepted : bool) (error_code : string) : bool :=
  str_in error_code ACK_CODES && Bool.eqb accepted (bool_decide (error_code = "OK")).

Definition encode_native_ack (accepted : bool) (error_code : string) : res text_in :=
  if negb (ack_valid accepted error_code) then Exn (ValidationError "BrowserBridgeAckV1")
  else
    let body := ack_json accepted error_code in
    if 1024 <? Z.of_nat (length body) then Exn (BrowserProtocolError "OVERSIZE")
    else Ok (pack_le (Z.of_nat (length body)) ++ body).

(** ** BrowserProtocolSession *)

Record BrowserProtocolSession := { expected_extension_id : string; family : option string }.

Definition new_session (expected : string) : res BrowserProtocolSession :=
  if negb ((String.length expected =? 32)%nat && forallb (between 97 112) (chars expected))
  then Exn (BrowserProtocolError "IDENTITY_MISMATCH")
  else Ok {| expected_extension_id := expected; family := None |}.

Definition accept (session : BrowserProtocolSession) (message : option BrowserMessageV1)
    : res (BrowserMessageV1 * BrowserProtocolSession) :=
  let mismatch := Exn (BrowserProtocolError "IDENTITY_MISMATCH") in
  match message with
  | None => Exn (BrowserProtocolError "INVALID_MESSAGE")
  | Some message =>
      match family session with
      | None =>
          match message with
          | BrowserHelloV1 extension_id f _ =>
              if bool_decide (extension_id = expected_extension_id session)
              then Ok (message, {| expected_extension_id := expected_extension_id session; family := Some f |})
              else mismatch
          | _ => mismatch
          end
      | Some f =>
          if is_hello message || negb (bool_decide (browser_family message = f)) then mismatch
          else Ok (message, session)
      end
  end.

(** ** run_native_bridge *)

(** LocalBrowserEnvelopeV1, its constant fields apart. *)
Record LocalBrowserEnvelopeV1 := { env_extension_id : string; env_message : BrowserMessageV1 }.

(** What [forward] does: reply, raise LocalSensorProtocolError, or fail. *)
Inductive forwarded :=
| Replied (accepted : bool) (error_code : string)
| SensorProtocolError (error_code : string)
| ForwardFailed.

(** The reply that is acknowledged. *)
Definition reply_of (r : forwarded) : bool * string :=
  match r with
  | Replied accepted code => (accepted, code)
  | SensorProtocolError code => (false, code)
  | ForwardFailed => (false, "IPC_UNAVAILABLE")
  end.

(** [stdout] lists the writes, [sent] the envelopes forwarded so far. *)
Record bridge_state := {
  stdin : stream; stdout : list text_in; session : BrowserProtocolSession;
  sent : list LocalBrowserEnvelopeV1
}.

(** [forward] may answer by everything it was sent. *)
Context (forward : list LocalBrowserEnvelopeV1 → LocalBrowserEnvelopeV1 → forwarded).

(** Write a framed acknowledgement. *)
Definition write_ack (accepted : bool) (code : string) (s : bridge_state) : res unit * bridge_state :=
  match encode_native_ack accepted code with
  | Exn e => (Exn e, s)
  | Ok frame => (Ok (), {| stdin := stdin s; stdout := stdout s ++ [frame]; session := session s; sent := sent s |})
  end.

(** One turn of the loop; [Ok true] goes on, [Ok false] returns. *)
Definition bridge_turn (s : bridge_state) : res bool * bridge_state :=
  let (message, rest) := decode_native_message (stdin s) in
  let s := {| stdin := rest; stdout := stdout s; session := session s; sent := sent s |} in
  match message with
  | Ok None => (Ok false, s)
  | _ =>
      match res_bind message (accept (session s)) with
      | Exn (BrowserProtocolError code) =>
          let (r, s) := write_ack false code s in
          (res_bind r (λ _, Ok false), s)
      | Exn e => (Exn e, s)
      | Ok (checked, session') =>
          let envelope := {| env_extension_id := expected_extension_id session'; env_message := checked |} in
          let (accepted, code) := reply_of (forward (sent s) envelope) in
          let (r, s) := write_ack accepted code
            {| stdin := stdin s; stdout := stdout s; session := session'; sent := sent s ++ [envelope] |} in
          (res_bind r (λ _, Ok true), s)
      end
  end.

(** [while True]; a turn that goes on has read at least five bytes. *)
Fixpoint bridge_loop (fuel : nat) (s : bridge_state) : res unit * bridge_state :=
  match fuel with
  | O => (Exn (OutsideModel "fuel"), s)
  | S fuel =>
      match bridge_turn s with
      | (Ok true, s) => bridge_loop fuel s
      | (Ok false, s) => (Ok (), s)
      | (Exn e, s) => (Exn e, s)
      end
  end.

(** [--parent-window=[0-9]{1,20}] *)
Definition _PARENT_WINDOW (argument : string) : bool :=
  match strip (chars "--parent-window=") (chars argument) with
  | Some digits => isdigit digits && (length digits <=? 20)%nat
  | None => false
  end.

Definition validate_native_invocation (arguments : list string) (expected : string) : res unit :=
  res_bind (new_session expected) (λ _,
    let origin := "chrome-extension://" +:+ expected in
    match arguments with
    | [o] | [o; _] =>
        if negb (str_in o [origin; origin +:+ "/"]) then Exn (ValueError "unapproved native messaging origin")
        else
          match arguments with
          | [_; window] =>
              if _PARENT_WINDOW window then Ok ()
              else Exn (ValueError "invalid native messaging launch arguments")
          | _ => Ok ()
          end
    | _ => Exn (ValueError "unapproved native messaging origin")
    end).

Definition run_native_bridge (input : stream) (arguments : list string) (expected : string)
    : res unit * list text_in * list LocalBrowserEnvelopeV1 :=
  match res_bind (validate_native_invocation arguments expected) (λ _, new_session expected) with
  | Exn e => (Exn e, [], [])
  | Ok session =>
      let (r, s) := bridge_loop (length (concat input) + 1)
        {| stdin := input; stdout := []; session := session; sent := [] |} in
      (r, stdout s, sent s)
  end.
End bridge.
