(* ===== verification/BridgeSpecs.v ===== *)
(** * The browser bridge: what it reads, forwards and answers *)

From S2P Require Import Prelude Store AuditLog Contracts Canonical Semver SemverFacts Json JsonFacts LocalMessages.
From S2P Require Import Bridge.

(** ** Reading is a matter of bytes *)

(** No piece of the stream is empty: an empty read is the end. *)
Definition proper (s : stream) : Prop := Forall (λ piece, piece ≠ []) s.

Lemma stream_read_spec n s chunk s' :
  proper s → (0 < n)%nat → stream_read n s = (chunk, s') →
  proper s' ∧ concat s = chunk ++ concat s' ∧ (length chunk <= n)%nat ∧ (chunk = [] ↔ concat s = []).
Proof.
  intros Hs Hn. destruct s as [|piece rest]; simpl; [intros [= <- <-]; split_and!; simpl; [done..|lia|done]|].
  apply Forall_cons in Hs as [Hp Hs]. intros [= <- <-].
  assert (take n piece ≠ []) as Htake by (destruct piece, n; simpl; (done || lia)).
  assert (concat (piece :: rest) = take n piece ++ drop n piece ++ concat rest) as E
    by (simpl; by rewrite app_assoc, take_drop).
  split_and!.
  - destruct (drop n piece) as [|c tail]; [done|by constructor].
  - simpl in E. rewrite E. destruct (drop n piece) as [|c tail]; [by rewrite !app_nil_l|done].
  - rewrite length_take. lia.
  - split; [done|]. intros Hc. apply app_eq_nil in Hc as [-> _]. done.
Qed.

Lemma read_loop_spec fuel s length_ eof result :
  proper s → (length result <= length_)%nat → (length_ < fuel + length result)%nat →
  ∃ r s', read_loop fuel s length_ eof result = (r, s') ∧ proper s'
    ∧ if (length_ <=? length (result ++ concat s))%nat
      then r = Ok (Some (take length_ (result ++ concat s))) ∧ concat s' = drop (length_ - length result) (concat s)
      else concat s' = [] ∧ r = if eof && bool_decide (result ++ concat s = []) then Ok None
                               else Exn (BrowserProtocolError "INVALID_MESSAGE").
Proof.
  revert s result. induction fuel as [|fuel IH]; intros s result Hs Hle Hfuel; [lia|]. cbn [read_loop].
  destruct (Nat.ltb_spec (length result) length_) as [Hlt|Hge].
  - destruct (stream_read (length_ - length result) s) as [chunk s1] eqn:E.
    apply stream_read_spec in E as (Hs1 & Hcat & Hlen & Hnil); [|done|lia]. rewrite Hcat.
    destruct (decide (chunk = [])) as [->|Hne].
    + rewrite bool_decide_true by done. eexists _, s1. split; [done|]. split; [done|].
      assert (concat s1 = []) as Hc by (rewrite <- (app_nil_l (concat s1)), <- Hcat; by apply Hnil).
      rewrite Hc, !app_nil_l, app_nil_r. apply Nat.leb_gt in Hlt. rewrite Hlt. done.
    + rewrite bool_decide_false by done.
      assert (0 < length chunk)%nat by (destruct chunk; [done|simpl; lia]).
      destruct (IH s1 (result ++ chunk)) as (r & s' & Er & Hs' & Hr); [done|rewrite length_app; lia..|].
      exists r, s'. split; [exact Er|]. split; [done|]. rewrite <- app_assoc in Hr.
      destruct (length_ <=? length (result ++ chunk ++ concat s1))%nat; [|exact Hr].
      destruct Hr as [-> ->]. split; [done|]. rewrite length_app, skipn_app.
      rewrite (skipn_all2 chunk) by lia. simpl. f_equal. lia.
  - eexists _, s. split; [done|]. split; [done|]. assert (length_ = length result) as -> by lia.
    rewrite (proj2 (Nat.leb_le _ _)) by (rewrite length_app; lia).
    rewrite take_app_length. by rewrite Nat.sub_diag.
Qed.

(** [_read_exact] on the bytes themselves. *)
Definition read_bytes (b : text_in) (n : nat) (eof : bool) : res (option text_in) * text_in :=
  if (n <=? length b)%nat then (Ok (Some (take n b)), drop n b)
  else (if eof && bool_decide (b = []) then Ok None else Exn (BrowserProtocolError "INVALID_MESSAGE"), []).

Lemma read_exact_bytes s n eof :
  proper s →
  ∃ s', _read_exact s n eof = ((read_bytes (concat s) n eof).1, s')
    ∧ proper s' ∧ concat s' = (read_bytes (concat s) n eof).2.
Proof.
  intros Hs. destruct (read_loop_spec (n + 1) s n eof []) as (r & s' & E & Hs' & Hr); [done|simpl; lia..|].
  exists s'. unfold _read_exact. rewrite E. unfold read_bytes. simpl in *.
  destruct (n <=? length (concat s))%nat; destruct Hr as [E1 E2]; subst; simpl; [|done].
  split_and!; [done..|]. by rewrite Nat.sub_0_r in E2.
Qed.

Section specs.
Context `{BrowserContracts} (limit : nat).

(** [decode_native_message] on the bytes themselves. *)
Definition decode_bytes (b : text_in) : res (option BrowserMessageV1) * text_in :=
  let (header, b) := read_bytes b 4 true in
  match header with
  | Exn e => (Exn e, b)
  | Ok None => (Ok None, b)
  | Ok (Some header) =>
      let n := unpack_le header in
      if negb ((1 <=? n) && (n <=? MAX_NATIVE_MESSAGE_BYTES)) then (Exn (BrowserProtocolError "OVERSIZE"), b)
      else
        let (body, b) := read_bytes b (Z.to_nat n) false in
        match body with
        | Exn e => (Exn e, b)
        | Ok body => (res_bind (parse_native_body limit (default [] body)) (λ m, Ok (Some m)), b)
        end
  end.

Lemma decode_native_bytes s :
  proper s →
  ∃ s', decode_native_message limit s = ((decode_bytes (concat s)).1, s')
    ∧ proper s' ∧ concat s' = (decode_bytes (concat s)).2.
Proof.
  intros Hs. unfold decode_native_message, decode_bytes.
  destruct (read_exact_bytes s 4 true Hs) as (s1 & -> & Hs1 & E1).
  destruct (read_bytes (concat s) 4 true) as [[[header|]|e] b1] eqn:Eb; simpl in *; [|by exists s1..].
  destruct (negb _) eqn:En; [by exists s1|].
  destruct (read_exact_bytes s1 (Z.to_nat (unpack_le header)) false Hs1) as (s2 & -> & Hs2 & E2).
  rewrite E1 in *. destruct (read_bytes b1 _ false) as [[body|e] b2]; simpl in *; by exists s2.
Qed.

(** ** One turn *)

Context (forward : list LocalBrowserEnvelopeV1 → LocalBrowserEnvelopeV1 → forwarded).

(** The length prefix of a frame says how many bytes follow. *)
Definition framed (frame : text_in) : Prop :=
  ∃ body, frame = pack_le (Z.of_nat (length body)) ++ body ∧ Z.of_nat (length body) <= 1024.

Lemma encode_ack_framed accepted code frame : encode_native_ack accepted code = Ok frame → framed frame.
Proof.
  unfold encode_native_ack. destruct (negb _); [done|].
  destruct (Z.ltb_spec 1024 (Z.of_nat (length (ack_json accepted code)))); [done|].
  intros [= <-]. by eexists.
Qed.

(** What a turn does after the message is decoded. *)
Definition handle (message : res (option BrowserMessageV1)) (s : bridge_state) : res bool * bridge_state :=
  match message with
  | Ok None => (Ok false, s)
  | _ =>
      match res_bind message (accept (session s)) with
      | Exn (BrowserProtocolError code) =>
          let (r, s) := write_ack false code s in
          (res_bind r (λ _, Ok false), s)
      | Exn e => (Exn e, s)
      | Ok (checked, session') =>
          let envelope := {| env_extension_id := expected_extension_id session'; env_message := checked |} in
          let (accepted, code) := reply_of (forward (sent s) envelope) in
          let (r, s) := write_ack accepted code
            {| stdin := stdin s; stdout := stdout s; session := session'; sent := sent s ++ [envelope] |} in
          (res_bind r (λ _, Ok true), s)
      end
  end.

Definition with_stdin (rest : stream) (s : bridge_state) : bridge_state :=
  {| stdin := rest; stdout := stdout s; session := session s; sent := sent s |}.

Lemma bridge_turn_handle s :
  bridge_turn limit forward s
  = handle (decode_native_message limit (stdin s)).1 (with_stdin (decode_native_message limit (stdin s)).2 s).
Proof. unfold bridge_turn, handle. by destruct (decode_native_message limit (stdin s)) as [[[m|]|e] rest]. Qed.

(** The outcome of a turn, by what it adds to the writes and the envelopes. *)
Inductive turn_adds (s : bridge_state) (r : res bool) (s' : bridge_state) : Prop :=
| adds_nothing : r ≠ Ok true → stdout s' = stdout s → sent s' = sent s → session s' = session s →
    turn_adds s r s'
| adds_refusal frame : r = Ok false → framed frame → stdout s' = stdout s ++ [frame] → sent s' = sent s →
    session s' = session s → turn_adds s r s'
| adds_message m checked session' added :
    accept (session s) (Some m) = Ok (checked, session') → session s' = session' →
    sent s' = sent s ++ [{| env_extension_id := expected_extension_id session'; env_message := checked |}] →
    stdout s' = stdout s ++ added →
    (r = Ok true ∧ (∃ frame, framed frame ∧ added = [frame]) ∨ (∃ e, r = Exn e) ∧ added = []) →
    turn_adds s r s'.

Lemma handle_adds message s : turn_adds s (handle message s).1 (handle message s).2 ∧ stdin (handle message s).2 = stdin s.
Proof.
  unfold handle. destruct message as [[m|]|e]; cbn [res_bind].
  - destruct (accept (session s) (Some m)) as [[checked session']|e] eqn:Ea.
    + destruct (reply_of _) as [accepted code]. unfold write_ack.
      destruct (encode_native_ack accepted code) as [frame|e] eqn:Ee; cbn; (split; [|done]).
      * eapply adds_message with (added := [frame]); [exact Ea|done..|]. left. split; [done|].
        exists frame. split; [by eapply encode_ack_framed|done].
      * eapply adds_message with (added := []); [exact Ea|done|done|by rewrite app_nil_r|]. right. eauto.
    + destruct e; try (split; [by apply adds_nothing|done]). unfold write_ack.
      destruct (encode_native_ack false _) as [frame|e] eqn:Ee; cbn; (split; [|done]).
      * eapply adds_refusal; [done|by eapply encode_ack_framed|done..].
      * by apply adds_nothing.
  - split; [by apply adds_nothing|done].
  - destruct e; try (split; [by apply adds_nothing|done]). unfold write_ack.
    destruct (encode_native_ack false _) as [frame|e] eqn:Ee; cbn; (split; [|done]).
    * eapply adds_refusal; [done|by eapply encode_ack_framed|done..].
    * by apply adds_nothing.
Qed.

(** ** Only the pinned extension *)

(** The envelopes of one session: a greeting of the pinned extension, then
    messages of the greeted browser family. *)
Definition bound_to (pinned : string) (envelopes : list LocalBrowserEnvelopeV1) : Prop :=
  Forall (λ e, env_extension_id e = pinned) envelopes
  ∧ match envelopes with
    | [] => True
    | first :: rest => ∃ f payload, env_message first = BrowserHelloV1 pinned f payload
        ∧ Forall (λ e, is_hello (env_message e) = false ∧ browser_family (env_message e) = f) rest
    end.

Definition session_ok (pinned : string) (s : bridge_state) : Prop :=
  expected_extension_id (session s) = pinned ∧ bound_to pinned (sent s)
  ∧ match family (session s) with
    | None => sent s = []
    | Some f => ∃ first rest payload, sent s = first :: rest ∧ env_message first = BrowserHelloV1 pinned f payload
    end.

Lemma accept_keeps_session pinned s m checked session' envelope :
  session_ok pinned s → accept (session s) (Some m) = Ok (checked, session') →
  envelope = {| env_extension_id := expected_extension_id session'; env_message := checked |} →
  expected_extension_id session' = pinned ∧ bound_to pinned (sent s ++ [envelope])
  ∧ ∃ f first rest payload, family session' = Some f ∧ sent s ++ [envelope] = first :: rest
      ∧ env_message first = BrowserHelloV1 pinned f payload.
Proof.
  intros (Hexp & [Hall Hb] & Hf) Ha ->. unfold accept in Ha.
  destruct (family (session s)) as [f|] eqn:Ef.
  - destruct (is_hello m) eqn:Eh; [done|]. case_bool_decide; [|done]. injection Ha as <- <-.
    destruct Hf as (first & rest & payload & Es & Em). rewrite Es in *.
    destruct Hb as (f' & payload' & Em' & Hrest). rewrite Em in Em'. injection Em' as <- <-.
    split; [done|]. split; [split|].
    + apply Forall_app. split; [done|]. by repeat constructor.
    + exists f, payload. split; [done|]. apply Forall_app. split; [done|]. by repeat constructor.
    + exists f, first, (rest ++ [{| env_extension_id := expected_extension_id (session s); env_message := m |}]), payload.
      done.
  - destruct m as [ext f payload| | | |]; try done. case_bool_decide as He; [|done]. injection Ha as <- <-.
    rewrite Hf. simpl. rewrite Hexp, He, Hexp. split; [done|]. split; [split|].
    + by repeat constructor.
    + exists f, payload. split; [done|constructor].
    + by eexists f, _, [], payload.
Qed.

Lemma turn_keeps_session pinned s r s' : session_ok pinned s → turn_adds s r s' → session_ok pinned s'.
Proof.
  intros Hs [Hr Ho Hse Hss|frame Hr Hfr Ho Hse Hss|m checked session' added Ha Hss Hse Ho _].
  - unfold session_ok. rewrite Hse, Hss. exact Hs.
  - unfold session_ok. rewrite Hse, Hss. exact Hs.
  - destruct (accept_keeps_session pinned s m checked session' _ Hs Ha eq_refl)
      as (He & Hb & f & first & rest & payload & Hfam & Hsent & Hm).
    unfold session_ok. rewrite Hse, Hss. split; [done|]. split; [done|]. rewrite Hfam. eauto.
Qed.

Lemma bridge_turn_adds s :
  turn_adds (with_stdin (decode_native_message limit (stdin s)).2 s) (bridge_turn limit forward s).1
    (bridge_turn limit forward s).2.
Proof. rewrite bridge_turn_handle. apply handle_adds. Qed.

(** What a run has written: a frame for each message, and at most one more. *)
Definition answered (s : bridge_state) : Prop :=
  Forall framed (stdout s) ∧ length (stdout s) = length (sent s).

Definition answers (r : res unit) (s : bridge_state) : Prop :=
  Forall framed (stdout s)
  ∧ (length (stdout s) <= S (length (sent s)))%nat ∧ (length (sent s) <= S (length (stdout s)))%nat
  ∧ (r = Ok () → (length (sent s) <= length (stdout s))%nat).

Lemma bridge_loop_spec pinned fuel s r s' :
  session_ok pinned s → answered s → bridge_loop limit forward fuel s = (r, s') →
  session_ok pinned s' ∧ answers r s'.
Proof.
  revert s. induction fuel as [|fuel IH]; intros s Hs Ha; cbn [bridge_loop].
  { intros [= <- <-]. split; [done|]. destruct Ha as [? Hl]. split_and!; [done|lia|lia|intros _; lia]. }
  assert (session_ok pinned (with_stdin (decode_native_message limit (stdin s)).2 s)) as Hs1 by done.
  assert (answered (with_stdin (decode_native_message limit (stdin s)).2 s)) as Ha1 by done.
  pose proof (bridge_turn_adds s) as Hadds. pose proof (turn_keeps_session pinned _ _ _ Hs1 Hadds) as Hs2.
  destruct (bridge_turn limit forward s) as [rt st]. cbn [fst snd] in *.
  assert ((rt = Ok true → answered st) ∧ answers (res_bind rt (λ _, Ok ())) st) as [Hgo Hstop].
  { destruct Ha as [Hf Hl].
    destruct Hadds as [Hr Ho Hse Hss|frame Hr Hfr Ho Hse Hss|m checked session' added Hac Hss Hse Ho Hcase];
      cbn [with_stdin stdout sent] in Ho, Hse; unfold answers, answered; rewrite Ho, Hse.
    - split; [done|]. split_and!; [done|lia|lia|intros _; lia].
    - rewrite Hr, !length_app. cbn [length]. split; [done|]. split_and!; [|lia|lia|intros _; lia].
      apply Forall_app. by repeat constructor.
    - destruct Hcase as [(-> & frame & Hfr & ->)|[[e ->] ->]]; rewrite !length_app; cbn [length res_bind].
      + assert (Forall framed (stdout s ++ [frame])) as Hall by (apply Forall_app; by repeat constructor).
        split; [|split_and!; [done|lia|lia|intros _; lia]]. intros _. split; [done|lia].
      + rewrite app_nil_r. split; [done|]. split_and!; [done|lia|lia|done]. }
  destruct rt as [[]|e]; [by apply IH; auto|intros [= <- <-]; done|intros [= <- <-]; done].
Qed.

(** ** Pieces do not matter, and the loop ends *)

Lemma handle_stdin message rest s :
  handle message (with_stdin rest s) = ((handle message s).1, with_stdin rest (handle message s).2).
Proof.
  unfold handle. cbn [with_stdin session sent stdout stdin].
  assert (∀ a c t, write_ack a c (with_stdin rest t) = ((write_ack a c t).1, with_stdin rest (write_ack a c t).2)) as Hw.
  { intros a c t. unfold write_ack. by destruct (encode_native_ack a c). }
  destruct message as [[m|]|e]; cbn [res_bind]; [|done|].
  - destruct (accept (session s) (Some m)) as [[checked session']|e].
    + destruct (reply_of _) as [accepted c].
      change {| stdin := rest; stdout := stdout s; session := session'; sent := _ |}
        with (with_stdin rest {| stdin := stdin s; stdout := stdout s; session := session';
          sent := sent s ++ [{| env_extension_id := expected_extension_id session'; env_message := checked |}] |}).
      rewrite Hw. by destruct (write_ack _ _ _).
    + destruct e; try done. change {| stdin := rest; stdout := stdout s; session := session s; sent := sent s |}
        with (with_stdin rest s). rewrite Hw. by destruct (write_ack _ _ _).
  - destruct e; try done. change {| stdin := rest; stdout := stdout s; session := session s; sent := sent s |}
      with (with_stdin rest s). rewrite Hw. by destruct (write_ack _ _ _).
Qed.

(** Two states that differ only in the pieces of their input. *)
Definition same_bytes (s t : bridge_state) : Prop :=
  proper (stdin s) ∧ proper (stdin t) ∧ concat (stdin s) = concat (stdin t)
  ∧ ∃ rest, t = with_stdin rest s.

Lemma bridge_turn_same s t :
  same_bytes s t →
  (bridge_turn limit forward s).1 = (bridge_turn limit forward t).1
  ∧ same_bytes (bridge_turn limit forward s).2 (bridge_turn limit forward t).2.
Proof.
  intros (Hs & Ht & Hc & rest & ->). rewrite !bridge_turn_handle, !handle_stdin. cbn [fst snd].
  destruct (decode_native_bytes (stdin s) Hs) as (s1 & Es & Hs1 & Cs).
  destruct (decode_native_bytes rest Ht) as (t1 & Et & Ht1 & Ct).
  change (stdin (with_stdin rest s)) with rest in *. rewrite Es, Et, Hc. cbn [fst snd].
  split; [done|]. unfold same_bytes. cbn [with_stdin stdin].
  split_and!; [done|done|congruence|]. by exists t1.
Qed.

Lemma bridge_loop_same fuel s t :
  same_bytes s t →
  (bridge_loop limit forward fuel s).1 = (bridge_loop limit forward fuel t).1
  ∧ same_bytes (bridge_loop limit forward fuel s).2 (bridge_loop limit forward fuel t).2.
Proof.
  revert s t. induction fuel as [|fuel IH]; intros s t Hst; [done|]. cbn [bridge_loop].
  destruct (bridge_turn_same s t Hst) as [E Hst'].
  destruct (bridge_turn limit forward s) as [rs ss], (bridge_turn limit forward t) as [rt tt].
  cbn [fst snd] in *. subst rt. destruct rs as [[]|e]; [by apply IH|done|done].
Qed.

Lemma read_bytes_length b n eof : (length (read_bytes b n eof).2 <= length b)%nat.
Proof. unfold read_bytes. destruct (_ <=? _)%nat; simpl; [rewrite length_drop|]; lia. Qed.

Lemma parse_body_fuel body : parse_native_body limit body ≠ Exn no_fuel.
Proof.
  unfold parse_native_body.
  destruct (except_value_error _ _) as [v|e] eqn:E.
  - destruct v; try done. destruct (negb _); [done|]. destruct (_MODELS _ _); [|done].
    by destruct (model_validate _ _).
  - intros [= ->]. destruct (res_bind _ _) as [v|e] eqn:El; [done|]. cbn [except_value_error] in E.
    destruct (is_value_error e) eqn:Ev; [done|]. injection E as ->.
    unfold decode_json_bytes in El. destruct (_ && _); [|done]. cbn [res_bind] in El.
    revert El. apply unique_loads_ends; [done|apply accept_constant_gives].
Qed.

Lemma decode_bytes_facts b :
  match decode_bytes b with
  | (Ok (Some _), rest) => (length rest < length b)%nat
  | (Exn e, _) => e ≠ no_fuel
  | _ => True
  end.
Proof.
  unfold decode_bytes. pose proof (read_bytes_length b 4 true) as H1.
  destruct (read_bytes b 4 true) as [[[header|]|e] b1] eqn:E1; cbn [snd] in *.
  - assert (length b1 < length b)%nat as Hlt.
    { unfold read_bytes in E1. destruct (Nat.leb_spec 4 (length b)).
      - injection E1 as _ <-. rewrite length_drop. lia.
      - destruct (true && _); discriminate. }
    destruct (negb _); [done|]. pose proof (read_bytes_length b1 (Z.to_nat (unpack_le header)) false) as H2.
    destruct (read_bytes b1 _ false) as [[body|e] b2] eqn:E2; cbn [snd] in *.
    + destruct (parse_native_body limit (default [] body)) as [m|e] eqn:Ep; cbn [res_bind]; [lia|].
      intros ->. by apply parse_body_fuel in Ep.
    + unfold read_bytes in E2. destruct (_ <=? _)%nat; simpl in E2; [done|]. injection E2 as <- _. done.
  - done.
  - unfold read_bytes in E1. destruct (4 <=? length b)%nat; [done|]. destruct (true && _); [done|].
    injection E1 as <- _. done.
Qed.

Lemma handle_result message s :
  match (handle message s).1 with
  | Ok true => ∃ m, message = Ok (Some m)
  | Exn e => message = Exn e ∨ e ≠ no_fuel
  | _ => True
  end.
Proof.
  assert (∀ a c t e, (write_ack a c t).1 = Exn e → e ≠ no_fuel) as Hw.
  { intros a c t e. unfold write_ack, encode_native_ack. destruct (negb _); [by intros [= <-]|].
    destruct (1024 <? _); by intros [= <-]. }
  unfold handle. destruct message as [[m|]|e]; cbn [res_bind]; [|done|].
  - destruct (accept (session s) (Some m)) as [[checked session']|e] eqn:Ea.
    + destruct (reply_of _) as [accepted c].
      pose proof (Hw accepted c {| stdin := stdin s; stdout := stdout s; session := session'; sent := sent s
        ++ [{| env_extension_id := expected_extension_id session'; env_message := checked |}] |}) as H'.
      destruct (write_ack _ _ _) as [[[]|e] t]; cbn in *; [by exists m|right; by apply H'].
    + assert (e ≠ no_fuel) as He.
      { unfold accept in Ea. intros ->. destruct (family (session s)); [by destruct (_ || _)|].
        destruct m; try done. by case_bool_decide. }
      destruct e; cbn [fst]; try (by right). pose proof (λ c, Hw false c s) as H'.
      rename code0 into c. specialize (H' c).
      destruct (write_ack _ _ _) as [[[]|e] t]; cbn in *; [done|right; by apply H'].
  - destruct e; cbn [fst]; try (by left). pose proof (λ c, Hw false c s) as H'.
    rename code0 into c. specialize (H' c).
      destruct (write_ack _ _ _) as [[[]|e] t]; cbn in *; [done|right; by apply H'].
Qed.

Lemma bridge_loop_ends fuel s :
  proper (stdin s) → (length (concat (stdin s)) < fuel)%nat →
  (bridge_loop limit forward fuel s).1 ≠ Exn no_fuel.
Proof.
  revert s. induction fuel as [|fuel IH]; intros s Hs Hfuel; [lia|]. cbn [bridge_loop].
  destruct (decode_native_bytes (stdin s) Hs) as (rest & Ed & Hrest & Hc).
  pose proof (bridge_turn_handle s) as Et. rewrite Ed in Et. cbn [fst snd] in Et.
  pose proof (handle_result (decode_bytes (concat (stdin s))).1 (with_stdin rest s)) as Hr.
  destruct (handle_adds (decode_bytes (concat (stdin s))).1 (with_stdin rest s)) as [_ Hin].
  rewrite <- Et in Hr, Hin. pose proof (decode_bytes_facts (concat (stdin s))) as Hd.
  destruct (bridge_turn limit forward s) as [rt st]. cbn [fst snd] in *.
  destruct (decode_bytes (concat (stdin s))) as [dm db]. cbn [fst snd] in *.
  destruct rt as [[]|e]; cbn [fst].
  - destruct Hr as [m ->]. apply IH; rewrite Hin; cbn [with_stdin stdin]; [done|]. rewrite Hc. lia.
  - done.
  - intros [= ->]. destruct Hr as [->|Hr]; [by apply Hd|done].
Qed.

(** ** Frames *)

Lemma byte_code n : 0 <= n < 256 → code (byte n) = n.
Proof. intros Hn. unfold code, byte. rewrite Ascii.N_ascii_embedding by lia. lia. Qed.

Lemma unpack_pack n : 0 <= n < 2 ^ 32 → unpack_le (pack_le n) = n.
Proof.
  intros Hn. unfold pack_le. cbn [unpack_le]. rewrite !byte_code by (apply Z.mod_pos_bound; lia).
  change 65536 with (256 * 256). change 16777216 with (256 * 256 * 256).
  rewrite <- !Z.div_div by lia. rewrite (Z.mod_small (n / 256 / 256 / 256)).
  - pose proof (Z.div_mod n 256). pose proof (Z.div_mod (n / 256) 256).
    pose proof (Z.div_mod (n / 256 / 256) 256). lia.
  - rewrite !Z.div_div by lia. split; [apply Z.div_pos; lia|]. apply Z.div_lt_upper_bound; lia.
Qed.

(** A frame is read as its body, whatever follows. *)
Lemma decode_frame body rest :
  1 <= Z.of_nat (length body) <= MAX_NATIVE_MESSAGE_BYTES →
  decode_bytes (pack_le (Z.of_nat (length body)) ++ body ++ rest)
  = (res_bind (parse_native_body limit body) (λ m, Ok (Some m)), rest).
Proof.
  intros Hn. unfold MAX_NATIVE_MESSAGE_BYTES in *. unfold decode_bytes.
  assert (read_bytes (pack_le (Z.of_nat (length body)) ++ body ++ rest) 4 true
    = (Ok (Some (pack_le (Z.of_nat (length body)))), body ++ rest)) as -> by done.
  rewrite unpack_pack by lia. unfold MAX_NATIVE_MESSAGE_BYTES.
  rewrite (proj2 (Z.leb_le 1 _)), (proj2 (Z.leb_le _ (16 * 1024))) by lia. cbn [negb andb].
  assert (read_bytes (body ++ rest) (Z.to_nat (Z.of_nat (length body))) false = (Ok (Some body), rest)) as ->; [|done].
  unfold read_bytes. rewrite Nat2Z.id, (proj2 (Nat.leb_le _ _)) by (rewrite length_app; lia).
  by rewrite take_app_length, drop_app_length.
Qed.

(** ** The bridge *)

Lemma run_native_bridge_loop input arguments pinned r out envelopes :
  run_native_bridge limit forward input arguments pinned = (r, out, envelopes) →
  ((∃ e, r = Exn e ∧ e ≠ no_fuel) ∧ out = [] ∧ envelopes = [])
  ∨ ∃ s', bridge_loop limit forward (length (concat input) + 1)
        {| stdin := input; stdout := []; session := {| expected_extension_id := pinned; family := None |}; sent := [] |}
      = (r, s') ∧ out = stdout s' ∧ envelopes = sent s'.
Proof.
  unfold run_native_bridge, validate_native_invocation, new_session.
  destruct (negb _); cbn [res_bind].
  { intros [= <- <- <-]. left. eauto. }
  destruct (match arguments with [] => _ | _ => _ end) as [[]|e] eqn:Ea; cbn [res_bind].
  - destruct (bridge_loop _ _ _ _) as [r' s'] eqn:El. intros [= <- <- <-]. right. by exists s'.
  - intros [= <- <- <-]. left. split; [|done]. exists e. split; [done|]. intros ->.
    repeat case_match; discriminate.
Qed.

(** Whatever arrives on the port, the bridge forwards nothing before the
    pinned extension has greeted it, then only messages of the greeted browser
    family that are no greeting, each in an envelope of the pinned identity; it
    writes well-formed frames only, one for each forwarded message and at most
    one refusal after them. *)
Theorem only_the_pinned_extension_is_forwarded input arguments pinned r out envelopes :
  run_native_bridge limit forward input arguments pinned = (r, out, envelopes) →
  bound_to pinned envelopes ∧ Forall framed out
  ∧ (length out <= S (length envelopes))%nat
  ∧ (r = Ok () → (length envelopes <= length out)%nat).
Proof.
  intros [(_ & -> & ->)|(s' & El & -> & ->)]%run_native_bridge_loop.
  - split; [by split|]. split; [constructor|]. simpl. split; [lia|intros _; lia].
  - apply (bridge_loop_spec pinned) in El as ((_ & Hb & _) & Hf & H1 & _ & H2); [done| |].
    + split; [done|]. split; [|done]. by split.
    + by split.
Qed.

(** C22: the bridge depends on the bytes it is sent and not on the pieces they
    arrive in, and it always returns: a turn that goes on has consumed a whole
    frame, so that the length of the input bounds the turns. *)
Theorem the_bridge_reads_bytes input input' arguments pinned :
  proper input → proper input' → concat input = concat input' →
  run_native_bridge limit forward input arguments pinned = run_native_bridge limit forward input' arguments pinned
  ∧ (run_native_bridge limit forward input arguments pinned).1.1 ≠ Exn no_fuel.
Proof.
  intros Hp Hp' Hc. split.
  - unfold run_native_bridge. destruct (res_bind _ _) as [session|e]; [|done]. rewrite Hc.
    destruct (bridge_loop_same (length (concat input') + 1)
      {| stdin := input; stdout := []; session := session; sent := [] |}
      {| stdin := input'; stdout := []; session := session; sent := [] |}) as [E (_ & _ & _ & rest & E')].
    { split_and!; [done..|]. by exists input'. }
    destruct (bridge_loop limit forward _ {| stdin := input; stdout := _; session := _; sent := _ |}) as [r s].
    destruct (bridge_loop limit forward _ {| stdin := input'; stdout := _; session := _; sent := _ |}) as [r' s'].
    cbn [fst snd] in *. by subst.
  - destruct (run_native_bridge limit forward input arguments pinned) as [[r out] envelopes] eqn:E. cbn [fst].
    apply run_native_bridge_loop in E as [[(e & -> & He) _]|(s' & El & _)]; [congruence|].
    pose proof (bridge_loop_ends (length (concat input) + 1)
      {| stdin := input; stdout := []; session := {| expected_extension_id := pinned; family := None |}; sent := [] |}
      Hp ltac:(cbn [stdin]; lia)) as H'. by rewrite El in H'.
Qed.
End specs.

(** ** A port stream *)

Section demo.
(** Validators that read the identity and the family. *)
Definition text_of (key : string) (payload : json) : string :=
  match payload with
  | JObj fields => match assoc key fields with Some (JStr s) => s | _ => "" end
  | _ => ""
  end.

#[local] Instance demo_browser : BrowserContracts := {|
  model_validate := λ model payload,
    let f := text_of "browser_family" payload in
    match model with
    | hello_model => Some (BrowserHelloV1 (text_of "extension_id" payload) f payload)
    | heartbeat_model => Some (BrowserHeartbeatV1 f payload)
    | context_model => Some (BrowserContextV1 f payload)
    | upload_model => Some (BrowserUploadV1 f payload)
    | paste_model => Some (BrowserPasteV1 f payload)
    end;
  ack_json := λ accepted code, chars (json_string code) |}.

Definition pinned_extension : string := text (repeat (Ascii.ascii_of_nat 97) 32).

(** A message as the extension sends it. *)
Definition native_message (fields : list (string * string)) : text_in :=
  let body := chars "{" ++ chars (json_string "protocol_version") ++ chars ":1"
    ++ flat_map (λ f, chars "," ++ chars (json_string f.1) ++ chars ":" ++ chars (json_string f.2)) fields
    ++ chars "}" in
  pack_le (Z.of_nat (length body)) ++ body.

Definition hello_bytes : text_in :=
  native_message [("schema_version", "browser_sensor_hello_v1"); ("extension_id", pinned_extension);
                  ("browser_family", "chrome")].
Definition context_bytes (f : string) : text_in :=
  native_message [("schema_version", "browser_sensor_context_v1"); ("browser_family", f)].

Definition demo_forward (earlier : list LocalBrowserEnvelopeV1) (e : LocalBrowserEnvelopeV1) : forwarded :=
  Replied true "OK".

Definition demo_run (input : stream) : res unit * list text_in * list LocalBrowserEnvelopeV1 :=
  run_native_bridge 1000 demo_forward input ["chrome-extension://" +:+ pinned_extension] pinned_extension.

(** Two accepted messages, then one of another family. *)
Definition demo_port : text_in := hello_bytes ++ context_bytes "chrome" ++ context_bytes "yandex".

Lemma only_the_pinned_extension_is_forwarded_witness :
  length (demo_run [demo_port]).1.2 = 3%nat ∧ length (demo_run [demo_port]).2 = 2%nat
  ∧ bound_to pinned_extension (demo_run [demo_port]).2.
Proof.
  split; [vm_compute; reflexivity|]. split; [vm_compute; reflexivity|].
  destruct (demo_run [demo_port]) as [[r out] envelopes] eqn:E.
  by destruct (only_the_pinned_extension_is_forwarded 1000 demo_forward _ _ _ _ _ _ E) as [Hb _].
Defined.

Lemma the_bridge_reads_bytes_witness :
  demo_run [demo_port] = demo_run (map (λ c, [c]) demo_port) ∧ (demo_run [demo_port]).1.1 ≠ Exn no_fuel.
Proof.
  apply the_bridge_reads_bytes.
  - constructor; [vm_compute; discriminate|constructor].
  - apply Forall_forall. intros piece (c & <- & _)%list_elem_of_In%in_map_iff. discriminate.
  - vm_compute. reflexivity.
Defined.

(** A message of nothing but opening brackets nests beyond the interpreter's
    limit: the RecursionError is not a protocol error, so that the bridge ends
    without an acknowledgement. *)
Definition deep_message : text_in := pack_le 16384 ++ repeat (Ascii.ascii_of_nat 91) (Z.to_nat 16384).

Example deep_nesting_is_not_acknowledged :
  run_native_bridge (Z.to_nat 10000) demo_forward [deep_message]
    ["chrome-extension://" +:+ pinned_extension] pinned_extension
  = (Exn (RecursionError "maximum recursion depth exceeded"), [], []).
Proof. vm_compute. reflexivity. Qed.
End demo.
