(* ===== verification/Eligibility.v ===== *)
(** * Release eligibility on the agent (pc_agent/update_eligibility.py)

    The offline updater decides on its own whether a recommended version may
    replace the installed one.  Its parser is a regular expression, its
    comparison a loop over the zipped identifiers; text is ASCII. *)

From S2P Require Import Prelude Store Session AuditLog Semver.

(** ** [_SEMVER.fullmatch] *)

(** [[0-9A-Za-z-]+(?:\.[0-9A-Za-z-]+)*] *)
Definition dotted_identifiers (l : list Ascii.ascii) : bool := forallb build_identifier (split dot l).

(** The groups of a match: the three numbers and the prerelease text. *)
Definition _SEMVER (l : list Ascii.ascii)
    : option ((list Ascii.ascii * list Ascii.ascii * list Ascii.ascii) * option (list Ascii.ascii)) :=
  let (without_build, build) := partition plus l in
  let (core, pre) := partition hyphen without_build in
  match split dot core with
  | [major; minor; patch] =>
      if numeric_identifier major && numeric_identifier minor && numeric_identifier patch
         && opt_all dotted_identifiers pre && opt_all dotted_identifiers build
      then Some ((major, minor, patch), pre) else None
  | _ => None
  end.

Definition _parse_semver (value : string) : option semver :=
  match _SEMVER (chars value) with
  | None => None
  | Some ((major, minor, patch), prerelease) =>
      Some ((digits_value 0 major, digits_value 0 minor, digits_value 0 patch), split dot <$> prerelease)
  end.

(** ** Comparison *)

(** The loop over [zip(candidate, installed)]; [None] when it runs out. *)
Fixpoint compare_zip (candidate installed : list (list Ascii.ascii)) : option Z :=
  match candidate, installed with
  | left_ :: candidate, right_ :: installed =>
      if decide (left_ = right_) then compare_zip candidate installed
      else if isdigit left_ && isdigit right_ then
        Some (if digits_value 0 right_ <? digits_value 0 left_ then 1 else -1)
      else if isdigit left_ then Some (-1)
      else if isdigit right_ then Some 1
      else Some (if chars_ltb right_ left_ then 1 else -1)
  | _, _ => None
  end.

Definition _compare_prerelease (candidate installed : option (list (list Ascii.ascii))) : Z :=
  match candidate, installed with
  | None, None => 0
  | None, Some _ => 1
  | Some _, None => -1
  | Some candidate, Some installed =>
      match compare_zip candidate installed with
      | Some result => result
      | None =>
          if (length candidate =? length installed)%nat then 0
          else if (length installed <? length candidate)%nat then 1 else -1
      end
  end.

Definition _compare_semver_parts (candidate installed : semver) : Z :=
  if bool_decide (candidate.1 = installed.1) then _compare_prerelease candidate.2 installed.2
  else if core_ltb installed.1 candidate.1 then 1 else -1.

(** ** [_ROLLBACK_REASON.fullmatch] *)

(** One test per character of the regular expression's fixed part. *)
Fixpoint match_classes (classes : list (Ascii.ascii → bool)) (l : list Ascii.ascii)
    : option (list Ascii.ascii) :=
  match classes, l with
  | [], _ => Some l
  | P :: classes, c :: l => if P c then match_classes classes l else None
  | _ :: _, [] => None
  end.

(** [[0-9a-f]] *)
Definition lower_hex (c : Ascii.ascii) : bool := is_digit c || between 97 102 c.

Definition literal (s : string) : list (Ascii.ascii → bool) :=
  map (λ d c, bool_decide (c = d)) (chars s).

Definition rollback_classes : list (Ascii.ascii → bool) :=
  literal "rollback of " ++ repeat lower_hex 8 ++ literal "-" ++ repeat lower_hex 4
  ++ literal "-" ++ [between 49 53] ++ repeat lower_hex 3
  ++ literal "-" ++ [λ c, between 56 57 c || between 97 98 c] ++ repeat lower_hex 3
  ++ literal "-" ++ repeat lower_hex 12 ++ literal "; ".

(** The rest is [.+], and a full stop does not match a line feed. *)
Definition _ROLLBACK_REASON (reason : string) : bool :=
  match match_classes rollback_classes (chars reason) with
  | Some rest => negb (bool_decide (rest = [])) && forallb (λ c, negb (code c =? 10)) rest
  | None => false
  end.

Definition _is_eligible_recommendation (candidate installed : string) (reason : option string) : bool :=
  match _parse_semver candidate, _parse_semver installed with
  | Some candidate_parts, Some installed_parts =>
      let comparison := _compare_semver_parts candidate_parts installed_parts in
      (0 <? comparison)
      || (comparison <? 0) && match reason with Some reason => _ROLLBACK_REASON reason | None => false end
  | _, _ => false
  end.
