(* ===== verification/EligibilitySpecs.v ===== *)
(** * The agent installs what the server means to install

    On every version the wire contracts accept, the agent's parser and
    comparison agree with those of the server (Semver.v), and the reason the
    server gives a rollback is one the agent recognises. *)

From S2P Require Import Prelude Store Session AuditLog Frames Semver SemverFacts Updates UpdatesFacts UpdatesSpecs.
From S2P Require Import Eligibility.

(** ** Parsing *)

Lemma ident_of_prerelease l : prerelease_identifier l = true → build_identifier l = true.
Proof.
  unfold prerelease_identifier, build_identifier. intros [H|H]%orb_true_iff; apply andb_true_iff.
  - unfold numeric_identifier, isdigit in H. propify. split; [by rewrite bool_decide_false|].
    match goal with H : forallb is_digit l = true |- _ => rewrite forallb_forall in H; rename H into Hd end.
    apply forallb_forall. intros c Hc. unfold is_ident_char. rewrite (Hd c Hc). by rewrite orb_true_r.
  - propify. split; [|done]. by destruct l.
Qed.

Lemma idents_of_prerelease l :
  forallb prerelease_identifier l = true → forallb build_identifier l = true.
Proof. rewrite !forallb_forall. intros H x Hx. by apply ident_of_prerelease, H. Qed.

(** The agent reads a version of the contracts as the server does. *)
Lemma parse_semver_parts s :
  SemanticVersionV1 s = true → _parse_semver s = _semver_parts s.
Proof.
  unfold SemanticVersionV1, semver_pattern, _parse_semver, _SEMVER, _semver_parts. intros H. propify.
  destruct (partition plus (chars s)) as [without_build build]; simpl.
  destruct (partition hyphen without_build) as [core pre]. propify.
  destruct (split dot core) as [|a [|b [|c [|d core']]]]; simpl in *; try done. propify.
  repeat match goal with H : numeric_identifier _ = true |- _ => rewrite (numeric_int _ H), H; clear H end.
  simpl. assert (opt_all dotted_identifiers pre = true) as ->.
  { destruct pre; [|done]. by apply idents_of_prerelease. }
  assert (opt_all dotted_identifiers build = true) as -> by by destruct build.
  done.
Qed.

(** ** Comparing *)

Lemma compare_zip_prerelease l r :
  Forall prerelease_ok l → Forall prerelease_ok r →
  _compare_prerelease (Some l) (Some r) = compare_prerelease l r.
Proof.
  destruct chars_ltb_strict as [Hirr Htr Htot]. unfold _compare_prerelease.
  revert r. induction l as [|x l IH]; intros [|y r] Hl Hr; try done.
  apply Forall_cons in Hl as [Hx Hl], Hr as [Hy Hr]. simpl.
  destruct (decide (x = y)) as [->|Hne].
  { rewrite <- (IH r) by done. destruct (compare_zip l r); [done|]. simpl. done. }
  destruct (isdigit x) eqn:Ex, (isdigit y) eqn:Ey; simpl; try done.
  - assert (digits_value 0 x ≠ digits_value 0 y)
      by (intros E; by apply Hne, numeric_value_inj; [apply prerelease_numeric..|]).
    destruct (Z.ltb_spec (digits_value 0 y) (digits_value 0 x)),
      (Z.ltb_spec (digits_value 0 x) (digits_value 0 y)); (done || lia).
  - destruct (chars_ltb y x) eqn:E1, (chars_ltb x y) eqn:E2; try done.
    + pose proof (Htr x y x I I I E2 E1). by rewrite Hirr in *.
    + destruct (Htot x y I I Hne); congruence.
Qed.

Lemma compare_parts_agree a b :
  semver_ok a → semver_ok b → _compare_semver_parts a b = compare_parts a b.
Proof.
  destruct core_ltb_strict as [Hirr Htr Htot]. destruct a as [ac ap], b as [bc bp].
  unfold semver_ok, _compare_semver_parts, compare_parts. simpl. intros Ha Hb.
  case_bool_decide as E; simpl.
  - destruct ap, bp; simpl in *; try done. by apply compare_zip_prerelease.
  - destruct (core_ltb bc ac) eqn:E1, (core_ltb ac bc) eqn:E2; try done.
    + pose proof (Htr ac bc ac I I I E2 E1). by rewrite Hirr in *.
    + destruct (Htot ac bc I I E); congruence.
Qed.

Lemma eligible_order candidate installed reason :
  SemanticVersionV1 candidate = true → SemanticVersionV1 installed = true →
  ∃ order, _compare_semver candidate installed = Some order
    ∧ (_is_eligible_recommendation candidate installed reason = true
       ↔ 0 < order ∨ order < 0 ∧ ∃ text, reason = Some text ∧ _ROLLBACK_REASON text = true).
Proof.
  intros Hc Hi. unfold _is_eligible_recommendation, _compare_semver.
  rewrite !parse_semver_parts by done.
  apply accepted_parts in Hc as (a & -> & Ha), Hi as (b & -> & Hb). simpl.
  exists (compare_parts a b). split; [done|]. rewrite compare_parts_agree by done.
  rewrite orb_true_iff, andb_true_iff, !Z.ltb_lt.
  destruct reason as [text|]; split; intros [H|[H ?]]; auto; try naive_solver.
Qed.

(** On versions the contracts accept, the agent's offline decision is the
    server's version order: it installs exactly what the server's comparison calls
    newer, and something older only with a reason of the server's rollback form. *)
Theorem agent_agrees_with_the_server candidate installed reason :
  SemanticVersionV1 candidate = true → SemanticVersionV1 installed = true →
  ∃ order, _compare_semver candidate installed = Some order
    ∧ (_is_eligible_recommendation candidate installed reason = true
       ↔ 0 < order ∨ order < 0 ∧ ∃ text, reason = Some text ∧ _ROLLBACK_REASON text = true).
Proof. apply eligible_order. Qed.

Lemma agent_agrees_with_the_server_witness :
  ∃ order, _compare_semver "1.2.0-rc.10" "1.2.0-rc.9" = Some order
    ∧ (_is_eligible_recommendation "1.2.0-rc.10" "1.2.0-rc.9" None = true
       ↔ 0 < order ∨ order < 0 ∧ ∃ text, (None : option string) = Some text ∧ _ROLLBACK_REASON text = true).
Proof. apply agent_agrees_with_the_server; vm_compute; reflexivity. Defined.

(** ** Rollbacks of the server *)

(** The version and variant digits of a random UUID (RFC 4122). *)
Definition is_uuid4 (u : uuid) : Prop := (u / 16 ^ 19) mod 16 = 4 ∧ 8 <= (u / 16 ^ 15) mod 16 < 12.

Lemma match_classes_app P Q l k :
  match_classes P l = Some [] → match_classes (P ++ Q) (l ++ k) = match_classes Q k.
Proof.
  revert l. induction P as [|p P IH]; intros [|c l]; simpl; try done.
  destruct (p c); [apply IH|done].
Qed.

Lemma match_literal s : match_classes (literal s) (chars s) = Some [].
Proof.
  unfold literal. induction (chars s) as [|c l IH]; simpl; [done|]. by rewrite bool_decide_true.
Qed.

Lemma hex_digit_lower d : 0 <= d < 16 → lower_hex (hex_digit d) = true.
Proof.
  intros Hd. assert (d = 0 ∨ d = 1 ∨ d = 2 ∨ d = 3 ∨ d = 4 ∨ d = 5 ∨ d = 6 ∨ d = 7 ∨ d = 8 ∨ d = 9
    ∨ d = 10 ∨ d = 11 ∨ d = 12 ∨ d = 13 ∨ d = 14 ∨ d = 15) as Hcases by lia.
  repeat destruct Hcases as [->|Hcases]; [reflexivity..|]. by subst.
Qed.

Lemma match_hex u (l : list nat) :
  match_classes (repeat lower_hex (length l)) (map (λ i : nat, hex_digit ((u / 16 ^ Z.of_nat i) mod 16)) l)
  = Some [].
Proof.
  induction l as [|i l IH]; simpl; [done|].
  rewrite hex_digit_lower by (apply Z.mod_pos_bound; lia). exact IH.
Qed.

Lemma match_one (P : Ascii.ascii → bool) c : P c = true → match_classes [P] [c] = Some [].
Proof. intros H. simpl. by rewrite H. Qed.

(** The reason the server gives a rollback is the one the agent looks for. *)
Lemma rollback_reason_matches tid reason :
  is_uuid4 tid → chars reason ≠ [] → forallb (λ c, negb (code c =? 10)) (chars reason) = true →
  _ROLLBACK_REASON ("rollback of " +:+ uuid_str tid +:+ "; " +:+ reason) = true.
Proof.
  intros [Hv Hr] Hne Hlf. unfold _ROLLBACK_REASON.
  assert (match_classes rollback_classes (chars ("rollback of " +:+ uuid_str tid +:+ "; " +:+ reason))
          = Some (chars reason)) as ->; [|by rewrite bool_decide_false, Hlf].
  rewrite !chars_app, uuid_str_chars. unfold rollback_classes. rewrite <- !app_assoc.
  rewrite !(match_classes_app (literal _)) by apply match_literal.
  rewrite (match_classes_app (repeat lower_hex 8)) by apply (match_hex tid [31; 30; 29; 28; 27; 26; 25; 24]%nat).
  rewrite (match_classes_app (literal _)) by apply match_literal.
  rewrite (match_classes_app (repeat lower_hex 4)) by apply (match_hex tid [23; 22; 21; 20]%nat).
  rewrite (match_classes_app (literal _)) by apply match_literal.
  rewrite (match_classes_app [between 49 53]) by (apply match_one; change (Z.of_nat 19) with 19; rewrite Hv; reflexivity).
  rewrite (match_classes_app (repeat lower_hex 3)) by apply (match_hex tid [18; 17; 16]%nat).
  rewrite (match_classes_app (literal _)) by apply match_literal.
  rewrite (match_classes_app [_]).
  2: { apply match_one. change (Z.of_nat 15) with 15.
       assert (tid / 16 ^ 15 mod 16 = 8 ∨ tid / 16 ^ 15 mod 16 = 9 ∨ tid / 16 ^ 15 mod 16 = 10
               ∨ tid / 16 ^ 15 mod 16 = 11) as [->|[->|[->| ->]]] by lia; reflexivity. }
  rewrite (match_classes_app (repeat lower_hex 3)) by apply (match_hex tid [14; 13; 12]%nat).
  rewrite (match_classes_app (literal _)) by apply match_literal.
  rewrite (match_classes_app (repeat lower_hex 12)) by apply (match_hex tid [11; 10; 9; 8; 7; 6; 5; 4; 3; 2; 1; 0]%nat).
  rewrite <- (app_nil_r (literal "; ")). rewrite (match_classes_app (literal _)) by apply match_literal.
  by destruct (chars reason).
Qed.

(** Prose the server accepts is not empty and has no line feed. *)
Lemma prose_one_line reason :
  validate_public_update_prose (Some reason) 512 true false = Some (Some reason) →
  chars reason ≠ [] ∧ forallb (λ c, negb (code c =? 10)) (chars reason) = true.
Proof.
  unfold validate_public_update_prose. case_match eqn:E; [|done]. intros _. propify.
  split; [by destruct (chars reason)|]. apply forallb_forall. intros c Hc.
  match goal with H : forallb _ (chars reason) = true |- _ =>
    rewrite forallb_forall in H; specialize (H c Hc); rename H into Ha end.
  rewrite orb_false_r in Ha. destruct (Z.eqb_spec (code c) 10) as [E10|]; [|done]. exfalso.
  assert (c = Ascii.ascii_of_nat 10) as -> by (by apply code_inj). done.
Qed.

Section rollbacks.
Context `{UpdateContracts}.

(** A rollback the server creates is one the agents install: whatever the
    administrator's reason is, the version the rollout assigns, on a device that
    runs the version being rolled back, passes the agent's offline check with the
    reason the server stored, although it is older. *)
Theorem server_rollbacks_are_installed tid bid ids reason actor req now w :
  is_uuid4 tid → inv (stored w) →
  (∀ id b, update_builds (committed w) !! id = Some b → SemanticVersionV1 (bld_version b) = true) →
  wp (request (create_rollback_rollout tid bid ids reason actor req now)) (λ r w',
    match r with
    | Ok id => ∃ trigger old new row,
        update_rollouts (committed w) !! tid = Some trigger
        ∧ update_builds (committed w) !! ro_build_id trigger = Some new
        ∧ update_builds (committed w) !! bid = Some old
        ∧ update_rollouts (committed w') !! id = Some row ∧ ro_build_id row = bid
        ∧ _is_eligible_recommendation (bld_version old) (bld_version new) (ro_reason row) = true
        ∧ _is_eligible_recommendation (bld_version old) (bld_version new) None = false
    | Exn _ => True
    end) w.
Proof.
  intros Htid Hinv Hb. eapply wp_mono; [apply create_rollback_spec|]. intros [id|e] w' Hr; [|done].
  destruct Hr as (trigger & old & new & c & Ht & _ & Hnew & Hold & _ & _ & Hc & Hneg & _ & _ & _ & Hp & Hro).
  destruct Hro as (_ & _ & Hro). destruct (Hro Hinv) as (row & Hrow & Hbid & _ & _ & Hreason & _).
  exists trigger, old, new, row. split_and!; [done..| |].
  - destruct (eligible_order (bld_version old) (bld_version new) (ro_reason row)) as (c' & Ec & Hel); [by eauto..|].
    apply Hel. right. split; [congruence|]. rewrite Hreason. eexists. split; [done|].
    apply prose_one_line in Hp as [Hne Hlf]. by apply rollback_reason_matches.
  - destruct (eligible_order (bld_version old) (bld_version new) None) as (c' & Ec & Hel); [by eauto..|].
    apply not_true_iff_false. intros [Hpos|(_ & x & [=] & _)]%Hel. assert (c' = c) as -> by congruence. lia.
Qed.
End rollbacks.

(** A run: a canary to 1.2.0 on one device is applied, then rolled back to 1.1.0. *)
Section rollback_demo.
#[local] Existing Instance demo_contracts.
#[local] Existing Instance demo_cancellations.

Definition rollout_uuid : uuid := 4 * 16 ^ 19 + 8 * 16 ^ 15 + 100.

Definition older_build : UpdateBuild := demo_build <| bld_build_identifier := "build-0" |>
  <| bld_version := "1.1.0" |>.

Definition two_builds : World := demo_world
  <| committed := committed demo_world <| update_builds := {[ 10 := demo_build; 9 := older_build ]} |> |>
  <| seed := rollout_uuid |>.

Definition applied (w : World) : World :=
  let operation := rollout_uuid + 5 in
  let w := (request (create_rollout 10 "canary" [1] None "admin" "req-1" None) w).2 in
  let w := (request (record_ack 1 operation t_requested "req-2" None (revalidation None)) w).2 in
  let w := (request (record_ack 1 operation t_scheduled "req-2" None (revalidation None)) w).2 in
  (request (record_report 1 operation demo_report "req-3" None (revalidation None)) w).2.

Lemma applied_inv : inv (stored (applied two_builds)).
Proof.
  assert (rtc update_step two_builds (applied two_builds)) as Hsteps.
  { eapply rtc_l; [apply (step_create _ 10 "canary" [1] None "admin" "req-1" None)|].
    eapply rtc_l; [apply (step_ack _ 1 (rollout_uuid + 5) t_requested "req-2" None None)|].
    eapply rtc_l; [apply (step_ack _ 1 (rollout_uuid + 5) t_scheduled "req-2" None None)|].
    eapply rtc_l; [apply (step_report _ 1 (rollout_uuid + 5) demo_report "req-3" None None)|]. apply rtc_refl. }
  apply (update_steps_sound _ _ Hsteps).
  split_and!; [intros id v Hid|intros id v Hid|intros i j ti tj Hid|intros i t ro Hid];
    by destruct (lookup_empty_Some (M:=gmap uuid) _ _ Hid).
Qed.

Lemma applied_builds id b :
  update_builds (committed (applied two_builds)) !! id = Some b → SemanticVersionV1 (bld_version b) = true.
Proof.
  assert (update_builds (committed (applied two_builds)) = {[ 10 := demo_build; 9 := older_build ]}) as ->
    by (vm_compute; reflexivity).
  intros [[<- <-]|[_ [<- <-]%lookup_singleton_Some]]%lookup_insert_Some; vm_compute; reflexivity.
Qed.

Definition roll_back : M World uuid :=
  request (create_rollback_rollout rollout_uuid 9 [1] "crash on start" "admin" "req-4" None).

Lemma server_rollbacks_are_installed_witness :
  (match (roll_back (applied two_builds)).1 with Ok id => Some id | _ => None end)
    = Some (rollout_uuid + 13)
  ∧ wp roll_back (λ r w',
    match r with
    | Ok id => ∃ trigger old new row,
        update_rollouts (committed (applied two_builds)) !! rollout_uuid = Some trigger
        ∧ update_builds (committed (applied two_builds)) !! ro_build_id trigger = Some new
        ∧ update_builds (committed (applied two_builds)) !! 9 = Some old
        ∧ update_rollouts (committed w') !! id = Some row ∧ ro_build_id row = 9
        ∧ _is_eligible_recommendation (bld_version old) (bld_version new) (ro_reason row) = true
        ∧ _is_eligible_recommendation (bld_version old) (bld_version new) None = false
    | Exn _ => True
    end) (applied two_builds).
Proof.
  split; [vm_compute; reflexivity|]. apply server_rollbacks_are_installed.
  - split; [vm_compute; reflexivity|]. vm_compute. by split.
  - exact applied_inv.
  - exact applied_builds.
Defined.
End rollback_demo.
