(* ===== verification/Calendar.v ===== *)
(** * ISO 8601 text of datetimes

    [datetime.isoformat()] and [datetime.fromisoformat()] of Python's standard
    library, on the proleptic Gregorian calendar, and why comparing such texts
    compares moments, which the queues of the agent rely on. *)

From S2P Require Import Prelude Store AuditLog Contracts Semver SemverFacts.

(** ** Civil dates *)

Definition is_leap (y : Z) : bool := (y mod 4 =? 0) && (negb (y mod 100 =? 0) || (y mod 400 =? 0)).

(** The days before the first day of a year, counted from 0001-01-01. *)
Definition days_before_year (y : Z) : Z := (y - 1) * 365 + (y - 1) / 4 - (y - 1) / 100 + (y - 1) / 400.

Definition month_lengths (leap : bool) : list Z :=
  [31; if leap then 29 else 28; 31; 30; 31; 30; 31; 31; 30; 31; 30; 31].

(** The month and day of the [r]-th day from the first of month [m] on. *)
Fixpoint month_day (lengths : list Z) (m r : Z) : Z * Z :=
  match lengths with
  | [] => (m, r + 1)
  | n :: lengths => if r <? n then (m, r + 1) else month_day lengths (m + 1) (r - n)
  end.

(** 1970-01-01 is day 719162. *)
Definition epoch_ordinal : Z := 719162.

(** The year, month and day of a day number, counted from 1970-01-01: cycles of
    400, 100, 4 and 1 years. *)
Definition civil (days : Z) : Z * Z * Z :=
  let n := days + epoch_ordinal in
  let n400 := n / 146097 in let n := n mod 146097 in
  let n100 := n / 36524 in let n := n mod 36524 in
  let n4 := n / 1461 in let n := n mod 1461 in
  let n1 := n / 365 in let n := n mod 365 in
  let y := 400 * n400 + 100 * n100 + 4 * n4 + n1 + 1 in
  if (n1 =? 4) || (n100 =? 4) then (y - 1, 12, 31)
  else let '(m, d) := month_day (month_lengths (is_leap y)) 1 n in (y, m, d).

(** The day number of a date. *)
Definition days_before_month (leap : bool) (m : Z) : Z :=
  foldr Z.add 0 (firstn (Z.to_nat (m - 1)) (month_lengths leap)).
Definition day_of (y m d : Z) : Z :=
  days_before_year y + days_before_month (is_leap y) m + (d - 1) - epoch_ordinal.

Definition valid_date (y m d : Z) : Prop :=
  1 <= m <= 12 ∧ 1 <= d <= List.nth (Z.to_nat (m - 1)) (month_lengths (is_leap y)) 0.

Example epoch : civil 0 = (1970, 1, 1). Proof. reflexivity. Qed.
Example leap_day : civil 19782 = (2024, 2, 29) ∧ day_of 2024 2 29 = 19782. Proof. by split. Qed.

(** ** Text *)

(** [f"{n:0{w}d}"] of a number with at most [w] digits *)
Fixpoint padded (w : nat) (n : Z) : list Ascii.ascii :=
  match w with
  | O => []
  | S w => padded w (n / 10) ++ [Ascii.ascii_of_nat (Z.to_nat (48 + n mod 10))]
  end.

Definition date_text (days : Z) : list Ascii.ascii :=
  let '(y, m, d) := civil days in
  padded 4 y ++ chars "-" ++ padded 2 m ++ chars "-" ++ padded 2 d.

(** Microseconds, when there are any. *)
Definition fraction_text (us : Z) : list Ascii.ascii :=
  if us =? 0 then [] else chars "." ++ padded 6 us.

(** A time of the day in microseconds. *)
Definition time_text (us : Z) : list Ascii.ascii :=
  let seconds := us / 1000000 in
  padded 2 (seconds / 3600) ++ chars ":" ++ padded 2 (seconds / 60 mod 60) ++ chars ":"
  ++ padded 2 (seconds mod 60) ++ fraction_text (us mod 1000000).

(** [+HH:MM[:SS[.ffffff]]] *)
Definition offset_text (offset : Z) : list Ascii.ascii :=
  let a := Z.abs offset in
  let seconds := a / 1000000 in
  chars (if offset <? 0 then "-" else "+") ++ padded 2 (seconds / 3600) ++ chars ":" ++ padded 2 (seconds / 60 mod 60)
  ++ (if (seconds mod 60 =? 0) && (a mod 1000000 =? 0) then []
      else chars ":" ++ padded 2 (seconds mod 60) ++ fraction_text (a mod 1000000)).

Definition us_per_day : Z := 86400000000.

Definition iso_chars (d : datetime) : list Ascii.ascii :=
  date_text (dt_wall d / us_per_day) ++ chars "T" ++ time_text (dt_wall d mod us_per_day)
  ++ match dt_offset d with Some o => offset_text o | None => [] end.

Definition isoformat (d : datetime) : string := text (iso_chars d).

(** The moments [datetime] represents: the years 1 to 9999. *)
Definition min_wall : Z := day_of 1 1 1 * us_per_day.
Definition max_wall : Z := day_of 10000 1 1 * us_per_day - 1.
Definition representable (d : datetime) : bool :=
  (min_wall <=? dt_wall d) && (dt_wall d <=? max_wall)
  && match dt_offset d with Some o => Z.abs o <? us_per_day | None => true end.

Example iso_examples :
  isoformat (utc_datetime 0) = "1970-01-01T00:00:00+00:00"
  ∧ isoformat (Datetime 1704067199000001 (Some (- minutes 90))) = "2023-12-31T23:59:59.000001-01:30"
  ∧ isoformat (Datetime (-1) None) = "1969-12-31T23:59:59.999999".
Proof. split_and!; vm_compute; reflexivity. Qed.

(** ** Dates and day numbers *)

Lemma next_year y : days_before_year (y + 1) = days_before_year y + (if is_leap y then 366 else 365).
Proof.
  unfold days_before_year, is_leap. replace (y + 1 - 1) with y by lia.
  pose proof (Z.div_mod y 4). pose proof (Z.mod_pos_bound y 4).
  pose proof (Z.div_mod y 100). pose proof (Z.mod_pos_bound y 100).
  pose proof (Z.div_mod y 400). pose proof (Z.mod_pos_bound y 400).
  pose proof (Z.div_mod (y - 1) 4). pose proof (Z.mod_pos_bound (y - 1) 4).
  pose proof (Z.div_mod (y - 1) 100). pose proof (Z.mod_pos_bound (y - 1) 100).
  pose proof (Z.div_mod (y - 1) 400). pose proof (Z.mod_pos_bound (y - 1) 400).
  destruct (y mod 4 =? 0) eqn:E1, (y mod 100 =? 0) eqn:E2, (y mod 400 =? 0) eqn:E3; simpl; propify; lia.
Qed.

Lemma years_apart y k : days_before_year y + Z.of_nat k <= days_before_year (y + Z.of_nat k).
Proof.
  induction k as [|k IH]; [by rewrite !Z.add_0_r|].
  replace (y + Z.of_nat (S k)) with (y + Z.of_nat k + 1) by lia. rewrite next_year.
  destruct (is_leap _); lia.
Qed.

Lemma earlier_year y y' : y < y' → days_before_year (y + 1) <= days_before_year y'.
Proof.
  intros H. replace y' with (y + 1 + Z.of_nat (Z.to_nat (y' - y - 1))) by lia.
  pose proof (years_apart (y + 1) (Z.to_nat (y' - y - 1))). lia.
Qed.

(** A month is one of twelve. *)
Ltac months m :=
  let H := fresh in
  assert (m = 1 ∨ m = 2 ∨ m = 3 ∨ m = 4 ∨ m = 5 ∨ m = 6 ∨ m = 7 ∨ m = 8 ∨ m = 9 ∨ m = 10 ∨ m = 11 ∨ m = 12)
    as H by lia;
  repeat destruct H as [H|H]; subst m.

(** Evaluate the tables at a known month. *)
Ltac read_tables :=
  unfold days_before_month in *;
  repeat match goal with
  | |- context [Z.to_nat (?a - 1)] =>
      let k := eval vm_compute in (Z.to_nat (a - 1)) in change (Z.to_nat (a - 1)) with k
  | H : context [Z.to_nat (?a - 1)] |- _ =>
      let k := eval vm_compute in (Z.to_nat (a - 1)) in change (Z.to_nat (a - 1)) with k in H
  end;
  cbn [List.nth firstn month_lengths foldr] in *.

(** The day of the year of a date is below the length of the year, and the days
    of an earlier month come earlier. *)
Lemma day_of_year_bound y m d :
  valid_date y m d → 0 <= days_before_month (is_leap y) m + (d - 1) < (if is_leap y then 366 else 365).
Proof. intros [Hm Hd]. months m; destruct (is_leap y); read_tables; lia. Qed.

Lemma earlier_month y m m' d :
  valid_date y m d → m < m' <= 12 → days_before_month (is_leap y) m + (d - 1) < days_before_month (is_leap y) m'.
Proof. intros [Hm Hd] Hm'. months m; months m'; destruct (is_leap y); read_tables; lia. Qed.

Definition date_compare (a b : Z * Z * Z) : comparison :=
  match a.1.1 ?= b.1.1 with
  | Eq => match a.1.2 ?= b.1.2 with Eq => a.2 ?= b.2 | c => c end
  | c => c
  end.

(** Earlier dates have smaller day numbers. *)
Lemma day_of_lt y m d y' m' d' :
  valid_date y m d → valid_date y' m' d' → date_compare (y, m, d) (y', m', d') = Lt →
  day_of y m d < day_of y' m' d'.
Proof.
  intros Hv Hv'. unfold date_compare, day_of. simpl.
  pose proof (day_of_year_bound _ _ _ Hv). pose proof (day_of_year_bound _ _ _ Hv').
  destruct (Z.compare_spec y y') as [<-|Hy|Hy]; [|intros _|done].
  - destruct (Z.compare_spec m m') as [<-|Hm|Hm]; [|intros _|done].
    + rewrite Z.compare_lt_iff. lia.
    + pose proof (earlier_month _ _ m' _ Hv). destruct Hv'. lia.
  - pose proof (earlier_year _ _ Hy). rewrite next_year in *. destruct (is_leap y); lia.
Qed.

Lemma date_compare_antisym a b : date_compare b a = CompOpp (date_compare a b).
Proof.
  unfold date_compare. rewrite (Z.compare_antisym a.1.1), (Z.compare_antisym a.1.2), (Z.compare_antisym a.2).
  by destruct (a.1.1 ?= b.1.1), (a.1.2 ?= b.1.2), (a.2 ?= b.2).
Qed.

Lemma date_compare_eq a b : date_compare a b = Eq → a = b.
Proof.
  unfold date_compare. destruct a as [[y m] d], b as [[y' m'] d']. simpl.
  destruct (Z.compare_spec y y') as [->|?|?], (Z.compare_spec m m') as [->|?|?], (Z.compare_spec d d') as [->|?|?];
    by intros.
Qed.

Lemma day_of_compare a b :
  valid_date a.1.1 a.1.2 a.2 → valid_date b.1.1 b.1.2 b.2 →
  (day_of a.1.1 a.1.2 a.2 ?= day_of b.1.1 b.1.2 b.2) = date_compare a b.
Proof.
  destruct a as [[y m] d], b as [[y' m'] d']. simpl. intros Ha Hb.
  destruct (date_compare (y, m, d) (y', m', d')) eqn:E.
  - apply date_compare_eq in E. injection E as -> -> ->. apply Z.compare_refl.
  - by apply Z.compare_lt_iff, day_of_lt.
  - apply Z.compare_gt_iff, day_of_lt; [done..|]. by rewrite date_compare_antisym, E.
Qed.

Lemma month_day_date (leap : bool) (r : Z) :
  0 <= r < (if leap then 366 else 365) →
  let '(m, d) := month_day (month_lengths leap) 1 r in
  1 <= m <= 12 ∧ 1 <= d <= List.nth (Z.to_nat (m - 1)) (month_lengths leap) 0
  ∧ days_before_month leap m + (d - 1) = r.
Proof.
  intros Hr. unfold month_lengths. cbn [month_day].
  repeat match goal with |- context [?a <? ?b] => destruct (Z.ltb_spec a b) end;
    destruct leap; read_tables; lia.
Qed.

(** The first day of a year of the cycles. *)
Lemma year_start a b c e :
  0 <= b <= 3 → 0 <= c <= 24 → 0 <= e <= 3 →
  days_before_year (400 * a + 100 * b + 4 * c + e + 1) = 146097 * a + 36524 * b + 1461 * c + 365 * e.
Proof.
  intros Hb Hc He. unfold days_before_year. set (Y := 400 * a + 100 * b + 4 * c + e).
  replace (Y + 1 - 1) with Y by lia.
  assert (Y / 4 = 100 * a + 25 * b + c) as -> by (symmetry; apply (Z.div_unique _ _ _ e); subst Y; lia).
  assert (Y / 100 = 4 * a + b) as -> by (symmetry; apply (Z.div_unique _ _ _ (4 * c + e)); subst Y; lia).
  assert (Y / 400 = a) as -> by (symmetry; apply (Z.div_unique _ _ _ (100 * b + 4 * c + e)); subst Y; lia).
  subst Y. lia.
Qed.

(** The last year of a cycle of four is a leap year, unless it ends a century
    that is not the last of its cycle. *)
Lemma cycle_leap a b c :
  0 <= b <= 3 → 0 <= c <= 24 → c <= 23 ∨ b = 3 → is_leap (400 * a + 100 * b + 4 * c + 3 + 1) = true.
Proof.
  intros Hb Hc H. unfold is_leap. set (Y := 400 * a + 100 * b + 4 * c + 3 + 1).
  assert (Y mod 4 = 0) as ->.
  { symmetry. apply (Z.mod_unique _ _ (100 * a + 25 * b + c + 1)); subst Y; lia. }
  destruct (decide (c <= 23)) as [Hc'|Hc'].
  - assert (Y mod 100 = 4 * c + 4) as ->.
    { symmetry. apply (Z.mod_unique _ _ (4 * a + b)); subst Y; lia. }
    simpl. destruct (Z.eqb_spec (4 * c + 4) 0); [lia|done].
  - assert (Y mod 400 = 0) as ->; [|by rewrite orb_true_r].
    symmetry. apply (Z.mod_unique _ _ (a + 1)); subst Y; lia.
Qed.

Definition proper_date (n : Z) (date : Z * Z * Z) : Prop :=
  valid_date date.1.1 date.1.2 date.2 ∧ day_of date.1.1 date.1.2 date.2 = n.

Lemma last_of_december n a b c :
  0 <= b <= 3 → 0 <= c <= 24 → c <= 23 ∨ b = 3 →
  n + epoch_ordinal = 146097 * a + 36524 * b + 1461 * c + 1460 →
  proper_date n (400 * a + 100 * b + 4 * c + 3 + 1, 12, 31).
Proof.
  intros Hb Hc H Hn. split; simpl; [split; [lia|by destruct (is_leap _); read_tables]|].
  unfold day_of. rewrite year_start, cycle_leap by lia. read_tables. lia.
Qed.

Lemma civil_proper n : proper_date n (civil n).
Proof.
  unfold civil. cbv zeta.
  pose proof (Z.div_mod (n + epoch_ordinal) 146097) as D1.
  pose proof (Z.mod_pos_bound (n + epoch_ordinal) 146097) as B1.
  set (a := (n + epoch_ordinal) / 146097) in *. set (r400 := (n + epoch_ordinal) mod 146097) in *.
  pose proof (Z.div_mod r400 36524) as D2. pose proof (Z.mod_pos_bound r400 36524) as B2.
  set (b := r400 / 36524) in *. set (r100 := r400 mod 36524) in *.
  pose proof (Z.div_mod r100 1461) as D3. pose proof (Z.mod_pos_bound r100 1461) as B3.
  set (c := r100 / 1461) in *. set (r4 := r100 mod 1461) in *.
  pose proof (Z.div_mod r4 365) as D4. pose proof (Z.mod_pos_bound r4 365) as B4.
  set (e := r4 / 365) in *. set (r := r4 mod 365) in *. clearbody a r400 b r100 c r4 e r.
  assert (0 <= b <= 4 ∧ 0 <= c <= 24 ∧ 0 <= e <= 4) as (Hb & Hc & He) by lia.
  destruct ((e =? 4) || (b =? 4)) eqn:E.
  - destruct (Z.eqb_spec b 4) as [->|Hb4].
    + assert (c = 0 ∧ e = 0 ∧ r = 0) as (-> & -> & ->) by lia.
      replace (400 * a + 100 * 4 + 4 * 0 + 0 + 1 - 1) with (400 * a + 100 * 3 + 4 * 24 + 3 + 1) by lia.
      apply last_of_december; lia.
    + rewrite orb_false_r in E. propify. subst e.
      replace (400 * a + 100 * b + 4 * c + 4 + 1 - 1) with (400 * a + 100 * b + 4 * c + 3 + 1) by lia.
      apply last_of_december; lia.
  - propify. pose proof (month_day_date (is_leap (400 * a + 100 * b + 4 * c + e + 1)) r) as Hmd.
    destruct (month_day _ 1 r) as [m d]. destruct Hmd as (Hm & Hd & Hr); [destruct (is_leap _); lia|].
    split; simpl; [by split|]. unfold day_of. rewrite year_start by lia. lia.
Qed.

(** The dates of two days compare as the days. *)
Lemma civil_compare n n' : date_compare (civil n) (civil n') = (n ?= n').
Proof.
  destruct (civil_proper n) as [Hv E], (civil_proper n') as [Hv' E'].
  rewrite <-E, <-E' at 2. symmetry. by apply day_of_compare.
Qed.

(** ** The order of texts *)

Definition lex (c d : comparison) : comparison := match c with Eq => d | c => c end.

Fixpoint text_compare (a b : list Ascii.ascii) : comparison :=
  match a, b with
  | [], [] => Eq
  | [], _ => Lt
  | _, [] => Gt
  | x :: a, y :: b => lex (code x ?= code y) (text_compare a b)
  end.

Lemma string_compare a b : String.compare a b = text_compare (chars a) (chars b).
Proof.
  revert b. induction a as [|x a IH]; intros [|y b]; simpl; try done.
  unfold Ascii.compare, code. rewrite N2Z.inj_compare, IH. by destruct (N.compare _ _).
Qed.

Lemma text_compare_same x a b : text_compare (x ++ a) (x ++ b) = text_compare a b.
Proof. induction x as [|c x IH]; simpl; [done|]. by rewrite Z.compare_refl. Qed.

Lemma text_compare_app x y a b :
  length x = length y → text_compare (x ++ a) (y ++ b) = lex (text_compare x y) (text_compare a b).
Proof.
  revert y. induction x as [|c x IH]; intros [|d y] H; simpl in *; try done.
  rewrite IH by lia. by destruct (_ ?= _).
Qed.

Lemma padded_length w n : length (padded w n) = w.
Proof. revert n. induction w as [|w IH]; intros n; simpl; [done|]. rewrite length_app, IH. simpl. lia. Qed.

Lemma lex_divide a b k : 0 < k → lex (a / k ?= b / k) (a mod k ?= b mod k) = (a ?= b).
Proof.
  intros Hk. pose proof (Z.div_mod a k). pose proof (Z.div_mod b k).
  pose proof (Z.mod_pos_bound a k). pose proof (Z.mod_pos_bound b k).
  destruct (Z.compare_spec (a / k) (b / k)) as [E|E|E]; simpl.
  - rewrite E in *. destruct (Z.compare_spec (a mod k) (b mod k)); symmetry;
      [apply Z.compare_eq_iff|apply Z.compare_lt_iff|apply Z.compare_gt_iff]; lia.
  - symmetry. apply Z.compare_lt_iff. nia.
  - symmetry. apply Z.compare_gt_iff. nia.
Qed.

Lemma digit_code n : code (Ascii.ascii_of_nat (Z.to_nat (48 + n mod 10))) = 48 + n mod 10.
Proof.
  pose proof (Z.mod_pos_bound n 10). unfold code, Ascii.ascii_of_nat. rewrite Ascii.N_ascii_embedding; lia.
Qed.

Lemma padded_compare w n m :
  0 <= n < 10 ^ Z.of_nat w → 0 <= m < 10 ^ Z.of_nat w → text_compare (padded w n) (padded w m) = (n ?= m).
Proof.
  revert n m. induction w as [|w IH]; intros n m Hn Hm.
  { change (10 ^ Z.of_nat 0) with 1 in *. replace n with 0 by lia. by replace m with 0 by lia. }
  rewrite Nat2Z.inj_succ, Z.pow_succ_r in Hn, Hm by lia. cbn [padded].
  rewrite text_compare_app by by rewrite !padded_length.
  rewrite IH by (split; [apply Z.div_pos|apply Z.div_lt_upper_bound]; lia). cbn [text_compare].
  rewrite !digit_code. rewrite <-(lex_divide n m 10) by lia. f_equal.
  replace (48 + n mod 10 ?= 48 + m mod 10) with (n mod 10 ?= m mod 10) by (by rewrite Zcompare_plus_compat).
  by destruct (_ ?= _).
Qed.

(** One field of a text, and the separator after it. *)
Lemma field_compare w n m sep a b :
  0 <= n < 10 ^ Z.of_nat w → 0 <= m < 10 ^ Z.of_nat w →
  text_compare (padded w n ++ sep ++ a) (padded w m ++ sep ++ b) = lex (n ?= m) (text_compare a b).
Proof.
  intros Hn Hm. rewrite text_compare_app by by rewrite !padded_length.
  by rewrite padded_compare, text_compare_same.
Qed.

Lemma lex_assoc a b c : lex (lex a b) c = lex a (lex b c).
Proof. by destruct a. Qed.

(** What follows the seconds of a text in UTC. *)
Lemma fraction_compare n m :
  0 <= n < 1000000 → 0 <= m < 1000000 →
  text_compare (fraction_text n ++ offset_text 0) (fraction_text m ++ offset_text 0) = (n ?= m).
Proof.
  intros Hn Hm. unfold fraction_text. destruct (Z.eqb_spec n 0) as [->|Hn0], (Z.eqb_spec m 0) as [->|Hm0].
  - reflexivity.
  - assert (0 ?= m = Lt) as -> by (apply Z.compare_lt_iff; lia). reflexivity.
  - assert (n ?= 0 = Gt) as -> by (apply Z.compare_gt_iff; lia). reflexivity.
  - rewrite <-!app_assoc, text_compare_same, text_compare_app, padded_compare by (rewrite ?padded_length; done).
    simpl. by destruct (n ?= m).
Qed.

Lemma time_compare n m :
  0 <= n < us_per_day → 0 <= m < us_per_day →
  text_compare (time_text n ++ offset_text 0) (time_text m ++ offset_text 0) = (n ?= m).
Proof.
  unfold us_per_day. intros Hn Hm. unfold time_text. cbv zeta. rewrite <-!app_assoc.
  assert (∀ x, 0 <= x < 86400000000 → 0 <= x / 1000000 < 86400) as Hs.
  { intros x Hx. split; [apply Z.div_pos|apply Z.div_lt_upper_bound]; lia. }
  pose proof (Hs n Hn) as Hsn. pose proof (Hs m Hm) as Hsm.
  assert (∀ x, 0 <= x < 86400 → 0 <= x / 3600 < 100) as Hh.
  { intros x Hx. split; [apply Z.div_pos|apply Z.div_lt_upper_bound]; lia. }
  assert (∀ x, 0 <= x mod 60 < 100) as H60 by (intros x; pose proof (Z.mod_pos_bound x 60); lia).
  assert (∀ x, 0 <= x mod 1000000 < 1000000) as Hu by (intros x; by apply Z.mod_pos_bound).
  rewrite !field_compare by (simpl; auto).
  rewrite text_compare_app, padded_compare, fraction_compare
    by (rewrite ?padded_length; simpl; auto).
  rewrite <-(lex_divide n m 1000000) by lia. set (s := n / 1000000) in *. set (t := m / 1000000) in *.
  rewrite <-(lex_divide s t 60), <-(lex_divide (s / 60) (t / 60) 60) by lia.
  rewrite !Z.div_div by lia. by rewrite !lex_assoc.
Qed.

(** The UTC times whose year has at most four digits. *)
Definition four_digit_year (us : Z) : Prop := 0 <= (civil (us / us_per_day)).1.1 < 10000.

(** Texts in UTC are in the order of the moments. *)
Lemma iso_compare n m :
  four_digit_year n → four_digit_year m →
  String.compare (isoformat (utc_datetime n)) (isoformat (utc_datetime m)) = (n ?= m).
Proof.
  intros Hn Hm. rewrite string_compare. unfold isoformat. rewrite !chars_text. unfold iso_chars. simpl dt_wall.
  cbn [dt_offset utc_datetime].
  rewrite <-(lex_divide n m us_per_day) by done. rewrite <-civil_compare. unfold date_text, four_digit_year in *.
  pose proof (civil_proper (n / us_per_day)) as [[Hn1 Hn2] _].
  pose proof (civil_proper (m / us_per_day)) as [[Hm1 Hm2] _].
  destruct (civil (n / us_per_day)) as [[y mo] d], (civil (m / us_per_day)) as [[y' mo'] d']. cbn [fst snd] in *.
  assert (d <= 31 ∧ d' <= 31) as [Hd Hd'].
  { split; [revert Hn2; generalize (is_leap y)|revert Hm2; generalize (is_leap y')]; intros l;
      [months mo|months mo']; destruct l; read_tables; lia. }
  rewrite <-!app_assoc, !field_compare by (simpl; lia).
  rewrite time_compare by by apply Z.mod_pos_bound.
  unfold date_compare. cbn [fst snd]. by destruct (y ?= y'), (mo ?= mo'), (d ?= d').
Qed.

Lemma first_day : day_of 1 1 1 = -719162.
Proof. reflexivity. Qed.
Lemma last_day : day_of 10000 1 1 = 2932897.
Proof. reflexivity. Qed.

Lemma first_valid y : valid_date y 1 1.
Proof. split; [lia|]. by destruct (is_leap y). Qed.

(** Moments from year 1 to 9999 have such years. *)
Lemma wall_year us : min_wall <= us <= max_wall → 1 <= (civil (us / us_per_day)).1.1 < 10000.
Proof.
  unfold min_wall, max_wall. rewrite first_day, last_day. intros H.
  assert (-719162 <= us / us_per_day < 2932897) as Hd.
  { unfold us_per_day in *. split; [apply Z.div_le_lower_bound|apply Z.div_lt_upper_bound]; lia. }
  destruct (civil_proper (us / us_per_day)) as [Hv E].
  destruct (civil (us / us_per_day)) as [[y m] d]. cbn [fst snd] in *. rewrite <-E in Hd. clear -Hv Hd.
  pose proof (day_of_compare (y, m, d) (1, 1, 1) Hv (first_valid 1)) as C1.
  pose proof (day_of_compare (y, m, d) (10000, 1, 1) Hv (first_valid 10000)) as C2.
  destruct Hv as [[Hm _] [Hd1 _]]. cbn [fst snd] in *. rewrite first_day in C1. rewrite last_day in C2.
  revert Hd C1 C2. generalize (day_of y m d). intros n Hd. unfold date_compare. cbn [fst snd].
  destruct (Z.compare_spec n (-719162)), (Z.compare_spec n 2932897); try lia;
    destruct (Z.compare_spec y 1), (Z.compare_spec y 10000), (Z.compare_spec m 1), (Z.compare_spec d 1);
    intros; try done; lia.
Qed.

Lemma representable_year us : representable (utc_datetime us) = true → four_digit_year us.
Proof.
  unfold representable, four_digit_year, utc_datetime. cbn [dt_wall dt_offset]. intros H. propify.
  pose proof (wall_year us ltac:(lia)). lia.
Qed.

(** ** Reading ISO 8601 text back

    [datetime.fromisoformat()] on the texts that [isoformat()] writes, and that
    it reads each of them back.  Every other text is refused here: the code of
    this development compares what it read with what it would write, so that
    another spelling (a [Z], a date alone, a shorter fraction) is refused in the end. *)

(** [w] digits *)
Definition iso_field (w : nat) (l : list Ascii.ascii) : option (Z * list Ascii.ascii) :=
  if (length (take w l) =? w)%nat && forallb is_digit (take w l) then Some (digits_value 0 (take w l), drop w l) else None.

Definition iso_literal (c : Z) (l : list Ascii.ascii) : option (list Ascii.ascii) :=
  match l with x :: l => if code x =? c then Some l else None | [] => None end.

(** [[.ffffff]] *)
Definition iso_fraction (l : list Ascii.ascii) : option (Z * list Ascii.ascii) :=
  match iso_literal 46 l with Some l => iso_field 6 l | None => Some (0, l) end.

(** [HH:MM] *)
Definition iso_minutes (l : list Ascii.ascii) : option (Z * list Ascii.ascii) :=
  h ← iso_field 2 l; l ← iso_literal 58 h.2; m ← iso_field 2 l;
  if (h.1 <? 24) && (m.1 <? 60) then Some (h.1 * 60 + m.1, m.2) else None.

(** [:SS[.ffffff]], in microseconds *)
Definition iso_seconds (l : list Ascii.ascii) : option (Z * list Ascii.ascii) :=
  l ← iso_literal 58 l; s ← iso_field 2 l; us ← iso_fraction s.2;
  if s.1 <? 60 then Some (s.1 * 1000000 + us.1, us.2) else None.

(** [+HH:MM[:SS[.ffffff]]] *)
Definition iso_offset (l : list Ascii.ascii) : option (option Z) :=
  match l with
  | [] => Some None
  | sign :: l =>
      if in_set (code sign) [43; 45] then
        m ← iso_minutes l;
        s ← match m.2 with [] => Some (0, []) | l => iso_seconds l end;
        match s.2 with
        | [] => Some (Some ((if code sign =? 45 then -1 else 1) * (m.1 * 60000000 + s.1)))
        | _ => None
        end
      else None
  end.

Definition valid_dateb (y m d : Z) : bool :=
  (1 <=? y) && (1 <=? m) && (m <=? 12) && (1 <=? d) && (d <=? List.nth (Z.to_nat (m - 1)) (month_lengths (is_leap y)) 0).

Definition fromisoformat (value : string) : option datetime :=
  y ← iso_field 4 (chars value); l ← iso_literal 45 y.2; mo ← iso_field 2 l; l ← iso_literal 45 mo.2; d ← iso_field 2 l;
  l ← iso_literal 84 d.2; m ← iso_minutes l; s ← iso_seconds m.2; offset ← iso_offset s.2;
  if valid_dateb y.1 mo.1 d.1
  then Some (Datetime (day_of y.1 mo.1 d.1 * us_per_day + m.1 * 60000000 + s.1) offset) else None.

Example iso_read :
  fromisoformat "2023-12-31T23:59:59.000001-01:30" = Some (Datetime 1704067199000001 (Some (- minutes 90)))
  ∧ fromisoformat "2023-02-29T00:00:00+00:00" = None.
Proof. split; vm_compute; reflexivity. Qed.

(** ** What was written is read *)

Lemma padded_digits w n : 0 <= n < 10 ^ Z.of_nat w → forallb is_digit (padded w n) = true ∧ digits_value 0 (padded w n) = n.
Proof.
  revert n. induction w as [|w IH]; intros n Hn; [simpl in *; split; [done|lia]|].
  rewrite Nat2Z.inj_succ, Z.pow_succ_r in Hn by lia. cbn [padded].
  destruct (IH (n / 10)) as [H1 H2]; [split; [apply Z.div_pos|apply Z.div_lt_upper_bound]; lia|].
  rewrite forallb_app, H1, digits_value_app, H2, digit_code. cbn [forallb].
  pose proof (Z.mod_pos_bound n 10). pose proof (Z.div_mod n 10). split; [|lia].
  unfold is_digit, between. rewrite digit_code. rewrite andb_true_r. simpl. apply andb_true_iff. lia.
Qed.

Lemma field_padded w n rest : 0 <= n < 10 ^ Z.of_nat w → iso_field w (padded w n ++ rest) = Some (n, rest).
Proof.
  intros Hn. destruct (padded_digits w n Hn) as [H1 H2]. unfold iso_field.
  assert (take w (padded w n ++ rest) = padded w n) as ->
    by (rewrite take_app_le by (rewrite padded_length; lia); apply take_ge; rewrite padded_length; lia).
  rewrite padded_length, Nat.eqb_refl, H1, H2. simpl. do 2 f_equal.
  rewrite drop_app_ge by (rewrite padded_length; lia). by rewrite padded_length, Nat.sub_diag.
Qed.

(** A text that does not go on with a fraction. *)
Definition no_dot (l : list Ascii.ascii) : Prop := match l with c :: _ => code c <> 46 | [] => True end.

Lemma fraction_read n rest : 0 <= n < 1000000 → no_dot rest → iso_fraction (fraction_text n ++ rest) = Some (n, rest).
Proof.
  intros Hn Hrest. unfold fraction_text, iso_fraction. destruct (Z.eqb_spec n 0) as [->|Hne].
  - destruct rest as [|c rest]; [done|]. simpl. by rewrite (proj2 (Z.eqb_neq _ _)).
  - change (chars ".") with [Ascii.ascii_of_nat 46]. cbn [app iso_literal].
    change (code (Ascii.ascii_of_nat 46) =? 46) with true. cbv iota. by apply (field_padded 6).
Qed.

Lemma minutes_read n rest :
  0 <= n < 1440 → iso_minutes (padded 2 (n / 60) ++ chars ":" ++ padded 2 (n mod 60) ++ rest) = Some (n, rest).
Proof.
  intros Hn. unfold iso_minutes. pose proof (Z.mod_pos_bound n 60). pose proof (Z.div_mod n 60).
  assert (0 <= n / 60 < 24) by (split; [apply Z.div_pos|apply Z.div_lt_upper_bound]; lia).
  rewrite field_padded by (simpl; lia). cbn [mbind option_bind fst snd].
  change (iso_literal 58 (chars ":" ++ ?l)) with (Some l). cbn [mbind option_bind].
  rewrite field_padded by (simpl; lia). cbn [mbind option_bind fst snd].
  rewrite !(proj2 (Z.ltb_lt _ _)) by lia. simpl. do 2 f_equal. lia.
Qed.

Lemma seconds_read n rest :
  0 <= n < 60000000 → no_dot rest →
  iso_seconds (chars ":" ++ padded 2 (n / 1000000) ++ fraction_text (n mod 1000000) ++ rest) = Some (n, rest).
Proof.
  intros Hn Hrest. unfold iso_seconds. pose proof (Z.mod_pos_bound n 1000000). pose proof (Z.div_mod n 1000000).
  assert (0 <= n / 1000000 < 60) by (split; [apply Z.div_pos|apply Z.div_lt_upper_bound]; lia).
  change (iso_literal 58 (chars ":" ++ ?l)) with (Some l). cbn [mbind option_bind].
  rewrite field_padded by (simpl; lia). cbn [mbind option_bind fst snd].
  rewrite fraction_read by (done || lia). cbn [mbind option_bind fst snd].
  rewrite !(proj2 (Z.ltb_lt _ _)) by lia. simpl. do 2 f_equal. lia.
Qed.

(** A number of microseconds, less than a day, as minutes and the rest. *)
Lemma split_day n :
  0 <= n < us_per_day →
  0 <= n / 60000000 < 1440 ∧ 0 <= n mod 60000000 < 60000000 ∧ n = n / 60000000 * 60000000 + n mod 60000000
  ∧ n / 1000000 / 3600 = n / 60000000 / 60 ∧ n / 1000000 / 60 mod 60 = n / 60000000 mod 60
  ∧ n / 1000000 mod 60 = n mod 60000000 / 1000000 ∧ n mod 1000000 = n mod 60000000 mod 1000000.
Proof.
  unfold us_per_day. intros Hn. pose proof (Z.mod_pos_bound n 60000000). pose proof (Z.div_mod n 60000000).
  split_and!; try lia; try (split; [apply Z.div_pos|apply Z.div_lt_upper_bound]; lia).
  - rewrite !Z.div_div by lia. done.
  - rewrite Z.div_div by lia. done.
  - change 60000000 with (1000000 * 60). rewrite Z.rem_mul_r by lia.
    pose proof (Z.mod_pos_bound n 1000000). apply (Z.div_unique _ _ _ (n mod 1000000)); lia.
  - change 60000000 with (1000000 * 60). rewrite Z.rem_mul_r by lia.
    rewrite (Z.mul_comm 1000000 (_ mod 60)), Z.mod_add, Z.mod_mod; lia.
Qed.

Lemma time_read n rest :
  0 <= n < us_per_day → no_dot rest →
  (m ← iso_minutes (time_text n ++ rest); s ← iso_seconds m.2; Some (m.1 * 60000000 + s.1, s.2)) = Some (n, rest).
Proof.
  intros Hn Hrest. destruct (split_day n Hn) as (H1 & H2 & H3 & E1 & E2 & E3 & E4).
  unfold time_text. cbv zeta. rewrite E1, E2, E3, E4, <- !app_assoc.
  rewrite minutes_read by done. cbn [mbind option_bind fst snd]. rewrite seconds_read by done.
  cbn [mbind option_bind fst snd]. by rewrite <- H3.
Qed.

Lemma offset_read o : Z.abs o < us_per_day → iso_offset (offset_text o) = Some (Some o).
Proof.
  intros Ho. destruct (split_day (Z.abs o)) as (H1 & H2 & H3 & E1 & E2 & E3 & E4); [lia|].
  unfold offset_text. cbv zeta. rewrite E1, E2. set (a := Z.abs o) in *.
  assert (Hsign : chars (if o <? 0 then "-" else "+") = [Ascii.ascii_of_nat (if o <? 0 then 45 else 43)])
    by by destruct (o <? 0).
  rewrite Hsign. cbn [app iso_offset].
  assert (in_set (code (Ascii.ascii_of_nat (if o <? 0 then 45 else 43))) [43; 45] = true) as -> by by destruct (o <? 0).
  rewrite minutes_read by done. cbn [mbind option_bind fst snd].
  assert (Hend : (if code (Ascii.ascii_of_nat (if o <? 0 then 45 else 43)) =? 45 then -1 else 1) * a = o).
  { destruct (Z.ltb_spec o 0); simpl; lia. }
  rewrite E3, E4. destruct ((_ =? 0) && _) eqn:Hz.
  - cbn [mbind option_bind fst snd]. do 2 f_equal. rewrite <- Hend at 2. f_equal.
    apply andb_true_iff in Hz as [Hz1 Hz2]. pose proof (Z.div_mod (a mod 60000000) 1000000). lia.
  - match goal with |- context [match ?l with [] => Some (0, []) | _ => _ end] => assert (l <> []) as Hl by by destruct (padded 2 (a mod 60000000 / 1000000)) end.
    pose proof (seconds_read (a mod 60000000) [] H2 I) as Hr. rewrite app_nil_r in Hr.
    destruct (chars ":" ++ _) as [|c l]; [done|]. rewrite Hr. cbn [mbind option_bind fst snd]. do 2 f_equal.
    rewrite <- Hend at 2. f_equal. lia.
Qed.

Lemma offset_no_dot o : no_dot (match o with Some o => offset_text o | None => [] end).
Proof. destruct o as [o|]; [|done]. unfold offset_text. cbv zeta. by destruct (o <? 0). Qed.

(** [fromisoformat] reads back what [isoformat] wrote. *)
Theorem iso_round_trip d : representable d = true → fromisoformat (isoformat d) = Some d.
Proof.
  destruct d as [wall offset]. unfold representable. cbn [dt_wall dt_offset]. intros H. propify.
  pose proof (wall_year wall ltac:(lia)) as Hy.
  destruct (civil_proper (wall / us_per_day)) as [Hv E].
  unfold fromisoformat, isoformat, iso_chars, date_text. rewrite chars_text. cbn [dt_wall dt_offset].
  destruct (civil (wall / us_per_day)) as [[y m] d]. cbn [fst snd] in *.
  pose proof Hv as [Hm Hd]. assert (Hd31 : d <= 31).
  { destruct Hd as [_ Hd]. unfold month_lengths in Hd. assert (Hcase : m = 1 ∨ m = 2 ∨ m = 3 ∨ m = 4 ∨ m = 5 ∨ m = 6
      ∨ m = 7 ∨ m = 8 ∨ m = 9 ∨ m = 10 ∨ m = 11 ∨ m = 12) by lia.
    destruct (is_leap y); destruct_or? Hcase; subst m; simpl in Hd; lia. }
  rewrite <- !app_assoc. rewrite field_padded by (simpl; lia). cbn [mbind option_bind fst snd].
  change (iso_literal 45 (chars "-" ++ ?l)) with (Some l). cbn [mbind option_bind].
  rewrite field_padded by (simpl; lia). cbn [mbind option_bind fst snd].
  change (iso_literal 45 (chars "-" ++ ?l)) with (Some l). cbn [mbind option_bind].
  rewrite field_padded by (simpl; lia). cbn [mbind option_bind fst snd].
  change (iso_literal 84 (chars "T" ++ ?l)) with (Some l). cbn [mbind option_bind].
  pose proof (time_read (wall mod us_per_day) (match offset with Some o => offset_text o | None => [] end)
    (Z.mod_pos_bound wall us_per_day eq_refl) (offset_no_dot offset)) as Ht.
  destruct (iso_minutes _) as [mm|]; [|done]. cbn [mbind option_bind] in *.
  destruct (iso_seconds mm.2) as [ss|]; [|done]. cbn [mbind option_bind] in *. injection Ht as Ht Hs. rewrite Hs.
  assert (iso_offset (match offset with Some o => offset_text o | None => [] end) = Some offset) as ->.
  { destruct offset as [o|]; [apply offset_read; lia|done]. }
  cbn [mbind option_bind]. assert (valid_dateb y m d = true) as ->.
  { unfold valid_dateb. rewrite !andb_true_iff, !Z.leb_le. lia. }
  rewrite E, <- Z.add_assoc, Ht. do 2 f_equal. pose proof (Z.div_mod wall us_per_day ltac:(done)). lia.
Qed.
