(* ===== verification/Credentials.v ===== *)
(** * Device credentials and retry envelopes (endpoint_server/enrollment/credentials.py)

    Bearer tokens are kept as HMAC digests; the token of a first delivery waits
    in an envelope encrypted under an opaque receipt.  HMAC-SHA256, AES-GCM and
    the randomness of [secrets] are the class [EnrollmentCrypto]; bytes are
    strings. *)

From S2P Require Import Prelude Store Session AuditLog Calendar.

(** [hmac_sha256 key message], [aesgcm_* key nonce data aad], and the [n] bytes
    of one call of [secrets.token_bytes]. *)
Class EnrollmentCrypto := {
  hmac_sha256 : string → string → string;
  aesgcm_encrypt : string → string → string → string → string;
  aesgcm_decrypt : string → string → string → string → option string;
  random_bytes : Z → nat → string
}.

(** [bytes.hex()] *)
Definition hex_bytes (s : string) : string :=
  text (concat (map (λ c, [hex_digit (code c / 16); hex_digit (code c mod 16)]) (chars s))).

(** The alphabet of [base64.urlsafe_b64encode] *)
Definition b64_digit (d : Z) : Ascii.ascii :=
  Ascii.ascii_of_nat (Z.to_nat
    (if d <? 26 then 65 + d else if d <? 52 then 71 + d else if d <? 62 then d - 4
     else if d =? 62 then 45 else 95)).

(** [base64.urlsafe_b64encode(value).rstrip(b"=")] *)
Fixpoint b64_chars (l : list Ascii.ascii) : list Ascii.ascii :=
  match l with
  | a :: b :: c :: l =>
      b64_digit (code a / 4) :: b64_digit (code a mod 4 * 16 + code b / 16)
      :: b64_digit (code b mod 16 * 4 + code c / 64) :: b64_digit (code c mod 64) :: b64_chars l
  | [a; b] => [b64_digit (code a / 4); b64_digit (code a mod 4 * 16 + code b / 16); b64_digit (code b mod 16 * 4)]
  | [a] => [b64_digit (code a / 4); b64_digit (code a mod 4 * 16)]
  | [] => []
  end.
Definition urlsafe_b64 (s : string) : string := text (b64_chars (chars s)).

Example urlsafe_b64_examples : urlsafe_b64 "any carnal" = "YW55IGNhcm5hbA" ∧ urlsafe_b64 "~~~?" = "fn5-Pw".
Proof. done. Qed.

Definition nul : string := String Ascii.zero "".

Definition is_ascii_text (s : string) : bool := forallb (λ c, code c <? 128) (chars s).

Definition DEVICE_TOKEN_BYTES : nat := 32.
Definition DEFAULT_RETRY_ENVELOPE_LIFETIME : timedelta := minutes 5.
Definition MAX_RETRY_ENVELOPE_LIFETIME : timedelta := minutes 15.
Definition DEFAULT_ROTATION_OVERLAP : timedelta := minutes 10.
Definition _AES_GCM_NONCE_BYTES : nat := 12.
Definition _RECEIPT_DIGEST_CONTEXT : string := "endpoint-enrollment-receipt-v1" +:+ nul.
Definition _FINGERPRINT_DIGEST_CONTEXT : string := "endpoint-enrollment-fingerprint-v1" +:+ nul.
Definition _ENVELOPE_KEY_CONTEXT : string := "endpoint-enrollment-envelope-key-v1".

Record IssuedRetryEnvelope := {
  iss_receipt : string;
  iss_receipt_digest : string;
  iss_fingerprint_digest : string;
  iss_encrypted_token : string;
  iss_encryption_nonce : string;
  iss_expires_at : datetime
}.

Section credentials.
Context `{EnrollmentCrypto}.

(** [secrets.token_bytes(n)] *)
Definition token_bytes (n : nat) : Tx string := draw ← uuid4; mret (random_bytes draw n).

Definition generate_device_token : Tx string := b ← token_bytes DEVICE_TOKEN_BYTES; mret (urlsafe_b64 b).
Definition generate_retry_receipt : Tx string := b ← token_bytes 32; mret (urlsafe_b64 b).

Definition _context_digest (value pepper context : string) : res string :=
  if bool_decide (value = "") || bool_decide (pepper = "")
  then Exn (ValueError "digest input and pepper must not be empty")
  else Ok (hex_bytes (hmac_sha256 pepper (context +:+ value))).

Definition retry_receipt_digest (receipt pepper : string) : res string :=
  _context_digest receipt pepper _RECEIPT_DIGEST_CONTEXT.

Definition device_token_digest (token pepper : string) : res string :=
  if bool_decide (token = "") || bool_decide (pepper = "")
  then Exn (ValueError "device token and pepper must not be empty")
  else if negb (is_ascii_text token) then Exn (ValueError "device token must be ASCII")
  else Ok (hex_bytes (hmac_sha256 pepper token)).

Definition device_token_matches (token expected_digest pepper : string) : bool :=
  negb (bool_decide (expected_digest = ""))
  && match device_token_digest token pepper with Ok actual => bool_decide (actual = expected_digest) | Exn _ => false end.

Definition _envelope_key (session_secret : string) : res string :=
  if bool_decide (session_secret = "") then Exn (ValueError "session secret must not be empty")
  else Ok (hmac_sha256 session_secret _ENVELOPE_KEY_CONTEXT).

(** [value.astimezone(UTC).isoformat(timespec="microseconds")] *)
Definition iso_microseconds (d : datetime) : string :=
  let us := instant d in
  let seconds := us mod us_per_day / 1000000 in
  text (date_text (us / us_per_day) ++ chars "T" ++ padded 2 (seconds / 3600) ++ chars ":"
        ++ padded 2 (seconds / 60 mod 60) ++ chars ":" ++ padded 2 (seconds mod 60) ++ chars "."
        ++ padded 6 (us mod 1000000) ++ chars "+00:00").

Definition _envelope_aad (receipt_digest fingerprint_digest : string) (expires_at : datetime) : string :=
  String.concat nul [receipt_digest; fingerprint_digest; iso_microseconds expires_at].

(** The moment an operation is told, or the clock's, in UTC. *)
Definition aware_now (now : option datetime) (message : string) : Tx datetime :=
  at_time ← now_or now;
  raise_if (negb (is_aware at_time)) (ValueError message) ;;
  mret at_time.

Definition seal_retry_envelope (token hardware_fingerprint pepper session_secret : string)
    (receipt : option string) (now : option datetime) (lifetime : timedelta) : Tx IssuedRetryEnvelope :=
  issued_at ← aware_now now "now must be timezone-aware";
  raise_if ((lifetime <=? 0) || (MAX_RETRY_ENVELOPE_LIFETIME <? lifetime))
    (ValueError "retry envelope lifetime must be positive and at most 15 minutes") ;;
  raise_if (negb (is_ascii_text token)) (ValueError "device token must be ASCII") ;;
  raise_if (bool_decide (token = "") || bool_decide (hardware_fingerprint = ""))
    (ValueError "device token and hardware fingerprint must not be empty") ;;
  receipt ← match receipt with Some r => mret r | None => generate_retry_receipt end;
  receipt_digest ← lift_res (retry_receipt_digest receipt pepper);
  fingerprint_digest ← lift_res (_context_digest hardware_fingerprint pepper _FINGERPRINT_DIGEST_CONTEXT);
  let expires_at := dt_add (as_utc issued_at) lifetime in
  nonce ← token_bytes _AES_GCM_NONCE_BYTES;
  key ← lift_res (_envelope_key session_secret);
  mret {| iss_receipt := receipt; iss_receipt_digest := receipt_digest; iss_fingerprint_digest := fingerprint_digest;
          iss_encrypted_token :=
            aesgcm_encrypt key nonce token (_envelope_aad receipt_digest fingerprint_digest expires_at);
          iss_encryption_nonce := nonce; iss_expires_at := expires_at |}.

(** The fields of a stored envelope that recovery reads (the protocol [RetryEnvelope]). *)
Record RetryEnvelope := {
  ret_receipt_digest : string;
  ret_fingerprint_digest : string;
  ret_encrypted_token : string;
  ret_encryption_nonce : string;
  ret_expires_at : datetime
}.

Definition retry_envelope_proof_matches (receipt hardware_fingerprint : string) (envelope : RetryEnvelope)
    (pepper : string) : bool :=
  match _context_digest receipt pepper _RECEIPT_DIGEST_CONTEXT,
        _context_digest hardware_fingerprint pepper _FINGERPRINT_DIGEST_CONTEXT with
  | Ok r, Ok f => bool_decide (r = ret_receipt_digest envelope) && bool_decide (f = ret_fingerprint_digest envelope)
  | _, _ => false
  end.

(** [recover_retry_token] at a time that the caller has read. *)
Definition recover_retry_token (receipt hardware_fingerprint : string) (envelope : RetryEnvelope)
    (pepper session_secret : string) (checked_at : datetime) : option string :=
  if negb (is_aware checked_at) || negb (is_aware (ret_expires_at envelope))
     || dt_leb (ret_expires_at envelope) checked_at
  then None
  else if negb (retry_envelope_proof_matches receipt hardware_fingerprint envelope pepper) then None
  else
    match _envelope_key session_secret with
    | Exn _ => None
    | Ok key =>
        token ← aesgcm_decrypt key (ret_encryption_nonce envelope) (ret_encrypted_token envelope)
                  (_envelope_aad (ret_receipt_digest envelope) (ret_fingerprint_digest envelope)
                     (ret_expires_at envelope));
        if is_ascii_text token then Some token else None
    end.

(** ** Rotation *)

(** The credential has expired at [t]. *)
Definition credential_expired (record : DeviceCredential) (t : datetime) : bool :=
  match crd_expires_at record with
  | Some e => negb (is_aware e) || dt_leb e t
  | None => false
  end.

(** The token and the record it leaves. *)
Definition begin_device_credential_rotation (record : DeviceCredential) (pepper : string)
    (now : option datetime) (overlap : timedelta) : Tx (string * DeviceCredential) :=
  started_at ← aware_now now "now must be timezone-aware";
  raise_if (overlap <=? 0) (ValueError "rotation overlap must be positive") ;;
  raise_if (is_some (crd_revoked_at record)) (ValueError "revoked credential cannot be rotated") ;;
  raise_if (credential_expired record started_at) (ValueError "expired credential cannot be rotated") ;;
  raise_if (is_some (crd_pending_token_digest record)) (ValueError "credential rotation is already pending") ;;
  token ← generate_device_token;
  digest ← lift_res (device_token_digest token pepper);
  mret (token, record <| crd_pending_token_digest := Some digest |>
                      <| crd_rotation_overlap_expires_at := Some (dt_add started_at overlap) |>).

Definition device_credential_accepts_token (record : DeviceCredential) (token pepper : string)
    (checked_at : datetime) : bool :=
  if negb (is_aware checked_at) || is_some (crd_revoked_at record) then false
  else if credential_expired record checked_at then false
  else
    match crd_pending_token_digest record with
    | None => device_token_matches token (crd_token_digest record) pepper
    | Some pending =>
        device_token_matches token pending pepper
        || match crd_rotation_overlap_expires_at record with
           | Some deadline =>
               is_aware deadline && dt_ltb checked_at deadline
               && device_token_matches token (crd_token_digest record) pepper
           | None => false
           end
    end.

(** The record it leaves, or [None] for [False]. *)
Definition activate_pending_device_credential (record : DeviceCredential) (token pepper : string)
    (activated_at : datetime) : option DeviceCredential :=
  match crd_pending_token_digest record with
  | None => None
  | Some pending =>
      if negb (is_aware activated_at) || is_some (crd_revoked_at record)
         || credential_expired record activated_at || negb (device_token_matches token pending pepper)
      then None
      else Some (record <| crd_token_digest := pending |> <| crd_pending_token_digest := None |>
                        <| crd_rotation_overlap_expires_at := None |>)
  end.
End credentials.
