(* ===== verification/Identity.v ===== *)
(** * Identities, bounded JSON and client addresses

    endpoint_contracts/identity.py and json_types.py, the campaign policy of
    endpoint_contracts/enrollment.py, and endpoint_server/network.py.  Text is
    ASCII, as in AuditLog.v. *)

From S2P Require Import Prelude Store Session AuditLog Contracts.

(** [value.strip()] *)
Definition strip_text (s : string) : string :=
  text (rev (drop_while is_space (rev (drop_while is_space (chars s))))).

Definition is_printable (c : Ascii.ascii) : bool := between 32 126 c.

(** ** Identity bindings *)

(** [_HARDWARE_FINGERPRINT_PATTERN] after "sha256:" *)
Definition fingerprint_tail (l : list Ascii.ascii) : bool :=
  match l with
  | c :: rest =>
      (is_lower c || is_digit c)
      && (1 <=? Z.of_nat (length rest)) && (Z.of_nat (length rest) <=? 248)
      && forallb (λ c, is_lower c || is_digit c || in_set (code c) [46; 95; 45]) rest
  | [] => false
  end.

Definition _HARDWARE_FINGERPRINT_PATTERN (value : string) : bool :=
  startswith "sha256:" value && fingerprint_tail (drop 7 (chars value)).

Definition normalize_hardware_fingerprint (value : string) : res string :=
  let canonical := text (map lower (chars value)) in
  if _HARDWARE_FINGERPRINT_PATTERN canonical then Ok canonical
  else Exn (ValueError "hardware fingerprint must be canonical sha256 identifier").

Definition _MAX_INSTALL_SESSION_LENGTH : Z := 128.

Definition normalize_install_session_id (value : string) : res string :=
  if bool_decide (value = "") || (_MAX_INSTALL_SESSION_LENGTH <? Z.of_nat (String.length value))
     || negb (bool_decide (value = strip_text value)) || negb (forallb is_printable (chars value))
  then Exn (ValueError "install session ID must be bounded printable ASCII")
  else Ok value.

(** ** Bounded JSON *)

Definition MAX_JSON_DEPTH : Z := 8.
Definition MAX_JSON_STRING_LENGTH : Z := 4096.
Definition MAX_JSON_LIST_ITEMS : Z := 32.
Definition MAX_JSON_MAP_ITEMS : Z := 32.
Definition MAX_JSON_NODES : Z := 1024.
Definition MAX_JSON_SERIALIZED_BYTES : Z := 65536.

(** The checks on entry to a node: the count after it. *)
Definition enter_node (depth count : Z) : res Z :=
  if MAX_JSON_DEPTH <? depth then Exn (ValueError "JSON value exceeds maximum nesting depth")
  else if MAX_JSON_NODES <? count + 1 then Exn (ValueError "JSON value exceeds maximum structural size")
  else Ok (count + 1).

Definition bounded_string (s : string) (count : Z) : res Z :=
  if MAX_JSON_STRING_LENGTH <? Z.of_nat (String.length s)
  then Exn (ValueError "JSON string exceeds maximum length") else Ok count.

Definition is_finite (x : spec_float) : bool :=
  match x with S754_zero _ | S754_finite _ _ _ => true | _ => false end.

(** [node_count] is threaded as the count before and after a value. *)
Fixpoint _validate_bounded_json (v : json) (depth count : Z) : res Z :=
  res_bind (enter_node depth count) (λ count,
    match v with
    | JStr s => bounded_string s count
    | JFloat x => if is_finite x then Ok count else Exn (ValueError "JSON numbers must be finite")
    | JObj entries =>
        if MAX_JSON_MAP_ITEMS <? Z.of_nat (length entries)
        then Exn (ValueError "JSON map exceeds maximum size")
        else
          (fix go (es : list (string * json)) (count : Z) : res Z :=
             match es with
             | [] => Ok count
             | (key, item) :: es =>
                 res_bind (enter_node (depth + 1) count) (λ count,
                   res_bind (bounded_string key count) (λ count,
                     res_bind (_validate_bounded_json item (depth + 1) count) (go es)))
             end) entries count
    | JList items =>
        if MAX_JSON_LIST_ITEMS <? Z.of_nat (length items)
        then Exn (ValueError "JSON list exceeds maximum size")
        else
          (fix go (l : list json) (count : Z) : res Z :=
             match l with
             | [] => Ok count
             | item :: l => res_bind (_validate_bounded_json item (depth + 1) count) (go l)
             end) items count
    | _ => Ok count
    end).

(** The length of a string as [json.dumps(..., ensure_ascii=False)] writes it. *)
Definition char_length (c : Ascii.ascii) : Z :=
  if in_set (code c) [34; 92; 10; 13; 9; 12; 8] then 2 else if code c <? 32 then 6 else 1.
Definition string_length (s : string) : Z := 2 + foldr Z.add 0 (map char_length (chars s)).

(** The separators between [n] items. *)
Definition separators (n : nat) : Z := Z.of_nat (n - 1).

Section bounded.
Context `{Contracts}.

(** The length of [json.dumps(value, separators=(",", ":"))]. *)
Fixpoint serialized_length (v : json) : Z :=
  match v with
  | JNull => 4
  | JBool b => if b then 4 else 5
  | JInt n => Z.of_nat (String.length (Z_str n))
  | JFloat x => Z.of_nat (String.length (float_repr x))
  | JStr s => string_length s
  | JList items => 2 + separators (length items) + foldr Z.add 0 (map serialized_length items)
  | JObj entries =>
      2 + separators (length entries)
      + (fix go (es : list (string * json)) : Z :=
           match es with
           | [] => 0
           | (key, item) :: es => string_length key + 1 + serialized_length item + go es
           end) entries
  end.

Definition validate_bounded_json (v : json) : res unit :=
  res_bind (_validate_bounded_json v 0 0) (λ _,
    if MAX_JSON_SERIALIZED_BYTES <? serialized_length v
    then Exn (ValueError "JSON value exceeds maximum serialized size") else Ok tt).
End bounded.

(** ** The policy of a Windows campaign *)

Record WindowsEnrollmentPolicyV1 := {
  policy_id : string;
  enrollment_mode : string;
  allowed_installer_releases : list string
}.

(** A bounded name: its first character of one class, the others of another. *)
Definition bounded_name (first rest : Ascii.ascii → bool) (s : string) : bool :=
  match chars s with
  | c :: l => first c && forallb rest l && (Z.of_nat (String.length s) <=? 128)
  | [] => false
  end.

Definition policy_id_ok : string → bool :=
  bounded_name (λ c, is_lower c || is_digit c) (λ c, is_lower c || is_digit c || in_set (code c) [46; 95; 45]).
Definition release_ok : string → bool :=
  bounded_name (λ c, is_lower c || is_upper c || is_digit c)
    (λ c, is_lower c || is_upper c || is_digit c || in_set (code c) [46; 95; 43; 45]).

(** A list of strings *)
Definition string_items (l : list json) : option (list string) :=
  mapM (λ v, match v with JStr s => Some s | _ => None end) l.

(** [WindowsEnrollmentPolicyV1.model_validate]; [None] is a ValidationError. *)
Definition parse_windows_enrollment_policy (policy : list (string * json)) : option WindowsEnrollmentPolicyV1 :=
  match assoc "policy_id" policy, assoc "enrollment_mode" policy, assoc "allowed_installer_releases" policy with
  | Some (JStr id), Some (JStr mode), Some (JList items) =>
      releases ← string_items items;
      if (length policy =? 3)%nat && policy_id_ok id && str_in mode ["auto"; "manual"]
         && forallb release_ok releases && (1 <=? Z.of_nat (length releases)) && (Z.of_nat (length releases) <=? 64)
         && bool_decide (NoDup releases)
      then Some {| policy_id := id; enrollment_mode := mode; allowed_installer_releases := releases |}
      else None
  | _, _, _ => None
  end.

(** ** Addresses *)

(** An IPv4Address or IPv6Address and an IPv4Network or IPv6Network, by the
    version, the integer value and the length of the prefix. *)
Record ip_address := { ip_version : Z; ip_value : Z }.
#[export] Instance ip_address_eq_dec : EqDecision ip_address.
Proof. solve_decision. Defined.

Record ip_network := { net_version : Z; net_base : Z; net_prefix : Z }.

(** [address in network] *)
Definition in_network (a : ip_address) (n : ip_network) : bool :=
  let bits := if net_version n =? 4 then 32 else 128 in
  (ip_version a =? net_version n)
  && (Z.shiftr (ip_value a) (bits - net_prefix n) =? Z.shiftr (net_base n) (bits - net_prefix n)).

(** The parsers and printers of Python's [ipaddress]. *)
Class IpText := {
  parse_address : string → option ip_address;      (* ip_address(text) *)
  parse_network : string → option ip_network;      (* ip_network(text, strict=True) *)
  address_text : ip_address → string;
  network_text : ip_network → string
}.

(** What the routes read of an HTTP request. *)
Record HttpRequest := {
  client_host : option string;
  forwarded_for : list string;
  authorization : option string;
  x_request_id : option string
}.

Definition observed_client_address `{IpText} (trusted_proxy_cidrs : list ip_network) (request : HttpRequest)
    : res ip_address :=
  match client_host request with
  | None => Exn (ValueError "observed peer is unavailable")
  | Some host =>
      match parse_address host with
      | None => Exn (ValueError "observed peer is invalid")
      | Some peer =>
          if negb (existsb (in_network peer) trusted_proxy_cidrs) then Ok peer
          else
            let refused := Exn (ValueError "trusted proxy supplied an invalid client address") in
            match forwarded_for request with
            | [forwarded] =>
                if bool_decide (forwarded = "") || negb (bool_decide (forwarded = strip_text forwarded))
                   || existsb (λ c, code c =? 44) (chars forwarded) || existsb is_space (chars forwarded)
                then refused
                else match parse_address forwarded with Some a => Ok a | None => refused end
            | _ => refused
            end
      end
  end.
