(* ===== verification/Enrollment.v ===== *)
(** * Enrollment campaigns and requests

    endpoint_server/enrollment/campaigns.py, requests.py and delivery.py: bounded
    campaigns, one-time install claims, the requests of the universal Windows
    setup with their state machine, and the receipts of deliveries.  A row that
    is not in a table yet is a pair of its id and its fields. *)

From S2P Require Import Prelude Store Session AuditLog Contracts Calendar Credentials Identity.

(** What the handlers read of [app.state.settings]. *)
Record Settings := {
  device_token_pepper : string;
  service_token_pepper : string;
  session_secret : string;
  allowed_agent_cidrs : list ip_network;
  trusted_proxy_cidrs : list ip_network
}.

Definition _CAMPAIGN_CONTEXT : string := "endpoint-enrollment-campaign-v1" +:+ nul.
Definition _CLAIM_CONTEXT : string := "endpoint-install-claim-v1" +:+ nul.
Definition _INSTALL_SESSION_CONTEXT : string := "endpoint-install-session-v1" +:+ nul.
Definition _FINGERPRINT_CONTEXT : string := "endpoint-enrollment-fingerprint-v1" +:+ nul.

Definition denied : exn := EnrollmentDenied "Enrollment denied".

Section campaigns.
Context `{Contracts} `{EnrollmentCrypto} `{IpText}.

(** ** Digests and tokens *)

Definition _digest (value pepper context : string) : res string :=
  if bool_decide (value = "") || bool_decide (pepper = "")
  then Exn (ValueError "credential and pepper must not be empty")
  else Ok (hex_bytes (hmac_sha256 pepper (context +:+ value))).

Definition campaign_token_digest (token pepper : string) : res string := _digest token pepper _CAMPAIGN_CONTEXT.
Definition claim_token_digest (token pepper : string) : res string := _digest token pepper _CLAIM_CONTEXT.

Definition hardware_fingerprint_digest (hardware_fingerprint pepper : string) : res string :=
  res_bind (normalize_hardware_fingerprint hardware_fingerprint) (λ canonical,
    _digest canonical pepper _FINGERPRINT_CONTEXT).

Definition install_claim_bindings_match (claim : EnrollmentClaim) (pepper installation_session hardware_fingerprint : string)
    : bool :=
  match normalize_hardware_fingerprint hardware_fingerprint with
  | Exn _ => false
  | Ok canonical_fingerprint =>
      match _digest installation_session pepper _INSTALL_SESSION_CONTEXT,
            _digest canonical_fingerprint pepper _FINGERPRINT_CONTEXT with
      | Ok session_digest, Ok fingerprint_digest =>
          bool_decide (session_digest = clm_installation_session_digest claim)
          && bool_decide (fingerprint_digest = clm_fingerprint_digest claim)
      | _, _ => false
      end
  end.

(** The identifier and the token. *)
Definition _issue_token (marker : string) : Tx (string * string) :=
  identifier ← token_bytes 16;
  secret ← token_bytes 32;
  mret (hex_bytes identifier, marker +:+ hex_bytes identifier +:+ "." +:+ urlsafe_b64 secret).

(** ** Validation *)

Definition _aware_utc (value : datetime) (name : string) : res datetime :=
  if is_aware value then Ok (as_utc value) else Exn (ValueError (name +:+ " must be timezone-aware")).

(** One value of [_normalized_cidrs] *)
Definition canonical_cidr (value : string) : res string :=
  match parse_network value with
  | Some network =>
      if bool_decide (network_text network = value) then Ok value
      else Exn (ValueError "allowed CIDRs must be canonical networks")
  | None => Exn (ValueError "allowed CIDRs must be canonical networks")
  end.

Fixpoint all_ok {A B} (f : A → res B) (l : list A) : res (list B) :=
  match l with
  | [] => Ok []
  | x :: l => res_bind (f x) (λ y, res_bind (all_ok f l) (λ ys, Ok (y :: ys)))
  end.

Definition _normalized_cidrs (values : list string) : res (list string) :=
  if bool_decide (values = []) then Exn (ValueError "at least one allowed CIDR is required")
  else res_bind (all_ok canonical_cidr values) (λ normalized, Ok (order_by str_leb (remove_dups normalized))).

Definition _validated_text (value : option string) (name : string) (maximum : Z) (required : bool)
    : res (option string) :=
  match value with
  | None => if required then Exn (ValueError (name +:+ " is required")) else Ok None
  | Some v =>
      if bool_decide (v = "") || negb (bool_decide (v = strip_text v)) || negb (forallb is_printable (chars v))
         || (maximum <? Z.of_nat (String.length v))
      then Exn (ValueError (name +:+ " must be bounded printable text")) else Ok value
  end.

Definition validate_campaign_display_text (value : option string) (name : string) (maximum : Z) : res (option string) :=
  _validated_text value name maximum false.

(** The checks of a policy, at creation and at a change. *)
Definition check_policy (platform : string) (policy : list (string * json)) : res unit :=
  res_bind (validate_bounded_json (JObj policy)) (λ _,
    if bool_decide (platform = "windows") && is_none (parse_windows_enrollment_policy policy)
    then Exn (ValueError "Windows enrollment policy is invalid") else Ok tt).

(** ** Campaigns *)

Record CampaignFields := {
  cf_expires_at : datetime;
  cf_max_uses : Z;
  cf_allowed_cidrs : list string;
  cf_target_platform : string;
  cf_policy : list (string * json);
  cf_label : option string;
  cf_site : option string
}.

(** The token, the id and the record. *)
Definition issue_campaign (pepper : string) (fields : CampaignFields) (now : option datetime)
    : Tx (string * uuid * EnrollmentCampaign) :=
  at_time ← now_or now;
  issued_at ← lift_res (_aware_utc at_time "now");
  expiry ← lift_res (_aware_utc (cf_expires_at fields) "campaign expiry");
  raise_if (dt_leb expiry issued_at) (ValueError "campaign expiry must be in the future") ;;
  raise_if (cf_max_uses fields <=? 0) (ValueError "campaign max uses must be positive") ;;
  lift_res (_validated_text (Some (cf_target_platform fields)) "target platform" 64 true) ;;
  lift_res (check_policy (cf_target_platform fields) (cf_policy fields)) ;;
  issued ← _issue_token "ec_";
  id ← uuid4;
  digest ← lift_res (campaign_token_digest issued.2 pepper);
  cidrs ← lift_res (_normalized_cidrs (cf_allowed_cidrs fields));
  label ← lift_res (validate_campaign_display_text (cf_label fields) "label" 256);
  site ← lift_res (validate_campaign_display_text (cf_site fields) "site" 128);
  mret (issued.2, id, {|
    cam_campaign_identifier := issued.1; cam_token_digest := digest; cam_expires_at := Some expiry;
    cam_disabled_at := None; cam_max_uses := cf_max_uses fields; cam_use_count := 0; cam_allowed_cidrs := cidrs;
    cam_target_platform := cf_target_platform fields; cam_policy := cf_policy fields; cam_label := label;
    cam_site := site; cam_revoked_at := None |}).

(** Neither revoked nor disabled, and not expired at [now]. *)
Definition campaign_live (campaign : EnrollmentCampaign) (now : datetime) : bool :=
  is_none (cam_revoked_at campaign) && is_none (cam_disabled_at campaign)
  && match cam_expires_at campaign with Some e => is_aware e && dt_ltb now e | None => false end.

Definition campaign_request_matches (campaign : EnrollmentCampaign) (now : datetime) (source_address : ip_address)
    (platform : string) : bool :=
  campaign_live campaign now && bool_decide (platform = cam_target_platform campaign)
  && match mapM parse_network (cam_allowed_cidrs campaign) with
     | Some networks => existsb (in_network source_address) networks
     | None => false
     end.

Definition _campaign_allows (campaign : EnrollmentCampaign) (now : datetime) (source_address : ip_address)
    (platform : string) : bool :=
  (cam_use_count campaign <? cam_max_uses campaign) && campaign_request_matches campaign now source_address platform.

Definition use_campaign (c : EnrollmentCampaign) : EnrollmentCampaign := c <| cam_use_count := cam_use_count c + 1 |>.

(** [except ValueError as error: raise EnrollmentDenied] around a digest *)
Definition digest_or_denied (r : res string) : Tx string :=
  match r with
  | Exn e => raise (if is_value_error e then denied else e)
  | Ok d => mret d
  end.

(** ** Claims *)

Record ActorContext := { actor_kind : string; actor_identifier : option string; actor_request_id : string }.

Definition issue_install_claim (campaign_id : uuid) (campaign : EnrollmentCampaign)
    (pepper installation_session hardware_fingerprint : string) (expires_at : datetime) (now : option datetime)
    : Tx (string * uuid * EnrollmentClaim) :=
  at_time ← now_or now;
  issued_at ← lift_res (_aware_utc at_time "now");
  expiry ← lift_res (_aware_utc expires_at "claim expiry");
  raise_if (dt_leb expiry issued_at) (ValueError "claim expiry must be in the future") ;;
  raise_if (negb (campaign_live campaign issued_at && (cam_use_count campaign <? cam_max_uses campaign))) denied ;;
  campaign_expiry ← require (cam_expires_at campaign) (ValueError "campaign expiry must be timezone-aware");
  raise_if (negb (dt_leb expiry (as_utc campaign_expiry))) (ValueError "claim cannot outlive campaign") ;;
  canonical_fingerprint ← lift_res (normalize_hardware_fingerprint hardware_fingerprint);
  issued ← _issue_token "ic_";
  id ← uuid4;
  digest ← lift_res (claim_token_digest issued.2 pepper);
  session_digest ← lift_res (_digest installation_session pepper _INSTALL_SESSION_CONTEXT);
  fingerprint_digest ← lift_res (hardware_fingerprint_digest canonical_fingerprint pepper);
  mret (issued.2, id, {|
    clm_campaign_id := campaign_id; clm_enrollment_request_id := None; clm_claim_identifier := issued.1;
    clm_claim_digest := digest; clm_installation_session_digest := session_digest;
    clm_fingerprint_digest := fingerprint_digest; clm_expires_at := expiry; clm_device_id := None;
    clm_claimed_at := None |}).

Definition reserve_campaign_use (token pepper : string) (source_address : ip_address) (platform : string)
    (actor : ActorContext) (now : option datetime) : Tx (uuid * EnrollmentCampaign) :=
  at_time ← now_or now;
  checked_at ← lift_res (_aware_utc at_time "now");
  digest ← digest_or_denied (campaign_token_digest token pepper);
  found ← scalar (λ _ c, bool_decide (cam_token_digest c = digest));
  campaign ← require found denied;
  raise_if (negb (_campaign_allows campaign.2 checked_at source_address platform)) denied ;;
  update campaign.1 use_campaign ;;
  append_audit_event (actor_kind actor) (actor_identifier actor) "enrollment_campaign.use_reserved"
    "enrollment_campaign" (Some (uuid_str campaign.1)) (actor_request_id actor)
    [(KStr "platform", PStr platform); (KStr "source_address", PStr (address_text source_address))] (Some checked_at) ;;
  mret (campaign.1, use_campaign campaign.2).

Definition revoke_campaign (campaign_id : uuid) (admin request_id : string) (now : option datetime) : Tx unit :=
  at_time ← now_or now;
  revoked_at ← lift_res (_aware_utc at_time "now");
  found ← get campaign_id;
  campaign ← require found (EnrollmentDenied "Enrollment campaign not found");
  when (is_none (cam_revoked_at campaign)) (
    update campaign_id (λ c : EnrollmentCampaign, c <| cam_revoked_at := Some revoked_at |>) ;;
    append_audit_event "admin" (Some admin) "enrollment_campaign.revoked" "enrollment_campaign"
      (Some (uuid_str campaign_id)) request_id [] (Some revoked_at) ;;
    mret tt).

Definition consume_install_claim (token pepper installation_session hardware_fingerprint : string)
    (source_address : ip_address) (platform : string) (actor : ActorContext) (now : option datetime)
    : Tx (uuid * EnrollmentClaim) :=
  at_time ← now_or now;
  checked_at ← lift_res (_aware_utc at_time "now");
  digest ← digest_or_denied (claim_token_digest token pepper);
  found ← scalar (λ _ c, bool_decide (clm_claim_digest c = digest));
  claim ← require found denied;
  raise_if (is_some (clm_claimed_at claim.2) || negb (is_aware (clm_expires_at claim.2))
            || dt_leb (clm_expires_at claim.2) checked_at
            || negb (install_claim_bindings_match claim.2 pepper installation_session hardware_fingerprint)) denied ;;
  found ← get (clm_campaign_id claim.2);
  campaign ← require found denied;
  raise_if (negb (_campaign_allows campaign checked_at source_address platform)) denied ;;
  update claim.1 (λ c : EnrollmentClaim, c <| clm_claimed_at := Some checked_at |>) ;;
  update (clm_campaign_id claim.2) use_campaign ;;
  append_audit_event (actor_kind actor) (actor_identifier actor) "enrollment_claim.consumed" "enrollment_claim"
    (Some (uuid_str claim.1)) (actor_request_id actor) [] (Some checked_at) ;;
  mret (claim.1, claim.2 <| clm_claimed_at := Some checked_at |>).
End campaigns.

(** ** Enrollment requests (requests.py) *)

Definition _ALLOWED_TRANSITIONS (current : request_status) : list request_status :=
  match current with
  | e_created => [e_validating; e_denied; e_failed; e_cancelled; e_expired]
  | e_validating => [e_auto_approved; e_waiting_approval; e_review_required; e_denied; e_failed; e_expired]
  | e_auto_approved => [e_claim_issued; e_denied; e_expired; e_failed]
  | e_waiting_approval | e_review_required => [e_approved; e_denied; e_expired; e_cancelled]
  | e_approved => [e_claim_issued; e_denied; e_expired; e_failed]
  | e_claim_issued => [e_enrolling; e_denied; e_expired; e_failed]
  | e_enrolling => [e_device_registered; e_failed; e_expired]
  | e_device_registered => [e_waiting_wss; e_failed; e_expired]
  | e_waiting_wss => [e_completed; e_failed; e_expired]
  | _ => []
  end.

Definition request_status_text (s : request_status) : string :=
  match s with
  | e_created => "created" | e_validating => "validating" | e_auto_approved => "auto_approved"
  | e_waiting_approval => "waiting_approval" | e_review_required => "review_required" | e_approved => "approved"
  | e_claim_issued => "claim_issued" | e_enrolling => "enrolling" | e_device_registered => "device_registered"
  | e_waiting_wss => "waiting_wss" | e_completed => "completed" | e_denied => "denied" | e_expired => "expired"
  | e_failed => "failed" | e_cancelled => "cancelled"
  end.

Definition transition_request_status (current next_status : request_status) : res unit :=
  if in_set next_status (_ALLOWED_TRANSITIONS current) then Ok tt
  else Exn (RequestTransitionError ("invalid enrollment request transition: " +:+ request_status_text current
                                    +:+ " -> " +:+ request_status_text next_status)).

Definition _REQUEST_CAPABILITY_CONTEXT : string := "endpoint-enrollment-request-capability-v1" +:+ nul.
Definition _INSTALLATION_ID_CONTEXT : string := "endpoint-enrollment-request-installation-v1" +:+ nul.
Definition _REQUEST_FINGERPRINT_CONTEXT : string := "endpoint-enrollment-request-fingerprint-v1" +:+ nul.
Definition _REQUEST_LIFETIME : timedelta := hours 24.
Definition _REQUEST_RATE_LIMIT_WINDOW : timedelta := hours 1.
Definition _MAX_REQUESTS_PER_SOURCE : Z := 30.
Definition _MAX_REQUESTS_PER_INSTALLATION : Z := 3.
Definition _MAX_REQUESTS_PER_FINGERPRINT : Z := 3.

(** [CampaignSelection] *)
Record CampaignSelection := {
  sel_status : request_status;
  sel_campaign : option (uuid * EnrollmentCampaign);
  sel_reason : string;
  sel_policy_id : option string;
  sel_enrollment_mode : option string;
  sel_source_network_match : bool;
  sel_release_match : bool;
  sel_identity_conflict : bool
}.

Section requests.
Context `{Contracts} `{EnrollmentCrypto} `{IpText}.

Definition _binding_digest (value pepper context : string) : res string :=
  if bool_decide (value = "") || bool_decide (pepper = "")
  then Exn (ValueError "request binding and pepper must not be empty")
  else Ok (hex_bytes (hmac_sha256 pepper (context +:+ value))).

Definition request_capability_digest (capability pepper : string) : res string :=
  if bool_decide (capability = "") || bool_decide (pepper = "")
  then Exn (ValueError "request capability and pepper must not be empty")
  else Ok (hex_bytes (hmac_sha256 pepper (_REQUEST_CAPABILITY_CONTEXT +:+ capability))).

Definition request_capability_matches (capability expected_digest pepper : string) : bool :=
  match request_capability_digest capability pepper with
  | Ok actual => bool_decide (actual = expected_digest)
  | Exn _ => false
  end.

Definition request_bindings_match (request : EnrollmentRequest) (installation_id hardware_fingerprint pepper : string)
    : bool :=
  match _binding_digest installation_id pepper _INSTALLATION_ID_CONTEXT,
        _binding_digest hardware_fingerprint pepper _REQUEST_FINGERPRINT_CONTEXT with
  | Ok i, Ok f => bool_decide (i = req_installation_id_digest request) && bool_decide (f = req_fingerprint_digest request)
  | _, _ => false
  end.

Definition build_enrollment_request (installation_id hardware_fingerprint request_capability : string)
    (source_address : ip_address) (installer_release_id : string) (selection : CampaignSelection) (pepper : string)
    (now : datetime) : Tx (uuid * EnrollmentRequest) :=
  let created_at := as_utc now in
  id ← uuid4;
  installation ← lift_res (_binding_digest installation_id pepper _INSTALLATION_ID_CONTEXT);
  fingerprint ← lift_res (_binding_digest hardware_fingerprint pepper _REQUEST_FINGERPRINT_CONTEXT);
  capability ← lift_res (request_capability_digest request_capability pepper);
  mret (id, {|
    req_created_at := created_at; req_installation_id_digest := installation; req_fingerprint_digest := fingerprint;
    req_request_capability_digest := capability; req_platform := "windows";
    req_source_address := address_text source_address; req_installer_release_id := installer_release_id;
    req_selected_campaign_id := fst <$> sel_campaign selection; req_status := sel_status selection;
    req_decision_reason := Some (sel_reason selection);
    req_decided_at := if in_set (sel_status selection) [e_auto_approved; e_denied; e_review_required]
                      then Some created_at else None;
    req_decided_by := None; req_device_id := None; req_updated_at := created_at;
    req_expires_at := dt_add created_at _REQUEST_LIFETIME |}).

Definition selected_campaign_still_allows_request (request : EnrollmentRequest) (campaign_id : uuid)
    (campaign : EnrollmentCampaign) (now : datetime) : bool :=
  match parse_address (req_source_address request) with
  | None => false
  | Some source_address =>
      bool_decide (req_selected_campaign_id request = Some campaign_id)
      && match parse_windows_enrollment_policy (cam_policy campaign) with
         | Some policy => str_in (req_installer_release_id request) (allowed_installer_releases policy)
         | None => false
         end
      && (cam_use_count campaign <? cam_max_uses campaign)
      && campaign_request_matches campaign (as_utc now) source_address "windows"
  end.

(** The transitions: the record they leave. *)
Definition to_status (s : request_status) (now : datetime) (r : EnrollmentRequest) : EnrollmentRequest :=
  r <| req_status := s |> <| req_updated_at := as_utc now |>.
Definition decide_request (s : request_status) (reason : string) (now : datetime) (r : EnrollmentRequest) : EnrollmentRequest :=
  to_status s now r <| req_decision_reason := Some reason |> <| req_decided_at := Some (as_utc now) |>.

Definition approve_enrollment_request (request : EnrollmentRequest) (campaign_id : uuid) (campaign : EnrollmentCampaign)
    (now : datetime) : res EnrollmentRequest :=
  res_bind (transition_request_status (req_status request) e_approved) (λ _,
    if selected_campaign_still_allows_request request campaign_id campaign now
    then Ok (decide_request e_approved "MANUALLY_APPROVED" now request)
    else Exn (RequestTransitionError "selected campaign is no longer eligible")).

Definition deny_enrollment_request (request : EnrollmentRequest) (reason : string) (now : datetime)
    : res EnrollmentRequest :=
  res_bind (transition_request_status (req_status request) e_denied) (λ _,
    Ok (decide_request e_denied reason now request)).

Definition mark_request_claim_issued (request : EnrollmentRequest) (campaign_id : uuid) (campaign : EnrollmentCampaign)
    (now : datetime) : res EnrollmentRequest :=
  res_bind (transition_request_status (req_status request) e_claim_issued) (λ _,
    if selected_campaign_still_allows_request request campaign_id campaign now
    then Ok (to_status e_claim_issued now request)
    else Exn (RequestTransitionError "selected campaign is no longer eligible")).

Definition mark_request_enrolling (request : EnrollmentRequest) (now : datetime) : res EnrollmentRequest :=
  res_bind (transition_request_status (req_status request) e_enrolling) (λ _, Ok (to_status e_enrolling now request)).

Definition mark_request_device_registered (request : EnrollmentRequest) (device_id : uuid) (now : datetime)
    : res EnrollmentRequest :=
  res_bind (transition_request_status (req_status request) e_device_registered) (λ _,
    Ok (to_status e_device_registered now request <| req_device_id := Some device_id |>)).

(** [sum(test(record) for record in records)] *)
Definition count_records (test : EnrollmentRequest → bool) (l : list EnrollmentRequest) : Z :=
  Z.of_nat (length (List.filter test l)).

Definition enrollment_request_rate_limited (records : list EnrollmentRequest) (candidate : EnrollmentRequest)
    (now : datetime) : bool :=
  let cutoff := dt_add (as_utc now) (- _REQUEST_RATE_LIMIT_WINDOW) in
  let recent := List.filter (λ r, is_aware (req_created_at r) && dt_leb cutoff (req_created_at r)) records in
  (_MAX_REQUESTS_PER_SOURCE <=? count_records (λ r, bool_decide (req_source_address r = req_source_address candidate)) recent)
  || (_MAX_REQUESTS_PER_INSTALLATION
      <=? count_records (λ r, bool_decide (req_installation_id_digest r = req_installation_id_digest candidate)) recent)
  || (_MAX_REQUESTS_PER_FINGERPRINT
      <=? count_records (λ r, bool_decide (req_fingerprint_digest r = req_fingerprint_digest candidate)) recent).

(** The campaigns a request may use. *)
Definition eligible_campaign (source_address : ip_address) (installer_release_id : string) (now : datetime)
    (c : uuid * EnrollmentCampaign) : option (uuid * EnrollmentCampaign * WindowsEnrollmentPolicyV1) :=
  match parse_windows_enrollment_policy (cam_policy c.2) with
  | Some policy =>
      if str_in installer_release_id (allowed_installer_releases policy)
         && campaign_request_matches c.2 (as_utc now) source_address "windows"
         && (cam_use_count c.2 <? cam_max_uses c.2)
      then Some (c, policy) else None
  | None => None
  end.

Definition evaluate_campaign_selection (campaigns : list (uuid * EnrollmentCampaign)) (source_address : ip_address)
    (installer_release_id : string) (now : datetime) (blocking_identity_conflict : bool) : CampaignSelection :=
  let plain s c reason matched conflict :=
    {| sel_status := s; sel_campaign := c; sel_reason := reason; sel_policy_id := None; sel_enrollment_mode := None;
       sel_source_network_match := matched; sel_release_match := matched; sel_identity_conflict := conflict |} in
  match omap (eligible_campaign source_address installer_release_id now) campaigns with
  | [] => plain e_denied None "NO_MATCHING_CAMPAIGN" false false
  | [(campaign, policy)] =>
      let chosen s reason :=
        {| sel_status := s; sel_campaign := Some campaign; sel_reason := reason;
           sel_policy_id := Some (policy_id policy); sel_enrollment_mode := Some (enrollment_mode policy);
           sel_source_network_match := true; sel_release_match := true;
           sel_identity_conflict := blocking_identity_conflict |} in
      if blocking_identity_conflict then chosen e_review_required "DUPLICATE_IDENTITY"
      else if decide (enrollment_mode policy = "manual") then chosen e_waiting_approval "MANUAL_POLICY"
      else chosen e_auto_approved "AUTO_POLICY"
  | _ => plain e_review_required None "AMBIGUOUS_CAMPAIGN" true blocking_identity_conflict
  end.

Definition opt_pystr (o : option string) : pyval := from_option PStr PNone o.

(** The audit action of a decision; another status is a KeyError. *)
Definition decision_action (s : request_status) : res string :=
  match s with
  | e_auto_approved => Ok "enrollment_request.auto_approved"
  | e_waiting_approval => Ok "enrollment_request.waiting_approval"
  | e_review_required => Ok "enrollment_request.review_required"
  | e_denied => Ok "enrollment_request.denied"
  | s => Exn (KeyError (request_status_text s))
  end.

Definition persist_enrollment_request (id : uuid) (request : EnrollmentRequest) (selection : CampaignSelection)
    (request_id : string) (now : datetime) : Tx unit :=
  let campaign := opt_pystr (uuid_str <$> req_selected_campaign_id request) in
  insert id request ;;
  append_audit_event "installer" None "enrollment_request.created" "enrollment_request" (Some (uuid_str id)) request_id
    [(KStr "installer_release_id", PStr (req_installer_release_id request)); (KStr "platform", PStr (req_platform request));
     (KStr "selected_campaign_id", campaign); (KStr "source_address", PStr (req_source_address request));
     (KStr "status", PStr (request_status_text (req_status request)))] (Some now) ;;
  action ← lift_res (decision_action (sel_status selection));
  append_audit_event "installer" None action "enrollment_request" (Some (uuid_str id)) request_id
    [(KStr "identity_conflict", PBool (sel_identity_conflict selection));
     (KStr "installer_release_id", PStr (req_installer_release_id request));
     (KStr "mode", opt_pystr (sel_enrollment_mode selection)); (KStr "platform", PStr (req_platform request));
     (KStr "policy_id", opt_pystr (sel_policy_id selection)); (KStr "reason", PStr (sel_reason selection));
     (KStr "release_match", PBool (sel_release_match selection)); (KStr "selected_campaign_id", campaign);
     (KStr "source_network_match", PBool (sel_source_network_match selection))] (Some now) ;;
  mret tt.

(** ** Deliveries (delivery.py) *)

Definition _DELIVERY_RECEIPT_CONTEXT : string := "endpoint-enrollment-delivery-receipt-v1" +:+ nul.
Definition _OPAQUE_SECRET_LENGTH : nat := 43.

Definition urlsafe_character (c : Ascii.ascii) : bool :=
  is_upper c || is_lower c || is_digit c || in_set (code c) [45; 95].

(** [value.to_bytes(n, byteorder="big")] *)
Fixpoint big_endian (n : nat) (value : Z) : list Ascii.ascii :=
  match n with
  | O => []
  | S n => big_endian n (value / 256) ++ [Ascii.ascii_of_nat (Z.to_nat (value mod 256))]
  end.

Definition _length_prefixed (value : list Ascii.ascii) : res (list Ascii.ascii) :=
  if 2 ^ 32 - 1 <? Z.of_nat (length value) then Exn (ValueError "canonical enrollment field is too long")
  else Ok (big_endian 4 (Z.of_nat (length value)) ++ value).

(** The fields of the receipt of a delivery. *)
Definition receipt_fields (delivery_nonce device_identifier : string) (campaign_id : uuid) (claim_id : option uuid)
    (platform : string) (requested_at : datetime) : list (list Ascii.ascii) :=
  [chars delivery_nonce; chars device_identifier; big_endian 16 campaign_id;
   match claim_id with Some id => big_endian 16 id | None => [] end; chars platform;
   chars (iso_microseconds requested_at)].

Definition derive_enrollment_receipt (session_secret delivery_nonce device_identifier : string) (campaign_id : uuid)
    (claim_id : option uuid) (platform : string) (requested_at : datetime) : res string :=
  if bool_decide (session_secret = "") then Exn (ValueError "session secret must not be empty")
  else if negb (String.length delivery_nonce =? _OPAQUE_SECRET_LENGTH)%nat
          || negb (forallb urlsafe_character (chars delivery_nonce))
  then Exn (ValueError "delivery nonce must be 43 URL-safe characters")
  else if negb (is_aware requested_at) then Exn (ValueError "requested_at must be timezone-aware")
  else if negb (is_ascii_text device_identifier) || negb (is_ascii_text platform)
  then Exn (ValueError "canonical enrollment text must be ASCII")
  else
    res_bind (all_ok _length_prefixed (receipt_fields delivery_nonce device_identifier campaign_id claim_id platform requested_at))
      (λ fields, Ok (urlsafe_b64 (hmac_sha256 session_secret (_DELIVERY_RECEIPT_CONTEXT +:+ text (concat fields))))).

Definition envelope_order (a b : uuid * EnrollmentRetryEnvelope) : bool :=
  lex_leb (instant (rte_expires_at a.2), a.1) (instant (rte_expires_at b.2), b.1).

Definition cleanup_expired_retry_envelopes (request_id : string) (now : option datetime) (limit : Z) : Tx Z :=
  raise_if (negb ((1 <=? limit) && (limit <=? 100))) (ValueError "cleanup limit must be between 1 and 100") ;;
  cleaned_at ← aware_now now "now must be timezone-aware";
  raise_if (is_blank request_id) (ValueError "request_id must not be blank") ;;
  rows ← select (λ _ e, dt_leb (rte_expires_at e) (as_utc cleaned_at));
  let envelopes := take (Z.to_nat limit) (order_by envelope_order rows) in
  for_each envelopes (λ envelope,
    delete_row (R := EnrollmentRetryEnvelope) envelope.1 ;;
    append_audit_event "system" None "enrollment.delivery_expired" "enrollment_retry_envelope"
      (Some (uuid_str envelope.1)) request_id [(KStr "source", PStr "periodic_cleanup")] (Some (as_utc cleaned_at)) ;;
    mret tt) ;;
  mret (Z.of_nat (length envelopes)).
End requests.
