(* ===== verification/EnrollmentRoutes.v ===== *)
(** * The enrollment routes

    The handlers of endpoint_server/enrollment/agent_routes.py,
    request_routes.py, admin_routes.py, admin_request_routes.py,
    provisioning_routes.py and verification_routes.py, each with its session,
    its commits and its error mapping.  The bodies are those that passed the
    contracts; the validation of the answers is kept where it can fail. *)

From S2P Require Import Prelude Store Session AuditLog Contracts Calendar Credentials Identity Enrollment.

Definition _INSTALL_CLAIM_LIFETIME : timedelta := minutes 15.
Definition _PRESENCE_TTL : timedelta := seconds 90.

(** ** Answers *)

Definition _denied : exn := HTTPException 403 "Enrollment denied".
Definition _delivery_unavailable : exn := HTTPException 403 "Enrollment delivery unavailable".
Definition _invalid_device_credential : exn := HTTPException 401 "Invalid device credential".
Definition delivery_denied : exn := EnrollmentDenied "Enrollment delivery unavailable".
Definition request_not_found : exn := HTTPException 404 "Enrollment request not found".
Definition campaign_not_found : exn := HTTPException 404 "Enrollment campaign not found".

(** A test of an exception; [catch] is [except] for the exceptions it accepts. *)
Definition is_denied (e : exn) : bool := match e with EnrollmentDenied _ => true | _ => false end.
Definition is_http (e : exn) : bool := match e with HTTPException _ _ => true | _ => false end.

Definition catch {A} (body : Tx A) (handles : exn → bool) (handler : exn → Tx A) : Tx A :=
  try_except body (λ e, if handles e then Some (handler e) else None).

(** ** Bodies and answers *)

Record AgentEnrollmentRequestV1 := {
  aer_platform : string;
  aer_hardware_fingerprint : string;
  aer_installation_id : string;
  aer_delivery_nonce : string;
  aer_requested_at : datetime
}.

(** With the status code of the answer. *)
Record AgentEnrollmentDeliveryV1 := {
  aed_status_code : Z;
  aed_device_id : uuid;
  aed_policy_id : string;
  aed_policy : list (string * json);
  aed_enrollment_receipt : string;
  aed_device_token : string;
  aed_issued_at : datetime
}.

Record EnrollmentDeliveryProofV1 := { edp_enrollment_receipt : string; edp_hardware_fingerprint : string }.

Record DeviceCredentialRotationV1 := { dcr_device_token : string; dcr_overlap_expires_at : option datetime }.

Record PreEnrollmentRequestCreateV1 := {
  perc_installation_id : string;
  perc_hardware_fingerprint : string;
  perc_request_capability : string;
  perc_installer_release_id : string
}.

Record PreEnrollmentRequestStatusV1 := {
  pers_request_id : uuid;
  pers_status : request_status;
  pers_reason : option string;
  pers_expires_at : datetime
}.

(** The statuses of the contract. *)
Definition public_status (s : request_status) : bool := negb (in_set s [e_created; e_validating; e_enrolling]).

Definition status_answer (id : uuid) (s : request_status) (reason : option string) (expires_at : datetime)
    : Tx PreEnrollmentRequestStatusV1 :=
  raise_if (negb (public_status s)) (ValidationError "PreEnrollmentRequestStatusV1") ;;
  mret {| pers_request_id := id; pers_status := s; pers_reason := reason; pers_expires_at := expires_at |}.

Record EnrollmentRequestClaimProof := {
  ercp_request_capability : string;
  ercp_installation_id : string;
  ercp_hardware_fingerprint : string
}.

Record EnrollmentRequestClaimResponse := { ercr_claim : string; ercr_expires_at : datetime }.

Section routes.
Context `{Contracts} `{EnrollmentCrypto} `{IpText} (settings : Settings).

(** [audit_request_id] (audit/request_ids.py) *)
Definition audit_request_id (request : HttpRequest) : Tx string :=
  match x_request_id request with
  | None => id ← uuid4; mret ("server_" +:+ uuid_hex id)
  | Some supplied =>
      mret ("external_" +:+ hex_bytes (hmac_sha256 (session_secret settings)
                                         ("endpoint-audit-request-id-v1" +:+ nul +:+ supplied)))
  end.

(** [authorization.partition(" ")] *)
Fixpoint partition_space (l : list Ascii.ascii) : list Ascii.ascii * option (list Ascii.ascii) :=
  match l with
  | [] => ([], None)
  | c :: l => if code c =? 32 then ([], Some l) else let '(a, b) := partition_space l in (c :: a, b)
  end.

Definition _bearer_token (request : HttpRequest) (denial : exn) : Tx string :=
  let '(scheme, rest) := partition_space (chars (default "" (authorization request))) in
  match rest with
  | Some token =>
      raise_if (negb (bool_decide (map lower scheme = chars "bearer")) || bool_decide (token = [])
                || negb (bool_decide (text token = strip_text (text token))) || existsb (λ c, code c =? 32) token)
        denial ;;
      mret (text token)
  | None => raise denial
  end.

Definition _observed_source_address (request : HttpRequest) : Tx ip_address :=
  match observed_client_address (trusted_proxy_cidrs settings) request with
  | Exn e => raise (if is_value_error e then _denied else e)
  | Ok source =>
      raise_if (negb (existsb (in_network source) (allowed_agent_cidrs settings))) _denied ;;
      mret source
  end.

Definition _device_identifier (installation_id hardware_fingerprint : string) : string :=
  "dev_" +:+ hex_bytes (hmac_sha256 (device_token_pepper settings)
    ("endpoint-device-identity-v1" +:+ nul +:+ installation_id +:+ nul +:+ hardware_fingerprint)).

Definition _policy_id (policy : list (string * json)) (campaign_identifier : string) : string :=
  match assoc "policy_id" policy with
  | Some (JStr candidate) =>
      if negb (bool_decide (candidate = "")) && bool_decide (candidate = strip_text candidate)
         && (Z.of_nat (String.length candidate) <=? 256) && forallb is_printable (chars candidate)
      then candidate else campaign_identifier
  | _ => campaign_identifier
  end.

Definition _validated_delivery_policy (campaign : EnrollmentCampaign) : Tx (list (string * json)) :=
  match validate_bounded_json (JObj (cam_policy campaign)) with
  | Ok _ => mret (cam_policy campaign)
  | Exn _ => raise denied
  end.

(** ** The authority of an enrollment *)

Definition _load_enrollment_authority (token : string)
    : Tx ((uuid * EnrollmentCampaign) * option (uuid * EnrollmentClaim)) :=
  if startswith "ec_" token then
    digest ← digest_or_denied (campaign_token_digest token (device_token_pepper settings));
    found ← scalar (λ _ c, bool_decide (cam_token_digest c = digest));
    campaign ← require found denied;
    mret (campaign, None)
  else if startswith "ic_" token then
    digest ← digest_or_denied (claim_token_digest token (device_token_pepper settings));
    found ← scalar (λ _ c, bool_decide (clm_claim_digest c = digest));
    claim ← require found denied;
    found ← get (clm_campaign_id claim.2);
    campaign ← require found denied;
    mret ((clm_campaign_id claim.2, campaign), Some claim)
  else raise denied.

Definition _load_existing_device (device_identifier : string) : Tx (option (uuid * Device)) :=
  scalar (λ _ d, bool_decide (dev_device_identifier d = device_identifier)).

(** The event of the enrollment of a device. *)
Definition enrolled_event (device_id : uuid) (_ : uuid) (e : EnrollmentEvent) : bool :=
  bool_decide (eev_remote_identifier e = Some (uuid_str device_id)) && bool_decide (eev_event_kind e = "device_enrolled").

Definition _existing_enrollment_matches (device_id campaign_id : uuid) (claim_id : option uuid) : Tx bool :=
  event ← scalar (enrolled_event device_id);
  mret match event with
       | Some (_, e) => bool_decide (eev_campaign_id e = Some campaign_id) && bool_decide (eev_claim_id e = claim_id)
       | None => false
       end.

Definition _campaign_allows_delivery (campaign : EnrollmentCampaign) (now : datetime) : bool := campaign_live campaign now.

Definition _claim_allows_enrollment (claim : option (uuid * EnrollmentClaim)) (now : datetime) : bool :=
  match claim with
  | None => true
  | Some (_, c) => is_aware (clm_expires_at c) && dt_ltb now (clm_expires_at c)
  end.

(** ** Deliveries *)

Definition retry_envelope (e : EnrollmentRetryEnvelope) : RetryEnvelope :=
  {| ret_receipt_digest := rte_receipt_digest e; ret_fingerprint_digest := rte_fingerprint_digest e;
     ret_encrypted_token := rte_encrypted_token e; ret_encryption_nonce := rte_encryption_nonce e;
     ret_expires_at := rte_expires_at e |}.

Definition _raise_if_delivery_expired (envelope : uuid * EnrollmentRetryEnvelope) (observed_at : datetime) : Tx unit :=
  raise_if (negb (is_aware (rte_expires_at envelope.2)) || dt_leb (rte_expires_at envelope.2) observed_at)
    (ExpiredEnrollmentDelivery envelope.1 (instant observed_at)).

Record loaded_delivery := {
  ld_envelope : uuid * EnrollmentRetryEnvelope;
  ld_device : uuid * Device;
  ld_campaign : uuid * EnrollmentCampaign;
  ld_event : EnrollmentEvent;
  ld_token : string
}.

Definition _load_delivery (receipt hardware_fingerprint : string) : Tx loaded_delivery :=
  let pepper := device_token_pepper settings in
  digest ← match retry_receipt_digest receipt pepper with Ok d => mret d | Exn _ => raise delivery_denied end;
  found ← scalar (λ _ e, bool_decide (rte_receipt_digest e = digest));
  envelope ← require found delivery_denied;
  raise_if (negb (retry_envelope_proof_matches receipt hardware_fingerprint (retry_envelope envelope.2) pepper))
    delivery_denied ;;
  checked_at ← utcnow;
  _raise_if_delivery_expired envelope checked_at ;;
  found ← get (rte_device_credential_id envelope.2);
  checked_at ← utcnow;
  _raise_if_delivery_expired envelope checked_at ;;
  credential ← require found delivery_denied;
  raise_if (is_some (crd_pending_token_digest credential)) delivery_denied ;;
  token ← require (recover_retry_token receipt hardware_fingerprint (retry_envelope envelope.2) pepper
                     (session_secret settings) checked_at) delivery_denied;
  raise_if (negb (device_token_matches token (crd_token_digest credential) pepper)
            || negb (device_credential_accepts_token credential token pepper checked_at)) delivery_denied ;;
  let device_id := crd_device_id credential in
  found ← get device_id;
  device ← require found delivery_denied;
  found ← scalar (enrolled_event device_id);
  event ← require found delivery_denied;
  campaign_id ← require (eev_campaign_id event.2) delivery_denied;
  found ← get campaign_id;
  checked_at ← utcnow;
  _raise_if_delivery_expired envelope checked_at ;;
  raise_if (is_some (dev_retired_at device)
            || negb (device_credential_accepts_token credential token pepper checked_at)) delivery_denied ;;
  campaign ← require found delivery_denied;
  raise_if (negb (bool_decide (eev_remote_identifier event.2 = Some (uuid_str device_id)))
            || negb (_campaign_allows_delivery campaign checked_at)) delivery_denied ;;
  _validated_delivery_policy campaign ;;
  mret {| ld_envelope := envelope; ld_device := (device_id, device); ld_campaign := (campaign_id, campaign);
          ld_event := event.2; ld_token := token |}.

Definition _destroy_observed_expired_delivery (envelope_id : uuid) (request : HttpRequest) (source_address : ip_address)
    (source : string) (occurred_at : datetime) : Tx unit :=
  delete_row (R := EnrollmentRetryEnvelope) envelope_id ;;
  request_id ← audit_request_id request;
  append_audit_event "agent" None "enrollment.delivery_expired" "enrollment_retry_envelope" (Some (uuid_str envelope_id))
    request_id [(KStr "source", PStr source); (KStr "source_address", PStr (address_text source_address))]
    (Some occurred_at) ;;
  commit.

(** [except ExpiredEnrollmentDelivery: destroy ...; raise] and
    [except EnrollmentDenied: raise], around the use of a delivery *)
Definition expired_or_denied {A} (body : Tx A) (request : HttpRequest) (source_address : ip_address) (source : string)
    (on_denied : Tx unit) : Tx A :=
  try_except body (λ e,
    match e with
    | ExpiredEnrollmentDelivery envelope_id observed_at =>
        Some (_destroy_observed_expired_delivery envelope_id request source_address source (utc_datetime observed_at) ;;
              raise _delivery_unavailable)
    | EnrollmentDenied _ => Some (on_denied ;; raise _delivery_unavailable)
    | _ => None
    end).

Definition delivered_answer (status_code : Z) (d : loaded_delivery) (receipt : string) : AgentEnrollmentDeliveryV1 :=
  {| aed_status_code := status_code; aed_device_id := (ld_device d).1;
     aed_policy_id := _policy_id (cam_policy (ld_campaign d).2) (cam_campaign_identifier (ld_campaign d).2);
     aed_policy := cam_policy (ld_campaign d).2; aed_enrollment_receipt := receipt; aed_device_token := ld_token d;
     aed_issued_at := dt_add (rte_expires_at (ld_envelope d).2) (- DEFAULT_RETRY_ENVELOPE_LIFETIME) |}.

(** ** POST /agent/v1/enroll *)

(** The branch of a device that is enrolled: the delivery is repeated. *)
Definition enroll_existing (body : AgentEnrollmentRequestV1) (request : HttpRequest) (source_address : ip_address)
    (device : uuid * Device) (campaign : uuid * EnrollmentCampaign) (claim : option (uuid * EnrollmentClaim))
    (receipt : string) : Tx AgentEnrollmentDeliveryV1 :=
  let bindings_match :=
    match claim with
    | None => true
    | Some (_, c) => bool_decide (clm_device_id c = Some device.1)
                     && install_claim_bindings_match c (device_token_pepper settings) (aer_installation_id body)
                          (aer_hardware_fingerprint body)
    end in
  known ← (if bindings_match then _existing_enrollment_matches device.1 campaign.1 (fst <$> claim) else mret false);
  raise_if (negb known) denied ;;
  d ← expired_or_denied (_load_delivery receipt (aer_hardware_fingerprint body)) request source_address
        "observed_enroll_retry" (mret tt);
  raise_if (negb ((ld_device d).1 =? device.1) || negb ((ld_campaign d).1 =? campaign.1)
            || negb (bool_decide (eev_claim_id (ld_event d) = fst <$> claim))) _delivery_unavailable ;;
  mret (delivered_answer 200 d receipt).

(** The request that a claim belongs to, entering its enrollment. *)
Definition enter_enrolling (claim : option (uuid * EnrollmentClaim)) (campaign_id : uuid) (now : datetime)
    : Tx (option (uuid * EnrollmentRequest)) :=
  match claim ≫= (λ c, clm_enrollment_request_id c.2) with
  | None => mret None
  | Some id =>
      found ← get id;
      request ← require found denied;
      raise_if (negb (bool_decide (req_selected_campaign_id request = Some campaign_id))) denied ;;
      request' ← lift_res (mark_request_enrolling request now);
      update id (λ _ : EnrollmentRequest, request') ;;
      mret (Some (id, request'))
  end.

(** The branch of a new device, up to its commit. *)
Definition enroll_new (body : AgentEnrollmentRequestV1) (token request_id : string) (source_address : ip_address)
    (device_identifier : string) (campaign : uuid * EnrollmentCampaign) (claim : option (uuid * EnrollmentClaim))
    (policy : list (string * json)) (receipt : string) (issued_at : datetime) : Tx AgentEnrollmentDeliveryV1 :=
  let pepper := device_token_pepper settings in
  let actor := {| actor_kind := "agent"; actor_identifier := None; actor_request_id := request_id |} in
  authority ← match claim with
              | None =>
                  c ← reserve_campaign_use token pepper source_address (aer_platform body) actor (Some issued_at);
                  mret (c, None)
              | Some _ =>
                  c ← consume_install_claim token pepper (aer_installation_id body) (aer_hardware_fingerprint body)
                        source_address (aer_platform body) actor (Some issued_at);
                  mret (campaign, Some c)
              end;
  let campaign := authority.1 in
  let claim := authority.2 in
  enrollment_request ← enter_enrolling claim campaign.1 issued_at;
  device_id ← uuid4;
  raw_device_token ← generate_device_token;
  credential_id ← uuid4;
  credential_identifier ← token_bytes 16;
  digest ← lift_res (device_token_digest raw_device_token pepper);
  issued ← seal_retry_envelope raw_device_token (aer_hardware_fingerprint body) pepper (session_secret settings)
             (Some receipt) (Some issued_at) DEFAULT_RETRY_ENVELOPE_LIFETIME;
  envelope_id ← uuid4;
  event_id ← uuid4;
  when (is_some claim) (
    update (from_option fst 0 claim) (λ c : EnrollmentClaim, c <| clm_device_id := Some device_id |>)) ;;
  match enrollment_request with
  | Some (id, r) =>
      r' ← lift_res (mark_request_device_registered r device_id issued_at);
      update id (λ _ : EnrollmentRequest, r')
  | None => mret tt
  end ;;
  insert device_id {| dev_device_identifier := device_identifier; dev_display_name := cam_label campaign.2;
                      dev_retired_at := None |} ;;
  insert credential_id {|
    crd_device_id := device_id; crd_credential_identifier := hex_bytes credential_identifier; crd_token_digest := digest;
    crd_pending_token_digest := None; crd_rotation_overlap_expires_at := None; crd_expires_at := None;
    crd_revoked_at := None |} ;;
  insert envelope_id {|
    rte_device_credential_id := credential_id; rte_receipt_digest := iss_receipt_digest issued;
    rte_fingerprint_digest := iss_fingerprint_digest issued; rte_encrypted_token := iss_encrypted_token issued;
    rte_encryption_nonce := iss_encryption_nonce issued; rte_expires_at := iss_expires_at issued |} ;;
  insert event_id {|
    eev_campaign_id := Some campaign.1; eev_claim_id := fst <$> claim; eev_event_kind := "device_enrolled";
    eev_remote_identifier := Some (uuid_str device_id) |} ;;
  append_audit_event "agent" (Some (uuid_str device_id)) "device.enrolled" "device" (Some (uuid_str device_id)) request_id
    [(KStr "campaign_id", PStr (uuid_str campaign.1)); (KStr "platform", PStr (aer_platform body));
     (KStr "source_address", PStr (address_text source_address))] (Some issued_at) ;;
  when (is_some enrollment_request) (
    append_audit_event "agent" (Some (uuid_str device_id)) "enrollment_request.device_registered" "enrollment_request"
      (Some (uuid_str (from_option fst 0 enrollment_request))) request_id
      [(KStr "campaign_id", PStr (uuid_str campaign.1)); (KStr "status", PStr (request_status_text e_device_registered))]
      (Some issued_at) ;;
    mret tt) ;;
  commit ;;
  mret {| aed_status_code := 201; aed_device_id := device_id;
          aed_policy_id := _policy_id policy (cam_campaign_identifier campaign.2); aed_policy := policy;
          aed_enrollment_receipt := iss_receipt issued; aed_device_token := raw_device_token; aed_issued_at := issued_at |}.

Definition enroll_agent (body : AgentEnrollmentRequestV1) (request : HttpRequest) : Tx AgentEnrollmentDeliveryV1 :=
  token ← _bearer_token request _denied;
  source_address ← _observed_source_address request;
  request_id ← audit_request_id request;
  in_session (try_except
    (authority ← _load_enrollment_authority token;
     let campaign := authority.1 in
     let claim := authority.2 in
     issued_at ← utcnow;
     raise_if (negb (campaign_request_matches campaign.2 issued_at source_address (aer_platform body))) denied ;;
     policy ← _validated_delivery_policy campaign.2;
     let device_identifier := _device_identifier (aer_installation_id body) (aer_hardware_fingerprint body) in
     receipt ← lift_res (derive_enrollment_receipt (session_secret settings) (aer_delivery_nonce body) device_identifier
                           campaign.1 (fst <$> claim) (aer_platform body) (aer_requested_at body));
     existing ← _load_existing_device device_identifier;
     issued_at ← utcnow;
     raise_if (negb (campaign_request_matches campaign.2 issued_at source_address (aer_platform body))
               || negb (_claim_allows_enrollment claim issued_at)) denied ;;
     match existing with
     | Some device => enroll_existing body request source_address device campaign claim receipt
     | None => enroll_new body token request_id source_address device_identifier campaign claim policy receipt issued_at
     end)
    (λ e, Some (rollback ;; raise (if is_denied e then _denied else e)))).

(** ** POST /agent/v1/enroll/retry and /agent/v1/enroll/ack *)

Definition retry_enrollment_delivery (body : EnrollmentDeliveryProofV1) (request : HttpRequest)
    : Tx AgentEnrollmentDeliveryV1 :=
  source_address ← _observed_source_address request;
  d ← in_session (expired_or_denied (_load_delivery (edp_enrollment_receipt body) (edp_hardware_fingerprint body))
                    request source_address "observed_retry" (mret tt));
  mret (delivered_answer 200 d (edp_enrollment_receipt body)).

Definition acknowledge_enrollment_delivery (body : EnrollmentDeliveryProofV1) (request : HttpRequest) : Tx unit :=
  source_address ← _observed_source_address request;
  in_session (rollback_on_error (expired_or_denied
    (d ← _load_delivery (edp_enrollment_receipt body) (edp_hardware_fingerprint body);
     now ← utcnow;
     delete_row (R := EnrollmentRetryEnvelope) (ld_envelope d).1 ;;
     request_id ← audit_request_id request;
     append_audit_event "agent" (Some (uuid_str (ld_device d).1)) "enrollment.delivery_acknowledged" "device"
       (Some (uuid_str (ld_device d).1)) request_id [(KStr "source_address", PStr (address_text source_address))]
       (Some now) ;;
     commit) request source_address "observed_ack" rollback)).

(** ** POST /agent/v1/credentials/rotate and /agent/v1/credentials/activate *)

(** The digest of a bearer token; a ValueError denies it. *)
Definition bearer_digest (token : string) : Tx string :=
  match device_token_digest token (device_token_pepper settings) with
  | Ok d => mret d
  | Exn _ => raise _invalid_device_credential
  end.

Definition rotate_device_credential (request : HttpRequest) : Tx DeviceCredentialRotationV1 :=
  let pepper := device_token_pepper settings in
  _observed_source_address request ;;
  token ← _bearer_token request _invalid_device_credential;
  digest ← bearer_digest token;
  in_session (
    found ← scalar (λ _ c, bool_decide (crd_token_digest c = digest));
    now ← utcnow;
    credential ← require found _invalid_device_credential;
    raise_if (negb (device_token_matches token (crd_token_digest credential.2) pepper)
              || negb (device_credential_accepts_token credential.2 token pepper now)) _invalid_device_credential ;;
    issued ← catch (begin_device_credential_rotation credential.2 pepper (Some now) DEFAULT_ROTATION_OVERLAP)
               is_value_error
               (λ _, raise (if is_some (crd_pending_token_digest credential.2)
                            then HTTPException 409 "Credential rotation already pending"
                            else _invalid_device_credential));
    rollback_on_error (
      update credential.1 (λ _ : DeviceCredential, issued.2) ;;
      request_id ← audit_request_id request;
      append_audit_event "agent" (Some (uuid_str (crd_device_id credential.2))) "device_credential.rotation_started"
        "device_credential" (Some (uuid_str credential.1)) request_id
        [(KStr "overlap_expires_at", from_option (λ t, PTime (isoformat t)) PNone (crd_rotation_overlap_expires_at issued.2))]
        (Some now) ;;
      commit) ;;
    mret {| dcr_device_token := issued.1; dcr_overlap_expires_at := crd_rotation_overlap_expires_at issued.2 |}).

Definition activate_device_credential (request : HttpRequest) : Tx unit :=
  let pepper := device_token_pepper settings in
  _observed_source_address request ;;
  token ← _bearer_token request _invalid_device_credential;
  digest ← bearer_digest token;
  in_session (
    found ← scalar (λ _ c, bool_decide (crd_pending_token_digest c = Some digest));
    now ← utcnow;
    credential ← require found _invalid_device_credential;
    pending ← require (crd_pending_token_digest credential.2) _invalid_device_credential;
    raise_if (negb (device_token_matches token pending pepper)) _invalid_device_credential ;;
    activated ← require (activate_pending_device_credential credential.2 token pepper now) _invalid_device_credential;
    rollback_on_error (
      update credential.1 (λ _ : DeviceCredential, activated) ;;
      request_id ← audit_request_id request;
      append_audit_event "agent" (Some (uuid_str (crd_device_id credential.2))) "device_credential.rotation_activated"
        "device_credential" (Some (uuid_str credential.1)) request_id [] (Some now) ;;
      commit)).

(** ** Campaign administration (admin_routes.py) *)

Definition invalid_campaign : exn := HTTPException 422 "Invalid enrollment campaign".

(** The id, the identifier and the token. *)
Definition create_campaign (fields : CampaignFields) (admin : uuid) (request : HttpRequest) : Tx (uuid * string * string) :=
  issued ← catch (issue_campaign (device_token_pepper settings) fields None) is_value_error (λ _, raise invalid_campaign);
  let '(token, id, record) := issued in
  in_session (
    insert id record ;;
    rollback_on_error (
      request_id ← audit_request_id request;
      append_audit_event "admin" (Some (uuid_str admin)) "enrollment_campaign.created" "enrollment_campaign"
        (Some (uuid_str id)) request_id
        [(KStr "allowed_cidrs", PList (map PStr (cam_allowed_cidrs record)));
         (KStr "expires_at", from_option (λ t, PTime (isoformat t)) PNone (cam_expires_at record));
         (KStr "label", opt_pystr (cam_label record)); (KStr "max_uses", PInt (cam_max_uses record));
         (KStr "site", opt_pystr (cam_site record)); (KStr "target_platform", PStr (cam_target_platform record))] None ;;
      commit) ;;
    mret (id, cam_campaign_identifier record, token)).

(** [CampaignUpdateRequest]; [None] of a field is one that is null or not set, and
    the two labels tell these apart. *)
Record CampaignUpdateRequest := {
  cu_expires_at : option datetime;
  cu_max_uses : option Z;
  cu_allowed_cidrs : option (list string);
  cu_policy : option (list (string * json));
  cu_label : option (option string);
  cu_site : option (option string);
  cu_fields_set : list string
}.

(** The record with the changes of a request, after its checks.  An [expires_at]
    without a time zone cannot be compared with [now]. *)
Definition changed_campaign (c : EnrollmentCampaign) (body : CampaignUpdateRequest) (now : datetime) : Tx EnrollmentCampaign :=
  let candidate_policy := default (cam_policy c) (cu_policy body) in
  lift_res (check_policy (cam_target_platform c) candidate_policy) ;;
  match cu_expires_at body with
  | Some e =>
      raise_if (negb (is_aware e)) (TypeError "can't compare offset-naive and offset-aware datetimes") ;;
      raise_if (dt_leb e now) (ValueError "campaign expiry must be in the future")
  | None => mret tt
  end ;;
  match cu_max_uses body with
  | Some n => raise_if (n <? cam_use_count c) (ValueError "campaign max uses cannot be below use count")
  | None => mret tt
  end ;;
  let c := c <| cam_policy := candidate_policy |> <| cam_expires_at := or_else (cu_expires_at body) (cam_expires_at c) |>
             <| cam_max_uses := default (cam_max_uses c) (cu_max_uses body) |> in
  c ← match cu_allowed_cidrs body with
      | Some cidrs =>
          (* None has no tzinfo *)
          expires_at ← require (cam_expires_at c) (AttributeError "tzinfo");
          validated ← issue_campaign (device_token_pepper settings)
            {| cf_expires_at := expires_at; cf_max_uses := cam_max_uses c; cf_allowed_cidrs := cidrs;
               cf_target_platform := cam_target_platform c; cf_policy := candidate_policy; cf_label := cam_label c;
               cf_site := cam_site c |} (Some now);
          mret (c <| cam_allowed_cidrs := cam_allowed_cidrs validated.2 |>)
      | None => mret c
      end;
  label ← match cu_label body with
          | Some l => lift_res (validate_campaign_display_text l "label" 256)
          | None => mret (cam_label c)
          end;
  site ← match cu_site body with
         | Some l => lift_res (validate_campaign_display_text l "site" 128)
         | None => mret (cam_site c)
         end;
  mret (c <| cam_label := label |> <| cam_site := site |>).

Definition update_campaign (campaign_id : uuid) (body : CampaignUpdateRequest) (admin : uuid) (request : HttpRequest)
    : Tx unit :=
  now ← utcnow;
  in_session (
    found ← get campaign_id;
    campaign ← require found campaign_not_found;
    changed ← catch (changed_campaign campaign body now) is_value_error (λ _, rollback ;; raise invalid_campaign);
    update campaign_id (λ _ : EnrollmentCampaign, changed) ;;
    rollback_on_error (
      request_id ← audit_request_id request;
      append_audit_event "admin" (Some (uuid_str admin)) "enrollment_campaign.updated" "enrollment_campaign"
        (Some (uuid_str campaign_id)) request_id
        [(KStr "changed_fields", PList (map PStr (order_by str_leb (cu_fields_set body))))] None ;;
      commit)).

Definition revoke_enrollment_campaign (campaign_id admin : uuid) (request : HttpRequest) : Tx unit :=
  in_session (try_except
    (request_id ← audit_request_id request;
     revoke_campaign campaign_id (uuid_str admin) request_id None ;;
     commit)
    (λ e, Some (rollback ;; raise (if is_denied e then campaign_not_found else e)))).
End routes.
