(* ===== verification/ServiceTokens.v ===== *)
(** * Service credentials (endpoint_server/auth/service_tokens.py, scopes.py)

    Bearer tokens of service clients: a public prefix by which the row is found,
    32 secret bytes whose HMAC the row keeps, and the literal scopes a request
    needs.  With them the strict base64 decoder of the standard library. *)

From S2P Require Import Prelude Store Session AuditLog Contracts Semver Calendar Credentials Identity Enrollment EnrollmentRoutes.

(** ** [base64.b64decode(value, altchars=b"-_", validate=True)]

    The alternative digits are translated to [+] and [/], which stay digits
    themselves.  A last group of two or three digits needs its padding, and
    nothing may follow it; [None] is the ValueError.  (CPython 3.12 also lets
    padding follow a complete group, which changes no result that a caller here
    keeps: their 32 bytes end in an incomplete group.) *)

Definition b64_value (c : Ascii.ascii) : option Z :=
  if is_upper c then Some (code c - 65) else if is_lower c then Some (code c - 71)
  else if is_digit c then Some (code c + 4)
  else if in_set (code c) [43; 45] then Some 62 else if in_set (code c) [47; 95] then Some 63 else None.

Definition byte (n : Z) : Ascii.ascii := Ascii.ascii_of_nat (Z.to_nat n).
Definition is_pad (c : Ascii.ascii) : bool := code c =? 61.

Fixpoint b64_bytes (l : list Ascii.ascii) : option (list Ascii.ascii) :=
  match l with
  | [] => Some []
  | a :: b :: c :: d :: rest =>
      x ← b64_value a; y ← b64_value b;
      let first := byte (x * 4 + y / 16) in
      if is_pad c then if is_pad d && bool_decide (rest = []) then Some [first] else None
      else
        z ← b64_value c;
        let second := byte (y mod 16 * 16 + z / 4) in
        if is_pad d then if bool_decide (rest = []) then Some [first; second] else None
        else
          v ← b64_value d; bytes ← b64_bytes rest;
          Some (first :: second :: byte (z mod 4 * 64 + v) :: bytes)
  | _ => None
  end.

(** [value + "=" * (-len(value) % 4)] *)
Definition pad_b64 (l : list Ascii.ascii) : list Ascii.ascii :=
  l ++ replicate (Z.to_nat (- Z.of_nat (length l) mod 4)) (byte 61).

Definition b64decode_padded (value : string) : option string := text <$> b64_bytes (pad_b64 (chars value)).

Example b64decode_examples :
  b64decode_padded "YW55IGNhcm5hbA" = Some "any carnal" ∧ b64decode_padded "fn5-Pw" = Some "~~~?"
  ∧ b64decode_padded "fn5+Pw==" = Some "~~~?" ∧ b64decode_padded "fn5-P" = None ∧ b64decode_padded "fn5-Pw=A" = None.
Proof. done. Qed.

(** ** Scopes *)

(** [sorted(set(values))] *)
Definition sorted_set (l : list string) : list string := order_by str_leb (remove_dups l).

Definition has_length (low high : Z) (s : string) : bool :=
  (low <=? Z.of_nat (String.length s)) && (Z.of_nat (String.length s) <=? high).

(** The test of one service scope. *)
Definition service_scope_ok (scope : string) : bool :=
  has_length 1 128 scope && bool_decide (scope = strip_text scope) && is_ascii_text scope
  && forallb (λ c, negb (is_space c) && is_printable c) (chars scope).

Definition _normalize_scopes (scopes : list string) : res (list string) :=
  if negb (forallb service_scope_ok scopes)
  then Exn (ValueError "service scopes must be non-empty printable ASCII")
  else
    let unique_scopes := sorted_set scopes in
    if bool_decide (unique_scopes = []) then Exn (ValueError "at least one service scope is required")
    else Ok unique_scopes.

(** ** Tokens *)

Definition SERVICE_TOKEN_BYTES : nat := 32.
Definition _PUBLIC_IDENTIFIER_BYTES : nat := 16.
Definition _TOKEN_PREFIX_MARKER : string := "svc_".
Definition _ENCODED_SECRET_LENGTH : Z := 43.

Definition is_lower_hex (c : Ascii.ascii) : bool := is_digit c || between 97 102 c.
Definition is_urlsafe (c : Ascii.ascii) : bool := is_upper c || is_lower c || is_digit c || in_set (code c) [45; 95].

(** [len(value) == 32 and all(character in "0123456789abcdef" ...)] *)
Definition identifier_ok (value : string) : bool :=
  (Z.of_nat (String.length value) =? Z.of_nat (_PUBLIC_IDENTIFIER_BYTES * 2)) && forallb is_lower_hex (chars value).

Definition _validate_credential_identifier (value : string) : res string :=
  if identifier_ok value then Ok value
  else Exn (ValueError "service credential identifier must be lowercase hexadecimal").

(** [value.removeprefix(prefix)] *)
Definition removeprefix (prefix value : string) : string :=
  if startswith prefix value then text (drop (String.length prefix) (chars value)) else value.

Definition parse_service_token (token : string) : option string :=
  match split 46 (chars token) with
  | [prefix; encoded_secret] =>
      decoded_secret ← b64decode_padded (text encoded_secret);
      if startswith _TOKEN_PREFIX_MARKER (text prefix)
         && identifier_ok (removeprefix _TOKEN_PREFIX_MARKER (text prefix))
         && (Z.of_nat (length encoded_secret) =? _ENCODED_SECRET_LENGTH)
         && is_ascii_text (text encoded_secret) && forallb is_urlsafe encoded_secret
         && (String.length decoded_secret =? SERVICE_TOKEN_BYTES)%nat
      then Some (text prefix) else None
  | _ => None
  end.

Record IssuedServiceCredential := {
  isc_token : string;
  isc_id : uuid;
  isc_record : ServiceCredential
}.

Record ServiceCredentialSummary := {
  scs_id : uuid;
  scs_service_client_id : uuid;
  scs_credential_identifier : string;
  scs_token_prefix : string;
  scs_scopes : list string;
  scs_expires_at : option datetime;
  scs_revoked_at : option datetime
}.

Definition service_credential_summary (id : uuid) (record : ServiceCredential) : ServiceCredentialSummary :=
  {| scs_id := id; scs_service_client_id := svc_service_client_id record;
     scs_credential_identifier := svc_credential_identifier record; scs_token_prefix := svc_token_prefix record;
     scs_scopes := svc_scopes record; scs_expires_at := svc_expires_at record; scs_revoked_at := svc_revoked_at record |}.

Definition service_credential_is_active (record : ServiceCredential) (checked_at : datetime) : bool :=
  is_aware checked_at && is_none (svc_revoked_at record)
  && match svc_expires_at record with
     | None => true
     | Some expires_at => is_aware expires_at && dt_ltb checked_at expires_at
     end.

(** Revocation keeps the first moment. *)
Definition revoked_service_credential (at_time : datetime) (record : ServiceCredential) : ServiceCredential :=
  if is_none (svc_revoked_at record) then record <| svc_revoked_at := Some at_time |> else record.

Definition revoke_service_credential (id : uuid) (now : option datetime) : Tx unit :=
  revoked_at ← aware_now now "now must be timezone-aware";
  update id (revoked_service_credential revoked_at).

(** The checks on a credential's own expiry. *)
Definition check_credential_expiry (expires_at : option datetime) (issued_at : datetime) : res unit :=
  match expires_at with
  | None => Ok tt
  | Some e =>
      if negb (is_aware e) then Exn (ValueError "credential expiry must be timezone-aware")
      else if dt_leb e issued_at then Exn (ValueError "credential expiry must be in the future")
      else Ok tt
  end.

Section service_tokens.
Context `{EnrollmentCrypto}.

Definition service_token_digest (token service_token_pepper : string) : res string :=
  if bool_decide (token = "") || bool_decide (service_token_pepper = "")
  then Exn (ValueError "service token and pepper must not be empty")
  else if negb (is_ascii_text token) then Exn (ValueError "service token must be ASCII")
  else Ok (hex_bytes (hmac_sha256 service_token_pepper token)).

(** [secrets.token_hex(n)] *)
Definition token_hex (n : nat) : Tx string := b ← token_bytes n; mret (hex_bytes b).

(** [credential_identifier or secrets.token_hex(...)] *)
Definition identifier_or_random (credential_identifier : option string) : Tx string :=
  match credential_identifier with
  | Some value => if bool_decide (value = "") then token_hex _PUBLIC_IDENTIFIER_BYTES else mret value
  | None => token_hex _PUBLIC_IDENTIFIER_BYTES
  end.

Record CredentialRequest := {
  crq_actor_kind : string;
  crq_actor_identifier : option string;
  crq_request_id : string;
  crq_scopes : list string;
  crq_expires_at : option datetime;
  crq_credential_identifier : option string
}.

(** The token and the row, before it is added to the session. *)
Definition new_service_credential (service_client_id : uuid) (service_token_pepper : string)
    (request : CredentialRequest) (now : option datetime) : Tx IssuedServiceCredential :=
  issued_at ← aware_now now "now must be timezone-aware";
  lift_res (check_credential_expiry (crq_expires_at request) issued_at) ;;
  normalized_scopes ← lift_res (_normalize_scopes (crq_scopes request));
  raise_if (bool_decide (service_token_pepper = "")) (ValueError "service token pepper must not be empty") ;;
  identifier ← identifier_or_random (crq_credential_identifier request);
  credential_identifier ← lift_res (_validate_credential_identifier identifier);
  let token_prefix := _TOKEN_PREFIX_MARKER +:+ credential_identifier in
  secret ← token_bytes SERVICE_TOKEN_BYTES;
  let token := token_prefix +:+ "." +:+ urlsafe_b64 secret in
  id ← uuid4;
  digest ← lift_res (service_token_digest token service_token_pepper);
  mret {| isc_token := token; isc_id := id;
          isc_record := {|
            svc_service_client_id := service_client_id; svc_credential_identifier := credential_identifier;
            svc_token_prefix := token_prefix; svc_secret_digest := digest; svc_scopes := normalized_scopes;
            svc_expires_at := crq_expires_at request; svc_revoked_at := None |} |}.

Definition opt_pytime (t : option datetime) : pyval := from_option (λ t, PTime (isoformat t)) PNone t.

Definition create_service_credential (service_client_id : uuid) (service_token_pepper : string)
    (request : CredentialRequest) (now : option datetime) (do_commit : bool) : Tx IssuedServiceCredential :=
  issued ← new_service_credential service_client_id service_token_pepper request now;
  insert (isc_id issued) (isc_record issued) ;;
  let persist :=
    append_audit_event (crq_actor_kind request) (crq_actor_identifier request) "service_credential.created"
      "service_credential" (Some (uuid_str (isc_id issued))) (crq_request_id request)
      [(KStr "expires_at", opt_pytime (svc_expires_at (isc_record issued)));
       (KStr "scopes", PList (map PStr (svc_scopes (isc_record issued))))] None ;;
    when do_commit commit in
  (if do_commit then rollback_on_error persist else persist) ;;
  mret issued.

(** ** scopes.py *)

Record ServicePrincipal := {
  spr_client : uuid * ServiceClient;
  spr_credential : uuid * ServiceCredential
}.

Definition service_unauthorized : exn := HTTPException 401 "Invalid service credential".

Definition _load_service_principal (token service_token_pepper : string) : Tx (option ServicePrincipal) :=
  match parse_service_token token with
  | None => mret None
  | Some token_prefix =>
      found ← scalar (λ _ c, bool_decide (svc_token_prefix c = token_prefix));
      supplied_digest ← lift_res (service_token_digest token service_token_pepper);
      match found with
      | None => mret None
      | Some credential =>
          if negb (bool_decide (svc_secret_digest credential.2 = supplied_digest)) then mret None
          else
            now ← utcnow;
            if negb (service_credential_is_active credential.2 now) then mret None
            else
              found ← get (svc_service_client_id credential.2);
              match found with
              | None => mret None
              | Some client =>
                  mret (if is_some (cli_disabled_at client) then None
                        else Some {| spr_client := (svc_service_client_id credential.2, client);
                                     spr_credential := credential |})
              end
      end
  end.

(** [_bearer_token] of scopes.py: the scheme is case sensitive here. *)
Definition service_bearer_token (request : HttpRequest) : option string :=
  match partition_space (chars (default "" (authorization request))) with
  | (scheme, Some token) =>
      if negb (bool_decide (text scheme = "Bearer")) || bool_decide (token = []) || existsb (λ c, code c =? 32) token
      then None else Some (text token)
  | _ => None
  end.

Definition require_service_scope (settings : Settings) (scope : string) (request : HttpRequest) : Tx ServicePrincipal :=
  token ← require (service_bearer_token request) service_unauthorized;
  found ← in_session (_load_service_principal token (service_token_pepper settings));
  principal ← require found service_unauthorized;
  raise_if (negb (str_in scope (svc_scopes (spr_credential principal).2)))
    (HTTPException 403 "Required service scope is missing") ;;
  mret principal.
End service_tokens.
