(* ===== verification/EnrollmentRequestRoutes.v ===== *)
(** * The routes of enrollment requests

    request_routes.py, admin_request_routes.py, verification_routes.py and
    provisioning_routes.py of endpoint_server/enrollment: a setup asks, a policy
    or an administrator decides, a claim is handed over once, and the request
    ends when the device it made reports. *)

From S2P Require Import Prelude Store Session AuditLog Contracts Calendar Credentials Identity Enrollment EnrollmentRoutes ServiceTokens.

Definition not_eligible : exn := HTTPException 409 "Enrollment request is no longer eligible".
Definition not_approved : exn := HTTPException 409 "Enrollment request is not approved".
Definition cannot_approve : exn := HTTPException 409 "Enrollment request cannot be approved in its current state".

(** The statuses that polling leaves alone. *)
Definition closed_request (s : request_status) : bool := in_set s [e_denied; e_expired; e_failed; e_cancelled].

Definition expire_request (now : datetime) (r : EnrollmentRequest) : EnrollmentRequest :=
  r <| req_status := e_expired |> <| req_decision_reason := Some "REQUEST_EXPIRED" |> <| req_updated_at := now |>.

Section routes.
Context `{Contracts} `{EnrollmentCrypto} `{IpText} (settings : Settings).

Definition pepper : string := device_token_pepper settings.

(** [_source_address] *)
Definition _source_address (request : HttpRequest) : Tx ip_address :=
  match observed_client_address (trusted_proxy_cidrs settings) request with
  | Exn e => raise (if is_value_error e then _denied else e)
  | Ok source => mret source
  end.

(** ** POST /requests *)

Definition create_enrollment_request (body : PreEnrollmentRequestCreateV1) (request : HttpRequest)
    : Tx PreEnrollmentRequestStatusV1 :=
  source_address ← _source_address request;
  now ← utcnow;
  record ← in_session (rollback_on_error (
    campaigns ← select (λ _ _, true);
    fingerprint_digest ← lift_res (hardware_fingerprint_digest (perc_hardware_fingerprint body) pepper);
    prior_claims ← select (λ _ c, bool_decide (clm_fingerprint_digest c = fingerprint_digest) && is_some (clm_device_id c));
    let selection := evaluate_campaign_selection campaigns source_address (perc_installer_release_id body) now
                       (negb (bool_decide (length prior_claims = 0%nat))) in
    record ← build_enrollment_request (perc_installation_id body) (perc_hardware_fingerprint body)
               (perc_request_capability body) source_address (perc_installer_release_id body) selection pepper now;
    recent ← select (λ _ r, dt_leb (dt_add now (- hours 1)) (req_created_at r));
    raise_if (enrollment_request_rate_limited (map snd recent) record.2 now)
      (HTTPException 429 "Enrollment request rate limited") ;;
    request_id ← audit_request_id settings request;
    persist_enrollment_request record.1 record.2 selection request_id now ;;
    commit ;;
    mret record));
  status_answer record.1 (req_status record.2) (req_decision_reason record.2) (req_expires_at record.2).

(** ** POST /requests/{request_id}/status *)

Definition audit_request (id : uuid) (request_id action : string) (details : list (pykey * pyval)) (now : datetime)
    : Tx unit :=
  append_audit_event "installer" None action "enrollment_request" (Some (uuid_str id)) request_id details (Some now) ;;
  mret tt.

(** An open request whose time has come is expired, and committed. *)
Definition expire_if_due (id : uuid) (record : EnrollmentRequest) (request : HttpRequest) (now : datetime)
    : Tx EnrollmentRequest :=
  if dt_leb (req_expires_at record) now && negb (closed_request (req_status record)) then
    update id (expire_request now) ;;
    request_id ← audit_request_id settings request;
    audit_request id request_id "enrollment_request.expired" [(KStr "status", PStr "expired")] now ;;
    commit ;;
    mret (expire_request now record)
  else mret record.

Definition enrollment_request_status (id : uuid) (capability : string) (request : HttpRequest)
    : Tx PreEnrollmentRequestStatusV1 :=
  now ← utcnow;
  record ← in_session (
    found ← get id;
    record ← require found request_not_found;
    raise_if (negb (request_capability_matches capability (req_request_capability_digest record) pepper))
      request_not_found ;;
    expire_if_due id record request now);
  status_answer id (req_status record) (req_decision_reason record) (req_expires_at record).

(** ** POST /requests/{request_id}/claim *)

Definition _load_proven_request (id : uuid) (capability installation_id hardware_fingerprint : string)
    : Tx EnrollmentRequest :=
  found ← get id;
  record ← require found request_not_found;
  raise_if (negb (request_capability_matches capability (req_request_capability_digest record) pepper)
            || negb (request_bindings_match record installation_id hardware_fingerprint pepper)) request_not_found ;;
  mret record.

Definition _deny_invalid_selected_campaign (id : uuid) (record : EnrollmentRequest) (request : HttpRequest)
    (now : datetime) : Tx unit :=
  denied_record ← lift_res (deny_enrollment_request record "SELECTED_CAMPAIGN_INVALID" now);
  update id (λ _ : EnrollmentRequest, denied_record) ;;
  request_id ← audit_request_id settings request;
  audit_request id request_id "enrollment_request.denied"
    [(KStr "reason", PStr "SELECTED_CAMPAIGN_INVALID"); (KStr "status", PStr "denied")] now.

Definition claim_envelope (e : EnrollmentRequestClaimEnvelope) : RetryEnvelope :=
  {| ret_receipt_digest := rce_receipt_digest e; ret_fingerprint_digest := rce_fingerprint_digest e;
     ret_encrypted_token := rce_encrypted_token e; ret_encryption_nonce := rce_encryption_nonce e;
     ret_expires_at := rce_expires_at e |}.

(** The claim that was handed over before. *)
Definition recover_claim (id : uuid) (capability hardware_fingerprint : string) (now : datetime)
    : Tx EnrollmentRequestClaimResponse :=
  let gone := HTTPException 410 "Enrollment claim is no longer available" in
  found ← scalar (λ _ e, rce_enrollment_request_id e =? id);
  envelope ← require found gone;
  claim ← require (recover_retry_token capability hardware_fingerprint (claim_envelope envelope.2) pepper
                     (session_secret settings) now) gone;
  mret {| ercr_claim := claim; ercr_expires_at := rce_expires_at envelope.2 |}.

Definition dt_min (a b : datetime) : datetime := if dt_ltb b a then b else a.

(** A new claim for an approved request. *)
Definition issue_request_claim (id : uuid) (record : EnrollmentRequest) (campaign_id : uuid) (campaign : EnrollmentCampaign)
    (capability installation_id hardware_fingerprint : string) (request : HttpRequest) (now : datetime)
    : Tx EnrollmentRequestClaimResponse :=
  campaign_expiry ← require (cam_expires_at campaign) (AttributeError "astimezone");
  let expires_at := dt_min (dt_min (dt_add now _INSTALL_CLAIM_LIFETIME) (as_utc campaign_expiry))
                      (as_utc (req_expires_at record)) in
  issued ← issue_install_claim campaign_id campaign pepper installation_id hardware_fingerprint expires_at (Some now);
  let '(token, claim_id, claim) := issued in
  sealed ← seal_retry_envelope token hardware_fingerprint pepper (session_secret settings) (Some capability) (Some now)
             (instant expires_at - instant now);
  envelope_id ← uuid4;
  record' ← lift_res (mark_request_claim_issued record campaign_id campaign now);
  update id (λ _ : EnrollmentRequest, record') ;;
  insert claim_id (claim <| clm_enrollment_request_id := Some id |>) ;;
  insert envelope_id {|
    rce_enrollment_request_id := id; rce_claim_id := claim_id; rce_receipt_digest := iss_receipt_digest sealed;
    rce_fingerprint_digest := iss_fingerprint_digest sealed; rce_encrypted_token := iss_encrypted_token sealed;
    rce_encryption_nonce := iss_encryption_nonce sealed; rce_expires_at := iss_expires_at sealed |} ;;
  request_id ← audit_request_id settings request;
  audit_request id request_id "enrollment_request.claim_issued"
    [(KStr "campaign_id", PStr (uuid_str campaign_id)); (KStr "expires_at", PTime (isoformat (clm_expires_at claim)));
     (KStr "status", PStr "claim_issued")] now ;;
  commit ;;
  mret {| ercr_claim := token; ercr_expires_at := clm_expires_at claim |}.

Definition handoff_enrollment_request_claim (id : uuid) (body : EnrollmentRequestClaimProof) (request : HttpRequest)
    : Tx EnrollmentRequestClaimResponse :=
  let capability := ercp_request_capability body in
  match normalize_install_session_id (ercp_installation_id body),
        normalize_hardware_fingerprint (ercp_hardware_fingerprint body) with
  | Ok installation_id, Ok hardware_fingerprint =>
      now ← utcnow;
      in_session (try_except
        (record ← _load_proven_request id capability installation_id hardware_fingerprint;
         if dt_leb (req_expires_at record) now then
           expire_if_due id record request now ;;
           raise (HTTPException 410 "Enrollment request expired")
         else
           raise_if (negb (in_set (req_status record) [e_auto_approved; e_approved; e_claim_issued])) not_approved ;;
           campaign_id ← require (req_selected_campaign_id record) not_approved;
           found ← get campaign_id;
           match (c ← found; if selected_campaign_still_allows_request record campaign_id c now then Some c else None) with
           | None =>
               _deny_invalid_selected_campaign id record request now ;;
               commit ;;
               raise not_eligible
           | Some campaign =>
               if decide (req_status record = e_claim_issued)
               then recover_claim id capability hardware_fingerprint now
               else issue_request_claim id record campaign_id campaign capability installation_id hardware_fingerprint
                      request now
           end)
        (λ e, if is_denied e || is_value_error e then Some (rollback ;; raise not_eligible)
              else if is_http e then None
              else Some (rollback ;; raise e)))
  | _, _ => raise (HTTPException 422 "Invalid enrollment request claim proof")
  end.

(** ** Decisions of an administrator *)

Definition _append_decision_audit (id : uuid) (reason : option string) (status : request_status) (admin : uuid)
    (request : HttpRequest) (action : string) (now : datetime) : Tx unit :=
  request_id ← audit_request_id settings request;
  append_audit_event "admin" (Some (uuid_str admin)) action "enrollment_request" (Some (uuid_str id)) request_id
    [(KStr "reason", opt_pystr reason); (KStr "status", PStr (request_status_text status))] (Some now) ;;
  mret tt.

(** A decided request with the administrator who decided. *)
Definition store_decision (id : uuid) (decided : EnrollmentRequest) (admin : uuid) (request : HttpRequest)
    (action : string) (now : datetime) : Tx unit :=
  update id (λ _ : EnrollmentRequest, decided <| req_decided_by := Some admin |>) ;;
  _append_decision_audit id (req_decision_reason decided) (req_status decided) admin request action now ;;
  commit.

Definition deny_invalid (id : uuid) (record : EnrollmentRequest) (admin : uuid) (request : HttpRequest) (now : datetime)
    : Tx unit :=
  decided ← lift_res (deny_enrollment_request record "SELECTED_CAMPAIGN_INVALID" now);
  store_decision id decided admin request "enrollment_request.denied" now.

(** [except HTTPException: raise] and [except Exception: rollback; raise] *)
Definition rollback_unless_http {A} (body : Tx A) : Tx A :=
  try_except body (λ e, if is_http e then None else Some (rollback ;; raise e)).

Definition approve_request (id admin : uuid) (request : HttpRequest) : Tx unit :=
  now ← utcnow;
  in_session (rollback_unless_http (
    found ← get id;
    record ← require found request_not_found;
    campaign_id ← require (req_selected_campaign_id record) cannot_approve;
    campaign ← get campaign_id;
    match campaign with
    | None => deny_invalid id record admin request now ;; raise cannot_approve
    | Some campaign =>
        match approve_enrollment_request record campaign_id campaign now with
        | Ok decided => store_decision id decided admin request "enrollment_request.manually_approved" now
        | Exn _ =>
            when (in_set (req_status record) [e_waiting_approval; e_review_required])
              (deny_invalid id record admin request now) ;;
            raise cannot_approve
        end
    end)).

Definition deny_request (id : uuid) (reason : string) (admin : uuid) (request : HttpRequest) : Tx unit :=
  now ← utcnow;
  in_session (try_except
    (found ← get id;
     record ← require found request_not_found;
     if decide (req_status record = e_denied) then mret tt
     else
       decided ← lift_res (deny_enrollment_request record reason now);
       store_decision id decided admin request "enrollment_request.denied" now)
    (λ e, match e with
          | HTTPException _ _ => None
          | RequestTransitionError _ => Some (rollback ;; raise cannot_approve)
          | e => Some (rollback ;; raise e)
          end)).

(** ** POST /requests/{request_id}/verify *)

(** [order_by(coalesce(last_seen_at, created_at).desc(), id.desc())] *)
Definition latest_session_order (a b : uuid * DeviceSession) : bool :=
  let observed s := instant (default (sess_created_at s) (sess_last_seen_at s)) in
  lex_leb (observed b.2, b.1) (observed a.2, a.1).

Definition fresh_presence (s : option (uuid * DeviceSession)) (now : datetime) : bool :=
  match s with
  | Some (_, s) =>
      is_none (sess_closed_at s)
      && match sess_last_seen_at s with
         | Some seen => dt_leb seen now && (instant now - instant seen <=? _PRESENCE_TTL)
         | None => false
         end
  | None => false
  end.

(** [transition_request_status] and the assignments that follow it *)
Definition advance_request (id : uuid) (record : EnrollmentRequest) (next_status : request_status) (now : datetime)
    : Tx EnrollmentRequest :=
  lift_res (transition_request_status (req_status record) next_status) ;;
  let record := record <| req_status := next_status |> <| req_updated_at := now |> in
  update id (λ _ : EnrollmentRequest, record) ;;
  mret record.

(** A registered request waits for its device. *)
Definition await_device (id : uuid) (record : EnrollmentRequest) (now : datetime) : Tx EnrollmentRequest :=
  if decide (req_status record = e_device_registered) then
    record ← advance_request id record e_waiting_wss now;
    commit ;;
    mret record
  else mret record.

(** The profile a new device must have reported. *)
Definition has_baseline (device_id : uuid) : Tx bool :=
  current ← select (λ _ c, (cur_device_id c =? device_id) && bool_decide (cur_profile c = "baseline_v1"));
  snapshots ← select (λ id (_ : ContextSnapshot), bool_decide (id ∈ map (λ c : uuid * ContextCurrent, cur_snapshot_id c.2) current));
  mret (negb (bool_decide (length snapshots = 0%nat))).

Definition complete_request (id : uuid) (record : EnrollmentRequest) (device_id : uuid) (request : HttpRequest)
    (now : datetime) : Tx PreEnrollmentRequestStatusV1 :=
  record ← (if decide (req_status record = e_device_registered) then advance_request id record e_waiting_wss now
            else mret record);
  record ← advance_request id record e_completed now;
  request_id ← audit_request_id settings request;
  audit_request id request_id "installer_wss_verified"
    [(KStr "device_id", PStr (uuid_str device_id)); (KStr "status", PStr "completed")] now ;;
  commit ;;
  status_answer id (req_status record) (req_decision_reason record) (req_expires_at record).

Definition verify_enrollment_completion (id : uuid) (capability : string) (request : HttpRequest)
    : Tx PreEnrollmentRequestStatusV1 :=
  let not_ready := HTTPException 409 "Enrollment request is not ready" in
  now ← utcnow;
  in_session (
    found ← get id;
    record ← require found request_not_found;
    raise_if (negb (request_capability_matches capability (req_request_capability_digest record) pepper))
      request_not_found ;;
    if in_set (req_status record) [e_claim_issued; e_enrolling]
    then status_answer id (req_status record) (Some "WAITING_DEVICE_REGISTRATION") (req_expires_at record)
    else
      device_id ← require (req_device_id record) not_ready;
      raise_if (negb (in_set (req_status record) [e_device_registered; e_waiting_wss; e_completed])) not_ready ;;
      if decide (req_status record = e_completed)
      then status_answer id (req_status record) (req_decision_reason record) (req_expires_at record)
      else
        sessions ← select (λ _ s, sess_device_id s =? device_id);
        if negb (fresh_presence (head (order_by latest_session_order sessions)) now) then
          record ← await_device id record now;
          status_answer id (req_status record) (Some "WAITING_WSS") (req_expires_at record)
        else
          baseline ← has_baseline device_id;
          if negb baseline then
            record ← await_device id record now;
            status_answer id e_waiting_wss (Some "WAITING_BASELINE") (req_expires_at record)
          else complete_request id record device_id request now).

(** ** POST /provisioning/install-claims *)

Definition PILOT_SERVICE_CLIENT_IDENTIFIER : string := "alt-test-pilot".

(** [pilot_credential_identifier] (provisioning/pilot_service.py) of bindings that
    are normalized *)
Definition pilot_credential_identifier (campaign_id : uuid) (installation_id hardware_fingerprint : string) : res string :=
  if bool_decide (service_token_pepper settings = "") then Exn (ValueError "service token pepper must not be empty")
  else Ok (String.substring 0 32 (hex_bytes (hmac_sha256 (service_token_pepper settings)
         ("endpoint-alt-test-pilot-credential-v1" +:+ nul +:+ uuid_str campaign_id +:+ nul +:+ installation_id
          +:+ nul +:+ hardware_fingerprint)))).

Definition invalid_install_claim : exn := HTTPException 422 "Invalid provisioning install claim".

Definition check_pilot (principal : ServicePrincipal) (campaign_id : uuid) (installation_id hardware_fingerprint : string)
    : Tx unit :=
  when (bool_decide (cli_client_identifier (spr_client principal).2 = PILOT_SERVICE_CLIENT_IDENTIFIER)) (
    match pilot_credential_identifier campaign_id installation_id hardware_fingerprint with
    | Exn _ => raise invalid_install_claim
    | Ok expected =>
        raise_if (negb (bool_decide (svc_credential_identifier (spr_credential principal).2 = expected)))
          (HTTPException 403 "Test-pilot credential binding is missing")
    end).

Definition is_attribute_error (e : exn) : bool := match e with AttributeError _ => true | _ => false end.

(** The claim issued to the provisioning service, before it is stored. *)
Definition provisioning_claim (campaign_id : uuid) (campaign : EnrollmentCampaign)
    (installation_id hardware_fingerprint : string) (issued_at : datetime) : Tx (string * uuid * EnrollmentClaim) :=
  expiry ← require (cam_expires_at campaign) (AttributeError "astimezone");
  let campaign_expiry := as_utc expiry in
  raise_if (dt_leb campaign_expiry issued_at) denied ;;
  issue_install_claim campaign_id campaign pepper installation_id hardware_fingerprint
    (dt_min (dt_add issued_at _INSTALL_CLAIM_LIFETIME) campaign_expiry) (Some issued_at).

Definition issue_provisioning_install_claim (campaign_id : uuid) (install_session_id fingerprint : string)
    (principal : ServicePrincipal) (request : HttpRequest) : Tx EnrollmentRequestClaimResponse :=
  match normalize_install_session_id install_session_id, normalize_hardware_fingerprint fingerprint with
  | Ok installation_id, Ok hardware_fingerprint =>
      check_pilot principal campaign_id installation_id hardware_fingerprint ;;
      issued_at ← utcnow;
      in_session (
        found ← get campaign_id;
        campaign ← require found campaign_not_found;
        issued ← catch (provisioning_claim campaign_id campaign installation_id hardware_fingerprint issued_at)
                   (λ e, is_attribute_error e || is_denied e || is_value_error e)
                   (λ e, rollback ;; raise (if is_value_error e then invalid_install_claim else campaign_not_found));
        let '(token, claim_id, claim) := issued in
        insert claim_id claim ;;
        rollback_on_error (
          request_id ← audit_request_id settings request;
          append_audit_event "service" (Some (uuid_str ((spr_client principal).1))) "provisioning_install_claim.issued"
            "enrollment_claim" (Some (uuid_str claim_id)) request_id
            [(KStr "campaign_id", PStr (uuid_str campaign_id));
             (KStr "expires_at", PTime (isoformat (clm_expires_at claim)))] (Some issued_at) ;;
          commit) ;;
        mret {| ercr_claim := token; ercr_expires_at := clm_expires_at claim |})
  | _, _ => raise invalid_install_claim
  end.
End routes.
