(* ===== verification/EnrollmentLedger.v ===== *)
(** * Enrollment as moves of a ledger

    An abstract machine over campaigns, claims, requests and enrollment events,
    and the proof that every route of enrollment commits one of its moves. *)

From S2P Require Import Prelude Store Session AuditLog Frames Contracts Calendar Credentials Identity Enrollment.
From S2P Require Import EnrollmentRoutes EnrollmentRequestRoutes.

(** ** The ledger *)

Record Ledger := {
  l_campaigns : gmap uuid EnrollmentCampaign;
  l_claims : gmap uuid EnrollmentClaim;
  l_requests : gmap uuid EnrollmentRequest;
  l_events : gmap uuid EnrollmentEvent
}.
#[export] Instance Ledger_eta : Eta Ledger := λ l,
  Build_Ledger (l_campaigns l) (l_claims l) (l_requests l) (l_events l).

Definition ledger (d : DB) : Ledger :=
  Build_Ledger (enrollment_campaigns d) (enrollment_claims d) (enrollment_requests d) (enrollment_events d).

(** What a request was asked for, which nothing changes. *)
Definition same_request (r r' : EnrollmentRequest) : Prop :=
  req_created_at r' = req_created_at r ∧ req_installation_id_digest r' = req_installation_id_digest r
  ∧ req_fingerprint_digest r' = req_fingerprint_digest r
  ∧ req_request_capability_digest r' = req_request_capability_digest r ∧ req_platform r' = req_platform r
  ∧ req_source_address r' = req_source_address r ∧ req_installer_release_id r' = req_installer_release_id r
  ∧ req_selected_campaign_id r' = req_selected_campaign_id r ∧ req_expires_at r' = req_expires_at r.

(** The transitions of the state machine. *)
Definition allowed (s s' : request_status) : Prop := s' ∈ _ALLOWED_TRANSITIONS s.

(** A claim as it is issued. *)
Definition new_claim (campaign_id : uuid) (c : EnrollmentCampaign) (k : EnrollmentClaim) : Prop :=
  clm_campaign_id k = campaign_id ∧ clm_claimed_at k = None ∧ clm_device_id k = None
  ∧ cam_use_count c < cam_max_uses c ∧ cam_revoked_at c = None ∧ cam_disabled_at c = None
  ∧ ∃ e, cam_expires_at c = Some e ∧ instant (clm_expires_at k) <= instant e.

(** The request whose claim enrolls a device. *)
Definition registered (r r' : EnrollmentRequest) (device_id : uuid) : Prop :=
  same_request r r' ∧ req_status r = e_claim_issued ∧ req_status r' = e_device_registered
  ∧ req_device_id r' = Some device_id.

Definition enrolled (campaign_id : uuid) (claim_id : option uuid) (device_id : uuid) : EnrollmentEvent :=
  {| eev_campaign_id := Some campaign_id; eev_claim_id := claim_id; eev_event_kind := "device_enrolled";
     eev_remote_identifier := Some (uuid_str device_id) |}.

(** [move n n' l l']: one commit, whose new ids are from [n] on and below [n']. *)
Inductive move (n n' : Z) (l : Ledger) : Ledger → Prop :=
| move_idle : move n n' l l
| move_campaign_created id c :
    n <= id < n' → cam_use_count c = 0 → 0 < cam_max_uses c →
    move n n' l (l <| l_campaigns := <[id := c]> (l_campaigns l) |>)
| move_campaign_changed id c c' :
    l_campaigns l !! id = Some c → cam_use_count c' = cam_use_count c →
    (cam_max_uses c' = cam_max_uses c ∨ cam_use_count c <= cam_max_uses c') →
    move n n' l (l <| l_campaigns := <[id := c']> (l_campaigns l) |>)
| move_requested id r :
    n <= id < n' → req_status r ∈ [e_auto_approved; e_waiting_approval; e_review_required; e_denied] →
    req_device_id r = None →
    move n n' l (l <| l_requests := <[id := r]> (l_requests l) |>)
| move_request id r r' :
    l_requests l !! id = Some r → same_request r r' → rtc allowed (req_status r) (req_status r') →
    req_device_id r' = req_device_id r →
    move n n' l (l <| l_requests := <[id := r']> (l_requests l) |>)
| move_expired id r r' :
    l_requests l !! id = Some r → same_request r r' → closed_request (req_status r) = false →
    req_status r' = e_expired → req_device_id r' = req_device_id r →
    move n n' l (l <| l_requests := <[id := r']> (l_requests l) |>)
| move_claim_issued id k c :
    n <= id < n' → l_campaigns l !! clm_campaign_id k = Some c → new_claim (clm_campaign_id k) c k →
    clm_enrollment_request_id k = None →
    move n n' l (l <| l_claims := <[id := k]> (l_claims l) |>)
| move_request_claimed id k c rid r r' :
    n <= id < n' → l_campaigns l !! clm_campaign_id k = Some c → new_claim (clm_campaign_id k) c k →
    clm_enrollment_request_id k = Some rid → l_requests l !! rid = Some r → same_request r r' →
    allowed (req_status r) (req_status r') → req_status r' = e_claim_issued →
    req_selected_campaign_id r = Some (clm_campaign_id k) → req_device_id r' = req_device_id r →
    move n n' l (l <| l_claims := <[id := k]> (l_claims l) |> <| l_requests := <[rid := r']> (l_requests l) |>)
| move_enrolled_by_campaign cid c device_id event_id :
    l_campaigns l !! cid = Some c → cam_use_count c < cam_max_uses c → cam_revoked_at c = None →
    n <= device_id < n' → n <= event_id < n' →
    move n n' l (l <| l_campaigns := <[cid := use_campaign c]> (l_campaigns l) |>
                   <| l_events := <[event_id := enrolled cid None device_id]> (l_events l) |>)
| move_enrolled_by_claim cid c kid k k' device_id event_id requests :
    l_campaigns l !! cid = Some c → cam_use_count c < cam_max_uses c → cam_revoked_at c = None →
    n <= device_id < n' → n <= event_id < n' →
    l_claims l !! kid = Some k → clm_campaign_id k = cid → clm_claimed_at k = None →
    is_some (clm_claimed_at k') = true → clm_device_id k' = Some device_id → clm_campaign_id k' = cid →
    clm_enrollment_request_id k' = clm_enrollment_request_id k →
    match clm_enrollment_request_id k with
    | None => requests = l_requests l
    | Some rid => ∃ r r', l_requests l !! rid = Some r ∧ registered r r' device_id
                  ∧ req_selected_campaign_id r = Some cid ∧ requests = <[rid := r']> (l_requests l)
    end →
    move n n' l (l <| l_campaigns := <[cid := use_campaign c]> (l_campaigns l) |>
                   <| l_claims := <[kid := k']> (l_claims l) |> <| l_requests := requests |>
                   <| l_events := <[event_id := enrolled cid (Some kid) device_id]> (l_events l) |>).

Definition moved (w w' : World) : Prop :=
  seed w <= seed w' ∧ move (seed w) (seed w') (ledger (committed w)) (ledger (committed w')).

Lemma move_weaken n n' k k' l l' : k <= n → n' <= k' → move n n' l l' → move k k' l l'.
Proof. intros Hn Hn' Hm. destruct Hm; econstructor; eauto; lia. Qed.

(** ** What leaves the ledger alone

    [kept]: neither the session nor what is committed changes.  [settled]: what
    is committed does not.  [finishing]: the session is left as it is, committed
    or rolled back. *)

Definition ledger_view (w : World) := (ledger (db w), ledger (committed w)).
Definition kept (w w' : World) : Prop := same ledger_view w w' ∧ seed_le w w'.
Definition settled (w w' : World) : Prop := ledger (committed w') = ledger (committed w) ∧ seed w <= seed w'.
Definition finishing (w w' : World) : Prop :=
  (ledger (db w') = ledger (db w) ∨ ledger (db w') = ledger (committed w))
  ∧ (ledger (committed w') = ledger (committed w) ∨ ledger (committed w') = ledger (db w)) ∧ seed w <= seed w'.

#[export] Instance kept_preorder : PreOrder kept.
Proof. split; [by split; reflexivity|]. intros w1 w2 w3 [? ?] [? ?]. split; by etrans. Qed.
#[export] Instance settled_preorder : PreOrder settled.
Proof. unfold settled. split; [intros w; split; [done|lia]|]. intros w1 w2 w3 [? ?] [? ?]. split; [congruence|lia]. Qed.
#[export] Instance finishing_preorder : PreOrder finishing.
Proof.
  unfold finishing. split; [intros w; split_and!; auto; lia|].
  intros w1 w2 w3 (D1 & C1 & S1) (D2 & C2 & S2). split_and!; [| |lia].
  - destruct D2 as [-> | ->]; [done|]. destruct C1 as [-> | ->]; auto.
  - destruct C2 as [-> | ->]; [done|]. destruct D1 as [-> | ->]; auto.
Qed.

Lemma kept_facts w w' :
  kept w w' → ledger (committed w') = ledger (committed w) ∧ ledger (db w') = ledger (db w) ∧ seed w <= seed w'.
Proof. intros [E S]. unfold same, ledger_view in E. injection E as E1 E2. split_and!; [..|done]; unfold ledger; congruence. Qed.

Lemma finishing_of_kept {A} (m : Tx A) : pres kept m → pres finishing m.
Proof. intros Hm w. destruct (kept_facts _ _ (Hm w)) as (? & ? & ?). unfold finishing. auto. Qed.
Lemma settled_of_kept {A} (m : Tx A) : pres kept m → pres settled m.
Proof. intros Hm w. destruct (kept_facts _ _ (Hm w)) as (? & ? & ?). split; auto. Qed.

Lemma commit_finishing : pres finishing commit.
Proof.
  intros w. unfold commit, mbind, M_bind, flush. destruct (violated (db w)); simpl; [reflexivity|].
  unfold finishing; simpl. split_and!; auto. lia.
Qed.
Lemma rollback_finishing : pres finishing rollback.
Proof. intros w. unfold finishing; simpl. split_and!; auto. lia. Qed.

Lemma session_settled {A} (m : Tx A) : pres finishing m → pres settled (in_session m).
Proof.
  intros Hm w. specialize (Hm (w <| db := committed w |>)). unfold in_session.
  destruct (m _) as [r w']. destruct Hm as (D & [C|C] & S); by split.
Qed.

Ltac keep := apply pres_and; frame.

#[export] Hint Resolve commit_finishing rollback_finishing : frame.
#[export] Hint Extern 1 (pres finishing utcnow) => apply finishing_of_kept; keep : frame.
#[export] Hint Extern 1 (pres finishing uuid4) => apply finishing_of_kept; keep : frame.
#[export] Hint Extern 1 (pres finishing (insert _ _)) => apply finishing_of_kept; keep : frame.
#[export] Hint Extern 1 (pres finishing (update _ _)) => apply finishing_of_kept; keep : frame.
#[export] Hint Extern 1 (pres finishing (delete_row _)) => apply finishing_of_kept; keep : frame.
#[export] Hint Extern 1 (pres finishing (append_audit_event _ _ _ _ _ _ _ _)) => apply finishing_of_kept; keep : frame.
#[export] Hint Extern 1 (pres settled utcnow) => apply settled_of_kept; keep : frame.
#[export] Hint Extern 1 (pres settled uuid4) => apply settled_of_kept; keep : frame.
#[export] Hint Extern 1 (pres settled (in_session _)) => apply session_settled; frame : frame.

(** ** Moves in the making *)

(** A session that began after [w] and has made its ledger [x]. *)
Definition making (w : World) (x : Ledger) (w' : World) : Prop :=
  ledger (committed w') = ledger (committed w) ∧ ledger (db w') = x ∧ seed w <= seed w'.

Lemma moved_settled w w1 w' : settled w w1 → moved w1 w' → moved w w'.
Proof. intros [E Hs] [Hs' Hm]. split; [lia|]. rewrite <-E. eapply move_weaken, Hm; [lia|done]. Qed.
Lemma moved_then w w1 w' : moved w w1 → settled w1 w' → moved w w'.
Proof. intros [Hs Hm] [E Hs']. split; [lia|]. rewrite E. eapply move_weaken, Hm; [done|lia]. Qed.
Lemma settled_moved w w' : settled w w' → moved w w'.
Proof. intros [E Hs]. split; [done|]. rewrite E. apply move_idle. Qed.

Lemma making_kept w x w1 w' : making w x w1 → kept w1 w' → making w x w'.
Proof. intros (C & D & S) (C' & D' & S')%kept_facts. split_and!; [congruence|congruence|lia]. Qed.

Lemma making_settled w x w' : making w x w' → settled w w'.
Proof. by intros (C & D & S). Qed.

(** The end of a session that has made a move. *)
Lemma making_moved w x w1 w' :
  making w x w1 → move (seed w) (seed w1) (ledger (committed w)) x → finishing w1 w' → moved w w'.
Proof.
  intros (C & D & S) Hm (_ & F & S'). split; [lia|].
  destruct F as [F|F]; rewrite F; [rewrite C; apply move_idle|rewrite D].
  eapply move_weaken, Hm; [done|lia].
Qed.

Lemma wp_finish {A} (m : Tx A) w x w1 :
  making w x w1 → move (seed w) (seed w1) (ledger (committed w)) x → pres finishing m → wp m (λ _, moved w) w1.
Proof. intros Hx Hm Hf. eapply wp_pres; [exact Hf|]. intros r w'. intros Hff; by apply (making_moved _ x w1). Qed.

(** A part of a session that does not touch the ledger. *)
Lemma wp_making {A B} (m : Tx A) (k : A → Tx B) w x w1 :
  making w x w1 → pres kept m → (∀ a w2, making w x w2 → seed w1 <= seed w2 → wp (k a) (λ _, moved w) w2) →
  wp (m ≫= k) (λ _, moved w) w1.
Proof.
  intros Hx Hm Hk. apply (wp_bind_pres kept); [done| |].
  - intros a w2 Hw. eapply Hk; [by eapply making_kept|by apply Hw].
  - intros e w2 Hw. by eapply settled_moved, making_settled, making_kept.
Qed.

Lemma wp_session {A} (m : Tx A) w w1 :
  settled w w1 → (∀ w2, making w (ledger (committed w)) w2 → seed w1 <= seed w2 → wp m (λ _, moved w) w2) →
  wp (in_session m) (λ _, moved w) w1.
Proof.
  intros [C S] Hm. apply wp_in_session. eapply wp_mono; [apply Hm; [done|simpl; lia]|]. intros r w' [Hs Hmv]. by split.
Qed.

Lemma wp_then {A B} (m : Tx A) (k : A → Tx B) w w1 :
  wp m (λ _, moved w) w1 → (∀ a, pres settled (k a)) → wp (m ≫= k) (λ _, moved w) w1.
Proof.
  intros Hm Hk. apply wp_bind. eapply wp_mono; [exact Hm|]. intros [a|e] w' Hw; wp_k; [|done].
  eapply wp_pres; [apply Hk|]. intros r w2. by apply moved_then.
Qed.

(** An exception is handled after the session did what it did. *)
Lemma wp_handled {A} (m : Tx A) h w w1 :
  wp m (λ _, moved w) w1 → (∀ e m', h e = Some m' → pres settled m') → wp (try_except m h) (λ _, moved w) w1.
Proof.
  intros Hm Hh. apply wp_try. eapply wp_mono; [exact Hm|]. intros [a|e] w' Hw; [done|].
  destruct (h e) as [m'|] eqn:E; [|done]. eapply wp_pres; [by eapply Hh|]. intros r w2. by apply moved_then.
Qed.

(** The first step of a part. *)
Lemma wp_unnest {A B C} (m : Tx A) (k : A → Tx B) (h : B → Tx C) Q w :
  wp (m ≫= λ a, k a ≫= h) Q w → wp ((m ≫= k) ≫= h) Q w.
Proof. rewrite !wp_unfold. unfold mbind, M_bind. by destruct (m w) as [[a|e] w']. Qed.

(** A part that touches the ledger only to end the session. *)
Lemma wp_settled {A B} (m : Tx A) (k : A → Tx B) w w1 :
  settled w w1 → pres settled m → (∀ a w2, settled w w2 → seed w1 <= seed w2 → wp (k a) (λ _, moved w) w2) →
  wp (m ≫= k) (λ _, moved w) w1.
Proof.
  intros Hw Hm Hk. apply (wp_bind_pres settled); [done| |].
  - intros a w2 Hw2. apply Hk; [by etrans|by apply Hw2].
  - intros e w2 Hw2. apply settled_moved. by etrans.
Qed.

(** Changes of the ledger's tables. *)
Lemma making_campaigns w x w1 f :
  making w x w1 → making w (x <| l_campaigns := f (l_campaigns x) |>) (with_table (R:=EnrollmentCampaign) f w1).
Proof. by intros (C & <- & S). Qed.
Lemma making_claims w x w1 f :
  making w x w1 → making w (x <| l_claims := f (l_claims x) |>) (with_table (R:=EnrollmentClaim) f w1).
Proof. by intros (C & <- & S). Qed.
Lemma making_requests w x w1 f :
  making w x w1 → making w (x <| l_requests := f (l_requests x) |>) (with_table (R:=EnrollmentRequest) f w1).
Proof. by intros (C & <- & S). Qed.
Lemma making_events w x w1 f :
  making w x w1 → making w (x <| l_events := f (l_events x) |>) (with_table (R:=EnrollmentEvent) f w1).
Proof. by intros (C & <- & S). Qed.

Lemma rollback_settled : pres settled rollback.
Proof. intros w. by split. Qed.
#[export] Hint Resolve rollback_settled : frame.

(** ** Every enrollment route makes one move

    Each handler of the enrollment routes, whatever it answers, leaves the
    ledger of EnrollmentLedger.v one move further. *)

Section moves.
Context `{Contracts} `{EnrollmentCrypto} `{IpText} (settings : Settings).

(** ** The routes of deliveries and credentials *)

Lemma retry_settled body req : pres settled (retry_enrollment_delivery settings body req).
Proof. frame. Qed.
Lemma acknowledge_settled body req : pres settled (acknowledge_enrollment_delivery settings body req).
Proof. frame. Qed.
Lemma rotate_settled req : pres settled (rotate_device_credential settings req).
Proof. frame. Qed.
Lemma activate_settled req : pres settled (activate_device_credential settings req).
Proof. frame. Qed.

(** ** Campaigns *)

Lemma now_or_kept now : pres kept (now_or now).
Proof. keep. Qed.
Lemma token_bytes_kept n : pres kept (token_bytes n).
Proof. keep. Qed.

Lemma issue_campaign_spec pepper fields now w :
  wp (issue_campaign pepper fields now) (λ r w', kept w w' ∧
    match r with
    | Ok (_, id, c) => seed w <= id < seed w' ∧ cam_use_count c = 0 ∧ 0 < cam_max_uses c
    | Exn _ => True
    end) w.
Proof.
  apply wp_and; [apply wp_of_pres; keep|].
  unfold issue_campaign, now_or, _issue_token, token_bytes. wp_run.
  all: simpl; propify; lia.
Qed.

Lemma create_campaign_moves fields admin req w : wp (create_campaign settings fields admin req) (λ _, moved w) w.
Proof.
  unfold create_campaign, catch. apply wp_bind, wp_try.
  eapply wp_mono; [apply issue_campaign_spec|]. intros [[[tok id] c]|e] w1 [(C & _ & S)%kept_facts Hc].
  - wp_k. apply wp_session; [done|]. intros w2 Hw Hs.
    apply wp_bind, wp_insert. wp_k. eapply wp_finish; [by apply making_campaigns| |frame].
    destruct Hc as (? & ? & ?). apply move_campaign_created; simpl; try done; lia.
  - destruct (is_value_error e); [apply wp_raise; wp_k|]; by apply settled_moved.
Qed.

(** One more part of a session that keeps the ledger. *)
Ltac skip_kept :=
  lazymatch goal with
  | Hw : making _ _ _ |- _ => eapply wp_making; [exact Hw|solve [keep]|]; clear Hw; intros ? ? Hw ?
  end.

(** Rows of the tables of a session. *)
Lemma making_campaign {w x w1 id} {c : EnrollmentCampaign} : making w x w1 → table (db w1) !! id = Some c → l_campaigns x !! id = Some c.
Proof. by intros (_ & <- & _). Qed.
Lemma making_claim {w x w1 id} {c : EnrollmentClaim} : making w x w1 → table (db w1) !! id = Some c → l_claims x !! id = Some c.
Proof. by intros (_ & <- & _). Qed.
Lemma making_request {w x w1 id} {r : EnrollmentRequest} : making w x w1 → table (db w1) !! id = Some r → l_requests x !! id = Some r.
Proof. by intros (_ & <- & _). Qed.

(** The change of one campaign, or of one request. *)
Lemma finish_campaign {A} (m : Tx A) w w1 id c f :
  making w (ledger (committed w)) w1 → table (db w1) !! id = Some c →
  cam_use_count (f c) = cam_use_count c → (cam_max_uses (f c) = cam_max_uses c ∨ cam_use_count c <= cam_max_uses (f c)) →
  pres finishing m → wp m (λ _, moved w) (with_table (R := EnrollmentCampaign) (alter f id) w1).
Proof.
  intros Hw Hc Hu Hm Hf. pose proof (making_campaign Hw Hc) as Hc'.
  pose proof (making_campaigns _ _ _ (alter f id) Hw) as Hw'.
  eapply wp_finish; [exact Hw'| |done].
  rewrite (alter_stored _ _ _ _ Hc'). by eapply move_campaign_changed.
Qed.

Lemma finish_request {A} (m : Tx A) w w1 id r f :
  making w (ledger (committed w)) w1 → table (db w1) !! id = Some r →
  same_request r (f r) → req_device_id (f r) = req_device_id r → rtc allowed (req_status r) (req_status (f r)) →
  pres finishing m → wp m (λ _, moved w) (with_table (R := EnrollmentRequest) (alter f id) w1).
Proof.
  intros Hw Hr Hs Hd Ha Hf. pose proof (making_request Hw Hr) as Hr'.
  pose proof (making_requests _ _ _ (alter f id) Hw) as Hw'.
  eapply wp_finish; [exact Hw'| |done].
  rewrite (alter_stored _ _ _ _ Hr'). by eapply move_request.
Qed.

Lemma stay w x w1 : making w x w1 → moved w w1.
Proof. intros Hw. by eapply settled_moved, making_settled. Qed.

(** A session that is ending without a change. *)
Lemma wp_leave {A} (m : Tx A) w w1 : making w (ledger (committed w)) w1 → pres finishing m → wp m (λ _, moved w) w1.
Proof. intros Hw Hm. eapply wp_finish; [done|apply move_idle|done]. Qed.

Lemma revoke_enrollment_campaign_moves id admin req w : wp (revoke_enrollment_campaign settings id admin req) (λ _, moved w) w.
Proof.
  unfold revoke_enrollment_campaign, revoke_campaign.
  apply wp_session; [reflexivity|]. intros w1 Hw Hs.
  apply wp_handled; [|intros e m [= <-]; frame].
  skip_kept. apply wp_unnest. skip_kept. apply wp_unnest. skip_kept. apply wp_unnest.
  wp_step. apply wp_unnest. wp_step; [|by eapply settled_moved, making_settled].
  destruct (is_none _); cbn [when]; [|by eapply wp_leave; [|frame]].
  apply wp_unnest, wp_bind, wp_update. wp_k. eapply finish_campaign; try done; [by left|frame].
Qed.

Lemma changed_campaign_spec c body now w :
  wp (changed_campaign settings c body now) (λ r w', kept w w' ∧
    match r with
    | Ok c' => cam_use_count c' = cam_use_count c ∧ (cam_max_uses c' = cam_max_uses c ∨ cam_use_count c <= cam_max_uses c')
    | Exn _ => True
    end) w.
Proof.
  apply wp_and; [apply wp_of_pres; keep|].
  unfold changed_campaign. destruct body as [[?|] [?|] [?|] ? [?|] [?|] ?]; simpl; wp_run.
  all: try (apply wp_bind; eapply wp_mono; [apply issue_campaign_spec|]; intros [[[? ?] ?]|?] ? [_ _]; wp_run).
  all: simpl; propify; auto.
Qed.

Lemma update_campaign_moves id body admin req w : wp (update_campaign settings id body admin req) (λ _, moved w) w.
Proof.
  unfold update_campaign. eapply wp_settled; [reflexivity|frame|]. intros now w1 Hw1 _.
  apply wp_session; [done|]. intros w2 Hw _. wp_step. wp_step; [|by eapply stay].
  apply wp_bind, wp_try. eapply wp_mono; [apply changed_campaign_spec|]. intros [c|e] w3 [Hk Hc]; wp_k.
  - apply wp_bind, wp_update. wp_k. destruct Hc. eapply finish_campaign; try done; [by eapply making_kept| |frame].
    by destruct (kept_facts _ _ Hk) as (_ & [= E _ _ _] & _); simpl; rewrite E.
  - destruct (is_value_error e); [|by eapply stay, making_kept]. do 2 wp_step.
    apply (making_kept _ _ _ _ Hw), making_settled in Hk. by apply settled_moved.
Qed.

(** ** Requests *)

Lemma selection_status campaigns source release now conflict :
  sel_status (evaluate_campaign_selection campaigns source release now conflict)
    ∈ [e_auto_approved; e_waiting_approval; e_review_required; e_denied].
Proof.
  unfold evaluate_campaign_selection. destruct (omap _ _) as [|[c p] [|? ?]]; cbn;
    [|destruct conflict; [|case_decide]|]; cbn; set_solver.
Qed.

Lemma build_request_spec installation fingerprint capability source release selection pep now w :
  wp (build_enrollment_request installation fingerprint capability source release selection pep now) (λ r w', kept w w' ∧
    match r with
    | Ok (id, r) => seed w <= id < seed w' ∧ req_status r = sel_status selection ∧ req_device_id r = None
    | Exn _ => True
    end) w.
Proof.
  apply wp_and; [apply wp_of_pres; keep|].
  unfold build_enrollment_request. wp_run. simpl. split_and!; try done; lia.
Qed.

Lemma create_enrollment_request_moves body req w : wp (create_enrollment_request settings body req) (λ _, moved w) w.
Proof.
  unfold create_enrollment_request, rollback_on_error.
  eapply wp_settled; [reflexivity|frame|]. intros source w1 Hw1 _.
  eapply wp_settled; [done|frame|]. intros now w2 Hw2 _.
  apply wp_then; [|frame]. apply wp_session; [done|]. intros w3 Hw _.
  apply wp_handled; [|intros e m [= <-]; frame].
  do 3 skip_kept. cbv zeta.
  apply wp_bind. eapply wp_mono; [apply build_request_spec|]. intros [[id r]|e] w' [Hk Hr]; wp_k;
    [|by eapply stay, making_kept].
  destruct (kept_facts _ _ Hk) as (_ & _ & ?). pose proof (proj2 (proj2 Hw)). apply (making_kept _ _ _ _ Hw) in Hk as Hw4. clear Hw.
  do 3 skip_kept. unfold persist_enrollment_request. cbv zeta.
  apply wp_unnest, wp_bind, wp_insert. wp_k.
  match goal with Hw : making _ _ _ |- _ => pose proof (making_requests _ _ _ <[id := r]> Hw) as Hw' end.
  eapply wp_finish; [exact Hw'| |frame]. destruct Hr as (? & Hs & ?).
  apply move_requested; [simpl; lia|rewrite Hs; apply selection_status|done].
Qed.

Lemma expire_if_due_moves id r req now w w1 :
  making w (ledger (committed w)) w1 → table (db w1) !! id = Some r →
  wp (expire_if_due settings id r req now) (λ _, moved w) w1.
Proof.
  intros Hw Hr. unfold expire_if_due. destruct (_ && _) eqn:E; [|by eapply wp_leave; [|frame]]. propify.
  apply wp_bind, wp_update. wp_k. pose proof (making_request Hw Hr) as Hr'.
  pose proof (making_requests _ _ _ (alter (expire_request now) id) Hw) as Hw'.
  eapply wp_finish; [exact Hw'| |frame]. rewrite (alter_stored _ _ _ _ Hr').
  eapply move_expired; [done|by split_and!|done..].
Qed.

Lemma enrollment_request_status_moves id capability req w :
  wp (enrollment_request_status settings id capability req) (λ _, moved w) w.
Proof.
  unfold enrollment_request_status. eapply wp_settled; [reflexivity|frame|]. intros now w1 Hw1 _.
  apply wp_then; [|frame]. apply wp_session; [done|]. intros w2 Hw _.
  wp_step. wp_step; [|by eapply stay]. wp_step; [by eapply stay|]. by apply expire_if_due_moves.
Qed.

Lemma transition_allowed s s' u : transition_request_status s s' = Ok u → allowed s s'.
Proof. unfold transition_request_status, allowed. destruct (in_set _ _) eqn:E; [|done]. intros _. by apply bool_decide_eq_true in E. Qed.


(** A step of the state machine of a request. *)
Definition advanced (r r' : EnrollmentRequest) : Prop :=
  same_request r r' ∧ req_device_id r' = req_device_id r ∧ allowed (req_status r) (req_status r').

Lemma finish_advanced {A} (m : Tx A) w w1 id r f :
  making w (ledger (committed w)) w1 → table (db w1) !! id = Some r → advanced r (f r) →
  pres finishing m → wp m (λ _, moved w) (with_table (R := EnrollmentRequest) (alter f id) w1).
Proof. intros Hw Hr (? & ? & ?) Hm. eapply finish_request; try done. by apply rtc_once. Qed.

Lemma approve_advances r cid c now d : approve_enrollment_request r cid c now = Ok d → advanced r d.
Proof.
  unfold approve_enrollment_request. destruct (transition_request_status _ _) eqn:E; [|done]. simpl.
  apply transition_allowed in E. by destruct (selected_campaign_still_allows_request _ _ _ _); intros [= <-].
Qed.
Lemma deny_advances r reason now d : deny_enrollment_request r reason now = Ok d → advanced r d.
Proof.
  unfold deny_enrollment_request. destruct (transition_request_status _ _) eqn:E; [|done]. simpl.
  apply transition_allowed in E. by intros [= <-].
Qed.
Lemma claim_issued_advances r cid c now d :
  mark_request_claim_issued r cid c now = Ok d →
  advanced r d ∧ req_status d = e_claim_issued ∧ req_selected_campaign_id r = Some cid.
Proof.
  unfold mark_request_claim_issued. destruct (transition_request_status _ _) eqn:E; [|done]. simpl.
  apply transition_allowed in E. destruct (selected_campaign_still_allows_request _ _ _ _) eqn:Hs; [|done].
  intros [= <-]. split_and!; try done. unfold selected_campaign_still_allows_request in Hs.
  destruct (parse_address _); [|done]. by propify.
Qed.

Lemma store_decision_moves id r d admin req action now w w1 :
  making w (ledger (committed w)) w1 → table (db w1) !! id = Some r → advanced r d →
  wp (store_decision settings id d admin req action now) (λ _, moved w) w1.
Proof.
  intros Hw Hr Ha. unfold store_decision. apply wp_bind, wp_update. wp_k.
  eapply finish_advanced; [done..| |frame]. by destruct Ha.
Qed.

Lemma deny_invalid_moves id r admin req now w w1 :
  making w (ledger (committed w)) w1 → table (db w1) !! id = Some r →
  wp (deny_invalid settings id r admin req now) (λ _, moved w) w1.
Proof.
  intros Hw Hr. unfold deny_invalid. wp_step. destruct (deny_enrollment_request _ _ _) eqn:E; wp_k; [|by eapply stay].
  eapply store_decision_moves; [done..|]. by eapply deny_advances.
Qed.

Lemma approve_request_moves id admin req w : wp (approve_request settings id admin req) (λ _, moved w) w.
Proof.
  unfold approve_request, rollback_unless_http. eapply wp_settled; [reflexivity|frame|]. intros now w1 Hw1 _.
  apply wp_session; [done|]. intros w2 Hw _.
  apply wp_handled; [|intros e m; destruct (is_http e); [done|intros [= <-]; frame]].
  do 2 (wp_step; try by eapply stay). wp_step; [|by eapply stay]. wp_step. destruct (table _ !! _) eqn:Ec in |- *.
  - destruct (approve_enrollment_request _ _ _ _) eqn:E.
    + eapply store_decision_moves; [done..|]. by eapply approve_advances.
    + apply wp_then; [|frame]. destruct (in_set _ _); [by eapply deny_invalid_moves|by eapply wp_leave; [|frame]].
  - apply wp_then; [|frame]. by eapply deny_invalid_moves.
Qed.

Lemma deny_request_moves id reason admin req w : wp (deny_request settings id reason admin req) (λ _, moved w) w.
Proof.
  unfold deny_request. eapply wp_settled; [reflexivity|frame|]. intros now w1 Hw1 _.
  apply wp_session; [done|]. intros w2 Hw _.
  apply wp_handled; [|intros e m He; repeat case_match; simplify_eq; frame].
  do 2 (wp_step; try by eapply stay). case_decide; [by eapply wp_leave; [|frame]|].
  wp_step. destruct (deny_enrollment_request _ _ _) eqn:E; wp_k; [|by eapply stay].
  eapply store_decision_moves; [done..|]. by eapply deny_advances.
Qed.

(** ** Claims *)

Lemma issue_install_claim_spec campaign_id c pep session fingerprint expires_at now w :
  wp (issue_install_claim campaign_id c pep session fingerprint expires_at now) (λ r w', kept w w' ∧
    match r with
    | Ok (_, id, k) => seed w <= id < seed w' ∧ new_claim campaign_id c k ∧ clm_enrollment_request_id k = None
    | Exn _ => True
    end) w.
Proof.
  apply wp_and; [apply wp_of_pres; keep|].
  unfold issue_install_claim, now_or, _issue_token, token_bytes. wp_run.
  all: simpl; propify; split_and!; try done; try lia.
  all: unfold campaign_live in *; propify.
  all: split_and!; try done; try (by destruct (cam_revoked_at c)); try (by destruct (cam_disabled_at c)).
  all: eexists; split; [done|].
  all: match goal with E : dt_leb _ (as_utc _) = true |- _ => unfold dt_leb in E; rewrite instant_as_utc in E; by apply Z.leb_le in E end.
Qed.

Lemma move_to n n' l l1 l2 : move n n' l l1 → l2 = l1 → move n n' l l2.
Proof. by intros Hm ->. Qed.

Lemma issue_request_claim_moves id r cid c capability session fingerprint req now w w1 :
  making w (ledger (committed w)) w1 → table (db w1) !! id = Some r → table (db w1) !! cid = Some c →
  req_status r ≠ e_claim_issued →
  wp (issue_request_claim settings id r cid c capability session fingerprint req now) (λ _, moved w) w1.
Proof.
  intros Hw Hr Hc Hne. unfold issue_request_claim. wp_step; [|by eapply stay]. cbv zeta.
  apply wp_bind. eapply wp_mono; [apply issue_install_claim_spec|].
  intros [[[tok kid] k]|e] w2 [Hk Hkk]; wp_k; [|by eapply stay, making_kept].
  destruct Hkk as (Hid & Hnew & Hno). pose proof (proj2 (proj2 Hw)).
  apply (making_request Hw) in Hr. apply (making_campaign Hw) in Hc.
  apply (making_kept _ _ _ _ Hw) in Hk as Hw2. clear Hw.
  skip_kept. skip_kept. wp_step.
  destruct (mark_request_claim_issued _ _ _ _) as [r'|e] eqn:E; wp_k; [|by eapply stay].
  apply claim_issued_advances in E as (Ha & Hs & Hsel).
  apply wp_bind, wp_update. wp_k. apply wp_bind, wp_insert. wp_k.
  lazymatch goal with Hw : making _ _ ?w3 |- _ =>
    pose proof (making_claims _ _ _ <[kid := k <| clm_enrollment_request_id := Some id |> ]>
      (making_requests _ _ _ (alter (λ _, r') id) Hw)) as Hw' end.
  eapply wp_finish; [exact Hw'| |frame].
  cbn [l_requests l_claims]. rewrite (alter_stored _ _ _ _ Hr).
  destruct Ha as (? & ? & ?), Hnew as (Hcid & ?). 
  eapply move_to; [apply (move_request_claimed _ _ _ kid (k <| clm_enrollment_request_id := Some id |>) c id r r')|
    reflexivity]; simpl; try done.
  - lia.
  - by rewrite Hcid.
  - by subst cid.
Qed.

Lemma deny_selected_moves {A} id r req now (e : exn) w w1 :
  making w (ledger (committed w)) w1 → table (db w1) !! id = Some r →
  wp (_deny_invalid_selected_campaign settings id r req now ;; commit ;; raise (A := A) e) (λ _, moved w) w1.
Proof.
  intros Hw Hr. unfold _deny_invalid_selected_campaign. apply wp_unnest. wp_step.
  destruct (deny_enrollment_request _ _ _) eqn:E; wp_k; [|by eapply stay].
  apply wp_unnest, wp_bind, wp_update. wp_k. eapply finish_advanced; [done..|by eapply deny_advances|].
  frame.
Qed.

Lemma handoff_moves id body req w : wp (handoff_enrollment_request_claim settings id body req) (λ _, moved w) w.
Proof.
  unfold handoff_enrollment_request_claim. cbv zeta.
  destruct (normalize_install_session_id _) as [session|]; [|by apply wp_raise, settled_moved].
  destruct (normalize_hardware_fingerprint _) as [fingerprint|]; [|by apply wp_raise, settled_moved].
  eapply wp_settled; [reflexivity|frame|]. intros now w1 Hw1 _. apply wp_session; [done|]. intros w2 Hw _.
  apply wp_handled; [|intros e m He; repeat case_match; simplify_eq; frame].
  unfold _load_proven_request. apply wp_unnest. wp_step. apply wp_unnest. wp_step; [|by eapply stay].
  apply wp_unnest. wp_step; [by eapply stay|]. wp_step.
  destruct (dt_leb (req_expires_at _) _).
  { apply wp_then; [by apply expire_if_due_moves|frame]. }
  wp_step; [by eapply stay|]. wp_step; [|by eapply stay]. wp_step.
  destruct (table _ !! _) as [c|] eqn:Ec in |- *; simpl; [destruct (selected_campaign_still_allows_request _ _ _ _)|].
  - case_decide; [by eapply wp_leave; [|frame]|]. by eapply issue_request_claim_moves.
  - by apply deny_selected_moves.
  - by apply deny_selected_moves.
Qed.

Lemma provisioning_claim_spec cid c session fingerprint issued_at w :
  wp (provisioning_claim settings cid c session fingerprint issued_at) (λ r w', kept w w' ∧
    match r with
    | Ok (_, id, k) => seed w <= id < seed w' ∧ new_claim cid c k ∧ clm_enrollment_request_id k = None
    | Exn _ => True
    end) w.
Proof. unfold provisioning_claim. wp_step. cbv zeta. wp_step. apply issue_install_claim_spec. Qed.

Lemma provisioning_moves cid session fingerprint principal req w :
  wp (issue_provisioning_install_claim settings cid session fingerprint principal req) (λ _, moved w) w.
Proof.
  unfold issue_provisioning_install_claim.
  destruct (normalize_install_session_id _) as [session'|]; [|by apply wp_raise, settled_moved].
  destruct (normalize_hardware_fingerprint _) as [fingerprint'|]; [|by apply wp_raise, settled_moved].
  eapply wp_settled; [reflexivity|frame|]. intros _ w1 Hw1 _.
  eapply wp_settled; [exact Hw1|frame|]. intros now w2 Hw2 _. apply wp_session; [done|]. intros w3 Hw _.
  wp_step. wp_step; [|by eapply stay]. apply wp_bind, wp_try.
  eapply wp_mono; [apply provisioning_claim_spec|]. intros [[[tok kid] k]|e] w4 [Hk Hkk]; wp_k.
  - destruct Hkk as (Hid & Hnew & Hno). pose proof (proj2 (proj2 Hw)).
    apply (making_campaign Hw) in Hsome. apply (making_kept _ _ _ _ Hw) in Hk as Hw4. clear Hw.
    apply wp_bind, wp_insert. wp_k. eapply wp_finish; [by apply making_claims| |frame].
    destruct Hnew as (Hcid & Hnew). eapply move_claim_issued; simpl; [lia|by rewrite Hcid| |done].
    rewrite Hcid. by split.
  - apply (making_kept _ _ _ _ Hw), making_settled in Hk.
    destruct (_ || _); [do 2 wp_step; destruct (is_value_error e)|]; by apply settled_moved.
Qed.

(** ** Verification *)

Lemma advance_moves {A} id r next now (k : EnrollmentRequest → Tx A) w w1 :
  making w (ledger (committed w)) w1 → table (db w1) !! id = Some r → (∀ r', pres finishing (k r')) →
  wp (advance_request id r next now ≫= k) (λ _, moved w) w1.
Proof.
  intros Hw Hr Hk. unfold advance_request. apply wp_unnest. wp_step.
  destruct (transition_request_status _ _) eqn:E; wp_k; [|by eapply stay]. cbv zeta.
  apply wp_unnest, wp_bind, wp_update. wp_k. eapply finish_advanced; [done..| |frame].
  split_and!; try done. by eapply transition_allowed.
Qed.

Lemma await_device_moves id r now w w1 :
  making w (ledger (committed w)) w1 → table (db w1) !! id = Some r →
  wp (await_device id r now) (λ _, moved w) w1.
Proof.
  intros Hw Hr. unfold await_device. case_decide; [|by eapply wp_leave; [|frame]].
  apply advance_moves; [done..|]. intros r'. frame.
Qed.

Lemma complete_request_moves id r device req now w w1 :
  making w (ledger (committed w)) w1 → table (db w1) !! id = Some r →
  wp (complete_request settings id r device req now) (λ _, moved w) w1.
Proof.
  intros Hw Hr. unfold complete_request. case_decide; [|apply wp_bind, wp_ret; wp_k; apply advance_moves; [done..|]; intros r'; frame].
  unfold advance_request. apply wp_unnest. wp_step.
  destruct (transition_request_status (req_status r) _) eqn:E; wp_k; [|by eapply stay]. cbv zeta.
  apply wp_unnest, wp_bind, wp_update. wp_k. wp_step. apply wp_unnest. wp_step. cbn [req_status].
  destruct (transition_request_status _ e_completed) eqn:E'; wp_k; [|by eapply settled_moved, (making_settled _ (ledger (committed w)))].
  apply wp_unnest, wp_bind, wp_update. wp_k.
  pose proof (making_requests _ _ _ (alter (λ _, r <| req_status := e_waiting_wss |> <| req_updated_at := now |>
      <| req_status := e_completed |> <| req_updated_at := now |>) id) (making_requests _ _ _ (alter (λ _, r <| req_status := e_waiting_wss |> <| req_updated_at := now |>) id) Hw)) as Hw'.
  eapply wp_finish; [exact Hw'| |frame]. apply (making_request Hw) in Hr. cbn [l_requests].
  eapply move_to; [eapply (move_request _ _ _ id r)|].
  5: { simpl. rewrite (alter_stored _ _ _ _ Hr). simpl. rewrite alter_insert_eq. reflexivity. }
  all: try done.
  eapply rtc_l; [by eapply transition_allowed|]. eapply rtc_once. by eapply (transition_allowed e_waiting_wss).
Qed.

Lemma verify_moves id capability req w : wp (verify_enrollment_completion settings id capability req) (λ _, moved w) w.
Proof.
  unfold verify_enrollment_completion. cbv zeta. eapply wp_settled; [reflexivity|frame|]. intros now w1 Hw1 _.
  apply wp_session; [done|]. intros w2 Hw _.
  wp_step. wp_step; [|by eapply stay]. wp_step; [by eapply stay|].
  destruct (in_set _ _); [by eapply wp_leave; [|frame]|].
  wp_step; [|by eapply stay]. wp_step; [by eapply stay|].
  case_decide; [by eapply wp_leave; [|frame]|]. wp_step.
  destruct (negb (fresh_presence _ _)).
  { apply wp_then; [by apply await_device_moves|frame]. }
  unfold has_baseline. apply wp_unnest. wp_step. apply wp_unnest. wp_step. wp_step.
  destruct (negb (negb _)); [apply wp_then; [by apply await_device_moves|frame]|by apply complete_request_moves].
Qed.

(** ** POST /agent/v1/enroll *)

(** A new id of a session. *)
Lemma wp_new_id {A} (k : uuid → Tx A) w x w1 :
  making w x w1 → (∀ id w2, making w x w2 → seed w <= id < seed w2 → seed w1 <= seed w2 → wp (k id) (λ _, moved w) w2) →
  wp (uuid4 ≫= k) (λ _, moved w) w1.
Proof.
  intros (C & D & S) Hk. apply wp_bind, wp_uuid4. wp_k.
  apply Hk; [split_and!; try done; simpl; lia|simpl; lia..].
Qed.

(** The claim of a digest, as a query returns it. *)
Definition first_claim (claims : gmap uuid EnrollmentClaim) (digest : string) : option (uuid * EnrollmentClaim) :=
  head (List.filter (λ p : uuid * EnrollmentClaim, bool_decide (clm_claim_digest p.2 = digest)) (map_to_list claims)).

Lemma first_claim_lookup claims digest kid k : first_claim claims digest = Some (kid, k) → claims !! kid = Some k.
Proof.
  unfold first_claim. intros Hh. assert ((kid, k) ∈ List.filter (λ p : uuid * EnrollmentClaim, bool_decide (clm_claim_digest p.2 = digest)) (map_to_list claims)) as Hin.
  { destruct (List.filter _ _); [done|]. simpl in Hh. injection Hh as ->. by left. }
  apply elem_of_filter_bool in Hin as [Hin _]. by apply elem_of_map_to_list.
Qed.

Lemma wp_first_claim w x w1 digest Q :
  making w x w1 → Q (Ok (first_claim (l_claims x) digest)) w1 →
  wp (scalar (λ _ (c : EnrollmentClaim), bool_decide (clm_claim_digest c = digest))) Q w1.
Proof. intros (_ & <- & _) HQ. by rewrite wp_unfold. Qed.

(** What authorizes an enrollment: a campaign, and a claim of it. *)
Definition authorizes (x : Ledger) (token : string) (campaign : uuid * EnrollmentCampaign)
    (claim : option (uuid * EnrollmentClaim)) : Prop :=
  match claim with
  | None => True
  | Some (kid, k) => clm_campaign_id k = campaign.1
      ∧ ∃ digest, claim_token_digest token (device_token_pepper settings) = Ok digest
                  ∧ first_claim (l_claims x) digest = Some (kid, k)
  end.

Lemma digest_or_denied_spec r w : wp (digest_or_denied r) (λ r' w', w' = w ∧ ∀ d, r' = Ok d → r = Ok d) w.
Proof. unfold digest_or_denied. destruct r as [d|e]; [apply wp_ret|apply wp_raise]; split; [done|by intros ? [= ->]|done|done]. Qed.

Lemma load_authority_spec token w x w1 :
  making w x w1 →
  wp (_load_enrollment_authority settings token) (λ r w', w' = w1 ∧ ∀ a, r = Ok a → authorizes x token a.1 a.2) w1.
Proof.
  intros Hw. unfold _load_enrollment_authority. destruct (startswith "ec_" token).
  { apply wp_bind. eapply wp_mono; [apply digest_or_denied_spec|]. intros [d|e] w2 [-> _]; wp_k; [|done].
    repeat wp_step; (split; [done|]); by intros ? [= <-]. }
  destruct (startswith "ic_" token); [|by wp_step].
  apply wp_bind. eapply wp_mono; [apply digest_or_denied_spec|]. intros [d|e] w2 [-> Hd]; wp_k; [|done].
  apply wp_bind. eapply wp_first_claim; [done|]. wp_k. wp_step. wp_step. wp_step. wp_step.
  split; [done|]. intros ? [= <-]. destruct a as [kid k]. simpl. eauto.
Qed.

(** A campaign with a use left. *)
Definition usable (x : Ledger) (cid : uuid) (c : EnrollmentCampaign) : Prop :=
  l_campaigns x !! cid = Some c ∧ cam_use_count c < cam_max_uses c ∧ cam_revoked_at c = None.

Lemma campaign_allows_usable x cid c now source platform :
  l_campaigns x !! cid = Some c → _campaign_allows c now source platform = true → usable x cid c.
Proof.
  unfold _campaign_allows, campaign_request_matches, campaign_live. intros Hc Ha. propify.
  split_and!; try done. by destruct (cam_revoked_at c).
Qed.

Definition used (cid : uuid) (c : EnrollmentCampaign) (x : Ledger) : Ledger :=
  x <| l_campaigns := <[cid := use_campaign c]> (l_campaigns x) |>.

Lemma settled_kept_r w x w1 w' : making w x w1 → kept w1 w' → settled w w'.
Proof. intros Hw Hk. by eapply making_settled, making_kept. Qed.

(** [append_audit_event] keeps the ledger. *)
Lemma audit_kept a b c d e f g h : pres kept (append_audit_event a b c d e f g h).
Proof. keep. Qed.

Lemma aware_spec now w :
  wp (at_time ← now_or now; lift_res (_aware_utc at_time "now")) (λ _ w', kept w w') w.
Proof. apply wp_of_pres. keep. Qed.

Lemma reserve_spec token pep source platform actor now w x w1 :
  making w x w1 →
  wp (reserve_campaign_use token pep source platform actor (Some now)) (λ r w', seed w1 <= seed w' ∧ match r with
    | Ok (cid, c') => ∃ c, usable x cid c ∧ making w (used cid c x) w'
    | Exn _ => settled w w'
    end) w1.
Proof.
  intros Hw. pose proof (making_settled _ _ _ Hw) as Hs.
  unfold reserve_campaign_use, now_or. wp_step. wp_step. destruct (_aware_utc _ _); wp_k; [|done].
  apply wp_bind. eapply wp_mono; [apply digest_or_denied_spec|]. intros [d|e] w2 [-> _]; wp_k; [|done].
  wp_step; wp_step. wp_step. propify. simpl in *.
  apply wp_bind, wp_update. wp_k. pose proof (making_campaigns _ _ _ (alter use_campaign id) Hw) as Hw'.
  apply (making_campaign (c := r) Hw) in H2. rewrite (alter_stored _ _ _ _ H2) in Hw'.
  apply (wp_bind_pres kept); [apply audit_kept| |].
  - intros _ w3 Hk. wp_step. destruct (kept_facts _ _ Hk) as (_ & _ & S). split; [done|]. eexists. split; [by eapply campaign_allows_usable|by eapply making_kept].
  - intros e w3 Hk. destruct (kept_facts _ _ Hk) as (_ & _ & S). split; [done|]. by eapply settled_kept_r.
Qed.

Lemma consume_spec token pep session fingerprint source platform actor now w x w1 :
  making w x w1 →
  wp (consume_install_claim token pep session fingerprint source platform actor (Some now)) (λ r w', seed w1 <= seed w' ∧ match r with
    | Ok (kid, k') => ∃ k c digest t, claim_token_digest token pep = Ok digest
        ∧ first_claim (l_claims x) digest = Some (kid, k) ∧ clm_claimed_at k = None
        ∧ k' = k <| clm_claimed_at := Some t |> ∧ usable x (clm_campaign_id k) c
        ∧ making w (used (clm_campaign_id k) c (x <| l_claims := <[kid := k']> (l_claims x) |>)) w'
    | Exn _ => settled w w'
    end) w1.
Proof.
  intros Hw. pose proof (making_settled _ _ _ Hw) as Hs.
  unfold consume_install_claim, now_or. wp_step. wp_step. destruct (_aware_utc _ _) as [t|]; wp_k; [|done].
  apply wp_bind. eapply wp_mono; [apply digest_or_denied_spec|]. intros [d|e] w2 [-> Hd]; wp_k; [|done].
  specialize (Hd d eq_refl).
  apply wp_bind. eapply wp_first_claim; [done|]. wp_k. wp_step. destruct a as [kid k].
  wp_step. wp_step. wp_step. wp_step. simpl in *.
  apply (making_campaign Hw) in Hsome0. pose proof (first_claim_lookup _ _ _ _ Hsome) as Hk.
  propify.
  apply wp_bind, wp_update. wp_k. apply wp_bind, wp_update. wp_k.
  pose proof (making_campaigns _ _ _ (alter use_campaign (clm_campaign_id k)) (making_claims _ _ _ (alter (λ c : EnrollmentClaim, c <| clm_claimed_at := Some t |>) kid) Hw)) as Hw'.
  cbn [l_claims l_campaigns] in Hw'. rewrite (alter_stored _ _ _ _ Hk) in Hw'.
  change (l_campaigns (x <| l_claims := _ |>)) with (l_campaigns x) in Hw'.
  rewrite (alter_stored _ _ _ _ Hsome0) in Hw'.
  apply (wp_bind_pres kept); [apply audit_kept| |].
  - intros _ w3 Hkept. wp_step. destruct (kept_facts _ _ Hkept) as (_ & _ & S). split; [done|]. exists k, a, d, t.
    split_and!; try done; [by destruct (clm_claimed_at k)|by eapply campaign_allows_usable|].
    eapply making_kept; [exact Hw'|exact Hkept].
  - intros e w3 Hkept. destruct (kept_facts _ _ Hkept) as (_ & _ & S). split; [done|].
    eapply settled_kept_r; [exact Hw'|exact Hkept].
Qed.

Lemma enrolling_from s : allowed s e_enrolling → s = e_claim_issued.
Proof. unfold allowed. destruct s; cbn; set_solver. Qed.

Lemma enter_enrolling_spec claim cid now w x w1 :
  making w x w1 →
  wp (enter_enrolling claim cid now) (λ r w', seed w1 <= seed w' ∧ match r with
    | Ok None => claim ≫= (λ c, clm_enrollment_request_id c.2) = None ∧ making w x w'
    | Ok (Some (rid, r')) => claim ≫= (λ c, clm_enrollment_request_id c.2) = Some rid
        ∧ ∃ r, l_requests x !! rid = Some r ∧ same_request r r' ∧ req_status r = e_claim_issued
               ∧ req_selected_campaign_id r = Some cid
               ∧ making w (x <| l_requests := <[rid := r']> (l_requests x) |>) w'
    | Exn _ => settled w w'
    end) w1.
Proof.
  intros Hw. pose proof (making_settled _ _ _ Hw) as Hs.
  unfold enter_enrolling. destruct (claim ≫= _) as [rid|]; [|by wp_step].
  do 3 wp_step. wp_step. unfold mark_request_enrolling.
  destruct (transition_request_status _ _) eqn:E; simpl; wp_k; [|done].
  apply transition_allowed in E. apply (making_request Hw) in Hsome.
  apply wp_bind, wp_update. wp_k. wp_step. split; [done|]. split; [done|].
  pose proof (making_requests _ _ _ (alter (λ _, to_status e_enrolling now a) rid) Hw) as Hw'.
  rewrite (alter_stored _ _ _ _ Hsome) in Hw'.
  exists a. propify. split_and!; try done. by apply enrolling_from.
Qed.

(** The rest of an enrollment, after the claim's device and the request's are known. *)
Lemma enrolled_moves {A} (m : Tx A) w x w1 event_id e :
  making w x w1 →
  move (seed w) (seed w1) (ledger (committed w)) (x <| l_events := <[event_id := e]> (l_events x) |>) →
  pres finishing m → wp (insert event_id e ;; m) (λ _, moved w) w1.
Proof.
  intros Hw Hm Hf. apply wp_bind, wp_insert. wp_k. pose proof (making_events _ _ _ <[event_id := e]> Hw) as Hw'.
  eapply wp_finish; [exact Hw'|exact Hm|done].
Qed.
(** The ids, the secrets and the envelope of a new device; the event's id is last. *)
Ltac new_device :=
  lazymatch goal with Hw : making _ _ _ |- _ => eapply wp_new_id; [exact Hw|]; clear Hw; intros device_id ? Hw Hdevice _ end;
  do 6 skip_kept;
  lazymatch goal with Hw : making _ _ _ |- _ => eapply wp_new_id; [exact Hw|]; clear Hw; intros event_id ? Hw Hevent ? end.

Lemma enroll_new_moves body token request_id source ident campaign claim policy receipt issued_at w w1 :
  making w (ledger (committed w)) w1 → authorizes (ledger (committed w)) token campaign claim →
  wp (enroll_new settings body token request_id source ident campaign claim policy receipt issued_at) (λ _, moved w) w1.
Proof.
  intros Hw Ha. unfold enroll_new. cbv zeta. destruct claim as [[kid0 k0]|].
  - apply wp_unnest. apply wp_bind. eapply wp_mono; [by apply consume_spec|].
    intros [[kid k']|e] w2 [_ Hc]; wp_k; [|by apply settled_moved].
    destruct Hc as (k & c & d & t & Hd & Hf & Hcl & -> & (Hc & Hu & Hrev) & Hw2).
    destruct campaign as [cid0 camp]. simpl in Ha. destruct Ha as (<- & d' & Hd' & Hf'). assert (d' = d) as -> by congruence.
    injection (eq_trans (eq_sym Hf') Hf) as -> ->.
    clear Hw w1. apply first_claim_lookup in Hf. wp_step. cbn [fst snd].
    apply wp_bind. eapply wp_mono; [by apply enter_enrolling_spec|].
    intros [[[rid r']|]|e] w3 [_ Hr]; wp_k; [| |by apply settled_moved];
      (destruct Hr as [Hrid Hw]; clear Hw2 w2; cbn [from_option mbind option_bind fst snd clm_enrollment_request_id] in Hrid).
    + destruct Hw as (r & Hr & Hsame & Hst & Hsel & Hw).
      new_device. cbn [when is_some from_option fst].
      apply wp_bind, wp_update. wp_k. apply wp_unnest. wp_step.
      destruct (mark_request_device_registered r' device_id issued_at) as [r''|e] eqn:E; wp_k;
        [|by eapply settled_moved, (making_settled _ _ _ Hw)].
      apply wp_bind, wp_update. wp_k.
      pose proof (making_requests _ _ _ (alter (λ _, r'') rid)
        (making_claims _ _ _ (alter (λ c, c <| clm_device_id := Some device_id |>) kid) Hw)) as Hw2. clear Hw.
      do 3 skip_kept. eapply enrolled_moves; [exact Hw2| |frame].
      unfold used. simpl. rewrite !alter_insert_eq.
      unfold mark_request_device_registered in E. destruct (transition_request_status _ _) eqn:Et; simpl in E; [|done].
      eapply move_to; [eapply (move_enrolled_by_claim _ _ _ _ c kid k
        (k <| clm_claimed_at := Some t |> <| clm_device_id := Some device_id |>) device_id event_id (<[rid := r'']> (enrollment_requests (committed w))))
        |reflexivity]; try done.
      1-2: simpl in *; lia.
      simpl in Hrid. rewrite Hrid. exists r, r''. injection E as <-. destruct Hsame as (? & ? & ? & ? & ? & ? & ? & ? & ?).
      by split_and!.
    + new_device. cbn [when is_some from_option fst].
      apply wp_bind, wp_update. wp_k. wp_step.
      pose proof (making_claims _ _ _ (alter (λ c, c <| clm_device_id := Some device_id |>) kid) Hw) as Hw2. clear Hw.
      do 3 skip_kept. eapply enrolled_moves; [exact Hw2| |frame].
      unfold used. simpl. rewrite !alter_insert_eq. 
      eapply move_to; [eapply (move_enrolled_by_claim _ _ _ _ c kid k
        (k <| clm_claimed_at := Some t |> <| clm_device_id := Some device_id |>) device_id event_id (enrollment_requests (committed w)))
        |reflexivity]; try done.
      1-2: simpl in *; lia. simpl in Hrid. by rewrite Hrid.
  - apply wp_unnest. apply wp_bind. eapply wp_mono; [by apply reserve_spec|].
    intros [[cid c']|e] w2 [_ Hc]; wp_k; [|by apply settled_moved]. destruct Hc as (c & (Hc & Hu & Hrev) & Hw2).
    clear Hw w1. wp_step. cbn [fst snd].
    apply wp_bind. eapply wp_mono; [by apply enter_enrolling_spec|].
    intros [[?|]|e] w3 [_ Hr]; wp_k; [by destruct p, Hr| |by apply settled_moved]. destruct Hr as [_ Hw]. clear Hw2 w2.
    new_device. cbn [when is_some from_option fst].
    wp_step. wp_step. do 3 skip_kept. eapply enrolled_moves; [eassumption| |frame].
    eapply move_to; [eapply (move_enrolled_by_campaign _ _ _ cid c device_id event_id)|reflexivity]; try done; simpl in *; lia.
Qed.

Lemma enroll_agent_moves body req w : wp (enroll_agent settings body req) (λ _, moved w) w.
Proof.
  unfold enroll_agent. eapply wp_settled; [reflexivity|frame|]. intros token w1 Hw1 _.
  eapply wp_settled; [exact Hw1|frame|]. intros source w2 Hw2 _.
  eapply wp_settled; [exact Hw2|frame|]. intros request_id w3 Hw3 _.
  apply wp_session; [done|]. intros w4 Hw _. apply wp_handled; [|intros e m [= <-]; frame].
  apply wp_bind. eapply wp_mono; [by eapply load_authority_spec|]. intros [[campaign claim]|e] w5 [-> Ha]; wp_k; [|by eapply stay].
  specialize (Ha _ eq_refl). cbn [fst snd] in *. cbv zeta. do 6 skip_kept. wp_step; [by eapply stay|].
  match goal with |- context [match ?o with Some device => _ | None => _ end] => destruct o end.
  - eapply wp_leave; [eassumption|frame].
  - eapply enroll_new_moves; [eassumption|done].
Qed.
End moves.
