(* ===== verification/CredentialsSpecs.v ===== *)
(** * What credentials guarantee

    A sealed token comes back to the receipt and the fingerprint it was sealed
    for, while its envelope lives; a rotation hands a credential over from one
    token to the next. *)

From S2P Require Import Prelude Store Session AuditLog Frames Calendar Credentials.

Section credentials.
Context `{EnrollmentCrypto}.

(** The stored envelope of an issued one. *)
Definition envelope_of (e : IssuedRetryEnvelope) : RetryEnvelope :=
  {| ret_receipt_digest := iss_receipt_digest e; ret_fingerprint_digest := iss_fingerprint_digest e;
     ret_encrypted_token := iss_encrypted_token e; ret_encryption_nonce := iss_encryption_nonce e;
     ret_expires_at := iss_expires_at e |}.

Definition is_exn {A} (r : res A) : bool := match r with Exn _ => true | _ => false end.

Lemma proof_matches_digests receipt fingerprint e pepper :
  retry_envelope_proof_matches receipt fingerprint e pepper = true ↔
  retry_receipt_digest receipt pepper = Ok (ret_receipt_digest e)
  ∧ _context_digest fingerprint pepper _FINGERPRINT_DIGEST_CONTEXT = Ok (ret_fingerprint_digest e).
Proof.
  unfold retry_envelope_proof_matches, retry_receipt_digest.
  destruct (_context_digest receipt _ _) as [r|]; [|split; [done|by intros [? _]]].
  destruct (_context_digest fingerprint _ _) as [f|]; [|split; [done|by intros [_ ?]]].
  rewrite andb_true_iff, !bool_decide_eq_true. split; [by intros [-> ->]|by intros [[= ->] [= ->]]].
Qed.

(** A recovery has the digests of its envelope and comes in time. *)
Lemma recovery_needs_proof receipt fingerprint e pepper secret checked token :
  recover_retry_token receipt fingerprint e pepper secret checked = Some token →
  retry_receipt_digest receipt pepper = Ok (ret_receipt_digest e)
  ∧ _context_digest fingerprint pepper _FINGERPRINT_DIGEST_CONTEXT = Ok (ret_fingerprint_digest e)
  ∧ is_aware checked = true ∧ instant checked < instant (ret_expires_at e).
Proof.
  unfold recover_retry_token. destruct (_ || dt_leb _ _) eqn:E; [done|].
  destruct (retry_envelope_proof_matches _ _ _ _) eqn:Ep; [|done]. intros _. apply proof_matches_digests in Ep as [? ?]. propify. split_and!; try done. by apply Z.leb_gt.
Qed.

Lemma recover_with_proof receipt fingerprint e pepper secret checked key :
  retry_receipt_digest receipt pepper = Ok (ret_receipt_digest e) →
  _context_digest fingerprint pepper _FINGERPRINT_DIGEST_CONTEXT = Ok (ret_fingerprint_digest e) →
  _envelope_key secret = Ok key → is_aware checked = true → is_aware (ret_expires_at e) = true →
  instant checked < instant (ret_expires_at e) →
  recover_retry_token receipt fingerprint e pepper secret checked =
    (token ← aesgcm_decrypt key (ret_encryption_nonce e) (ret_encrypted_token e)
       (_envelope_aad (ret_receipt_digest e) (ret_fingerprint_digest e) (ret_expires_at e));
     if is_ascii_text token then Some token else None).
Proof.
  intros Hr Hf Hk Ha He Hlt. unfold recover_retry_token. rewrite Ha, He, Hk. simpl.
  unfold dt_leb. rewrite (proj2 (Z.leb_gt _ _)) by lia. rewrite (proj2 (proof_matches_digests _ _ _ _)) by done. done.
Qed.

Lemma context_digest_error value pepper context e : _context_digest value pepper context = Exn e → is_value_error e = true.
Proof. unfold _context_digest. by destruct (_ || _); intros [= <-]. Qed.
Lemma envelope_key_error secret e : _envelope_key secret = Exn e → is_value_error e = true.
Proof. unfold _envelope_key. by case_bool_decide; intros [= <-]. Qed.

(** What an envelope that was sealed promises. *)
Definition sealed (token fingerprint pepper secret : string) (e : IssuedRetryEnvelope) : Prop :=
  (∀ checked, is_aware checked = true → instant checked < instant (iss_expires_at e) →
     recover_retry_token (iss_receipt e) fingerprint (envelope_of e) pepper secret checked = Some token)
  ∧ ∀ receipt' fingerprint' checked t,
      recover_retry_token receipt' fingerprint' (envelope_of e) pepper secret checked = Some t →
      t = token ∧ instant checked < instant (iss_expires_at e)
      ∧ retry_receipt_digest receipt' pepper = retry_receipt_digest (iss_receipt e) pepper
      ∧ _context_digest fingerprint' pepper _FINGERPRINT_DIGEST_CONTEXT
        = _context_digest fingerprint pepper _FINGERPRINT_DIGEST_CONTEXT.

Lemma sealing token fingerprint pepper secret e key :
  (∀ key nonce data aad, aesgcm_decrypt key nonce (aesgcm_encrypt key nonce data aad) aad = Some data) →
  is_ascii_text token = true → is_aware (iss_expires_at e) = true →
  retry_receipt_digest (iss_receipt e) pepper = Ok (iss_receipt_digest e) →
  _context_digest fingerprint pepper _FINGERPRINT_DIGEST_CONTEXT = Ok (iss_fingerprint_digest e) →
  _envelope_key secret = Ok key →
  iss_encrypted_token e = aesgcm_encrypt key (iss_encryption_nonce e) token
    (_envelope_aad (iss_receipt_digest e) (iss_fingerprint_digest e) (iss_expires_at e)) →
  sealed token fingerprint pepper secret e.
Proof.
  intros Hdec Ha He Hr Hf Hk Hc. split.
  - intros checked Hch Hlt. erewrite recover_with_proof by done. simpl. rewrite Hc, Hdec. simpl. by rewrite Ha.
  - intros r f checked t Ht. destruct (recovery_needs_proof _ _ _ _ _ _ _ Ht) as (Hr' & Hf' & Hch & Hlt).
    erewrite recover_with_proof in Ht by done. simpl in *. rewrite Hc, Hdec in Ht. simpl in Ht. rewrite Ha in Ht.
    injection Ht as ->. rewrite Hr, Hr', Hf, Hf'. done.
Qed.

(** The token sealed in a retry envelope is recovered with its receipt and
    its fingerprint at any moment before the envelope expires, which is its
    lifetime after it was sealed, at most fifteen minutes; from then on nobody
    recovers it, and before then only who proves a receipt and a fingerprint with
    the digests of the envelope does, and gets this token. *)
Theorem sealed_tokens_are_recovered token fingerprint pepper secret receipt now lifetime w :
  (∀ key nonce data aad, aesgcm_decrypt key nonce (aesgcm_encrypt key nonce data aad) aad = Some data) →
  wp (seal_retry_envelope token fingerprint pepper secret receipt (Some now) lifetime) (λ r _,
    match r with
    | Ok e => instant (iss_expires_at e) = instant now + lifetime ∧ 0 < lifetime <= MAX_RETRY_ENVELOPE_LIFETIME
        ∧ iss_receipt e = default (iss_receipt e) receipt ∧ sealed token fingerprint pepper secret e
    | Exn e => is_value_error e = true
    end) w.
Proof.
  intros Hdec. unfold seal_retry_envelope, aware_now, now_or, generate_retry_receipt, token_bytes. wp_run.
  all: try (by eapply context_digest_error); try (by eapply envelope_key_error).
  all: propify; cbn [iss_expires_at]; rewrite instant_dt_add, instant_as_utc; split_and!; try done; try (unfold instant; simpl; lia).
  all: eapply sealing; try done.
Qed.

(** ** Rotation *)

Lemma device_token_matches_digest token expected pepper :
  device_token_matches token expected pepper = true ↔ expected ≠ "" ∧ device_token_digest token pepper = Ok expected.
Proof.
  unfold device_token_matches. destruct (device_token_digest token pepper) as [d|].
  - rewrite andb_true_iff, negb_true_iff, bool_decide_eq_false, bool_decide_eq_true. split; [by intros [? ->]|by intros [? [= ->]]].
  - rewrite andb_false_r. split; [done|by intros [_ ?]].
Qed.

(** Not revoked, and not expired at [t]. *)
Definition credential_usable (record : DeviceCredential) (t : datetime) : bool :=
  is_none (crd_revoked_at record) && negb (credential_expired record t).

Lemma device_digest_error token pepper e : device_token_digest token pepper = Exn e → is_value_error e = true.
Proof. unfold device_token_digest. destruct (_ || _); [by intros [= <-]|]. by destruct (negb _); intros [= <-]. Qed.

Lemma device_digest_nonempty token pepper d :
  (∀ key message, hmac_sha256 key message ≠ "") → device_token_digest token pepper = Ok d → d ≠ "".
Proof.
  intros Hmac. unfold device_token_digest. destruct (_ || _); [done|]. destruct (negb _); [done|]. intros [= <-].
  specialize (Hmac pepper token). unfold hex_bytes. by destruct (hmac_sha256 _ _).
Qed.

Section rotation.
Context (record : DeviceCredential) (digest pepper : string) (deadline : datetime).
Let rotated : DeviceCredential :=
  record <| crd_pending_token_digest := Some digest |> <| crd_rotation_overlap_expires_at := Some deadline |>.

Lemma usable_intro t : is_some (crd_revoked_at record) = false → credential_expired record t = false →
  credential_usable record t = true.
Proof. unfold credential_usable. intros H1 ->. by destruct (crd_revoked_at record). Qed.

Lemma overlap_accepts token t : is_aware deadline = true → is_aware t = true →
  device_credential_accepts_token rotated token pepper t
  = credential_usable record t && (device_token_matches token digest pepper
      || (instant t <? instant deadline) && device_token_matches token (crd_token_digest record) pepper).
Proof.
  intros Hd Ht. unfold device_credential_accepts_token, credential_usable, credential_expired. rewrite Ht. simpl. rewrite Hd.
  destruct (crd_revoked_at record); [done|]. simpl. by destruct (match crd_expires_at record with Some _ => _ | None => _ end).
Qed.

Lemma pending_refuses now overlap w : is_exn (begin_device_credential_rotation rotated pepper (Some now) overlap w).1 = true.
Proof.
  assert (wp (begin_device_credential_rotation rotated pepper (Some now) overlap) (λ r _, is_exn r = true) w) as Hw.
  { unfold begin_device_credential_rotation, aware_now, now_or. wp_run. }
  rewrite wp_unfold in Hw. by destruct (begin_device_credential_rotation _ _ _ _ w).
Qed.

Lemma activation_accepts token t record' :
  activate_pending_device_credential rotated token pepper t = Some record' →
  device_token_matches token digest pepper = true
  ∧ ∀ other t', is_aware t' = true →
      device_credential_accepts_token record' other pepper t'
      = credential_usable record t' && device_token_matches other digest pepper.
Proof.
  unfold activate_pending_device_credential. simpl. destruct (_ || negb (device_token_matches _ _ _)) eqn:E; [done|].
  intros [= <-]. propify. split; [done|]. intros other t' Ht.
  unfold device_credential_accepts_token, credential_usable, credential_expired. rewrite Ht. simpl.
  destruct (crd_revoked_at record); [done|]. simpl. by destruct (match crd_expires_at record with Some _ => _ | None => _ end).
Qed.

Lemma activation_possible token t : is_aware t = true → credential_usable record t = true →
  device_token_matches token digest pepper = true →
  is_some (activate_pending_device_credential rotated token pepper t) = true.
Proof.
  unfold activate_pending_device_credential, credential_usable, credential_expired. intros Ht Hu Hm. simpl. rewrite Ht, Hm.
  destruct (crd_revoked_at record); [done|]. simpl in *. by destruct (match crd_expires_at record with Some _ => _ | None => _ end).
Qed.
End rotation.

(** A rotation started for a usable credential gives a new token and keeps
    both: until the deadline, one overlap after its start, exactly the old and
    the new token are accepted, from then on only the new one, while the
    credential is usable.  Activating with the new token, which nothing but a
    token of its digest can do, leaves a credential that accepts only it; a
    second rotation before that is refused. *)
Theorem rotation_hands_the_credential_over record pepper now overlap w :
  (∀ key message, hmac_sha256 key message ≠ "") → is_aware now = true →
  wp (begin_device_credential_rotation record pepper (Some now) overlap) (λ r _,
    match r with
    | Exn e => is_value_error e = true
    | Ok (token', record') =>
        credential_usable record now = true ∧ 0 < overlap
        ∧ ∃ digest, device_token_digest token' pepper = Ok digest
        ∧ (∀ token t, is_aware t = true →
             device_credential_accepts_token record' token pepper t
             = credential_usable record t
               && (device_token_matches token digest pepper
                   || (instant t <? instant now + overlap)
                      && device_token_matches token (crd_token_digest record) pepper))
        ∧ (∀ now' overlap' w', is_exn (begin_device_credential_rotation record' pepper (Some now') overlap' w').1 = true)
        ∧ (∀ token t record'', activate_pending_device_credential record' token pepper t = Some record'' →
             device_token_matches token digest pepper = true
             ∧ ∀ other t', is_aware t' = true →
                 device_credential_accepts_token record'' other pepper t'
                 = credential_usable record t' && device_token_matches other digest pepper)
        ∧ ∀ t, is_aware t = true → credential_usable record t = true →
            is_some (activate_pending_device_credential record' token' pepper t) = true
    end) w.
Proof.
  intros Hmac Haware. unfold begin_device_credential_rotation, aware_now, now_or, generate_device_token, token_bytes. wp_run.
  all: try (by eapply device_digest_error). propify. split; [by apply usable_intro|]. split; [done|].
  exists a. split_and!; [done| |by intros; apply pending_refuses| |].
  - intros token t Ht. rewrite <- instant_dt_add. by apply overlap_accepts.
  - intros token t record''. apply activation_accepts.
  - intros t Ht Hu. apply activation_possible; [done..|]. apply device_token_matches_digest.
    split; [by eapply device_digest_nonempty|done].
Qed.
End credentials.

(** ** A token and a rotation *)

Section demo.
#[local] Instance plain_crypto : EnrollmentCrypto := {|
  hmac_sha256 := λ key message, String.String (Ascii.Ascii true false false false false true true false) message;
  aesgcm_encrypt := λ _ _ data _, data;
  aesgcm_decrypt := λ _ _ data _, Some data;
  random_bytes := λ n _, Z_str n |}.

Definition demo_world : World :=
  {| committed := empty_db; db := empty_db; seed := 7; clock := λ n, Z.of_nat n; ticks := 0 |}.

Definition demo_sealing : Tx IssuedRetryEnvelope :=
  seal_retry_envelope "token" "sha256:ab" "pepper" "secret" (Some "receipt") (Some (utc_datetime 0)) (minutes 5).

Lemma sealed_tokens_are_recovered_witness :
  wp demo_sealing (λ r _,
    match r with
    | Ok e => instant (iss_expires_at e) = instant (utc_datetime 0) + minutes 5
        ∧ 0 < minutes 5 <= MAX_RETRY_ENVELOPE_LIFETIME
        ∧ iss_receipt e = default (iss_receipt e) (Some "receipt") ∧ sealed "token" "sha256:ab" "pepper" "secret" e
    | Exn e => is_value_error e = true
    end) demo_world.
Proof. apply sealed_tokens_are_recovered. done. Defined.

Definition demo_credential : DeviceCredential := {|
  crd_device_id := 1; crd_credential_identifier := "c"; crd_token_digest := "d"; crd_pending_token_digest := None;
  crd_rotation_overlap_expires_at := None; crd_expires_at := None; crd_revoked_at := None |}.

Lemma rotation_hands_the_credential_over_witness :
  ∃ token record, (begin_device_credential_rotation demo_credential "pepper" (Some (utc_datetime 0)) 5 demo_world).1
    = Ok (token, record)
  ∧ device_credential_accepts_token record token "pepper" (utc_datetime 9) = true.
Proof.
  pose proof (rotation_hands_the_credential_over demo_credential "pepper" (utc_datetime 0) 5 demo_world) as Hr.
  rewrite wp_unfold in Hr.
  eexists _, _. split; [vm_compute; reflexivity|].
  destruct Hr as (_ & _ & d & Hd & Ha & _); [done..|]. rewrite Ha by done.
  rewrite (proj2 (device_token_matches_digest _ _ _)); [reflexivity|].
  split; [by eapply device_digest_nonempty|exact Hd].
Defined.
End demo.
