(* ===== verification/EnrollmentSpecs.v ===== *)
(** * What enrollment guarantees

    The refinement of the routes by the ledger, and its invariants by rule
    induction: uses of campaigns and claims are enrollments, and a request only
    moves along its state machine. *)

From S2P Require Import Prelude Store Session AuditLog Frames Contracts Demo Calendar Credentials Identity Enrollment.
From S2P Require Import EnrollmentRoutes EnrollmentRequestRoutes EnrollmentLedger.

(** ** Counting rows *)

Section tally.
Context {V : Type} (P : V → Prop) `{∀ v, Decision (P v)}.

Definition tally (m : gmap uuid V) : Z := Z.of_nat (size (filter (λ p : uuid * V, P p.2) m)).

Lemma tally_insert m i v : m !! i = None → tally (<[i := v]> m) = tally m + (if decide (P v) then 1 else 0).
Proof.
  intros Hi. unfold tally. case_decide as Hv.
  - rewrite map_filter_insert_True, map_size_insert_None; [lia| |done]. by apply map_lookup_filter_None_2; left.
  - rewrite map_filter_insert_False, delete_id by done. lia.
Qed.

Lemma tally_none m : (∀ i v, m !! i = Some v → ¬ P v) → tally m = 0.
Proof.
  intros Hm. unfold tally. assert (filter (λ p : uuid * V, P p.2) m = ∅) as ->; [|done].
  apply map_empty_filter. intros i v Hi. by eapply Hm.
Qed.
End tally.

(** The events of a campaign, and of a claim. *)
Definition of_campaign (cid : uuid) (e : EnrollmentEvent) : Prop := eev_campaign_id e = Some cid.
Definition of_claim (kid : uuid) (e : EnrollmentEvent) : Prop := eev_claim_id e = Some kid.
#[export] Instance of_campaign_dec cid e : Decision (of_campaign cid e).
Proof. unfold of_campaign. apply _. Defined.
#[export] Instance of_claim_dec kid e : Decision (of_claim kid e).
Proof. unfold of_claim. apply _. Defined.

(** ** The invariant *)

Definition ids_used (n : Z) (l : Ledger) : Prop :=
  fresh n (l_campaigns l) ∧ fresh n (l_claims l) ∧ fresh n (l_requests l) ∧ fresh n (l_events l).

Definition events_known (l : Ledger) : Prop :=
  ∀ i e, l_events l !! i = Some e →
    (∀ cid, of_campaign cid e → is_Some (l_campaigns l !! cid)) ∧ (∀ kid, of_claim kid e → is_Some (l_claims l !! kid)).

Definition uses_match (campaigns : gmap uuid EnrollmentCampaign) (events : gmap uuid EnrollmentEvent) : Prop :=
  ∀ cid c, campaigns !! cid = Some c →
    cam_use_count c = tally (of_campaign cid) events ∧ cam_use_count c <= cam_max_uses c.

(** A claim that was used enrolled one device, once; another enrolled none. *)
Definition claim_matches (events : gmap uuid EnrollmentEvent) (kid : uuid) (k : EnrollmentClaim) : Prop :=
  match clm_claimed_at k with
  | None => clm_device_id k = None ∧ tally (of_claim kid) events = 0
  | Some _ => tally (of_claim kid) events = 1
      ∧ ∃ d i, clm_device_id k = Some d ∧ events !! i = Some (enrolled (clm_campaign_id k) (Some kid) d)
  end.
Definition claims_match (claims : gmap uuid EnrollmentClaim) (events : gmap uuid EnrollmentEvent) : Prop :=
  ∀ kid k, claims !! kid = Some k → claim_matches events kid k.

(** The statuses of a request whose device has been made. *)
Definition with_device (s : request_status) : bool :=
  in_set s [e_device_registered; e_waiting_wss; e_completed; e_failed; e_expired].
Definition requests_match (l : Ledger) : Prop :=
  ∀ id r, l_requests l !! id = Some r → is_Some (req_device_id r) → with_device (req_status r) = true.

Definition sound (n : Z) (l : Ledger) : Prop := requests_match l ∧ ids_used n l ∧ events_known l ∧ uses_match (l_campaigns l) (l_events l) ∧ claims_match (l_claims l) (l_events l).

Lemma fresh_update {V} n (m : gmap uuid V) i x y : fresh n m → m !! i = Some x → fresh n (<[i := y]> m).
Proof. intros Hf Hi. apply fresh_insert; [done|by eapply Hf]. Qed.

(** ** The progress of requests *)

(** A transition, or the expiry by polling. *)
Definition progress (s s' : request_status) : Prop := allowed s s' ∨ closed_request s = false ∧ s' = e_expired.

Lemma progress_closed s s' : rtc progress s s' → closed_request s = true → s' = s.
Proof.
  intros [->|(y & Hp & _)]%rtc_inv Hc; [done|]. exfalso.
  destruct Hp as [Ha|[Hc' _]]; [|congruence]. unfold allowed in Ha. destruct s; try done; by apply not_elem_of_nil in Ha.
Qed.

Lemma with_device_stays s s' : rtc progress s s' → with_device s = true → with_device s' = true.
Proof.
  induction 1 as [|s1 s2 s3 Hp _ IH]; [done|]. intros Hd. apply IH.
  destruct Hp as [Ha|[_ ->]]; [|done]. unfold allowed in Ha.
  destruct s1; try discriminate Hd; cbn in Ha; destruct s2; try done; set_solver.
Qed.

(** An event of a campaign that did not exist, or of a claim, cannot be. *)
Lemma no_event_of_new_campaign n l id : ids_used n l → events_known l → n <= id → tally (of_campaign id) (l_events l) = 0.
Proof.
  intros (F & _) He Hid. apply tally_none. intros i e Hi Hc. destruct (He i e Hi) as [H _].
  destruct (H id Hc) as [c Hlk]. specialize (F _ _ Hlk). lia.
Qed.
Lemma no_event_of_new_claim n l id : ids_used n l → events_known l → n <= id → tally (of_claim id) (l_events l) = 0.
Proof.
  intros (_ & F & _) He Hid. apply tally_none. intros i e Hi Hc. destruct (He i e Hi) as [_ H].
  destruct (H id Hc) as [c Hlk]. specialize (F _ _ Hlk). lia.
Qed.

Lemma fresh_above {V} n (m : gmap uuid V) id : fresh n m → n <= id → m !! id = None.
Proof. intros Hf Hid. destruct (m !! id) eqn:E; [|done]. specialize (Hf _ _ E). lia. Qed.

(** One use of a campaign. *)
Lemma uses_enrolled campaigns events cid c i kid d :
  uses_match campaigns events → campaigns !! cid = Some c → cam_use_count c < cam_max_uses c → events !! i = None →
  uses_match (<[cid := use_campaign c]> campaigns) (<[i := enrolled cid kid d]> events).
Proof.
  intros Hu Hc Hlt Hi cid' c' [[<- <-]|[Hne Hc']]%lookup_insert_Some; rewrite tally_insert by done.
  - destruct (Hu _ _ Hc). rewrite decide_True by done. simpl. lia.
  - destruct (Hu _ _ Hc'). rewrite decide_False; [lia|]. by intros [= ?].
Qed.

(** One use of a claim, or none. *)
Lemma claim_enrolled events kid k i cid kid' d :
  claim_matches events kid k → events !! i = None → kid' ≠ Some kid →
  claim_matches (<[i := enrolled cid kid' d]> events) kid k.
Proof.
  unfold claim_matches. intros Hk Hi Hne. rewrite tally_insert by done. rewrite decide_False by done.
  rewrite Z.add_0_r. destruct (clm_claimed_at k); [|done]. destruct Hk as (Ht & d' & j & Hd & Hj). split; [done|].
  exists d', j. split; [done|]. rewrite lookup_insert_ne; [done|]. intros ->. congruence.
Qed.

(** What stays of a request. *)
Definition request_lasts (r r' : EnrollmentRequest) : Prop :=
  same_request r r' ∧ rtc progress (req_status r) (req_status r')
  ∧ ∀ d, req_device_id r = Some d → req_device_id r' = Some d.

Lemma request_lasts_refl r : request_lasts r r.
Proof. split_and!; try done. Qed.
Lemma request_lasts_trans r1 r2 r3 : request_lasts r1 r2 → request_lasts r2 r3 → request_lasts r1 r3.
Proof.
  intros (S & P & D) (S' & P' & D'). split_and!; [|by etrans|auto].
  unfold same_request in *. split_and!; destruct S as (?&?&?&?&?&?&?&?&?), S' as (?&?&?&?&?&?&?&?&?); congruence.
Qed.

Lemma request_changed (m : gmap uuid EnrollmentRequest) id r r' :
  m !! id = Some r → same_request r r' → rtc progress (req_status r) (req_status r') →
  (∀ d, req_device_id r = Some d → req_device_id r' = Some d) → rows_kept request_lasts m (<[id := r']> m).
Proof.
  intros Hr Hs Hp Hd id' r'' Hr''. destruct (decide (id' = id)) as [->|Hne].
  - exists r'. rewrite lookup_insert_eq. split; [done|]. by simplify_eq.
  - exists r''. rewrite lookup_insert_ne by done. split; [done|apply request_lasts_refl].
Qed.

Section steps.
Context (n n' : Z) (l l' : Ledger) (Hn : n <= n') (Hmove : move n n' l l').

Lemma ids_used_step : ids_used n l → ids_used n' l'.
Proof.
  intros (F1 & F2 & F3 & F4).
  assert (ids_used n' l) as (G1 & G2 & G3 & G4) by (split_and!; by eapply fresh_le).
  destruct Hmove; (split_and!; simpl; try assumption;
    try first [eapply fresh_update; eassumption | apply fresh_insert; [assumption|]; lia]).
  destruct (clm_enrollment_request_id k) as [rid|]; [|by subst].
  match goal with Hr : ∃ _ _, _ |- _ => destruct Hr as (r & r' & Hr & _ & _ & ->) end. by eapply fresh_update.
Qed.

(** No row is ever removed. *)
Lemma campaigns_stay cid : is_Some (l_campaigns l !! cid) → is_Some (l_campaigns l' !! cid).
Proof. intros Hc. destruct Hmove; simpl; try done; apply lookup_insert_is_Some'; auto. Qed.
Lemma claims_stay kid : is_Some (l_claims l !! kid) → is_Some (l_claims l' !! kid).
Proof. intros Hc. destruct Hmove; simpl; try done; apply lookup_insert_is_Some'; auto. Qed.

Lemma new_event_known i e : l_events l' !! i = Some e →
  l_events l !! i = Some e ∨
  ∃ cid kid d, e = enrolled cid kid d ∧ is_Some (l_campaigns l !! cid) ∧ (∀ k, kid = Some k → is_Some (l_claims l !! k)).
Proof.
  destruct Hmove; simpl; try by left.
  all: intros [[<- <-]|[_ Hi]]%lookup_insert_Some; [right|by left].
  all: do 3 eexists; split; [done|]; split; [eauto|]; by intros ? [= <-].
Qed.

Lemma events_known_step : events_known l → events_known l'.
Proof.
  intros He i e [Hi|(cid & kid & d & -> & Hc & Hk)]%new_event_known.
  - destruct (He i e Hi). split; intros ? ?; [apply campaigns_stay|apply claims_stay]; auto.
  - split; [intros ? [= <-]; by apply campaigns_stay|]. intros k [= ->]. apply claims_stay. by apply Hk.
Qed.

Lemma uses_match_step :
  ids_used n l → events_known l → uses_match (l_campaigns l) (l_events l) → uses_match (l_campaigns l') (l_events l').
Proof.
  intros Hf He Hu. destruct Hmove; simpl; try done.
  - intros cid c' [[<- <-]|[_ Hc]]%lookup_insert_Some; [|by apply Hu].
    rewrite (no_event_of_new_campaign n) by (done || lia). lia.
  - intros cid c'' [[<- <-]|[_ Hc]]%lookup_insert_Some; [|by apply Hu].
    match goal with H : l_campaigns l !! _ = Some _ |- _ => destruct (Hu _ _ H) end. lia.
  - apply uses_enrolled; try done. by apply (fresh_above n); [apply Hf|lia].
  - apply uses_enrolled; try done. by apply (fresh_above n); [apply Hf|lia].
Qed.

Lemma claims_match_step :
  ids_used n l → events_known l → claims_match (l_claims l) (l_events l) → claims_match (l_claims l') (l_events l').
Proof.
  intros Hf He Hk. destruct Hmove as [| | | | | |id k c Hid Hc Hnew| id k c rid r r' Hid Hc Hnew| |]; simpl; try done.
  - intros kid k' [[<- <-]|[_ Hc']]%lookup_insert_Some; [|by apply Hk].
    destruct Hnew as (_ & Hcl & Hd & _). unfold claim_matches. rewrite Hcl. split; [done|].
    apply (no_event_of_new_claim n); [done..|lia].
  - intros kid k' [[<- <-]|[_ Hc']]%lookup_insert_Some; [|by apply Hk].
    destruct Hnew as (_ & Hcl & Hd & _). unfold claim_matches. rewrite Hcl. split; [done|].
    apply (no_event_of_new_claim n); [done..|lia].
  - intros kid k Hkid. apply claim_enrolled; [by apply Hk| |done]. by apply (fresh_above n); [apply Hf|lia].
  - assert (l_events l !! event_id = None) by (by apply (fresh_above n); [apply Hf|lia]).
    intros kid' k'' [[<- <-]|[Hne Hc']]%lookup_insert_Some; [|apply claim_enrolled; [by apply Hk|done|congruence]].
    unfold claim_matches. destruct (clm_claimed_at k') eqn:E; [|done].
    match goal with H : l_claims l !! _ = Some _, H' : clm_claimed_at k = None |- _ =>
      specialize (Hk _ _ H); unfold claim_matches in Hk; rewrite H' in Hk end.
    destruct Hk as [_ Hk]. rewrite tally_insert, Hk, decide_True by done. split; [done|].
    exists device_id, event_id. split; [done|]. rewrite lookup_insert_eq. congruence.
Qed.

Lemma requests_match_step : requests_match l → requests_match l'.
Proof.
  intros Hr. destruct Hmove as [| | |id r Hid Hs Hd|id r r' Hlk Hsame Ha Hd|id r r' Hlk Hsame Hc Hs Hd| |
    id k c rid r r' Hid Hc Hnew Hk Hlk Hsame Ha Hs Hsel Hd| |????????????????? Hreq]; try done; unfold requests_match; simpl.
  - intros id' r' [[<- <-]|[_ Hlk]]%lookup_insert_Some; [rewrite Hd; by intros [? [=]]|eauto].
  - intros id' r'' [[<- <-]|[_ Hlk']]%lookup_insert_Some; [|eauto].
    rewrite Hd. intros Hdev. eapply with_device_stays; [|by eapply Hr].
    by eapply (rtc_subrel allowed); [intros ? ? ?; left|].
  - intros id' r'' [[<- <-]|[_ Hlk']]%lookup_insert_Some; [by rewrite Hs|eauto].
  - intros id' r'' [[<- <-]|[_ Hlk']]%lookup_insert_Some; [|eauto].
    rewrite Hd. intros Hdev. eapply with_device_stays; [|by eapply Hr]. apply rtc_once. by left.
  - destruct (clm_enrollment_request_id k); [|by subst].
    match goal with H : ∃ _ _, _ |- _ => destruct H as (r & r' & _ & (_ & _ & Hs & _) & _ & ->) end.
    intros id' r'' [[<- <-]|[_ Hlk']]%lookup_insert_Some; [by rewrite Hs|eauto].
Qed.

Lemma requests_last_step : ids_used n l → requests_match l → rows_kept request_lasts (l_requests l) (l_requests l').
Proof.
  intros Hf Hr. destruct Hmove as [| | |id r Hid Hs Hd|id r r' Hlk Hsame Ha Hd|id r r' Hlk Hsame Hc Hs Hd| |
    id k c rid r r' Hid Hc Hnew Hk Hlk Hsame Ha Hs Hsel Hd| |????????????????? Hreq];
    try (by apply rows_kept_refl, request_lasts_refl); simpl.
  - apply rows_kept_insert; [apply request_lasts_refl|]. by apply (fresh_above n); [apply Hf|lia].
  - eapply request_changed; [done..| |by rewrite Hd]. by eapply (rtc_subrel allowed); [intros ? ? ?; left|].
  - eapply request_changed; [done..| |by rewrite Hd]. apply rtc_once. by right.
  - eapply request_changed; [done..| |by rewrite Hd]. apply rtc_once. by left.
  - destruct (clm_enrollment_request_id k); [|subst; by apply rows_kept_refl, request_lasts_refl].
    match goal with H : ∃ _ _, _ |- _ => destruct H as (r & r' & Hlk & (Hsame & Hs & Hs' & Hd) & _ & ->) end.
    eapply request_changed; [done..| |].
    + rewrite Hs, Hs'. apply (rtc_l _ _ e_enrolling); [|apply rtc_once]; left; unfold allowed; cbn; set_solver.
    + intros d Hdev. exfalso. specialize (Hr _ _ Hlk (mk_is_Some _ _ Hdev)). by rewrite Hs in Hr.
Qed.

Lemma sound_step : sound n l → sound n' l'.
Proof.
  intros (Hr & Hf & He & Hu & Hk). split_and!; [by apply requests_match_step|by apply ids_used_step|by apply events_known_step|
    by apply uses_match_step|by apply claims_match_step].
Qed.
End steps.

(** ** The routes and their runs *)

Section runs.
Context `{Contracts} `{EnrollmentCrypto} `{IpText} (settings : Settings).

(** The handlers of the routes, and the periodic cleanup. *)
Inductive enrollment_route : ∀ A, Tx A → Prop :=
| route_enroll body req : enrollment_route _ (enroll_agent settings body req)
| route_retry body req : enrollment_route _ (retry_enrollment_delivery settings body req)
| route_acknowledge body req : enrollment_route _ (acknowledge_enrollment_delivery settings body req)
| route_rotate req : enrollment_route _ (rotate_device_credential settings req)
| route_activate req : enrollment_route _ (activate_device_credential settings req)
| route_create_campaign fields admin req : enrollment_route _ (create_campaign settings fields admin req)
| route_update_campaign id body admin req : enrollment_route _ (update_campaign settings id body admin req)
| route_revoke_campaign id admin req : enrollment_route _ (revoke_enrollment_campaign settings id admin req)
| route_create_request body req : enrollment_route _ (create_enrollment_request settings body req)
| route_status id capability req : enrollment_route _ (enrollment_request_status settings id capability req)
| route_claim id body req : enrollment_route _ (handoff_enrollment_request_claim settings id body req)
| route_approve id admin req : enrollment_route _ (approve_request settings id admin req)
| route_deny id reason admin req : enrollment_route _ (deny_request settings id reason admin req)
| route_verify id capability req : enrollment_route _ (verify_enrollment_completion settings id capability req)
| route_install_claim cid session fingerprint principal req :
    enrollment_route _ (issue_provisioning_install_claim settings cid session fingerprint principal req)
| route_cleanup request_id now limit :
    enrollment_route _ (request (cleanup_expired_retry_envelopes request_id now limit)).

Lemma cleanup_settled request_id now limit : pres settled (request (cleanup_expired_retry_envelopes request_id now limit)).
Proof. frame. Qed.

Lemma moved_of_wp {A} (m : Tx A) w : wp m (λ _, moved w) w → moved w (m w).2.
Proof. rewrite wp_unfold. by destruct (m w). Qed.

#[local] Hint Resolve retry_settled acknowledge_settled rotate_settled activate_settled cleanup_settled : settled.
#[local] Hint Resolve enroll_agent_moves create_campaign_moves update_campaign_moves revoke_enrollment_campaign_moves
  create_enrollment_request_moves enrollment_request_status_moves handoff_moves approve_request_moves
  deny_request_moves verify_moves provisioning_moves : moves.

Lemma moved_of_settled {A} (m : Tx A) w : pres settled m → moved w (m w).2.
Proof. intros Hm. by apply settled_moved. Qed.

Lemma route_moved A (m : Tx A) w : enrollment_route A m → moved w (m w).2.
Proof.
  intros Hr. destruct Hr;
    first [apply moved_of_settled; solve [auto with settled] | apply moved_of_wp; solve [auto with moves]].
Qed.

(** C7: the ledger of campaigns, claims, requests and enrollment events is an
    abstract machine that enrollment refines: whatever a route of enrollment, of
    its administration or of provisioning is asked, whatever it answers or
    raises, and wherever a commit fails, what it leaves committed is one move of
    the ledger: nothing; a campaign created or changed without touching its
    uses; a request asked for, moved along its state machine or expired; a claim
    issued under a live campaign; or one enrollment that takes one use of a live
    campaign, spends an unspent claim and registers its request's device at once. *)
Theorem routes_refine_the_ledger A (m : Tx A) w : enrollment_route A m → moved w (m w).2.
Proof. apply route_moved. Qed.

(** A route, or other work that leaves the ledger alone. *)
Inductive enrollment_step (w : World) : World → Prop :=
| step_route A (m : Tx A) : enrollment_route A m → enrollment_step w (m w).2
| step_elsewhere w' : settled w w' → enrollment_step w w'.

Lemma step_moved w w' : enrollment_step w w' → moved w w'.
Proof. intros [A m Hr|w'' Hs]; [by apply route_moved|by apply settled_moved]. Qed.

Lemma run_sound w w' :
  rtc enrollment_step w w' → sound (seed w) (ledger (committed w)) → sound (seed w') (ledger (committed w')).
Proof.
  induction 1 as [|w1 w2 w3 Hs _ IH]; [done|]. intros Hw. apply IH. apply step_moved in Hs as [Hn Hm]. by eapply sound_step.
Qed.

(** C5: over every run of the routes, with other work in between, the uses of a
    campaign are exactly its enrollments and never exceed its bound, however it
    was changed in between; and a claim that was consumed made one enrollment,
    of the device it records, under its own campaign, while a claim that was
    not made none. *)
Theorem uses_are_enrollments w w' :
  sound (seed w) (ledger (committed w)) → rtc enrollment_step w w' →
  (∀ cid c, enrollment_campaigns (committed w') !! cid = Some c →
     cam_use_count c = tally (of_campaign cid) (enrollment_events (committed w')) ∧ cam_use_count c <= cam_max_uses c)
  ∧ ∀ kid k, enrollment_claims (committed w') !! kid = Some k →
      claim_matches (enrollment_events (committed w')) kid k.
Proof. intros Hw Hr. by destruct (run_sound _ _ Hr Hw) as (_ & _ & _ & ? & ?). Qed.

(** C6: over every run of the routes a request keeps what it was asked for, the
    device it once made, and its place in the state machine: its status follows
    the allowed transitions, or polling expires it when it is not denied,
    expired, failed or cancelled; a request with one of these four keeps it. *)
Theorem requests_follow_their_state_machine w w' id r :
  sound (seed w) (ledger (committed w)) → rtc enrollment_step w w' →
  enrollment_requests (committed w) !! id = Some r →
  ∃ r', enrollment_requests (committed w') !! id = Some r' ∧ same_request r r'
        ∧ rtc progress (req_status r) (req_status r') ∧ (∀ d, req_device_id r = Some d → req_device_id r' = Some d)
        ∧ (closed_request (req_status r) = true → req_status r' = req_status r).
Proof.
  intros Hw Hr Hid.
  assert (rows_kept request_lasts (enrollment_requests (committed w)) (enrollment_requests (committed w'))) as Hk.
  { clear Hid. induction Hr as [|w1 w2 w3 Hs _ IH]; [by apply rows_kept_refl, request_lasts_refl|].
    apply step_moved in Hs as [Hn Hm].
    eapply rows_kept_trans; [apply request_lasts_trans| |apply IH; by eapply sound_step].
    pose proof Hw as (? & ? & _).
    by apply (requests_last_step (seed w1) (seed w2) (ledger (committed w1)) (ledger (committed w2))). }
  destruct (Hk _ _ Hid) as (r' & Hr' & Hs & Hp & Hd). exists r'. split_and!; try done. by apply progress_closed.
Qed.

(** ** Polling *)

Definition requests_view (w : World) := (enrollment_requests (db w), committed w).

(** Polling a request answers 404 when it is unknown or the capability is
    wrong; when its time is over and it is not denied, expired, failed or
    cancelled - completed ones included - it is expired, and committed, unless
    the commit or its audit fails; otherwise its status is answered as it is,
    except for the three statuses the answer has no word for, and nothing is
    committed. *)
Theorem polling_reports_or_expires id capability req w :
  let now := utc_datetime (clock w (ticks w)) in
  wp (enrollment_request_status settings id capability req) (λ a w',
    match enrollment_requests (committed w) !! id with
    | Some r =>
        if negb (request_capability_matches capability (req_request_capability_digest r) (device_token_pepper settings))
        then a = Exn request_not_found ∧ committed w' = committed w
        else if dt_leb (req_expires_at r) now && negb (closed_request (req_status r))
        then
          (∃ answer, a = Ok answer ∧ pers_status answer = e_expired
             ∧ pers_reason answer = Some "REQUEST_EXPIRED"
             ∧ enrollment_requests (committed w') = <[id := expire_request now r]> (enrollment_requests (committed w)))
          ∨ (∃ e, a = Exn e) ∧ committed w' = committed w
        else committed w' = committed w ∧
          if public_status (req_status r)
          then ∃ answer, a = Ok answer ∧ pers_status answer = req_status r ∧ pers_reason answer = req_decision_reason r
          else a = Exn (ValidationError "PreEnrollmentRequestStatusV1")
    | None => a = Exn request_not_found ∧ committed w' = committed w
    end) w.
Proof.
  intros now. unfold enrollment_request_status. wp_step. apply wp_bind, wp_in_session. wp_step.
  change (table (db _) !! id) with (enrollment_requests (committed w) !! id).
  destruct (enrollment_requests (committed w) !! id) as [r|] eqn:Hr; [|by wp_step]. wp_step. unfold pepper.
  destruct (negb (request_capability_matches _ _ _)); wp_step. unfold expire_if_due. fold now.
  destruct (_ && _) eqn:E.
  - apply wp_bind, wp_update. wp_k.
    apply (wp_bind_pres (same requests_view)); [frame| |intros e w1 [= _ C]; right; split; [eauto|exact C]].
    intros request_id w1 [= D1 C1].
    apply (wp_bind_pres (same requests_view)); [frame| |intros e w2 [= _ C2]; right; split; [eauto|simpl; congruence]].
    intros _ w2 [= D2 C2]. wp_step; [|right; split; [eauto|simpl; congruence]]. wp_step. unfold status_answer. wp_step. wp_step.
    left. eexists. split; [done|]. split; [done|]. split; [done|]. simpl. rewrite D2, D1. by apply alter_stored.
  - wp_step. unfold status_answer. destruct (public_status (req_status r)) eqn:Ep; wp_step. wp_step. eauto.
Qed.
End runs.

(** ** A run: a campaign, a request and a device *)

Section demo.
#[local] Existing Instance demo_contracts.

(** A deterministic stand-in for the cryptography and the randomness. *)
#[local] Instance demo_crypto : EnrollmentCrypto := {|
  hmac_sha256 := λ key message, message;
  aesgcm_encrypt := λ _ _ data _, data;
  aesgcm_decrypt := λ _ _ data _, Some data;
  random_bytes := λ n _, Z_str n |}.

#[local] Instance demo_ip : IpText := {|
  parse_address := λ _, Some {| ip_version := 4; ip_value := 167772161 |};
  parse_network := λ _, Some {| net_version := 4; net_base := 167772160; net_prefix := 8 |};
  address_text := λ _, "10.0.0.1";
  network_text := λ _, "10.0.0.0/8" |}.

Definition demo_settings : Settings := {|
  device_token_pepper := "p"; service_token_pepper := "s"; session_secret := "k";
  allowed_agent_cidrs := [{| net_version := 4; net_base := 167772160; net_prefix := 8 |}];
  trusted_proxy_cidrs := [] |}.

Definition demo_http (token : option string) : HttpRequest :=
  {| client_host := Some "10.0.0.1"; forwarded_for := []; authorization := (λ t, "Bearer " +:+ t) <$> token;
     x_request_id := None |}.

Definition demo_campaign : CampaignFields := {|
  cf_expires_at := utc_datetime (hours 48); cf_max_uses := 1; cf_allowed_cidrs := ["10.0.0.0/8"];
  cf_target_platform := "windows";
  cf_policy := [("policy_id", JStr "p1"); ("enrollment_mode", JStr "auto");
                ("allowed_installer_releases", JList [JStr "1.0"])];
  cf_label := Some "Lab"; cf_site := None |}.

Definition demo_body : AgentEnrollmentRequestV1 := {|
  aer_platform := "windows"; aer_hardware_fingerprint := "sha256:ab"; aer_installation_id := "i";
  aer_delivery_nonce := "0123456789012345678901234567890123456789012";
  aer_requested_at := utc_datetime 0 |}.

Definition demo_setup : PreEnrollmentRequestCreateV1 := {|
  perc_installation_id := "i"; perc_hardware_fingerprint := "sha256:ab"; perc_request_capability := "c";
  perc_installer_release_id := "1.0" |}.

Definition enrollment_start : World := {|
  committed := empty_db; db := empty_db; seed := 100; clock := λ n, Z.of_nat n; ticks := 0 |}.

(** The campaign and its token; the device that enrolls with it. *)
Definition with_campaign : World := (create_campaign demo_settings demo_campaign 1 (demo_http None) enrollment_start).2.
Definition campaign_token : string := "ec_313030.MTAx".
Definition with_enrolled : World :=
  (enroll_agent demo_settings demo_body (demo_http (Some campaign_token)) with_campaign).2.

Lemma enrollment_start_sound : sound (seed enrollment_start) (ledger (committed enrollment_start)).
Proof. unfold sound, ids_used. split_and!; by intros ? ? [=]. Qed.

Lemma routes_refine_the_ledger_witness : moved with_campaign with_enrolled.
Proof. apply (routes_refine_the_ledger demo_settings), route_enroll. Defined.

Lemma uses_are_enrollments_witness :
  sound (seed enrollment_start) (ledger (committed enrollment_start)) ∧ ∀ cid c, enrollment_campaigns (committed with_enrolled) !! cid = Some c →
    cam_use_count c = tally (of_campaign cid) (enrollment_events (committed with_enrolled))
    ∧ cam_use_count c <= cam_max_uses c.
Proof.
  split; [apply enrollment_start_sound|].
  apply (uses_are_enrollments demo_settings enrollment_start); [apply enrollment_start_sound|].
  eapply rtc_l; [apply (step_route demo_settings _ _ _ (route_create_campaign demo_settings demo_campaign 1 (demo_http None)))|].
  eapply rtc_once. apply (step_route demo_settings _ _ _ (route_enroll demo_settings demo_body _)).
Defined.

(** A completed request whose time has passed, polled. *)
Definition completed_request : EnrollmentRequest := {|
  req_created_at := utc_datetime 0; req_installation_id_digest := "i"; req_fingerprint_digest := "f";
  req_request_capability_digest := "c"; req_platform := "windows"; req_source_address := "10.0.0.1";
  req_installer_release_id := "1.0"; req_selected_campaign_id := Some 3; req_status := e_completed;
  req_decision_reason := None; req_decided_at := None; req_decided_by := None; req_device_id := Some 4;
  req_updated_at := utc_datetime 0; req_expires_at := utc_datetime 0 |}.
Definition with_completed : World :=
  enrollment_start <| committed := empty_db <| enrollment_requests := {[ 5 := completed_request ]} |> |>.

Lemma requests_follow_their_state_machine_witness :
  ∃ r', enrollment_requests (committed (enrollment_request_status demo_settings 5 "c" (demo_http None) with_completed).2) !! 5
        = Some r' ∧ same_request completed_request r' ∧ rtc progress e_completed (req_status r').
Proof.
  destruct (requests_follow_their_state_machine demo_settings with_completed
    (enrollment_request_status demo_settings 5 "c" (demo_http None) with_completed).2 5 completed_request)
    as (r' & Hr & Hs & Hp & _).
  - unfold sound, ids_used. split_and!; try (by intros ? ? [=]); intros id r Hid; simpl in Hid; apply lookup_singleton_Some in Hid as [<- <-]; [done|simpl; lia].
  - eapply rtc_once. apply (step_route demo_settings _ _ _ (route_status demo_settings 5 "c" (demo_http None))).
  - done.
  - by exists r'.
Defined.
End demo.

(** Two requests of one installation: while one is approved the other may wait,
    but then the approved one cannot be handed its claim; and a request that was
    denied leaves room for one that a policy approves. *)
Example approved_requests_are_not_active :
  let open_installation r := if request_active (req_status r) then Some (req_installation_id_digest r) else None in
  let rows s t := {[ 1 := completed_request <| req_status := s |>; 2 := completed_request <| req_status := t |> ]}
    : gmap uuid EnrollmentRequest in
  unique_on open_installation (rows e_approved e_waiting_approval) = true
  ∧ unique_on open_installation (rows e_claim_issued e_waiting_approval) = false
  ∧ unique_on open_installation (rows e_denied e_auto_approved) = true.
Proof. vm_compute. done. Qed.
