(* ===== verification/PowerEvents.v ===== *)
(** * Power evidence on the wire (endpoint_contracts/power_events.py)

    The events an agent reads from its operating system, the batches it sends
    and the acknowledgements it gets.  A column or frame that holds JSON text of
    one of these models holds the model itself here; what depends on the text,
    its length and how pydantic prints a datetime, is the class [PowerText]. *)

From S2P Require Import Prelude Store AuditLog Contracts.

Record PowerEventV1 := {
  event_identifier : uuid;
  event_kind : string;
  occurred_at : datetime;
  observed_at : datetime;
  boot_id : string;
  source : string;
  native_record_id : string;
  evidence : string;
  sleep_subtype : option string
}.

(** [PowerEventV1.validate_evidence] *)
Definition validate_evidence (e : PowerEventV1) : bool :=
  (is_none (sleep_subtype e) || bool_decide (event_kind e = "OS_SLEEP_STARTED"))
  && (negb (bool_decide (event_kind e = "OS_UNEXPECTED_SHUTDOWN_REPORTED"))
      || bool_decide (evidence e = "reported"))
  && (negb (str_in (event_kind e) ["OS_STARTED"; "OS_RESUMED"]) || bool_decide (evidence e = "transition")).

Inductive availability := READY | DEGRADED | UNAVAILABLE | UNSUPPORTED.
#[export] Instance availability_eq_dec : EqDecision availability.
Proof. solve_decision. Defined.

Record PowerSourceStatusV1 := {
  st_source : string;
  st_availability : availability;
  st_reported_at : datetime;
  st_coverage_started_at : option datetime;
  st_loss_count : Z;
  st_reset_count : Z
}.
#[export] Instance PowerSourceStatusV1_eta : Eta PowerSourceStatusV1 := λ s,
  Build_PowerSourceStatusV1 (st_source s) (st_availability s) (st_reported_at s) (st_coverage_started_at s)
    (st_loss_count s) (st_reset_count s).

(** [PowerSourceStatusV1.validate_coverage] *)
Definition validate_coverage (s : PowerSourceStatusV1) : bool :=
  match st_coverage_started_at s with Some c => dt_leb c (st_reported_at s) | None => true end.

Record PowerEventBatchV1 := {
  batch_id : uuid;
  events : list PowerEventV1;
  source_status : PowerSourceStatusV1
}.

(** [PowerEventBatchV1.unique_events] *)
Definition unique_events (l : list PowerEventV1) : bool := bool_decide (NoDup (map event_identifier l)).

Inductive disposition := d_accepted | d_retry_later | d_rejected.
#[export] Instance disposition_eq_dec : EqDecision disposition.
Proof. solve_decision. Defined.

Record PowerEventDispositionV1 := {
  dsp_event_identifier : uuid;
  dsp_disposition : disposition;
  dsp_reason_code : string
}.

Record PowerEventAckV1 := {
  ack_batch_id : uuid;
  persisted_at : datetime;
  results : list PowerEventDispositionV1
}.

(** [PowerEventAckV1.unique_results] and the bound of its list *)
Definition unique_results (l : list PowerEventDispositionV1) : bool :=
  bool_decide (NoDup (map dsp_event_identifier l)) && (Z.of_nat (length l) <=? 128).

Definition MAX_POWER_EVENT_BATCH_BYTES_V1 : Z := 60 * 1024.

(** What depends on the JSON text of the models. *)
Class PowerText := {
  (** the length of [event.model_dump_json()] in bytes *)
  dump_length : PowerEventV1 → nat;
  (** a datetime of [model_dump(mode="json")] *)
  dump_time : datetime → string;
  (** [gateway_wire_size] of the envelope of a batch *)
  gateway_wire_size : PowerEventBatchV1 → Z;
  (** the length of the details the server stores for an event received at a moment *)
  details_length : PowerEventV1 → datetime → Z
}.

(** [event.model_dump(mode="json", exclude={"observed_at"})] *)
Record StableEvent := {
  stable_identifier : uuid;
  stable_kind : string;
  stable_occurred_at : string;
  stable_boot_id : string;
  stable_source : string;
  stable_native_record_id : string;
  stable_evidence : string;
  stable_sleep_subtype : option string
}.
#[export] Instance StableEvent_eq_dec : EqDecision StableEvent.
Proof. solve_decision. Defined.

Section stable.
Context `{PowerText}.

Definition _stable (e : PowerEventV1) : StableEvent :=
  {| stable_identifier := event_identifier e; stable_kind := event_kind e;
     stable_occurred_at := dump_time (occurred_at e); stable_boot_id := boot_id e; stable_source := source e;
     stable_native_record_id := native_record_id e; stable_evidence := evidence e;
     stable_sleep_subtype := sleep_subtype e |}.
End stable.
