(* ===== verification/PowerSpool.v ===== *)
(** * The queue of power evidence (pc_agent/power/spool.py)

    A SQLite database of three tables: the queue in the order of its sequence
    numbers, the one row of state and the quarantine.  Timestamps are ISO texts
    and are compared as texts.  A transaction that raises leaves the database as
    it was. *)

From S2P Require Import Prelude Store AuditLog Contracts Calendar PowerEvents.

Definition MAX_AGE : timedelta := days 30.

Record QueuedEvent := {
  q_sequence : Z;
  q_identifier : uuid;
  q_occurred_at : string;
  q_payload : PowerEventV1
}.

Record QuarantinedEvent := {
  z_sequence : Z;
  z_identifier : uuid;
  z_reason : string;
  z_rejected_at : string
}.

Record PowerEventSpool := {
  opened : bool;
  power_queue : list QueuedEvent;
  queue_sequence : Z;                 (* AUTOINCREMENT *)
  checkpoint : option string;
  status : option PowerSourceStatusV1;
  overflow : Z;
  expired : Z;
  rejected : Z;
  loss : Z;
  resets : Z;
  power_quarantine : list QuarantinedEvent;
  quarantine_sequence : Z
}.
#[export] Instance PowerEventSpool_eta : Eta PowerEventSpool := λ s,
  Build_PowerEventSpool (opened s) (power_queue s) (queue_sequence s) (checkpoint s) (status s) (overflow s)
    (expired s) (rejected s) (loss s) (resets s) (power_quarantine s) (quarantine_sequence s).

(** A database [open] has just created. *)
Definition new_spool : PowerEventSpool :=
  {| opened := true; power_queue := []; queue_sequence := 0; checkpoint := None; status := None; overflow := 0;
     expired := 0; rejected := 0; loss := 0; resets := 0; power_quarantine := []; quarantine_sequence := 0 |}.

(** A page of a native source (pc_agent/power/native.py). *)
Record NativePage := {
  page_events : list PowerEventV1;
  page_checkpoint : option string;
  page_status : PowerSourceStatusV1;
  page_loss_count : Z;
  page_reset_count : Z
}.

Record PowerSpoolStats := {
  queued_events : Z;
  queued_payload_bytes : Z;
  dropped_overflow : Z;
  dropped_expired : Z;
  rejected_permanent : Z;
  quarantined_events : Z
}.

Abbreviation Spool := (M PowerEventSpool).

Definition ask {A} (f : PowerEventSpool → A) : Spool A := λ s, (Ok (f s), s).
Definition change (f : PowerEventSpool → PowerEventSpool) : Spool unit := λ s, (Ok tt, f s).

(** [async with self._transaction()]; the checks of the file are left out. *)
Definition _transaction {A} (body : Spool A) : Spool A := λ s,
  if opened s then
    match body s with
    | (Ok a, s') => (Ok a, s')
    | (Exn e, _) => (Exn e, s)
    end
  else (Exn (PowerEventSpoolError "power queue is not open"), s).

Definition lift {A} (r : res A) : Spool A := λ s, (r, s).

(** A result of date arithmetic; beyond the years 1 to 9999 it is an OverflowError. *)
Definition in_range (d : datetime) : res datetime :=
  if representable d then Ok d else Exn (OutsideModel "OverflowError").

Definition _utc (value : datetime) : res datetime :=
  if is_aware value then in_range (as_utc value) else Exn (ValueError "power timestamps must be aware").

(** [_utc(now) - MAX_AGE] *)
Definition cutoff (now : datetime) : res datetime :=
  res_bind (_utc now) (λ now, in_range (utc_datetime (instant now - MAX_AGE))).

(** [a < b] on TEXT columns *)
Definition text_ltb (a b : string) : bool := match String.compare a b with Lt => true | _ => false end.

Definition lastn {A} (n : nat) (l : list A) : list A := drop (length l - n) l.

Section spool.
Context `{PowerText} (max_events max_payload_bytes : Z).

(** [COALESCE(SUM(length(CAST(payload AS BLOB))),0)] *)
Definition payload_size (q : QueuedEvent) : Z := Z.of_nat (dump_length (q_payload q)).
Definition queue_bytes (l : list QueuedEvent) : Z := foldr Z.add 0 (map payload_size l).

Definition _expire (now : datetime) : Spool unit :=
  limit ← lift (cutoff now);
  let old := isoformat limit in
  change (λ s,
    let kept := List.filter (λ q, negb (text_ltb (q_occurred_at q) old)) (power_queue s) in
    let rowcount := Z.of_nat (length (power_queue s)) - Z.of_nat (length kept) in
    s <| power_quarantine := List.filter (λ z, negb (text_ltb (z_rejected_at z) old)) (power_quarantine s) |>
      <| power_queue := kept |> <| expired := expired s + rowcount |>).

(** The loop of [_trim]: the rows left and the number dropped. *)
Fixpoint trim_queue (queue : list QueuedEvent) (count size dropped : Z) : res (list QueuedEvent * Z) :=
  if (max_events <? count) || (max_payload_bytes <? size) then
    match queue with
    | q :: queue => trim_queue queue (count - 1) (size - payload_size q) (dropped + 1)
    | [] => Exn (TypeError "cannot unpack non-iterable NoneType object")
    end
  else Ok (queue, dropped).

Definition _trim : Spool unit :=
  queue ← ask power_queue;
  trimmed ← lift (trim_queue queue (Z.of_nat (length queue)) (queue_bytes queue) 0);
  change (λ s, s <| power_queue := trimmed.1 |> <| overflow := overflow s + trimmed.2 |>).

(** [SELECT payload FROM power_queue WHERE identifier=?] *)
Definition queued (identifier : uuid) (l : list QueuedEvent) : option PowerEventV1 :=
  q_payload <$> List.find (λ q, q_identifier q =? identifier) l.

Definition insert_event (event : PowerEventV1) : Spool unit :=
  occurred ← lift (_utc (occurred_at event));
  change (λ s,
    s <| power_queue := power_queue s ++
           [{| q_sequence := queue_sequence s + 1; q_identifier := event_identifier event;
               q_occurred_at := isoformat occurred; q_payload := event |}] |>
      <| queue_sequence := queue_sequence s + 1 |>).

Definition count_expired : Spool unit := change (λ s, s <| expired := expired s + 1 |>).

(** [_utc(event.occurred_at) < _utc(now) - MAX_AGE] *)
Definition too_old (event : PowerEventV1) (now : datetime) : res bool :=
  res_bind (_utc (occurred_at event)) (λ occurred, res_bind (cutoff now) (λ limit, Ok (dt_ltb occurred limit))).

(** One turn of the loop of [commit_page]. *)
Definition commit_event (now : datetime) (event : PowerEventV1) : Spool unit :=
  existing ← ask (λ s, queued (event_identifier event) (power_queue s));
  match existing with
  | Some payload =>
      if decide (_stable payload = _stable event) then mret tt
      else raise (PowerEventSpoolError "conflicting native power identity")
  | None =>
      old ← lift (too_old event now);
      if old : bool then count_expired else insert_event event
  end.

Definition commit_page (page : NativePage) (now : datetime) : Spool unit :=
  if (128 <? Z.of_nat (length (page_events page)))
     || match page_checkpoint page with Some c => 16384 <? Z.of_nat (String.length c) | None => false end
  then raise (PowerEventSpoolError "native page exceeds bound")
  else
    _transaction (
      _expire now ;;
      for_each (page_events page) (commit_event now) ;;
      _trim ;;
      change (λ s, s <| checkpoint := page_checkpoint page |> <| status := Some (page_status page) |>
                     <| loss := loss s + page_loss_count page |> <| resets := resets s + page_reset_count page |>)).

Definition record (event : PowerEventV1) (now : datetime) : Spool unit :=
  _transaction (
    existing ← ask (λ s, queued (event_identifier event) (power_queue s));
    match existing with
    | Some payload =>
        if decide (_stable payload = _stable event) then mret tt
        else raise (PowerEventSpoolError "conflicting callback identity")
    | None =>
        _expire now ;;
        old ← lift (too_old event now);
        if old : bool then count_expired else (insert_event event ;; _trim)
    end).

Definition set_unavailable (src : string) (now : datetime) : Spool unit :=
  _transaction (
    previous ← ask status;
    let status' := {| st_source := src; st_availability := UNAVAILABLE; st_reported_at := now;
                      st_coverage_started_at := previous ≫= st_coverage_started_at;
                      st_loss_count := 0; st_reset_count := 0 |} in
    if is_aware now && validate_coverage status' then change (λ s, s <| status := Some status' |>)
    else raise (ValidationError "PowerSourceStatusV1")).

(** The stored status with the counters of the queue. *)
Definition reported_status (s : PowerEventSpool) : option PowerSourceStatusV1 :=
  st ← status s;
  Some (st <| st_loss_count := overflow s + expired s + rejected s + loss s |> <| st_reset_count := resets s |>).

Definition source_status_of : Spool (option PowerSourceStatusV1) := _transaction (ask reported_status).

(** The loop of [next_batch]: events are added while the frame stays within its
    bound. *)
Fixpoint fill_batch (batch : PowerEventBatchV1) (rows : list PowerEventV1) : PowerEventBatchV1 :=
  match rows with
  | [] => batch
  | event :: rows =>
      let candidate := {| batch_id := batch_id batch; events := events batch ++ [event];
                          source_status := source_status batch |} in
      if MAX_POWER_EVENT_BATCH_BYTES_V1 <? gateway_wire_size candidate then batch else fill_batch candidate rows
  end.

(** [new_id] is the [uuid4()] of the batch. *)
Definition next_batch (new_id : uuid) (now : datetime) : Spool (option PowerEventBatchV1) :=
  r ← _transaction (
    _expire now ;;
    rows ← ask (λ s, map q_payload (take 128 (power_queue s)));
    state ← ask reported_status;
    mret (rows, state));
  mret (st ← snd r;
        Some (fill_batch {| batch_id := new_id; events := []; source_status := st |} (fst r))).

(** The rows that still hold an event of the batch hold it unchanged. *)
Fixpoint same_rows (batch : list PowerEventV1) (queue : list QueuedEvent) : bool :=
  match batch with
  | [] => true
  | event :: batch =>
      match queued (event_identifier event) queue with
      | Some payload => bool_decide (_stable payload = _stable event) && same_rows batch queue
      | None => same_rows batch queue
      end
  end.

(** One disposition of an acknowledgement. *)
Definition settle (persisted : datetime) (result : PowerEventDispositionV1) : Spool unit :=
  if decide (dsp_disposition result = d_retry_later) then mret tt
  else
    let identifier := dsp_event_identifier result in
    present ← ask (λ s, is_some (queued identifier (power_queue s)));
    if negb present then mret tt
    else
      change (λ s, s <| power_queue := List.filter (λ q, negb (q_identifier q =? identifier)) (power_queue s) |>) ;;
      when (bool_decide (dsp_disposition result = d_rejected)) (
        at_time ← lift (_utc persisted);
        change (λ s,
          s <| rejected := rejected s + 1 |>
            <| power_quarantine := power_quarantine s ++
                 [{| z_sequence := quarantine_sequence s + 1; z_identifier := identifier;
                     z_reason := dsp_reason_code result; z_rejected_at := isoformat at_time |}] |>
            <| quarantine_sequence := quarantine_sequence s + 1 |>)).

Definition acknowledge (batch : PowerEventBatchV1) (ack : PowerEventAckV1) : Spool bool :=
  let ids := map event_identifier (events batch) in
  if negb (ack_batch_id ack =? batch_id batch) || negb (bool_decide (map dsp_event_identifier (results ack) = ids))
  then mret false
  else
    _transaction (
      same ← ask (λ s, same_rows (events batch) (power_queue s));
      if negb same then mret false
      else
        for_each (results ack) (settle (persisted_at ack)) ;;
        limit ← lift (cutoff (persisted_at ack));
        change (λ s,
          s <| power_quarantine :=
                 List.filter (λ z, negb (text_ltb (z_rejected_at z) (isoformat limit)))
                   (lastn 128 (power_quarantine s)) |>) ;;
        mret true).

Definition stats : Spool PowerSpoolStats :=
  _transaction (ask (λ s,
    {| queued_events := Z.of_nat (length (power_queue s)); queued_payload_bytes := queue_bytes (power_queue s);
       dropped_overflow := overflow s; dropped_expired := expired s; rejected_permanent := rejected s;
       quarantined_events := Z.of_nat (length (power_quarantine s)) |})).
End spool.
