(* ===== verification/PowerSpoolSpecs.v ===== *)
(** * The queue of power evidence keeps its bounds and accounts for every event *)

From S2P Require Import Prelude Store AuditLog Contracts Calendar PowerEvents PowerSpool.

(** ** Runs that returned *)

Lemma bind_Ok {S A B} (m : M S A) (k : A → M S B) s b s' :
  mbind k m s = (Ok b, s') → ∃ a s1, m s = (Ok a, s1) ∧ k a s1 = (Ok b, s').
Proof. unfold mbind, M_bind. destruct (m s) as [[a|e] s1]; [eauto|done]. Qed.

Lemma lift_Ok {A} (r : res A) s a s' : lift r s = (Ok a, s') → r = Ok a ∧ s' = s.
Proof. by intros [= -> ->]. Qed.

Lemma ask_Ok {A} (f : PowerEventSpool → A) s a s' : ask f s = (Ok a, s') → a = f s ∧ s' = s.
Proof. by intros [= <- <-]. Qed.

Lemma change_Ok f s u s' : change f s = (Ok u, s') → s' = f s.
Proof. by intros [= _ <-]. Qed.

(** A transaction that returned ran its body; any other left the spool alone. *)
Lemma transaction_Ok {A} (body : Spool A) s a s' :
  _transaction body s = (Ok a, s') → opened s = true ∧ body s = (Ok a, s').
Proof. unfold _transaction. destruct (opened s), (body s) as [[]]; naive_solver. Qed.

Lemma transaction_Exn {A} (body : Spool A) s e s' : _transaction body s = (Exn e, s') → s' = s.
Proof. unfold _transaction. destruct (opened s), (body s) as [[]]; naive_solver. Qed.

(** Take a run that returned apart. *)
Ltac run H :=
  repeat match type of H with
  | mbind _ _ _ = (Ok _, _) =>
      let a := fresh "a" in let s := fresh "t" in let E := fresh "E" in
      apply bind_Ok in H as (a & s & E & H); run E
  | lift _ _ = (Ok _, _) => let E := fresh "E" in apply lift_Ok in H as [E ->]
  | ask _ _ = (Ok _, _) => apply ask_Ok in H as [-> ->]
  | change _ _ = (Ok _, _) => apply change_Ok in H as ->
  end.

(** ** Sublists *)

Lemma sublist_map {A B} (f : A → B) l k : l `sublist_of` k → map f l `sublist_of` map f k.
Proof. induction 1; simpl; by constructor. Qed.

Lemma sublist_Forall {A} (P : A → Prop) l k : l `sublist_of` k → Forall P k → Forall P l.
Proof. rewrite !Forall_forall. intros Hl Hk x Hx. apply Hk. by eapply elem_of_sublist. Qed.

Lemma sublist_sorted {A} (R : relation A) l k : l `sublist_of` k → StronglySorted R k → StronglySorted R l.
Proof.
  induction 1 as [|x l k Hl IH|x l k Hl IH]; [done| |].
  - intros [Hs Hall]%StronglySorted_inv. constructor; [by apply IH|by eapply sublist_Forall].
  - intros [Hs _]%StronglySorted_inv. by apply IH.
Qed.

Lemma sublist_filter_bool {A} (f : A → bool) l : List.filter f l `sublist_of` l.
Proof. induction l as [|x l IH]; simpl; [done|]. destruct (f x); by constructor. Qed.

Section specs.
Context `{PowerText} (max_events max_bytes : Z).

(** ** The invariant of a queue *)

Definition row_ok (q : QueuedEvent) : Prop :=
  q_identifier q = event_identifier (q_payload q) ∧ is_aware (occurred_at (q_payload q)) = true
  ∧ representable (as_utc (occurred_at (q_payload q))) = true
  ∧ q_occurred_at q = isoformat (as_utc (occurred_at (q_payload q))).

(** Rows are found by their identifiers, numbered in the order in which they came
    and hold what was recorded. *)
Definition queue_ok (s : PowerEventSpool) : Prop :=
  NoDup (map q_identifier (power_queue s))
  ∧ StronglySorted Z.lt (map q_sequence (power_queue s))
  ∧ (∀ q, q ∈ power_queue s → q_sequence q <= queue_sequence s)
  ∧ Forall row_ok (power_queue s).

(** What a queue has taken charge of: what it holds and what it has counted. *)
Definition account (s : PowerEventSpool) : Z :=
  Z.of_nat (length (power_queue s)) + overflow s + expired s + rejected s.

Definition identifiers (s : PowerEventSpool) : list uuid := map q_identifier (power_queue s).

Lemma queued_None id l : queued id l = None ↔ id ∉ map q_identifier l.
Proof.
  unfold queued. induction l as [|q l IH]; simpl; [split; [by intros _ ?%elem_of_nil|done]|].
  rewrite elem_of_cons. destruct (Z.eqb_spec (q_identifier q) id) as [->|Hne]; simpl; [naive_solver|].
  rewrite IH. split; [intros Hi [?|?]; congruence|tauto].
Qed.

Lemma queued_Some id l e : queued id l = Some e → ∃ q, q ∈ l ∧ q_identifier q = id ∧ q_payload q = e.
Proof.
  unfold queued. intros (q & [Hq Hid]%List.find_some & ->)%fmap_Some_1. exists q.
  rewrite list_elem_of_In. propify. done.
Qed.

Lemma sorted_app_last l n : StronglySorted Z.lt l → (∀ x, x ∈ l → x < n) → StronglySorted Z.lt (l ++ [n]).
Proof.
  induction 1 as [|x l Hs IH Hall]; simpl; [constructor; constructor|]. intros Hn. constructor.
  - apply IH. intros y Hy. apply Hn. by right.
  - apply Forall_app. split; [done|]. constructor; [|done]. apply Hn. left.
Qed.

Lemma sublist_ok s l :
  queue_ok s → l `sublist_of` power_queue s →
  NoDup (map q_identifier l) ∧ StronglySorted Z.lt (map q_sequence l)
  ∧ (∀ q, q ∈ l → q_sequence q <= queue_sequence s) ∧ Forall row_ok l.
Proof.
  intros (Hd & Hs & Hq & Hr) Hl. split_and!.
  - eapply sublist_NoDup; [exact Hd|by apply sublist_map].
  - eapply sublist_sorted; [|exact Hs]. by apply sublist_map.
  - intros q Hin. apply Hq. by eapply elem_of_sublist.
  - by eapply sublist_Forall.
Qed.

(** ** The operations *)

(** Rows leave the queue, the counters of what left go up. *)
Definition dropped_from (s s' : PowerEventSpool) : Prop :=
  power_queue s' `sublist_of` power_queue s ∧ queue_sequence s' = queue_sequence s ∧ account s' = account s
  ∧ opened s' = opened s ∧ power_quarantine s' `sublist_of` power_quarantine s
  ∧ rejected s' = rejected s ∧ overflow s <= overflow s' ∧ expired s <= expired s'.

Lemma dropped_ok s s' : dropped_from s s' → queue_ok s → queue_ok s'.
Proof.
  intros (Hl & Hn & _) Hs. pose proof (sublist_ok s _ Hs Hl) as (? & ? & Hq & ?).
  split_and!; [done..| |done]. intros q Hin. rewrite Hn. by apply Hq.
Qed.

Lemma expire_spec now s u s' : _expire now s = (Ok u, s') → dropped_from s s'.
Proof.
  unfold _expire. intros Hrun. run Hrun. unfold dropped_from, account. simpl.
  match goal with Hc : cutoff _ = Ok ?l |- _ => rename l into limit end.
  pose proof (sublist_filter_bool (λ q, negb (text_ltb (q_occurred_at q) (isoformat limit))) (power_queue s)) as Hl.
  pose proof (sublist_length _ _ Hl). split_and!; try done; try lia. apply sublist_filter_bool.
Qed.

Lemma trim_queue_spec l count size dropped l' n :
  count = Z.of_nat (length l) → size = queue_bytes l →
  trim_queue max_events max_bytes l count size dropped = Ok (l', n) →
  l' `suffix_of` l ∧ n - dropped = Z.of_nat (length l) - Z.of_nat (length l')
  ∧ Z.of_nat (length l') <= max_events ∧ queue_bytes l' <= max_bytes.
Proof.
  revert count size dropped. induction l as [|q l IH]; intros count size dropped Hc Hz; cbn [trim_queue].
  - destruct (_ || _) eqn:E; [done|]. intros [= <- <-]. propify. subst. split_and!; [done|lia|done|done].
  - destruct (_ || _) eqn:E.
    + intros (Hl & Hn & Hb)%IH; [|simpl in *; lia|unfold queue_bytes in *; simpl in *; lia].
      pose proof (suffix_length _ _ Hl). simpl. split_and!; [by apply suffix_cons_r|lia|apply Hb|apply Hb].
    + intros [= <- <-]. propify. subst. split_and!; [done|lia|done|done].
Qed.

Lemma suffix_sublist {A} (l k : list A) : l `suffix_of` k → l `sublist_of` k.
Proof. intros [p ->]. by apply sublist_inserts_l. Qed.

Definition bounded (s : PowerEventSpool) : Prop :=
  Z.of_nat (length (power_queue s)) <= max_events ∧ queue_bytes (power_queue s) <= max_bytes.

Lemma trim_spec s u s' : _trim max_events max_bytes s = (Ok u, s') → dropped_from s s' ∧ bounded s'.
Proof.
  unfold _trim. intros Hrun. run Hrun.
  match goal with Ht : trim_queue _ _ _ _ _ _ = Ok ?r |- _ =>
    destruct r as [l n]; apply trim_queue_spec in Ht as (Hl & Hn & Hb); [|done..] end. unfold dropped_from, account, bounded. simpl.
  pose proof (suffix_length _ _ Hl). split; [|done]. split_and!; try done; try lia. by apply suffix_sublist.
Qed.

(** Trimming always succeeds: an empty queue is within any bound. *)
Lemma trim_runs s : 0 <= max_events → 0 <= max_bytes → ∃ s', _trim max_events max_bytes s = (Ok tt, s').
Proof.
  intros He Hb.
  assert (∀ l count size dropped, count = Z.of_nat (length l) → size = queue_bytes l →
            ∃ r, trim_queue max_events max_bytes l count size dropped = Ok r) as Hl.
  { induction l as [|q l IH]; intros count size dropped -> ->; cbn [trim_queue].
    - destruct (_ || _) eqn:E; [|eauto]. apply orb_true_iff in E as [E|E]; propify; unfold queue_bytes in *; simpl in *; lia.
    - destruct (_ || _); [|eauto]. apply IH; [simpl; lia|unfold queue_bytes; simpl; lia]. }
  unfold _trim. destruct (Hl (power_queue s) _ _ 0 eq_refl eq_refl) as [r Er].
  exists (s <| power_queue := r.1 |> <| overflow := overflow s + r.2 |>).
  unfold mbind, M_bind, ask, lift, change. by rewrite Er.
Qed.

Lemma queue_bytes_nonneg l : 0 <= queue_bytes l.
Proof. unfold queue_bytes. induction l as [|q l IH]; simpl; [done|]. unfold payload_size at 1. lia. Qed.

Lemma in_range_Ok d d' : in_range d = Ok d' → representable d = true ∧ d' = d.
Proof. unfold in_range. destruct (representable d); [|done]. by intros [= <-]. Qed.

Lemma utc_Ok d d' : _utc d = Ok d' → is_aware d = true ∧ representable (as_utc d) = true ∧ d' = as_utc d.
Proof. unfold _utc. destruct (is_aware d); [|done]. intros [??]%in_range_Ok. done. Qed.

Lemma cutoff_Ok now d :
  cutoff now = Ok d → is_aware now = true ∧ d = utc_datetime (instant now - MAX_AGE) ∧ representable d = true.
Proof.
  unfold cutoff. destruct (_utc now) as [u|] eqn:E; [|done]. simpl. apply utc_Ok in E as (Ha & _ & ->).
  rewrite instant_as_utc. intros [? ->]%in_range_Ok. done.
Qed.

Lemma insert_spec e s u s' :
  insert_event e s = (Ok u, s') → queue_ok s → event_identifier e ∉ identifiers s →
  queue_ok s' ∧ account s' = account s + 1 ∧ identifiers s' = identifiers s ++ [event_identifier e]
  ∧ opened s' = opened s ∧ power_quarantine s' = power_quarantine s ∧ rejected s' = rejected s
  ∧ overflow s' = overflow s ∧ expired s' = expired s.
Proof.
  unfold insert_event, identifiers. intros Hrun (Hd & Hs & Hq & Hr) Hnew. run Hrun.
  match goal with Hu : _utc _ = Ok _ |- _ => apply utc_Ok in Hu as (Ha & Hrep & ->) end.
  unfold account. simpl. split_and!; try done.
  - unfold queue_ok. simpl. rewrite !map_app. simpl. split_and!.
    + apply NoDup_app. split_and!; [done| |apply NoDup_singleton].
      intros x Hx ->%list_elem_of_singleton. done.
    + apply sorted_app_last; [done|]. intros x (q & -> & Hin)%list_elem_of_fmap. specialize (Hq q Hin). lia.
    + intros q [Hin|Hin%list_elem_of_singleton]%elem_of_app; [specialize (Hq q Hin); lia|subst q; simpl; lia].
    + apply Forall_app. split; [done|]. by repeat constructor.
  - rewrite length_app. simpl. lia.
  - by rewrite map_app.
Qed.

(** ** Accounting

    The events of a page that the queue takes charge of: those that are not
    queued yet. [ids] are the identifiers queued before. *)
Fixpoint offered (now : datetime) (ids : list uuid) (l : list PowerEventV1) : Z :=
  match l with
  | [] => 0
  | e :: l =>
      if decide (event_identifier e ∈ ids) then offered now ids l
      else
        match too_old e now with
        | Ok true => 1 + offered now ids l
        | _ => 1 + offered now (ids ++ [event_identifier e]) l
        end
  end.

Lemma offered_bounds now ids l : 0 <= offered now ids l <= Z.of_nat (length l).
Proof.
  revert ids. induction l as [|e l IH]; intros ids; simpl; [done|].
  destruct (decide _); [specialize (IH ids); lia|].
  pose proof (IH ids). pose proof (IH (ids ++ [event_identifier e])).
  destruct (too_old e now) as [[]|]; lia.
Qed.

(** What a step that only adds keeps. *)
Definition same_limits (s s' : PowerEventSpool) : Prop :=
  opened s' = opened s ∧ power_quarantine s' = power_quarantine s ∧ rejected s' = rejected s
  ∧ overflow s' = overflow s ∧ expired s <= expired s'.

Lemma commit_events_spec now l s u s' :
  for_each l (commit_event now) s = (Ok u, s') → queue_ok s →
  queue_ok s' ∧ account s' = account s + offered now (identifiers s) l ∧ same_limits s s'.
Proof.
  revert s. induction l as [|e l IH]; intros s Hrun Hs; cbn [for_each] in Hrun.
  { injection Hrun as _ <-. split_and!; [done|simpl; lia|by split_and!]. }
  run Hrun. unfold commit_event in E. run E. cbn [offered].
  destruct (queued (event_identifier e) (power_queue s)) as [p|] eqn:Eq.
  - destruct (decide (_stable p = _stable e)); [|done]. injection E as _ <-.
    apply IH in Hrun as (? & -> & ?); [|done]. rewrite decide_True; [done|].
    apply queued_Some in Eq as (q & Hq & <- & _). by apply list_elem_of_fmap_2.
  - apply queued_None in Eq. rewrite decide_False by done. run E.
    match goal with Ht : too_old _ _ = Ok ?b |- _ => rename b into old; rewrite Ht; clear Ht end. destruct old.
    + unfold count_expired in E. run E. apply IH in Hrun as (? & Ea & Hl); [|done].
      unfold account, same_limits, identifiers in *. simpl in *.
      destruct Hl as (? & ? & ? & ? & ?). split_and!; first [done|congruence|lia].
    + apply insert_spec in E as (Hs1 & Ea1 & Ei & E1 & E2 & E3 & E4 & E5); [|done..].
      apply IH in Hrun as (? & Ea & Hl); [|done]. rewrite Ei in Ea.
      unfold same_limits in *. destruct Hl as (? & ? & ? & ? & ?). split_and!; first [done|congruence|lia].
Qed.

(** The events a disposition takes out of the queue as accepted. *)
Fixpoint delivered (ids : list uuid) (l : list PowerEventDispositionV1) : Z :=
  match l with
  | [] => 0
  | r :: l =>
      let id := dsp_event_identifier r in
      if decide (dsp_disposition r = d_retry_later ∨ id ∉ ids) then delivered ids l
      else (if decide (dsp_disposition r = d_accepted) then 1 else 0)
           + delivered (List.filter (λ i, negb (i =? id)) ids) l
  end.

Lemma filter_absent id (l : list QueuedEvent) :
  id ∉ map q_identifier l → List.filter (λ q, negb (q_identifier q =? id)) l = l.
Proof.
  induction l as [|q l IH]; simpl; [done|]. rewrite not_elem_of_cons. intros [Hne Hl].
  destruct (Z.eqb_spec (q_identifier q) id); [congruence|]. simpl. by rewrite IH.
Qed.

(** Deleting by identifier takes one row. *)
Lemma filter_one id (l : list QueuedEvent) :
  NoDup (map q_identifier l) → id ∈ map q_identifier l →
  Z.of_nat (length (List.filter (λ q, negb (q_identifier q =? id)) l)) = Z.of_nat (length l) - 1.
Proof.
  induction l as [|q l IH]; simpl; [by intros _ ?%elem_of_nil|]. intros [Hq Hd]%NoDup_cons.
  rewrite elem_of_cons. destruct (Z.eqb_spec (q_identifier q) id) as [<-|Hne]; simpl.
  - intros _. rewrite filter_absent by done. lia.
  - intros [?|Hin]; [congruence|]. specialize (IH Hd Hin). lia.
Qed.

Lemma filter_identifiers id (l : list QueuedEvent) :
  map q_identifier (List.filter (λ q, negb (q_identifier q =? id)) l)
  = List.filter (λ i, negb (i =? id)) (map q_identifier l).
Proof. induction l as [|q l IH]; simpl; [done|]. destruct (_ =? _); simpl; by rewrite IH. Qed.

(** What a settled disposition leaves behind. *)
Definition settled (s s' : PowerEventSpool) (n : Z) : Prop :=
  power_queue s' `sublist_of` power_queue s ∧ queue_sequence s' = queue_sequence s
  ∧ account s' = account s - n ∧ opened s' = opened s ∧ overflow s' = overflow s ∧ expired s' = expired s.

Lemma settled_refl s : settled s s 0.
Proof. unfold settled. split_and!; [done|done|lia|done..]. Qed.

Lemma settled_ok s s' n : settled s s' n → queue_ok s → queue_ok s'.
Proof.
  intros (Hl & Hn & _) Hs. pose proof (sublist_ok s _ Hs Hl) as (? & ? & Hq & ?).
  split_and!; [done..| |done]. intros q Hin. rewrite Hn. by apply Hq.
Qed.

Lemma settle_spec persisted r s u s' :
  settle persisted r s = (Ok u, s') → queue_ok s →
  if decide (dsp_disposition r = d_retry_later ∨ dsp_event_identifier r ∉ identifiers s) then s' = s
  else settled s s' (if decide (dsp_disposition r = d_accepted) then 1 else 0)
    ∧ identifiers s' = List.filter (λ i, negb (i =? dsp_event_identifier r)) (identifiers s).
Proof.
  unfold settle, identifiers. intros Hrun (Hd & _).
  destruct (decide (dsp_disposition r = d_retry_later)) as [Hr|Hr].
  { injection Hrun as _ <-. rewrite decide_True by by left. done. }
  cbv zeta in Hrun. run Hrun. destruct (queued _ _) as [p|] eqn:Eq; simpl in Hrun.
  2: { injection Hrun as _ <-. apply queued_None in Eq. rewrite decide_True by by right. done. }
  assert (dsp_event_identifier r ∈ map q_identifier (power_queue s)) as Hin.
  { apply queued_Some in Eq as (q & Hq & <- & _). by apply list_elem_of_fmap_2. }
  rewrite decide_False by tauto. run Hrun. pose proof (filter_one _ _ Hd Hin) as Hone.
  pose proof (sublist_filter_bool (λ q, negb (q_identifier q =? dsp_event_identifier r)) (power_queue s)) as Hsub.
  unfold when, settled, account in *. destruct (dsp_disposition r) eqn:Er; [|done|]; simpl in *.
  - injection Hrun as _ <-. simpl. rewrite filter_identifiers. split_and!; try done; lia.
  - run Hrun. simpl. rewrite filter_identifiers. split_and!; try done; lia.
Qed.

Lemma settle_all_spec persisted l s u s' :
  for_each l (settle persisted) s = (Ok u, s') → queue_ok s → settled s s' (delivered (identifiers s) l).
Proof.
  revert s. induction l as [|r l IH]; intros s Hrun Hs; cbn [for_each delivered] in *.
  { injection Hrun as _ <-. apply settled_refl. }
  run Hrun. apply settle_spec in E; [|done]. destruct (decide _) as [Hskip|Htake].
  - subst. by apply IH.
  - destruct E as [Hset Hids]. pose proof (settled_ok _ _ _ Hset Hs) as Hs1.
    apply IH in Hrun; [|done]. rewrite Hids in Hrun. unfold settled in *.
    destruct Hset as (A1 & A2 & A3 & A4 & A5 & A6), Hrun as (B1 & B2 & B3 & B4 & B5 & B6).
    split_and!; first [by etrans|congruence|lia].
Qed.

(** ** Calls, in any order *)

Inductive spool_call :=
| CommitPage (page : NativePage) (now : datetime)
| Record (event : PowerEventV1) (now : datetime)
| SetUnavailable (src : string) (now : datetime)
| NextBatch (new_id : uuid) (now : datetime)
| Acknowledge (batch : PowerEventBatchV1) (ack : PowerEventAckV1)
| SourceStatus
| Stats.

Definition outcome {A} (r : res A * PowerEventSpool) : bool * PowerEventSpool :=
  (match r.1 with Ok _ => true | Exn _ => false end, r.2).

(** Whether a call returned, and the queue it left. *)
Definition call_spool (c : spool_call) (s : PowerEventSpool) : bool * PowerEventSpool :=
  match c with
  | CommitPage page now => outcome (commit_page max_events max_bytes page now s)
  | Record event now => outcome (record max_events max_bytes event now s)
  | SetUnavailable src now => outcome (set_unavailable src now s)
  | NextBatch new_id now => outcome (next_batch new_id now s)
  | Acknowledge batch ack => outcome (acknowledge batch ack s)
  | SourceStatus => outcome (source_status_of s)
  | Stats => outcome (stats s)
  end.

(** The events a call that returned has offered to the queue. *)
Definition offered_by (c : spool_call) (s : PowerEventSpool) : Z :=
  match c with
  | CommitPage page now => offered now (identifiers (_expire now s).2) (page_events page)
  | Record event now => if decide (event_identifier event ∈ identifiers s) then 0 else 1
  | _ => 0
  end.

(** The events a call that returned has taken out as accepted by the server. *)
Definition delivered_by (c : spool_call) (s : PowerEventSpool) : Z :=
  match c with
  | Acknowledge batch ack =>
      if (ack_batch_id ack =? batch_id batch)
         && bool_decide (map dsp_event_identifier (results ack) = map event_identifier (events batch))
         && same_rows (events batch) (power_queue s)
      then delivered (identifiers s) (results ack) else 0
  | _ => 0
  end.

(** A queue after some calls, with the events offered to it and delivered by it. *)
Inductive spool_run : PowerEventSpool → Z → Z → Prop :=
| run_new : spool_run new_spool 0 0
| run_call s n m c :
    spool_run s n m →
    spool_run (call_spool c s).2
      (n + (if (call_spool c s).1 then offered_by c s else 0))
      (m + (if (call_spool c s).1 then delivered_by c s else 0)).

Definition sound (s : PowerEventSpool) : Prop :=
  queue_ok s ∧ bounded s ∧ (length (power_quarantine s) <= 128)%nat.

Lemma lastn_length {A} n (l : list A) : (length (lastn n l) <= n)%nat.
Proof. unfold lastn. rewrite length_drop. lia. Qed.

Lemma queue_bytes_sublist l k : l `sublist_of` k → queue_bytes l <= queue_bytes k.
Proof.
  unfold queue_bytes. induction 1 as [|q l k Hl IH|q l k Hl IH]; simpl; [done|lia|].
  assert (0 <= payload_size q) by (unfold payload_size; lia). lia.
Qed.

Lemma bounded_sublist s s' :
  power_queue s' `sublist_of` power_queue s → bounded s → bounded s'.
Proof.
  intros Hl [H1 H2]. pose proof (sublist_length _ _ Hl). pose proof (queue_bytes_sublist _ _ Hl).
  unfold bounded. lia.
Qed.

Lemma dropped_sound s s' : dropped_from s s' → sound s → sound s'.
Proof.
  intros Hd (Hq & Hb & Hz). pose proof Hd as (Hl & _ & _ & _ & Hzl & _). split_and!.
  - by eapply dropped_ok.
  - by eapply bounded_sublist.
  - pose proof (sublist_length _ _ Hzl). lia.
Qed.

(** A page commits, or the queue is as it was. *)
Lemma commit_page_spec page now s s' :
  commit_page max_events max_bytes page now s = (Ok tt, s') → sound s →
  sound s' ∧ account s' = account s + offered_by (CommitPage page now) s.
Proof.
  unfold commit_page. destruct (_ || _); [done|]. intros [_ Hrun]%transaction_Ok Hs. run Hrun.
  match goal with He : _expire _ _ = _ |- _ => pose proof He as Ee; apply expire_spec in He as Hx end.
  pose proof (dropped_sound _ _ Hx Hs) as (Hq1 & Hb1 & Hz1).
  match goal with Hc : for_each _ _ _ = _ |- _ => apply commit_events_spec in Hc as (Hq2 & Ha2 & L1 & L2 & L3 & L4 & L5); [|done] end.
  match goal with Ht : _trim _ _ _ = _ |- _ => apply trim_spec in Ht as [Hd Hb3] end.
  pose proof (dropped_ok _ _ Hd Hq2) as Hq3. destruct Hd as (D1 & D2 & D3 & D4 & D5 & _).
  pose proof (sublist_length _ _ D5). rewrite L2 in *. unfold offered_by. rewrite Ee.
  split; [split_and!; [done|done|simpl; lia]|].
  destruct Hx as (_ & _ & Hx & _). unfold account in *. simpl in *. lia.
Qed.

Lemma record_spec event now s s' :
  record max_events max_bytes event now s = (Ok tt, s') → sound s →
  sound s' ∧ account s' = account s + offered_by (Record event now) s.
Proof.
  unfold record, offered_by, identifiers. intros [_ Hrun]%transaction_Ok Hs. run Hrun.
  destruct (queued _ _) as [p|] eqn:Eq.
  { destruct (decide (_stable p = _stable event)); [|done]. injection Hrun as <-.
    apply queued_Some in Eq as (q & Hin & <- & _). rewrite decide_True by by apply list_elem_of_fmap_2.
    split; [done|lia]. }
  apply queued_None in Eq. rewrite decide_False by done. run Hrun.
  match goal with He : _expire _ _ = _ |- _ => apply expire_spec in He as Hx end.
  pose proof (dropped_sound _ _ Hx Hs) as Hs1. destruct Hx as (X1 & _ & Xa & _).
  match goal with Ht : too_old _ _ = Ok ?b |- _ => destruct b end.
  - unfold count_expired in Hrun. run Hrun. unfold account in *. simpl. split; [done|lia].
  - run Hrun. destruct Hs1 as (Hq1 & Hb1 & Hz1).
    match goal with Hi : insert_event _ _ = _ |- _ =>
      apply insert_spec in Hi as (Hq2 & Ha2 & _ & _ & Hz2 & _); [|done|] end.
    2: { intros Hin. apply Eq. eapply elem_of_sublist; [exact Hin|]. by apply sublist_map. }
    match goal with Ht : _trim _ _ _ = _ |- _ => apply trim_spec in Ht as [Hd Hb3] end.
    pose proof (dropped_ok _ _ Hd Hq2). destruct Hd as (D1 & D2 & D3 & D4 & D5 & _).
    pose proof (sublist_length _ _ D5). rewrite Hz2 in *. split; [split_and!; [done|done|lia]|lia].
Qed.

Lemma acknowledge_spec batch ack s b s' :
  acknowledge batch ack s = (Ok b, s') → sound s →
  sound s' ∧ account s' = account s - delivered_by (Acknowledge batch ack) s.
Proof.
  unfold acknowledge, delivered_by. destruct (ack_batch_id ack =? batch_id batch); simpl.
  2: { intros [= <- <-] Hs. split; [done|lia]. }
  destruct (bool_decide _); simpl. 2: { intros [= <- <-] Hs. split; [done|lia]. }
  intros [_ Hrun]%transaction_Ok Hs. run Hrun. destruct (same_rows _ _); simpl in *.
  2: { injection Hrun as <- <-. split; [done|lia]. }
  run Hrun. injection Hrun as <- <-.
  match goal with Hf : for_each _ _ _ = _ |- _ => apply settle_all_spec in Hf as Hset; [|apply Hs] end.
  destruct Hs as (Hq & Hb & Hz). pose proof (settled_ok _ _ _ Hset Hq) as Hq1.
  destruct Hset as (Hl & _ & Ha & _). split; [|exact Ha]. split_and!; [exact Hq1|by eapply (bounded_sublist s)|].
  simpl. etrans; [apply sublist_length, sublist_filter_bool|apply lastn_length].
Qed.

Lemma next_batch_sound new_id now s b s' :
  next_batch new_id now s = (Ok b, s') → sound s → sound s' ∧ account s' = account s.
Proof.
  unfold next_batch. intros Hrun Hs. run Hrun. injection Hrun as _ <-.
  match goal with Ht : _transaction _ _ = _ |- _ => apply transaction_Ok in Ht as [_ Hb] end.
  run Hb. injection Hb as _ <-.
  match goal with He : _expire _ _ = _ |- _ => apply expire_spec in He as Hx end.
  split; [by eapply dropped_sound|apply Hx].
Qed.

Lemma call_sound c s :
  sound s →
  sound (call_spool c s).2
  ∧ account (call_spool c s).2
    = account s + (if (call_spool c s).1 then offered_by c s - delivered_by c s else 0).
Proof.
  intros Hs.
  assert (∀ A (r : res A * PowerEventSpool),
            (∀ e, r.1 = Exn e → r.2 = s) →
            (∀ a, r.1 = Ok a → sound r.2 ∧ account r.2 = account s + (offered_by c s - delivered_by c s)) →
            sound (outcome r).2
            ∧ account (outcome r).2 = account s + (if (outcome r).1 then offered_by c s - delivered_by c s else 0))
    as Hcase.
  { intros A [[a|e] s'] He Ha; simpl in *; [by eapply Ha|]. rewrite (He e eq_refl). split; [done|lia]. }
  assert (∀ A (body : Spool A) e s', _transaction body s = (Exn e, s') → s' = s) as Hab.
  { intros. by eapply transaction_Exn. }
  destruct c as [page now|event now|src now|new_id now|batch ack| |]; apply Hcase; simpl.
  - unfold commit_page. destruct (_ || _); [done|]. intros e He. destruct (_transaction _ s) eqn:E.
    simpl in He. subst. by eapply Hab.
  - intros [] Ha. destruct (commit_page _ _ _ _ s) as [r s'] eqn:E. simpl in *. subst.
    rewrite Z.sub_0_r. by apply commit_page_spec.
  - unfold record. intros e He. destruct (_transaction _ s) eqn:E. simpl in He. subst. by eapply Hab.
  - intros [] Ha. destruct (record _ _ _ _ s) as [r s'] eqn:E. simpl in *. subst. rewrite Z.sub_0_r. by apply (record_spec event now).
  - unfold set_unavailable. intros e He. destruct (_transaction _ s) eqn:E. simpl in He. subst. by eapply Hab.
  - unfold set_unavailable. intros a Ha. destruct (_transaction _ s) as [r s'] eqn:E. simpl in *. subst.
    apply transaction_Ok in E as [_ E]. run E. destruct (is_aware _ && _); [|done]. run E.
    rewrite Z.add_0_r. split; [exact Hs|done].
  - unfold next_batch. intros e He. unfold mbind, M_bind in *. destruct (_transaction _ s) as [[a|e'] s'] eqn:E; simpl in *; [done|].
    by eapply Hab.
  - intros a Ha. destruct (next_batch _ _ s) as [r s'] eqn:E. simpl in *. subst. rewrite Z.add_0_r. eapply next_batch_sound; [exact E|exact Hs].
  - unfold acknowledge. destruct (_ || _); [done|]. intros e He. destruct (_transaction _ s) eqn:E. simpl in He. subst. by eapply Hab.
  - intros b Ha. destruct (acknowledge batch ack s) as [r s'] eqn:E. simpl in Ha. subst.
    pose proof (acknowledge_spec _ _ _ _ _ E Hs). simpl in *. rewrite Z.sub_0_l. by rewrite Z.add_opp_r.
  - intros e He. unfold source_status_of in *. destruct (_transaction _ s) eqn:E. simpl in He. subst. by eapply Hab.
  - intros a Ha. unfold source_status_of in *. destruct (_transaction _ s) as [r s'] eqn:E. simpl in *. subst.
    apply transaction_Ok in E as [_ E]. run E. rewrite Z.add_0_r. done.
  - intros e He. unfold stats in *. destruct (_transaction _ s) eqn:E. simpl in He. subst. by eapply Hab.
  - intros a Ha. unfold stats in *. destruct (_transaction _ s) as [r s'] eqn:E. simpl in *. subst.
    apply transaction_Ok in E as [_ E]. run E. rewrite Z.add_0_r. done.
Qed.

(** C24: whatever the order of pages, callbacks, batches and acknowledgements, and
    whichever of them fail, every event that was offered to the queue is in it, was
    accepted by the server or is counted as overflow, expired or rejected; the
    queue never exceeds its bounds in events and in bytes, holds an event once, in
    the order of arrival, and the quarantine has at most 128 rows. *)
Theorem every_event_is_accounted_for s n m :
  1 <= max_events → 1 <= max_bytes → spool_run s n m →
  n = m + Z.of_nat (length (power_queue s)) + overflow s + expired s + rejected s
  ∧ Z.of_nat (length (power_queue s)) <= max_events ∧ queue_bytes (power_queue s) <= max_bytes
  ∧ NoDup (identifiers s) ∧ StronglySorted Z.lt (map q_sequence (power_queue s))
  ∧ (length (power_quarantine s) <= 128)%nat.
Proof.
  intros He Hb Hrun.
  assert (sound s ∧ account s = n - m) as [(Hq & [Hb1 Hb2] & Hz) Ha].
  { induction Hrun as [|s n m c _ [Hs Ha]].
    - split; [|done]. split_and!; [|split; unfold queue_bytes; simpl; lia|simpl; lia].
      split_and!; simpl; [constructor|constructor|by intros ? ?%elem_of_nil|constructor].
    - destruct (call_sound c s Hs) as [Hs' Ea]. split; [done|]. rewrite Ea. destruct (_.1); lia. }
  destruct Hq as (Hd & Hsort & _). unfold account in Ha. split_and!; [lia|done..].
Qed.

(** ** Batches *)

Lemma text_ltb_iso a b :
  representable (utc_datetime a) = true → representable (utc_datetime b) = true →
  text_ltb (isoformat (utc_datetime a)) (isoformat (utc_datetime b)) = (a <? b).
Proof.
  intros Ha Hb. unfold text_ltb. rewrite iso_compare by by apply representable_year.
  unfold Z.ltb. by destruct (a ?= b).
Qed.

(** The moment of a queued event. *)
Definition q_moment (q : QueuedEvent) : Z := instant (occurred_at (q_payload q)).

(** The texts expire the events that are older than thirty days. *)
Lemma expire_rows now s u s' :
  _expire now s = (Ok u, s') → Forall row_ok (power_queue s) →
  power_queue s' = List.filter (λ q, instant now - MAX_AGE <=? q_moment q) (power_queue s).
Proof.
  unfold _expire. intros Hrun Hr. run Hrun. simpl.
  match goal with Hc : cutoff _ = Ok _ |- _ => apply cutoff_Ok in Hc as (_ & -> & Hrep) end.
  induction Hr as [|q l (_ & _ & Hq & Eq) Hr IH]; simpl; [done|]. rewrite IH, Eq.
  unfold as_utc in *. rewrite text_ltb_iso by done. unfold q_moment.
  assert (negb (instant (occurred_at (q_payload q)) <? instant now - MAX_AGE)
          = (instant now - MAX_AGE <=? instant (occurred_at (q_payload q)))) as ->; [|done].
  destruct (Z.ltb_spec (instant (occurred_at (q_payload q))) (instant now - MAX_AGE)),
    (Z.leb_spec (instant now - MAX_AGE) (instant (occurred_at (q_payload q)))); try done; lia.
Qed.

Definition with_events (b : PowerEventBatchV1) (l : list PowerEventV1) : PowerEventBatchV1 :=
  {| batch_id := batch_id b; events := l; source_status := source_status b |}.

(** A filled batch takes as many rows as fit. *)
Lemma fill_batch_spec b rows :
  ∃ k, (k <= length rows)%nat ∧ fill_batch b rows = with_events b (events b ++ take k rows)
    ∧ ((0 < k)%nat → gateway_wire_size (fill_batch b rows) <= MAX_POWER_EVENT_BATCH_BYTES_V1)
    ∧ ((k < length rows)%nat →
         MAX_POWER_EVENT_BATCH_BYTES_V1 < gateway_wire_size (with_events b (events b ++ take (S k) rows))).
Proof.
  revert b. induction rows as [|e rows IH]; intros b; cbn [fill_batch].
  { exists 0%nat. simpl. rewrite app_nil_r. split_and!; [lia|by destruct b|lia|lia]. }
  cbv zeta. destruct (_ <? _) eqn:E.
  - exists 0%nat. cbn [length take]. rewrite app_nil_r. propify.
    split_and!; [lia|by destruct b|lia|]. intros _. rewrite take_0. exact E.
  - propify. destruct (IH (with_events b (events b ++ [e]))) as (k & Hk & Ek & Hfit & Hmax).
    unfold with_events in *. cbn [batch_id events source_status] in *.
    rewrite <-!app_assoc in Ek. rewrite <-app_assoc in Hmax. exists (S k). cbn [length]. split_and!; [lia|exact Ek| |].
    + intros _. destruct k as [|k]; [|apply Hfit; lia]. rewrite Ek. rewrite take_0. cbn [app]. exact E.
    + intros Hlt. apply Hmax. lia.
Qed.

Lemma batches_are_the_oldest_id new_id now s b s' :
  next_batch new_id now s = (Ok (Some b), s') → batch_id b = new_id.
Proof.
  unfold next_batch. intros Hrun. run Hrun. injection Hrun as Hb <-.
  destruct (snd _) as [st|]; [|done]. simpl in Hb. injection Hb as <-.
  match goal with |- batch_id (fill_batch ?b0 ?rows) = _ => destruct (fill_batch_spec b0 rows) as (k & _ & -> & _) end.
  done.
Qed.

(** A batch is what the queue holds, oldest first: events older than thirty
    days leave the queue and are counted, the batch carries the longest prefix of
    the remaining ones, at most 128, whose frame fits, no event twice, and the
    counter of everything lost so far. *)
Theorem batches_are_the_oldest_events new_id now s b s' :
  queue_ok s → next_batch new_id now s = (Ok (Some b), s') →
  power_queue s' = List.filter (λ q, instant now - MAX_AGE <=? q_moment q) (power_queue s)
  ∧ expired s' = expired s + (Z.of_nat (length (power_queue s)) - Z.of_nat (length (power_queue s')))
  ∧ batch_id b = new_id ∧ NoDup (map event_identifier (events b))
  ∧ st_loss_count (source_status b) = overflow s' + expired s' + rejected s' + loss s'
  ∧ ∃ k, (k <= 128)%nat ∧ events b = map q_payload (take k (power_queue s'))
    ∧ ((0 < length (events b))%nat → gateway_wire_size b <= MAX_POWER_EVENT_BATCH_BYTES_V1)
    ∧ ((k < 128)%nat → (k < length (power_queue s'))%nat →
         MAX_POWER_EVENT_BATCH_BYTES_V1
         < gateway_wire_size (with_events b (map q_payload (take (S k) (power_queue s'))))).
Proof.
  unfold next_batch. intros Hok Hrun. run Hrun.
  match goal with Ht : _transaction _ _ = _ |- _ => apply transaction_Ok in Ht as [_ Hb] end.
  run Hb. injection Hb as <- <-. injection Hrun as Hb <-. cbn [fst snd] in Hb.
  match goal with He : _expire _ _ = (_, ?t) |- _ => rename t into s1; pose proof He as Hexp;
    apply expire_spec in He as Hx; apply expire_rows in He as Hrows; [|apply Hok] end.
  pose proof (dropped_ok _ _ Hx Hok) as (Hd & _ & _ & Hr1).
  unfold reported_status in Hb. destruct (status s1) as [st|]; [|done]. simpl in Hb. injection Hb as <-.
  set (b0 := {| batch_id := new_id; events := []; source_status := _ |}).
  destruct (fill_batch_spec b0 (map q_payload (take 128 (power_queue s1)))) as (k & Hk & Ek & Hfit & Hmax).
  rewrite length_map, length_take in Hk, Hmax.
  assert (∀ j, (j <= 128)%nat → take j (map q_payload (take 128 (power_queue s1))) = map q_payload (take j (power_queue s1)))
    as Htake by (intros j Hj; by rewrite <-(fmap_take q_payload), take_take, Nat.min_l).
  rewrite Ek in *. cbn [events b0 app with_events batch_id source_status] in *.
  rewrite Htake in * by lia. split_and!.
  - exact Hrows.
  - destruct Hx as (_ & _ & Ha & _ & _ & Hrj & _). unfold account in Ha.
    assert (overflow s1 = overflow s) as Ho by (unfold _expire in Hexp; by run Hexp). lia.
  - done.
  - eapply sublist_NoDup; [exact Hd|]. rewrite map_map.
    assert (map q_identifier (power_queue s1) = map (λ q, event_identifier (q_payload q)) (power_queue s1)) as ->.
    { clear -Hr1. induction Hr1 as [|q l [Hq _] Hr IH]; simpl; [done|]. by rewrite Hq, IH. }
    apply sublist_map, sublist_take.
  - done.
  - exists k. split_and!; [lia|done| |].
    + rewrite length_map, length_take. intros Hl. apply Hfit. lia.
    + intros H1 H2. specialize (Hmax ltac:(lia)). rewrite Htake in Hmax by lia. exact Hmax.
Qed.
End specs.

(** ** A queue for two events *)

Definition demo_text : PowerText :=
  {| dump_length := λ _, 400%nat; dump_time := isoformat;
     gateway_wire_size := λ b, 300 + 400 * Z.of_nat (length (events b)); details_length := λ _ _, 500 |}.

Definition demo_power_event (id : uuid) (at_us : Z) : PowerEventV1 :=
  {| event_identifier := id; event_kind := "OS_STARTED"; occurred_at := utc_datetime at_us;
     observed_at := utc_datetime at_us; boot_id := "b"; source := "journal"; native_record_id := uuid_str id;
     evidence := "transition"; sleep_subtype := None |}.

Definition demo_status : PowerSourceStatusV1 :=
  {| st_source := "journal"; st_availability := READY; st_reported_at := utc_datetime (days 40);
     st_coverage_started_at := None; st_loss_count := 0; st_reset_count := 0 |}.

(** Three recent events and one of the first day. *)
Definition demo_page : NativePage :=
  {| page_events := [demo_power_event 1 (days 39); demo_power_event 2 0; demo_power_event 3 (days 40);
                     demo_power_event 4 (days 40)];
     page_checkpoint := Some "c"; page_status := demo_status; page_loss_count := 0; page_reset_count := 0 |}.

Definition demo_commit : spool_call := CommitPage demo_page (utc_datetime (days 40)).
Definition demo_spool : PowerEventSpool := (@call_spool demo_text 2 4096 demo_commit new_spool).2.

Example demo_spool_rows :
  map q_identifier (power_queue demo_spool) = [3; 4] ∧ overflow demo_spool = 1 ∧ expired demo_spool = 1.
Proof. vm_compute. done. Qed.

Lemma demo_run : @spool_run demo_text 2 4096 demo_spool 4 0.
Proof. exact (@run_call demo_text 2 4096 new_spool 0 0 demo_commit (@run_new demo_text 2 4096)). Qed.

Lemma every_event_is_accounted_for_witness :
  @spool_run demo_text 2 4096 demo_spool 4 0
  ∧ 4 = 0 + Z.of_nat (length (power_queue demo_spool)) + overflow demo_spool + expired demo_spool + rejected demo_spool.
Proof.
  split; [exact demo_run|].
  pose proof (@every_event_is_accounted_for demo_text 2 4096 demo_spool 4 0 ltac:(lia) ltac:(lia) demo_run) as H.
  exact (proj1 H).
Defined.

Definition demo_next : res (option PowerEventBatchV1) * PowerEventSpool :=
  @next_batch demo_text 9 (utc_datetime (days 40)) demo_spool.
Definition demo_batch : PowerEventBatchV1 :=
  {| batch_id := 9; events := [demo_power_event 3 (days 40); demo_power_event 4 (days 40)];
     source_status := demo_status <| st_loss_count := 2 |> |}.

Definition demo_row (n : Z) (id : uuid) : QueuedEvent :=
  {| q_sequence := n; q_identifier := id; q_occurred_at := isoformat (utc_datetime (days 40));
     q_payload := demo_power_event id (days 40) |}.

Lemma demo_queue : power_queue demo_spool = [demo_row 2 3; demo_row 3 4].
Proof. vm_compute. reflexivity. Qed.

Lemma demo_row_ok n id : row_ok (demo_row n id).
Proof. split_and!; [done|done|vm_compute; reflexivity|]. unfold demo_row. cbn [q_occurred_at q_payload occurred_at demo_power_event]. f_equal. Qed.

Lemma demo_spool_ok : queue_ok demo_spool.
Proof.
  unfold queue_ok. rewrite demo_queue. cbn [map q_identifier q_sequence demo_row]. split_and!.
  - repeat constructor; rewrite ?elem_of_cons, elem_of_nil; lia.
  - repeat constructor; lia.
  - assert (queue_sequence demo_spool = 3) as -> by (vm_compute; reflexivity).
    apply Forall_forall. repeat constructor; cbn; lia.
  - repeat constructor; apply demo_row_ok.
Qed.

Lemma batches_are_the_oldest_events_witness :
  demo_next = (Ok (Some demo_batch), demo_spool) ∧ NoDup (map event_identifier (events demo_batch))
  ∧ st_loss_count (source_status demo_batch)
    = overflow demo_spool + expired demo_spool + rejected demo_spool + loss demo_spool.
Proof.
  assert (demo_next = (Ok (Some demo_batch), demo_spool)) as E by (vm_compute; reflexivity).
  destruct (@batches_are_the_oldest_events demo_text 9 (utc_datetime (days 40)) demo_spool demo_batch demo_spool
    demo_spool_ok E) as (_ & _ & _ & Hd & Hl & _).
  exact (conj E (conj Hd Hl)).
Defined.
