(* ===== verification/PowerIngestion.v ===== *)
(** * Ingestion of power evidence (endpoint_server/power)

    ingestion.py, projection.py and retention.py: the server stores each event
    of a batch in a savepoint of its own and answers with one disposition per
    event.  The state is the rows of [device_events] of category "power", in the
    order in which they were added, and the table [power_source_states]; a
    timestamp column holds a moment in UTC, and the JSON column of a row holds
    the event it was made from. *)

From S2P Require Import Prelude Store AuditLog Contracts PowerEvents.

Definition POWER_RETENTION : timedelta := days 30.

Record PowerEventRow := {
  row_id : uuid;
  row_device_id : uuid;
  row_event_identifier : uuid;
  row_event_kind : string;
  row_occurred_at : datetime;
  row_source_key : string;
  row_event : PowerEventV1;           (* details["event"] *)
  row_received_at : datetime          (* details["received_at"] *)
}.

Record PowerSourceState := {
  src_source : string;
  src_availability : availability;
  src_reported_at : datetime;
  src_received_at : datetime;
  src_coverage_started_at : option datetime;
  src_loss_count : Z;
  src_reset_count : Z
}.
#[export] Instance PowerSourceState_eta : Eta PowerSourceState := λ s,
  Build_PowerSourceState (src_source s) (src_availability s) (src_reported_at s) (src_received_at s)
    (src_coverage_started_at s) (src_loss_count s) (src_reset_count s).

Record PowerServer := {
  power_rows : list PowerEventRow;
  next_row_id : Z;
  power_sources : gmap uuid PowerSourceState
}.
#[export] Instance PowerServer_eta : Eta PowerServer := λ s,
  Build_PowerServer (power_rows s) (next_row_id s) (power_sources s).

Definition new_server : PowerServer := {| power_rows := []; next_row_id := 0; power_sources := ∅ |}.

Abbreviation Power := (M PowerServer).

(** [async with session.begin_nested()] *)
Definition begin_nested {A} (body : Power A) : Power A := λ s,
  match body s with
  | (Exn e, _) => (Exn e, s)
  | r => r
  end.

(** ** The state of a source *)

(** [_AVAILABILITY_ORDER.index] and the order itself *)
Definition availability_index (a : availability) : Z :=
  match a with READY => 0 | DEGRADED => 1 | UNAVAILABLE => 2 | UNSUPPORTED => 3 end.
Definition _AVAILABILITY_ORDER (n : Z) : availability :=
  if n =? 0 then READY else if n =? 1 then DEGRADED else if n =? 2 then UNAVAILABLE else UNSUPPORTED.

(** [max(utc(a), utc(b))], [min] of two texts *)
Definition later (a b : datetime) : datetime := if instant a <? instant b then as_utc b else as_utc a.
Definition str_min (a b : string) : string := if str_leb a b then a else b.

Definition _merge_source_tie (state : PowerSourceState) (status : PowerSourceStatusV1) : PowerSourceState :=
  let availability :=
    Z.max (Z.max (availability_index (src_availability state)) (availability_index (st_availability status)))
      (Z.b2z (negb (bool_decide (src_source state = st_source status)))) in
  {| src_source := str_min (src_source state) (st_source status);
     src_availability := _AVAILABILITY_ORDER availability;
     src_reported_at := src_reported_at state;
     src_received_at := src_received_at state;
     src_coverage_started_at :=
       match src_coverage_started_at state, st_coverage_started_at status with
       | Some a, Some b => Some (later a b)
       | _, _ => None
       end;
     src_loss_count := Z.max (src_loss_count state) (st_loss_count status);
     src_reset_count := Z.max (src_reset_count state) (st_reset_count status) |}.

(** The fields of a newer report. *)
Definition source_state (status : PowerSourceStatusV1) (received : datetime) : PowerSourceState :=
  {| src_source := st_source status; src_availability := st_availability status;
     src_reported_at := as_utc (st_reported_at status); src_received_at := received;
     src_coverage_started_at := as_utc <$> st_coverage_started_at status;
     src_loss_count := st_loss_count status; src_reset_count := st_reset_count status |}.

(** [when - POWER_RETENTION <= utc(status.reported_at) <= when + timedelta(minutes=5)] *)
Definition report_in_window (when : datetime) (status : PowerSourceStatusV1) : bool :=
  (instant when - POWER_RETENTION <=? instant (st_reported_at status))
  && (instant (st_reported_at status) <=? instant when + minutes 5).

(** What a report makes of the state of its source. *)
Definition report_source (when : datetime) (state : option PowerSourceState) (status : PowerSourceStatusV1)
    : option PowerSourceState :=
  if report_in_window when status then
    match state with
    | None => Some (source_state status when)
    | Some state =>
        Some (if instant (src_reported_at state) <? instant (st_reported_at status) then source_state status when
              else if instant (st_reported_at status) =? instant (src_reported_at state)
              then _merge_source_tie state status
              else state)
    end
  else state.

Section ingestion.
Context `{Contracts} `{PowerText}.

(** ** One event *)

Definition _native_key (event : PowerEventV1) : string :=
  "power:" +:+ sha256_hexdigest (json_compact (JList [JStr (source event); JStr (boot_id event);
                                                      JStr (native_record_id event)])).

(** [event.model_dump(mode="json", exclude={"event_identifier", "observed_at"})] *)
Definition native_stable (e : PowerEventV1) : StableEvent :=
  {| stable_identifier := 0; stable_kind := event_kind e; stable_occurred_at := dump_time (occurred_at e);
     stable_boot_id := boot_id e; stable_source := source e; stable_native_record_id := native_record_id e;
     stable_evidence := evidence e; stable_sleep_subtype := sleep_subtype e |}.

Definition existing_events (device_id : uuid) (event : PowerEventV1) (s : PowerServer) : list PowerEventRow :=
  List.filter (λ r, (row_device_id r =? device_id)
                    && (bool_decide (row_source_key r = _native_key event)
                        || (row_event_identifier r =? event_identifier event))) (power_rows s).

(** The row repeats the event. *)
Definition same_event (event : PowerEventV1) (r : PowerEventRow) : bool :=
  (event_identifier (row_event r) =? event_identifier event)
  && bool_decide (native_stable (row_event r) = native_stable event).

Definition _ingest_event (device_id : uuid) (event : PowerEventV1) (when : datetime) : Power unit := λ s,
  let reject code := (Exn (PowerEventRejected code), s) in
  if instant (occurred_at event) <? instant when - POWER_RETENTION then reject "event_expired"
  else if (instant when + minutes 5 <? instant (occurred_at event))
          || (instant when + minutes 5 <? instant (observed_at event)) then reject "event_future"
  else
    let existing := existing_events device_id event s in
    if negb (forallb (same_event event) existing) then reject "event_conflict"
    else if negb (bool_decide (existing = [])) then (Ok tt, s)
    else if 2048 <? details_length event when then reject "event_metadata_too_large"
    else
      (Ok tt,
       s <| power_rows := power_rows s ++
              [{| row_id := next_row_id s; row_device_id := device_id;
                  row_event_identifier := event_identifier event; row_event_kind := event_kind event;
                  row_occurred_at := as_utc (occurred_at event); row_source_key := _native_key event;
                  row_event := event; row_received_at := when |}] |>
         <| next_row_id := next_row_id s + 1 |>).

(** ** A batch *)

(** The dispositions of the events, each in its savepoint. *)
Fixpoint ingest_events (device_id : uuid) (when : datetime) (l : list PowerEventV1)
    : Power (list PowerEventDispositionV1) :=
  match l with
  | [] => mret []
  | event :: l =>
      result ← try_except
        (begin_nested (_ingest_event device_id event when) ;;
         mret {| dsp_event_identifier := event_identifier event; dsp_disposition := d_accepted;
                 dsp_reason_code := "persisted" |})
        (λ error, match error with
                  | PowerEventRejected code =>
                      Some (mret {| dsp_event_identifier := event_identifier event;
                                    dsp_disposition := d_rejected; dsp_reason_code := code |})
                  | _ => None
                  end);
      results ← ingest_events device_id when l;
      mret (result :: results)
  end.

Definition ingest_source (device_id : uuid) (when : datetime) (status : PowerSourceStatusV1) : Power unit := λ s,
  (Ok tt, s <| power_sources := partial_alter (λ state, report_source when state status) device_id (power_sources s) |>).

Definition ingest_gateway_power_events (device_id : uuid) (batch : PowerEventBatchV1) (received_at : datetime)
    : Power PowerEventAckV1 :=
  let when := as_utc received_at in
  ingest_source device_id when (source_status batch) ;;
  results ← ingest_events device_id when (events batch);
  if unique_results results
  then mret {| ack_batch_id := batch_id batch; persisted_at := when; results := results |}
  else raise (ValidationError "PowerEventAckV1").

(** [commit_and_ack_power_events]: the acknowledgement is sent after the commit;
    a request that fails commits nothing and sends nothing. *)
Definition commit_and_ack_power_events (device_id : uuid) (batch : PowerEventBatchV1) (received_at : datetime)
    : Power PowerEventAckV1 := λ s,
  match ingest_gateway_power_events device_id batch received_at s with
  | (Ok ack, s') => (Ok ack, s')
  | (Exn e, _) => (Exn e, s)
  end.
End ingestion.

(** ** Retention *)

Definition retention_leb (a b : PowerEventRow) : bool :=
  lex_leb (instant (row_occurred_at a), row_id a) (instant (row_occurred_at b), row_id b).

Definition retain_power_events (now : datetime) (limit : Z) : Power Z := λ s,
  if negb ((1 <=? limit) && (limit <=? 1000)) then (Exn (ValueError "retention limit must be 1..1000"), s)
  else
    let cutoff := instant now - days 30 in
    let due := List.filter (λ r, instant (row_occurred_at r) <? cutoff) (power_rows s) in
    let ids := map row_id (take (Z.to_nat limit) (order_by retention_leb due)) in
    (Ok (Z.of_nat (length ids)),
     s <| power_rows := List.filter (λ r, negb (bool_decide (row_id r ∈ ids))) (power_rows s) |>).

(** ** What the console shows of power evidence (endpoint_server/power/projection.py)

    The pure projection of the events of a device and the two readers that feed
    it from the database, both of which read a bounded number of rows. *)

(** ** Lexicographic orders *)

(** The order of tuples by a first and then by a second component. *)
Definition then_by {A} (first second : A → A → bool) (a b : A) : bool :=
  first a b && (negb (first b a) || second a b).

(** The order by a number. *)
Definition by_number {A} (f : A → Z) (a b : A) : bool := f a <=? f b.

(** [desc()] *)
Definition descending {A} (leb : A → A → bool) (a b : A) : bool := leb b a.

(** ** The projection *)

Definition source_projection (row : option PowerSourceState) : option PowerSourceStatusV1 :=
  r ← row;
  Some {| st_source := src_source r; st_availability := src_availability r;
          st_reported_at := as_utc (src_reported_at r);
          st_coverage_started_at := as_utc <$> src_coverage_started_at r;
          st_loss_count := src_loss_count r; st_reset_count := src_reset_count r |}.

Record PowerSummary := {
  sum_status : string;
  sum_online : bool;
  sum_last_seen_at : option datetime;
  sum_source_status : option PowerSourceStatusV1;
  sum_source_fresh : bool;
  sum_history_available_from : datetime;
  sum_latest_event : option PowerEventV1
}.

Definition started_kind (kind : string) : Z := Z.b2z (str_in kind ["OS_STARTED"; "OS_RESUMED"]).
Definition not_transition (evidence : string) : Z := Z.b2z (negb (bool_decide (evidence = "transition"))).

(** The key by which the latest fact is chosen, as a preorder. *)
Definition fact_leb : PowerEventV1 → PowerEventV1 → bool :=
  then_by (by_number (λ e, instant (occurred_at e)))
    (then_by (by_number (λ e, started_kind (event_kind e)))
      (then_by (by_number (λ e, not_transition (evidence e)))
        (λ a b, str_leb (uuid_str (event_identifier a)) (uuid_str (event_identifier b))))).

(** [max(facts, key=..., default=None)]: the first of the greatest. *)
Fixpoint latest_fact (best : option PowerEventV1) (l : list PowerEventV1) : option PowerEventV1 :=
  match l with
  | [] => best
  | e :: l =>
      match best with
      | None => latest_fact (Some e) l
      | Some b => latest_fact (Some (if fact_leb e b then b else e)) l
      end
  end.

Definition project_power (online : bool) (last_seen_at : option datetime)
    (source_status : option PowerSourceStatusV1) (l : list PowerEventV1) (now : datetime) : PowerSummary :=
  let when := as_utc now in
  let horizon := utc_datetime (instant when - days 30) in
  let facts := List.filter (λ e, dt_leb horizon (occurred_at e) && dt_leb (occurred_at e) when) l in
  let latest := latest_fact None facts in
  let fresh :=
    match source_status with
    | Some st => (0 <=? instant when - instant (st_reported_at st))
                 && (instant when - instant (st_reported_at st) <=? seconds 90)
    | None => false
    end in
  let status :=
    match latest, source_status with
    | Some e, Some st =>
        if negb online && bool_decide (st_availability st = READY ∨ st_availability st = DEGRADED)
           && bool_decide (evidence e = "transition")
           && match last_seen_at with None => true | Some seen => dt_leb seen (occurred_at e) end
        then if decide (event_kind e = "OS_SLEEP_STARTED") then "sleep"
             else if decide (event_kind e = "OS_SHUTDOWN_STARTED") then "shutdown" else "unknown"
        else if online then "online" else "unknown"
    | _, _ => if online then "online" else "unknown"
    end in
  {| sum_status := status; sum_online := online; sum_last_seen_at := last_seen_at;
     sum_source_status := source_status; sum_source_fresh := fresh;
     sum_history_available_from :=
       match source_status ≫= st_coverage_started_at with
       | Some c => later horizon c
       | None => horizon
       end;
     sum_latest_event := latest |}.

(** ** The readers *)

(** [_power_evidence_order] *)
Definition _power_evidence_order : PowerEventRow → PowerEventRow → bool :=
  then_by (descending (by_number (λ r, instant (row_occurred_at r))))
    (then_by (descending (by_number (λ r, started_kind (row_event_kind r))))
      (then_by (descending (by_number (λ r, not_transition (evidence (row_event r)))))
        (then_by (descending (λ a b, str_leb (uuid_str (row_event_identifier a)) (uuid_str (row_event_identifier b))))
          (descending (by_number row_id))))).

(** The rows of a device within thirty days before a moment. *)
Definition recent_rows (device_id : uuid) (at_time : datetime) (s : PowerServer) : list PowerEventRow :=
  List.filter (λ r, (row_device_id r =? device_id)
                    && (instant at_time - days 30 <=? instant (row_occurred_at r))
                    && (instant (row_occurred_at r) <=? instant at_time)) (power_rows s).

Definition power_summary (device_id : uuid) (online : bool) (last_seen_at : option datetime) (now : datetime)
    (s : PowerServer) : PowerSummary :=
  let at_time := as_utc now in
  let facts := take 128 (order_by _power_evidence_order (recent_rows device_id at_time s)) in
  project_power online last_seen_at (source_projection (power_sources s !! device_id)) (map row_event facts) at_time.

(** An entry of a page of the fleet. *)
Record FleetItem := {
  item_id : uuid;
  item_online : bool;
  item_last_seen_at : option datetime
}.

(** [row_number() OVER (PARTITION BY device_id ORDER BY ...) <= 128] *)
Definition ranked (at_time : datetime) (s : PowerServer) (r : PowerEventRow) : bool :=
  bool_decide (row_id r ∈ map row_id (take 128 (order_by _power_evidence_order (recent_rows (row_device_id r) at_time s)))).

(** [select_order] is the order in which the database gives the rows of a query
    without ORDER BY. *)
Definition enrich_power_summaries (select_order : list PowerEventRow → list PowerEventRow) (data : list FleetItem)
    (now : datetime) (s : PowerServer) : list PowerSummary :=
  let at_time := as_utc now in
  let ids := map item_id data in
  let rows := select_order (List.filter (λ r, bool_decide (row_device_id r ∈ ids) && ranked at_time s r) (power_rows s)) in
  map (λ item,
    let facts := List.filter (λ r, row_device_id r =? item_id item) rows in
    project_power (item_online item) (item_last_seen_at item) (source_projection (power_sources s !! item_id item))
      (map row_event facts) at_time) data.
