(* ===== verification/PowerIngestionSpecs.v ===== *)
(** * Ingestion stores each event once and answers for what it stored *)

From S2P Require Import Prelude Store AuditLog Contracts Demo SemverFacts PowerEvents PowerSpool PowerSpoolSpecs.
From S2P Require Import PowerIngestion.

(** ** The rows *)

Section rows.
Context `{Contracts} `{PowerText}.

Definition row_wf (r : PowerEventRow) : Prop :=
  row_event_identifier r = event_identifier (row_event r) ∧ row_source_key r = _native_key (row_event r)
  ∧ row_occurred_at r = as_utc (occurred_at (row_event r)) ∧ row_event_kind r = event_kind (row_event r).

(** A device has an event once, by its identifier and by its native record. *)
Definition rows_unique (l : list PowerEventRow) : Prop :=
  NoDup (map row_id l)
  ∧ ∀ r r', r ∈ l → r' ∈ l → row_device_id r = row_device_id r' →
      row_source_key r = row_source_key r' ∨ row_event_identifier r = row_event_identifier r' → r = r'.

Definition server_ok (s : PowerServer) : Prop :=
  Forall row_wf (power_rows s) ∧ rows_unique (power_rows s) ∧ ∀ r, r ∈ power_rows s → row_id r < next_row_id s.

(** The row stores the event. *)
Definition stores (device_id : uuid) (event : PowerEventV1) (r : PowerEventRow) : Prop :=
  row_device_id r = device_id ∧ event_identifier (row_event r) = event_identifier event
  ∧ native_stable (row_event r) = native_stable event.

Lemma existing_events_In device_id event s r :
  r ∈ existing_events device_id event s ↔
  r ∈ power_rows s ∧ row_device_id r = device_id
  ∧ (row_source_key r = _native_key event ∨ row_event_identifier r = event_identifier event).
Proof.
  unfold existing_events. rewrite elem_of_filter_bool, andb_true_iff, orb_true_iff, !Z.eqb_eq, bool_decide_eq_true.
  done.
Qed.

Definition new_row (device_id : uuid) (event : PowerEventV1) (when : datetime) (s : PowerServer) : PowerEventRow :=
  {| row_id := next_row_id s; row_device_id := device_id; row_event_identifier := event_identifier event;
     row_event_kind := event_kind event; row_occurred_at := as_utc (occurred_at event);
     row_source_key := _native_key event; row_event := event; row_received_at := when |}.

Definition add_row (r : PowerEventRow) (s : PowerServer) : PowerServer :=
  s <| power_rows := power_rows s ++ [r] |> <| next_row_id := next_row_id s + 1 |>.

Definition expired_at (when : datetime) (event : PowerEventV1) : bool :=
  instant (occurred_at event) <? instant when - POWER_RETENTION.
Definition future_at (when : datetime) (event : PowerEventV1) : bool :=
  (instant when + minutes 5 <? instant (occurred_at event)) || (instant when + minutes 5 <? instant (observed_at event)).

(** The disposition of an event, by the state it meets. *)
Definition verdict (device_id : uuid) (event : PowerEventV1) (when : datetime) (s : PowerServer) : option string :=
  if expired_at when event then Some "event_expired"
  else if future_at when event then Some "event_future"
  else if negb (forallb (same_event event) (existing_events device_id event s)) then Some "event_conflict"
  else if bool_decide (existing_events device_id event s = []) && (2048 <? details_length event when)
  then Some "event_metadata_too_large"
  else None.

(** The server after an event that is not refused. *)
Definition after_event (device_id : uuid) (event : PowerEventV1) (when : datetime) (s : PowerServer) : PowerServer :=
  if bool_decide (existing_events device_id event s = []) then add_row (new_row device_id event when s) s else s.

Lemma ingest_event_run device_id event when s :
  _ingest_event device_id event when s =
  match verdict device_id event when s with
  | Some code => (Exn (PowerEventRejected code), s)
  | None => (Ok tt, after_event device_id event when s)
  end.
Proof.
  unfold _ingest_event, verdict, expired_at, future_at, after_event. cbv zeta.
  destruct (_ <? _); [done|]. destruct (_ || _); [done|]. destruct (negb (forallb _ _)); [done|].
  destruct (bool_decide _); [|done]. simpl. by destruct (2048 <? _).
Qed.

(** The events of a batch, one after another. *)
Fixpoint judge (device_id : uuid) (when : datetime) (l : list PowerEventV1) (s : PowerServer)
    : list PowerEventDispositionV1 * PowerServer :=
  match l with
  | [] => ([], s)
  | event :: l =>
      match verdict device_id event when s with
      | Some code =>
          let '(results, s') := judge device_id when l s in
          ({| dsp_event_identifier := event_identifier event; dsp_disposition := d_rejected; dsp_reason_code := code |}
             :: results, s')
      | None =>
          let '(results, s') := judge device_id when l (after_event device_id event when s) in
          ({| dsp_event_identifier := event_identifier event; dsp_disposition := d_accepted;
              dsp_reason_code := "persisted" |} :: results, s')
      end
  end.

Lemma ingest_events_run device_id when l s :
  ingest_events device_id when l s = (Ok (judge device_id when l s).1, (judge device_id when l s).2).
Proof.
  revert s. induction l as [|event l IH]; intros s; [done|]. cbn [ingest_events judge].
  unfold mbind, M_bind, try_except, begin_nested. rewrite ingest_event_run.
  destruct (verdict device_id event when s) as [code|]; cbn.
  - rewrite IH. by destruct (judge device_id when l s).
  - rewrite IH. by destruct (judge device_id when l _).
Qed.

(** An event that is not refused is stored. *)
Lemma after_event_stores device_id event when s :
  server_ok s → verdict device_id event when s = None →
  server_ok (after_event device_id event when s)
  ∧ (∃ r, r ∈ power_rows (after_event device_id event when s) ∧ stores device_id event r)
  ∧ power_rows s `prefix_of` power_rows (after_event device_id event when s)
  ∧ power_sources (after_event device_id event when s) = power_sources s.
Proof.
  unfold verdict, after_event. intros (Hwf & [Hid Hu] & Hn) Hv.
  destruct (expired_at _ _); [done|]. destruct (future_at _ _); [done|].
  destruct (forallb _ _) eqn:Hsame; [|done]. cbn [negb] in Hv. destruct (bool_decide _) eqn:He; propify.
  - assert (∀ r, r ∈ power_rows s → row_device_id r = device_id →
              row_source_key r ≠ _native_key event ∧ row_event_identifier r ≠ event_identifier event) as Hnew.
    { intros r Hr Hd. assert (∀ P : Prop, (P → r ∈ existing_events device_id event s) → ¬P) as Hno.
      { intros P HP Hp. specialize (HP Hp). rewrite He in HP. by apply elem_of_nil in HP. }
      split; apply Hno; intros; apply existing_events_In; tauto. }
    split_and!; [|exists (new_row device_id event when s)|by apply prefix_app_r|done].
    2: { split; [simpl; apply elem_of_app; right; left|by split_and!]. }
    split_and!.
    + simpl. apply Forall_app. split; [done|]. by repeat constructor.
    + split.
      * simpl. rewrite map_app. apply NoDup_app. split_and!; [done| |apply NoDup_singleton].
        intros x (r & -> & Hr)%list_elem_of_fmap Hx%list_elem_of_singleton. specialize (Hn r Hr). simpl in Hx. lia.
      * intros r r'. simpl. rewrite !elem_of_app, !list_elem_of_singleton.
        intros [Hr|Er] [Hr'|Er'] Hd Hk; subst; [by apply Hu| | |done].
        -- destruct (Hnew r Hr Hd). simpl in Hk. tauto.
        -- destruct (Hnew r' Hr' (eq_sym Hd)). simpl in Hk. destruct Hk; congruence.
    + intros r. simpl. rewrite elem_of_app, list_elem_of_singleton. intros [Hr|Er]; [specialize (Hn r Hr); lia|].
      subst r. simpl. lia.
  - split_and!; [done..| |done|done]. destruct (existing_events device_id event s) as [|r l] eqn:El; [done|].
    assert (r ∈ existing_events device_id event s) as Hr by (rewrite El; left).
    apply existing_events_In in Hr as (Hr & Hd & _). exists r. split; [done|].
    simpl in Hsame. propify. unfold same_event in *. propify. by split_and!.
Qed.

(** What the events of a batch leave. *)
Lemma judge_spec device_id when l s :
  server_ok s →
  server_ok (judge device_id when l s).2
  ∧ power_rows s `prefix_of` power_rows (judge device_id when l s).2
  ∧ power_sources (judge device_id when l s).2 = power_sources s
  ∧ map dsp_event_identifier (judge device_id when l s).1 = map event_identifier l
  ∧ (∀ r, r ∈ power_rows (judge device_id when l s).2 → r ∈ power_rows s ∨ row_event r ∈ l ∧ row_device_id r = device_id)
  ∧ Forall2 (λ event d, dsp_event_identifier d = event_identifier event
      ∧ (dsp_disposition d = d_accepted ∧ dsp_reason_code d = "persisted"
         ∧ (∃ r, r ∈ power_rows (judge device_id when l s).2 ∧ stores device_id event r)
         ∨ dsp_disposition d = d_rejected
           ∧ dsp_reason_code d ∈ ["event_expired"; "event_future"; "event_conflict"; "event_metadata_too_large"]))
      l (judge device_id when l s).1.
Proof.
  revert s. induction l as [|event l IH]; intros s Hs; cbn [judge].
  { split_and!; first [done|by constructor|by intros; left]. }
  destruct (verdict device_id event when s) as [code|] eqn:Ev.
  - destruct (IH s Hs) as (H1 & H2 & H3 & H4 & H5 & H6). destruct (judge device_id when l s) as [results s'].
    cbn [fst snd map] in *. split_and!; [done..|by rewrite H4| |].
    + intros r Hr. destruct (H5 r Hr) as [?|[??]]; [by left|right]. split; [by right|done].
    + constructor; [|done]. split; [done|]. right. split; [done|]. cbn [dsp_reason_code].
      unfold verdict in Ev. repeat case_match; simplify_eq; set_solver.
  - destruct (after_event_stores _ _ _ _ Hs Ev) as (A1 & (r0 & Hr0 & Hst) & A3 & A4).
    destruct (IH _ A1) as (H1 & H2 & H3 & H4 & H5 & H6).
    destruct (judge device_id when l (after_event device_id event when s)) as [results s'].
    cbn [fst snd map] in *. split_and!; [done|by etrans|by rewrite H3|by rewrite H4| |].
    + intros r Hr. destruct (H5 r Hr) as [Hin|[??]]; [|right; split; [by right|done]].
      unfold after_event in Hin. destruct (bool_decide _); [|by left].
      simpl in Hin. apply elem_of_app in Hin as [?|Er%list_elem_of_singleton]; [by left|right]. subst r. split; [left|done].
    + constructor; [|done]. split; [done|]. left. split_and!; [done..|]. exists r0. split; [|done].
      destruct H2 as [k ->]. apply elem_of_app. by left.
Qed.

Lemma judge_length device_id when l s : length (judge device_id when l s).1 = length l.
Proof.
  revert s. induction l as [|event l IH]; intros s; simpl; [done|].
  destruct (verdict _ _ _ _); [specialize (IH s)|specialize (IH (after_event device_id event when s))];
    destruct (judge _ _ _ _); simpl in *; lia.
Qed.

Definition with_source (device_id : uuid) (when : datetime) (st : PowerSourceStatusV1) (s : PowerServer) : PowerServer :=
  s <| power_sources := partial_alter (λ state, report_source when state st) device_id (power_sources s) |>.

Lemma commit_run device_id batch received s :
  commit_and_ack_power_events device_id batch received s =
  let '(results, s') := judge device_id (as_utc received) (events batch)
                          (with_source device_id (as_utc received) (source_status batch) s) in
  if unique_results results
  then (Ok {| ack_batch_id := batch_id batch; persisted_at := as_utc received; results := results |}, s')
  else (Exn (ValidationError "PowerEventAckV1"), s).
Proof.
  unfold commit_and_ack_power_events, ingest_gateway_power_events, mbind, M_bind, ingest_source. cbv zeta.
  fold (with_source device_id (as_utc received) (source_status batch) s). rewrite ingest_events_run.
  destruct (judge _ _ _ _) as [results s']. simpl. by destruct (unique_results results).
Qed.

(** What an acknowledgement promises about the server. *)
Definition answers (device_id : uuid) (rows : list PowerEventRow) (event : PowerEventV1)
    (d : PowerEventDispositionV1) : Prop :=
  dsp_event_identifier d = event_identifier event
  ∧ (dsp_disposition d = d_accepted ∧ dsp_reason_code d = "persisted"
     ∧ (∃ r, r ∈ rows ∧ stores device_id event r)
     ∨ dsp_disposition d = d_rejected
       ∧ dsp_reason_code d ∈ ["event_expired"; "event_future"; "event_conflict"; "event_metadata_too_large"]).

Lemma commit_spec device_id batch received s :
  server_ok s →
  match commit_and_ack_power_events device_id batch received s with
  | (Ok ack, s') =>
      server_ok s' ∧ power_rows s `prefix_of` power_rows s'
      ∧ ack_batch_id ack = batch_id batch ∧ persisted_at ack = as_utc received
      ∧ Forall2 (answers device_id (power_rows s')) (events batch) (results ack)
      ∧ (∀ r, r ∈ power_rows s' → r ∈ power_rows s ∨ row_event r ∈ events batch ∧ row_device_id r = device_id)
  | (Exn e, s') => s' = s ∧ ¬ (NoDup (map event_identifier (events batch)) ∧ (length (events batch) <= 128)%nat)
  end.
Proof.
  intros Hs. rewrite commit_run. set (s0 := with_source _ _ _ s).
  assert (server_ok s0) as Hs0 by done.
  destruct (judge_spec device_id (as_utc received) (events batch) s0 Hs0) as (H1 & H2 & H3 & H4 & H5 & H6).
  pose proof (judge_length device_id (as_utc received) (events batch) s0) as Hlen.
  destruct (judge _ _ _ s0) as [results s']. cbn [fst snd] in *. destruct (unique_results results) eqn:Eu.
  - by split_and!.
  - split; [done|]. intros [Hd Hl]. unfold unique_results in Eu. rewrite H4 in Eu.
    rewrite bool_decide_eq_true_2 in Eu by done. simpl in Eu. propify. lia.
Qed.

(** An acknowledgement is true when it is sent: for a batch of at most 128
    different events the server commits, in one transaction, a row for exactly the
    events it accepts and answers every event in its place; an accepted event is
    stored under its identity for its device, a refused one has one of four
    reasons, no stored row is touched, and a batch that cannot be answered commits
    nothing. *)
Theorem acknowledged_evidence_is_stored device_id batch received s :
  server_ok s →
  match commit_and_ack_power_events device_id batch received s with
  | (Ok ack, s') =>
      server_ok s' ∧ power_rows s `prefix_of` power_rows s'
      ∧ ack_batch_id ack = batch_id batch ∧ persisted_at ack = as_utc received
      ∧ Forall2 (answers device_id (power_rows s')) (events batch) (results ack)
      ∧ (∀ r, r ∈ power_rows s' → r ∈ power_rows s ∨ row_event r ∈ events batch ∧ row_device_id r = device_id)
  | (Exn e, s') => s' = s ∧ ¬ (NoDup (map event_identifier (events batch)) ∧ (length (events batch) <= 128)%nat)
  end.
Proof. apply commit_spec. Qed.

(** ** Replays *)

Lemma stored_is_accepted device_id event when s r :
  server_ok s → r ∈ power_rows s → stores device_id event r →
  expired_at when event = false → future_at when event = false →
  verdict device_id event when s = None ∧ after_event device_id event when s = s.
Proof.
  intros (Hwf & [_ Hu] & _) Hr (Hd & Hid & Hst) He Hf. rewrite Forall_forall in Hwf.
  assert (_native_key (row_event r) = _native_key event) as Hkey.
  { unfold _native_key. injection Hst as _ _ Hb Hso Hn _ _. by rewrite Hb, Hso, Hn. }
  destruct (Hwf r Hr) as (W1 & W2 & _).
  assert (r ∈ existing_events device_id event s) as Hin.
  { apply existing_events_In. split_and!; [done..|]. right. congruence. }
  unfold verdict, after_event. rewrite He, Hf.
  assert (forallb (same_event event) (existing_events device_id event s) = true) as ->.
  { apply forallb_forall. intros r' Hr'%list_elem_of_In. apply existing_events_In in Hr' as (Hr' & Hd' & Hk).
    assert (r' = r) as -> by (apply Hu; [done..|congruence|]; destruct Hk; [left|right]; congruence).
    unfold same_event. rewrite Hid, Hst, Z.eqb_refl. simpl. by apply bool_decide_eq_true. }
  rewrite bool_decide_eq_false_2; [done|]. intros E. rewrite E in Hin. by apply elem_of_nil in Hin.
Qed.

Lemma judge_stored device_id when l s :
  server_ok s →
  (∀ event, event ∈ l → (∃ r, r ∈ power_rows s ∧ stores device_id event r)
     ∧ expired_at when event = false ∧ future_at when event = false) →
  (judge device_id when l s).2 = s ∧ Forall (λ d, dsp_disposition d = d_accepted) (judge device_id when l s).1.
Proof.
  intros Hs Hl. induction l as [|event l IH]; cbn [judge]; [by split|].
  destruct (Hl event) as ((r & Hr & Hst) & He & Hf); [left|].
  destruct (stored_is_accepted _ _ _ _ _ Hs Hr Hst He Hf) as [-> ->].
  destruct IH as [E Hall]; [intros e' He'; apply Hl; by right|].
  destruct (judge device_id when l s) as [results s']. cbn [fst snd] in *. split; [done|by constructor].
Qed.

(** Delivery may be repeated: a batch whose events are stored, say because
    its acknowledgement was lost, is accepted again as long as the events are
    neither expired nor in the future, and no row is added or changed. *)
Theorem a_replayed_batch_adds_nothing device_id batch received s :
  server_ok s → NoDup (map event_identifier (events batch)) → (length (events batch) <= 128)%nat →
  (∀ event, event ∈ events batch → (∃ r, r ∈ power_rows s ∧ stores device_id event r)
     ∧ expired_at (as_utc received) event = false ∧ future_at (as_utc received) event = false) →
  ∃ ack s', commit_and_ack_power_events device_id batch received s = (Ok ack, s')
    ∧ power_rows s' = power_rows s ∧ map dsp_event_identifier (results ack) = map event_identifier (events batch)
    ∧ Forall (λ d, dsp_disposition d = d_accepted) (results ack).
Proof.
  intros Hs Hd Hn Hl. pose proof (commit_spec device_id batch received s Hs) as Hspec.
  rewrite commit_run in *. set (s0 := with_source _ _ _ s) in *. assert (server_ok s0) as Hs0 by done.
  destruct (judge_spec device_id (as_utc received) (events batch) s0 Hs0) as (_ & _ & _ & H4 & _).
  destruct (judge_stored device_id (as_utc received) (events batch) s0 Hs0 Hl) as [E Hall].
  destruct (judge _ _ _ s0) as [results s']. cbn [fst snd] in *. subst s'.
  destruct (unique_results results); [|by destruct Hspec as [_ []]].
  eexists _, _. split; [done|]. by split_and!.
Qed.

(** ** Interleavings *)

Inductive server_step (s : PowerServer) : PowerServer → Prop :=
| step_ingest device_id batch received :
    server_step s (commit_and_ack_power_events device_id batch received s).2
| step_retain now limit : server_step s (retain_power_events now limit s).2.

Lemma filter_rows_unique P l : rows_unique l → rows_unique (List.filter P l).
Proof.
  intros [Hd Hu]. split; [by apply (NoDup_filter_bool row_id)|].
  intros r r' [Hr _]%elem_of_filter_bool [Hr' _]%elem_of_filter_bool. by apply Hu.
Qed.

(** Retention takes away rows of thirty days and more, and no other. *)
Lemma retain_spec now limit s :
  server_ok s →
  let s' := (retain_power_events now limit s).2 in
  server_ok s' ∧ (∀ r, r ∈ power_rows s' → r ∈ power_rows s)
  ∧ ∀ r, r ∈ power_rows s → r ∈ power_rows s' ∨ instant (row_occurred_at r) < instant now - days 30.
Proof.
  intros Hs. pose proof Hs as (Hwf & Hu & Hn). unfold retain_power_events.
  destruct (negb _); [cbn [snd]; split_and!; auto|]. cbv zeta. cbn [snd].
  set (due := List.filter (λ r, instant (row_occurred_at r) <? instant now - days 30) (power_rows s)).
  set (ids := map row_id (take (Z.to_nat limit) (order_by retention_leb due))).
  assert (∀ r, row_id r ∈ ids → r ∈ power_rows s → instant (row_occurred_at r) < instant now - days 30) as Hids.
  { intros r (r' & Eid & Hr')%list_elem_of_fmap Hr.
    assert (r' ∈ due) as Hdue.
    { rewrite <-(elem_of_order_by retention_leb). eapply elem_of_sublist; [exact Hr'|apply sublist_take]. }
    apply elem_of_filter_bool in Hdue as [Hin Hlt]. propify.
    assert (r = r') as ->; [|done]. destruct Hu as [Hd _].
    clear -Hd Hr Hin Eid. induction (power_rows s) as [|x l IH]; [by apply elem_of_nil in Hr|].
    simpl in Hd. apply NoDup_cons in Hd as [Hx Hd]. rewrite elem_of_cons in Hr, Hin.
    destruct Hr as [->|Hr], Hin as [->|Hin]; [done| | |by apply IH].
    - destruct Hx. rewrite Eid. by apply list_elem_of_fmap_2.
    - destruct Hx. rewrite <-Eid. by apply list_elem_of_fmap_2. }
  unfold server_ok. simpl. split_and!.
  - rewrite Forall_forall in *. intros r [Hr _]%elem_of_filter_bool. by apply Hwf.
  - by apply filter_rows_unique.
  - intros r [Hr _]%elem_of_filter_bool. by apply Hn.
  - by intros r [Hr _]%elem_of_filter_bool.
  - intros r Hr. destruct (decide (row_id r ∈ ids)) as [Hi|Hi]; [right; by apply Hids|left].
    apply elem_of_filter_bool. split; [done|]. by rewrite bool_decide_eq_false_2.
Qed.

Lemma step_ok s s' : server_step s s' → server_ok s → server_ok s'.
Proof.
  intros [device_id batch received|now limit] Hs.
  - pose proof (commit_spec device_id batch received s Hs) as H1.
    destruct (commit_and_ack_power_events _ _ _ _) as [[ack|e] s1]; [apply H1|]. by destruct H1 as [-> _].
  - by apply retain_spec.
Qed.

Lemma new_server_ok : server_ok new_server.
Proof.
  split; [constructor|]. split; [|by intros r ?%elem_of_nil]. split; [constructor|by intros r r' ?%elem_of_nil].
Qed.

Lemma reachable_ok s : rtc server_step new_server s → server_ok s.
Proof.
  intros Hrun. pose proof new_server_ok as Hs. revert Hs. induction Hrun as [|x y z Hxy _ IH]; [done|].
  intros Hs. apply IH. by eapply step_ok.
Qed.

(** However ingestion and retention interleave, a device has a row of an event
    once, by its identifier and by its native record, each row is made from the
    event it holds, and a row stays as it is until retention removes it, thirty
    days after the event. *)
Theorem power_evidence_is_stored_once s s' :
  rtc server_step new_server s → server_step s s' →
  (∀ r r', r ∈ power_rows s → r' ∈ power_rows s → row_device_id r = row_device_id r' →
     row_source_key r = row_source_key r' ∨ row_event_identifier r = row_event_identifier r' → r = r')
  ∧ Forall row_wf (power_rows s)
  ∧ ∀ r, r ∈ power_rows s → r ∈ power_rows s'
      ∨ ∃ now limit, s' = (retain_power_events now limit s).2 ∧ instant (row_occurred_at r) < instant now - days 30.
Proof.
  intros Hrun%reachable_ok Hstep. pose proof Hrun as (Hwf & [_ Hu] & _). split_and!; [exact Hu|exact Hwf|].
  intros r Hr. destruct Hstep as [device_id batch received|now limit].
  - left. pose proof (commit_spec device_id batch received s Hrun) as H1.
    destruct (commit_and_ack_power_events _ _ _ _) as [[ack|e] s1]; simpl in *.
    + destruct H1 as (_ & [k ->] & _). apply elem_of_app. by left.
    + by destruct H1 as [-> _].
  - destruct (retain_spec now limit s Hrun) as (_ & _ & H3). destruct (H3 r Hr); [by left|right]. eauto.
Qed.
End rows.

(** ** The state of a source *)

Section sources.

(** What a source state says, without the time it was received. *)
Record view := {
  v_source : string; v_availability : Z; v_reported : Z; v_coverage : option datetime; v_loss : Z; v_resets : Z
}.

Definition state_view (s : PowerSourceState) : view :=
  {| v_source := src_source s; v_availability := availability_index (src_availability s);
     v_reported := instant (src_reported_at s); v_coverage := src_coverage_started_at s;
     v_loss := src_loss_count s; v_resets := src_reset_count s |}.

Definition report_view (st : PowerSourceStatusV1) : view :=
  {| v_source := st_source st; v_availability := availability_index (st_availability st);
     v_reported := instant (st_reported_at st); v_coverage := as_utc <$> st_coverage_started_at st;
     v_loss := st_loss_count st; v_resets := st_reset_count st |}.

(** The least upper bound of two views of one moment, and the later of two. *)
Definition tie (a b : view) : view :=
  {| v_source := str_min (v_source a) (v_source b);
     v_availability := Z.max (Z.max (v_availability a) (v_availability b))
                         (Z.b2z (negb (bool_decide (v_source a = v_source b))));
     v_reported := v_reported a;
     v_coverage := match v_coverage a, v_coverage b with Some x, Some y => Some (later x y) | _, _ => None end;
     v_loss := Z.max (v_loss a) (v_loss b); v_resets := Z.max (v_resets a) (v_resets b) |}.

Definition join (a b : view) : view :=
  if v_reported a <? v_reported b then b else if v_reported b <? v_reported a then a else tie a b.

(** Views with UTC coverage and an availability. *)
Definition view_ok (v : view) : Prop :=
  0 <= v_availability v <= 3 ∧ match v_coverage v with Some c => as_utc c = c | None => True end.

Lemma report_view_ok st : view_ok (report_view st).
Proof.
  split; simpl; [by destruct (st_availability st)|].
  destruct (st_coverage_started_at st); simpl; [apply as_utc_idem|done].
Qed.

Lemma order_index n : 0 <= n <= 3 → availability_index (_AVAILABILITY_ORDER n) = n.
Proof. intros Hn. assert (n = 0 ∨ n = 1 ∨ n = 2 ∨ n = 3) as [-> | [-> | [-> | ->]]] by lia; reflexivity. Qed.

Lemma later_ok a b : as_utc (later a b) = later a b.
Proof. unfold later. destruct (_ <? _); apply as_utc_idem. Qed.

Lemma instant_later a b : instant (later a b) = Z.max (instant a) (instant b).
Proof. unfold later. destruct (Z.ltb_spec (instant a) (instant b)); rewrite instant_as_utc; lia. Qed.

Lemma utc_eq a b : as_utc a = a → as_utc b = b → instant a = instant b → a = b.
Proof. intros Ha Hb E. rewrite <-Ha, <-Hb. unfold as_utc. by rewrite E. Qed.

Lemma str_min_comm a b : str_min a b = str_min b a.
Proof.
  unfold str_min. destruct (str_leb a b) eqn:E1, (str_leb b a) eqn:E2; try done; [by apply str_leb_antisym|].
  destruct (str_leb_total a b); congruence.
Qed.

Lemma str_min_cases a b : (str_min a b = a ∧ str_leb a b = true) ∨ (str_min a b = b ∧ str_leb b a = true).
Proof.
  unfold str_min. destruct (str_leb a b) eqn:E; [by left|right]. destruct (str_leb_total a b); [congruence|done].
Qed.

Lemma str_min_spec a b x : str_min a b = x ↔ (x = a ∨ x = b) ∧ str_leb x a = true ∧ str_leb x b = true.
Proof.
  assert (∀ y, str_leb y y = true) as Hr by (intros y; by destruct (str_leb_total y y)). split.
  - intros <-. destruct (str_min_cases a b) as [[-> E]|[-> E]]; auto.
  - intros [[-> | ->] [H1 H2]]; destruct (str_min_cases a b) as [[-> E]|[-> E]]; try done; by apply str_leb_antisym.
Qed.

Lemma str_min_assoc a b c : str_min (str_min a b) c = str_min a (str_min b c).
Proof.
  set (x := str_min a (str_min b c)).
  destruct (proj1 (str_min_spec a (str_min b c) x) eq_refl) as (Hx & Ha & Hbc).
  destruct (proj1 (str_min_spec b c _) eq_refl) as (Hm & Hmb & Hmc).
  assert (str_leb x b = true ∧ str_leb x c = true) as [Hb Hc] by (split; by eapply str_leb_trans).
  destruct (proj1 (str_min_spec a b _) eq_refl) as (Hn & Hna & Hnb).
  apply str_min_spec. split_and!; [|destruct Hn as [-> | ->]; done|done].
  destruct Hx as [E|E]; [left; symmetry; apply str_min_spec; auto|].
  destruct Hm as [Em|Em]; [left|right; congruence]. symmetry. apply str_min_spec. split; [right; congruence|auto].
Qed.

Lemma instant_utc_datetime n : instant (utc_datetime n) = n.
Proof. unfold instant. simpl. lia. Qed.

Lemma later_spec a b : as_utc a = a → as_utc b = b → later a b = utc_datetime (Z.max (instant a) (instant b)).
Proof.
  intros _ _. apply utc_eq; [apply later_ok|unfold as_utc, instant; simpl; by rewrite Z.sub_0_r|].
  rewrite instant_later. unfold instant at 3. simpl. lia.
Qed.

(** The three-way law of the availability of tied reports. *)
Lemma differ_assoc a b c x y z :
  Z.max (Z.max (Z.max (Z.max x y) (Z.b2z (negb (bool_decide (a = b))))) z) (Z.b2z (negb (bool_decide (str_min a b = c))))
  = Z.max (Z.max x (Z.max (Z.max y z) (Z.b2z (negb (bool_decide (b = c))))))
      (Z.b2z (negb (bool_decide (a = str_min b c)))).
Proof.
  destruct (str_min_cases a b) as [[E1 _]|[E1 _]], (str_min_cases b c) as [[E2 _]|[E2 _]]; rewrite E1, E2;
    repeat case_bool_decide; subst; simpl; try lia; congruence.
Qed.

Lemma tie_assoc a b c : view_ok a → view_ok b → view_ok c → tie (tie a b) c = tie a (tie b c).
Proof.
  intros [_ Ha] [_ Hb] [_ Hc]. unfold tie. simpl. f_equal.
  - apply str_min_assoc.
  - apply differ_assoc.
  - destruct (v_coverage a) as [x|], (v_coverage b) as [y|], (v_coverage c) as [z|]; try done. f_equal.
    rewrite !later_spec by (done || apply later_ok || (unfold as_utc; by rewrite instant_utc_datetime)). rewrite !instant_utc_datetime. by rewrite Z.max_assoc.
  - symmetry. apply Z.max_assoc.
  - symmetry. apply Z.max_assoc.
Qed.

Lemma tie_comm a b : view_ok a → view_ok b → v_reported a = v_reported b → tie a b = tie b a.
Proof.
  intros [_ Ha] [_ Hb] Hr. unfold tie. f_equal; [apply str_min_comm| |done| |apply Z.max_comm|apply Z.max_comm].
  - rewrite (Z.max_comm (v_availability a)). do 4 f_equal. apply bool_decide_ext. done.
  - destruct (v_coverage a) as [x|], (v_coverage b) as [y|]; try done. f_equal.
    rewrite !later_spec by done. by rewrite Z.max_comm.
Qed.

Lemma tie_idem a : view_ok a → tie a a = a.
Proof.
  intros [Hn Ha]. unfold tie. rewrite !Z.max_id, bool_decide_eq_true_2 by done. simpl.
  assert (str_min (v_source a) (v_source a) = v_source a) as -> by (unfold str_min; by destruct (str_leb _ _)).
  rewrite Z.max_l by lia. destruct a as [s v r c l n]. simpl in *. f_equal. destruct c as [x|]; [|done]. f_equal.
  unfold later. by destruct (_ <? _).
Qed.

Lemma tie_ok a b : view_ok a → view_ok b → view_ok (tie a b).
Proof.
  intros [Ha Ca] [Hb Cb]. split; simpl; [destruct (bool_decide _); simpl; lia|].
  destruct (v_coverage a), (v_coverage b); try done. apply later_ok.
Qed.

Lemma join_ok a b : view_ok a → view_ok b → view_ok (join a b).
Proof. intros Ha Hb. unfold join. destruct (_ <? _); [done|]. destruct (_ <? _); [done|]. by apply tie_ok. Qed.

Lemma join_reported a b : v_reported (join a b) = Z.max (v_reported a) (v_reported b).
Proof.
  unfold join. destruct (Z.ltb_spec (v_reported a) (v_reported b)); [lia|].
  destruct (Z.ltb_spec (v_reported b) (v_reported a)); simpl; lia.
Qed.

Lemma join_comm a b : view_ok a → view_ok b → join a b = join b a.
Proof.
  intros Ha Hb. unfold join. destruct (Z.ltb_spec (v_reported a) (v_reported b)), (Z.ltb_spec (v_reported b) (v_reported a));
    try done; [lia|]. apply tie_comm; [done..|lia].
Qed.

Lemma join_idem a : view_ok a → join a a = a.
Proof. intros Ha. unfold join. rewrite Z.ltb_irrefl. by apply tie_idem. Qed.

Lemma join_assoc a b c : view_ok a → view_ok b → view_ok c → join (join a b) c = join a (join b c).
Proof.
  intros Ha Hb Hc. unfold join at 1 3. rewrite !join_reported. unfold join.
  destruct (Z.ltb_spec (v_reported a) (v_reported b)), (Z.ltb_spec (v_reported b) (v_reported a));
    destruct (Z.ltb_spec (v_reported b) (v_reported c)), (Z.ltb_spec (v_reported c) (v_reported b)); try lia;
    repeat match goal with |- context [?x <? ?y] => destruct (Z.ltb_spec x y) end; try lia; try done.
  by apply tie_assoc.
Qed.

(** The view that reports leave, one after another. *)
Definition add_report (o : option view) (st : PowerSourceStatusV1) : option view :=
  Some (match o with None => report_view st | Some v => join v (report_view st) end).
Definition views (l : list PowerSourceStatusV1) : option view := foldl add_report None l.

Lemma views_snoc l st : views (l ++ [st]) = add_report (views l) st.
Proof. unfold views. by rewrite foldl_app. Qed.

Lemma views_ok l v : views l = Some v → view_ok v.
Proof.
  revert v. induction l as [|st l IH] using rev_ind; intros v; [done|]. rewrite views_snoc. unfold add_report.
  intros [= <-]. pose proof (report_view_ok st). destruct (views l) as [u|]; [|done]. by apply join_ok; [apply IH|].
Qed.

(** A report that has been merged adds nothing. *)
Lemma views_absorb l v st : views l = Some v → st ∈ l → join v (report_view st) = v.
Proof.
  revert v. induction l as [|y l IH] using rev_ind; intros v; [by intros _ ?%elem_of_nil|].
  rewrite views_snoc. unfold add_report. intros [= <-]. pose proof (report_view_ok y) as Hy.
  pose proof (report_view_ok st) as Hst. rewrite elem_of_app, list_elem_of_singleton.
  destruct (views l) as [u|] eqn:Eu.
  - pose proof (views_ok _ _ Eu) as Hu. rewrite join_assoc by done. intros [Hin|E].
    + rewrite (join_comm (report_view y)), <-join_assoc by done. by rewrite (IH u).
    + rewrite E. by rewrite join_idem.
  - intros [Hin|E]; [|rewrite E; by apply join_idem].
    destruct l as [|z l _] using rev_ind; [by apply elem_of_nil in Hin|]. by rewrite views_snoc in Eu.
Qed.

Lemma views_absorb_all l l' v v' :
  views l = Some v → views l' = Some v' → (∀ st, st ∈ l' → st ∈ l) → join v v' = v.
Proof.
  intros Hv. revert v'. induction l' as [|y l' IH] using rev_ind; intros v'; [done|].
  rewrite views_snoc. unfold add_report. intros [= <-] Hin. pose proof (views_ok _ _ Hv) as Hok.
  pose proof (report_view_ok y) as Hy.
  assert (join v (report_view y) = v) as Ey by (eapply views_absorb; [done|apply Hin, elem_of_app; right; left]).
  destruct (views l') as [u|] eqn:Eu; [|done]. pose proof (views_ok _ _ Eu).
  rewrite <-join_assoc by done. rewrite (IH u); [done..|]. intros st Hst. apply Hin, elem_of_app. by left.
Qed.

Lemma views_Some l : l ≠ [] → ∃ v, views l = Some v.
Proof. destruct l as [|st l _] using rev_ind; [done|]. rewrite views_snoc. eauto. Qed.

Lemma views_set l l' : (∀ st, st ∈ l ↔ st ∈ l') → views l = views l'.
Proof.
  intros H. destruct (decide (l = [])) as [->|Hl].
  { destruct l' as [|st l']; [done|]. assert (st ∈ []) as ?%elem_of_nil by (apply H; left). done. }
  destruct (decide (l' = [])) as [->|Hl'].
  { destruct l as [|st l]; [done|]. assert (st ∈ []) as ?%elem_of_nil by (apply H; left). done. }
  destruct (views_Some l Hl) as [v Ev], (views_Some l' Hl') as [v' Ev']. rewrite Ev, Ev'. f_equal.
  rewrite <-(views_absorb_all l l' v v' Ev Ev') by (intros; by apply H).
  rewrite join_comm by by eapply views_ok. apply (views_absorb_all l' l v' v Ev' Ev). intros. by apply H.
Qed.

(** One report. *)
Lemma report_source_view when state st :
  report_in_window when st = true →
  state_view <$> report_source when state st = add_report (state_view <$> state) st.
Proof.
  intros Hw. unfold report_source. rewrite Hw. destruct state as [s|]; simpl.
  2: { unfold add_report, source_state, state_view, report_view. simpl. by rewrite instant_as_utc. }
  unfold add_report, join. f_equal. cbn [v_reported state_view report_view].
  destruct (Z.ltb_spec (instant (src_reported_at s)) (instant (st_reported_at st))) as [Hlt|Hge].
  { unfold source_state, state_view, report_view. simpl. by rewrite instant_as_utc. }
  destruct (Z.eqb_spec (instant (st_reported_at st)) (instant (src_reported_at s))) as [Heq|Hne].
  - rewrite Heq, Z.ltb_irrefl. unfold _merge_source_tie, tie, state_view, report_view. simpl.
    rewrite order_index by (destruct (src_availability s), (st_availability st), (bool_decide _); simpl; lia).
    f_equal. destruct (src_coverage_started_at s) as [c|], (st_coverage_started_at st) as [d|]; try done. simpl.
    f_equal. apply utc_eq; [apply later_ok..|]. by rewrite !instant_later, instant_as_utc.
  - destruct (Z.ltb_spec (instant (st_reported_at st)) (instant (src_reported_at s))); [done|lia].
Qed.

Definition receive (state : option PowerSourceState) (report : datetime * PowerSourceStatusV1) : option PowerSourceState :=
  report_source report.1 state report.2.

Lemma receive_views reports :
  Forall (λ r, report_in_window r.1 r.2 = true) reports →
  state_view <$> foldl receive None reports = views (map snd reports).
Proof.
  induction reports as [|[when st] reports IH] using rev_ind; [done|]. intros [Hf Hr]%Forall_app.
  rewrite foldl_app, map_app. simpl. rewrite views_snoc, <-IH by done. apply report_source_view.
  by apply Forall_cons in Hr as [? _].
Qed.

(** The stored state of a power source does not depend on the order in which
    its reports arrive, nor on how often: any two deliveries of the same reports,
    each within the window of its time, leave the same source, availability,
    report time, coverage and counters. *)
Theorem reports_converge reports reports' :
  Forall (λ r, report_in_window r.1 r.2 = true) reports →
  Forall (λ r, report_in_window r.1 r.2 = true) reports' →
  (∀ st, st ∈ map snd reports ↔ st ∈ map snd reports') →
  state_view <$> foldl receive None reports = state_view <$> foldl receive None reports'.
Proof. intros H H' Hset. rewrite !receive_views by done. by apply views_set. Qed.
End sources.

(** ** Witnesses *)

Definition demo_incoming : PowerEventBatchV1 :=
  {| batch_id := 9; events := [demo_power_event 3 (days 40); demo_power_event 4 (days 5)]; source_status := demo_status |}.
Definition demo_received_at : datetime := utc_datetime (days 40).

(** The server after the batch, and what it answered. *)
Definition demo_answer : PowerEventAckV1 :=
  {| ack_batch_id := 9; persisted_at := demo_received_at;
     results := [{| dsp_event_identifier := 3; dsp_disposition := d_accepted; dsp_reason_code := "persisted" |};
                 {| dsp_event_identifier := 4; dsp_disposition := d_rejected; dsp_reason_code := "event_expired" |}] |}.
Definition demo_ingest (batch : PowerEventBatchV1) (s : PowerServer) : res PowerEventAckV1 * PowerServer :=
  @commit_and_ack_power_events demo_contracts demo_text 7 batch demo_received_at s.
Definition demo_server : PowerServer := (demo_ingest demo_incoming new_server).2.

Lemma demo_ingested : demo_ingest demo_incoming new_server = (Ok demo_answer, demo_server).
Proof. vm_compute. reflexivity. Qed.

Lemma acknowledged_evidence_is_stored_witness :
  demo_ingest demo_incoming new_server = (Ok demo_answer, demo_server)
  ∧ Forall2 (@answers demo_text 7 (power_rows demo_server)) (events demo_incoming) (results demo_answer).
Proof.
  pose proof (@acknowledged_evidence_is_stored demo_contracts demo_text 7 demo_incoming demo_received_at new_server
    new_server_ok) as H.
  change (@commit_and_ack_power_events demo_contracts demo_text 7 demo_incoming demo_received_at new_server)
    with (demo_ingest demo_incoming new_server) in H.
  rewrite demo_ingested in H. split; [exact demo_ingested|]. exact (proj1 (proj2 (proj2 (proj2 (proj2 H))))).
Defined.

(** The part of the batch that was stored, sent again. *)
Definition demo_replay : PowerEventBatchV1 :=
  {| batch_id := 10; events := [demo_power_event 3 (days 40)]; source_status := demo_status |}.

Lemma demo_server_ok : @server_ok demo_contracts demo_server.
Proof.
  pose proof (commit_spec (H:=demo_contracts) (H0:=demo_text) 7 demo_incoming demo_received_at new_server new_server_ok) as H.
  change (@commit_and_ack_power_events demo_contracts demo_text 7 demo_incoming demo_received_at new_server)
    with (demo_ingest demo_incoming new_server) in H. rewrite demo_ingested in H. exact (proj1 H).
Qed.

Lemma demo_stored : ∃ r, r ∈ power_rows demo_server ∧ @stores demo_text 7 (demo_power_event 3 (days 40)) r.
Proof. eexists. split; [left|]. vm_compute. done. Qed.

Lemma a_replayed_batch_adds_nothing_witness :
  ∃ ack s', demo_ingest demo_replay demo_server = (Ok ack, s') ∧ power_rows s' = power_rows demo_server.
Proof.
  destruct (@a_replayed_batch_adds_nothing demo_contracts demo_text 7 demo_replay demo_received_at demo_server)
    as (ack & s' & H1 & H2 & _).
  - exact demo_server_ok.
  - repeat constructor. by intros ?%elem_of_nil.
  - cbn. lia.
  - intros event ->%list_elem_of_singleton. split; [exact demo_stored|]. split; reflexivity.
  - exists ack, s'. exact (conj H1 H2).
Defined.

Definition demo_retained : PowerServer := (retain_power_events (utc_datetime (days 80)) 10 demo_server).2.

Lemma demo_server_run : rtc (@server_step demo_contracts demo_text) new_server demo_server.
Proof.
  eapply rtc_l; [|apply rtc_refl].
  exact (@step_ingest demo_contracts demo_text new_server 7 demo_incoming demo_received_at).
Qed.

Lemma power_evidence_is_stored_once_witness :
  length (power_rows demo_server) = 1%nat ∧ power_rows demo_retained = []
  ∧ Forall (@row_wf demo_contracts) (power_rows demo_server).
Proof.
  destruct (@power_evidence_is_stored_once demo_contracts demo_text demo_server demo_retained demo_server_run
    (@step_retain demo_contracts demo_text demo_server (utc_datetime (days 80)) 10)) as (_ & Hwf & _).
  split; [vm_compute; reflexivity|]. split; [vm_compute; reflexivity|exact Hwf].
Defined.

(** Two reports of different sources for one moment, in either order. *)
Definition demo_report (src : string) (a : availability) (n : Z) : datetime * PowerSourceStatusV1 :=
  (utc_datetime (days 40), {| st_source := src; st_availability := a; st_reported_at := utc_datetime (days 40);
     st_coverage_started_at := None; st_loss_count := n; st_reset_count := 0 |}).

Lemma reports_converge_witness :
  let a := demo_report "etw" READY 3 in let b := demo_report "journal" READY 1 in
  state_view <$> foldl receive None [a; b] = state_view <$> foldl receive None [b; a; b].
Proof.
  apply (reports_converge [demo_report "etw" READY 3; demo_report "journal" READY 1]
           [demo_report "journal" READY 1; demo_report "etw" READY 3; demo_report "journal" READY 1]).
  - repeat constructor.
  - repeat constructor.
  - intros st. cbn [map]. rewrite !elem_of_cons, elem_of_nil. tauto.
Defined.
