(* ===== verification/PowerProjectionSpecs.v ===== *)
(** * The bounded readers of power evidence show what all of it shows *)

From S2P Require Import Prelude Store AuditLog Contracts Demo SemverFacts LocalMessages LocalMessagesSpecs.
From S2P Require Import PowerEvents PowerSpool PowerSpoolSpecs PowerIngestion PowerIngestionSpecs.

(** ** Preorders *)

Definition preorder {A} (leb : A → A → bool) : Prop :=
  (∀ a b c, leb a b = true → leb b c = true → leb a c = true) ∧ (∀ a b, leb a b = true ∨ leb b a = true).

Lemma by_number_preorder {A} (f : A → Z) : preorder (by_number f).
Proof. unfold by_number. split; intros; lia. Qed.

Lemma descending_preorder {A} (leb : A → A → bool) : preorder leb → preorder (descending leb).
Proof. unfold descending. intros [Ht Hl]. split; [intros a b c; eauto|intros a b; destruct (Hl a b); auto]. Qed.

Lemma text_preorder {A} (f : A → string) : preorder (λ a b, str_leb (f a) (f b)).
Proof. split; intros; [by eapply str_leb_trans|apply str_leb_total]. Qed.

Lemma then_by_true {A} (first second : A → A → bool) a b :
  then_by first second a b = true ↔ first a b = true ∧ (first b a = true → second a b = true).
Proof. unfold then_by. destruct (first a b), (first b a), (second a b); naive_solver. Qed.

Lemma then_by_preorder {A} (first second : A → A → bool) : preorder first → preorder second → preorder (then_by first second).
Proof.
  intros [T1 L1] [T2 L2]. split.
  - intros a b c. rewrite !then_by_true. intros [Hab Hab2] [Hbc Hbc2]. split; [by eapply T1|]. intros Hca.
    eapply T2; [apply Hab2|apply Hbc2]; eauto.
  - intros a b. rewrite !then_by_true. destruct (L1 a b) as [H|H], (first a b) eqn:E1, (first b a) eqn:E2, (L2 a b);
      try congruence; naive_solver.
Qed.

Create HintDb orders.
#[export] Hint Resolve by_number_preorder descending_preorder text_preorder then_by_preorder : orders.

(** What the components say when two elements are equal in an order. *)
Lemma then_by_both {A} (first second : A → A → bool) a b :
  then_by first second a b = true → then_by first second b a = true → second a b = true ∧ second b a = true.
Proof. rewrite !then_by_true. naive_solver. Qed.

(** ** The latest fact *)

Lemma fact_preorder : preorder fact_leb.
Proof. unfold fact_leb. auto 10 with orders. Qed.

Lemma evidence_preorder : preorder _power_evidence_order.
Proof.
  unfold _power_evidence_order. repeat apply then_by_preorder; auto using descending_preorder, by_number_preorder.
  apply descending_preorder, (text_preorder (λ r, uuid_str (row_event_identifier r))).
Qed.

Lemma fact_same_identifier a b :
  fact_leb a b = true → fact_leb b a = true → uuid_str (event_identifier a) = uuid_str (event_identifier b).
Proof.
  intros H1 H2. unfold fact_leb in *.
  destruct (then_by_both _ _ _ _ H1 H2) as [K1 K2]. destruct (then_by_both _ _ _ _ K1 K2) as [J1 J2].
  destruct (then_by_both _ _ _ _ J1 J2) as [I1 I2]. by apply str_leb_antisym.
Qed.

Lemma latest_fact_spec best l :
  match latest_fact best l with
  | None => best = None ∧ l = []
  | Some e => (best = Some e ∨ e ∈ l) ∧ (∀ b, best = Some b → fact_leb b e = true) ∧ ∀ x, x ∈ l → fact_leb x e = true
  end.
Proof.
  destruct fact_preorder as [Htr Htot]. assert (∀ x, fact_leb x x = true) as Hrefl by (intros x; by destruct (Htot x x)).
  revert best. induction l as [|x l IH]; intros best; cbn [latest_fact].
  - destruct best as [b|]; [|done]. split_and!; [by left|by intros ? [= <-]|by intros ? ?%elem_of_nil].
  - destruct best as [b|].
    + specialize (IH (Some (if fact_leb x b then b else x))). destruct (latest_fact _ l) as [e|]; [|by destruct IH].
      destruct IH as (Hin & Hb & Hl). specialize (Hb _ eq_refl).
      destruct (fact_leb x b) eqn:E.
      * split_and!; [rewrite elem_of_cons; naive_solver|by intros ? [= <-]|].
        intros y [->|Hy]%elem_of_cons; [by eapply Htr|by apply Hl].
      * split_and!; [rewrite elem_of_cons; naive_solver| |].
        { intros ? [= <-]. destruct (Htot x b); [congruence|by eapply Htr]. }
        intros y [->|Hy]%elem_of_cons; [done|by apply Hl].
    + specialize (IH (Some x)). destruct (latest_fact _ l) as [e|]; [|by destruct IH].
      destruct IH as (Hin & Hb & Hl). split_and!; [rewrite elem_of_cons; naive_solver|done|].
      intros y [->|Hy]%elem_of_cons; [by apply Hb|by apply Hl].
Qed.

(** Lists with the same greatest facts have the same latest fact. *)
Lemma latest_fact_unique l l' :
  (∀ a b, a ∈ l' → b ∈ l' → fact_leb a b = true → fact_leb b a = true → a = b) →
  (∀ x, x ∈ l → x ∈ l') →
  (∀ x, x ∈ l' → ∃ y, y ∈ l ∧ fact_leb x y = true) →
  latest_fact None l = latest_fact None l'.
Proof.
  intros Huniq Hsub Hcov. destruct fact_preorder as [Htr _].
  pose proof (latest_fact_spec None l) as H1. pose proof (latest_fact_spec None l') as H2.
  destruct (latest_fact None l) as [e|], (latest_fact None l') as [e'|]; [..|done].
  - destruct H1 as ([?|Hin] & _ & Hl); [done|]. destruct H2 as ([?|Hin'] & _ & Hl'); [done|]. f_equal.
    destruct (Hcov e' Hin') as (y & Hy & Hle). apply Huniq; [by apply Hsub|done|by apply Hl', Hsub|].
    eapply Htr; [exact Hle|by apply Hl].
  - destruct H1 as ([?|Hin] & _), H2 as [_ ->]; [done|]. by apply Hsub, elem_of_nil in Hin.
  - destruct H1 as [_ ->], H2 as ([?|Hin] & _); [done|]. by destruct (Hcov e' Hin) as (y & ?%elem_of_nil & _).
Qed.

(** The projection depends on the events through the latest of the window. *)
Definition in_window (now : datetime) (e : PowerEventV1) : bool :=
  dt_leb (utc_datetime (instant (as_utc now) - days 30)) (occurred_at e) && dt_leb (occurred_at e) (as_utc now).

Lemma project_latest online last_seen st l l' now :
  latest_fact None (List.filter (in_window now) l) = latest_fact None (List.filter (in_window now) l') →
  project_power online last_seen st l now = project_power online last_seen st l' now.
Proof.
  intros H. unfold project_power. fold (in_window now).
  change (λ e, dt_leb (utc_datetime (instant (as_utc now) - days 30)) (occurred_at e) && dt_leb (occurred_at e) (as_utc now))
    with (in_window now). by rewrite H.
Qed.

(** ** The rows of a reachable server *)

Section rows.
Context `{Contracts} `{PowerText} (s : PowerServer).
Hypothesis Hok : server_ok s.
Hypothesis Hids : Forall (λ r, 0 <= row_event_identifier r < 2 ^ 128) (power_rows s).

Lemma row_facts r :
  r ∈ power_rows s →
  row_event_identifier r = event_identifier (row_event r) ∧ row_occurred_at r = as_utc (occurred_at (row_event r))
  ∧ row_event_kind r = event_kind (row_event r) ∧ 0 <= row_event_identifier r < 2 ^ 128.
Proof.
  intros Hr. destruct Hok as [Hwf _]. rewrite Forall_forall in Hwf, Hids. destruct (Hwf r Hr) as (W1 & _ & W2 & W3).
  exact (conj W1 (conj W2 (conj W3 (Hids r Hr)))).
Qed.

Lemma in_window_row now r :
  r ∈ power_rows s →
  in_window now (row_event r)
  = (instant (as_utc now) - days 30 <=? instant (row_occurred_at r)) && (instant (row_occurred_at r) <=? instant (as_utc now)).
Proof. intros (_ & -> & _)%row_facts. unfold in_window, dt_leb. unfold utc_datetime at 1, instant at 1. cbn [dt_wall dt_offset default]. by rewrite !instant_as_utc, Z.sub_0_r. Qed.

Lemma recent_rows_In device now r :
  r ∈ recent_rows device (as_utc now) s ↔ r ∈ power_rows s ∧ row_device_id r = device ∧ in_window now (row_event r) = true.
Proof.
  unfold recent_rows. rewrite elem_of_filter_bool. split.
  - intros [Hr E]. rewrite (in_window_row now r Hr). propify. split_and!; [done..|]. apply andb_true_iff. lia.
  - intros (Hr & Hd & Hw). rewrite (in_window_row now r Hr) in Hw. split; [done|]. propify. lia.
Qed.

Lemma order_fact a b :
  a ∈ power_rows s → b ∈ power_rows s → _power_evidence_order a b = true → fact_leb (row_event b) (row_event a) = true.
Proof.
  intros Ha Hb. destruct (row_facts a Ha) as (A1 & A2 & A3 & _), (row_facts b Hb) as (B1 & B2 & B3 & _).
  unfold _power_evidence_order, fact_leb. rewrite !then_by_true. unfold descending, by_number.
  rewrite A1, A2, A3, B1, B2, B3. rewrite !instant_as_utc. naive_solver.
Qed.

Lemma device_facts_unique device a b :
  a ∈ power_rows s → b ∈ power_rows s → row_device_id a = device → row_device_id b = device →
  fact_leb (row_event a) (row_event b) = true → fact_leb (row_event b) (row_event a) = true → a = b.
Proof.
  intros Ha Hb Hda Hdb H1 H2. pose proof (fact_same_identifier _ _ H1 H2) as E.
  destruct (row_facts a Ha) as (A1 & _ & _ & A2), (row_facts b Hb) as (B1 & _ & _ & B2).
  destruct Hok as (_ & [_ Hu] & _). apply Hu; [done..|congruence|]. right.
  assert (Some (row_event_identifier a) = Some (row_event_identifier b)) as [=]; [|done].
  rewrite <-(UUID_of_str _ A2), <-(UUID_of_str _ B2). by rewrite A1, B1, E.
Qed.

Definition device_rows (device : uuid) : list PowerEventRow := List.filter (λ r, row_device_id r =? device) (power_rows s).

(** A part of the rows of a device that has the first recent one in the order of
    evidence shows what all of them show. *)
Lemma part_shows_all device now (part : list PowerEventRow) :
  (∀ r, r ∈ part → r ∈ device_rows device) →
  (∀ h, head (order_by _power_evidence_order (recent_rows device (as_utc now) s)) = Some h → h ∈ part) →
  ∀ online seen st,
    project_power online seen st (map row_event part) now
    = project_power online seen st (map row_event (device_rows device)) now.
Proof.
  intros Hsub Hhead online seen st. apply project_latest.
  assert (∀ l e, e ∈ List.filter (in_window now) (map row_event l) ↔
                 ∃ r, r ∈ l ∧ e = row_event r ∧ in_window now (row_event r) = true) as Hin.
  { intros l e. rewrite elem_of_filter_bool, list_elem_of_fmap. naive_solver. }
  apply latest_fact_unique.
  - intros a b (ra & Ha & -> & _)%Hin (rb & Hb & -> & _)%Hin H1 H2. f_equal.
    apply elem_of_filter_bool in Ha as [Ha Da], Hb as [Hb Db]. propify. by eapply device_facts_unique.
  - intros x (r & Hr & -> & Hw)%Hin. apply Hin. exists r. split_and!; auto.
  - intros x (r & Hr & -> & Hw)%Hin. apply elem_of_filter_bool in Hr as [Hr Hd]. propify.
    assert (r ∈ recent_rows device (as_utc now) s) as Hrec by by apply recent_rows_In.
    destruct (head (order_by _power_evidence_order (recent_rows device (as_utc now) s))) as [h|] eqn:Eh.
    + pose proof (Hhead h eq_refl) as Hh. destruct evidence_preorder as [Htr Htot].
      pose proof (order_by_head _ _ _ _ Htr Htot Eh Hrec) as Hle.
      assert (h ∈ recent_rows device (as_utc now) s) as Hhr.
      { apply head_Some_elem_of in Eh. by rewrite elem_of_order_by in Eh. }
      apply recent_rows_In in Hhr as (Hhp & _ & Hhw).
      exists (row_event h). split; [apply Hin; eauto|]. by apply order_fact.
    + rewrite <-(elem_of_order_by _power_evidence_order) in Hrec.
      destruct (order_by _ _); [by apply elem_of_nil in Hrec|done].
Qed.

Lemma head_taken {A} n (l : list A) h : (0 < n)%nat → head l = Some h → h ∈ take n l.
Proof. destruct n, l; try done; [lia|]. intros _ [= ->]. by left. Qed.

Lemma summary_shows_all device online seen now :
  power_summary device online seen now s
  = project_power online seen (source_projection (power_sources s !! device)) (map row_event (device_rows device)) (as_utc now).
Proof.
  unfold power_summary. cbv zeta. apply part_shows_all; rewrite ?as_utc_idem.
  - intros r Hr. eapply elem_of_sublist in Hr; [|apply sublist_take]. rewrite elem_of_order_by in Hr.
    apply recent_rows_In in Hr as (Hr & Hd & _). apply elem_of_filter_bool. by rewrite Hd, Z.eqb_refl.
  - intros h. apply head_taken. lia.
Qed.

Lemma fleet_shows_all select_order data now item :
  (∀ l, select_order l ≡ₚ l) → item ∈ data →
  ∀ online seen st,
  project_power online seen st
    (map row_event (List.filter (λ r, row_device_id r =? item_id item)
       (select_order (List.filter (λ r, bool_decide (row_device_id r ∈ map item_id data) && ranked (as_utc now) s r)
                        (power_rows s))))) (as_utc now)
  = project_power online seen st (map row_event (device_rows (item_id item))) (as_utc now).
Proof.
  intros Hperm Hitem. apply part_shows_all; rewrite ?as_utc_idem.
  - intros r [Hr Hd]%elem_of_filter_bool. rewrite Hperm in Hr. apply elem_of_filter_bool in Hr as [Hr _].
    by apply elem_of_filter_bool.
  - intros h Hh. pose proof (head_taken 128 _ _ ltac:(lia) Hh) as Ht.
    assert (h ∈ recent_rows (item_id item) (as_utc now) s) as Hrec.
    { apply head_Some_elem_of in Hh. by rewrite elem_of_order_by in Hh. }
    apply recent_rows_In in Hrec as (Hr & Hd & _).
    apply elem_of_filter_bool. split; [|by rewrite Hd, Z.eqb_refl]. rewrite Hperm. apply elem_of_filter_bool.
    split; [done|]. apply andb_true_iff. split; apply bool_decide_eq_true_2.
    + rewrite Hd. by apply list_elem_of_fmap_2.
    + rewrite Hd. by apply list_elem_of_fmap_2.
Qed.
End rows.

(** Both bounded readers show what all stored evidence shows.  The reader of
    one device takes 128 rows and the reader of a page of the fleet ranks the rows
    of all its devices in one query and gets them in any order; on every reachable
    server each gives the projection of all events of the device. *)
Theorem bounded_readers_show_all `{Contracts} `{PowerText} s now :
  rtc server_step new_server s → Forall (λ r, 0 <= row_event_identifier r < 2 ^ 128) (power_rows s) →
  (∀ device online seen,
     power_summary device online seen now s
     = project_power online seen (source_projection (power_sources s !! device))
         (map row_event (device_rows s device)) (as_utc now))
  ∧ ∀ select_order data, (∀ l, select_order l ≡ₚ l) →
      enrich_power_summaries select_order data now s
      = map (λ item, power_summary (item_id item) (item_online item) (item_last_seen_at item) now s) data.
Proof.
  intros Hrun%reachable_ok Hids. split; [intros; by apply summary_shows_all|].
  intros select_order data Hperm. unfold enrich_power_summaries. cbv zeta. apply map_ext_in.
  intros item Hitem%list_elem_of_In. rewrite summary_shows_all by done. by apply fleet_shows_all.
Qed.

(** A label other than online and unknown needs evidence: an offline device, a
    working source, and a transition not older than the last contact. *)
Theorem labels_need_evidence online seen st l now :
  let p := project_power online seen st l now in
  (sum_status p = "sleep" ∨ sum_status p = "shutdown") →
  online = false ∧ ∃ e status, sum_latest_event p = Some e ∧ st = Some status
    ∧ (st_availability status = READY ∨ st_availability status = DEGRADED) ∧ evidence e = "transition"
    ∧ event_kind e = (if decide (sum_status p = "sleep") then "OS_SLEEP_STARTED" else "OS_SHUTDOWN_STARTED")
    ∧ (∀ t, seen = Some t → instant t <= instant (occurred_at e)).
Proof.
  cbv zeta. unfold project_power. cbn [sum_status sum_latest_event].
  destruct (latest_fact None _) as [e|], st as [status|];
    try (destruct online; intros [H|H]; discriminate H).
  destruct (negb online && _ && _ && _) eqn:Eg; [|destruct online; intros [H|H]; discriminate H].
  apply andb_true_iff in Eg as [Eg Hs]. apply andb_true_iff in Eg as [Eg He]. apply andb_true_iff in Eg as [Ho Ha].
  apply bool_decide_eq_true in Ha, He. apply negb_true_iff in Ho.
  intros Hst. split; [by destruct online|]. exists e, status. split_and!; [done..| |].
  - destruct (decide (event_kind e = "OS_SLEEP_STARTED")); [done|].
    destruct (decide (event_kind e = "OS_SHUTDOWN_STARTED")); [done|]. destruct Hst as [H|H]; discriminate H.
  - intros t ->. unfold dt_leb in Hs. by apply Z.leb_le.
Qed.

(** The fleet of the demo server. *)
Lemma bounded_readers_show_all_witness :
  sum_latest_event (@power_summary 7 false None demo_received_at demo_server) = Some (demo_power_event 3 (days 40))
  ∧ enrich_power_summaries (λ l, rev l) [{| item_id := 7; item_online := false; item_last_seen_at := None |}]
      demo_received_at demo_server
    = [power_summary 7 false None demo_received_at demo_server].
Proof.
  split; [vm_compute; reflexivity|].
  destruct (@bounded_readers_show_all demo_contracts demo_text demo_server demo_received_at demo_server_run) as [_ H].
  - assert (map row_event_identifier (power_rows demo_server) = [3]) as E by (vm_compute; reflexivity).
    apply Forall_forall. intros r Hr. assert (row_event_identifier r ∈ [3]) as ->%list_elem_of_singleton; [|lia].
    rewrite <-E. by apply list_elem_of_fmap_2.
  - exact (H (λ l, rev l) [{| item_id := 7; item_online := false; item_last_seen_at := None |}]
             (λ l, Permutation_sym (Permutation_rev l))).
Defined.
