(* ===== verification/PowerPipeline.v ===== *)
(** * Power evidence from the agent to the server

    The runtime of the agent (pc_agent/power/runtime.py) over its queue, the
    server, and a network between them that may lose, repeat and reorder what is
    sent: a message once sent may be delivered at any later time, any number of
    times or never. *)

From S2P Require Import Prelude Store AuditLog Contracts Demo Calendar PowerEvents PowerSpool PowerSpoolSpecs.
From S2P Require Import PowerIngestion PowerIngestionSpecs.

(** ** PowerEventRuntime *)

Record PowerEventRuntime := {
  spool : PowerEventSpool;
  _inflight : option PowerEventBatchV1;
  _acked : bool
}.
#[export] Instance PowerEventRuntime_eta : Eta PowerEventRuntime := λ r,
  Build_PowerEventRuntime (spool r) (_inflight r) (_acked r).

Section runtime.
Context `{PowerText}.

(** [send_forever] up to the first sending: the next batch is in flight. *)
Definition take_batch (new_id : uuid) (now : datetime) (r : PowerEventRuntime) : PowerEventRuntime :=
  match next_batch new_id now (spool r) with
  | (Ok (Some batch), s) => r <| spool := s |> <| _inflight := Some batch |> <| _acked := false |>
  | (_, s) => r <| spool := s |>
  end.

(** [receive_ack] *)
Definition receive_ack (ack : PowerEventAckV1) (r : PowerEventRuntime) : bool * PowerEventRuntime :=
  match _inflight r with
  | None => (false, r)
  | Some batch =>
      match acknowledge batch ack (spool r) with
      | (Ok true, s) => (true, r <| spool := s |> <| _acked := true |>)
      | (_, s) => (false, r <| spool := s |>)
      end
  end.

(** The end of a turn of [send_forever], and its [finally]. *)
Definition clear_inflight (r : PowerEventRuntime) : PowerEventRuntime := r <| _inflight := None |>.
End runtime.

(** ** The system

    [offered_total], [taken], [log] and [retired] are history: how many events
    were offered to the queue, the rows it let go as accepted, the rows the server
    has committed and those that retention has removed. *)

Record system := {
  agent : PowerEventRuntime;
  server : PowerServer;
  wire : list PowerEventBatchV1;
  acks : list PowerEventAckV1;
  offered_total : Z;
  taken : list QueuedEvent;
  log : list PowerEventRow;
  retired : list PowerEventRow
}.
#[export] Instance system_eta : Eta system := λ s,
  Build_system (agent s) (server s) (wire s) (acks s) (offered_total s) (taken s) (log s) (retired s).

(** The rows that the dispositions of an acknowledgement take out as accepted. *)
Fixpoint taken_rows (queue : list QueuedEvent) (l : list PowerEventDispositionV1) : list QueuedEvent :=
  match l with
  | [] => []
  | d :: l =>
      let id := dsp_event_identifier d in
      if decide (dsp_disposition d = d_retry_later) then taken_rows queue l
      else (if decide (dsp_disposition d = d_accepted) then List.filter (λ q, q_identifier q =? id) queue else [])
           ++ taken_rows (List.filter (λ q, negb (q_identifier q =? id)) queue) l
  end.

Definition new_system : system :=
  {| agent := {| spool := new_spool; _inflight := None; _acked := false |}; server := new_server; wire := [];
     acks := []; offered_total := 0; taken := []; log := []; retired := [] |}.

Section system.
Context `{Contracts} `{PowerText} (max_events max_bytes : Z) (device : uuid).

(** The calls of the agent on its queue besides acknowledgements: pages, callbacks,
    diagnostics and reads. *)
Definition local_call (c : spool_call) : Prop := match c with Acknowledge _ _ => False | _ => True end.

(** The server after a request or a retention run, with its history. *)
Definition with_server (s : PowerServer) (sys : system) : system :=
  sys <| server := s |>
      <| log := log sys ++ drop (length (power_rows (server sys))) (power_rows s) |>.

Inductive system_step (sys : system) : system → Prop :=
| sys_call c :
    local_call c →
    let r := call_spool max_events max_bytes c (spool (agent sys)) in
    system_step sys (sys <| agent := agent sys <| spool := r.2 |> |>
      <| offered_total := offered_total sys + (if r.1 then offered_by c (spool (agent sys)) else 0) |>)
| sys_take new_id now :
    (* [uuid4()] gives an identifier no batch has *)
    (∀ b, b ∈ wire sys → batch_id b ≠ new_id) → _inflight (agent sys) = None →
    system_step sys (sys <| agent := take_batch new_id now (agent sys) |>)
| sys_send batch :
    _inflight (agent sys) = Some batch → system_step sys (sys <| wire := batch :: wire sys |>)
| sys_deliver batch received ack s :
    batch ∈ wire sys →
    commit_and_ack_power_events device batch received (server sys) = (Ok ack, s) →
    system_step sys (with_server s (sys <| acks := ack :: acks sys |>))
| sys_other other batch received :
    (* another device of the fleet *)
    other ≠ device →
    system_step sys (with_server (commit_and_ack_power_events other batch received (server sys)).2 sys)
| sys_retain now limit :
    let s := (retain_power_events now limit (server sys)).2 in
    system_step sys (sys <| server := s |>
      <| retired := retired sys ++ List.filter (λ r, negb (bool_decide (row_id r ∈ map row_id (power_rows s))))
                                     (power_rows (server sys)) |>)
| sys_receive ack batch :
    ack ∈ acks sys → _inflight (agent sys) = Some batch →
    system_step sys (sys <| agent := (receive_ack ack (agent sys)).2 |>
      <| taken := taken sys ++ (if (receive_ack ack (agent sys)).1
                                then taken_rows (power_queue (spool (agent sys))) (results ack) else []) |>)
| sys_clear : system_step sys (sys <| agent := clear_inflight (agent sys) |>).
End system.

(** ** No power evidence is lost without being counted

    The composition of the queue, the runtime and the server over an unreliable
    network. *)

Section specs.
Context `{Contracts} `{PowerText} (max_events max_bytes : Z) (device : uuid).

(** ** What an acknowledgement takes *)

Lemma taken_rows_In queue l q :
  q ∈ taken_rows queue l →
  q ∈ queue ∧ ∃ d, d ∈ l ∧ dsp_event_identifier d = q_identifier q ∧ dsp_disposition d = d_accepted.
Proof.
  revert queue. induction l as [|d l IH]; intros queue; cbn [taken_rows]; [by intros ?%elem_of_nil|].
  destruct (decide (dsp_disposition d = d_retry_later)).
  { intros (Hq & d' & Hd & ?)%IH. split; [done|]. exists d'. split; [by right|done]. }
  rewrite elem_of_app. intros [Hq|Hq].
  - destruct (decide (dsp_disposition d = d_accepted)); [|by apply elem_of_nil in Hq].
    apply elem_of_filter_bool in Hq as [Hq Hid]. propify. split; [done|]. exists d. split; [left|done].
  - apply IH in Hq as (Hq & d' & Hd & ?). apply elem_of_filter_bool in Hq as [Hq _].
    split; [done|]. exists d'. split; [by right|done].
Qed.

Lemma filter_found id (l : list QueuedEvent) :
  NoDup (map q_identifier l) → id ∈ map q_identifier l → length (List.filter (λ q, q_identifier q =? id) l) = 1%nat.
Proof.
  induction l as [|q l IH]; simpl; [by intros _ ?%elem_of_nil|]. intros [Hq Hd]%NoDup_cons.
  rewrite elem_of_cons. destruct (Z.eqb_spec (q_identifier q) id) as [<-|Hne]; simpl.
  - intros _. f_equal. clear IH Hd. induction l as [|p l IH]; simpl; [done|].
    simpl in Hq. rewrite not_elem_of_cons in Hq. destruct (Z.eqb_spec (q_identifier p) (q_identifier q)); [|tauto].
    destruct Hq. congruence.
  - intros [?|Hin]; [congruence|]. by apply IH.
Qed.

Lemma filter_lost id (l : list QueuedEvent) :
  id ∉ map q_identifier l → List.filter (λ q, q_identifier q =? id) l = [].
Proof.
  induction l as [|q l IH]; simpl; [done|]. rewrite not_elem_of_cons. intros [Hne Hl].
  destruct (Z.eqb_spec (q_identifier q) id); [congruence|]. by apply IH.
Qed.

Lemma taken_rows_length queue l :
  NoDup (map q_identifier queue) →
  Z.of_nat (length (taken_rows queue l)) = delivered (map q_identifier queue) l.
Proof.
  revert queue. induction l as [|d l IH]; intros queue Hd; cbn [taken_rows delivered]; [done|].
  destruct (decide (dsp_disposition d = d_retry_later)) as [Hr|Hr].
  { destruct (decide (dsp_disposition d = d_retry_later ∨ _)) as [_|Hno]; [by apply IH|destruct Hno; by left]. }
  destruct (decide (dsp_event_identifier d ∈ map q_identifier queue)) as [Hin|Hout].
  - destruct (decide (dsp_disposition d = d_retry_later ∨ _)) as [[?|?]|_]; [done..|]. rewrite length_app, Nat2Z.inj_add, <-filter_identifiers, IH.
    + destruct (decide (dsp_disposition d = d_accepted)); [|done]. by rewrite filter_found.
    + eapply sublist_NoDup; [exact Hd|]. apply sublist_map, sublist_filter_bool.
  - destruct (decide (dsp_disposition d = d_retry_later ∨ _)) as [_|Hno]; [|destruct Hno; by right].
    rewrite filter_absent, filter_lost by done.
    destruct (decide (dsp_disposition d = d_accepted)); by apply IH.
Qed.

Lemma same_rows_In batch queue event payload :
  same_rows batch queue = true → event ∈ batch → queued (event_identifier event) queue = Some payload →
  _stable payload = _stable event.
Proof.
  induction batch as [|e batch IH]; [by intros _ ?%elem_of_nil|]. cbn [same_rows].
  rewrite elem_of_cons. intros Hs [->|Hin] Hq.
  - rewrite Hq in Hs. propify. done.
  - apply IH; [|done..]. revert Hs. destruct (queued (event_identifier e) queue); [|done]. intros Hs. by propify.
Qed.

Lemma queued_row q (l : list QueuedEvent) :
  NoDup (map q_identifier l) → q ∈ l → queued (q_identifier q) l = Some (q_payload q).
Proof.
  unfold queued. induction l as [|p l IH]; [by intros _ ?%elem_of_nil|]. simpl. intros [Hp Hd]%NoDup_cons.
  rewrite elem_of_cons. intros [->|Hin]; [by rewrite Z.eqb_refl|].
  destruct (Z.eqb_spec (q_identifier p) (q_identifier q)) as [E|]; [|by apply IH].
  destruct Hp. rewrite E. by apply list_elem_of_fmap_2.
Qed.

Lemma stable_native e e' : _stable e = _stable e' → native_stable e = native_stable e'.
Proof. unfold _stable, native_stable. intros [=]. f_equal; congruence. Qed.

(** ** The invariant *)

Definition flying (sys : system) (b : PowerEventBatchV1) : Prop :=
  b ∈ wire sys ∨ _inflight (agent sys) = Some b.

Definition logged (sys : system) (event : PowerEventV1) : Prop := ∃ r, r ∈ log sys ∧ stores device event r.

Definition system_ok (sys : system) : Prop :=
  sound max_events max_bytes (spool (agent sys)) ∧ server_ok (server sys)
  ∧ (∀ b b', flying sys b → flying sys b' → batch_id b = batch_id b' → b = b')
  ∧ (∀ a, a ∈ acks sys → ∃ b, b ∈ wire sys ∧ batch_id b = ack_batch_id a
       ∧ Forall2 (answers device (log sys)) (events b) (results a))
  ∧ (∀ q, q ∈ taken sys → logged sys (q_payload q))
  ∧ (∀ r, r ∈ log sys → r ∈ power_rows (server sys) ∨ r ∈ retired sys)
  ∧ power_rows (server sys) ⊆ log sys.

Lemma new_system_ok : 1 <= max_events → 1 <= max_bytes → system_ok new_system.
Proof.
  intros He Hb. unfold system_ok, flying. simpl. split_and!.
  - split_and!; [|split; unfold queue_bytes; simpl; lia|simpl; lia].
    split_and!; simpl; [constructor|constructor|by intros ? ?%elem_of_nil|constructor].
  - apply new_server_ok.
  - intros b b' [?%elem_of_nil|?]; done.
  - by intros a ?%elem_of_nil.
  - by intros q ?%elem_of_nil.
  - by intros r ?%elem_of_nil.
  - done.
Qed.

(** Calls of the queue keep it sound. *)
Lemma next_sound id now s : sound max_events max_bytes s → sound max_events max_bytes (next_batch id now s).2.
Proof. apply (call_sound max_events max_bytes (NextBatch id now)). Qed.
Lemma ack_sound b a s : sound max_events max_bytes s → sound max_events max_bytes (acknowledge b a s).2.
Proof. apply (call_sound max_events max_bytes (Acknowledge b a)). Qed.

Lemma answers_mono rows rows' e d : rows ⊆ rows' → answers device rows e d → answers device rows' e d.
Proof. intros Hsub (Hid & [(Ha & Hc & r & Hr & Hst)|Hrej]); (split; [done|]); [left|by right]. eauto 7. Qed.

(** A step of the server with its history. *)
Lemma with_server_ok s sys :
  system_ok sys → server_ok s → power_rows (server sys) `prefix_of` power_rows s → system_ok (with_server s sys).
Proof.
  intros (H1 & H2 & H3 & H4 & H5 & H6 & H7) Hs [k Ek]. unfold with_server.
  assert (drop (length (power_rows (server sys))) (power_rows s) = k) as Edrop by by rewrite Ek, drop_app_length.
  unfold system_ok, flying, logged. simpl. rewrite Edrop. split_and!; [done..| | | |].
  - intros a (b & Hb & Eb & Hf)%H4. exists b. split_and!; [done..|].
    eapply Forall2_impl; [exact Hf|]. intros e d. apply answers_mono. set_solver.
  - intros q (r & Hr & Hst)%H5. exists r. split; [set_solver|done].
  - intros r [Hr|Hr]%elem_of_app; [|left; rewrite Ek; set_solver].
    destruct (H6 r Hr); [left; rewrite Ek; set_solver|by right].
  - rewrite Ek. set_solver.
Qed.

(** The acknowledgement of the batch in flight takes only what is logged. *)
Lemma receive_ok sys ack batch :
  system_ok sys → ack ∈ acks sys → _inflight (agent sys) = Some batch →
  system_ok (sys <| agent := (receive_ack ack (agent sys)).2 |>
    <| taken := taken sys ++ (if (receive_ack ack (agent sys)).1
                              then taken_rows (power_queue (spool (agent sys))) (results ack) else []) |>).
Proof.
  intros (H1 & H2 & H3 & H4 & H5 & H6 & H7) Hack Hfly. unfold receive_ack. rewrite Hfly.
  pose proof (ack_sound batch ack _ H1) as Hsound.
  destruct (acknowledge batch ack (spool (agent sys))) as [r s'] eqn:Ea. cbn [snd] in Hsound.
  assert (∀ taken', (∀ q, q ∈ taken' → logged sys (q_payload q)) → ∀ a',
    spool a' = s' → _inflight a' = Some batch →
    system_ok (sys <| agent := a' |> <| taken := taken sys ++ taken' |>)) as Hkeep.
  { intros taken' Ht a' Es Ei. unfold system_ok, flying, logged in *. simpl. rewrite Es, Ei, Hfly in *.
    split_and!; [done..| |done|done]. intros q [Hq|Hq]%elem_of_app; [by apply H5|by apply Ht]. }
  destruct r as [[]|e]; cbn [fst snd]; apply Hkeep; try done; try by intros q ?%elem_of_nil.
  intros q (Hq & d & Hd & Hid & Hacc)%taken_rows_In.
  unfold acknowledge in Ea. destruct (negb _ || negb _) eqn:Eguard; [done|]. propify.
  apply transaction_Ok in Ea as [_ Ea]. run Ea. destruct (same_rows _ _) eqn:Esame; [|done].
  destruct (H4 ack Hack) as (b & Hb & Eb & Hf).
  assert (b = batch) as -> by (apply H3; [by left|by right|congruence]).
  apply list_elem_of_lookup in Hd as [i Hi]. destruct (Forall2_lookup_r _ _ _ _ _ Hf Hi) as (e & He & Hans).
  destruct Hans as (Eid & [(_ & _ & r & Hr & Hst)|[Hrej _]]); [|congruence].
  exists r. split; [done|]. destruct Hst as (S1 & S2 & S3). destruct H1 as [(Hd & _) _].
  assert (_stable (q_payload q) = _stable e) as Hstable.
  { eapply same_rows_In; [exact Esame|by eapply list_elem_of_lookup_2|].
    rewrite <-Eid, Hid. by apply queued_row. }
  split_and!; [done| |rewrite S3; symmetry; by apply stable_native].
  rewrite S2. by injection Hstable as ->.
Qed.

Lemma ack_matched b a s :
  match (acknowledge b a s).1 with
  | Ok m => delivered_by (Acknowledge b a) s = if m then delivered (identifiers s) (results a) else 0
  | Exn _ => True
  end.
Proof.
  destruct (acknowledge b a s) as [[m|e] s'] eqn:E; [|done]. cbn [fst]. unfold acknowledge in E. unfold delivered_by.
  destruct (ack_batch_id a =? batch_id b); simpl in *; [|by injection E as <- _].
  destruct (bool_decide _); simpl in *; [|by injection E as <- _].
  apply transaction_Ok in E as [_ E]. run E. destruct (same_rows _ _); simpl in *; [|by injection E as <- _].
  run E. by injection E as <- _.
Qed.

Lemma row_id_inj l r r' : NoDup (map row_id l) → r ∈ l → r' ∈ l → row_id r = row_id r' → r = r'.
Proof.
  induction l as [|x l IH]; simpl; [by intros _ ?%elem_of_nil|]. intros [Hx Hd]%NoDup_cons.
  rewrite !elem_of_cons. intros [->|Ha] [->|Hb] E; [done| | |by apply IH].
  - destruct Hx. rewrite E. by apply list_elem_of_fmap_2.
  - destruct Hx. rewrite <-E. by apply list_elem_of_fmap_2.
Qed.

(** ** The account over the whole system *)

Definition balance (sys : system) : Z := account (spool (agent sys)) + Z.of_nat (length (taken sys)) - offered_total sys.

Lemma take_account new_id now r :
  sound max_events max_bytes (spool r) →
  sound max_events max_bytes (spool (take_batch new_id now r)) ∧ account (spool (take_batch new_id now r)) = account (spool r)
  ∧ (_inflight (take_batch new_id now r) = _inflight r
     ∨ ∃ b, _inflight (take_batch new_id now r) = Some b ∧ batch_id b = new_id).
Proof.
  intros Hs. destruct (call_sound max_events max_bytes (NextBatch new_id now) (spool r) Hs) as [Hs' Ha].
  cbn [call_spool] in *. unfold take_batch.
  assert (∀ b s', next_batch new_id now (spool r) = (Ok (Some b), s') → batch_id b = new_id) as Hid.
  { intros b s' Hb. by eapply batches_are_the_oldest_id. }
  destruct (next_batch new_id now (spool r)) as [[[b|]|e] s'] eqn:E; simpl in *; (split; [done|]); (split; [lia|]);
    [right|by left|by left]. eauto.
Qed.

Lemma step_system_ok sys sys' :
  system_step max_events max_bytes device sys sys' → system_ok sys → balance sys = 0 → system_ok sys' ∧ balance sys' = 0.
Proof.
  intros Hstep Hok Hb. pose proof Hok as (H1 & H2 & H3 & H4 & H5 & H6 & H7).
  destruct Hstep as [c Hc r|new_id now Hfresh Hnone|batch Hfly|batch received ack s Hin Hcommit|other batch received Hne
    |now limit s|ack batch Hack Hfly|].
  - destruct (call_sound max_events max_bytes c (spool (agent sys)) H1) as [Hs Ha].
    assert (delivered_by c (spool (agent sys)) = 0) as Hd by by destruct c.
    subst r. destruct (call_spool max_events max_bytes c (spool (agent sys))) as [ok s1]. cbn [fst snd] in *.
    split; [by split_and!|]. unfold balance in *. simpl. destruct ok; lia.
  - destruct (take_account new_id now (agent sys) H1) as (Hs & Ha & Hi).
    split; [|unfold balance in *; simpl; lia].
    unfold system_ok, flying. simpl. split_and!; [done|done| |done..].
    intros b b' Hf Hf' E. rewrite Hnone in Hi. destruct Hi as [Hi|(b0 & Hi & Eid)]; rewrite Hi in *.
    + destruct Hf, Hf'; try done. apply H3; [by left..|done].
    + destruct Hf as [Hw|[= <-]], Hf' as [Hw'|[= <-]]; try done.
      * apply H3; [by left..|done].
      * destruct (Hfresh b Hw). congruence.
      * destruct (Hfresh b' Hw'). congruence.
  - split; [|done]. unfold system_ok, flying. simpl. split_and!; [done|done| | |done..].
    + intros b b' Hf Hf'. apply H3; rewrite !elem_of_cons in *; unfold flying; naive_solver.
    + intros a (b & Hw & Hf)%H4. exists b. split; [by right|done].
  - pose proof (commit_spec device batch received (server sys) H2) as Hc. rewrite Hcommit in Hc.
    destruct Hc as (Hs & Hpre & Eid & _ & Hans & _). split; [|done].
    pose proof (with_server_ok s sys Hok Hs Hpre) as (K1 & K2 & K3 & K4 & K5 & K6 & K7).
    unfold system_ok, flying, logged, with_server in *. simpl in *. split_and!; try done.
    intros a [->|Ha]%elem_of_cons; [|by apply K4]. exists batch. split_and!; [done..|].
    eapply Forall2_impl; [exact Hans|]. intros e d. by apply answers_mono.
  - pose proof (commit_spec other batch received (server sys) H2) as Hc. split; [|done].
    destruct (commit_and_ack_power_events other batch received (server sys)) as [[ack|e] s]; simpl.
    + destruct Hc as (Hs & Hpre & _). by apply with_server_ok.
    + destruct Hc as [-> _]. by apply with_server_ok.
  - destruct (retain_spec now limit (server sys) H2) as (Hs & Hsub & Hgone). fold s in Hs, Hsub, Hgone.
    split; [|done]. unfold system_ok, flying, logged. simpl. split_and!; [done..| |].
    + intros r Hr. rewrite elem_of_app. destruct (H6 r Hr) as [Hin|]; [|by right; left].
      destruct (decide (row_id r ∈ map row_id (power_rows s))) as [Hid|Hid].
      * apply list_elem_of_fmap in Hid as (r' & E & Hr'). left.
        assert (r = r') as ->; [|done]. destruct H2 as (_ & [Hd _] & _).
        by apply (row_id_inj (power_rows (server sys))); [| |apply Hsub|].
      * right. right. apply elem_of_filter_bool. split; [done|]. by rewrite bool_decide_eq_false_2.
    + intros r Hr. by apply H7, Hsub.
  - split; [by eapply receive_ok|]. pose proof (call_sound max_events max_bytes (Acknowledge batch ack) (spool (agent sys)) H1) as [_ Ha].
    pose proof (ack_matched batch ack (spool (agent sys))) as Hm. unfold balance, receive_ack in *. rewrite Hfly.
    cbn [call_spool] in Ha. destruct H1 as [(Hd & _) _].
    destruct (acknowledge batch ack (spool (agent sys))) as [[[]|e] s']; simpl in *; rewrite ?app_nil_r, ?length_app;
      try lia.
    pose proof (taken_rows_length (power_queue (spool (agent sys))) (results ack) Hd). unfold identifiers in *. lia.
  - split; [|done]. unfold system_ok, flying. simpl. split_and!; [done|done| |done..].
    intros b b' [Hf|?] [Hf'|?]; try done. apply H3; by left.
Qed.

(** Reachable systems. *)
Definition system_run : system → Prop := rtc (system_step max_events max_bytes device) new_system.

Lemma reachable_system sys : 1 <= max_events → 1 <= max_bytes → system_run sys → system_ok sys ∧ balance sys = 0.
Proof.
  intros He Hb Hrun. apply (rtc_ind_r (R:=system_step max_events max_bytes device) (λ s, system_ok s ∧ balance s = 0) new_system);
    [|intros y z _ Hyz [Hok Hz]; by eapply step_system_ok|done].
  split; [by apply new_system_ok|done].
Qed.

(** C25: over a network that may lose, repeat and reorder messages, with other
    devices reporting and retention running in between, no power evidence is lost
    without being counted: each event the agent was offered is still queued, was
    let go as accepted, or is in one of the loss counters it reports; each event it
    let go as accepted was stored by the server for this device with the same
    content, and what the server stored is there until retention removes it. *)
Theorem accepted_evidence_was_stored sys :
  1 <= max_events → 1 <= max_bytes → system_run sys →
  let s := spool (agent sys) in
  offered_total sys = Z.of_nat (length (power_queue s)) + Z.of_nat (length (taken sys)) + overflow s + expired s + rejected s
  ∧ (∀ q, q ∈ taken sys → ∃ r, r ∈ log sys ∧ stores device (q_payload q) r)
  ∧ (∀ r, r ∈ log sys → r ∈ power_rows (server sys) ∨ r ∈ retired sys).
Proof.
  intros He Hb Hrun. destruct (reachable_system sys He Hb Hrun) as [(_ & _ & _ & _ & Ht & Hl & _) Hbal].
  split_and!; [unfold balance, account in Hbal; lia|exact Ht|exact Hl].
Qed.
End specs.

(** ** A run: the demo queue sends its batch, twice, and the second is answered. *)

Definition demo_agent : PowerEventRuntime := {| spool := demo_spool; _inflight := Some demo_batch; _acked := false |}.
Definition demo_pair : res PowerEventAckV1 * PowerServer :=
  @commit_and_ack_power_events demo_contracts demo_text 7 demo_batch (utc_datetime (days 40)) new_server.
Definition demo_ack : PowerEventAckV1 :=
  {| ack_batch_id := 9; persisted_at := utc_datetime (days 40);
     results := [{| dsp_event_identifier := 3; dsp_disposition := d_accepted; dsp_reason_code := "persisted" |};
                 {| dsp_event_identifier := 4; dsp_disposition := d_accepted; dsp_reason_code := "persisted" |}] |}.

Lemma demo_commit_ok : demo_pair = (Ok demo_ack, demo_pair.2).
Proof. vm_compute. reflexivity. Qed.

Definition demo_sys1 : system := new_system
  <| agent := agent new_system <| spool := demo_spool |> |> <| offered_total := 4 |>.
Definition demo_sys2 : system := demo_sys1 <| agent := demo_agent |>.
Definition demo_sys3 : system := demo_sys2 <| wire := [demo_batch] |>.
Definition demo_sys4 : system := with_server demo_pair.2 (demo_sys3 <| acks := [demo_ack] |>).
Definition demo_sys5 : system := demo_sys4 <| agent := (@receive_ack demo_text demo_ack demo_agent).2 |>
  <| taken := [demo_row 2 3; demo_row 3 4] |>.

Lemma demo_step1 : @system_step demo_contracts demo_text 2 4096 7 new_system demo_sys1.
Proof. exact (@sys_call demo_contracts demo_text 2 4096 7 new_system demo_commit I). Qed.

Lemma demo_taken : @take_batch demo_text 9 (utc_datetime (days 40)) (agent demo_sys1) = demo_agent.
Proof. vm_compute. reflexivity. Qed.

Lemma demo_step2 : @system_step demo_contracts demo_text 2 4096 7 demo_sys1 demo_sys2.
Proof.
  unfold demo_sys2. rewrite <-demo_taken.
  apply (@sys_take demo_contracts demo_text 2 4096 7 demo_sys1 9 (utc_datetime (days 40))); [|reflexivity].
  intros b Hb. by apply elem_of_nil in Hb.
Qed.

Lemma demo_step3 : @system_step demo_contracts demo_text 2 4096 7 demo_sys2 demo_sys3.
Proof. exact (@sys_send demo_contracts demo_text 2 4096 7 demo_sys2 demo_batch eq_refl). Qed.

Lemma demo_step4 : @system_step demo_contracts demo_text 2 4096 7 demo_sys3 demo_sys4.
Proof.
  apply (@sys_deliver demo_contracts demo_text 2 4096 7 demo_sys3 demo_batch (utc_datetime (days 40)) demo_ack demo_pair.2);
    [left|exact demo_commit_ok].
Qed.

Lemma demo_received :
  (@receive_ack demo_text demo_ack demo_agent).1 = true
  ∧ @taken_rows (power_queue demo_spool) (results demo_ack) = [demo_row 2 3; demo_row 3 4].
Proof. vm_compute. done. Qed.

Lemma demo_step5 : @system_step demo_contracts demo_text 2 4096 7 demo_sys4 demo_sys5.
Proof.
  assert (demo_sys5 = demo_sys4 <| agent := (@receive_ack demo_text demo_ack (agent demo_sys4)).2 |>
    <| taken := taken demo_sys4 ++ (if (@receive_ack demo_text demo_ack (agent demo_sys4)).1
         then taken_rows (power_queue (spool (agent demo_sys4))) (results demo_ack) else []) |>) as ->.
  { destruct demo_received as [E1 E2]. cbn [agent spool taken demo_sys4]. change (agent demo_sys4) with demo_agent.
    change (taken demo_sys4) with (@nil QueuedEvent). rewrite E1. change (spool demo_agent) with demo_spool. by rewrite E2. }
  apply (@sys_receive demo_contracts demo_text 2 4096 7 demo_sys4 demo_ack demo_batch); [left|reflexivity].
Qed.

Lemma demo_system_run : @system_run demo_contracts demo_text 2 4096 7 demo_sys5.
Proof.
  eapply rtc_l; [exact demo_step1|]. eapply rtc_l; [exact demo_step2|]. eapply rtc_l; [exact demo_step3|].
  eapply rtc_l; [exact demo_step4|]. eapply rtc_l; [exact demo_step5|]. apply rtc_refl.
Qed.

Lemma accepted_evidence_was_stored_witness :
  @system_run demo_contracts demo_text 2 4096 7 demo_sys5 ∧ taken demo_sys5 = [demo_row 2 3; demo_row 3 4]
  ∧ ∃ r, r ∈ log demo_sys5 ∧ @stores demo_text 7 (demo_power_event 3 (days 40)) r.
Proof.
  pose proof (@accepted_evidence_was_stored demo_contracts demo_text 2 4096 7 demo_sys5 ltac:(lia) ltac:(lia) demo_system_run)
    as (_ & Ht & _).
  split; [exact demo_system_run|]. split; [reflexivity|]. exact (Ht (demo_row 2 3) ltac:(left)).
Defined.
