(* ===== verification/RuntimePayload.v ===== *)
(** * The identity of a runtime payload

    endpoint_contracts/runtime_payload.py: the strict JSON of manifests, the
    inventory of a release, and the verification of an installed tree and of a
    Windows archive against it.  Bytes are lists of characters below 256; the
    file system is what the calls of the code were answered, in their order. *)

From S2P Require Import Prelude Store AuditLog Contracts Canonical Semver Json LocalMessages.

Definition CONTRACT_FILENAME : string := "endpoint-runtime-contract.json".
Definition BUNDLE_FILENAME : string := "endpoint-update-manifest.json".
Definition MAX_MANIFEST_BYTES : Z := 4 * 1024 * 1024.
Definition MAX_CONTRACT_BYTES : Z := 4096.
Definition MAX_FILES : Z := 10000.
Definition MAX_ARCHIVE_BYTES : Z := 512 * 1024 * 1024.
Definition MAX_PAYLOAD_BYTES : Z := 2 * 1024 * 1024 * 1024.

(** ** Identifiers *)

(** [0|[1-9][0-9]*] three times, between dots *)
Definition _VERSION (value : string) : bool :=
  let core := split dot (chars value) in
  bool_decide (length core = 3%nat) && forallb numeric_identifier core.

Definition is_hex (c : Ascii.ascii) : bool := is_digit c || between 97 102 c.
Definition _SOURCE (value : string) : bool :=
  (String.length value =? 40)%nat && forallb is_hex (chars value).
Definition _HASH (value : string) : bool :=
  (String.length value =? 64)%nat && forallb is_hex (chars value).

(** [int(part)], which refuses more than 4300 digits *)
Definition int_part (part : list Ascii.ascii) : res Z :=
  if (int_max_str_digits <? length part)%nat
  then Exn (ValueError "Exceeds the limit for integer string conversion")
  else Ok (digits_value 0 part).

Definition version_tuple (version : json) : res (Z * Z * Z) :=
  match version with
  | JStr version =>
      if _VERSION version then
        match split dot (chars version) with
        | [a; b; c] =>
            res_bind (int_part a) (λ a, res_bind (int_part b) (λ b,
              res_bind (int_part c) (λ c, Ok (a, b, c))))
        | _ => Exn PayloadConflict
        end
      else Exn PayloadConflict
  | _ => Exn PayloadConflict
  end.

(** ** Paths *)

Definition slash : Z := 47.
Definition is_separator (c : Ascii.ascii) : bool := in_set (code c) [47; 92].

(** [PureWindowsPath(value).drive] is not empty, as it is for every absolute
    path: a letter and a colon, or two separators. *)
Definition windows_drive (l : list Ascii.ascii) : bool :=
  match l with
  | a :: b :: _ => if is_separator a then is_separator b else code b =? 58
  | _ => false
  end.

Definition ascii_upper (c : Ascii.ascii) : Ascii.ascii :=
  if is_lower c then Ascii.ascii_of_nat (Z.to_nat (code c - 32)) else c.

Definition reserved_names : list string :=
  ["CON"; "PRN"; "AUX"; "NUL"; "CONIN$"; "CONOUT$"]
  ++ map (λ n, text (chars "COM" ++ [Ascii.ascii_of_nat n])) [49; 50; 51; 52; 53; 54; 55; 56; 57; 185; 178; 179]%nat
  ++ map (λ n, text (chars "LPT" ++ [Ascii.ascii_of_nat n])) [49; 50; 51; 52; 53; 54; 55; 56; 57; 185; 178; 179]%nat.

(** [value.rstrip(' ')] *)
Definition rstrip_spaces (l : list Ascii.ascii) : list Ascii.ascii :=
  rev (drop_while (λ c, code c =? 32) (rev l)).

(** [PureWindowsPath(part).is_reserved()] of a part without separators, colons
    and trailing dots or spaces. *)
Definition is_reserved (part : list Ascii.ascii) : bool :=
  str_in (text (map ascii_upper (rstrip_spaces (partition dot part).1))) reserved_names.

Definition safe_part (part : list Ascii.ascii) : bool :=
  negb (str_in (text part) [""; "."; ".."])
  && negb (match rev part with c :: _ => in_set (code c) [46; 32] | [] => false end)
  && forallb (λ c, negb (in_set (code c) [58; 60; 62; 34; 124; 63; 42])) part
  && negb (is_reserved part).

Definition safe_path_text (value : string) : bool :=
  let l := chars value in
  negb (bool_decide (value = "")) && (Z.of_nat (length l) <=? 1024)
  && negb (windows_drive l)
  && negb (match l with c :: _ => code c =? slash | [] => false end)
  && forallb (λ c, negb (code c =? 92)) l
  && forallb (λ c, negb (code c <? 32)) l
  && forallb safe_part (split slash l).

Definition safe_path (value : json) : res string :=
  match value with
  | JStr value => if safe_path_text value then Ok value else Exn PayloadConflict
  | _ => Exn PayloadConflict
  end.

(** [path.casefold()].  U+00B5 folds to U+03BC, which no other character below
    256 folds to; it stands for itself here, since results are only compared. *)
Definition casefold (path : string) : string :=
  text (flat_map (λ c,
    if is_upper c || between 192 214 c || between 216 222 c then [Ascii.ascii_of_nat (Z.to_nat (code c + 32))]
    else if code c =? 223 then chars "ss"
    else [c]) (chars path)).

(** ** Inventories *)

Record PayloadFile := { path : string; size : Z; sha256_of : string }.

Record PayloadIdentity := {
  version : string;
  source_revision : string;
  minimum_launcher_version : option string;
  files : list PayloadFile
}.

Definition file_count (i : PayloadIdentity) : Z := Z.of_nat (length (files i)).

(** [text.encode("utf-8")] of characters below 256 *)
Definition utf_8 (l : list Ascii.ascii) : list Ascii.ascii :=
  flat_map (λ c,
    if code c <? 128 then [c]
    else [Ascii.ascii_of_nat (Z.to_nat (192 + code c / 64)); Ascii.ascii_of_nat (Z.to_nat (128 + code c mod 64))]) l.

(** What one file adds to the digest of a tree. *)
Definition tree_line (item : PayloadFile) : list Ascii.ascii :=
  chars (path item) ++ [Ascii.ascii_of_nat 0] ++ chars (Z_str (size item)) ++ [Ascii.ascii_of_nat 0]
  ++ chars (sha256_of item) ++ [Ascii.ascii_of_nat 10].

(** [except errors as error: raise PayloadConflict() from error] for the errors of
    the file system and of archives. *)
Definition except_conflict {A} (r : res A) : res A :=
  match r with
  | Exn (OSError _ | BadZipFile _ | KeyError _ | TypeError _ | RuntimeError _ | RecursionError _) =>
      Exn PayloadConflict
  | r => r
  end.

(** [mapping[key]] *)
Definition item_at (key : string) (entries : list (string * json)) : res json :=
  match assoc key entries with Some v => Ok v | None => Exn (KeyError key) end.

Definition ensure (condition : bool) : res unit := if condition then Ok tt else Exn PayloadConflict.

Section runtime_payload.
(** [hashlib.sha256(data).hexdigest()] and the recursion limit of the interpreter *)
Context (sha256 : text_in → string) (recursion_limit : nat).

Definition tree_sha256 (i : PayloadIdentity) : string := sha256 (utf_8 (flat_map tree_line (files i))).

Definition refuse_constant (name : string) : res json := Exn PayloadConflict.

Definition read_json (data : text_in) (maximum : Z) : res (list (string * json)) :=
  let n := Z.of_nat (length data) in
  if negb ((0 <? n) && (n <=? maximum)) then Exn PayloadConflict
  else
    match res_bind (decode_utf_8 data) (loads (unique_hooks PayloadConflict refuse_constant) recursion_limit) with
    | Ok (JObj result) => Ok result
    | Ok _ => Exn PayloadConflict
    | Exn e =>
        match e with
        | RecursionError _ => Exn PayloadConflict
        | _ => if is_value_error e then Exn PayloadConflict else Exn e
        end
    end.

(** ** [manifest_files] *)

(** One turn of the loop over the entries: the files, the folded names and the
    total size so far. *)
Definition manifest_entry (state : list PayloadFile * list string * Z) (entry : json)
    : res (list PayloadFile * list string * Z) :=
  let '(result, names, total) := state in
  match entry with
  | JObj entry =>
      res_bind (ensure (keys_are ["path"; "size"; "sha256"] entry)) (λ _,
      res_bind (res_bind (item_at "path" entry) safe_path) (λ path,
      match assoc "size" entry, assoc "sha256" entry with
      | Some (JInt size), Some (JStr digest) =>
          res_bind (ensure (negb (str_in (casefold path) names) && (0 <=? size) && _HASH digest)) (λ _,
          res_bind (ensure (total + size <=? MAX_PAYLOAD_BYTES)) (λ _,
          Ok (result ++ [{| path := path; size := size; sha256_of := digest |}],
              casefold path :: names, total + size)))
      | _, _ => Exn PayloadConflict
      end))
  | _ => Exn PayloadConflict
  end.

Fixpoint manifest_entries (state : list PayloadFile * list string * Z) (entries : list json)
    : res (list PayloadFile * list string * Z) :=
  match entries with
  | [] => Ok state
  | entry :: entries => res_bind (manifest_entry state entry) (λ state, manifest_entries state entries)
  end.

Definition path_leb (a b : PayloadFile) : bool := str_leb (path a) (path b).

Definition manifest_files (manifest : list (string * json)) : res (list PayloadFile) :=
  match keys_are ["schema_version"; "version"; "source_revision"; "files"] manifest,
        assoc "schema_version" manifest, assoc "source_revision" manifest with
  | true, Some (JInt 1), Some (JStr source) =>
      res_bind (ensure (_SOURCE source)) (λ _,
      res_bind (res_bind (item_at "version" manifest) version_tuple) (λ _,
      match assoc "files" manifest with
      | Some (JList entries) =>
          let n := Z.of_nat (length entries) in
          res_bind (ensure ((0 <? n) && (n <=? MAX_FILES))) (λ _,
          res_bind (manifest_entries ([], [], 0) entries) (λ '(result, _, _),
          res_bind (ensure (str_in "pc_agent.exe" (map path result))) (λ _,
          Ok (order_by path_leb result))))
      | _ => Exn PayloadConflict
      end))
  | _, _, _ => Exn PayloadConflict
  end.

(** ** [bind_contract] *)

(** [left[key] == right[key]] *)
Definition same_item (key : string) (left right : list (string * json)) : res bool :=
  res_bind (item_at key left) (λ a, res_bind (item_at key right) (λ b, Ok (json_eqb a b))).

(** A text of the contract, which equals the text of a checked manifest. *)
Definition text_at (key : string) (entries : list (string * json)) : res string :=
  res_bind (item_at key entries) (λ v,
    match v with JStr s => Ok s | _ => Exn (OutsideModel "text") end).

Definition launcher_at (contract : list (string * json)) : res (option string) :=
  res_bind (item_at "minimum_launcher_version" contract) (λ v,
    match v with
    | JNull => Ok None
    | _ => res_bind (version_tuple v) (λ _, match v with JStr s => Ok (Some s) | _ => Exn PayloadConflict end)
    end).

Definition bind_contract (manifest : list (string * json)) (files : list PayloadFile) (data : text_in)
    : res PayloadIdentity :=
  res_bind (read_json data MAX_CONTRACT_BYTES) (λ contract,
  match keys_are ["schema_version"; "version"; "source_revision"; "minimum_launcher_version"] contract,
        assoc "schema_version" contract with
  | true, Some (JInt 1) =>
      res_bind (same_item "version" contract manifest) (λ same, res_bind (ensure same) (λ _,
      res_bind (same_item "source_revision" contract manifest) (λ same, res_bind (ensure same) (λ _,
      res_bind (launcher_at contract) (λ launcher,
      match List.find (λ item, bool_decide (path item = CONTRACT_FILENAME)) files with
      | Some expected =>
          res_bind (ensure ((Z.of_nat (length data) =? size expected)
                             && bool_decide (sha256 data = sha256_of expected))) (λ _,
          res_bind (text_at "version" contract) (λ version,
          res_bind (text_at "source_revision" contract) (λ source,
          Ok {| version := version; source_revision := source;
                minimum_launcher_version := launcher; files := files |})))
      | None => Exn PayloadConflict
      end)))))
  | _, _ => Exn PayloadConflict
  end).

(** ** Files *)

Record details := {
  st_mode : Z; st_nlink : Z; st_file_attributes : Z; st_dev : Z; st_ino : Z; st_size : Z; st_mtime_ns : Z
}.

(** [stat.S_IFMT] and the kinds of files *)
Definition S_IFMT (mode : Z) : Z := Z.land mode 0xF000.
Definition S_IFREG : Z := 0x8000.
Definition S_IFDIR : Z := 0x4000.
Definition S_IFLNK : Z := 0xA000.

Definition reparse_point (d : details) : bool := negb (Z.land (st_file_attributes d) 0x400 =? 0).

Definition _regular (lstat : res details) : res details :=
  res_bind lstat (λ d,
    if negb (S_IFMT (st_mode d) =? S_IFREG) || negb (st_nlink d =? 1) || reparse_point d
    then Exn PayloadConflict else Ok d).

(** The answers to [part.lstat()] from the root of the drive down to the path. *)
Fixpoint reject_reparse_ancestors (parts : list (res details)) : res unit :=
  match parts with
  | [] => Ok tt
  | part :: parts =>
      res_bind part (λ d,
        if (S_IFMT (st_mode d) =? S_IFLNK) || reparse_point d then Exn PayloadConflict
        else reject_reparse_ancestors parts)
  end.

(** The size and digest of what a file holds. *)
Definition _hash_open (source : res text_in) (maximum : Z) : res (Z * string) :=
  res_bind source (λ data,
    let total := Z.of_nat (length data) in
    if maximum <? total then Exn PayloadConflict else Ok (total, sha256 data)).

Definition same_file (a b : details) : bool := (st_dev a =? st_dev b) && (st_ino a =? st_ino b).
Definition unchanged (a b : details) : bool := (st_size a =? st_size b) && (st_mtime_ns a =? st_mtime_ns b).

(** [set(a) == set(b)] *)
Definition same_set (a b : list string) : bool :=
  forallb (λ x, str_in x b) a && forallb (λ x, str_in x a) b.

(** ** [verify_payload]

    [os.walk] answers the directories of the tree; every leaf was looked up twice,
    opened, read and looked at again. *)

Record leaf := {
  leaf_path : string;
  leaf_lstat : res details;
  leaf_before : res details;
  leaf_opened : res details;
  leaf_data : res text_in;
  leaf_after : res details
}.

Record directory := { subdirs : list (string * res details); leaves : list leaf }.

(** The first loop over the names of a directory. *)
Definition check_name (aliases : list string) (name : string * res details) : res (list string) :=
  res_bind (safe_path (JStr name.1)) (λ relative,
  res_bind name.2 (λ d,
  res_bind (ensure (negb (reparse_point d || (S_IFMT (st_mode d) =? S_IFLNK)))) (λ _,
  res_bind (ensure (negb (str_in (casefold relative) aliases))) (λ _, Ok (casefold relative :: aliases))))).

Fixpoint check_names (aliases : list string) (names : list (string * res details)) : res (list string) :=
  match names with
  | [] => Ok aliases
  | name :: names => res_bind (check_name aliases name) (λ aliases, check_names aliases names)
  end.

(** [{item.path: item for item in files}[path]] *)
Definition expected_file (files : list PayloadFile) (name : string) : option PayloadFile :=
  List.find (λ item, bool_decide (path item = name)) (rev files).

(** The second loop, over the leaves of a directory; [actual] is a dictionary. *)
Definition check_leaf (files : list PayloadFile) (excluded : list string) (actual : list (string * string))
    (l : leaf) : res (list (string * string)) :=
  let relative := leaf_path l in
  res_bind (_regular (leaf_before l)) (λ before,
  if str_in relative excluded then Ok actual
  else
    match expected_file files relative with
    | None => Exn PayloadConflict
    | Some expected =>
        res_bind (ensure (st_size before =? size expected)) (λ _,
        res_bind (leaf_opened l) (λ opened,
        res_bind (_hash_open (leaf_data l) (size expected)) (λ '(n, digest),
        res_bind (leaf_after l) (λ after,
        res_bind (ensure (same_file before opened && unchanged before opened && unchanged opened after
                           && (n =? size expected) && bool_decide (digest = sha256_of expected))) (λ _,
        Ok (assoc_set relative digest actual))))))
    end).

Fixpoint check_leaves (files : list PayloadFile) (excluded : list string) (actual : list (string * string))
    (leaves : list leaf) : res (list (string * string)) :=
  match leaves with
  | [] => Ok actual
  | l :: leaves =>
      res_bind (check_leaf files excluded actual l) (λ actual, check_leaves files excluded actual leaves)
  end.

Fixpoint walk (files : list PayloadFile) (excluded aliases : list string) (actual : list (string * string))
    (tree : list directory) : res (list (string * string)) :=
  match tree with
  | [] => Ok actual
  | d :: tree =>
      res_bind (check_names aliases (subdirs d ++ map (λ l, (leaf_path l, leaf_lstat l)) (leaves d)))
        (λ aliases, res_bind (check_leaves files excluded actual (leaves d))
          (λ actual, walk files excluded aliases actual tree))
  end.

Definition bad_exclusion (files : list PayloadFile) (name : string) : bool :=
  is_some (expected_file files name) || existsb (λ c, code c =? slash) (chars name)
  || negb (safe_path_text name).

(** [contract] is what the contract file of the root holds. *)
Definition verify_payload (ancestors : list (res details)) (tree : list directory) (contract : res text_in)
    (manifest : list (string * json)) (excluded : list string) : res PayloadIdentity :=
  except_conflict (
    res_bind (manifest_files manifest) (λ files,
    res_bind (reject_reparse_ancestors ancestors) (λ _,
    res_bind (ensure (negb (existsb (bad_exclusion files) excluded))) (λ _,
    res_bind (walk files excluded [] [] tree) (λ actual,
    res_bind (ensure (same_set (actual.*1) (map path files))) (λ _,
    res_bind contract (λ data,
    bind_contract manifest files (firstn (Z.to_nat (MAX_CONTRACT_BYTES + 1)) data)))))))).

(** ** [verify_windows_archive] *)

(** An entry of the archive as [zipfile] reports it, with what reading it gives. *)
Record ZipInfo := {
  filename : string; external_attr : Z; flag_bits : Z; file_size : Z; content : res text_in
}.

Definition is_dir (item : ZipInfo) : bool :=
  match rev (chars (filename item)) with c :: _ => code c =? slash | [] => false end.

(** [item.filename.rstrip("/") if item.is_dir() else item.filename] *)
Definition entry_name (item : ZipInfo) : string :=
  if is_dir item then text (rev (drop_while (λ c, code c =? slash) (rev (chars (filename item)))))
  else filename item.

(** One turn of the loop over [archive.infolist()]. *)
Definition archive_entry (state : list (string * ZipInfo) * list string * Z) (item : ZipInfo)
    : res (list (string * ZipInfo) * list string * Z) :=
  let '(entries, names, expanded) := state in
  res_bind (ensure (negb (MAX_FILES + 1 <=? Z.of_nat (length names)))) (λ _,
  res_bind (safe_path (JStr (entry_name item))) (λ name,
  let kind := S_IFMT (Z.shiftr (external_attr item) 16) in
  res_bind (ensure (negb (str_in (casefold name) names) && (Z.land (flag_bits item) 1 =? 0)
                     && in_set kind [0; S_IFREG; S_IFDIR])) (λ _,
  let expanded := expanded + file_size item in
  res_bind (ensure (expanded <=? MAX_PAYLOAD_BYTES + MAX_MANIFEST_BYTES)) (λ _,
  Ok (if is_dir item then entries else assoc_set name item entries, casefold name :: names, expanded))))).

Fixpoint archive_entries (state : list (string * ZipInfo) * list string * Z) (items : list ZipInfo)
    : res (list (string * ZipInfo) * list string * Z) :=
  match items with
  | [] => Ok state
  | item :: items => res_bind (archive_entry state item) (λ state, archive_entries state items)
  end.

(** [entries[name]] *)
Definition entry_at (name : string) (entries : list (string * ZipInfo)) : res ZipInfo :=
  match assoc name entries with Some item => Ok item | None => Exn (KeyError name) end.

Fixpoint check_files (entries : list (string * ZipInfo)) (files : list PayloadFile) : res unit :=
  match files with
  | [] => Ok tt
  | item :: files =>
      res_bind (entry_at (path item) entries) (λ entry,
      res_bind (ensure (file_size entry =? size item)) (λ _,
      res_bind (_hash_open (content entry) (size item)) (λ '(n, digest),
      res_bind (ensure ((n =? size item) && bool_decide (digest = sha256_of item))) (λ _,
      check_files entries files))))
  end.

(** The archive at a path as the calls of the code found it. *)
Record archive := {
  ar_ancestors : list (res details);
  ar_lstat : res details;
  ar_pinned : res details;
  ar_bytes : res text_in;
  ar_infolist : res (list ZipInfo);
  ar_after : res details
}.

(** The checks of the open archive. *)
Definition verify_entries (items : list ZipInfo) (version_expected : string) (launcher_expected : option string)
    : res PayloadIdentity :=
  res_bind (archive_entries ([], [], 0) items) (λ '(entries, _, _),
  match assoc BUNDLE_FILENAME entries with
  | None => Exn PayloadConflict
  | Some bundle =>
      res_bind (ensure ((0 <? file_size bundle) && (file_size bundle <=? MAX_MANIFEST_BYTES))) (λ _,
      res_bind (content bundle) (λ data,
      res_bind (read_json data MAX_MANIFEST_BYTES) (λ manifest,
      res_bind (manifest_files manifest) (λ files,
      res_bind (ensure (same_set (entries.*1) (BUNDLE_FILENAME :: map path files))) (λ _,
      res_bind (check_files entries files) (λ _,
      match assoc CONTRACT_FILENAME entries with
      | None => Exn PayloadConflict
      | Some contract =>
          res_bind (ensure (file_size contract <=? MAX_CONTRACT_BYTES)) (λ _,
          res_bind (content contract) (λ data,
          res_bind (bind_contract manifest files data) (λ result,
          res_bind (ensure (bool_decide (version result = version_expected)
                             && bool_decide (minimum_launcher_version result = launcher_expected))) (λ _,
          Ok result))))
      end))))))
  end).

Definition verify_windows_archive (a : archive) (digest : string) (bytes : Z) (version_expected : string)
    (launcher_expected : option string) : res PayloadIdentity :=
  except_conflict (
    res_bind (ensure ((0 <? bytes) && (bytes <=? MAX_ARCHIVE_BYTES) && _HASH digest)) (λ _,
    res_bind (reject_reparse_ancestors (ar_ancestors a)) (λ _,
    res_bind (_regular (ar_lstat a)) (λ before,
    res_bind (ensure (st_size before =? bytes)) (λ _,
    res_bind (ar_pinned a) (λ pinned,
    res_bind (ensure (same_file pinned before)) (λ _,
    res_bind (_hash_open (ar_bytes a) MAX_ARCHIVE_BYTES) (λ '(n, d),
    res_bind (ensure ((n =? bytes) && bool_decide (d = digest))) (λ _,
    res_bind (ar_infolist a) (λ items,
    res_bind (verify_entries items version_expected launcher_expected) (λ result,
    res_bind (ar_after a) (λ after,
    res_bind (ensure (unchanged pinned after)) (λ _,
    Ok result))))))))))))).
End runtime_payload.
