(* ===== verification/RuntimePayloadSpecs.v ===== *)
(** * Runtime payloads: strict reading, exact inventories, verified archives *)

From S2P Require Import Prelude Store AuditLog Contracts Canonical Demo Semver SemverFacts Json JsonFacts.
From S2P Require Import LocalMessages LocalMessagesSpecs RuntimePayload.

(** ** Chains of checks *)

Lemma res_bind_iff {A B} (r : res A) (k : A → res B) b :
  res_bind r k = Ok b ↔ ∃ a, r = Ok a ∧ k a = Ok b.
Proof. split; [apply res_bind_Ok|]. by intros (a & -> & E). Qed.

Lemma ensure_Ok c u : ensure c = Ok u ↔ c = true.
Proof. by destruct c, u. Qed.

(** Take a chain of binds that returned apart. *)
Ltac unbind H :=
  repeat match type of H with
  | res_bind ?r _ = Ok _ =>
      let a := fresh "a" in let E := fresh "E" in
      apply res_bind_Ok in H as (a & E & H);
      try (apply ensure_Ok in E; propify); unbind E; cbv beta iota in H
  end.

Lemma except_conflict_Ok {A} (r : res A) a : except_conflict r = Ok a → r = Ok a.
Proof. destruct r as [x|e]; [done|]. by destruct e. Qed.

Lemma item_at_Ok key entries v : item_at key entries = Ok v ↔ assoc key entries = Some v.
Proof. unfold item_at. destruct (assoc key entries); split; intros H; try done; by injection H as ->. Qed.

Lemma safe_path_Ok v s : safe_path v = Ok s ↔ v = JStr s ∧ safe_path_text s = true.
Proof.
  split; [|by intros [-> E]; simpl; rewrite E].
  destruct v; simpl; try done. destruct (safe_path_text _) eqn:E; [|done]. by intros [= ->].
Qed.

Section specs.
Context (sha256 : text_in → string) (limit : nat).

(** ** Strict JSON *)

(** The reader of identity documents is strict: what it returns is within
    its bound and has no duplicate key, neither in the document nor in any
    object inside it, and everything else, NaN, infinities, nesting beyond the
    recursion limit and any other document included, is a PayloadConflict. *)
Theorem read_json_is_strict data maximum :
  match read_json limit data maximum with
  | Ok entries => 0 < Z.of_nat (length data) <= maximum ∧ distinct_keys (JObj entries)
  | Exn e => e = PayloadConflict ∨ e = OutsideModel "UTF-8" ∨ e = OutsideModel "code point"
  end.
Proof.
  unfold read_json. destruct (negb _) eqn:En; [by left|]. propify.
  set (E := λ e, (∃ m, e = ValueError m) ∨ (∃ m, e = RecursionError m) ∨ e = PayloadConflict
                 ∨ e = OutsideModel "UTF-8" ∨ e = OutsideModel "code point").
  assert (gives E distinct_keys (res_bind (decode_utf_8 data)
            (loads (unique_hooks PayloadConflict refuse_constant) limit))) as Hg.
  { unfold decode_utf_8. destruct (is_ascii data); simpl; [|unfold E; tauto].
    apply unique_loads; unfold E; simpl; eauto 7. }
  destruct (res_bind _ _) as [[]|e]; try by left.
  - by split.
  - destruct Hg as [(m & ->)|[(m & ->)|[-> | [-> | ->]]]]; simpl; tauto.
Qed.

(** ** Inventories *)

(** An entry of a manifest and the file it lists. *)
Definition lists_file (v : json) (f : PayloadFile) : Prop :=
  ∃ entry, v = JObj entry ∧ keys_are ["path"; "size"; "sha256"] entry = true
    ∧ assoc "path" entry = Some (JStr (path f)) ∧ safe_path_text (path f) = true
    ∧ assoc "size" entry = Some (JInt (size f)) ∧ 0 <= size f
    ∧ assoc "sha256" entry = Some (JStr (sha256_of f)) ∧ _HASH (sha256_of f) = true.

Definition total_size (l : list PayloadFile) : Z := foldr Z.add 0 (map size l).

Lemma manifest_entry_Ok result names total v state :
  manifest_entry (result, names, total) v = Ok state ↔
  ∃ f, lists_file v f ∧ casefold (path f) ∉ names ∧ total + size f <= MAX_PAYLOAD_BYTES
    ∧ state = (result ++ [f], casefold (path f) :: names, total + size f).
Proof.
  unfold manifest_entry. split.
  - destruct v as [| | | | | |entry]; try done. intros H. unbind H.
    apply item_at_Ok in E1. apply safe_path_Ok in E0 as [-> Hs].
    destruct (assoc "size" entry) as [[| |n| | | |]|] eqn:Es; try done.
    destruct (assoc "sha256" entry) as [[| | | |d| |]|] eqn:Ed; try done.
    unbind H. injection H as <-. unfold str_in in *. propify.
    exists {| path := a0; size := n; sha256_of := d |}. simpl. split_and!; try done. by exists entry.
  - intros (f & (entry & -> & Hk & Hp & Hs & Hz & H0 & Hd & Hh) & Hn & Ht & ->).
    rewrite Hk. simpl. unfold item_at. rewrite Hp. simpl. rewrite Hs. simpl. rewrite Hz, Hd, Hh.
    unfold str_in. rewrite bool_decide_eq_false_2 by done.
    apply Z.leb_le in H0 as ->. simpl. apply Z.leb_le in Ht as ->. simpl. by destruct f.
Qed.

Definition folded (l : list PayloadFile) : list string := map (λ f, casefold (path f)) l.

Lemma total_size_nonneg entries l : Forall2 lists_file entries l → 0 <= total_size l.
Proof.
  unfold total_size. induction 1 as [|v f entries l (e & H) _ IH]; simpl; [lia|].
  destruct H as (_ & _ & _ & _ & _ & H & _). lia.
Qed.

Lemma manifest_entries_Ok entries result names total state :
  total <= MAX_PAYLOAD_BYTES → NoDup names →
  manifest_entries (result, names, total) entries = Ok state ↔
  ∃ listed, Forall2 lists_file entries listed ∧ NoDup (rev (folded listed) ++ names)
    ∧ total + total_size listed <= MAX_PAYLOAD_BYTES
    ∧ state = (result ++ listed, rev (folded listed) ++ names, total + total_size listed).
Proof.
  revert result names total. induction entries as [|v entries IH]; intros result names total Ht Hn.
  - simpl. split.
    + intros [= <-]. exists []. unfold total_size. simpl. by rewrite app_nil_r, Z.add_0_r.
    + intros (l & Hl & _ & _ & ->). apply Forall2_nil_inv_l in Hl as ->.
      unfold total_size. simpl. by rewrite app_nil_r, Z.add_0_r.
  - cbn [manifest_entries]. rewrite res_bind_iff. split.
    + intros (st & (f & Hf & Hnew & Hle & ->)%manifest_entry_Ok & H).
      apply IH in H as (listed & Hl & Hd & Hm & ->); [|done|by constructor].
      exists (f :: listed). unfold total_size in *. simpl.
      rewrite <-!(app_assoc (rev _)), <-app_assoc, Z.add_assoc. split_and!; [by constructor|done|done|done].
    + intros (l & Hl & Hd & Hm & ->). apply Forall2_cons_inv_l in Hl as (f & listed & Hf & Hl & ->).
      pose proof (total_size_nonneg _ _ Hl) as H0. unfold total_size in *. simpl in Hd, Hm.
      rewrite <-app_assoc in Hd. simpl in Hd.
      pose proof Hd as (_ & _ & Hd')%NoDup_app. apply NoDup_cons in Hd' as [Hnew _].
      exists (result ++ [f], casefold (path f) :: names, total + size f). split.
      * apply manifest_entry_Ok. exists f. split_and!; [done|done|lia|done].
      * apply IH; [lia|by constructor|]. exists listed. unfold total_size. simpl.
        rewrite <-!(app_assoc (rev _)), <-app_assoc. split_and!; [done|done|lia|]. by rewrite Z.add_assoc.
Qed.

(** A manifest and the files it lists, in its order. *)
Definition valid_manifest (manifest : list (string * json)) (listed : list PayloadFile) : Prop :=
  keys_are ["schema_version"; "version"; "source_revision"; "files"] manifest = true
  ∧ assoc "schema_version" manifest = Some (JInt 1)
  ∧ (∃ source, assoc "source_revision" manifest = Some (JStr source) ∧ _SOURCE source = true)
  ∧ (∃ version tuple, assoc "version" manifest = Some version ∧ version_tuple version = Ok tuple)
  ∧ (∃ entries, assoc "files" manifest = Some (JList entries) ∧ Forall2 lists_file entries listed)
  ∧ 0 < Z.of_nat (length listed) <= MAX_FILES
  ∧ NoDup (folded listed) ∧ total_size listed <= MAX_PAYLOAD_BYTES
  ∧ "pc_agent.exe" ∈ map path listed.

Lemma NoDup_rev_iff {A} (l : list A) : NoDup (rev l) ↔ NoDup l.
Proof. by rewrite <-(Permutation_rev l). Qed.

Lemma manifest_files_Ok manifest files :
  manifest_files manifest = Ok files ↔
  ∃ listed, valid_manifest manifest listed ∧ files = order_by path_leb listed.
Proof.
  unfold manifest_files, valid_manifest. split.
  - destruct (keys_are _ _); [|done].
    destruct (assoc "schema_version" manifest) as [[| |n| | | |]|]; try done. destruct n as [|[]|]; try done.
    destruct (assoc "source_revision" manifest) as [[| | | |source| |]|]; try done.
    intros H. unbind H.
    match goal with Hv : item_at _ _ = Ok _ |- _ => apply item_at_Ok in Hv as Hversion end.
    destruct (assoc "files" manifest) as [[| | | | |entries|]|] eqn:Ef; try done. unbind H.
    match goal with He : manifest_entries _ _ = Ok ?st |- _ =>
      destruct st as [[result names] total];
      apply manifest_entries_Ok in He as (listed & Hl & Hd & Hm & Eq); [|unfold MAX_PAYLOAD_BYTES; lia|constructor]
    end.
    injection Eq as -> -> ->. unbind H. injection H as <-. exists listed. split; [|done].
    rewrite app_nil_r, NoDup_rev_iff in Hd. simpl in *.
    match goal with Hp : str_in _ _ = true |- _ => apply str_in_elem in Hp end.
    rewrite (Forall2_length _ _ _ Hl) in *. split_and!; eauto.
  - intros (listed & (-> & -> & (source & -> & ->) & (v & tuple & Hv & Ht) & (entries & -> & Hl) & Hn & Hd & Hm & Hp) & ->).
    simpl. unfold item_at. rewrite Hv. simpl. rewrite Ht. simpl. rewrite (Forall2_length _ _ _ Hl).
    destruct Hn as [Hn1%Z.ltb_lt Hn2%Z.leb_le]. rewrite Hn1, Hn2. simpl.
    assert (manifest_entries ([], [], 0) entries
            = Ok (listed, rev (folded listed) ++ [], total_size listed)) as ->.
    { apply manifest_entries_Ok; [unfold MAX_PAYLOAD_BYTES; lia|constructor|]. exists listed.
      rewrite app_nil_r, NoDup_rev_iff. by split_and!. }
    simpl. unfold str_in. rewrite bool_decide_eq_true_2 by done. done.
Qed.

Lemma path_leb_trans a b c : path_leb a b = true → path_leb b c = true → path_leb a c = true.
Proof. apply str_leb_trans. Qed.

Lemma path_leb_total a b : path_leb a b = true ∨ path_leb b a = true.
Proof. apply str_leb_total. Qed.

Lemma NoDup_folded_paths l : NoDup (folded l) → NoDup (map path l).
Proof.
  unfold folded. rewrite <-(map_map path casefold). apply (NoDup_fmap_1 casefold).
Qed.

Lemma NoDup_map_inj {A B} (f : A → B) l a b : NoDup (map f l) → a ∈ l → b ∈ l → f a = f b → a = b.
Proof.
  induction l as [|x l IH]; simpl; [by intros _ ?%elem_of_nil|]. intros [Hx Hd]%NoDup_cons.
  rewrite !elem_of_cons. intros [->|Ha] [->|Hb] E; [done| | |by apply IH].
  - destruct Hx. rewrite E. by apply list_elem_of_fmap_2.
  - destruct Hx. rewrite <-E. by apply list_elem_of_fmap_2.
Qed.

(** The order of paths fixes the order of an inventory. *)
Lemma inventory_unique files listed :
  NoDup (folded listed) → files ≡ₚ listed → StronglySorted (bool_rel path_leb) files →
  files = order_by path_leb listed.
Proof.
  intros Hd%NoDup_folded_paths Hp Hs.
  eapply (StronglySorted_unique_strong (bool_rel path_leb)); [|done| |by rewrite order_by_Permutation].
  - intros a b Ha Hb Hab Hba. rewrite Hp in Ha. rewrite elem_of_order_by in Hb.
    apply (NoDup_map_inj path listed); [done..|by apply str_leb_antisym].
  - apply order_by_sorted; [exact path_leb_trans|exact path_leb_total].
Qed.

(** A manifest is accepted exactly when it has the four fields and no other,
    a well-formed version and revision, and lists from one to ten thousand files
    by safe relative paths that differ even when case is folded, with sizes that
    add up to at most two gibibytes and digests, pc_agent.exe among them; what is
    returned is these files, all of them, in the order of their paths. *)
Theorem manifests_list_their_files manifest files :
  manifest_files manifest = Ok files ↔
  ∃ listed, valid_manifest manifest listed ∧ files ≡ₚ listed ∧ StronglySorted (bool_rel path_leb) files.
Proof.
  rewrite manifest_files_Ok. split; intros (listed & Hv & Hf); exists listed; (split; [done|]).
  - subst files. split; [apply order_by_Permutation|].
    apply order_by_sorted; [exact path_leb_trans|exact path_leb_total].
  - destruct Hf as [Hp Hs]. apply inventory_unique; [apply Hv|done..].
Qed.

(** ** Archives *)

Definition item_entry (i : ZipInfo) : string * ZipInfo := (entry_name i, i).
Definition file_entries (items : list ZipInfo) : list (string * ZipInfo) :=
  map item_entry (List.filter (λ i, negb (is_dir i)) items).
Definition folded_names (items : list ZipInfo) : list string := map (λ i, casefold (entry_name i)) items.

Lemma archive_entries_Ok items entries names expanded state :
  (∀ name, name ∈ entries.*1 → casefold name ∈ names) → NoDup names →
  archive_entries (entries, names, expanded) items = Ok state →
  state.1.1 = entries ++ file_entries items ∧ NoDup (rev (folded_names items) ++ names)
  ∧ Forall (λ i, safe_path_text (entry_name i) = true) items.
Proof.
  revert entries names expanded. induction items as [|i items IH]; intros entries names expanded Hin Hd.
  { intros [= <-]. unfold file_entries. simpl. by rewrite app_nil_r. }
  cbn [archive_entries]. intros ([[entries' names'] expanded'] & Hi & H)%res_bind_Ok.
  unfold archive_entry in Hi. unbind Hi.
  match goal with Hs : safe_path _ = Ok _ |- _ => apply safe_path_Ok in Hs as [[= <-] Hs] end.
  injection Hi as Ee <- <-. unfold str_in in *. propify.
  assert (casefold (entry_name i) ∉ names) as Hnew by done.
  assert (entries' = entries ++ file_entries [i]) as ->.
  { subst entries'. unfold file_entries. simpl. destruct (is_dir i); simpl; [by rewrite app_nil_r|].
    apply assoc_set_new. intros Hn. by apply Hnew, Hin. }
  apply IH in H as (He & Hn & Hs').
  - split_and!; [|by unfold folded_names in *; simpl; rewrite <-app_assoc|by constructor].
    rewrite He, <-app_assoc. f_equal. unfold file_entries. simpl. by destruct (is_dir i).
  - intros name. rewrite fmap_app, elem_of_app, elem_of_cons. intros [Hn|Hn]; [right; by apply Hin|left].
    unfold file_entries in Hn. simpl in Hn. destruct (is_dir i); simpl in Hn; [by apply elem_of_nil in Hn|].
    by apply list_elem_of_singleton in Hn as ->.
  - by constructor.
Qed.

Lemma file_entry_In items name i :
  assoc name (file_entries items) = Some i → i ∈ items ∧ is_dir i = false ∧ filename i = name.
Proof.
  unfold file_entries. induction items as [|j items IH]; simpl; [done|].
  destruct (is_dir j) eqn:Ej; simpl.
  - intros (Hi & Hd)%IH. split; [by right|done].
  - destruct (decide (entry_name j = name)) as [<-|].
    + intros [= <-]. unfold entry_name. rewrite Ej. split; [left|done].
    + intros (Hi & Hd)%IH. split; [by right|done].
Qed.

Lemma file_entries_names items name :
  name ∈ (file_entries items).*1 ↔ ∃ i, i ∈ items ∧ is_dir i = false ∧ filename i = name.
Proof.
  unfold file_entries. rewrite list_elem_of_fmap. split.
  - intros (e & -> & (i & <- & Hi)%list_elem_of_In%in_map_iff).
    apply list_elem_of_In, elem_of_filter_bool in Hi as [Hi Hd]. propify. exists i. simpl.
    unfold entry_name. by rewrite Hd.
  - intros (i & Hi & Hd & <-). exists (item_entry i). unfold item_entry, entry_name. rewrite Hd.
    split; [done|]. apply list_elem_of_In, in_map_iff. exists i. unfold item_entry, entry_name. rewrite Hd.
    split; [done|]. apply list_elem_of_In, elem_of_filter_bool. by rewrite Hd.
Qed.

Lemma same_set_elem a b : same_set a b = true → ∀ x, x ∈ a ↔ x ∈ b.
Proof.
  unfold same_set. intros H. propify. rewrite !forallb_forall in *. intros x.
  rewrite !list_elem_of_In. split; intros Hx.
  - apply list_elem_of_In, str_in_elem. by apply H.
  - apply list_elem_of_In, str_in_elem. by apply H0.
Qed.

Lemma hash_open_Ok source maximum n d :
  _hash_open sha256 source maximum = Ok (n, d) →
  ∃ data, source = Ok data ∧ n = Z.of_nat (length data) ∧ d = sha256 data ∧ n <= maximum.
Proof.
  unfold _hash_open. intros (data & -> & H)%res_bind_Ok. destruct (_ <? _) eqn:E; [done|].
  injection H as <- <-. propify. by exists data.
Qed.

(** What holds the bytes of a listed file. *)
Definition holds (source : res text_in) (f : PayloadFile) : Prop :=
  ∃ data, source = Ok data ∧ Z.of_nat (length data) = size f ∧ sha256 data = sha256_of f.

Lemma check_files_Ok entries files f :
  check_files sha256 entries files = Ok tt → f ∈ files →
  ∃ i, assoc (path f) entries = Some i ∧ file_size i = size f ∧ holds (content i) f.
Proof.
  induction files as [|g files IH]; [by intros _ ?%elem_of_nil|]. cbn [check_files]. intros H.
  unbind H. rewrite elem_of_cons. intros [->|Hf]; [|].
  - unfold entry_at in *. destruct (assoc (path g) entries) as [i|] eqn:Ei; [|done].
    repeat match goal with Hx : Ok _ = Ok _ |- _ => injection Hx as <- end.
    exists i. destruct a1 as [n d]. unbind H. propify.
    match goal with Hh : _hash_open _ _ _ = Ok _ |- _ => apply hash_open_Ok in Hh as (data & Hc & -> & -> & _) end.
    split_and!; [done|done|]. by exists data.
  - destruct a1 as [n d]. unbind H. by apply IH.
Qed.

Lemma text_at_Ok key entries s : text_at key entries = Ok s → assoc key entries = Some (JStr s).
Proof. unfold text_at. intros (v & ->%item_at_Ok & H)%res_bind_Ok. destruct v; try done. by injection H as ->. Qed.

Lemma launcher_at_Ok contract l :
  launcher_at contract = Ok l →
  assoc "minimum_launcher_version" contract = Some (match l with Some s => JStr s | None => JNull end).
Proof.
  unfold launcher_at. intros (v & ->%item_at_Ok & H)%res_bind_Ok.
  destruct v as [| | | |s| |]; try done; [by injection H as <-|]. unbind H. by injection H as <-.
Qed.

Lemma same_item_Ok key left right s :
  same_item key left right = Ok true → assoc key left = Some (JStr s) → assoc key right = Some (JStr s).
Proof.
  unfold same_item. intros (a & ->%item_at_Ok & H)%res_bind_Ok [= ->].
  apply res_bind_Ok in H as (b & ->%item_at_Ok & H). injection H as H.
  destruct b; try done. simpl in H. by apply bool_decide_eq_true in H as ->.
Qed.

Lemma bind_contract_Ok manifest files0 data id :
  bind_contract sha256 limit manifest files0 data = Ok id →
  files id = files0 ∧ ∃ f contract, f ∈ files0 ∧ path f = CONTRACT_FILENAME
    ∧ Z.of_nat (length data) = size f ∧ sha256 data = sha256_of f
    ∧ read_json limit data MAX_CONTRACT_BYTES = Ok contract
    ∧ assoc "version" contract = Some (JStr (version id))
    ∧ assoc "source_revision" contract = Some (JStr (source_revision id))
    ∧ assoc "minimum_launcher_version" contract
      = Some (match minimum_launcher_version id with Some s => JStr s | None => JNull end)
    ∧ assoc "version" manifest = Some (JStr (version id))
    ∧ assoc "source_revision" manifest = Some (JStr (source_revision id)).
Proof.
  unfold bind_contract. intros (contract & Er & H)%res_bind_Ok.
  destruct (keys_are _ _); [|done].
  destruct (assoc "schema_version" contract) as [[| |n| | | |]|]; try done. destruct n as [|[]|]; try done.
  unbind H. destruct (List.find _ _) as [f|] eqn:Ef; [|done]. unbind H. injection H as <-. simpl.
  split; [done|]. exists f, contract. apply List.find_some in Ef as [Hf Hp]. propify.
  repeat match goal with Ht : text_at _ _ = Ok _ |- _ => apply text_at_Ok in Ht end.
  match goal with Hl : launcher_at _ = Ok _ |- _ => apply launcher_at_Ok in Hl end.
  subst. split_and!; [by apply list_elem_of_In|done..|by eapply same_item_Ok|by eapply same_item_Ok].
Qed.

(** An archive that passes the offline verification is exactly its manifest:
    its bytes have the pinned digest and size, the manifest inside it is accepted
    and lists the files of the result, its entries have safe names that differ
    even when case is folded, its files are the manifest and the listed files and
    nothing else, each listed file has the listed size and digest, the contract
    among them, and version and launcher version are the expected ones. *)
Theorem verified_archive_is_its_manifest a digest bytes expected launcher id :
  verify_windows_archive sha256 limit a digest bytes expected launcher = Ok id →
  (∃ data, ar_bytes a = Ok data ∧ sha256 data = digest ∧ Z.of_nat (length data) = bytes
     ∧ bytes <= MAX_ARCHIVE_BYTES)
  ∧ version id = expected ∧ minimum_launcher_version id = launcher
  ∧ ∃ items, ar_infolist a = Ok items
    ∧ NoDup (folded_names items) ∧ Forall (λ i, safe_path_text (entry_name i) = true) items
    ∧ (∀ name, (∃ i, i ∈ items ∧ is_dir i = false ∧ filename i = name)
         ↔ name = BUNDLE_FILENAME ∨ name ∈ map path (files id))
    ∧ (∀ f, f ∈ files id → ∃ i, i ∈ items ∧ is_dir i = false ∧ filename i = path f ∧ holds (content i) f)
    ∧ (∃ i data manifest, i ∈ items ∧ filename i = BUNDLE_FILENAME ∧ content i = Ok data
         ∧ read_json limit data MAX_MANIFEST_BYTES = Ok manifest ∧ manifest_files manifest = Ok (files id))
    ∧ CONTRACT_FILENAME ∈ map path (files id).
Proof.
  unfold verify_windows_archive. intros H%except_conflict_Ok. unbind H.
  match goal with Hh : _hash_open _ _ _ = Ok ?p |- _ => destruct p as [n d] end. unbind H. injection H as <-.
  match goal with Hh : _hash_open _ _ _ = Ok _ |- _ => apply hash_open_Ok in Hh as (data & Hb & -> & -> & Hmax) end.
  propify. subst bytes digest. split; [by exists data|].
  match goal with Hx : verify_entries _ _ _ _ _ = Ok _, Hi : ar_infolist _ = Ok ?l |- _ =>
    rename l into items; clear -Hx Hi; rename Hx into Hv end.
  unfold verify_entries in Hv. apply res_bind_Ok in Hv as ([[entries names] total] & He & Hv).
  apply archive_entries_Ok in He as (He & Hd & Hs); [|by intros name ?%elem_of_nil|constructor].
  simpl in He. subst entries. rewrite app_nil_r, NoDup_rev_iff in Hd.
  destruct (assoc BUNDLE_FILENAME _) as [bundle|] eqn:Ebundle; [|done].
  destruct (assoc CONTRACT_FILENAME _) as [contract|] eqn:Econtract; [|unbind Hv; done]. unbind Hv. injection Hv as <-.
  match goal with Hb : bind_contract _ _ _ _ _ = Ok _ |- _ =>
    apply bind_contract_Ok in Hb as (Ef & f & c & Hf & Hp & _) end.
  rewrite <-Ef in *. propify. split; [done|]. split; [done|]. exists items. split_and!; [done..| | | |].
  - intros name. rewrite <-file_entries_names. rewrite same_set_elem by eassumption. by rewrite elem_of_cons.
  - intros g Hg. match goal with Hc : check_files _ _ _ = Ok ?u |- _ => destruct u;
      apply (check_files_Ok _ _ g) in Hc as (i & Hi' & _ & Hh); [|done] end.
    apply file_entry_In in Hi' as (? & ? & ?). by exists i.
  - apply file_entry_In in Ebundle as (? & ? & ?). by eexists bundle, _, _.
  - rewrite <-Hp. by apply list_elem_of_fmap_2.
Qed.

(** ** Installed trees *)

Definition directory_names (d : directory) : list (string * res details) :=
  subdirs d ++ map (λ l, (leaf_path l, leaf_lstat l)) (leaves d).

(** A name of the tree that is no link. *)
Definition plain_name (name : string * res details) : Prop :=
  safe_path_text name.1 = true ∧ ∃ d, name.2 = Ok d ∧ reparse_point d = false ∧ S_IFMT (st_mode d) ≠ S_IFLNK.

Lemma check_names_Ok names aliases aliases' :
  NoDup aliases → check_names aliases names = Ok aliases' →
  aliases' = rev (map (λ n, casefold n.1) names) ++ aliases ∧ NoDup aliases' ∧ Forall plain_name names.
Proof.
  revert aliases. induction names as [|n names IH]; intros aliases Hd; cbn [check_names].
  { by intros [= <-]. }
  intros (a & Hn & H)%res_bind_Ok. unfold check_name in Hn. unbind Hn.
  match goal with Hs : safe_path _ = Ok _ |- _ => apply safe_path_Ok in Hs as [[= <-] Hs] end.
  injection Hn as <-. unfold str_in in *. propify.
  apply IH in H as (-> & Hd' & Hf); [|by constructor]. simpl. rewrite <-app_assoc.
  split_and!; [done|done|]. constructor; [|done]. split; [done|]. by eexists.
Qed.

Definition listed_leaf (files : list PayloadFile) (l : leaf) : Prop :=
  ∃ f, f ∈ files ∧ path f = leaf_path l ∧ holds (leaf_data l) f.

Lemma expected_file_In files name f : expected_file files name = Some f → f ∈ files ∧ path f = name.
Proof.
  unfold expected_file. intros [Hf Hp]%List.find_some. propify.
  split; [by apply list_elem_of_In; rewrite in_rev|done].
Qed.

Lemma check_leaves_Ok files excluded leaves actual actual' :
  check_leaves sha256 files excluded actual leaves = Ok actual' →
  Forall (λ l, (∃ d, _regular (leaf_before l) = Ok d) ∧ (leaf_path l ∉ excluded → listed_leaf files l)) leaves
  ∧ ∀ name, name ∈ actual'.*1 → name ∈ actual.*1 ∨ ∃ l, l ∈ leaves ∧ leaf_path l = name ∧ name ∉ excluded.
Proof.
  revert actual. induction leaves as [|l leaves IH]; intros actual; cbn [check_leaves].
  { intros [= <-]. split; [constructor|by left]. }
  intros (actual1 & Hl & H)%res_bind_Ok. apply IH in H as [Hf Hn]. unfold check_leaf in Hl. unbind Hl.
  destruct (str_in _ _) eqn:Ex.
  - injection Hl as <-. apply str_in_elem in Ex. split.
    + constructor; [|done]. split; [by eexists|by intros []].
    + intros name [?|(k & Hk & Hp)]%Hn; [by left|]. right. exists k. split; [by right|done].
  - destruct (expected_file _ _) as [f|] eqn:Ef; [|done]. unbind Hl. destruct a2 as [n d]. unbind Hl.
    injection Hl as <-. apply expected_file_In in Ef as [Hin Hp].
    match goal with Hh : _hash_open _ _ _ = Ok _ |- _ => apply hash_open_Ok in Hh as (data & Hc & -> & -> & _) end.
    unfold str_in in Ex. propify. split.
    + constructor; [|done]. split; [by eexists|]. intros _. exists f. split_and!; [done..|]. by exists data.
    + intros name [Ha|(k & Hk & Hp')]%Hn; [|right; exists k; split; [by right|done]].
      destruct (decide (name = leaf_path l)) as [->|Hne]; [right; exists l; split; [left|done]|left].
      apply in_keys_assoc in Ha as [v Hv]. rewrite assoc_set_ne in Hv by done.
      destruct (decide (name ∈ actual.*1)); [done|]. by rewrite assoc_None in Hv.
Qed.

Lemma walk_Ok files excluded tree aliases actual actual' :
  NoDup aliases → walk sha256 files excluded aliases actual tree = Ok actual' →
  NoDup (rev (map (λ n, casefold n.1) (flat_map directory_names tree)) ++ aliases)
  ∧ Forall plain_name (flat_map directory_names tree)
  ∧ Forall (λ l, (∃ d, _regular (leaf_before l) = Ok d) ∧ (leaf_path l ∉ excluded → listed_leaf files l))
      (flat_map leaves tree)
  ∧ ∀ name, name ∈ actual'.*1 →
      name ∈ actual.*1 ∨ ∃ l, l ∈ flat_map leaves tree ∧ leaf_path l = name ∧ name ∉ excluded.
Proof.
  revert aliases actual. induction tree as [|d tree IH]; intros aliases actual Hd; cbn [walk].
  { intros [= <-]. simpl. split_and!; [done|constructor|constructor|by left]. }
  intros (aliases1 & Hc & H)%res_bind_Ok. apply check_names_Ok in Hc as (-> & Hd1 & Hp); [|done].
  apply res_bind_Ok in H as (actual1 & Hl & H). apply check_leaves_Ok in Hl as [Hf Hn].
  apply IH in H as (E1 & E2 & E3 & E4); [|done]. simpl. rewrite map_app, rev_app_distr, <-app_assoc.
  split_and!; [done|by apply Forall_app|by apply Forall_app|].
  intros name [Ha|(l & Hl & Hp')]%E4.
  - apply Hn in Ha as [?|(l & Hl & Hp')]; [by left|]. right. exists l. rewrite elem_of_app. tauto.
  - right. exists l. rewrite elem_of_app. tauto.
Qed.

(** C23: an installed tree that passes the verification is its manifest, besides
    the files it is told to exclude:
    the manifest is accepted and lists the files of the result, no name of the
    tree is a link or differs from another only by case, every file is a regular
    one with a single link, each that is not excluded is listed and has the
    listed size and digest, and every listed file is there, the contract with the
    version and the launcher version of the result included; no exclusion hides a
    listed file. *)
Theorem verified_tree_is_its_manifest ancestors tree contract manifest excluded id :
  verify_payload sha256 limit ancestors tree contract manifest excluded = Ok id →
  manifest_files manifest = Ok (files id)
  ∧ NoDup (map (λ n, casefold n.1) (flat_map directory_names tree))
  ∧ Forall plain_name (flat_map directory_names tree)
  ∧ (∀ l, l ∈ flat_map leaves tree → (∃ d, _regular (leaf_before l) = Ok d)
       ∧ (leaf_path l ∉ excluded → listed_leaf (files id) l))
  ∧ (∀ f, f ∈ files id → path f ∉ excluded
       ∧ ∃ l, l ∈ flat_map leaves tree ∧ leaf_path l = path f ∧ holds (leaf_data l) f)
  ∧ assoc "version" manifest = Some (JStr (version id))
  ∧ assoc "source_revision" manifest = Some (JStr (source_revision id))
  ∧ CONTRACT_FILENAME ∈ map path (files id).
Proof.
  unfold verify_payload. intros H%except_conflict_Ok. unbind H.
  match goal with Hw : walk _ _ _ _ _ _ = Ok _ |- _ =>
    apply walk_Ok in Hw as (Hd & Hp & Hl & Hn); [|constructor] end.
  pose proof H as (Ef & f & c & Hf & Hpf & _ & _ & _ & _ & _ & _ & Hver & Hsrc)%bind_contract_Ok. subst a.
  rewrite app_nil_r, NoDup_rev_iff in Hd. rewrite Forall_forall in Hl.
  match goal with Hs : same_set _ _ = true |- _ => pose proof (same_set_elem _ _ Hs) as Hset end.
  match goal with Hm : manifest_files _ = Ok _ |- _ => pose proof Hm as (listed & Hv & Hperm)%manifest_files_Ok end.
  assert (NoDup (map path (files id))) as Hpaths.
  { rewrite Hperm. rewrite order_by_Permutation. apply NoDup_folded_paths, Hv. }
  split_and!; [done..| |done|done|by rewrite <-Hpf; apply list_elem_of_fmap_2].
  - intros g Hg. assert (path g ∈ map path (files id)) as Hg' by by apply list_elem_of_fmap_2.
    apply Hset, Hn in Hg' as [?%elem_of_nil|(l & Hl' & Ep & Hx)]; [done|]. split; [done|]. exists l.
    split_and!; [done..|]. destruct (Hl l Hl') as [_ (h & Hh & Eh & Hb)]; [by rewrite Ep|].
    replace g with h; [done|]. apply (NoDup_map_inj path (files id)); [done..|congruence].
Qed.
End specs.

(** ** The digest of a tree *)

Lemma separated {A} (z : A) a a' b b' :
  z ∉ a → z ∉ a' → a ++ z :: b = a' ++ z :: b' → a = a' ∧ b = b'.
Proof.
  revert a'. induction a as [|x a IH]; intros [|y a'] Ha Ha' E; simpl in E; simplify_eq.
  - done.
  - destruct Ha'. left.
  - destruct Ha. left.
  - rewrite not_elem_of_cons in Ha, Ha'. destruct (IH a') as [-> ->]; tauto.
Qed.

Lemma code_of_nat n : 0 <= n < 256 → code (Ascii.ascii_of_nat (Z.to_nat n)) = n.
Proof. intros Hn. unfold code, Ascii.ascii_of_nat. rewrite Ascii.N_ascii_embedding; lia. Qed.

Lemma two_bytes c :
  0 <= code c / 64 < 4 ∧ 0 <= code c mod 64 < 64 ∧ code c = 64 * (code c / 64) + code c mod 64.
Proof.
  pose proof (code_range c). split_and!; [by apply Z.div_pos; lia|by apply Z.div_lt_upper_bound; lia|..].
  - by apply Z.mod_pos_bound.
  - by apply Z.mod_pos_bound.
  - by apply Z.div_mod.
Qed.

Lemma utf_8_inj l l' : utf_8 l = utf_8 l' → l = l'.
Proof.
  revert l'. induction l as [|c l IH]; intros [|d l'] E; unfold utf_8 in E; simpl in E.
  - done.
  - by destruct (code d <? 128).
  - by destruct (code c <? 128).
  - destruct (two_bytes c) as (Hc1 & Hc2 & Hc3), (two_bytes d) as (Hd1 & Hd2 & Hd3).
    destruct (code c <? 128) eqn:Ec, (code d <? 128) eqn:Ed; simpl in E; propify.
    + injection E as -> E. f_equal. by apply IH.
    + injection E as E _. subst c. rewrite code_of_nat in Ec; lia.
    + injection E as E _. subst d. rewrite code_of_nat in Ed; lia.
    + injection E as E1 E2 E. f_equal; [|by apply IH]. apply (f_equal code) in E1, E2.
      rewrite !code_of_nat in E1, E2 by lia. apply code_inj. lia.
Qed.

Lemma safe_text_chars s : safe_path_text s = true → Ascii.ascii_of_nat 0 ∉ chars s.
Proof.
  unfold safe_path_text. intros H Hin. propify.
  match goal with Hc : forallb (λ c, negb (code c <? 32)) _ = true |- _ => rewrite forallb_forall in Hc;
    apply list_elem_of_In in Hin; by apply Hc in Hin end.
Qed.

Lemma hash_chars s c : _HASH s = true → c ∈ chars s → 48 <= code c <= 102.
Proof.
  unfold _HASH. intros H Hin. propify. rewrite forallb_forall in H0. apply list_elem_of_In, H0 in Hin.
  unfold is_hex, is_digit, between in Hin. apply orb_true_iff in Hin as [Hin|Hin]; propify; lia.
Qed.

Lemma size_text n : 0 <= n → forallb is_digit (chars (Z_str n)) = true ∧ digits_value 0 (chars (Z_str n)) = n.
Proof.
  intros Hn. destruct n as [|p|p]; [done| |lia].
  by destruct (Z_str_positive p) as (l & -> & Hd & Hv & _).
Qed.

(** A file whose line can be read back. *)
Definition plain_file (f : PayloadFile) : Prop :=
  safe_path_text (path f) = true ∧ 0 <= size f ∧ _HASH (sha256_of f) = true.

Lemma tree_line_inj f g b b' :
  plain_file f → plain_file g → tree_line f ++ b = tree_line g ++ b' → f = g ∧ b = b'.
Proof.
  intros (Hf1 & Hf2 & Hf3) (Hg1 & Hg2 & Hg3). unfold tree_line. rewrite <-!app_assoc. simpl. intros E.
  apply separated in E as [Ep%chars_inj E]; [|by apply safe_text_chars..].
  assert (∀ n, 0 <= n → Ascii.ascii_of_nat 0 ∉ chars (Z_str n)) as Hz.
  { intros n Hn Hin. destruct (size_text n Hn) as [Hd _]. rewrite forallb_forall in Hd.
    by apply list_elem_of_In, Hd in Hin. }
  apply separated in E as [Es E]; [|by apply Hz..].
  assert (∀ s, _HASH s = true → Ascii.ascii_of_nat 10 ∉ chars s) as Hh.
  { intros s Hs Hin. by apply (hash_chars s) in Hin as [Hin _]. }
  apply separated in E as [Ed%chars_inj E]; [|by apply Hh..]. split; [|done].
  assert (size f = size g) as Hs.
  { destruct (size_text (size f) Hf2) as [_ <-]. destruct (size_text (size g) Hg2) as [_ <-]. by rewrite Es. }
  destruct f, g. simpl in *. by subst.
Qed.

Lemma tree_text_inj l l' :
  Forall plain_file l → Forall plain_file l' → flat_map tree_line l = flat_map tree_line l' → l = l'.
Proof.
  intros Hl. revert l'. induction Hl as [|f l Hf _ IH]; intros l' [|g l'' Hg Hl']; simpl; try done.
  - unfold tree_line. by destruct (chars (path g)).
  - unfold tree_line. by destruct (chars (path f)).
  - intros [-> E]%tree_line_inj; [|done..]. f_equal. by apply IH.
Qed.

Lemma manifest_files_plain manifest files : manifest_files manifest = Ok files → Forall plain_file files.
Proof.
  intros (listed & Hv & ->)%manifest_files_Ok. destruct Hv as (_ & _ & _ & _ & (entries & _ & Hl) & _).
  apply Forall_forall. intros f Hf. rewrite elem_of_order_by in Hf.
  apply list_elem_of_lookup in Hf as [i Hi]. destruct (Forall2_lookup_r _ _ _ _ _ Hl Hi) as (v & _ & e & H).
  split_and!; apply H.
Qed.

(** The text over which the digest of a tree is taken identifies the
    inventory: two accepted manifests have the same text only if they list the
    same files with the same sizes and digests, in whatever order each lists
    them. *)
Theorem tree_text_identifies_the_inventory m m' files files' :
  manifest_files m = Ok files → manifest_files m' = Ok files' →
  utf_8 (flat_map tree_line files) = utf_8 (flat_map tree_line files') ↔
  ∃ listed listed', valid_manifest m listed ∧ valid_manifest m' listed' ∧ listed ≡ₚ listed'.
Proof.
  intros H H'. pose proof H as (l & Hv & E)%manifest_files_Ok. pose proof H' as (l' & Hv' & E')%manifest_files_Ok.
  split.
  - intros Et%utf_8_inj%tree_text_inj; [|by eapply manifest_files_plain..].
    exists l, l'. split_and!; [done..|]. rewrite <-(order_by_Permutation path_leb l), <-(order_by_Permutation path_leb l').
    by rewrite <-E, <-E', Et.
  - intros (k & k' & Hk & Hk' & Hp). do 2 f_equal.
    assert (files = order_by path_leb k) as ->.
    { assert (manifest_files m = Ok (order_by path_leb k)) as Ek by (apply manifest_files_Ok; eauto).
      rewrite Ek in H. by injection H. }
    assert (files' = order_by path_leb k') as ->.
    { assert (manifest_files m' = Ok (order_by path_leb k')) as Ek by (apply manifest_files_Ok; eauto).
      rewrite Ek in H'. by injection H'. }
    apply inventory_unique; [apply Hk'|by rewrite order_by_Permutation|].
    apply order_by_sorted; [exact path_leb_trans|exact path_leb_total].
Qed.


(** ** A release *)

Definition demo_digest (data : text_in) : string := hex_digits 64 (Z.of_nat (length data)) "".
Definition demo_json (v : json) : text_in := chars (@json_compact Demo.demo_contracts v).
Definition demo_source : string := text (repeat (Ascii.ascii_of_nat 97) 40).

Definition demo_contract : text_in :=
  demo_json (JObj [("schema_version", JInt 1); ("version", JStr "1.2.3"); ("source_revision", JStr demo_source);
                   ("minimum_launcher_version", JNull)]).
Definition demo_program : text_in := chars "MZ".

Definition demo_item (name : string) (data : text_in) : json :=
  JObj [("path", JStr name); ("size", JInt (Z.of_nat (length data))); ("sha256", JStr (demo_digest data))].

Definition demo_manifest_with (items : list json) : list (string * json) :=
  [("schema_version", JInt 1); ("version", JStr "1.2.3"); ("source_revision", JStr demo_source);
   ("files", JList items)].
Definition demo_manifest : list (string * json) :=
  demo_manifest_with [demo_item "pc_agent.exe" demo_program; demo_item CONTRACT_FILENAME demo_contract].

Definition demo_files : list PayloadFile :=
  [{| path := CONTRACT_FILENAME; size := Z.of_nat (length demo_contract); sha256_of := demo_digest demo_contract |};
   {| path := "pc_agent.exe"; size := 2; sha256_of := demo_digest demo_program |}].

Definition demo_identity : PayloadIdentity :=
  {| version := "1.2.3"; source_revision := demo_source; minimum_launcher_version := None; files := demo_files |}.

Definition demo_stat (n : Z) : details :=
  {| st_mode := 0x8000 + 420; st_nlink := 1; st_file_attributes := 32; st_dev := 1; st_ino := 7; st_size := n;
     st_mtime_ns := 5 |}.
Definition demo_directory : details :=
  {| st_mode := 0x4000 + 493; st_nlink := 2; st_file_attributes := 16; st_dev := 1; st_ino := 2; st_size := 0;
     st_mtime_ns := 5 |}.

Definition demo_entry (name : string) (data : text_in) : ZipInfo :=
  {| filename := name; external_attr := 0; flag_bits := 0; file_size := Z.of_nat (length data);
     content := Ok data |}.

Definition demo_archive_bytes : text_in := chars "PK".
Definition demo_archive : archive :=
  {| ar_ancestors := [Ok demo_directory]; ar_lstat := Ok (demo_stat 2); ar_pinned := Ok (demo_stat 2);
     ar_bytes := Ok demo_archive_bytes;
     ar_infolist := Ok [demo_entry BUNDLE_FILENAME (demo_json (JObj demo_manifest));
                        demo_entry "pc_agent.exe" demo_program; demo_entry CONTRACT_FILENAME demo_contract];
     ar_after := Ok (demo_stat 2) |}.

Definition demo_leaf (name : string) (data : text_in) : leaf :=
  let d := Ok (demo_stat (Z.of_nat (length data))) in
  {| leaf_path := name; leaf_lstat := d; leaf_before := d; leaf_opened := d; leaf_data := Ok data; leaf_after := d |}.
Definition demo_tree : list directory :=
  [{| subdirs := []; leaves := [demo_leaf "pc_agent.exe" demo_program; demo_leaf CONTRACT_FILENAME demo_contract;
                                demo_leaf "receipt.json" (chars "{}")] |}].

Lemma demo_manifest_files : manifest_files demo_manifest = Ok demo_files.
Proof. vm_compute. reflexivity. Qed.

(** The same inventory in the other order has the same text. *)
Lemma tree_text_identifies_the_inventory_witness :
  let m' := demo_manifest_with [demo_item CONTRACT_FILENAME demo_contract; demo_item "pc_agent.exe" demo_program] in
  manifest_files demo_manifest = Ok demo_files ∧ manifest_files m' = Ok demo_files
  ∧ (utf_8 (flat_map tree_line demo_files) = utf_8 (flat_map tree_line demo_files) ↔
     ∃ listed listed', valid_manifest demo_manifest listed ∧ valid_manifest m' listed' ∧ listed ≡ₚ listed').
Proof.
  split_and!; [vm_compute; reflexivity..|].
  apply tree_text_identifies_the_inventory; vm_compute; reflexivity.
Defined.

Lemma verified_archive_is_its_manifest_witness :
  verify_windows_archive demo_digest 10 demo_archive (demo_digest demo_archive_bytes) 2 "1.2.3" None
    = Ok demo_identity
  ∧ CONTRACT_FILENAME ∈ map path (files demo_identity)
  ∧ ∀ f, f ∈ files demo_identity →
      ∃ items i, ar_infolist demo_archive = Ok items ∧ i ∈ items ∧ filename i = path f ∧ holds demo_digest (content i) f.
Proof.
  assert (verify_windows_archive demo_digest 10 demo_archive (demo_digest demo_archive_bytes) 2 "1.2.3" None
          = Ok demo_identity) as H by (vm_compute; reflexivity).
  apply verified_archive_is_its_manifest in H as Hv.
  destruct Hv as (_ & _ & _ & items & Hi & _ & _ & _ & Hf & _ & Hc).
  split; [exact H|]. split; [exact Hc|]. intros f (i & H1 & _ & H2 & H3)%Hf. exists items, i. exact (conj Hi (conj H1 (conj H2 H3))).
Defined.

Lemma verified_tree_is_its_manifest_witness :
  verify_payload demo_digest 10 [Ok demo_directory] demo_tree (Ok demo_contract) demo_manifest ["receipt.json"]
    = Ok demo_identity
  ∧ manifest_files demo_manifest = Ok (files demo_identity)
  ∧ ∀ f, f ∈ files demo_identity →
      ∃ l, l ∈ flat_map leaves demo_tree ∧ leaf_path l = path f ∧ holds demo_digest (leaf_data l) f.
Proof.
  assert (verify_payload demo_digest 10 [Ok demo_directory] demo_tree (Ok demo_contract) demo_manifest ["receipt.json"]
          = Ok demo_identity) as H by (vm_compute; reflexivity).
  apply verified_tree_is_its_manifest in H as Hv.
  destruct Hv as (Hm & _ & _ & _ & Hf & _). split; [exact H|]. split; [exact Hm|]. intros f [_ Hl]%Hf. exact Hl.
Defined.

(** A file that no manifest lists, and one that only differs by case. *)
Example unlisted_file_is_refused :
  verify_payload demo_digest 10 [] demo_tree (Ok demo_contract) demo_manifest [] = Exn PayloadConflict
  ∧ manifest_files (demo_manifest_with [demo_item "pc_agent.exe" demo_program; demo_item "A" []; demo_item "a" []])
    = Exn PayloadConflict.
Proof. split; vm_compute; reflexivity. Qed.

(** Paths that would leave the root or name a device. *)
Example unsafe_paths :
  map safe_path_text ["../x"; "/x"; "C:/x"; "a//b"; "nul.txt"; "com1"; "a. "; "a/./b"; "a/b.c"; "NULL"]
  = [false; false; false; false; false; false; false; false; true; true].
Proof. reflexivity. Qed.
