(* ===== verification/StagedRecord.v ===== *)
(** * The record of a staged update (pc_agent/platform/windows/staged_update_state.py)

    What the journal of a staged update may say, as the code validates, writes
    and reads it.  Dictionaries are lists of entries; the bytes of the selectors
    are lists of characters below 256; datetimes know their offset. *)

From S2P Require Import Prelude Store AuditLog Contracts Canonical Semver SemverFacts Json JsonFacts LocalMessages.
From S2P Require Import LocalMessagesSpecs Calendar RuntimePayload.

Definition _MAX_BYTES : Z := 64 * 1024.
Definition _SCHEMA : string := "endpoint_windows_staged_update_v1".
Definition _TERMINAL : list string := ["accepted"; "rolled-back"].

Definition _NEXT (phase : string) : option (list string) :=
  assoc phase
    [("preparing", ["prepared"; "rolled-back"; "recovery-required"]);
     ("prepared", ["switching"; "rolled-back"; "recovery-required"]);
     ("switching", ["native-settled"; "rolling-back"; "recovery-required"]);
     ("native-settled", ["trial"; "rolling-back"; "recovery-required"]);
     ("trial", ["accepted"; "rolling-back"; "recovery-required"]);
     ("rolling-back", ["rolled-back"; "recovery-required"]);
     ("recovery-required", ["rolling-back"; "native-settled"]);
     ("accepted", []); ("rolled-back", [])].

Record StagedUpdateBinding := {
  operation_id : string;
  old_release : list (string * json);
  new_release : list (string * json);
  selected_before : text_in;
  previous_before : option text_in;
  selected_tree_sha256_before : string;
  previous_tree_sha256_before : option string;
  candidate_version : string;
  candidate_source_revision : string;
  candidate_tree_sha256 : string
}.

Record StagedUpdateRecord := {
  binding : StagedUpdateBinding;
  phase : string;
  sequence : Z;
  attempt_id : option string;
  owner : list (string * json);
  switched_at : option datetime;
  safe_code : option string
}.

Definition _invalid {A} : res A := Exn (ValueError "UPDATE_STATE_INVALID").
Definition valid_if (condition : bool) : res unit := if condition then Ok tt else _invalid.

(** ** Validation *)

Definition _uuid (value : string) : res unit :=
  valid_if (match UUID_of value with Some u => bool_decide (uuid_str u = value) | None => false end).

Definition _hash (value : string) : res unit := valid_if (_HASH value).

(** [_hash(mapping[key])] *)
Definition hash_at (key : string) (entries : list (string * json)) : res unit :=
  match assoc key entries with Some (JStr value) => _hash value | Some _ => _invalid | None => Exn (KeyError key) end.

(** The text at a key that matches. *)
Definition text_at (key : string) (P : string → bool) (entries : list (string * json)) : bool :=
  match assoc key entries with Some (JStr value) => P value | _ => false end.

Definition is_brace (c : Ascii.ascii) : bool := in_set (code c) [123; 125].

(** [value.strip("{}")], as [UUID] does *)
Definition strip_braces (l : text_in) : text_in := rev (drop_while is_brace (rev (drop_while is_brace l))).

(** ["{" + str(UUID(value)).upper() + "}" == value] *)
Definition product_code_ok (value : string) : res bool :=
  match UUID_of (text (strip_braces (chars value))) with
  | Some u => Ok (bool_decide (value = text (chars "{" ++ map ascii_upper (chars (uuid_str u)) ++ chars "}")))
  | None => Exn (ValueError "badly formed hexadecimal UUID string")
  end.

Definition _release (value : list (string * json)) : res unit :=
  res_bind (valid_if (keys_are ["schema_version"; "version"; "source_revision"; "package_sha256"; "product_code";
                                "initial_runtime_tree_sha256"] value
                      && field_is "schema_version" "endpoint_windows_release_v1" value
                      && text_at "source_revision" _SOURCE value
                      && text_at "product_code" (λ _, true) value)) (λ _,
  res_bind (match assoc "product_code" value with Some (JStr code) => product_code_ok code | _ => Ok false end) (λ ok,
  res_bind (valid_if ok) (λ _,
  res_bind (res_bind (item_at "version" value) version_tuple) (λ _,
  res_bind (hash_at "package_sha256" value) (λ _,
  hash_at "initial_runtime_tree_sha256" value))))).

(** [type(mapping[key]) is int] and positive *)
Definition positive_at (key : string) (entries : list (string * json)) : bool :=
  match assoc key entries with Some (JInt n) => 0 <? n | _ => false end.

(** [S-1-[0-9-]+] *)
Definition sid_ok (value : string) : bool :=
  match strip (chars "S-1-") (chars value) with
  | Some rest => negb (bool_decide (rest = [])) && forallb (λ c, is_digit c || (code c =? 45)) rest
  | None => false
  end.

Definition _owner (value : list (string * json)) : res unit :=
  res_bind (valid_if (keys_are ["pid"; "created"; "hash"; "sid"; "elevated"] value
                      && positive_at "pid" value && positive_at "created" value
                      && match assoc "elevated" value with Some (JBool true) => true | _ => false end
                      && text_at "sid" sid_ok value)) (λ _,
  hash_at "hash" value).

(** [[a-z][a-z0-9_-]{0,95}] *)
Definition safe_code_ok (value : string) : bool :=
  match chars value with
  | c :: rest =>
      is_lower c && (length rest <=? 95)%nat
      && forallb (λ c, is_lower c || is_digit c || in_set (code c) [95; 45]) rest
  | [] => false
  end.

(** [a <= b] on versions *)
Definition version_leb (a b : Z * Z * Z) : bool :=
  let '(a1, a2, a3) := a in
  let '(b1, b2, b3) := b in
  (a1 <? b1) || ((a1 =? b1) && ((a2 <? b2) || ((a2 =? b2) && (a3 <=? b3)))).

(** [value.hex()] *)
Definition bytes_hex (value : text_in) : string :=
  text (flat_map (λ c, [hex_digit (code c / 16); hex_digit (code c mod 16)]) value).

Definition is_ascii_space (c : Ascii.ascii) : bool := in_set (code c) [32; 9; 10; 11; 12; 13].

(** [bytes.fromhex(value)] *)
Fixpoint fromhex (l : text_in) : option text_in :=
  match l with
  | [] => Some []
  | a :: l =>
      if is_ascii_space a then fromhex l
      else
        match l with
        | [] => None
        | b :: l =>
            match hex_value a, hex_value b, fromhex l with
            | Some x, Some y, Some rest => Some (Ascii.ascii_of_nat (Z.to_nat (16 * x + y)) :: rest)
            | _, _, _ => None
            end
        end
  end.

Definition opt_json {A} (f : A → json) (o : option A) : json := from_option f JNull o.

(** [asdict(binding)] with its bytes in hexadecimal *)
Definition binding_entries (b : StagedUpdateBinding) : list (string * json) :=
  [("operation_id", JStr (operation_id b));
   ("old_release", JObj (old_release b));
   ("new_release", JObj (new_release b));
   ("selected_before", JStr (bytes_hex (selected_before b)));
   ("previous_before", opt_json (λ raw, JStr (bytes_hex raw)) (previous_before b));
   ("selected_tree_sha256_before", JStr (selected_tree_sha256_before b));
   ("previous_tree_sha256_before", opt_json JStr (previous_tree_sha256_before b));
   ("candidate_version", JStr (candidate_version b));
   ("candidate_source_revision", JStr (candidate_source_revision b));
   ("candidate_tree_sha256", JStr (candidate_tree_sha256 b))].

Section records.
Context `{Contracts} (recursion_limit : nat).

Definition _selector (raw : text_in) : res (list (string * json)) :=
  let n := Z.of_nat (length raw) in
  res_bind (valid_if ((0 <? n) && (n <=? 4096))) (λ _,
  res_bind (read_json recursion_limit raw 4096) (λ value,
  res_bind (if keys_are ["version"] value then Ok tt
            else valid_if (keys_are ["schema_version"; "version"; "source_revision"] value
                           && match assoc "schema_version" value with Some (JInt n) => n =? 1 | _ => false end
                           && text_at "source_revision" _SOURCE value)) (λ _,
  res_bind (res_bind (item_at "version" value) version_tuple) (λ _,
  Ok value)))).

Definition _binding_value (b : StagedUpdateBinding) : res (list (string * json)) :=
  res_bind (_uuid (operation_id b)) (λ _,
  res_bind (_release (old_release b)) (λ _,
  res_bind (_release (new_release b)) (λ _,
  res_bind (_selector (selected_before b)) (λ _,
  res_bind (_hash (selected_tree_sha256_before b)) (λ _,
  res_bind (_hash (candidate_tree_sha256 b)) (λ _,
  res_bind (match previous_before b with
            | Some raw =>
                res_bind (_selector raw) (λ _,
                  match previous_tree_sha256_before b with Some digest => _hash digest | None => _invalid end)
            | None => valid_if (negb (is_some (previous_tree_sha256_before b)))
            end) (λ _,
  res_bind (valid_if (field_is "version" (candidate_version b) (new_release b)
                      && field_is "source_revision" (candidate_source_revision b) (new_release b))) (λ _,
  res_bind (res_bind (item_at "version" (new_release b)) version_tuple) (λ new,
  res_bind (res_bind (item_at "version" (old_release b)) version_tuple) (λ old,
  res_bind (valid_if (negb (version_leb new old))) (λ _,
  Ok (binding_entries b)))))))))))).

(** [_canonical(value)] *)
Definition _canonical (value : list (string * json)) : string := json_compact (JObj value).

Definition record_entries (r : StagedUpdateRecord) : list (string * json) :=
  [("schema_version", JStr _SCHEMA);
   ("binding", JObj (binding_entries (binding r)));
   ("binding_sha256", JStr (sha256_hexdigest (_canonical (binding_entries (binding r)))));
   ("phase", JStr (phase r));
   ("sequence", JInt (sequence r));
   ("attempt_id", opt_json JStr (attempt_id r));
   ("owner", JObj (owner r));
   ("switched_at", opt_json (λ d, JStr (isoformat d)) (switched_at r));
   ("safe_code", opt_json JStr (safe_code r))].

Definition _record_value (r : StagedUpdateRecord) : res (list (string * json)) :=
  res_bind (_binding_value (binding r)) (λ _,
  res_bind (_owner (owner r)) (λ _,
  res_bind (valid_if (is_some (_NEXT (phase r)) && (0 <=? sequence r) && (sequence r <=? 1024)
                      && match safe_code r with Some code => safe_code_ok code | None => true end)) (λ _,
  res_bind (match attempt_id r with Some id => _uuid id | None => Ok tt end) (λ _,
  res_bind (valid_if (negb (str_in (phase r) ["trial"; "accepted"] && negb (is_some (attempt_id r))))) (λ _,
  res_bind (valid_if (match switched_at r with Some d => is_aware d | None => true end)) (λ _,
  res_bind (valid_if (str_in (phase r) ["preparing"; "prepared"; "rolled-back"; "recovery-required"]
                      || is_some (switched_at r))) (λ _,
  Ok (record_entries r)))))))).

(** ** Decoding *)

(** A field of text, one of text or [None], and a dictionary. *)
Definition get_text (key : string) (value : list (string * json)) : res string :=
  res_bind (item_at key value) (λ v, match v with JStr s => Ok s | _ => _invalid end).
Definition get_opt_text (key : string) (value : list (string * json)) : res (option string) :=
  res_bind (item_at key value) (λ v, match v with JStr s => Ok (Some s) | JNull => Ok None | _ => _invalid end).
Definition get_dict (key : string) (value : list (string * json)) : res (list (string * json)) :=
  res_bind (item_at key value) (λ v, match v with JObj d => Ok d | _ => _invalid end).
Definition get_int (key : string) (value : list (string * json)) : res Z :=
  res_bind (item_at key value) (λ v, match v with JInt n => Ok n | _ => _invalid end).

Definition unhex (value : string) : res text_in :=
  match fromhex (chars value) with Some raw => Ok raw | None => Exn (ValueError "non-hexadecimal number found") end.

(** [StagedUpdateBinding] of the dictionary, with its bytes *)
Definition decode_binding (value : list (string * json)) : res StagedUpdateBinding :=
  res_bind (res_bind (get_text "selected_before" value) unhex) (λ selected,
  res_bind (res_bind (get_opt_text "previous_before" value) (λ o,
              match o with Some s => res_bind (unhex s) (λ raw, Ok (Some raw)) | None => Ok None end)) (λ previous,
  if negb (keys_are ["operation_id"; "old_release"; "new_release"; "selected_before"; "previous_before";
                     "selected_tree_sha256_before"; "previous_tree_sha256_before"; "candidate_version";
                     "candidate_source_revision"; "candidate_tree_sha256"] value)
  then Exn (TypeError "StagedUpdateBinding() got an unexpected keyword argument")
  else
    res_bind (get_text "operation_id" value) (λ operation,
    res_bind (get_dict "old_release" value) (λ old,
    res_bind (get_dict "new_release" value) (λ new,
    res_bind (get_text "selected_tree_sha256_before" value) (λ selected_tree,
    res_bind (get_opt_text "previous_tree_sha256_before" value) (λ previous_tree,
    res_bind (get_text "candidate_version" value) (λ version,
    res_bind (get_text "candidate_source_revision" value) (λ revision,
    res_bind (get_text "candidate_tree_sha256" value) (λ tree,
    Ok {| operation_id := operation; old_release := old; new_release := new; selected_before := selected;
          previous_before := previous; selected_tree_sha256_before := selected_tree;
          previous_tree_sha256_before := previous_tree; candidate_version := version;
          candidate_source_revision := revision; candidate_tree_sha256 := tree |})))))))))).

Definition decode_fields (value : list (string * json)) : res StagedUpdateRecord :=
  res_bind (res_bind (get_dict "binding" value) decode_binding) (λ b,
  res_bind (get_text "phase" value) (λ phase,
  res_bind (get_int "sequence" value) (λ sequence,
  res_bind (get_opt_text "attempt_id" value) (λ attempt,
  res_bind (get_dict "owner" value) (λ owner,
  res_bind (res_bind (get_opt_text "switched_at" value) (λ o,
              match o with
              | Some s => match fromisoformat s with Some d => Ok (Some d) | None => Exn (ValueError "Invalid isoformat string") end
              | None => Ok None
              end)) (λ switched,
  res_bind (get_opt_text "safe_code" value) (λ code,
  Ok {| binding := b; phase := phase; sequence := sequence; attempt_id := attempt; owner := owner;
        switched_at := switched; safe_code := code |}))))))).

Definition _decode_record (value : list (string * json)) : res StagedUpdateRecord :=
  res_bind (valid_if (keys_are ["schema_version"; "binding"; "binding_sha256"; "phase"; "sequence"; "attempt_id"; "owner";
                                "switched_at"; "safe_code"] value
                      && field_is "schema_version" _SCHEMA value)) (λ _,
  res_bind (decode_fields value) (λ record,
  res_bind (_record_value record) (λ again,
  res_bind (valid_if (json_eqb (JObj again) (JObj value))) (λ _,
  Ok record)))).
End records.

(** ** The journal record of a staged update round trips

    What [_record_value] accepts is read back as the same record, through the
    JSON text that the journal file holds. *)

(** ** Hexadecimal bytes *)

Lemma hex_digit_no_space d : 0 <= d < 16 → is_ascii_space (hex_digit d) = false.
Proof.
  intros Hd. assert (d = 0 ∨ d = 1 ∨ d = 2 ∨ d = 3 ∨ d = 4 ∨ d = 5 ∨ d = 6 ∨ d = 7 ∨ d = 8 ∨ d = 9
    ∨ d = 10 ∨ d = 11 ∨ d = 12 ∨ d = 13 ∨ d = 14 ∨ d = 15) as Hcases by lia.
  by destruct_or! Hcases; subst.
Qed.

Lemma unhex_hex l : unhex (bytes_hex l) = Ok l.
Proof.
  unfold unhex, bytes_hex. rewrite chars_text.
  assert (fromhex (flat_map (λ c, [hex_digit (code c / 16); hex_digit (code c mod 16)]) l) = Some l) as ->; [|done].
  induction l as [|c l IH]; [done|]. cbn [flat_map app fromhex].
  pose proof (code_range c). pose proof (Z.mod_pos_bound (code c) 16). pose proof (Z.div_mod (code c) 16).
  assert (0 <= code c / 16 < 16) by (split; [apply Z.div_pos|apply Z.div_lt_upper_bound]; lia).
  rewrite hex_digit_no_space, IH by done.
  destruct (hex_digit_value (code c / 16)) as [-> _]; [done|]. destruct (hex_digit_value (code c mod 16)) as [-> _]; [lia|].
  do 2 f_equal. replace (16 * (code c / 16) + code c mod 16) with (code c) by lia.
  unfold code, Ascii.ascii_of_nat. rewrite <- Z_N_nat, N2Z.id, N2Nat.id. apply Ascii.ascii_N_embedding.
Qed.

(** ** JSON text is ASCII, and equality of values *)

Lemma escape_ascii c : is_ascii (chars (escape_char c)) = true.
Proof. by destruct c as [[] [] [] [] [] [] [] []]. Qed.

Lemma is_ascii_app a b : is_ascii (a ++ b) = is_ascii a && is_ascii b.
Proof. apply forallb_app. Qed.

Lemma json_string_ascii s : is_ascii (chars (json_string s)) = true.
Proof.
  rewrite chars_json_string. cbn [is_ascii forallb]. unfold is_ascii. rewrite forallb_app. simpl.
  rewrite andb_true_r. induction (chars s) as [|c l IH]; [done|]. cbn [flat_map].
  rewrite forallb_app, IH, andb_true_r. apply escape_ascii.
Qed.

Lemma concat_ascii sep l :
  is_ascii (chars sep) = true → Forall (λ s, is_ascii (chars s) = true) l → is_ascii (chars (String.concat sep l)) = true.
Proof.
  intros Hs Hl. rewrite chars_concat. destruct Hl as [|s l Hs' Hl]; [done|]. rewrite is_ascii_app, Hs'. simpl.
  induction Hl as [|s'' l H _ IH]; [done|]. cbn [flat_map]. by rewrite !is_ascii_app, Hs, H.
Qed.

Lemma digits_ascii l : forallb is_digit l = true → is_ascii l = true.
Proof.
  unfold is_ascii. rewrite !forallb_forall. intros H c Hc. apply H, is_digit_range in Hc. apply Z.ltb_lt. lia.
Qed.

Section dumps.
Context `{Contracts} (sort_keys : bool) (isep ksep : string).
Context (isep_ascii : is_ascii (chars isep) = true) (ksep_ascii : is_ascii (chars ksep) = true).

Lemma dumps_ascii v : readable v → is_ascii (chars (json_dumps sort_keys isep ksep v)) = true.
Proof using isep_ascii ksep_ascii.
  induction v as [|b|n|x|s|items IH|entries IH] using json_nested_ind; intros Hv.
  - done.
  - by destruct b.
  - simpl. destruct n as [|p|p]; [done|..].
    + destruct (Z_str_positive p) as (l & -> & Hd & _). by apply digits_ascii.
    + rewrite Z_str_negative. destruct (Z_str_positive p) as (l & -> & Hd & _). cbn [is_ascii forallb].
      by apply andb_true_iff; split; [|apply digits_ascii].
  - inversion Hv.
  - apply json_string_ascii.
  - inversion Hv as [| | | |? Hi|]; subst. simpl json_dumps. rewrite !chars_app, !is_ascii_app.
    rewrite concat_ascii; [done..|]. apply Forall_map, Forall_forall. intros x Hx. rewrite Forall_forall in IH, Hi. simpl. auto.
  - inversion Hv as [| | | | |? Hnd He]; subst. simpl json_dumps. rewrite !chars_app, !is_ascii_app.
    rewrite concat_ascii; [done..|]. apply Forall_map.
    assert (Hall : ∀ l, Forall (λ e : string * json, is_ascii (chars (json_dumps sort_keys isep ksep e.2)) = true) l →
      Forall (λ e : string * string, is_ascii (chars e.2) = true)
        ((fix go (es : list (string * json)) : list (string * string) :=
            match es with [] => [] | (k, x) :: es' => (k, json_dumps sort_keys isep ksep x) :: go es' end) l)).
    { intros l Hl. induction Hl as [|[k x] l Hx Hl IHl]; [constructor|]. constructor; [exact Hx|exact IHl]. }
    match goal with |- Forall _ (arrange _ ?l) => assert (Hl : Forall (λ e : string * string, is_ascii (chars e.2) = true) l) end.
    { apply Hall, Forall_forall. intros e He'. rewrite Forall_forall in IH, He. apply IH; [done|by apply He]. }
    rewrite Forall_forall in *. intros e Hin. rewrite !chars_app, !is_ascii_app, json_string_ascii, ksep_ascii. simpl.
    apply Hl. revert Hin. unfold arrange. destruct sort_keys; [|done]. apply elem_of_order_by.
Qed.
End dumps.

Lemma assoc_NoDup {V} key (v : V) l : NoDup l.*1 → (key, v) ∈ l → assoc key l = Some v.
Proof.
  induction l as [|[k x] l IH]; [by intros _ ?%elem_of_nil|]. rewrite fmap_cons, NoDup_cons, elem_of_cons. simpl.
  intros [Hk Hnd] [[= <- <-]|Hin]; [by rewrite decide_True|].
  destruct (decide (k = key)) as [->|]; [|auto]. destruct Hk. apply list_elem_of_fmap. by exists (key, v).
Qed.

Lemma json_eqb_refl v : readable v → json_eqb v v = true.
Proof.
  induction v as [|b|n|x|s|items IH|entries IH] using json_nested_ind; intros Hv.
  - done.
  - by destruct b.
  - apply Z.eqb_refl.
  - inversion Hv.
  - by apply bool_decide_eq_true.
  - inversion Hv as [| | | |? Hi|]; subst. simpl.
    induction items as [|v items IHi]; [done|]. apply Forall_cons in IH as [IHv IH], Hi as [Hv' Hi].
    rewrite (IHv Hv'). simpl. apply IHi; [done| |done]. by constructor.
  - inversion Hv as [| | | | |? Hnd He]; subst. simpl. rewrite Nat.eqb_refl. simpl.
    assert (Hall : ∀ l, l ⊆ entries → (fix go (es : list (string * json)) : bool :=
      match es with
      | [] => true
      | (k, v) :: es' => match assoc k entries with Some w => json_eqb v w | None => false end && go es'
      end) l = true); [|by apply Hall].
    intros l. induction l as [|[k x] l IHl]; intros Hl; [done|].
    assert (Hin : (k, x) ∈ entries) by (apply Hl; left). rewrite (assoc_NoDup k x) by done.
    rewrite Forall_forall in IH, He.
    assert (json_eqb x x = true) as -> by exact (IH (k, x) Hin (He (k, x) Hin)). simpl. apply IHl. set_solver.
Qed.

(** ** Decoding what was encoded *)

Lemma decode_binding_entries b : decode_binding (binding_entries b) = Ok b.
Proof.
  destruct b as [o old new s p st pt cv cr ct]. unfold decode_binding, binding_entries, get_text, get_opt_text, get_dict, item_at.
  simpl. rewrite unhex_hex. destruct p as [p|]; simpl; [rewrite unhex_hex; simpl|]; by destruct pt.
Qed.

(** What the code relies on and Python's values satisfy: dictionaries, and
    integers and datetimes that print. *)
Record faithful (r : StagedUpdateRecord) : Prop := {
  faithful_old : NoDup (old_release (binding r)).*1;
  faithful_new : NoDup (new_release (binding r)).*1;
  faithful_owner : NoDup (owner r).*1;
  faithful_ints n : (∃ key, (key, JInt n) ∈ owner r) → short_int n;
  faithful_time d : switched_at r = Some d → representable d = true
}.

Section records.
Context `{Contracts} (limit : nat).

Lemma decode_record_entries r : faithful r → decode_fields (record_entries r) = Ok r.
Proof.
  intros Hf. destruct r as [b ph sq at' ow sw sc]. unfold decode_fields, record_entries, get_text, get_opt_text, get_dict, get_int, item_at.
  cbn [binding phase sequence attempt_id owner switched_at safe_code].
  simpl. rewrite decode_binding_entries. simpl. destruct at' as [a|]; simpl;
    (destruct sw as [d|]; simpl; [rewrite (iso_round_trip d) by by apply (faithful_time _ Hf)|]; by destruct sc).
Qed.

Ltac record_checks H := repeat (apply res_bind_Ok in H as (? & ? & H)).

Lemma valid_if_Ok c u : valid_if c = Ok u → c = true.
Proof. by destruct c. Qed.

(** Releases and owners are dictionaries of readable values. *)
Lemma keys_are_in keys (l : list (string * json)) e : keys_are keys l = true → e ∈ l → e.1 ∈ keys.
Proof.
  unfold keys_are. intros [Hk _]%andb_true_iff He. rewrite forallb_forall in Hk.
  apply list_elem_of_In in He. by apply str_in_elem, Hk.
Qed.

Lemma field_is_text key t l v : field_is key t l = true → assoc key l = Some v → ∃ s, v = JStr s.
Proof. unfold field_is. intros Hf Ha. rewrite Ha in Hf. destruct v; simpl in Hf; try done. by eexists. Qed.

Lemma text_at_text key P l v : text_at key P l = true → assoc key l = Some v → ∃ s, v = JStr s.
Proof. unfold text_at. intros Hf Ha. rewrite Ha in Hf. destruct v; try done. by eexists. Qed.

Lemma hash_at_text key l v u : hash_at key l = Ok u → assoc key l = Some v → ∃ s, v = JStr s.
Proof. unfold hash_at. intros Hf Ha. rewrite Ha in Hf. destruct v; try done. by eexists. Qed.

Lemma release_values l u e : _release l = Ok u → NoDup l.*1 → e ∈ l → ∃ s, e.2 = JStr s.
Proof.
  unfold _release. intros H' Hnd He. record_checks H'.
  repeat match goal with Hv : valid_if _ = Ok _ |- _ => apply valid_if_Ok in Hv end. propify.
  destruct e as [k v]. assert (Ha : assoc k l = Some v) by by apply assoc_NoDup.
  match goal with Hk : keys_are _ _ = true |- _ => apply (keys_are_in _ _ _ Hk) in He end. simpl in *.
  rewrite !elem_of_cons in He.
  destruct He as [->|[->|[->|[->|[->|[->|Hnil]]]]]]; [..|by apply elem_of_nil in Hnil];
    try first [eapply field_is_text; [|exact Ha]; eassumption | eapply text_at_text; [|exact Ha]; eassumption
      | eapply hash_at_text; [|exact Ha]; eassumption].
  destruct (item_at "version" l) as [w|] eqn:E; [|done].
  unfold item_at in E. rewrite Ha in E. injection E as <-. destruct v; try done. by eexists.
Qed.

Lemma release_readable l u : _release l = Ok u → NoDup l.*1 → readable (JObj l) ∧ json_depth (JObj l) = 1%nat.
Proof.
  intros Hr Hnd. assert (Hv : ∀ e, e ∈ l → ∃ s, e.2 = JStr s) by (intros e He; by eapply release_values).
  split.
  - constructor; [done|]. apply Forall_forall. intros e He. destruct (Hv e He) as [s ->]. constructor.
  - simpl. f_equal. clear Hr Hnd. induction l as [|e l IH]; [done|]. simpl.
    destruct (Hv e) as [s ->]; [by left|]. simpl. apply IH. intros e' He'. apply Hv. by right.
Qed.

Lemma owner_readable l u :
  _owner l = Ok u → NoDup l.*1 → (∀ n, (∃ key, (key, JInt n) ∈ l) → short_int n) →
  readable (JObj l) ∧ json_depth (JObj l) = 1%nat.
Proof.
  unfold _owner. intros H' Hnd Hint. record_checks H'.
  repeat match goal with Hv : valid_if _ = Ok _ |- _ => apply valid_if_Ok in Hv end. propify.
  assert (Hv : ∀ e, e ∈ l → (∃ s, e.2 = JStr s) ∨ (∃ b, e.2 = JBool b) ∨ (∃ n, e.2 = JInt n ∧ short_int n)).
  { intros [k v] He. assert (Ha : assoc k l = Some v) by by apply assoc_NoDup. pose proof He as He'.
    match goal with Hk : keys_are _ _ = true |- _ => apply (keys_are_in _ _ _ Hk) in He end. simpl in *.
    rewrite !elem_of_cons in He.
    destruct He as [->|[->|[->|[->|[->|Hnil]]]]]; [..|by apply elem_of_nil in Hnil];
      unfold positive_at in *; rewrite ?Ha in *; destruct v; try done; eauto 7;
      try (left; first [eapply text_at_text; [|exact Ha]; eassumption | eapply hash_at_text; [|exact Ha]; eassumption]). }
  split.
  - constructor; [done|]. apply Forall_forall. intros e He.
    destruct (Hv e He) as [[s ->]|[[b ->]|(n & -> & Hn)]]; by constructor.
  - simpl. f_equal. clear -Hv. induction l as [|e l IH]; [done|]. simpl.
    rewrite IH by (intros e' He'; apply Hv; by right). destruct (Hv e) as [[s ->]|[[b ->]|(n & -> & Hn)]]; [by left|done..].
Qed.

Lemma record_value_Ok r v : _record_value limit r = Ok v → v = record_entries r.
Proof. unfold _record_value. intros H'. record_checks H'. by injection H' as <-. Qed.

Lemma small_short n : 0 <= n <= 1024 → short_int n.
Proof.
  intros Hn. assert (Hall : forallb (λ k, (String.length (Z_str (Z.abs (Z.of_nat k))) <=? int_max_str_digits)%nat) (seq 0 1025) = true)
    by reflexivity.
  rewrite forallb_forall in Hall. specialize (Hall (Z.to_nat n)). rewrite Z2Nat.id in Hall by lia.
  apply Nat.leb_le, Hall, in_seq. lia.
Qed.

Lemma opt_readable {A} (f : A → json) o : (∀ a, o = Some a → readable (f a)) → readable (opt_json f o).
Proof. destruct o as [a|]; intros Hf; [by apply Hf|constructor]. Qed.

Lemma opt_depth {A} (f : A → json) o : (∀ a, json_depth (f a) = 0%nat) → json_depth (opt_json f o) = 0%nat.
Proof. by destruct o as [a|]; intros Hf; [apply Hf|]. Qed.

Ltac distinct := repeat constructor; rewrite ?elem_of_cons, ?elem_of_nil; naive_solver.

Lemma binding_readable b v :
  _binding_value limit b = Ok v → NoDup (old_release b).*1 → NoDup (new_release b).*1 →
  readable (JObj (binding_entries b)) ∧ json_depth (JObj (binding_entries b)) = 2%nat.
Proof.
  unfold _binding_value. intros H' Hold Hnew. record_checks H'.
  match goal with H1 : _release (old_release b) = Ok _, H2 : _release (new_release b) = Ok _ |- _ =>
    destruct (release_readable _ _ H1 Hold) as [Ro Do]; destruct (release_readable _ _ H2 Hnew) as [Rn Dn] end.
  split.
  - constructor; [simpl; distinct|]. unfold binding_entries.
    repeat (apply Forall_cons; split; [cbn [snd]; first [done | by constructor | apply opt_readable; intros; constructor]|]).
    constructor.
  - unfold binding_entries. cbn [json_depth map snd]. cbn [json_depth] in Do, Dn. rewrite Do, Dn.
    by rewrite !opt_depth.
Qed.

Lemma record_readable r v :
  _record_value limit r = Ok v → faithful r →
  readable (JObj (record_entries r)) ∧ json_depth (JObj (record_entries r)) = 3%nat.
Proof.
  intros H' Hf. unfold _record_value in H'. record_checks H'.
  repeat match goal with Hv : valid_if _ = Ok _ |- _ => apply valid_if_Ok in Hv end. propify.
  match goal with H1 : _binding_value _ _ = Ok _ |- _ =>
    destruct (binding_readable _ _ H1 (faithful_old _ Hf) (faithful_new _ Hf)) as [Rb Db] end.
  match goal with H1 : _owner _ = Ok _ |- _ =>
    destruct (owner_readable _ _ H1 (faithful_owner _ Hf) (faithful_ints _ Hf)) as [Ro Do] end.
  split.
  - constructor; [simpl; distinct|]. unfold record_entries.
    repeat (apply Forall_cons; split;
      [cbn [snd]; first [done | by constructor | by constructor; apply small_short | apply opt_readable; intros; constructor]|]).
    constructor.
  - unfold record_entries. cbn [json_depth map snd]. cbn [json_depth] in Do, Db. rewrite Do, Db. by rewrite !opt_depth.
Qed.

(** What [json.dumps] writes for a record. *)
Definition document (r : StagedUpdateRecord) : text_in := chars (json_dumps false "," ":" (JObj (record_entries r))).

Lemma document_read r v :
  _record_value limit r = Ok v → faithful r → (3 <= limit)%nat → Z.of_nat (length (document r)) <= _MAX_BYTES →
  read_json limit (document r) _MAX_BYTES = Ok v ∧ _decode_record limit v = Ok r.
Proof.
  intros Hr Hf Hlimit Hlen. destruct (record_readable r v Hr Hf) as [Rr Dr]. pose proof (record_value_Ok r v Hr) as ->.
  split.
  - unfold read_json. assert (0 < Z.of_nat (length (document r))).
    { unfold document. simpl json_dumps. rewrite !chars_app, length_app. simpl. lia. }
    rewrite (proj2 (Z.ltb_lt _ _)), (proj2 (Z.leb_le _ _)) by lia. cbn [andb negb].
    unfold decode_utf_8, document. rewrite dumps_ascii by done. cbn [res_bind].
    by rewrite loads_unsorted by (done || lia).
  - unfold _decode_record. rewrite (decode_record_entries r Hf). assert (keys_are ["schema_version"; "binding"; "binding_sha256"; "phase"; "sequence"; "attempt_id"; "owner";
      "switched_at"; "safe_code"] (record_entries r) = true) as -> by reflexivity.
    assert (field_is "schema_version" _SCHEMA (record_entries r) = true) as -> by reflexivity. cbn [andb valid_if res_bind].
    rewrite Hr. cbn [res_bind]. by rewrite json_eqb_refl.
Qed.

(** C0: a record that [_record_value] accepts is read back as it was: its JSON
    text parses to the accepted value, and decoding it gives the record. *)
Theorem record_round_trip r v :
  _record_value limit r = Ok v → faithful r → (3 <= limit)%nat → Z.of_nat (length (document r)) <= _MAX_BYTES →
  read_json limit (document r) _MAX_BYTES = Ok v ∧ _decode_record limit v = Ok r.
Proof. apply document_read. Qed.
End records.
