(* ===== verification/DurableFiles.v ===== *)
(** * Durable files of the Windows agent (pc_agent/platform/windows/durable_state.py)

    Files are published by writing and flushing a temporary, renaming it over
    the destination and flushing the directory.  The disk may lose what was not
    flushed; every call of the operating system, every checkpoint of the
    installer and every protection callback may fail, and the machine may stop
    before any of them. *)

From S2P Require Import Prelude Store AuditLog Contracts Json RuntimePayload.

(** ** The disk

    A path is the list of its parts, absolute. *)

Definition file_path : Type := list string.

Inductive file_kind := k_file | k_directory | k_link.
#[export] Instance file_kind_eq_dec : EqDecision file_kind.
Proof. solve_decision. Defined.

(** A name in a directory: the kind, the file it names, and the reparse attribute. *)
Record entry := { e_kind : file_kind; e_ino : Z; e_reparse : bool }.
#[export] Instance entry_eq_dec : EqDecision entry.
Proof. solve_decision. Defined.

(** A file: its bytes, and whether they are flushed. *)
Record inode := { i_data : text_in; i_synced : bool }.
#[export] Instance inode_eta : Eta inode := λ i, Build_inode (i_data i) (i_synced i).

(** What a name is now, and what it was since its directory was last flushed:
    after a crash it is one of these. *)
Record name_states := { latest : option entry; pending : list (option entry) }.
Definition possible (n : name_states) : list (option entry) := latest n :: pending n.

(** What one call of the operating system, or of a callback, does: it goes on
    (a write takes at most this many bytes), it raises, or the machine stops. *)
Inductive fate := goes_on (count : Z) | fails (e : exn) | stops.

Record Disk := {
  names : gmap file_path name_states;
  inodes : gmap Z inode;
  next_ino : Z;
  next_hex : nat → string;   (* uuid.uuid4().hex *)
  fates : nat → fate;
  calls : nat
}.
#[export] Instance Disk_eta : Eta Disk := λ d,
  Build_Disk (names d) (inodes d) (next_ino d) (next_hex d) (fates d) (calls d).

Definition name_at (p : file_path) (d : Disk) : name_states :=
  default {| latest := None; pending := [] |} (names d !! p).
Definition entry_at (p : file_path) (d : Disk) : option entry := latest (name_at p d).

(** The bytes a name gives now. *)
Definition bytes_at (p : file_path) (d : Disk) : option text_in :=
  e ← entry_at p d; i_data <$> inodes d !! e_ino e.

(** [st_nlink]: the names of a file. *)
Definition nlink (ino : Z) (d : Disk) : Z :=
  Z.of_nat (length (filter (λ n : file_path * name_states, e_ino <$> latest n.2 = Some ino) (map_to_list (names d)))).

(** [st_size] *)
Definition size_of (e : entry) (d : Disk) : Z :=
  from_option (λ i, Z.of_nat (length (i_data i))) 0 (inodes d !! e_ino e).

(** A new state of a name. *)
Definition rename_entry (p : file_path) (e : option entry) (d : Disk) : Disk :=
  d <| names := <[p := {| latest := e; pending := possible (name_at p d) |}]> (names d) |>.

Abbreviation IO := (M Disk).

(** An absent file is reported by the calls themselves, never as a failure. *)
Definition failure_of (e : exn) : exn := match e with FileNotFoundError p => OSError p | e => e end.

(** One call, under its fate. *)
Definition call {A} (f : Z → IO A) : IO A := λ d,
  let d' := d <| calls := S (calls d) |> in
  match fates d (calls d) with
  | goes_on n => f n d'
  | fails e => (Exn (failure_of e), d')
  | stops => (Exn PowerLoss, d')
  end.

(** [try: body finally: cleanup]; a machine that stopped cleans nothing up. *)
Definition try_finally {A} (body : IO A) (cleanup : IO unit) : IO A := λ d,
  match body d with
  | (Exn PowerLoss, d') => (Exn PowerLoss, d')
  | (r, d') => match cleanup d' with (Ok _, d'') => (r, d'') | (Exn e, d'') => (Exn e, d'') end
  end.

(** ** System calls *)

Definition not_found {A} (p : file_path) : IO A := raise (FileNotFoundError (String.concat "/" p)).

Definition change (f : Disk → Disk) : IO unit := λ d, (Ok tt, f d).
Definition look {A} (f : Disk → A) : IO A := λ d, (Ok (f d), d).

(** [path.lstat()] *)
Definition lstat (p : file_path) : IO entry :=
  call (λ _, found ← look (entry_at p); match found with Some e => mret e | None => not_found p end).

(** [os.open(path, O_WRONLY | O_CREAT | O_EXCL | O_NOFOLLOW)]: the descriptor is
    the file it opened. *)
Definition os_create (p : file_path) : IO Z :=
  call (λ _,
    found ← look (entry_at p);
    raise_if (is_some found) (OSError "FileExistsError") ;;
    ino ← look next_ino;
    change (λ d, rename_entry p (Some {| e_kind := k_file; e_ino := ino; e_reparse := false |})
                   (d <| inodes := <[ino := {| i_data := []; i_synced := false |}]> (inodes d) |>
                      <| next_ino := ino + 1 |>)) ;;
    mret ino).

(** [os.open(path, O_RDONLY | O_NOFOLLOW)]: what it opened. *)
Definition os_open (p : file_path) : IO entry :=
  call (λ _,
    found ← look (entry_at p);
    match found with
    | None => not_found p
    | Some e => raise_if (bool_decide (e_kind e = k_link)) (OSError "ELOOP") ;; mret e
    end).

(** [os.fstat(descriptor)], by its identity. *)
Definition fstat {A} (descriptor : A) : IO A := call (λ _, mret descriptor).

(** [os.read(descriptor, count)] after the bytes that were read: a byte at
    least, unless at the end. *)
Definition os_read (descriptor : entry) (position : nat) (count : Z) : IO text_in :=
  call (λ n,
    i ← look (λ d, inodes d !! e_ino descriptor);
    mret (take (Z.to_nat (Z.max 1 (Z.min n count))) (drop position (from_option i_data [] i)))).

(** [os.write(descriptor, data)] *)
Definition os_write (descriptor : Z) (data : text_in) : IO Z :=
  call (λ n,
    let written := Z.max 0 (Z.min n (Z.of_nat (length data))) in
    change (λ d, d <| inodes := alter (λ i, i <| i_data := i_data i ++ take (Z.to_nat written) data |>
                                              <| i_synced := false |>) descriptor (inodes d) |>) ;;
    mret written).

(** [os.fsync(descriptor)] *)
Definition fsync (descriptor : Z) : IO unit :=
  call (λ _, change (λ d, d <| inodes := alter (λ i, i <| i_synced := true |>) descriptor (inodes d) |>)).

(** [os.close(descriptor)] *)
Definition close {A} (descriptor : A) : IO unit := call (λ _, mret tt).

(** [os.replace(source, destination)] *)
Definition os_replace (source destination : file_path) : IO unit :=
  call (λ _,
    found ← look (entry_at source);
    match found with
    | None => not_found source
    | Some e => change (λ d, rename_entry source None (rename_entry destination (Some e) d))
    end).

(** [path.unlink()] *)
Definition unlink (p : file_path) : IO unit :=
  call (λ _,
    found ← look (entry_at p);
    match found with None => not_found p | Some _ => change (rename_entry p None) end).

(** [path.parent] *)
Definition parent (p : file_path) : file_path := take (length p - 1) p.
Definition path_name (p : file_path) : string := default "" (last p).
(** [path.with_name(name)] *)
Definition with_name (p : file_path) (name : string) : file_path := parent p ++ [name].

(** [os.fsync(descriptor)] and [FlushFileBuffers] of an opened directory. *)
Definition flush_names (directory : file_path) : IO unit :=
  call (λ _, change (λ d, d <| names :=
    map_imap (λ p n, Some (if decide (parent p = directory) then {| latest := latest n; pending := [] |} else n))
      (names d) |>)).

(** ** Checks *)

Section durable.
(** [os.name == "nt"], and whether an installer scope with its checkpoint and a
    scope with pinned reads are open. *)
Context (windows installer_scope pinned_reads : bool).

Definition installer_mutation_checkpoint (required : bool) : IO unit :=
  raise_if (negb installer_scope && required) (ValueError "installer mutation scope is absent") ;;
  when installer_scope (call (λ _, mret tt)) ;;
  when pinned_reads (call (λ _, mret tt)).

Definition _reject_reparse (details : entry) : IO unit :=
  raise_if (bool_decide (e_kind details = k_link) || e_reparse details)
    (ValueError "state path contains a symlink or reparse point").

(** [[*reversed(path.parents), path]] *)
Definition with_parents (p : file_path) : list file_path := map (λ n, take n p) (seq 0 (S (length p))).

Definition _check_directories (p : file_path) : IO unit :=
  for_each (with_parents p) (λ directory,
    details ← lstat directory;
    _reject_reparse details ;;
    raise_if (negb (bool_decide (e_kind details = k_directory))) (ValueError "state parent is not a directory")).

(** [destination.relative_to(root)] *)
Fixpoint relative_to (p root : file_path) : option file_path :=
  match root, p with
  | [], p => Some p
  | r :: root, x :: p => if decide (x = r) then relative_to p root else None
  | _ :: _, [] => None
  end.

(** [part.endswith((".", " "))] *)
Definition ends_badly (part : string) : bool :=
  match rev (chars part) with c :: _ => in_set (code c) [46; 32] | [] => false end.

Definition _checked_path (p trusted_root : file_path) : IO file_path :=
  raise_if (str_in ".." p || str_in ".." trusted_root) (ValueError "state path escapes trusted root") ;;
  relative ← require (relative_to p trusted_root) (ValueError "state path escapes trusted root");
  raise_if (bool_decide (relative = []) || existsb (λ part, existsb (λ c, code c =? 58) (chars part)) relative)
    (ValueError "state path must be a file within trusted root") ;;
  raise_if (windows && existsb (λ part, ends_badly part || is_reserved (chars part)) relative)
    (ValueError "state path contains an unsafe Windows alias") ;;
  _check_directories (parent p) ;;
  details ← try_except (e ← lstat p; mret (Some e))
              (λ e, match e with FileNotFoundError _ => Some (mret None) | _ => None end);
  match details with
  | None => mret p
  | Some details =>
      _reject_reparse details ;;
      raise_if (negb (bool_decide (e_kind details = k_file))) (ValueError "state destination is not a regular file") ;;
      mret p
  end.

Definition _check_temporary (p root : file_path) (identity : Z) : IO unit :=
  _checked_path p root ;;
  details ← lstat p;
  links ← look (nlink (e_ino details));
  raise_if (negb (e_ino details =? identity) || negb (links =? 1)) (ValueError "unsafe temporary state file identity").

Definition is_power_loss (e : exn) : bool := match e with PowerLoss => true | _ => false end.

Definition _remove_temporary (p root : file_path) (identity : Z) : IO unit :=
  safe ← try_except (_check_temporary p root identity ;; mret true)
           (λ e, match e with FileNotFoundError _ => Some (mret false) | _ => None end);
  when safe (
    live ← try_except (installer_mutation_checkpoint false ;; mret true)
             (λ e, if is_power_loss e then None else Some (mret false));
    when live (unlink p)).

Definition flush_directory (p : file_path) : IO unit :=
  _check_directories p ;;
  installer_mutation_checkpoint false ;;
  handle ← os_open p;
  try_finally
    (when windows (call (λ _, raise_if (e_reparse handle) (ValueError "directory handle is a reparse point"))) ;;
     flush_names p)
    (close handle).

(** ** Publication *)

(** [while remaining: ...], a byte at least per turn. *)
Fixpoint write_all (fuel : nat) (descriptor : Z) (remaining : text_in) : IO unit :=
  match fuel, remaining with
  | _, [] => mret tt
  | O, _ => raise (OSError "short write of durable state")
  | S fuel, _ =>
      written ← os_write descriptor remaining;
      raise_if (written <=? 0) (OSError "short write of durable state") ;;
      write_all fuel descriptor (drop (Z.to_nat written) remaining)
  end.

(** The name of a temporary. *)
Definition temporary_of (destination : file_path) (hex : string) : file_path :=
  with_name destination ("." +:+ path_name destination +:+ "." +:+ hex +:+ ".tmp").

(** The temporary that was opened, filled, protected and flushed. *)
Definition fill_temporary (temporary trusted_root : file_path) (descriptor identity : Z) (protect : bool) (data : text_in) : IO unit :=
  try_finally
    (_check_temporary temporary trusted_root identity ;;
     when protect (call (λ _, mret tt)) ;;
     _check_temporary temporary trusted_root identity ;;
     installer_mutation_checkpoint false ;;
     write_all (length data) descriptor data ;;
     fsync descriptor)
    (close descriptor).

Definition write_bytes_atomic (p : file_path) (data : text_in) (trusted_root : file_path) (max_bytes : Z) (protect : bool)
    : IO unit :=
  raise_if (max_bytes <=? 0) (ValueError "max_bytes must be a positive integer") ;;
  raise_if (max_bytes <? Z.of_nat (length data)) (ValueError "state size exceeds max_bytes") ;;
  destination ← _checked_path p trusted_root;
  hex ← look (λ d, next_hex d (calls d));
  let temporary := temporary_of destination hex in
  _checked_path temporary trusted_root ;;
  installer_mutation_checkpoint false ;;
  descriptor ← os_create temporary;
  identity ← try_except (fstat descriptor)
               (λ e, if is_power_loss e then None else Some (close descriptor ;; raise e));
  try_finally
    (fill_temporary temporary trusted_root descriptor identity protect data ;;
     _checked_path destination trusted_root ;;
     _check_temporary temporary trusted_root identity ;;
     installer_mutation_checkpoint false ;;
     os_replace temporary destination ;;
     flush_directory (parent destination))
    (_remove_temporary temporary trusted_root identity).

(** [while len(data) <= max_bytes: ...] *)
Fixpoint read_all (fuel : nat) (descriptor : entry) (max_bytes : Z) (data : text_in) : IO text_in :=
  if max_bytes <? Z.of_nat (length data) then mret data else
  match fuel with
  | O => mret data
  | S fuel =>
      block ← os_read descriptor (length data) (Z.min 4096 (max_bytes + 1 - Z.of_nat (length data)));
      match block with [] => mret data | _ => read_all fuel descriptor max_bytes (data ++ block) end
  end.

(** The prepared file, opened and compared. *)
Definition check_prepared (prepared trusted_root : file_path) (expected_bytes : text_in) (max_bytes : Z) (validate : bool)
    (descriptor : entry) : IO Z :=
  identity ← fstat descriptor;
  _reject_reparse identity ;;
  _check_temporary prepared trusted_root (e_ino identity) ;;
  size ← look (size_of identity);
  raise_if (negb (bool_decide (e_kind identity = k_file)) || negb (size =? Z.of_nat (length expected_bytes)))
    (ValueError "prepared state size is invalid") ;;
  when validate (call (λ _, mret tt)) ;;
  data ← read_all (S (Z.to_nat max_bytes)) descriptor max_bytes [];
  raise_if (negb (bool_decide (data = expected_bytes))) (ValueError "prepared state contents differ") ;;
  _check_temporary prepared trusted_root (e_ino identity) ;;
  mret (e_ino identity).

Definition publish_prepared (source p : file_path) (expected_bytes : text_in) (trusted_root : file_path) (max_bytes : Z)
    (validate : bool) : IO unit :=
  raise_if (max_bytes <=? 0) (ValueError "max_bytes must be a positive integer") ;;
  raise_if (max_bytes <? Z.of_nat (length expected_bytes)) (ValueError "prepared state bytes exceed bound") ;;
  prepared ← _checked_path source trusted_root;
  destination ← _checked_path p trusted_root;
  raise_if (bool_decide (prepared = destination) || negb (bool_decide (parent prepared = parent destination)))
    (ValueError "prepared state must be a different same-parent file") ;;
  descriptor ← os_open prepared;
  identity ← try_finally (check_prepared prepared trusted_root expected_bytes max_bytes validate descriptor)
               (close descriptor);
  _checked_path destination trusted_root ;;
  _check_temporary prepared trusted_root identity ;;
  installer_mutation_checkpoint false ;;
  os_replace prepared destination ;;
  flush_directory (parent destination).

Definition durable_unlink (p trusted_root : file_path) (missing_ok : bool) : IO unit :=
  destination ← _checked_path p trusted_root;
  installer_mutation_checkpoint false ;;
  try_except (unlink destination)
    (λ e, match e with FileNotFoundError _ => if missing_ok then Some (mret tt) else None | _ => None end) ;;
  flush_directory (parent destination).
End durable.

(** ** JSON documents *)

(** [json.dumps] prints the value: no NaN or infinity, no integer beyond the
    limit of the interpreter. *)
Fixpoint dumpable (v : json) : bool :=
  match v with
  | JInt n => (String.length (Z_str (Z.abs n)) <=? int_max_str_digits)%nat
  | JFloat (S754_nan | S754_infinity _) => false
  | JList items => forallb dumpable items
  | JObj entries => forallb (λ e : string * json, dumpable e.2) entries
  | _ => true
  end.

Definition write_json_atomic `{Contracts} (windows installer_scope pinned_reads : bool) (p : file_path) (payload : json)
    (trusted_root : file_path) (max_bytes : Z) (protect : bool) : IO unit :=
  raise_if (negb (dumpable payload)) (ValueError "Out of range float values are not JSON compliant") ;;
  write_bytes_atomic windows installer_scope pinned_reads p (chars (json_dumps false "," ":" payload)) trusted_root
    max_bytes protect.
