(* ===== verification/DurableFilesSpecs.v ===== *)
(** * Publication is atomic

    Whatever the operating system and the callbacks do, and wherever the machine
    stops, the destination of [write_bytes_atomic] holds its old bytes or all
    of the new ones, and after a return the new ones for good. *)

From S2P Require Import Prelude Store AuditLog Frames SemverFacts Json RuntimePayload DurableFiles.

(** ** Crashes *)

(** The disk that the machine finds after it stopped: a name is in one of its
    states since the last flush of its directory, and only flushed bytes are
    sure to be there. *)
Record crashed (d d' : Disk) : Prop := {
  crashed_names p : ∃ e, e ∈ possible (name_at p d) ∧ name_at p d' = {| latest := e; pending := [] |};
  crashed_synced ino i : inodes d !! ino = Some i → i_synced i = true → inodes d' !! ino = Some i;
  crashed_inodes ino : is_Some (inodes d !! ino) ↔ is_Some (inodes d' !! ino);
  crashed_next : next_ino d' = next_ino d
}.

(** What a name may give after a crash is flushed, and in [S]. *)
Definition holds_entry (S : option text_in → Prop) (d : Disk) (e : option entry) : Prop :=
  match e with
  | None => S None
  | Some e => e_kind e = k_file ∧ e_ino e < next_ino d
      ∧ ∃ i, inodes d !! e_ino e = Some i ∧ i_synced i = true ∧ S (Some (i_data i))
  end.

Definition holds (p : file_path) (S : option text_in → Prop) (d : Disk) : Prop :=
  Forall (holds_entry S d) (possible (name_at p d)).

(** The same, and the directory is flushed. *)
Definition durably (p : file_path) (S : option text_in → Prop) (d : Disk) : Prop :=
  pending (name_at p d) = [] ∧ holds p S d.

(** A name that gives [c] now and after every crash. *)
Definition durable_file (p : file_path) (c : option text_in) (d : Disk) : Prop := durably p (λ c', c' = c) d.

Lemma holds_entry_mono (S S' : option text_in → Prop) d e : (∀ c, S c → S' c) → holds_entry S d e → holds_entry S' d e.
Proof. destruct e; simpl; [|auto]. intros HS (? & ? & i & ? & ? & ?). split_and!; [done..|]. exists i. auto. Qed.

Lemma holds_mono p (S S' : option text_in → Prop) d : (∀ c, S c → S' c) → holds p S d → holds p S' d.
Proof. intros HS H. eapply Forall_impl; [exact H|]. intros e. by apply holds_entry_mono. Qed.

Lemma durably_mono p (S S' : option text_in → Prop) d : (∀ c, S c → S' c) → durably p S d → durably p S' d.
Proof. intros HS [Hp H]. split; [done|by eapply holds_mono]. Qed.

Lemma holds_now p S d : holds p S d → S (bytes_at p d).
Proof.
  unfold holds, possible. rewrite Forall_cons. intros [H _]. unfold bytes_at, entry_at.
  destruct (latest _); simpl in *; [|done]. by destruct H as (_ & _ & i & -> & _ & H).
Qed.

Lemma holds_crash p S d d' : crashed d d' → holds p S d → durably p S d'.
Proof.
  intros Hc H. destruct (crashed_names _ _ Hc p) as (e & He & Hn). unfold durably, holds. rewrite Hn. split; [done|].
  apply Forall_singleton. unfold holds in H. rewrite Forall_forall in H. specialize (H e He). simpl in *.
  destruct e as [e|]; simpl in *; [|done]. destruct H as (Hk & Hlt & i & Hi & Hs & H).
  rewrite (crashed_next _ _ Hc). split_and!; [done..|]. exists i. split; [|done]. by apply (crashed_synced _ _ Hc).
Qed.

(** ** What reads leave alone *)

Definition quiet (d d' : Disk) : Prop := names d' = names d ∧ inodes d' = inodes d ∧ next_ino d' = next_ino d.
#[export] Instance quiet_preorder : PreOrder quiet.
Proof. unfold quiet. split; [by intros d|]. intros d1 d2 d3 (? & ? & ?) (? & ? & ?). split_and!; congruence. Qed.

Definition quietly {A} (m : IO A) : Prop := ∀ d, quiet d (m d).2.

Lemma quietly_ret {A} (a : A) : quietly (mret a).
Proof. intros d. reflexivity. Qed.
Lemma quietly_raise {A} e : quietly (raise (A := A) e).
Proof. intros d. reflexivity. Qed.
Lemma quietly_raise_if c e : quietly (raise_if c e).
Proof. intros d. by destruct c. Qed.
Lemma quietly_require {A} (o : option A) e : quietly (require o e).
Proof. intros d. by destruct o. Qed.
Lemma quietly_look {A} (f : Disk → A) : quietly (look f).
Proof. intros d. reflexivity. Qed.
Lemma quietly_bind {A B} (m : IO A) (k : A → IO B) : quietly m → (∀ a, quietly (k a)) → quietly (m ≫= k).
Proof.
  intros Hm Hk d. specialize (Hm d). unfold mbind, M_bind. destruct (m d) as [[a|e] d']; [|done].
  etrans; [exact Hm|apply Hk].
Qed.
Lemma quietly_when c (m : IO unit) : quietly m → quietly (when c m).
Proof. intros Hm d. destruct c; [apply Hm|reflexivity]. Qed.
Lemma quietly_try {A} (m : IO A) h : quietly m → (∀ e m', h e = Some m' → quietly m') → quietly (try_except m h).
Proof.
  intros Hm Hh d. specialize (Hm d). unfold try_except. destruct (m d) as [[a|e] d']; [done|].
  destruct (h e) eqn:E; [|done]. etrans; [exact Hm|by eapply Hh].
Qed.
Lemma quietly_for_each {A} (l : list A) body : (∀ x, quietly (body x)) → quietly (for_each l body).
Proof. intros Hb. induction l as [|x l IH]; [apply quietly_ret|]. apply quietly_bind; [apply Hb|done]. Qed.
Lemma quietly_call {A} (f : Z → IO A) : (∀ n, quietly (f n)) → quietly (call f).
Proof.
  intros Hf d. unfold call. destruct (fates d (calls d)) as [n| |]; [|by split..].
  etrans; [|apply Hf]. by split.
Qed.

Lemma quietly_finally {A} (body : IO A) cleanup : quietly body → quietly cleanup → quietly (try_finally body cleanup).
Proof.
  intros Hb Hc d. specialize (Hb d). unfold try_finally. destruct (body d) as [r d1]. simpl in Hb.
  specialize (Hc d1). destruct r as [a|e].
  - destruct (cleanup d1) as [[]?]; simpl in *; by etrans.
  - destruct e; simpl in *; try done; destruct (cleanup d1) as [[]?]; simpl in *; by etrans.
Qed.

Create HintDb quiet.
Ltac quietly :=
  repeat lazymatch goal with
  | |- ∀ _, _ => intro
  | |- quietly (mret _) => apply quietly_ret
  | |- quietly (raise _) => apply quietly_raise
  | |- quietly (raise_if _ _) => apply quietly_raise_if
  | |- quietly (require _ _) => apply quietly_require
  | |- quietly (look _) => apply quietly_look
  | |- quietly (mbind _ _) => apply quietly_bind
  | |- quietly (when _ _) => apply quietly_when
  | |- quietly (for_each _ _) => apply quietly_for_each
  | |- quietly (call _) => apply quietly_call
  | |- quietly (try_finally _ _) => apply quietly_finally
  | |- quietly (try_except _ _) =>
      apply quietly_try; [|let H := fresh in intros ? ? H; cbv beta in H; repeat case_match; try discriminate H; injection H as <-]
  | |- quietly (match ?x with _ => _ end) => destruct x
  | |- quietly ?m => first [solve [eauto with quiet] |
      let h := head_of m in progress unfold h]
  end.

Lemma entry_at_quiet q d d' : quiet d d' → entry_at q d' = entry_at q d.
Proof. unfold entry_at, name_at. by intros (-> & _). Qed.

(** A quiet step of a computation. *)
Lemma wp_quietly {A} (m : IO A) (Q : res A → Disk → Prop) d :
  quietly m → (∀ r d', quiet d d' → Q r d') → wp m Q d.
Proof. intros Hm HQ. rewrite wp_unfold. apply HQ, Hm. Qed.

Lemma wp_quiet_bind {A B} (m : IO A) (k : A → IO B) (Q : res B → Disk → Prop) d :
  quietly m → (∀ e d', quiet d d' → Q (Exn e) d') → (∀ a d', quiet d d' → wp (k a) Q d') → wp (m ≫= k) Q d.
Proof. intros Hm He Hk. apply wp_bind, wp_quietly; [done|]. intros [a|e] d' Hd; simpl; auto. Qed.

(** The same, after the quiet steps of [Hq]. *)
Ltac quiet_step Hq :=
  apply wp_quiet_bind;
    [quietly
    |let H := fresh in intros ? ? H; pose proof (transitivity Hq H); clear H
    |let H := fresh in let H' := fresh in
     intros ? ? H; pose proof (transitivity Hq H) as H'; clear Hq H; rename H' into Hq].

Lemma wp_call {A} (f : Z → IO A) (Q : res A → Disk → Prop) d :
  (∀ n d', quiet d d' → wp (f n) Q d') → (∀ e d', quiet d d' → Q (Exn e) d') → wp (call f) Q d.
Proof.
  intros Hf He. rewrite wp_unfold. unfold call. destruct (fates d (calls d)) as [n|e|]; simpl; [|apply He; by split..].
  rewrite <- wp_unfold. apply Hf. by split.
Qed.

Lemma wp_call_failure {A} (f : Z → IO A) (Q : res A → Disk → Prop) d :
  (∀ n d', quiet d d' → wp (f n) Q d') →
  (∀ e d', quiet d d' → (∀ q, e ≠ FileNotFoundError q) → Q (Exn e) d') → wp (call f) Q d.
Proof.
  intros Hf He. rewrite wp_unfold. unfold call. destruct (fates d (calls d)) as [n|e|]; simpl.
  - rewrite <- wp_unfold. apply Hf. by split.
  - apply He; [by split|]. by destruct e.
  - apply He; [by split|done].
Qed.

Lemma wp_look {A} (f : Disk → A) (Q : res A → Disk → Prop) d : Q (Ok (f d)) d → wp (look f) Q d.
Proof. by rewrite wp_unfold. Qed.
Lemma wp_change (f : Disk → Disk) (Q : res unit → Disk → Prop) d : Q (Ok tt) (f d) → wp (change f) Q d.
Proof. by rewrite wp_unfold. Qed.

(** A property of the disk that the clean-up keeps. *)
Lemma wp_finally {A} (body : IO A) (cleanup : IO unit) (I : Disk → Prop) (P : A → Disk → Prop) d :
  wp body (λ r d', I d' ∧ match r with Ok a => P a d' | Exn _ => True end) d →
  (∀ d1, I d1 → wp cleanup (λ r d2, I d2) d1) →
  (∀ a d1, I d1 → P a d1 → wp cleanup (λ r d2, P a d2) d1) →
  wp (try_finally body cleanup) (λ r d', I d' ∧ match r with Ok a => P a d' | Exn _ => True end) d.
Proof.
  intros Hb HI HP. rewrite !wp_unfold in *. unfold try_finally. destruct (body d) as [r d1]. simpl in Hb.
  destruct Hb as [H1 H2]. specialize (HI d1 H1). rewrite wp_unfold in HI.
  destruct r as [a|e].
  - specialize (HP a d1 H1 H2). rewrite wp_unfold in HP. by destruct (cleanup d1) as [[]?].
  - destruct e; simpl; try (by split); destruct (cleanup d1) as [[]?]; by split.
Qed.

Section durable.
Context (windows scope pinned : bool).

Lemma checked_path_quiet p root : quietly (_checked_path windows p root).
Proof. quietly. Qed.
Lemma check_temporary_quiet p root identity : quietly (_check_temporary windows p root identity).
Proof. quietly. Qed.
Lemma checkpoint_quiet required : quietly (installer_mutation_checkpoint scope pinned required).
Proof. quietly. Qed.
Lemma check_directories_quiet p : quietly (_check_directories p).
Proof. quietly. Qed.
Lemma read_all_quiet fuel descriptor bound data : quietly (read_all fuel descriptor bound data).
Proof. revert data. induction fuel as [|fuel IH]; intros data; quietly; apply IH. Qed.
End durable.
#[export] Hint Resolve checked_path_quiet check_temporary_quiet checkpoint_quiet check_directories_quiet
  read_all_quiet : quiet.

Lemma name_at_sync d names' directory q :
  names' = map_imap (λ p n, Some (if decide (parent p = directory) then {| latest := latest n; pending := [] |} else n)) (names d) →
  name_at q (d <| names := names' |>)
  = if decide (parent q = directory) then {| latest := entry_at q d; pending := [] |} else name_at q d.
Proof.
  intros ->. unfold entry_at, name_at. simpl. rewrite map_lookup_imap.
  destruct (names d !! q) as [n|]; simpl; by destruct (decide _).
Qed.

(** The directory is flushed. *)
Definition synced_directory (directory : file_path) (d d' : Disk) : Prop :=
  inodes d' = inodes d ∧ next_ino d' = next_ino d
  ∧ ∀ q, name_at q d' = if decide (parent q = directory) then {| latest := entry_at q d; pending := [] |} else name_at q d.

Lemma synced_quiet directory d d1 d2 : synced_directory directory d d1 → quiet d1 d2 → synced_directory directory d d2.
Proof. unfold synced_directory, name_at. intros H (-> & -> & ->). exact H. Qed.

Lemma flush_directory_syncs (windows scope pinned : bool) directory d :
  wp (flush_directory windows scope pinned directory)
    (λ r d', (quiet d d' ∨ synced_directory directory d d')
      ∧ match r with Ok _ => synced_directory directory d d' | Exn _ => True end) d.
Proof.
  unfold flush_directory. assert (Hq : quiet d d) by done. do 3 (quiet_step Hq; [by split; [left|]|]).
  match goal with |- wp _ _ ?dx => rename dx into d1 end.
  apply (wp_finally _ _ (λ d', quiet d d' ∨ synced_directory directory d d') (λ _ d', synced_directory directory d d')).
  - quiet_step Hq; [by split; [left|]|].
    unfold flush_names. apply wp_call; [|intros e d4 H; split; [left; exact (transitivity Hq H)|done]].
    intros n d4 H. pose proof (transitivity Hq H) as (Hn & Hi & Hx). apply wp_change.
    assert (Hs : ∀ d5, d5 = d4 <| names := map_imap (λ p n, Some (if decide (parent p = directory)
      then {| latest := latest n; pending := [] |} else n)) (names d4) |> → synced_directory directory d d5); [|by split; [right|]; apply Hs].
    intros d5 ->. split_and!; [done..|]. intros q. erewrite name_at_sync by done. unfold entry_at, name_at. by rewrite Hn.
  - intros d4 [H|H]; (apply wp_quietly; [quietly|]); intros r d5 H5; [left; exact (transitivity H H5)|right; by eapply synced_quiet].
  - intros u d4 _ H. apply wp_quietly; [quietly|]. intros r d5 H5. by eapply synced_quiet.
Qed.

(** ** Stages of a publication

    [tmp] is the name that is prepared, [p] the destination, [d0] the disk at
    the start. *)

Section stages.
Context (d0 : Disk) (tmp p : file_path) (data : text_in).
Hypothesis apart : tmp ≠ p.

Lemma name_at_rename q q' e d :
  name_at q (rename_entry q' e d)
  = if decide (q = q') then {| latest := e; pending := possible (name_at q' d) |} else name_at q d.
Proof.
  unfold rename_entry, name_at at 1. simpl. destruct (decide (q = q')) as [->|Hne].
  - by rewrite lookup_insert_eq.
  - by rewrite lookup_insert_ne.
Qed.

(** Files of the start are as they were. *)
Definition old_files (d : Disk) : Prop :=
  next_ino d0 ≤ next_ino d ∧ ∀ k, k < next_ino d0 → inodes d !! k = inodes d0 !! k.

(** Nothing but [tmp] has changed. *)
Definition unpublished (d : Disk) : Prop := old_files d ∧ ∀ q, q ≠ tmp → name_at q d = name_at q d0.

(** [p] is renamed, and what it names is flushed. *)
Definition published (d : Disk) : Prop :=
  old_files d
  ∧ (∀ q, q ≠ tmp → q ≠ p → entry_at q d = entry_at q d0 ∧ pending (name_at q d) ∈ [pending (name_at q d0); []])
  ∧ pending (name_at p d) ∈ [possible (name_at p d0); []]
  ∧ entry_at tmp d = None
  ∧ ∃ e, entry_at p d = Some e ∧ e_kind e = k_file ∧ e_ino e < next_ino d
      ∧ inodes d !! e_ino e = Some {| i_data := data; i_synced := true |}.

(** ... for good. *)
Definition flushed (d : Disk) : Prop := published d ∧ pending (name_at p d) = [].

Definition staged (d : Disk) : Prop := unpublished d ∨ published d.

(** A step on [tmp] alone. *)
Definition on_temporary (d d' : Disk) : Prop :=
  inodes d' = inodes d ∧ next_ino d' = next_ino d ∧ (entry_at tmp d = None → entry_at tmp d' = None)
  ∧ ∀ q, q ≠ tmp → name_at q d' = name_at q d.

Lemma quiet_on_temporary d d' : quiet d d' → on_temporary d d'.
Proof. intros (Hn & Hi & Hx). unfold on_temporary, entry_at, name_at. by rewrite Hn. Qed.

Lemma unpublished_step d d' : on_temporary d d' → unpublished d → unpublished d'.
Proof.
  intros (Hi & Hx & _ & Hn) ((Ho1 & Ho2) & Hu). split_and!; [split; [lia|]|].
  - intros k Hk. rewrite Hi. auto.
  - intros q Hq. rewrite Hn by done. auto.
Qed.

Lemma published_step d d' : on_temporary d d' → published d → published d'.
Proof.
  intros (Hi & Hx & Ht & Hn) ((Ho1 & Ho2) & Hu & Hp & Ht' & e & He & Hk & Hlt & Hd). unfold published, old_files, entry_at in *.
  rewrite Hx, Hi, (Hn p) by done. split_and!; [done..| |done|by apply Ht|eauto].
  intros q Hq Hqp. rewrite Hn by done. auto.
Qed.

Lemma flushed_step d d' : on_temporary d d' → flushed d → flushed d'.
Proof.
  intros Hs [Hp Hf]. split; [by eapply published_step|]. destruct Hs as (_ & _ & _ & Hn). by rewrite Hn.
Qed.

Lemma staged_step d d' : on_temporary d d' → staged d → staged d'.
Proof. intros Hs [H|H]; [left; by eapply unpublished_step|right; by eapply published_step]. Qed.

(** The clean-up touches [tmp] alone. *)
Lemma remove_temporary_on (windows scope pinned : bool) root identity d :
  wp (_remove_temporary windows scope pinned tmp root identity) (λ _ d', on_temporary d d') d.
Proof.
  unfold _remove_temporary. apply wp_quiet_bind; [quietly| |]; [intros e d1 H1; by apply quiet_on_temporary|].
  intros safe d1 H1. apply wp_when; intros _; [|by apply quiet_on_temporary].
  apply wp_quiet_bind; [quietly| |]; [intros e d2 H2; apply quiet_on_temporary; by etrans|].
  intros live d2 H2. assert (H : quiet d d2) by by etrans. clear d1 H1 H2.
  apply wp_when; intros _; [|by apply quiet_on_temporary].
  unfold unlink. apply wp_call; [|intros e d3 H3; apply quiet_on_temporary; by etrans].
  intros n d3 H3. assert (H' : quiet d d3) by by etrans. clear d2 H H3.
  apply wp_bind, wp_look. simpl. destruct (entry_at tmp d3).
  - apply wp_change. apply quiet_on_temporary in H' as (Hi & Hx & _ & Hn). split_and!; [done..| |].
    + intros _. unfold entry_at. by rewrite name_at_rename, decide_True.
    + intros q Hq. rewrite name_at_rename, decide_False by done. auto.
  - unfold not_found. apply wp_raise. by apply quiet_on_temporary.
Qed.

(** [flush_directory] of the directory of [p]. *)
Lemma flush_directory_flushes (windows scope pinned : bool) d :
  published d →
  wp (flush_directory windows scope pinned (parent p)) (λ r d', published d' ∧ match r with Ok _ => flushed d' | Exn _ => True end) d.
Proof using apart.
  intros Hp. eapply wp_mono; [apply flush_directory_syncs|]. intros r d' [H Hr].
  assert (Hfl : synced_directory (parent p) d d' → flushed d').
  { intros (Hi & Hx & Hsync). destruct Hp as (Ho & Hu & Hpp & Ht & e & He & Hd).
    split; [|by rewrite Hsync, decide_True by done]. unfold published, entry_at, old_files. rewrite Hi, Hx. split_and!; [apply Ho..| | | |].
    - intros q Hq Hqp. specialize (Hu q Hq Hqp) as [H1 H2]. rewrite Hsync. destruct (decide _); simpl; [|done].
      split; [done|set_solver].
    - rewrite Hsync, decide_True by done. simpl. set_solver.
    - rewrite Hsync. by destruct (decide _).
    - exists e. rewrite Hsync, decide_True by done. simpl. split; [done|exact Hd]. }
  split.
  - destruct H as [H|H]; [eapply published_step; [by apply quiet_on_temporary|done]|by apply Hfl].
  - destruct r; [by apply Hfl|done].
Qed.

(** The rename of a flushed [tmp] publishes. *)
Lemma replace_publishes d e :
  unpublished d → entry_at tmp d = Some e → e_kind e = k_file → e_ino e < next_ino d →
  inodes d !! e_ino e = Some {| i_data := data; i_synced := true |} →
  wp (os_replace tmp p) (λ r d', staged d' ∧ match r with Ok _ => published d' | Exn _ => True end) d.
Proof using apart.
  intros Hu Ht Hk Hlt Hd. unfold os_replace. apply wp_call.
  2:{ intros e' d' H. split; [|done]. left. eapply unpublished_step; [by apply quiet_on_temporary|done]. }
  intros n d1 H1. apply wp_bind, wp_look. simpl.
  assert (Ht1 : entry_at tmp d1 = Some e). { destruct H1 as (Hn & _). unfold entry_at, name_at. by rewrite Hn. }
  rewrite Ht1. apply wp_change.
  assert (Hu1 : unpublished d1) by (eapply unpublished_step; [by apply quiet_on_temporary|done]).
  destruct H1 as (_ & Hi & Hx).
  assert (Hname : ∀ q, q ≠ tmp → name_at q (rename_entry tmp None (rename_entry p (Some e) d1))
    = if decide (q = p) then {| latest := Some e; pending := possible (name_at p d1) |} else name_at q d1).
  { intros q Hq. rewrite name_at_rename, decide_False by done. apply name_at_rename. }
  assert (Htmp : entry_at tmp (rename_entry tmp None (rename_entry p (Some e) d1)) = None)
    by (unfold entry_at; by rewrite name_at_rename, decide_True).
  cbv beta iota. match goal with |- staged ?d ∧ _ => set (d4 := d) in * end.
  assert (Hi4 : inodes d4 = inodes d1) by done. assert (Hx4 : next_ino d4 = next_ino d1) by done. clearbody d4.
  assert (published d4); [|split; [by right|done]].
  destruct Hu1 as ((Ho1 & Ho2) & Hn). unfold published, old_files, entry_at. rewrite Hi4, Hx4.
  split_and!; [done..| | |done|].
  - intros q Hq Hqp. rewrite Hname, decide_False, Hn by done. split; [done|set_solver].
  - rewrite Hname, decide_True, Hn by done. simpl. set_solver.
  - exists e. rewrite Hname, decide_True by done. simpl. rewrite Hi, Hx. done.
Qed.

(** The temporary, opened by us. *)
Definition opened (ino : Z) (content : inode → Prop) (d : Disk) : Prop :=
  unpublished d ∧ entry_at tmp d = Some {| e_kind := k_file; e_ino := ino; e_reparse := false |}
  ∧ next_ino d0 ≤ ino < next_ino d ∧ ∃ i, inodes d !! ino = Some i ∧ content i.

Lemma opened_quiet ino content d d' : quiet d d' → opened ino content d → opened ino content d'.
Proof.
  intros Hq (Hu & Ht & Hlt & Hi). split; [by eapply unpublished_step; [apply quiet_on_temporary|]|].
  destruct Hq as (Hn & Hi' & Hx). unfold entry_at, name_at in *. rewrite Hn, Hi', Hx. done.
Qed.

Lemma create_opens d :
  quiet d0 d →
  wp (os_create tmp) (λ r d', match r with
    | Ok ino => entry_at tmp d0 = None ∧ opened ino (λ i, i_data i = []) d'
    | Exn _ => quiet d0 d' end) d.
Proof.
  intros Hq. unfold os_create. apply wp_call; [|intros; by etrans].
  intros n d1 H1. assert (H : quiet d0 d1) by by etrans. clear d Hq H1.
  apply wp_bind, wp_look. simpl. apply wp_bind, wp_raise_if; [done|]. simpl. intros Hnone.
  apply wp_bind, wp_look. simpl. apply wp_bind, wp_change. simpl. apply wp_ret. destruct H as (Hn & Hi & Hx).
  destruct (entry_at tmp d1) eqn:Ht; [done|]. split.
  { unfold entry_at, name_at in *. by rewrite Hn in Ht. }
  assert (Hname : ∀ q, name_at q (d1 <| inodes := <[next_ino d1:={| i_data := []; i_synced := false |}]> (inodes d1) |>
    <| next_ino := next_ino d1 + 1 |>) = name_at q d0) by (intros q; unfold name_at; simpl; by rewrite Hn).
  split_and!.
  - split.
    + split; simpl; [lia|]. intros k Hk. rewrite lookup_insert_ne by lia. by rewrite Hi.
    + intros q Hq. by rewrite name_at_rename, decide_False.
  - unfold entry_at. by rewrite name_at_rename, decide_True.
  - lia.
  - simpl. lia.
  - eexists. split; [apply lookup_insert_eq|done].
Qed.

(** A write to the opened file. *)
Lemma opened_alter ino (content content' : inode → Prop) f d :
  (∀ i, content i → content' (f i)) → opened ino content d →
  opened ino content' (d <| inodes := alter f ino (inodes d) |>).
Proof.
  intros Hf (((Ho1 & Ho2) & Hu) & Ht & Hlt & i & Hi & Hc). split_and!; [|done|lia|simpl; lia|].
  - split; [|done]. split; [done|]. simpl. intros k Hk. rewrite lookup_alter_ne by lia. auto.
  - exists (f i). simpl. rewrite lookup_alter_eq, Hi. auto.
Qed.

Lemma write_all_writes fuel ino (before remaining : text_in) d :
  opened ino (λ i, i_data i = before) d →
  wp (write_all fuel ino remaining) (λ r d', unpublished d' ∧ match r with
    | Ok _ => opened ino (λ i, i_data i = before ++ remaining) d' | Exn _ => True end) d.
Proof.
  revert before remaining d. induction fuel as [|fuel IH]; intros before remaining d Ho;
    (destruct remaining as [|b remaining];
      [simpl; apply wp_ret; rewrite app_nil_r; split; [apply Ho|done]|]).
  { simpl. apply wp_raise. split; [apply Ho|done]. }
  cbn [write_all]. unfold os_write. apply wp_bind, wp_call; [|intros e d1 H1; split; [|done]; by eapply opened_quiet in Ho as []].
  intros n d1 H1. eapply opened_quiet in Ho; [|done]. clear d H1.
  set (written := Z.max 0 (Z.min n (Z.of_nat (length (b :: remaining))))).
  apply wp_bind, wp_change. simpl. apply wp_ret. simpl.
  match goal with |- wp _ _ ?d => set (d2 := d) end.
  assert (H2 : opened ino (λ i, i_data i = before ++ take (Z.to_nat written) (b :: remaining)) d2).
  { eapply opened_alter; [|exact Ho]. simpl. intros i Hi. by rewrite Hi. }
  clearbody d2.
  apply wp_bind, wp_raise_if; intros _; simpl; [split; [apply H2|done]|].
  eapply wp_mono; [apply IH, H2|]. simpl. intros [u|e] d3 [Hu H3]; [|done]. split; [done|].
  rewrite <- app_assoc, take_drop in H3. done.
Qed.
End stages.

(** ** What a publication leaves *)

Lemma durable_entry p b d :
  durable_file p (Some b) d →
  ∃ e, entry_at p d = Some e ∧ e_kind e = k_file ∧ e_ino e < next_ino d
    ∧ inodes d !! e_ino e = Some {| i_data := b; i_synced := true |}.
Proof.
  intros [_ H]. apply Forall_cons in H as [H _]. unfold entry_at. destruct (latest _) as [e|]; simpl in H; [|done].
  destruct H as (Hk & Hlt & [b' s] & Hi & Hs & H). simpl in *. injection H as ->. subst s. by exists e.
Qed.


(** Now and after every crash [p] gives what it could give, or [new]; and [new]
    for good when the operation returned. *)
Definition atomically (p : file_path) (S : option text_in → Prop) (new : option text_in) (r : res unit) (d' : Disk) : Prop :=
  (∀ d'', d'' = d' ∨ crashed d' d'' → S (bytes_at p d'') ∨ bytes_at p d'' = new)
  ∧ holds p (λ c, S c ∨ c = new) d'
  ∧ match r with Ok _ => durable_file p new d' | Exn _ => True end.

Lemma atomically_holds p S new r d :
  holds p (λ c, S c ∨ c = new) d → match r with Ok _ => durable_file p new d | Exn _ => True end → atomically p S new r d.
Proof.
  intros H Hr. split_and!; [|done..]. intros d'' [->|Hc]; [by apply holds_now in H|].
  by eapply holds_crash, proj2, holds_now in H.
Qed.

(** The names that an operation leaves alone: all but those of [changed] and new temporaries. *)
Definition untouched (temporary changed : file_path → Prop) (d d' : Disk) : Prop :=
  ∀ q S, ¬ changed q → ¬ S None ∨ ¬ temporary q →
    (holds q S d → holds q S d') ∧ (durably q S d → durably q S d').

Section outcome.
Context (d0 : Disk) (tmp p : file_path).

Lemma old_entry S d e : old_files d0 d → holds_entry S d0 e → holds_entry S d e.
Proof.
  intros [Hx Ho]. destruct e as [e|]; simpl; [|done]. intros (Hk & Hlt & i & Hi & Hs & H).
  split_and!; [done|lia|]. exists i. by rewrite Ho.
Qed.

Lemma old_entries S d l : old_files d0 d → Forall (holds_entry S d0) l → Forall (holds_entry S d) l.
Proof. intros Ho H. eapply Forall_impl; [exact H|]. intros e. by apply old_entry. Qed.

Lemma published_holds S data d :
  published d0 tmp p data d → holds p S d0 → holds p (λ c, S c ∨ c = Some data) d.
Proof.
  intros (Ho & Hu & Hpp & Ht & e & He & Hk & Hlt & Hd) H. unfold holds, possible. apply Forall_cons. split.
  - unfold entry_at in He. rewrite He. simpl. split_and!; [done..|]. eexists. split_and!; [done..|by right].
  - eapply Forall_impl with (P := holds_entry S d); [|intros ?; apply holds_entry_mono; auto].
    apply (old_entries _ _ _ Ho). apply elem_of_cons in Hpp as [->| ->%list_elem_of_singleton]; [exact H|constructor].
Qed.

Lemma flushed_durable data d : flushed d0 tmp p data d → durable_file p (Some data) d.
Proof.
  intros [(Ho & Hu & Hpp & Ht & e & He & Hk & Hlt & Hd) Hf]. split; [done|]. unfold holds, possible. rewrite Hf.
  apply Forall_singleton. unfold entry_at in He. rewrite He. simpl. split_and!; [done..|]. by eexists.
Qed.

Lemma staged_untouched data d q S :
  staged d0 tmp p data d → q ≠ tmp → q ≠ p → (holds q S d0 → holds q S d) ∧ (durably q S d0 → durably q S d).
Proof.
  assert (Hold : old_files d0 d → entry_at q d = entry_at q d0 → pending (name_at q d) ∈ [pending (name_at q d0); []] →
    (holds q S d0 → holds q S d) ∧ (durably q S d0 → durably q S d)).
  { intros Ho He Hp. assert (Hh : holds q S d0 → holds q S d).
    { unfold holds, possible. unfold entry_at in He. rewrite He, !Forall_cons. intros [H1 H2].
      split; [by eapply old_entry|].
      apply elem_of_cons in Hp as [->| ->%list_elem_of_singleton]; [by eapply old_entries|constructor]. }
    split; [done|]. intros [Hp0 H]. split; [rewrite Hp0 in Hp; set_solver|auto]. }
  intros [[Ho Hu]|(Ho & Hu & _)] Hne Hnp.
  - apply Hold; [done|..]; unfold entry_at; rewrite Hu by done; [done|set_solver].
  - by destruct (Hu q Hne Hnp) as [He Hp]; apply Hold.
Qed.

Lemma unpublished_holds S d : tmp ≠ p → unpublished d0 tmp d → holds p S d0 → holds p S d.
Proof.
  intros Hne [Ho Hu] H. unfold holds. rewrite Hu by done. by eapply old_entries.
Qed.
End outcome.

Lemma quiet_unpublished d0 tmp d : quiet d0 d → unpublished d0 tmp d.
Proof. intros Hq. eapply unpublished_step; [by apply quiet_on_temporary|]. by repeat split. Qed.

(** ** Fuel

    A write takes a byte at least, so that as many turns as there are bytes are enough. *)

Lemma write_all_fuel descriptor more (remaining : text_in) d :
  write_all (length remaining + more) descriptor remaining d = write_all (length remaining) descriptor remaining d.
Proof.
  assert (H : ∀ fuel fuel' (remaining : text_in) d, (length remaining ≤ fuel)%nat → (length remaining ≤ fuel')%nat →
    write_all fuel descriptor remaining d = write_all fuel' descriptor remaining d); [|apply H; lia].
  clear. intros fuel. induction fuel as [|fuel IH]; intros [|fuel'] [|b remaining] d H1 H2; simpl in *; try done; try lia.
  unfold mbind, M_bind, raise_if. destruct (os_write descriptor (b :: remaining) d) as [[written|e] d1]; [|done].
  destruct (Z.leb_spec written 0); [done|]. apply IH; rewrite length_drop; simpl; lia.
Qed.

(** ** The operations *)

Section operations.
Context (windows scope pinned : bool).

Lemma checked_path_returns p root d :
  wp (_checked_path windows p root) (λ r d', quiet d d' ∧ match r with Ok x => x = p | Exn _ => True end) d.
Proof.
  pose proof (checked_path_quiet windows p root d) as Hq. rewrite wp_unfold. split; [done|]. clear Hq.
  enough (H : ∀ d, match (_checked_path windows p root d).1 with Ok x => x = p | Exn _ => True end) by apply H.
  clear d. intros d.
  assert (Hb : ∀ A B (m : IO A) (k : A → IO B) (P : B → Prop) d,
    (∀ a d', match (k a d').1 with Ok x => P x | Exn _ => True end) →
    match ((m ≫= k) d).1 with Ok x => P x | Exn _ => True end).
  { intros A B m k P d1 H. unfold mbind, M_bind. destruct (m d1) as [[a|e] d2]; [apply H|done]. }
  unfold _checked_path. repeat (apply (Hb _ _ _ _ (λ x, x = p)); intros ? ?).
  destruct a4; [|exact eq_refl]. repeat (apply (Hb _ _ _ _ (λ x, x = p)); intros ? ?). exact eq_refl.
Qed.

Section publish.
Context (d0 : Disk) (tmp p : file_path) (data : text_in).
Hypothesis apart : tmp ≠ p.

Lemma fill_fills root ino identity protect d :
  opened d0 tmp ino (λ i, i_data i = []) d →
  wp (fill_temporary windows scope pinned tmp root ino identity protect data)
    (λ r d', unpublished d0 tmp d' ∧ match r with
      | Ok _ => opened d0 tmp ino (λ i, i = {| i_data := data; i_synced := true |}) d' | Exn _ => True end) d.
Proof.
  intros Ho. unfold fill_temporary. apply wp_finally.
  2, 3: intros; apply wp_quietly; [quietly|]; intros; cbv beta;
    first [eapply opened_quiet; eassumption | eapply unpublished_step; [apply quiet_on_temporary; eassumption|eassumption]].
  assert (Hx : ∀ (e : exn) d1 d2, quiet d1 d2 → opened d0 tmp ino (λ i, i_data i = []) d1 → unpublished d0 tmp d2 ∧ True)
    by (intros e d1 d2 Hq Ho1; split; [by eapply opened_quiet in Ho1 as []|done]).
  do 4 (apply wp_quiet_bind; [quietly|by eauto|]; intros ? ? ?Hq; eapply opened_quiet in Ho; [|exact Hq]; clear dependent d;
    match goal with d' : Disk |- wp _ _ ?d' => rename d' into d end).
  eapply wp_use; [by apply write_all_writes| |]; cbv beta iota.
  2:{ intros e d1 [Hu _]. done. }
  intros _ d1 [_ H1]. unfold fsync. apply wp_call; [|intros e d2 H2; split; [|done]; by eapply opened_quiet in H1 as []].
  intros _ d2 H2. eapply opened_quiet in H1; [|done]. apply wp_change.
  eapply (opened_alter _ _ _ _ (λ i, i = {| i_data := data; i_synced := true |})) in H1; [split; [apply H1|exact H1]|].
  intros [bytes synced] Hi. simpl in *. by subst.
Qed.

(** From the rename on. *)
Lemma publish_ends root ino e d :
  unpublished d0 tmp d → entry_at tmp d = Some e → e_kind e = k_file → e_ino e < next_ino d →
  inodes d !! e_ino e = Some {| i_data := data; i_synced := true |} →
  wp (_checked_path windows p root ;; _check_temporary windows tmp root ino ;;
      installer_mutation_checkpoint scope pinned false ;; os_replace tmp p ;; flush_directory windows scope pinned (parent p))
    (λ r d', staged d0 tmp p data d' ∧ match r with Ok _ => flushed d0 tmp p data d' | Exn _ => True end) d.
Proof using apart.
  intros Hu He Hk Hlt Hd.
  assert (Hx : ∀ d', quiet d d' → staged d0 tmp p data d' ∧ True).
  { intros d' Hq. split; [left|done]. eapply unpublished_step; [by apply quiet_on_temporary|done]. }
  assert (Hq : quiet d d) by done.
  do 3 (quiet_step Hq; [by apply Hx|]).
  match type of Hq with quiet d ?d' => rename d' into d1 end.
  assert (Hu1 : unpublished d0 tmp d1) by (eapply unpublished_step; [by apply quiet_on_temporary|done]).
  destruct Hq as (Hn & Hi & Hnx).
  eapply wp_use; [apply (replace_publishes d0 tmp p data apart d1 e); try done|..]; cbv beta iota.
  - unfold entry_at, name_at in *. by rewrite Hn.
  - by rewrite Hnx.
  - by rewrite Hi.
  - intros _ d2 [_ H2]. eapply wp_mono; [by apply (flush_directory_flushes d0 tmp p data apart)|].
    intros r d3 [H3 H4]. split; [by right|done].
  - intros e' d2 [H2 _]. done.
Qed.
End publish.

Lemma temporary_apart p hex : temporary_of p hex ≠ p.
Proof.
  unfold temporary_of, with_name, path_name. intros H.
  apply (f_equal last) in H. rewrite last_snoc in H. destruct (last p) as [name|]; [|done].
  injection H as H. apply (f_equal (length ∘ chars)) in H. unfold compose in H. simpl in H.
  rewrite !chars_app in H. rewrite !length_app in H. simpl in H. lia.
Qed.

(** The temporaries of a destination. *)
Definition temporary_for (p q : file_path) : Prop := ∃ hex, q = temporary_of p hex.

(** Only the destination is another file afterwards. *)
Definition only_changes (p : file_path) (d : Disk) (r : res unit) (d' : Disk) : Prop :=
  untouched (temporary_for p) (λ q, q = p) d d'
  ∧ match r with Ok _ => ∀ q, q ≠ p → entry_at q d' = entry_at q d | Exn _ => True end.

Lemma holds_None q S d : holds q S d → entry_at q d = None → S None.
Proof. unfold holds, possible, entry_at. rewrite Forall_cons. by intros [H _] E; rewrite E in H. Qed.

Lemma staged_only_changes d0 tmp p data r d :
  entry_at tmp d0 = None → temporary_for p tmp → staged d0 tmp p data d →
  match r with Ok _ => flushed d0 tmp p data d | Exn _ => True end → only_changes p d0 r d.
Proof.
  intros Ht Htmp Hs Hr. split.
  - intros q S Hq HS. destruct (decide (q = tmp)) as [->|Hne]; [|by eapply staged_untouched].
    destruct HS as [HS|HS]; [|by destruct HS].
    split; [intros H|intros [_ H]]; destruct HS; by eapply holds_None.
  - destruct r; [|done]. destruct Hr as [(_ & Hu & _ & Htn & _) _]. intros q Hq.
    destruct (decide (q = tmp)) as [->|]; [by rewrite Ht, Htn|]. by apply Hu.
Qed.

Lemma quiet_holds q S d d' : quiet d d' → holds q S d ↔ holds q S d'.
Proof. intros (Hn & Hi & Hx). unfold holds, holds_entry, name_at. by rewrite Hn, Hi, Hx. Qed.

Lemma quiet_durably q S d d' : quiet d d' → durably q S d ↔ durably q S d'.
Proof. intros Hq. unfold durably. rewrite (quiet_holds _ _ _ _ Hq). unfold name_at. by destruct Hq as (-> & _). Qed.

Lemma quiet_untouched temporary changed d d' : quiet d d' → untouched temporary changed d d'.
Proof. intros Hq q S _ _. by rewrite (quiet_holds _ _ _ _ Hq), (quiet_durably _ _ _ _ Hq). Qed.

Lemma quiet_outcome p S new e d0 d :
  holds p S d0 → quiet d0 d → atomically p S new (Exn e) d ∧ only_changes p d0 (Exn e) d.
Proof.
  intros Ho Hq. split; [|split; [by apply quiet_untouched|done]].
  apply atomically_holds; [|done]. apply (quiet_holds p S _ _ Hq) in Ho. eapply holds_mono; [|exact Ho]. by left.
Qed.

Lemma staged_outcome d0 tmp p S data r d :
  tmp ≠ p → holds p S d0 → staged d0 tmp p data d →
  match r with Ok _ => flushed d0 tmp p data d | Exn _ => True end → atomically p S (Some data) r d.
Proof.
  intros Hne Ho Hs Hr. apply atomically_holds.
  - destruct Hs as [Hs|Hs]; [|by eapply published_holds].
    eapply holds_mono; [|by eapply unpublished_holds]. by left.
  - destruct r; [|done]. by eapply flushed_durable.
Qed.

(** A write leaves all as it was, or goes through the stages of a publication. *)
Definition writes (p : file_path) (data : text_in) (d : Disk) (r : res unit) (d' : Disk) : Prop :=
  (quiet d d' ∧ ∃ e, r = Exn e)
  ∨ ∃ tmp, tmp ≠ p ∧ temporary_for p tmp ∧ entry_at tmp d = None ∧ staged d tmp p data d'
      ∧ match r with Ok _ => flushed d tmp p data d' | Exn _ => True end.

Lemma write_bytes_writes p data root max_bytes protect d :
  wp (write_bytes_atomic windows scope pinned p data root max_bytes protect) (writes p data d) d.
Proof.
  unfold write_bytes_atomic. assert (Hq : quiet d d) by done.
  assert (Hx : ∀ e d', quiet d d' → writes p data d (Exn e) d') by (intros e d' H; left; eauto).
  do 2 (quiet_step Hq; [by apply Hx|]).
  eapply wp_use; [apply checked_path_returns| |]; cbv beta iota; [|intros e d2 [H _]; apply Hx; by etrans].
  intros ? d2 [H ->]. pose proof (transitivity Hq H) as Hq2. clear Hq H. rename Hq2 into Hq.
  apply wp_bind, wp_look. simpl. set (tmp := temporary_of p _). assert (Hne : tmp ≠ p) by apply temporary_apart.
  assert (Htmp : temporary_for p tmp) by by eexists.
  clearbody tmp. do 2 (quiet_step Hq; [by apply Hx|]).
  eapply wp_use; [by apply create_opens| |]; cbv beta iota; [|intros e d5 H; by apply Hx].
  intros ino d5 [Ht Ho].
  assert (Hu : ∀ e dx, unpublished d tmp dx → writes p data d (Exn e) dx).
  { intros e dx H. right. exists tmp. split_and!; try done. by left. }
  apply wp_quiet_bind; [quietly|intros e d6 H; apply Hu; by eapply opened_quiet in Ho as []|].
  intros identity d6 H. eapply opened_quiet in Ho; [|done]. clear d5 H.
  assert (Hf : wp (try_finally
    (fill_temporary windows scope pinned tmp root ino identity protect data ;;
     _checked_path windows p root ;; _check_temporary windows tmp root identity ;;
     installer_mutation_checkpoint scope pinned false ;; os_replace tmp p ;; flush_directory windows scope pinned (parent p))
    (_remove_temporary windows scope pinned tmp root identity))
    (λ r d', staged d tmp p data d' ∧ match r with Ok a => flushed d tmp p data d' | Exn _ => True end) d6);
    [|eapply wp_mono; [exact Hf|]; intros r d7 [Hs Hr]; right; by exists tmp].
  apply wp_finally.
  - eapply wp_use; [by apply fill_fills| |]; cbv beta iota; [|intros e d7 [H _]; by split; [left|]].
    intros _ d7 [H (Hun & He & Hlt & i & Hi & ->)].
    eapply (publish_ends d tmp p data Hne); [exact Hun|exact He|done|simpl; lia|exact Hi].
  - intros d7 H. eapply wp_mono; [apply remove_temporary_on|]. intros r d8 H8. by apply (staged_step d tmp p data Hne d7).
  - intros _ d7 _ H. eapply wp_mono; [apply remove_temporary_on|]. intros r d8 H8. by apply (flushed_step d tmp p data Hne d7).
Qed.

Lemma writes_outcome p data S d r d' :
  writes p data d r d' → holds p S d → atomically p S (Some data) r d'.
Proof.
  intros [[Hq (e & ->)]|(tmp & Hne & _ & _ & Hs & Hr)] Hold; [by eapply quiet_outcome|by eapply (staged_outcome d tmp p)].
Qed.

Lemma writes_only_changes p data d r d' : writes p data d r d' → only_changes p d r d'.
Proof.
  intros [[Hq (e & ->)]|(tmp & Hne & Htmp & Ht & Hs & Hr)]; [|by eapply (staged_only_changes d tmp p data)].
  split; [by apply quiet_untouched|done].
Qed.

Lemma writes_durable p data d u d' : writes p data d (Ok u) d' → durable_file p (Some data) d'.
Proof. intros [[_ (e & He)]|(tmp & _ & _ & _ & _ & Hr)]; [done|by eapply flushed_durable]. Qed.

(** Nothing is written without the directory, or beyond the bound. *)
Lemma check_directories_present p d :
  wp (_check_directories p) (λ r d', quiet d d' ∧ match r with Ok _ => is_Some (entry_at p d) | Exn _ => True end) d.
Proof.
  unfold _check_directories, with_parents. rewrite seq_S, map_app. cbn [map Nat.add].
  replace (take (length p) p) with p by by rewrite take_ge.
  generalize (map (λ n, take n p) (seq 0 (length p))). intros l. revert d.
  induction l as [|q l IH]; intros d; cbn [app for_each].
  - unfold lstat. apply wp_bind, wp_bind, wp_call; [|by intros].
    intros _ d1 Hq. apply wp_bind, wp_look. simpl. rewrite (entry_at_quiet _ _ _ Hq).
    destruct (entry_at p d) as [e|]; [apply wp_ret|by apply wp_raise]. simpl.
    apply wp_quietly; [quietly|]. intros [u|e'] d2 H2; simpl; [apply wp_ret|]; by split; [etrans|].
  - assert (Hq : quiet d d) by done. quiet_step Hq; [done|].
    match goal with |- wp _ _ ?dx => rename dx into d1 end.
    eapply wp_mono; [apply IH|]. intros r d2 [H1 H2]. rewrite (entry_at_quiet _ _ _ Hq) in H2.
    split; [exact (transitivity Hq H1)|done].
Qed.

Lemma checked_path_present p root d :
  wp (_checked_path windows p root) (λ r d', quiet d d' ∧ match r with Ok _ => is_Some (entry_at (parent p) d) | Exn _ => True end) d.
Proof.
  unfold _checked_path. assert (Hq : quiet d d) by done. do 4 (quiet_step Hq; [done|]).
  eapply wp_use; [apply check_directories_present| |]; cbv beta iota;
    [|intros e d2 [H _]; split; [exact (transitivity Hq H)|done]].
  intros _ d2 [H He]. rewrite (entry_at_quiet _ _ _ Hq) in He. pose proof (transitivity Hq H) as Hq2.
  apply wp_quietly; [quietly|]. intros r d3 H3. split; [exact (transitivity Hq2 H3)|by destruct r].
Qed.

Lemma write_bytes_refuses p data root max_bytes protect d :
  entry_at (parent p) d = None ∨ max_bytes < Z.of_nat (length data) →
  wp (write_bytes_atomic windows scope pinned p data root max_bytes protect) (λ r d', quiet d d' ∧ ∃ e, r = Exn e) d.
Proof.
  intros Hcase. unfold write_bytes_atomic. assert (Hq : quiet d d) by done. quiet_step Hq; [by eauto|].
  apply wp_bind, wp_raise_if; intros Hlen; simpl; [by eauto|].
  destruct Hcase as [Hnone|Hlong]; [|by apply Z.ltb_ge in Hlen; lia].
  eapply wp_use; [apply checked_path_present| |]; cbv beta iota;
    [|intros e d2 [H _]; split; [exact (transitivity Hq H)|by eexists]].
  intros x d2 [_ [e He]]. rewrite (entry_at_quiet _ _ _ Hq), Hnone in He. done.
Qed.

(** C9: an atomic write leaves old bytes or all of the new ones under the name,
    now and after a crash at any moment; the new ones for good if it returned;
    whatever the system calls and the callbacks do.  Other files are untouched,
    and a return leaves no temporary. *)
Theorem publication_is_atomic p data root max_bytes protect S d r d' :
  holds p S d →
  write_bytes_atomic windows scope pinned p data root max_bytes protect d = (r, d') →
  atomically p S (Some data) r d' ∧ only_changes p d r d'.
Proof.
  intros Hold Hw. pose proof (wp_run _ _ _ _ _ (write_bytes_writes p data root max_bytes protect d) Hw) as H.
  split; [by eapply writes_outcome|by eapply writes_only_changes].
Qed.

(** ** Prepared files *)

Lemma read_all_reads fuel descriptor bound (read : text_in) i d :
  inodes d !! e_ino descriptor = Some i → (∃ rest, i_data i = read ++ rest) →
  bound < Z.of_nat (fuel + length read) →
  wp (read_all fuel descriptor bound read) (λ r d', quiet d d' ∧ match r with
    | Ok out => (∃ rest, i_data i = out ++ rest) ∧ (bound < Z.of_nat (length out) ∨ out = i_data i)
    | Exn _ => True end) d.
Proof.
  revert read d. induction fuel as [|fuel IH]; intros read d Hi [rest Hread] Hf; simpl;
    (destruct (Z.ltb_spec bound (Z.of_nat (length read)));
      [apply wp_ret; split; [done|split; [by exists rest|by left]]|]); [lia|].
  unfold os_read. apply wp_bind, wp_call; [|by intros].
  intros n d1 Hq. apply wp_bind, wp_look. simpl. apply wp_ret. simpl.
  assert (Hi1 : inodes d1 !! e_ino descriptor = Some i) by (destruct Hq as (_ & -> & _); done).
  rewrite Hi1. simpl. assert (Hdrop : drop (length read) (i_data i) = rest) by (rewrite Hread; apply drop_app_length).
  rewrite Hdrop.
  set (count := Z.to_nat _). assert (Hc : (0 < count)%nat) by lia. clearbody count.
  destruct (take count rest) as [|b block] eqn:Hb.
  - apply wp_ret. split; [done|]. split; [by exists rest|]. right. rewrite Hread.
    destruct rest; [by rewrite app_nil_r|]. destruct count; [lia|done].
  - eapply wp_mono; [apply IH; [done| |]|].
    + exists (drop count rest). rewrite Hread, <- app_assoc, <- Hb, take_drop. done.
    + rewrite length_app. simpl. lia.
    + simpl. intros r d2 [H2 H3]. split; [exact (transitivity Hq H2)|done].
Qed.

#[local] Arguments read_all : simpl never.

Lemma check_prepared_checks source root expected bound validate e i d :
  inodes d !! e_ino e = Some i → Z.of_nat (length expected) ≤ bound →
  wp (check_prepared windows source root expected bound validate e)
    (λ r d', quiet d d' ∧ match r with Ok ino => i_data i = expected | Exn _ => True end) d.
Proof.
  intros Hi Hb. unfold check_prepared. assert (Hq : quiet d d) by done.
  apply wp_bind, wp_call; simpl; [|intros e' d1 H; split; [by etrans|done]].
  intros _ d1 H. pose proof (transitivity Hq H) as Hq1. clear Hq H. rename Hq1 into Hq. apply wp_ret. simpl.
  do 5 (quiet_step Hq; [done|]). clear dependent d1. match type of Hq with quiet d ?d' => rename d' into d1 end.
  eapply wp_use; [apply (read_all_reads _ _ _ [] i); [|by exists (i_data i)|simpl; lia]| |]; cbv beta iota.
  - by destruct Hq as (_ & -> & _).
  - intros out d2 [H [[rest Hr] Ho]]. pose proof (transitivity Hq H) as Hq1. clear Hq H. rename Hq1 into Hq.
    apply wp_bind, wp_raise_if; intros Hc; simpl; [done|].
    apply negb_false_iff, bool_decide_eq_true in Hc as ->. destruct Ho as [Ho|Ho]; [lia|].
    quiet_step Hq; [done|]. by apply wp_ret.
  - intros e' d2 [H _]. split; [by etrans|done].
Qed.

Lemma os_open_opens q d :
  wp (os_open q) (λ r d', quiet d d' ∧ match r with Ok e => entry_at q d = Some e | Exn _ => True end) d.
Proof.
  unfold os_open. apply wp_call; [|by intros].
  intros _ d1 Hq. apply wp_bind, wp_look. simpl.
  assert (He : entry_at q d1 = entry_at q d). { unfold entry_at, name_at. by destruct Hq as (-> & _). }
  rewrite He. destruct (entry_at q d) as [e|]; [|by apply wp_raise].
  apply wp_bind, wp_raise_if; intros _; simpl; [done|]. by apply wp_ret.
Qed.

(** C0: the same of a prepared file: it replaces the destination if it holds
    the expected bytes, and then there is no prepared file any more. *)
Theorem prepared_files_are_published_atomically source p expected root max_bytes validate prepared S d r d' :
  durable_file source (Some prepared) d → holds p S d →
  publish_prepared windows scope pinned source p expected root max_bytes validate d = (r, d') →
  atomically p S (Some expected) r d' ∧ untouched (λ _, False) (λ q, q = source ∨ q = p) d d'
  ∧ (∀ u, r = Ok u → prepared = expected ∧ entry_at source d' = None).
Proof.
  intros Hs Hold. revert r d'.
  enough (H : wp (publish_prepared windows scope pinned source p expected root max_bytes validate)
    (λ r d', atomically p S (Some expected) r d' ∧ untouched (λ _, False) (λ q, q = source ∨ q = p) d d'
      ∧ (∀ u, r = Ok u → prepared = expected ∧ entry_at source d' = None)) d)
    by (intros r d' Er; exact (wp_run _ _ _ _ _ H Er)).
  assert (Hx : ∀ e dx, quiet d dx → atomically p S (Some expected) (Exn e) dx
    ∧ untouched (λ _, False) (λ q, q = source ∨ q = p) d dx ∧ (∀ u, Exn (A := unit) e = Ok u → prepared = expected ∧ entry_at source dx = None)).
  { intros e dx Hq. destruct (quiet_outcome p S (Some expected) e d dx Hold Hq) as [H1 _].
    split_and!; [done|by apply quiet_untouched|done]. }
  assert (Hq : quiet d d) by done. unfold publish_prepared.
  apply wp_bind, wp_raise_if; intros _; simpl; [by apply Hx|].
  apply wp_bind, wp_raise_if; intros Hmax; simpl; [by apply Hx|]. apply Z.ltb_ge in Hmax.
  do 2 (eapply wp_use; [apply checked_path_returns| |]; cbv beta iota;
    [|let H := fresh in intros ? ? [H _]; apply Hx; exact (transitivity Hq H)];
    let H := fresh in let H' := fresh in intros ? ? [H ->]; pose proof (transitivity Hq H) as H'; clear Hq H; rename H' into Hq).
  apply wp_bind, wp_raise_if; intros Hne; simpl; [by apply Hx|].
  assert (apart : source ≠ p). { apply orb_false_iff in Hne as [Hne _]. by apply bool_decide_eq_false in Hne. }
  eapply wp_use; [apply os_open_opens| |]; cbv beta iota;
    [|intros e dx [H _]; apply Hx; exact (transitivity Hq H)].
  intros e d1 [H He]. rewrite (entry_at_quiet _ _ _ Hq) in He. pose proof (transitivity Hq H) as Hq1.
  clear Hq H. rename Hq1 into Hq.
  destruct (durable_entry _ _ _ Hs) as (e' & He' & Hk & Hlt & Hi). rewrite He in He'. injection He' as <-.
  rename prepared into bytes.
  eapply (wp_use _ _ (λ r dx, quiet d dx ∧ match r with Ok _ => bytes = expected | Exn _ => True end)); cbv beta iota.
  - apply (wp_finally _ _ (quiet d) (λ _ _, bytes = expected)).
    + eapply wp_mono; [eapply (check_prepared_checks _ _ _ _ _ _ {| i_data := bytes; i_synced := true |}); [|exact Hmax]|].
      * by destruct Hq as (_ & -> & _).
      * intros r d2 [H1 H2]. split; [exact (transitivity Hq H1)|done].
    + intros d2 H2. apply wp_quietly; [quietly|]. intros r d3 H3. exact (transitivity H2 H3).
    + intros a d2 H2 Ha. by apply wp_quietly; [quietly|].
  - clear dependent d1. intros ino d1 [Hq <-].
    eapply wp_mono; [apply (publish_ends d source p bytes apart root ino e)|]; [by apply quiet_unpublished|..].
    + by rewrite (entry_at_quiet _ _ _ Hq).
    + done.
    + by destruct Hq as (_ & _ & ->).
    + by destruct Hq as (_ & -> & _).
    + intros r d2 [H1 H2]. split_and!.
      * by eapply (staged_outcome d source p).
      * intros q S' Hq' _. eapply staged_untouched; [done|..]; by intros ->; tauto.
      * intros u ->. split; [done|]. by destruct H2 as [(_ & _ & _ & H2 & _) _].
  - intros e' d2 [H _]. by apply Hx.
Qed.

(** [p] is removed, perhaps not for good. *)
Definition gone (d0 : Disk) (p : file_path) (d : Disk) : Prop :=
  inodes d = inodes d0 ∧ next_ino d = next_ino d0
  ∧ (∀ q, q ≠ p → entry_at q d = entry_at q d0 ∧ pending (name_at q d) ∈ [pending (name_at q d0); []])
  ∧ entry_at p d = None ∧ pending (name_at p d) ⊆ possible (name_at p d0).

Lemma gone_outcome d0 p S d r :
  holds p S d0 → gone d0 p d → match r with Ok _ => pending (name_at p d) = [] | Exn _ => True end →
  atomically p S None r d ∧ only_changes p d0 r d.
Proof.
  intros Hold (Hi & Hx & Hu & He & Hp) Hr. assert (Ho : old_files d0 d) by (split; [lia|by intros; rewrite Hi]).
  split.
  - apply atomically_holds.
    + unfold holds, possible. apply Forall_cons. split; [unfold entry_at in He; rewrite He; by right|].
      apply Forall_forall. intros e Hin. apply Hp in Hin. unfold holds in Hold. rewrite Forall_forall in Hold.
      eapply holds_entry_mono; [|eapply old_entry; [exact Ho|by apply Hold]]. by left.
    + destruct r; [|done]. split; [done|]. unfold holds, possible. rewrite Hr. apply Forall_singleton.
      unfold entry_at in He. by rewrite He.
  - split; [|destruct r; [intros q Hq; by apply Hu|done]].
    intros q S' Hq _. destruct (Hu q Hq) as [He1 Hp1].
    assert (Hh : holds q S' d0 → holds q S' d).
    { unfold holds, possible. unfold entry_at in He1. rewrite He1, !Forall_cons. intros [H1 H2].
      split; [by eapply old_entry|].
      apply elem_of_cons in Hp1 as [->| ->%list_elem_of_singleton]; [by eapply old_entries|constructor]. }
    split; [done|]. intros [Hp0 H]. split; [rewrite Hp0 in Hp1; set_solver|auto].
Qed.

Lemma gone_synced directory d0 p d d' :
  gone d0 p d → synced_directory directory d d' → parent p = directory → gone d0 p d' ∧ pending (name_at p d') = [].
Proof.
  intros (Hi & Hx & Hu & He & Hp) (Hi' & Hx' & Hs) <-. unfold gone, entry_at.
  rewrite (Hs p), decide_True, Hi', Hx' by done. simpl. split_and!; try done; [|set_solver].
  intros q Hq. rewrite Hs. destruct (Hu q Hq). destruct (decide _); simpl; [|done]. split; [done|set_solver].
Qed.

Lemma gone_quiet d0 p d d' : gone d0 p d → quiet d d' → gone d0 p d'.
Proof. unfold gone, entry_at, name_at. intros H (-> & -> & ->). exact H. Qed.

(** C0: [durable_unlink] removes a file for good when it returns; until then it
    is there with its bytes or not at all. *)
Theorem files_are_removed_atomically p root missing_ok S d r d' :
  holds p S d →
  durable_unlink windows scope pinned p root missing_ok d = (r, d') →
  atomically p S None r d' ∧ only_changes p d r d'.
Proof.
  intros Hold. revert r d'.
  enough (H : wp (durable_unlink windows scope pinned p root missing_ok)
    (λ r d', atomically p S None r d' ∧ only_changes p d r d') d)
    by (intros r d' Er; exact (wp_run _ _ _ _ _ H Er)).
  assert (Hx : ∀ e dx, quiet d dx → atomically p S None (Exn e) dx ∧ only_changes p d (Exn e) dx)
    by (intros; by apply quiet_outcome).
  assert (Hq : quiet d d) by done. unfold durable_unlink.
  eapply wp_use; [apply checked_path_returns| |]; cbv beta iota; [|intros e d2 [H _]; by apply Hx].
  intros ? d2 [H ->]. clear Hq. rename H into Hq. quiet_step Hq; [by apply Hx|].
  eapply (wp_use _ _ (λ r dx, match r with Ok _ => gone d p dx | Exn _ => quiet d dx end)); cbv beta iota.
  - apply wp_try. unfold unlink. match type of Hq with quiet _ ?dx => rename dx into d3 end.
    apply wp_call_failure; [|intros e d4 H Hnf; pose proof (transitivity Hq H); destruct e; try done; by edestruct Hnf].
    intros n d4 H. pose proof (transitivity Hq H) as Hq4. clear Hq H. apply wp_bind, wp_look. simpl.
    assert (Hgone : entry_at p d4 = None → gone d p d4).
    { intros He. apply (gone_quiet d p d); [|done]. rewrite (entry_at_quiet _ _ _ Hq4) in He.
      split_and!; try done; [intros; split; [done|set_solver]|]. unfold possible. set_solver. }
    destruct (entry_at p d4) as [e|] eqn:He.
    2:{ apply wp_raise. destruct missing_ok; [apply wp_ret; by apply Hgone|exact Hq4]. }
    apply wp_change.
    destruct Hq4 as (Hn & Hi & Hx4). assert (Hname : ∀ q, name_at q d4 = name_at q d) by (intros; unfold name_at; by rewrite Hn).
    unfold gone, entry_at. rewrite (name_at_rename p), decide_True by done. split_and!; try done.
    + intros q Hqp. rewrite name_at_rename, decide_False, Hname by done. split; [done|set_solver].
    + simpl. by rewrite Hname.
  - intros _ d3' Hg. eapply wp_mono; [apply flush_directory_syncs|]. intros r d4 [H Hr]. apply gone_outcome; [done| |].
    + destruct H as [H|H]; [by eapply gone_quiet|by eapply gone_synced].
    + destruct r; [by eapply gone_synced|done].
  - intros e dx H. by apply Hx.
Qed.
End operations.

(** ** Files that an operation leaves alone *)

Definition leaves (q : file_path) (d d' : Disk) : Prop :=
  ∀ S, (holds q S d → holds q S d') ∧ (durably q S d → durably q S d').

#[export] Instance leaves_preorder q : PreOrder (leaves q).
Proof.
  split; [by intros d S|]. intros d1 d2 d3 H1 H2 S. destruct (H1 S), (H2 S). auto.
Qed.

Lemma quiet_leaves q d d' : quiet d d' → leaves q d d'.
Proof. intros Hq S. by rewrite (quiet_holds _ _ _ _ Hq), (quiet_durably _ _ _ _ Hq). Qed.

Lemma only_changes_leaves p q d r d' :
  only_changes p d r d' → q ≠ p → ¬ temporary_for p q → leaves q d d'.
Proof. intros [Hu _] Hne Ht S. apply Hu; [done|by right]. Qed.

Lemma synced_leaves directory q d d' : synced_directory directory d d' → leaves q d d'.
Proof.
  intros (Hi & Hx & Hn) S. unfold durably, holds, possible, holds_entry. rewrite Hn, Hi, Hx.
  destruct (decide _); simpl; [|done]. unfold entry_at. rewrite !Forall_cons. split; [by intros [H1 _]|by intros [_ [H1 _]]].
Qed.

Lemma parent_snoc (l : file_path) x : parent (l ++ [x]) = l.
Proof. unfold parent. rewrite length_app. simpl. by rewrite take_app_length' by lia. Qed.

Lemma temporary_parent p q : temporary_for p q → parent q = parent p.
Proof. intros [hex ->]. apply parent_snoc. Qed.

(** ** An installation *)

Definition a_directory : name_states :=
  {| latest := Some {| e_kind := k_directory; e_ino := 0; e_reparse := false |}; pending := [] |}.
Definition a_file (ino : Z) : name_states :=
  {| latest := Some {| e_kind := k_file; e_ino := ino; e_reparse := false |}; pending := [] |}.

(** The root, a directory and two files of it; a write takes two bytes. *)
Definition installation : Disk := {|
  names := {[ [] := a_directory; ["s"] := a_directory; ["s"; "a"] := a_file 1; ["s"; "b"] := a_file 2 ]};
  inodes := {[ 1 := {| i_data := chars "old"; i_synced := true |}; 2 := {| i_data := chars "newer"; i_synced := true |} ]};
  next_ino := 3;
  next_hex := λ _, "0";
  fates := λ _, goes_on 2;
  calls := 0
|}.

(** The same, stopped at a call. *)
Definition stopped_at (n : nat) : Disk := installation <| fates := λ k, if (k =? n)%nat then stops else goes_on 2 |>.

Lemma installation_durable : durable_file ["s"; "a"] (Some (chars "old")) installation.
Proof. split; [reflexivity|]. apply Forall_singleton. split; [reflexivity|]. split; [reflexivity|]. eexists. split; [reflexivity|]. by split. Qed.

Definition a_write (d : Disk) : res unit * Disk :=
  write_bytes_atomic true true true ["s"; "a"] (chars "newer") ["s"] 64 true d.

Definition outcome (d : Disk) : option text_in * bool :=
  let '(r, d') := a_write d in (bytes_at ["s"; "a"] d', match r with Ok _ => true | Exn _ => false end).

Example installation_written : outcome installation = (Some (chars "newer"), true).
Proof. reflexivity. Qed.

Lemma publication_is_atomic_witness :
  (a_write installation).1 = Ok tt ∧ durable_file ["s"; "a"] (Some (chars "newer")) (a_write installation).2.
Proof.
  split; [reflexivity|].
  destruct (publication_is_atomic true true true ["s"; "a"] (chars "newer") ["s"] 64 true _ _ _ _
              (proj2 installation_durable) (surjective_pairing (a_write installation))) as [(_ & _ & H) _].
  exact H.
Defined.

(** Wherever the machine stops, the old bytes or the new ones. *)
Example installation_stopped :
  forallb (λ n, bool_decide ((outcome (stopped_at n)).1 ∈ [Some (chars "old"); Some (chars "newer")])) (seq 0 46) = true.
Proof. reflexivity. Qed.

Definition a_publication (d : Disk) : res unit * Disk :=
  publish_prepared true true true ["s"; "b"] ["s"; "a"] (chars "newer") ["s"] 64 true d.

Lemma newer_durable : durable_file ["s"; "b"] (Some (chars "newer")) installation.
Proof. split; [reflexivity|]. apply Forall_singleton. split; [reflexivity|]. split; [reflexivity|]. eexists. split; [reflexivity|]. by split. Qed.

Lemma prepared_files_are_published_atomically_witness :
  (a_publication installation).1 = Ok tt ∧ durable_file ["s"; "a"] (Some (chars "newer")) (a_publication installation).2.
Proof.
  split; [reflexivity|].
  destruct (prepared_files_are_published_atomically true true true ["s"; "b"] ["s"; "a"] (chars "newer") ["s"] 64 true _ _ _ _ _
              newer_durable (proj2 installation_durable) (surjective_pairing (a_publication installation))) as [(_ & _ & H) _].
  exact H.
Defined.

Definition a_removal (d : Disk) : res unit * Disk := durable_unlink true true true ["s"; "a"] ["s"] false d.

Lemma files_are_removed_atomically_witness :
  (a_removal installation).1 = Ok tt ∧ durable_file ["s"; "a"] None (a_removal installation).2.
Proof.
  split; [reflexivity|].
  destruct (files_are_removed_atomically true true true ["s"; "a"] ["s"] false _ _ _ _
              (proj2 installation_durable) (surjective_pairing (a_removal installation))) as [(_ & _ & H) _].
  exact H.
Defined.
