(* ===== verification/StagedUpdate.v ===== *)
(** * The journal of staged updates (pc_agent/platform/windows/staged_update_state.py)

    The operations on [installer-state/staged-update.json] and its archive, over
    the disk of DurableFiles.v.  [installer_fence.assert_state_security] and
    [protect_state] are callbacks that may fail; the clock's answer is an
    argument.  [st_mtime_ns] is not kept. *)

From S2P Require Import Prelude Store AuditLog Contracts Canonical Semver Json LocalMessages Calendar RuntimePayload.
From S2P Require Import StagedRecord DurableFiles.

Section staged_update.
Context `{Contracts} (windows installer_scope pinned_reads : bool) (recursion_limit : nat).
(** [paths.install_root] *)
Context (install_root : file_path).

Definition current_path : file_path := install_root ++ ["current.json"].
Definition previous_path : file_path := install_root ++ ["previous.json"].

(** [installer_fence.state_root(paths)] *)
Definition state_root : file_path := parent install_root ++ ["installer-state"].
Definition _path : file_path := state_root ++ ["staged-update.json"].
Definition history_path : file_path := state_root ++ ["staged-history"].
Definition archive_path (operation : string) : file_path := history_path ++ [operation +:+ ".json"].

Definition of_res {A} (r : res A) : IO A := λ d, (r, d).
Definition invalid_if (condition : bool) : IO unit := of_res (valid_if (negb condition)).

(** [installer_fence.assert_state_security(path)], [protect_state(path)] *)
Definition assert_state_security (p : file_path) : IO unit := call (λ _, mret tt).
Definition protect_state (p : file_path) : IO unit :=
  installer_mutation_checkpoint installer_scope pinned_reads false ;; call (λ _, mret tt).

(** [path.read_bytes()], [path.exists()], [path.mkdir()] *)
Definition read_bytes (p : file_path) : IO text_in :=
  call (λ _,
    found ← look (entry_at p);
    match found with
    | None => not_found p
    | Some e =>
        i ← look (λ d, inodes d !! e_ino e);
        match i with Some i => mret (i_data i) | None => raise (OSError "Is a directory") end
    end).

Definition exists_ (p : file_path) : IO bool := call (λ _, look (λ d, is_some (entry_at p d))).

Definition mkdir (p : file_path) : IO unit :=
  call (λ _,
    found ← look (entry_at p);
    raise_if (is_some found) (OSError "FileExistsError") ;;
    ino ← look next_ino;
    change (λ d, rename_entry p (Some {| e_kind := k_directory; e_ino := ino; e_reparse := false |})
                   (d <| next_ino := ino + 1 |>))).

(** [source.read(count)] *)
Definition read_file (e : entry) (count : Z) : IO text_in :=
  call (λ _, i ← look (λ d, inodes d !! e_ino e); mret (take (Z.to_nat count) (from_option i_data [] i))).

(** ** Reading *)

Definition if_found {A} (m : IO A) : IO (option A) :=
  try_except (a ← m; mret (Some a)) (λ e, match e with FileNotFoundError _ => Some (mret None) | _ => None end).

(** [except (OSError, ValueError, TypeError, KeyError, AttributeError)] *)
Definition is_state_error (e : exn) : bool :=
  is_value_error e
  || match e with OSError _ | FileNotFoundError _ | TypeError _ | KeyError _ | AttributeError _ => true | _ => false end.

Definition read_opened (p : file_path) (before : entry) (size : Z) : IO StagedUpdateRecord :=
  source ← os_open p;
  value ← try_finally
            (opened ← fstat source;
             invalid_if (negb (e_ino opened =? e_ino before)) ;;
             data ← read_file source (_MAX_BYTES + 1);
             of_res (read_json recursion_limit data _MAX_BYTES))
            (close source);
  after ← lstat p;
  size_after ← look (size_of after);
  invalid_if (negb ((e_ino before =? e_ino after) && (size =? size_after))) ;;
  of_res (_decode_record recursion_limit value).

Definition read_checked (p : file_path) : IO (option StagedUpdateRecord) :=
  assert_state_security (parent p) ;;
  found ← if_found (lstat p);
  match found with
  | None => mret None
  | Some before =>
      assert_state_security p ;;
      links ← look (nlink (e_ino before));
      size ← look (size_of before);
      invalid_if (negb (bool_decide (e_kind before = k_file) && (links =? 1) && (0 <? size) && (size <=? _MAX_BYTES))) ;;
      record ← read_opened p before size;
      mret (Some record)
  end.

Definition _read_record_path (p : file_path) : IO (option StagedUpdateRecord) :=
  found ← if_found (lstat (parent p));
  match found with
  | None => mret None
  | Some _ =>
      try_except (read_checked p)
        (λ e, if is_state_error e then Some (raise (ValueError "UPDATE_STATE_INVALID")) else None)
  end.

Definition read_staged_update : IO (option StagedUpdateRecord) := _read_record_path _path.

(** [==] on the dataclasses *)
Definition binding_eqb (a b : StagedUpdateBinding) : bool :=
  bool_decide (operation_id a = operation_id b)
  && json_eqb (JObj (old_release a)) (JObj (old_release b)) && json_eqb (JObj (new_release a)) (JObj (new_release b))
  && bool_decide (selected_before a = selected_before b) && bool_decide (previous_before a = previous_before b)
  && bool_decide (selected_tree_sha256_before a = selected_tree_sha256_before b)
  && bool_decide (previous_tree_sha256_before a = previous_tree_sha256_before b)
  && bool_decide (candidate_version a = candidate_version b)
  && bool_decide (candidate_source_revision a = candidate_source_revision b)
  && bool_decide (candidate_tree_sha256 a = candidate_tree_sha256 b).

Definition record_eqb (a b : StagedUpdateRecord) : bool :=
  binding_eqb (binding a) (binding b) && bool_decide (phase a = phase b) && (sequence a =? sequence b)
  && bool_decide (attempt_id a = attempt_id b) && json_eqb (JObj (owner a)) (JObj (owner b))
  && match switched_at a, switched_at b with
     | Some x, Some y => dt_eqb x y | None, None => true | _, _ => false
     end
  && bool_decide (safe_code a = safe_code b).

Definition terminal (r : StagedUpdateRecord) : bool := str_in (phase r) _TERMINAL.

Definition read_archived_staged_update (operation : string) : IO StagedUpdateRecord :=
  of_res (_uuid operation) ;;
  assert_state_security (archive_path operation) ;;
  found ← _read_record_path (archive_path operation);
  match found with
  | Some record =>
      invalid_if (negb (bool_decide (operation_id (binding record) = operation) && terminal record)) ;;
      mret record
  | None => of_res _invalid
  end.

(** ** Writing *)

Definition _write (record : StagedUpdateRecord) : IO StagedUpdateRecord :=
  value ← of_res (_record_value recursion_limit record);
  installer_mutation_checkpoint installer_scope pinned_reads true ;;
  assert_state_security state_root ;;
  write_json_atomic windows installer_scope pinned_reads _path (JObj value) state_root _MAX_BYTES true ;;
  mret record.

(** The record that was finished goes to the history. *)
Definition archive (existing : StagedUpdateRecord) : IO unit :=
  present ← exists_ history_path;
  when (negb present)
    (mkdir history_path ;;
     protect_state history_path ;;
     flush_directory windows installer_scope pinned_reads state_root) ;;
  assert_state_security history_path ;;
  let leaf := archive_path (operation_id (binding existing)) in
  raw ← read_bytes _path;
  archived ← exists_ leaf;
  if archived : bool then
    stored ← read_archived_staged_update (operation_id (binding existing));
    invalid_if (negb (record_eqb stored existing)) ;;
    bytes ← read_bytes leaf;
    invalid_if (negb (bool_decide (bytes = raw)))
  else write_bytes_atomic windows installer_scope pinned_reads leaf raw history_path _MAX_BYTES true.

Definition preparing_record (b : StagedUpdateBinding) (owner : list (string * json)) : StagedUpdateRecord :=
  {| binding := b; phase := "preparing"; sequence := 0; attempt_id := None; owner := owner; switched_at := None;
     safe_code := None |}.

Definition begin_staged_update (b : StagedUpdateBinding) (owner' : list (string * json)) : IO StagedUpdateRecord :=
  let record := preparing_record b owner' in
  of_res (_record_value recursion_limit record) ;;
  installer_mutation_checkpoint installer_scope pinned_reads true ;;
  existing ← read_staged_update;
  let start :=
    current ← read_bytes current_path;
    invalid_if (negb (bool_decide (current = selected_before b))) ;;
    has_previous ← exists_ previous_path;
    previous ← (if has_previous : bool then raw ← read_bytes previous_path; mret (Some raw) else mret None);
    invalid_if (negb (bool_decide (previous = previous_before b))) ;;
    match existing with Some existing => archive existing | None => mret tt end ;;
    _write record in
  match existing with
  | Some existing =>
      if negb (terminal existing) then
        invalid_if (negb (binding_eqb (binding existing) b) || negb (json_eqb (JObj (owner existing)) (JObj owner'))
                    || negb (bool_decide (phase existing = "preparing"))) ;;
        mret existing
      else start
  | None => start
  end.

Definition advanced (record : StagedUpdateRecord) (next_phase : string) (attempt code : option string) (now : datetime)
    : StagedUpdateRecord :=
  {| binding := binding record; phase := next_phase; sequence := sequence record + 1;
     attempt_id := match attempt with Some "" | None => attempt_id record | _ => attempt end;
     owner := owner record;
     switched_at := if bool_decide (next_phase = "switching") then Some now else switched_at record;
     safe_code := code |}.

Definition advance_staged_update (operation expected_phase next_phase : string) (attempt code : option string) (now : datetime)
    : IO StagedUpdateRecord :=
  installer_mutation_checkpoint installer_scope pinned_reads true ;;
  found ← read_staged_update;
  match found with
  | None => of_res _invalid
  | Some record =>
      invalid_if (negb (bool_decide (operation_id (binding record) = operation))
                  || negb (bool_decide (phase record = expected_phase))
                  || negb (str_in next_phase (default [] (_NEXT (phase record))))
                  || (is_some attempt && negb (bool_decide (next_phase = "trial")))) ;;
      _write (advanced record next_phase attempt code now)
  end.

Definition assert_staged_update_allowed (purpose : string) (runtime_tree_sha256 : option string) : IO unit :=
  invalid_if (negb (str_in purpose ["launch"; "ota"; "setup"; "cleanup"])) ;;
  found ← read_staged_update;
  match found with
  | None => mret tt
  | Some record =>
      if terminal record then mret tt
      else
        let b := binding record in
        allowed ←
          (if bool_decide (purpose = "launch") && str_in (phase record) ["preparing"; "prepared"] then
             if bool_decide (runtime_tree_sha256 = Some (selected_tree_sha256_before b)) then
               current ← read_bytes current_path; mret (bool_decide (current = selected_before b))
             else mret false
           else if bool_decide (purpose = "launch") && bool_decide (phase record = "trial") then
             if bool_decide (runtime_tree_sha256 = Some (candidate_tree_sha256 b)) then
               current ← read_bytes current_path;
               selected ← of_res (_selector recursion_limit current);
               mret (json_eqb (JObj selected)
                       (JObj [("schema_version", JInt 1); ("version", JStr (candidate_version b));
                              ("source_revision", JStr (candidate_source_revision b))]))
             else mret false
           else mret false);
        raise_if (negb allowed) (UpdateInProgress "STAGED_UPDATE_IN_PROGRESS")
  end.
End staged_update.
