(* ===== verification/StagedUpdateSpecs.v ===== *)
(** * The journal of staged updates follows its state machine

    Through failures, retries and crashes the journal file is absent or holds a
    record that was reached by beginning an update over nothing or a terminal
    record, and by advancing along [_NEXT]. *)

From S2P Require Import Prelude Store AuditLog Frames Contracts Canonical Demo Semver SemverFacts Json JsonFacts.
From S2P Require Import LocalMessages LocalMessagesSpecs Calendar RuntimePayload StagedRecord DurableFiles.
From S2P Require Import DurableFilesSpecs StagedUpdate.

Section journal.
Context `{Contracts} (windows scope pinned : bool) (limit : nat) (root : file_path).
Context (limit_ok : (3 <= limit)%nat).

Abbreviation _path := (StagedUpdate._path root).
Abbreviation state_root := (StagedUpdate.state_root root).

(** A record that the journal may hold. *)
Definition stored (r : StagedUpdateRecord) : Prop :=
  (∃ v, _record_value limit r = Ok v) ∧ faithful r ∧ Z.of_nat (length (document r)) <= _MAX_BYTES.

(** ** Reading *)

Lemma of_res_quiet {A} (r : res A) : quietly (of_res r).
Proof. by intros d. Qed.
#[local] Hint Resolve of_res_quiet : quiet.

Lemma wp_of_res {A} (r : res A) (Q : res A → Disk → Prop) d : Q r d → wp (of_res r) Q d.
Proof. by rewrite wp_unfold. Qed.

Lemma lstat_gives p d :
  wp (lstat p) (λ r d', quiet d d' ∧ match r with
    | Ok e => entry_at p d = Some e | Exn e => (∃ q, e = FileNotFoundError q) → entry_at p d = None end) d.
Proof.
  unfold lstat. apply wp_call_failure; [|intros e d1 H1 Hne; split; [done|by intros (q & Hq); destruct (Hne q)]].
  intros _ d1 Hq. apply wp_bind, wp_look. simpl. rewrite (entry_at_quiet _ _ _ Hq).
  by destruct (entry_at p d) as [e|]; [apply wp_ret|apply wp_raise].
Qed.

Lemma if_found_lstat p d :
  wp (if_found (lstat p)) (λ r d', quiet d d' ∧ match r with Ok o => entry_at p d = o | Exn _ => True end) d.
Proof.
  unfold if_found. apply wp_try, wp_bind. eapply wp_mono; [apply lstat_gives|].
  intros [e|e] d1 [Hq H1]; simpl; [by apply wp_ret|].
  destruct e; try done. apply wp_ret. split; [done|]. apply H1. by eexists.
Qed.

(** A record in a file is read as it is. *)
Lemma read_opened_reads p r before size d :
  bytes_at p d = Some (document r) → stored r →
  wp (read_opened limit p before size) (λ res d', quiet d d' ∧ match res with Ok r' => r' = r | Exn _ => True end) d.
Proof.
  intros Hb ((v & Hv) & Hf & Hlen). destruct (document_read limit r v Hv Hf limit_ok Hlen) as [Hread Hdec].
  unfold read_opened. eapply wp_use; [apply os_open_opens| |]; cbv beta iota; [|by intros e d1 [H1 _]].
  intros e d1 [Hq He].
  assert (He' : ∃ i, inodes d !! e_ino e = Some i ∧ i_data i = document r).
  { unfold bytes_at in Hb. rewrite He in Hb. simpl in Hb. apply fmap_Some in Hb as (i & Hi & ->). by exists i. }
  destruct He' as (i & Hi & Hdata).
  eapply (wp_use _ _ (λ res d', quiet d d' ∧ match res with Ok v' => v' = v | Exn _ => True end)); cbv beta iota.
  - apply (wp_finally _ _ (quiet d) (λ v' _, v' = v)).
    + do 2 (quiet_step Hq; [done|]). unfold read_file. apply wp_bind, wp_call; [|intros e' d2 H2; split; [etrans|]; done].
      intros _ d2 H2. pose proof (transitivity Hq H2) as Hq2. apply wp_bind, wp_look. simpl. apply wp_ret. simpl.
      assert (Hi2 : inodes d2 !! e_ino e = Some i) by (destruct Hq2 as (_ & -> & _); done).
      rewrite Hi2. simpl. rewrite Hdata, take_ge by (unfold _MAX_BYTES in *; lia).
      apply wp_of_res. rewrite Hread. done.
    + intros d2 H2. apply wp_quietly; [quietly|]. intros res d3 H3. exact (transitivity H2 H3).
    + intros a d2 H2 Ha. by apply wp_quietly; [quietly|].
  - intros v' d2 [Hq2 ->]. do 3 (quiet_step Hq2; [done|]). apply wp_of_res. by rewrite Hdec.
  - by intros e' d2 [H2 _].
Qed.

(** What a name gives, when it gives records. *)
Definition gives_record (p : file_path) (d : Disk) (o : option StagedUpdateRecord) : Prop :=
  match o with
  | Some r => bytes_at p d = Some (document r) ∧ stored r
  | None => bytes_at p d = None ∨ entry_at (parent p) d = None
  end.

Lemma read_record_reads p d :
  (∀ t, bytes_at p d = Some t → ∃ r, t = document r ∧ stored r) →
  wp (_read_record_path limit p) (λ res d', quiet d d' ∧ match res with Ok o => gives_record p d o | Exn _ => True end) d.
Proof.
  intros Hs. unfold _read_record_path.
  eapply wp_use; [apply if_found_lstat| |]; cbv beta iota; [|by intros e d1 [H1 _]].
  intros [dir|] d1 [Hq Hdir]; [|apply wp_ret; split; [done|by right]].
  apply wp_try. eapply (wp_mono _ (λ res d', quiet d d' ∧ match res with Ok o => gives_record p d o | Exn _ => True end)).
  2:{ intros [o|e] d2 [Hq2 Ho]; [done|]. destruct (is_state_error e); [apply wp_raise|]; done. }
  unfold read_checked. quiet_step Hq; [done|].
  eapply wp_use; [apply if_found_lstat| |]; cbv beta iota; [|intros e d2 [H2 _]; split; [etrans|]; done].
  intros [before|] d2 [H2 He]; pose proof (transitivity Hq H2) as Hq2; rewrite (entry_at_quiet _ _ _ Hq) in He.
  2:{ apply wp_ret. split; [done|]. left. unfold bytes_at. by rewrite He. }
  quiet_step Hq2; [done|]. match type of Hq2 with quiet d ?dx => rename dx into d3 end.
  apply wp_bind, wp_look, wp_bind, wp_look, wp_bind, wp_of_res. simpl.
  destruct (valid_if _) as [u|e] eqn:Hcheck; [|done].
  apply valid_if_Ok in Hcheck. rewrite negb_involutive in Hcheck. propify.
  assert (Hb : bytes_at p d3 = bytes_at p d).
  { unfold bytes_at. rewrite (entry_at_quiet _ _ _ Hq2). by destruct Hq2 as (_ & -> & _). }
  destruct (bytes_at p d) as [t|] eqn:Hbytes.
  - destruct (Hs t eq_refl) as (r & -> & Hr).
    eapply wp_use; [by eapply read_opened_reads|..]; cbv beta iota.
    + intros r' d4 [Hq4 ->]. apply wp_ret. split; [etrans|]; done.
    + intros e d4 [Hq4 _]. split; [etrans|]; done.
  - exfalso. unfold size_of in *. unfold bytes_at in Hbytes. rewrite He in Hbytes. simpl in Hbytes.
    destruct Hq2 as (_ & Hi & _). rewrite Hi in *. destruct (inodes d !! e_ino before); [done|]. simpl in *. lia.
Qed.

(** ** Writing *)

Lemma wp_bind_wp {A B} (m : IO A) (k : A → IO B) Q d : wp (m ≫= k) Q d → wp m (wp_k k Q) d.
Proof. rewrite !wp_unfold. unfold mbind, M_bind, wp_k. destruct (m d) as [[a|e] d']; [|done]. simpl. by rewrite !wp_unfold. Qed.

Definition done_of {A} (r : res A) : res unit := match r with Ok _ => Ok tt | Exn e => Exn e end.

(** Python dictionaries, and datetimes that print. *)
Definition plain_record (r : StagedUpdateRecord) : Prop :=
  NoDup (old_release (binding r)).*1 ∧ NoDup (new_release (binding r)).*1 ∧ NoDup (owner r).*1
  ∧ ∀ d, switched_at r = Some d → representable d = true.

Lemma dumpable_faithful r : plain_record r → dumpable (JObj (record_entries r)) = true → faithful r.
Proof.
  intros (Ho & Hn & Hw & Ht) Hd. split; try done. intros n (key & Hin).
  cbn [dumpable record_entries forallb snd] in Hd. rewrite !andb_true_iff in Hd.
  destruct Hd as (_ & _ & _ & _ & _ & _ & Hd & _). rewrite forallb_forall in Hd.
  apply list_elem_of_In in Hin. apply Hd in Hin. simpl in Hin. by apply Nat.leb_le.
Qed.

(** A write of the journal does nothing, or publishes a valid record. *)
Definition write_outcome (r : StagedUpdateRecord) (d : Disk) (res : res StagedUpdateRecord) (d' : Disk) : Prop :=
  (quiet d d' ∧ ∃ e, res = Exn e)
  ∨ (stored r ∧ is_Some (entry_at state_root d) ∧ (∃ d1, quiet d d1 ∧ writes _path (document r) d1 (done_of res) d')
     ∧ ∀ x, res = Ok x → x = r).

Lemma path_parent : parent _path = state_root.
Proof. apply parent_snoc. Qed.

Lemma write_writes r d : plain_record r → wp (_write windows scope pinned limit root r) (write_outcome r d) d.
Proof.
  intros Hp. unfold _write. assert (Hx : ∀ e dx, quiet d dx → write_outcome r d (Exn e) dx) by (intros; left; eauto).
  assert (Hq : quiet d d) by done. apply wp_bind, wp_of_res. simpl.
  destruct (_record_value limit r) as [v|e] eqn:Hv; [|by apply Hx].
  do 2 (quiet_step Hq; [by apply Hx|]). pose proof (record_value_Ok limit r v Hv) as ->.
  unfold write_json_atomic. match type of Hq with quiet d ?dx => rename dx into d1 end.
  change (chars (json_dumps false "," ":" (JObj (record_entries r)))) with (document r).
  apply wp_bind, wp_bind, wp_raise_if; intros Hdump; wp_k; [by apply Hx|]. apply negb_false_iff in Hdump.
  apply wp_bind_wp.
  assert (Hrefuse : entry_at (parent _path) d1 = None ∨ _MAX_BYTES < Z.of_nat (length (document r)) →
    wp (write_bytes_atomic windows scope pinned _path (document r) state_root _MAX_BYTES true ;; mret r) (write_outcome r d) d1).
  { intros Hc. eapply wp_use; [by apply write_bytes_refuses|..]; cbv beta iota.
    - by intros u d2 (_ & e & He).
    - intros e d2 [H2 _]. apply Hx. exact (transitivity Hq H2). }
  destruct (Z_lt_le_dec _MAX_BYTES (Z.of_nat (length (document r)))) as [Hlong|Hlen]; [apply Hrefuse; by right|].
  destruct (entry_at (parent _path) d1) eqn:Hpar; [|apply Hrefuse; by left]. clear Hrefuse.
  assert (Hst : stored r) by (split_and!; [by eexists|by apply dumpable_faithful|done]).
  rewrite path_parent, (entry_at_quiet _ _ _ Hq) in Hpar.
  assert (Hw : ∀ (res : res StagedUpdateRecord) d2, writes _path (document r) d1 (done_of res) d2 → (∀ x, res = Ok x → x = r) →
    write_outcome r d res d2) by (intros; right; split_and!; eauto).
  eapply wp_use; [apply write_bytes_writes|..]; cbv beta iota.
  - intros u d2 H2. apply wp_ret. apply Hw; [by destruct u|by intros ? [= ->]].
  - intros e' d2 H2. by apply Hw.
Qed.

(** ** The archive *)

Lemma wp_assoc' {A B} (m : IO bool) (f : bool → IO A) (k : IO B) Q d :
  wp ((m ≫= f) ≫= λ _, k) Q d → wp (m ≫= λ b, f b ≫= λ _, k) Q d.
Proof. rewrite !wp_unfold. unfold mbind, M_bind. by destruct (m d) as [[a|e] d']. Qed.

Abbreviation history_path := (StagedUpdate.history_path root).
Abbreviation archive_path := (StagedUpdate.archive_path root).

Lemma journal_not_history : _path ≠ history_path.
Proof. unfold StagedUpdate._path, StagedUpdate.history_path. by intros [_ H']%app_inj_tail. Qed.

Lemma history_not_root : history_path ≠ state_root.
Proof. unfold StagedUpdate.history_path. intros H'%(f_equal length). rewrite length_app in H'. simpl in H'. lia. Qed.

Lemma leaf_parent op : parent (archive_path op) = history_path.
Proof. apply parent_snoc. Qed.

Lemma leaf_apart op : archive_path op ≠ _path ∧ ¬ temporary_for (archive_path op) _path ∧ ¬ temporary_for _path (archive_path op).
Proof.
  pose proof history_not_root. split_and!.
  - intros H'%(f_equal parent). by rewrite leaf_parent, path_parent in H'.
  - intros H'%temporary_parent. by rewrite leaf_parent, path_parent in H'.
  - intros H'%temporary_parent. by rewrite leaf_parent, path_parent in H'.
Qed.

Lemma leaf_not_history op : archive_path op ≠ history_path.
Proof. unfold StagedUpdate.archive_path. intros H'%(f_equal length). rewrite length_app in H'. simpl in H'. lia. Qed.

(** Only the entry of the history may be new. *)
Definition steady (d d' : Disk) : Prop :=
  (∀ q, q ≠ history_path → leaves q d d') ∧ (∀ q, q ≠ history_path → entry_at q d' = entry_at q d)
  ∧ inodes d' = inodes d.

#[local] Instance steady_preorder : PreOrder steady.
Proof.
  split; [by intros d|]. intros d1 d2 d3 (L1 & E1 & I1) (L2 & E2 & I2).
  split_and!; [intros q Hq; etrans; [by apply L1|by apply L2]| |congruence].
  intros q Hq. by rewrite E2, E1.
Qed.

Lemma quiet_steady d d' : quiet d d' → steady d d'.
Proof. intros Hq. split_and!; [intros; by apply quiet_leaves|intros; by apply entry_at_quiet|apply Hq]. Qed.

Lemma synced_steady directory d d' : synced_directory directory d d' → steady d d'.
Proof.
  intros Hs. split; [intros; by eapply synced_leaves|]. destruct Hs as (Hi & _ & Hn). split; [|done].
  intros q _. unfold entry_at. rewrite Hn. by destruct (decide _).
Qed.

Lemma mkdir_steady d : wp (mkdir history_path) (λ _, steady d) d.
Proof.
  unfold mkdir. apply wp_call; [|intros; by apply quiet_steady].
  intros _ d1 Hq. apply wp_bind, wp_look. wp_k. apply wp_bind, wp_raise_if; intros _; wp_k; [by apply quiet_steady|].
  apply wp_bind, wp_look. wp_k. apply wp_change. etrans; [by apply quiet_steady|].
  match goal with |- steady d1 ?dx => set (d2 := dx) end.
  assert (Hn : ∀ q, q ≠ history_path → name_at q d2 = name_at q d1).
  { intros q Hq'. unfold d2. by rewrite name_at_rename, decide_False. }
  assert (Hi : inodes d2 = inodes d1) by done. assert (Hx : next_ino d2 = next_ino d1 + 1) by done. clearbody d2.
  split_and!; [intros q Hq'|intros q Hq'; unfold entry_at; by rewrite Hn|done].
  assert (Ho : old_files d1 d2) by (split; [lia|by intros; rewrite Hi]).
  intros S. unfold durably, holds. rewrite (Hn _ Hq').
  split; [by apply old_entries|]. intros [H1 H2]. split; [done|by eapply old_entries].
Qed.

Lemma steady_bytes_at p d d' : steady d d' → p ≠ history_path → bytes_at p d' = bytes_at p d.
Proof. intros (_ & He & Hi) Hp. unfold bytes_at. rewrite He by done. by rewrite Hi. Qed.

Lemma steady_bytes d d' : steady d d' → bytes_at _path d' = bytes_at _path d.
Proof. intros Hs. apply (steady_bytes_at _ _ _ Hs), journal_not_history. Qed.

Lemma prepare_history_steady d :
  wp (present ← exists_ history_path;
      when (negb present) (mkdir history_path ;; protect_state scope pinned history_path ;;
                           flush_directory windows scope pinned state_root))
     (λ _, steady d) d.
Proof.
  apply wp_quiet_bind; [quietly|intros; by apply quiet_steady|]. intros present d1 Hq.
  apply quiet_steady in Hq. apply wp_when; intros _; [|done].
  eapply wp_use; [apply mkdir_steady|..]; cbv beta; [|intros e d2 H2; by etrans].
  intros _ d2 H2. assert (Hs : steady d d2) by by etrans. clear d1 Hq H2 present.
  apply wp_quiet_bind; [quietly|intros e d3 H3; etrans; [done|by apply quiet_steady]|]. intros _ d3 H3.
  assert (Hs3 : steady d d3) by (etrans; [done|by apply quiet_steady]). clear d2 Hs H3.
  eapply wp_mono; [apply flush_directory_syncs|]. intros r d4 [[H4|H4] _]; (etrans; [exact Hs3|]);
    [by apply quiet_steady|by eapply synced_steady].
Qed.

Lemma read_bytes_gives p d :
  wp (read_bytes p) (λ r d', quiet d d' ∧ match r with Ok b => bytes_at p d = Some b | Exn _ => True end) d.
Proof.
  unfold read_bytes. apply wp_call; [|by intros]. intros _ d1 Hq. apply wp_bind, wp_look. wp_k.
  rewrite (entry_at_quiet _ _ _ Hq). unfold bytes_at. destruct (entry_at p d) as [e|]; [|by apply wp_raise]. simpl.
  apply wp_bind, wp_look. wp_k. assert (inodes d1 = inodes d) as -> by apply Hq.
  by destruct (inodes d !! e_ino e); [apply wp_ret|apply wp_raise].
Qed.

Lemma exists_gives p d :
  wp (exists_ p) (λ r d', quiet d d' ∧ match r with Ok b => b = is_some (entry_at p d) | Exn _ => True end) d.
Proof.
  unfold exists_. apply wp_call; [|by intros]. intros _ d1 Hq. apply wp_look. by rewrite (entry_at_quiet _ _ _ Hq).
Qed.

Lemma steady_leaves d d' : steady d d' → leaves _path d d'.
Proof. intros [Hl _]. apply Hl, journal_not_history. Qed.

(** A leaf that is absent, or there for good; a leaf of a run that stopped
    before its history was flushed is neither. *)
Definition archivable (leaf : file_path) (d : Disk) : Prop :=
  entry_at leaf d = None ∨ ∃ c, durable_file leaf (Some c) d.

Lemma archivable_quiet leaf d d' : quiet d d' → archivable leaf d → archivable leaf d'.
Proof.
  intros Hq [Hn|[c Hc]]; [left; by rewrite (entry_at_quiet _ _ _ Hq)|right; exists c].
  by apply (quiet_durably _ _ _ _ Hq).
Qed.

(** The archive leaves the journal alone; the leaf then holds its bytes for good. *)
Lemma archive_archives existing d :
  wp (archive windows scope pinned limit root existing)
    (λ res d', leaves _path d d' ∧ match res with
      | Ok _ => archivable (archive_path (operation_id (binding existing))) d →
          ∃ b, bytes_at _path d = Some b ∧ durable_file (archive_path (operation_id (binding existing))) (Some b) d'
      | Exn _ => True end) d.
Proof.
  unfold archive. set (leaf := archive_path (operation_id (binding existing))).
  assert (Hleaf : leaf ≠ _path ∧ ¬ temporary_for leaf _path) by (destruct (leaf_apart (operation_id (binding existing))); tauto).
  apply wp_assoc'. eapply wp_use; [apply prepare_history_steady|..]; cbv beta; [|intros e d1 H1; split; [by apply steady_leaves|done]].
  intros _ d1 H1. assert (Hx : ∀ (e : exn) d2, steady d d2 → leaves _path d d2 ∧ True) by (intros e d2 H2; split; [by apply steady_leaves|done]).
  apply wp_quiet_bind; [quietly|intros e d2 H2; apply (Hx e); etrans; [done|by apply quiet_steady]|].
  intros _ d2 H2. assert (H12 : steady d d2) by (etrans; [done|by apply quiet_steady]). clear d1 H1 H2.
  eapply wp_use; [apply read_bytes_gives|..]; cbv beta iota;
    [|intros e d3 [H3 _]; apply (Hx e); etrans; [done|by apply quiet_steady]].
  intros raw d3 [H3 Hraw]. rewrite (steady_bytes _ _ H12) in Hraw.
  assert (H13 : steady d d3) by (etrans; [done|by apply quiet_steady]). clear d2 H12 H3.
  eapply wp_use; [apply exists_gives|..]; cbv beta iota;
    [|intros e d4 [H4 _]; apply (Hx e); etrans; [done|by apply quiet_steady]].
  intros archived d4 [H4 Harch].
  assert (Hle : entry_at leaf d3 = entry_at leaf d) by (apply H13, leaf_not_history). rewrite Hle in Harch.
  assert (H14 : steady d d4) by (etrans; [done|by apply quiet_steady]). clear d3 H13 H4 Hle.
  destruct archived.
  - apply wp_quiet_bind; [unfold read_archived_staged_update, _read_record_path, read_checked, read_opened, if_found; quietly
      |intros e d5 H5; apply (Hx e); etrans; [done|by apply quiet_steady]|].
    intros kept d5 H5. assert (H15 : steady d d5) by (etrans; [done|by apply quiet_steady]). clear d4 H14 H5.
    apply wp_bind, wp_of_res. destruct (valid_if _) as [u|e]; wp_k; [|by apply (Hx e)].
    eapply wp_use; [apply read_bytes_gives|..]; cbv beta iota;
      [|intros e d6 [H6 _]; apply (Hx e); etrans; [done|by apply quiet_steady]].
    intros bytes d6 [H6 Hbytes]. rewrite (steady_bytes_at leaf d d5 H15 (leaf_not_history _)) in Hbytes.
    assert (H16 : steady d d6) by (etrans; [done|by apply quiet_steady]). clear d5 H15 H6.
    apply wp_of_res. split; [by apply steady_leaves|]. destruct (valid_if _) as [u'|e] eqn:Hsame; [|done].
    apply valid_if_Ok, negb_true_iff, negb_false_iff, bool_decide_eq_true in Hsame as ->. intros [Hnone|[c Hc]].
    + unfold bytes_at in Hbytes. by rewrite Hnone in Hbytes.
    + exists raw. split; [done|]. pose proof (holds_now _ _ _ (proj2 Hc)) as Hnow. rewrite Hbytes in Hnow.
      injection Hnow as <-. by apply (proj1 H16 leaf (leaf_not_history _)).
  - eapply wp_mono; [apply write_bytes_writes|]. intros res d5 H5. split.
    + etrans; [by apply steady_leaves|]. eapply only_changes_leaves; [by eapply writes_only_changes|..]; [|by destruct Hleaf].
      by intros Heq; destruct Hleaf.
    + destruct res; [|done]. intros _. exists raw. split; [done|]. by eapply writes_durable.
Qed.

(** A leaf that is there, perhaps from a run that failed to flush the history,
    is compared and not flushed. *)
Lemma present_leaf_is_not_flushed existing d :
  is_Some (entry_at history_path d) → is_Some (entry_at (archive_path (operation_id (binding existing))) d) →
  wp (archive windows scope pinned limit root existing) (λ _, quiet d) d.
Proof.
  intros [eh Hh] [el Hl]. unfold archive. assert (Hq : quiet d d) by done.
  eapply wp_use; [apply exists_gives|..]; cbv beta iota; [|by intros e d1 [H1 _]].
  intros present d1 [H1 ->]. rewrite Hh. clear Hq. rename H1 into Hq. cbn [is_some negb when].
  apply wp_bind, wp_ret. wp_k. do 2 (quiet_step Hq; [done|]). match type of Hq with quiet d ?dx => rename dx into d2 end.
  eapply wp_use; [apply exists_gives|..]; cbv beta iota; [|intros e d3 [H3 _]; exact (transitivity Hq H3)].
  intros archived d3 [H3 ->]. rewrite (entry_at_quiet _ _ _ Hq), Hl. change (is_some (Some el)) with true. cbv iota.
  apply wp_quietly; [unfold read_archived_staged_update, _read_record_path, read_checked, read_opened, if_found; quietly|].
  intros r d4 H4. exact (transitivity (transitivity Hq H3) H4).
Qed.

(** ** The transitions of the journal *)

(** The journal gives a record of the state machine, or nothing. *)
Definition journal_ok (d : Disk) : Prop := ∀ t, bytes_at _path d = Some t → ∃ r, t = document r ∧ stored r.

(** The journal was [old], which was put aside, and [r] is written over it. *)
Definition replaces (old : option StagedUpdateRecord) (r : StagedUpdateRecord) (d : Disk) (res : res StagedUpdateRecord)
    (d' : Disk) : Prop :=
  bytes_at _path d = document <$> old ∧ stored r ∧ (∀ x, res = Ok x → x = r)
  ∧ ∃ d1, leaves _path d d1 ∧ writes _path (document r) d1 (done_of res) d'.

Definition keeps_journal (d : Disk) (res : res StagedUpdateRecord) (d' : Disk) : Prop :=
  leaves _path d d' ∧ ∀ x, res = Ok x → bytes_at _path d = Some (document x) ∧ stored x ∧ terminal x = false.

Lemma keeps_exn d d' e : leaves _path d d' → keeps_journal d (Exn e) d'.
Proof. by split. Qed.

(** What [begin_staged_update] may do. *)
Definition begins (b : StagedUpdateBinding) (ow : list (string * json)) (d : Disk) (res : res StagedUpdateRecord) (d' : Disk)
    : Prop :=
  keeps_journal d res d'
  ∨ ∃ old, (∀ r, old = Some r → terminal r = true ∧ stored r) ∧ replaces old (preparing_record b ow) d res d'
      ∧ ∀ r, old = Some r → archivable (archive_path (operation_id (binding r))) d →
          durable_file (archive_path (operation_id (binding r))) (Some (document r)) d'.

(** The journal after what was read and archived. *)
Lemma write_begins b ow old d d1 :
  NoDup (old_release b).*1 → NoDup (new_release b).*1 → NoDup ow.*1 →
  (∀ r, old = Some r → terminal r = true ∧ stored r) → gives_record _path d old →
  leaves _path d d1 → (old = None → quiet d d1) →
  (∀ r, old = Some r → archivable (archive_path (operation_id (binding r))) d →
     durable_file (archive_path (operation_id (binding r))) (Some (document r)) d1) →
  wp (_write windows scope pinned limit root (preparing_record b ow)) (begins b ow d) d1.
Proof.
  intros Hb1 Hb2 Hb3 Hterm Hold Hl Hquiet Harch.
  eapply wp_mono; [apply write_writes; by split_and!|]. intros res d2 [[Hq (e & ->)]|(Hst & Hdir & (d1' & Hq & Hw) & Hres)].
  { left. apply keeps_exn. etrans; [done|by apply quiet_leaves]. }
  right. exists old. split; [done|]. split.
  - split_and!; [|done..|].
    + destruct old as [r|]; simpl in *; [apply Hold|]. destruct Hold as [->|Hnone]; [done|].
      rewrite (entry_at_quiet _ _ _ (Hquiet eq_refl)) in Hdir. rewrite path_parent in Hnone. by rewrite Hnone in Hdir; destruct Hdir.
    + exists d1'. split; [etrans; [done|by apply quiet_leaves]|done].
  - intros r Hr Hnone. specialize (Harch r Hr Hnone). destruct (leaf_apart (operation_id (binding r))) as (Hne & _ & Ht).
    eapply only_changes_leaves; [by eapply writes_only_changes|done..|]. by apply (quiet_durably _ _ _ _ Hq).
Qed.

Lemma begin_begins b ow d :
  NoDup (old_release b).*1 → NoDup (new_release b).*1 → NoDup ow.*1 → journal_ok d →
  wp (begin_staged_update windows scope pinned limit root b ow) (begins b ow d) d.
Proof.
  intros Hb1 Hb2 Hb3 Hok. unfold begin_staged_update. assert (Hq : quiet d d) by done.
  assert (Hx : ∀ e d1, quiet d d1 → begins b ow d (Exn e) d1) by (intros e d1 H1; left; apply keeps_exn; by apply quiet_leaves).
  do 2 (quiet_step Hq; [by apply Hx|]). match type of Hq with quiet d ?dx => rename dx into d1 end.
  pose proof (steady_bytes _ _ (quiet_steady _ _ Hq)) as Hby.
  eapply wp_use; [apply read_record_reads; by rewrite Hby|..]; cbv beta iota;
    [|intros e d2 [H2 _]; apply Hx; exact (transitivity Hq H2)].
  intros existing d2 [H2 Hex].
  assert (Hgives : gives_record _path d existing).
  { unfold gives_record in *. destruct existing; rewrite ?Hby in Hex; [done|].
    by rewrite (entry_at_quiet _ _ _ Hq) in Hex. }
  pose proof (transitivity Hq H2) as Hq2. clear d1 Hq H2 Hby Hex. cbv zeta.
  destruct (match existing with Some r => negb (terminal r) | None => false end) eqn:Hcase.
  - destruct existing as [r|]; [|done]. rewrite Hcase.
    quiet_step Hq2; [by apply Hx|]. apply wp_ret. left. split; [by apply quiet_leaves|].
    apply negb_true_iff in Hcase. intros x [= <-]. destruct Hgives. by split_and!.
  - assert (Hterm : ∀ r, existing = Some r → terminal r = true ∧ stored r).
    { intros r ->. apply negb_false_iff in Hcase. by destruct Hgives. }
    match goal with |- wp (match existing with Some x => if negb (terminal x) then _ else ?m | None => ?n end) _ _ =>
      assert (Hstart : wp n (begins b ow d) d2); [|destruct existing as [r|]; [rewrite Hcase|]; exact Hstart] end.
    do 5 (quiet_step Hq2; [by apply Hx|]). match type of Hq2 with quiet d ?dx => rename dx into d3 end.
    destruct existing as [r|].
    + eapply wp_use; [apply archive_archives|..]; cbv beta iota;
        [|intros e d4 [H4 _]; left; apply keeps_exn; etrans; [by apply quiet_leaves|done]].
      intros _ d4 [H4 H4']. apply (write_begins b ow (Some r)); try done.
      * etrans; [by apply quiet_leaves|done].
      * intros r' [= <-] Hleaf. destruct (H4' (archivable_quiet _ _ _ Hq2 Hleaf)) as (t & Ht & Hdur).
        rewrite (steady_bytes _ _ (quiet_steady _ _ Hq2)) in Ht. destruct Hgives as [Hg _]. rewrite Hg in Ht. by injection Ht as ->.
    + apply wp_bind, wp_ret. wp_k. apply (write_begins b ow None); try done. by apply quiet_leaves.
Qed.

(** What [advance_staged_update] may do. *)
Definition advances (next : string) (attempt code : option string) (now : datetime) (d : Disk) (res : res StagedUpdateRecord)
    (d' : Disk) : Prop :=
  keeps_journal d res d'
  ∨ ∃ r, stored r ∧ next ∈ default [] (_NEXT (phase r)) ∧ (is_Some attempt → next = "trial")
      ∧ replaces (Some r) (advanced r next attempt code now) d res d'.

Lemma advance_advances operation expected next attempt code now d :
  representable now = true → journal_ok d →
  wp (advance_staged_update windows scope pinned limit root operation expected next attempt code now)
    (advances next attempt code now d) d.
Proof.
  intros Hnow Hok. unfold advance_staged_update. assert (Hq : quiet d d) by done.
  assert (Hx : ∀ e d1, quiet d d1 → advances next attempt code now d (Exn e) d1)
    by (intros e d1 H1; left; apply keeps_exn; by apply quiet_leaves).
  quiet_step Hq; [by apply Hx|]. match type of Hq with quiet d ?dx => rename dx into d1 end.
  pose proof (steady_bytes _ _ (quiet_steady _ _ Hq)) as Hby.
  eapply wp_use; [apply read_record_reads; by rewrite Hby|..]; cbv beta iota;
    [|intros e d2 [H2 _]; apply Hx; exact (transitivity Hq H2)].
  intros [r|] d2 [H2 Hex]; pose proof (transitivity Hq H2) as Hq2; [|apply wp_of_res; by apply Hx].
  destruct Hex as [Hr Hst]. rewrite Hby in Hr.
  apply wp_bind, wp_of_res. destruct (valid_if _) as [u|e] eqn:Hc; wp_k; [|by apply Hx].
  apply valid_if_Ok, negb_true_iff in Hc. rewrite !orb_false_iff in Hc. destruct Hc as [[_ Hnext] Hatt].
  apply negb_false_iff, str_in_elem in Hnext.
  assert (Hplain : plain_record (advanced r next attempt code now)).
  { pose proof Hst as (_ & Hf & _). unfold plain_record, advanced. simpl. split_and!; [apply Hf..|].
    intros t. destruct (bool_decide (next = "switching")); [by intros [= <-]|]. apply Hf. }
  eapply wp_mono; [by apply write_writes|]. intros res d3 [[Hq3 (e & ->)]|(Hst' & _ & (d3' & Hq3 & Hw) & Hres)].
  - apply Hx. exact (transitivity Hq2 Hq3).
  - right. exists r. split_and!; try done.
    + intros [at' ->]. simpl in Hatt. by apply negb_false_iff, bool_decide_eq_true in Hatt.
    + split_and!; try done. exists d3'. split; [apply quiet_leaves; exact (transitivity Hq2 Hq3)|done].
Qed.

(** ** The abstract journal *)

(** An update begins over nothing or over a terminal record, and advances along [_NEXT]. *)
Inductive journal_step : option StagedUpdateRecord → option StagedUpdateRecord → Prop :=
| step_begin old b ow :
    (∀ r, old = Some r → terminal r = true) → journal_step old (Some (preparing_record b ow))
| step_advance r next attempt code now :
    next ∈ default [] (_NEXT (phase r)) → (is_Some attempt → next = "trial") →
    journal_step (Some r) (Some (advanced r next attempt code now)).

(** Calls of the code with any arguments, on whatever the operating system
    answers; the machine stops; and what leaves the journal alone. *)
Inductive disk_step : Disk → Disk → Prop :=
| disk_begin b ow d res d' :
    NoDup (old_release b).*1 → NoDup (new_release b).*1 → NoDup ow.*1 →
    begin_staged_update windows scope pinned limit root b ow d = (res, d') → disk_step d d'
| disk_advance operation expected next attempt code now d res d' :
    representable now = true →
    advance_staged_update windows scope pinned limit root operation expected next attempt code now d = (res, d') →
    disk_step d d'
| disk_crash d d' : crashed d d' → disk_step d d'
| disk_elsewhere d d' : leaves _path d d' → disk_step d d'.

(** What the journal file may give, after [j1]. *)
Definition follows (j1 : option StagedUpdateRecord) (c : option text_in) : Prop :=
  ∃ j, c = document <$> j ∧ (∀ r, j = Some r → stored r) ∧ rtc journal_step j1 j.

Lemma stored_document_inj r r' : stored r → stored r' → document r = document r' → r = r'.
Proof using limit_ok.
  intros ((v & Hv) & Hf & Hlen) ((v' & Hv') & Hf' & Hlen') E.
  destruct (document_read limit r v Hv Hf limit_ok Hlen) as [H1 H2].
  destruct (document_read limit r' v' Hv' Hf' limit_ok Hlen') as [H1' H2']. congruence.
Qed.

Lemma follows_ok j1 d : follows j1 (bytes_at _path d) → journal_ok d.
Proof.
  intros (j & Hj & Hst & _) t Ht. rewrite Ht in Hj. destruct j as [r|]; [|done]. apply (inj Some) in Hj as ->. exists r. auto.
Qed.

(** A replacement goes on along the state machine. *)
Lemma replaces_follows j1 old r d res d' :
  (∀ r', old = Some r' → stored r') → journal_step old (Some r) → replaces old r d res d' →
  holds _path (follows j1) d → holds _path (follows j1) d'.
Proof using limit_ok.
  intros Hold Hstep (Hb & Hst & _ & d1 & Hl & Hw) Hh. pose proof (holds_now _ _ _ Hh) as (j & Hj & Hjst & Hreach).
  assert (j = old) as ->.
  { rewrite Hb in Hj. destruct old as [r0|], j as [r1|]; try done. apply (inj Some) in Hj. f_equal.
    symmetry. apply stored_document_inj; auto. }
  apply (proj1 (Hl _)) in Hh. destruct (writes_outcome _ _ _ _ _ _ Hw Hh) as (_ & H' & _).
  eapply holds_mono; [|exact H']. intros c [Hc| ->]; [done|].
  exists (Some r). split_and!; [done|by intros r' [= <-]|by eapply rtc_r].
Qed.

Lemma disk_step_follows j1 d d' :
  disk_step d d' → holds _path (follows j1) d → holds _path (follows j1) d'.
Proof using limit_ok.
  intros Hstep Hh. pose proof (follows_ok j1 d (holds_now _ _ _ Hh)) as Hok.
  destruct Hstep as [b ow d res d' H1 H2 H3 Hrun|op ex next at' code now d res d' Hnow Hrun|d d' Hc|d d' Hl].
  - pose proof (wp_run _ _ _ _ _ (begin_begins b ow d H1 H2 H3 Hok) Hrun) as [[Hl _]|(old & Hold & Hr & _)];
      [exact (proj1 (Hl _) Hh)|].
    eapply replaces_follows; [..|exact Hr|done]; [intros r' E; by destruct (Hold r' E)|].
    constructor. intros r E. by destruct (Hold r E).
  - pose proof (wp_run _ _ _ _ _ (advance_advances op ex next at' code now d Hnow Hok) Hrun) as [[Hl _]|(r & Hst & Hn & Ha & Hr)];
      [exact (proj1 (Hl _) Hh)|].
    eapply replaces_follows; [..|exact Hr|done]; [by intros r' [= <-]|by constructor].
  - by eapply holds_crash.
  - exact (proj1 (Hl _) Hh).
Qed.

(** A record that needs recovery before the switch cannot leave it: [_NEXT] has
    successors, but [_record_value] accepts none of them without [switched_at]. *)
Lemma recovery_before_the_switch_is_stuck r next attempt code now v :
  phase r = "recovery-required" → switched_at r = None → next ∈ default [] (_NEXT (phase r)) →
  _record_value limit (advanced r next attempt code now) ≠ Ok v.
Proof.
  intros Hp Hs Hn Hv. rewrite Hp in Hn. unfold _record_value in Hv.
  repeat (apply res_bind_Ok in Hv as (? & ? & Hv)).
  repeat match goal with Hok : valid_if _ = Ok _ |- _ => apply valid_if_Ok in Hok end.
  simpl in Hn. rewrite !elem_of_cons, elem_of_nil in Hn. unfold advanced in *. simpl in *. rewrite Hs in *.
  by destruct Hn as [->|[->|[]]].
Qed.

(** C8: whatever the calls and their failures, and wherever the machine stops,
    the journal of a staged update is absent or gives a valid record, reached
    from the last one that was durable by beginning an update over nothing or a
    terminal record and by advancing along [_NEXT]. *)
Theorem journal_follows_its_state_machine j1 d1 d2 :
  durable_file _path (document <$> j1) d1 → (∀ r, j1 = Some r → stored r) → rtc disk_step d1 d2 →
  ∃ j2, bytes_at _path d2 = document <$> j2 ∧ (∀ r, j2 = Some r → stored r) ∧ rtc journal_step j1 j2.
Proof using limit_ok.
  intros [_ Hd] Hst Hrun. apply (holds_now _ (follows j1)).
  assert (Hh : holds _path (follows j1) d1).
  { eapply holds_mono; [|exact Hd]. intros c ->. exists j1. done. }
  clear Hd. induction Hrun as [d|d d' d2 Hstep _ IH]; [done|]. apply IH. by eapply disk_step_follows.
Qed.

End journal.

(** ** A computer *)

#[local] Existing Instance Demo.demo_contracts.

Definition digest (n : nat) : string := text (repeat (Ascii.ascii_of_nat 97) n).
Definition quoted (s : string) : text_in := dquote :: chars s ++ [dquote].
Definition selector (version : string) : text_in := chars "{" ++ quoted "version" ++ chars ":" ++ quoted version ++ chars "}".

Definition a_release (version : string) : list (string * json) :=
  [("schema_version", JStr "endpoint_windows_release_v1"); ("version", JStr version);
   ("source_revision", JStr (digest 40)); ("package_sha256", JStr (digest 64));
   ("product_code", JStr "{00000000-0000-4000-8000-00000000000A}"); ("initial_runtime_tree_sha256", JStr (digest 64))].

Definition a_binding : StagedUpdateBinding := {|
  operation_id := "00000000-0000-4000-8000-00000000000a"; old_release := a_release "1.2.3"; new_release := a_release "1.3.0";
  selected_before := selector "1.2.3"; previous_before := None; selected_tree_sha256_before := digest 64;
  previous_tree_sha256_before := None; candidate_version := "1.3.0"; candidate_source_revision := digest 40;
  candidate_tree_sha256 := digest 64 |}.

Definition an_owner : list (string * json) :=
  [("pid", JInt 7); ("created", JInt 9); ("hash", JStr (digest 64)); ("sid", JStr "S-1-5-18"); ("elevated", JBool true)].


Definition agent : file_path := ["p"; "Agent"].

(** The agent is installed, without a journal. *)
Definition machine : Disk := {|
  names := {[ [] := a_directory; ["p"] := a_directory; agent := a_directory; state_root agent := a_directory;
              current_path agent := a_file 1 ]};
  inodes := {[ 1 := {| i_data := selector "1.2.3"; i_synced := true |} ]};
  next_ino := 3; next_hex := λ _, "0"; fates := λ _, goes_on 65536; calls := 0 |}.



Lemma release_distinct version : NoDup (a_release version).*1.
Proof. apply (bool_decide_eq_true_1 _). reflexivity. Qed.
Lemma owner_distinct : NoDup an_owner.*1.
Proof. apply (bool_decide_eq_true_1 _). reflexivity. Qed.


Lemma journal_follows_its_state_machine_witness :
  ∃ d2, rtc (disk_step true true true 10 agent) machine d2
    ∧ ∃ j2, bytes_at (StagedUpdate._path agent) d2 = document <$> j2 ∧ (∀ r, j2 = Some r → stored 10 r) ∧ rtc journal_step None j2.
Proof.
  exists (begin_staged_update true true true 10 agent a_binding an_owner machine).2.
  assert (Hstep : rtc (disk_step true true true 10 agent) machine
    (begin_staged_update true true true 10 agent a_binding an_owner machine).2).
  { apply rtc_once. eapply (disk_begin true true true 10 agent a_binding an_owner machine);
      [exact (release_distinct _)..|exact owner_distinct|apply surjective_pairing]. }
  split; [exact Hstep|].
  apply (journal_follows_its_state_machine true true true 10 agent ltac:(lia) None machine); [|done|exact Hstep].
  split; [reflexivity|]. by apply Forall_singleton.
Defined.

