(* ===== verification/AdminSessions.v ===== *)
(** * Administrator sessions (endpoint_server/auth: admin_sessions.py, csrf.py, passwords.py, bootstrap_admin.py)

    An administrator logs in with a password, then shows the opaque token of a
    cookie; unsafe requests also show the CSRF token derived from it.  Argon2 is
    the class [PasswordHashing].  [operation_budget.check] is an argument. *)

From S2P Require Import Prelude Store Session AuditLog Calendar Credentials Identity Enrollment EnrollmentRoutes ServiceTokens.

(** [PasswordHasher(type=Type.ID)]: [hash] with the salt drawn, and [verify]
    with its exceptions taken for [False]. *)
Class PasswordHashing := {
  argon2_hash : Z → string → string;
  argon2_verify : string → string → bool
}.

(** An HTTP request with the parts that administration reads. *)
Record AdminRequest := {
  adm_http : HttpRequest;
  adm_method : string;
  adm_cookie : option string;           (* endpoint_admin_session *)
  adm_csrf : option string              (* x-csrf-token *)
}.

Definition ADMIN_UPDATE_SCOPE : string := "updates:write".
Definition SESSION_TOKEN_BYTES : nat := 32.
Definition DEFAULT_SESSION_LIFETIME : timedelta := hours 8.

Record IssuedAdminSession := {
  ias_token : string;
  ias_csrf_token : string;
  ias_id : uuid;
  ias_record : AdminSession
}.

Record AdminPrincipal := {
  apr_user : uuid * AdminUser;
  apr_session : uuid * AdminSession
}.

(** The cookie an answer sets. *)
Record AdminCookie := {
  cookie_value : string;
  cookie_max_age : Z;
  cookie_expires : datetime
}.

(** ** Scopes *)

Definition admin_scope_ok (scope : string) : bool :=
  has_length 1 128 scope && bool_decide (scope = strip_text scope) && is_ascii_text scope
  && forallb is_printable (chars scope).

Definition normalize_admin_scopes (scopes : list string) : res (list string) :=
  if forallb admin_scope_ok scopes then Ok (sorted_set scopes)
  else Exn (ValueError "admin scopes must be non-empty printable ASCII").

(** ** Passwords *)

Section passwords.
Context `{PasswordHashing}.

Definition hash_password (password : string) : Tx string :=
  raise_if (bool_decide (password = "")) (ValueError "password must not be empty") ;;
  salt ← uuid4;
  mret (argon2_hash salt password).

Definition verify_password (digest password : string) : bool :=
  startswith "$argon2id$" digest && negb (bool_decide (password = "")) && argon2_verify digest password.
End passwords.

(** ** Sessions *)

Definition _is_opaque_session_token (value : string) : bool :=
  match b64decode_padded value with
  | Some decoded => (String.length decoded =? SESSION_TOKEN_BYTES)%nat
  | None => false
  end.

Definition session_is_active (record : AdminSession) (checked_at : datetime) : bool :=
  is_aware checked_at && is_aware (ads_expires_at record)
  && is_none (ads_revoked_at record) && dt_ltb checked_at (ads_expires_at record).

Definition revoked_admin_session (at_time : datetime) (record : AdminSession) : AdminSession :=
  if is_none (ads_revoked_at record) then record <| ads_revoked_at := Some at_time |> else record.

Definition revoke_admin_session (id : uuid) (now : option datetime) : Tx unit :=
  revoked_at ← aware_now now "now must be timezone-aware";
  update id (revoked_admin_session revoked_at).

Definition admin_unauthorized : exn := HTTPException 401 "Invalid administrator session".
Definition csrf_failed : exn := HTTPException 403 "CSRF validation failed".
Definition update_scope_required : exn := HTTPException 403 "Update administration scope is required".

Definition _CSRF_CONTEXT : string := "endpoint-admin-csrf-v1" +:+ nul.
Definition _SAFE_METHODS : list string := ["GET"; "HEAD"; "OPTIONS"; "TRACE"].
Definition _CSRF_TOKEN_LENGTH : Z := 43.

(** [value.upper()] *)
Definition upper (s : string) : string :=
  text (map (λ c, if is_lower c then byte (code c - 32) else c) (chars s)).

(** [require_admin_update_scope] *)
Definition require_admin_update_scope (principal : AdminPrincipal) : Tx AdminPrincipal :=
  let scopes := usr_scopes (apr_user principal).2 in
  match normalize_admin_scopes scopes with
  | Exn _ => raise update_scope_required
  | Ok normalized_scopes =>
      raise_if (negb (bool_decide (scopes = normalized_scopes)) || negb (str_in ADMIN_UPDATE_SCOPE normalized_scopes))
        update_scope_required ;;
      mret principal
  end.

Section admin_sessions.
Context `{EnrollmentCrypto} `{PasswordHashing} (settings : Settings).
Let secret : string := session_secret settings.

(** ** csrf.py *)

Definition csrf_token_for_session (session_token session_secret : string) : res string :=
  if bool_decide (session_token = "") || bool_decide (session_secret = "")
  then Exn (ValueError "session token and secret must not be empty")
  else if negb (is_ascii_text session_token) then Exn (ValueError "session token must be ASCII")
  else Ok (urlsafe_b64 (hmac_sha256 session_secret (_CSRF_CONTEXT +:+ session_token))).

Definition enforce_csrf (request : AdminRequest) (session_token session_secret : string) : Tx unit :=
  if str_in (upper (adm_method request)) _SAFE_METHODS then mret tt
  else
    let supplied := default "" (adm_csrf request) in
    expected ← lift_res (csrf_token_for_session session_token session_secret);
    let valid_form := (Z.of_nat (String.length supplied) =? _CSRF_TOKEN_LENGTH) && is_ascii_text supplied
                      && forallb is_urlsafe (chars supplied) in
    raise_if (negb valid_form || negb (bool_decide (supplied = expected))) csrf_failed.

(** ** admin_sessions.py *)

Definition session_digest (session_token session_secret : string) : res string :=
  if bool_decide (session_token = "") || bool_decide (session_secret = "")
  then Exn (ValueError "session token and secret must not be empty")
  else if negb (is_ascii_text session_token) then Exn (ValueError "session token must be ASCII")
  else Ok (hex_bytes (hmac_sha256 session_secret session_token)).

Definition issue_admin_session (admin_user_id : uuid) (now : option datetime) (lifetime : timedelta)
    : Tx IssuedAdminSession :=
  issued_at ← aware_now now "now must be timezone-aware";
  raise_if (lifetime <=? 0) (ValueError "session lifetime must be positive") ;;
  raw_bytes ← token_bytes SESSION_TOKEN_BYTES;
  let token := urlsafe_b64 raw_bytes in
  id ← uuid4;
  digest ← lift_res (session_digest token secret);
  csrf_token ← lift_res (csrf_token_for_session token secret);
  mret {| ias_token := token; ias_csrf_token := csrf_token; ias_id := id;
          ias_record := {| ads_admin_user_id := admin_user_id; ads_session_digest := digest;
                           ads_expires_at := dt_add issued_at lifetime; ads_revoked_at := None |} |}.

Definition _load_admin_principal (session_token : string) : Tx (option AdminPrincipal) :=
  if negb (_is_opaque_session_token session_token) then mret None
  else
    digest ← lift_res (session_digest session_token secret);
    found ← scalar (λ _ s, bool_decide (ads_session_digest s = digest));
    match found with
    | None => mret None
    | Some record =>
        now ← utcnow;
        if negb (session_is_active record.2 now) then mret None
        else
          found ← get (ads_admin_user_id record.2);
          match found with
          | None => mret None
          | Some user =>
              mret (if is_some (usr_disabled_at user) then None
                    else Some {| apr_user := (ads_admin_user_id record.2, user); apr_session := record |})
          end
    end.

Definition require_admin (request : AdminRequest) : Tx AdminPrincipal :=
  let session_token := default "" (adm_cookie request) in
  raise_if (bool_decide (session_token = "")) admin_unauthorized ;;
  found ← in_session (_load_admin_principal session_token);
  principal ← require found admin_unauthorized;
  enforce_csrf request session_token secret ;;
  mret principal.

Definition load_update_admin_in_transaction (request : AdminRequest) : Tx AdminPrincipal :=
  let token := default "" (adm_cookie request) in
  found ← _load_admin_principal token;
  principal ← require found admin_unauthorized;
  enforce_csrf request token secret ;;
  require_admin_update_scope principal.

(** The last check before a commit: the rows are read again. *)
Definition revalidate_update_admin_in_transaction (request : AdminRequest) (principal : AdminPrincipal)
    (check_budget : Tx unit) : Tx unit :=
  check_budget ;;
  let user_id := (apr_user principal).1 in
  let session_id := (apr_session principal).1 in
  user ← get (R := AdminUser) user_id;
  record ← get (R := AdminSession) session_id;
  let token := default "" (adm_cookie request) in
  match user, record with
  | Some user, Some record =>
      raise_if (is_some (usr_disabled_at user) || negb (ads_admin_user_id record =? user_id)) admin_unauthorized ;;
      now ← utcnow;
      raise_if (negb (session_is_active record now) || negb (_is_opaque_session_token token)) admin_unauthorized ;;
      digest ← lift_res (session_digest token secret);
      raise_if (negb (bool_decide (ads_session_digest record = digest))) admin_unauthorized ;;
      enforce_csrf request token secret ;;
      require_admin_update_scope {| apr_user := (user_id, user); apr_session := (session_id, record) |} ;;
      check_budget
  | _, _ => raise admin_unauthorized
  end.

(** [max_age] is the whole seconds that are left. *)
Definition set_admin_session_cookie (session_token : string) (expires_at : datetime) : Tx AdminCookie :=
  raise_if (negb (is_aware expires_at)) (ValueError "cookie expiry must be timezone-aware") ;;
  now ← utcnow;
  mret {| cookie_value := session_token;
          cookie_max_age := Z.max 0 (Z.quot (instant expires_at - instant now) 1000000);
          cookie_expires := expires_at |}.

(** ** POST /api/admin/session *)

(** The digest that is verified when no user has the name. *)
Variable _DUMMY_PASSWORD_DIGEST : string.

Definition login_admin (username password : string) (request : AdminRequest) : Tx (string * AdminCookie) :=
  issued ← in_session (
    found ← scalar (λ _ u, bool_decide (usr_username u = username) && is_none (usr_disabled_at u));
    let digest := match found with Some user => usr_password_digest user.2 | None => _DUMMY_PASSWORD_DIGEST end in
    let password_valid := verify_password digest password in
    let refused := HTTPException 401 "Invalid username or password" in
    user ← require found refused;
    raise_if (is_some (usr_disabled_at user.2) || negb password_valid) refused ;;
    issued ← issue_admin_session user.1 None DEFAULT_SESSION_LIFETIME;
    insert (ias_id issued) (ias_record issued) ;;
    rollback_on_error (
      request_id ← audit_request_id settings (adm_http request);
      append_audit_event "admin" (Some (uuid_str user.1)) "admin_session.created" "admin_session"
        (Some (uuid_str (ias_id issued))) request_id [(KStr "username", PStr (usr_username user.2))] None ;;
      commit) ;;
    mret issued);
  cookie ← set_admin_session_cookie (ias_token issued) (ads_expires_at (ias_record issued));
  mret (ias_csrf_token issued, cookie).

(** ** DELETE /api/admin/session

    [session.merge] gives the stored row the values of the principal's, or adds
    it when it is gone. *)

Definition logout_admin (request : AdminRequest) (principal : AdminPrincipal) : Tx unit :=
  in_session (
    let (session_id, record) := apr_session principal in
    insert session_id record ;;
    revoke_admin_session session_id None ;;
    rollback_on_error (
      request_id ← audit_request_id settings (adm_http request);
      append_audit_event "admin" (Some (uuid_str (apr_user principal).1)) "admin_session.revoked" "admin_session"
        (Some (uuid_str session_id)) request_id [] None ;;
      commit)).

(** ** bootstrap_admin.py *)

Definition bootstrap_first_admin (username password request_id : string) : Tx (uuid * AdminUser) :=
  let normalized_username := strip_text username in
  raise_if (negb (has_length 1 128 normalized_username))
    (ValueError "username must contain between 1 and 128 characters") ;;
  existing_admins ← select (λ _ (_ : AdminUser), true);
  raise_if (negb (bool_decide (existing_admins = []))) (RuntimeError "an administrator already exists") ;;
  id ← uuid4;
  digest ← hash_password password;
  scopes ← lift_res (normalize_admin_scopes [ADMIN_UPDATE_SCOPE]);
  let user := {| usr_username := normalized_username; usr_password_digest := digest; usr_scopes := scopes;
                 usr_disabled_at := None |} in
  insert id user ;;
  rollback_on_error (
    append_audit_event "system" (Some "bootstrap-cli") "admin.created" "admin_user" (Some (uuid_str id)) request_id
      [(KStr "username", PStr normalized_username)] None ;;
    commit) ;;
  mret (id, user).

(** The session of [_run]. *)
Definition run_bootstrap (username password : string) : Tx (uuid * AdminUser) :=
  in_session (
    draw ← uuid4;
    bootstrap_first_admin username password ("bootstrap-" +:+ uuid_hex draw)).
End admin_sessions.
