(* ===== verification/ProvisionedCredentials.v ===== *)
(** * Credentials that operators provision

    endpoint_server/auth/provision_helpdesk_module_credential.py and
    provision_helpdesk_diagnostic_credential.py, run by root, hand a bearer over
    in a new private file; endpoint_server/provisioning (pilot_service.py,
    admin_routes.py) shows an administrator the bearer of a test pilot once.

    The file system is a map of paths to contents.  What the operating system
    does with the one write and the one removal of a run is an argument. *)

From S2P Require Import Prelude Store Session AuditLog Calendar Credentials Identity Enrollment EnrollmentRoutes.
From S2P Require Import ServiceTokens EnrollmentRequestRoutes AdminSessions.

(** ** A database session and files *)

Record Host := {
  host_world : World;
  host_files : gmap string string
}.
#[export] Instance Host_eta : Eta Host := λ h, Build_Host (host_world h) (host_files h).

Definition on_db {A} (m : Tx A) : M Host A := λ h,
  let (r, w) := m (host_world h) in (r, h <| host_world := w |>).

(** [async with provider() as session] *)
Definition with_session {A} (body : M Host A) : M Host A := λ h,
  let start w := w <| db := committed w |> in
  let (r, h) := body (h <| host_world := start (host_world h) |>) in
  (r, h <| host_world := start (host_world h) |>).

(** The fate of creating and writing a file, and of removing one. *)
Inductive write_fate :=
| write_done
| open_refused                        (* [os.open] raises *)
| write_broken (written : string).    (* a later call raises, with this much written *)

Record OperatingSystem := {
  os_write : write_fate;
  os_unlink : bool
}.

(** [path.is_absolute()] *)
Definition is_absolute (path : string) : bool := startswith "/" path.

(** [os.open] with O_CREAT and O_EXCL *)
Definition open_exclusively (fate : write_fate) (path : string) : M Host unit := λ h,
  match host_files h !! path, fate with
  | Some _, _ => (Exn (OSError "File exists"), h)
  | None, open_refused => (Exn (OSError "open"), h)
  | None, _ => (Ok tt, h <| host_files := <[path := ""]> (host_files h) |>)
  end.

(** [fchmod], the writes and [fsync] *)
Definition write_open_file (fate : write_fate) (path content : string) : M Host unit := λ h,
  match fate with
  | write_broken written => (Exn (OSError "write"), h <| host_files := <[path := written]> (host_files h) |>)
  | _ => (Ok tt, h <| host_files := <[path := content]> (host_files h) |>)
  end.

(** [path.unlink(missing_ok=True)] *)
Definition unlink (works : bool) (path : string) : M Host unit := λ h,
  if works then (Ok tt, h <| host_files := delete path (host_files h) |>) else (Exn (OSError "unlink"), h).

Definition newline : string := String (byte 10) "".

(** [try: body finally-less except Exception: handler; raise] *)
Definition on_failure {A} (body : M Host A) (handler : M Host unit) : M Host A :=
  try_except body (λ e, Some (handler ;; raise e)).

(** [try: body except OSError: pass] *)
Definition suppress_os_errors (body : M Host unit) : M Host unit :=
  try_except body (λ e, match e with OSError _ => Some (mret tt) | _ => None end).

(** ** The module workbench of the Helpdesk *)

Definition MODULE_OPERATIONS_CREATE_SCOPE : string := "module_operations.create".
Definition MODULE_OPERATIONS_READ_SCOPE : string := "module_operations.read".
Definition MODULES_READ_SCOPE : string := "modules.read".
Definition PROVISIONING_INSTALL_CLAIMS_ISSUE_SCOPE : string := "provisioning.install-claims.issue".

Definition HELPDESK_MODULE_SERVICE_CLIENT_IDENTIFIER : string := "helpdesk-module-staging".
Definition _HELPDESK_MODULE_SERVICE_DISPLAY_NAME : string := "Helpdesk Endpoint Module workbench (staging)".
Definition HELPDESK_MODULE_SCOPES : list string :=
  [MODULE_OPERATIONS_CREATE_SCOPE; MODULE_OPERATIONS_READ_SCOPE; "modules.publish"; MODULES_READ_SCOPE;
   "modules.validate"; "modules.write"].

(** ** The diagnostic integration *)

Definition REQUIRED_EXISTING_SCOPES : list string :=
  ["devices.read"; "context.read"; "context.collect"; "operations.create"; "operations.read"].
Definition ADDED_SCOPES : list string := [MODULES_READ_SCOPE; MODULE_OPERATIONS_CREATE_SCOPE; MODULE_OPERATIONS_READ_SCOPE].
Definition ALLOWED_SCOPES : list string :=
  REQUIRED_EXISTING_SCOPES ++ ADDED_SCOPES ++ ["operations.cancel"; "device-binding.redeem"].

(** [a <= b] on sets *)
Definition subset (a b : list string) : bool := forallb (λ s, str_in s b) a.

Definition diagnostic_scopes (existing : list string) : res (list string) :=
  if negb (subset REQUIRED_EXISTING_SCOPES existing) || negb (subset existing ALLOWED_SCOPES)
  then Exn (ValueError "existing scopes require independent review")
  else Ok (sorted_set (existing ++ ADDED_SCOPES)).

(** A row looked up by its natural key, or a new one added under a fresh id. *)
Definition client_or_new (client_identifier display_name : string) : Tx (uuid * ServiceClient) :=
  found ← scalar (λ _ c, bool_decide (cli_client_identifier c = client_identifier));
  match found with
  | Some client => mret client
  | None =>
      id ← uuid4;
      let client := {| cli_client_identifier := client_identifier; cli_display_name := display_name;
                       cli_disabled_at := None |} in
      insert id client ;;
      mret (id, client)
  end.

Section helpdesk.
Context `{EnrollmentCrypto} (settings : Settings) (os : OperatingSystem).

(** [write_private_token_file] of provision_helpdesk_module_credential.py: a file
    that could not be written to the end is left. *)
Definition write_private_token_file (destination token : string) : M Host unit :=
  raise_if (negb (is_absolute destination)) (ValueError "output file path must be absolute") ;;
  raise_if (bool_decide (token = "")) (ValueError "service credential must not be empty") ;;
  raise_if (negb (is_ascii_text token)) (ValueError "service credential must be ASCII") ;;
  open_exclusively (os_write os) destination ;;
  write_open_file (os_write os) destination (token +:+ newline).

Definition _helpdesk_module_service_client : Tx (uuid * ServiceClient) :=
  client ← client_or_new HELPDESK_MODULE_SERVICE_CLIENT_IDENTIFIER _HELPDESK_MODULE_SERVICE_DISPLAY_NAME;
  raise_if (is_some (cli_disabled_at client.2)) (RuntimeError "Helpdesk module service client is disabled") ;;
  mret client.

(** The rows of a new credential for the module workbench. *)
Definition module_credential_rows (request_id : string) : Tx IssuedServiceCredential :=
  client ← _helpdesk_module_service_client;
  create_service_credential client.1 (service_token_pepper settings)
    {| crq_actor_kind := "system"; crq_actor_identifier := Some "helpdesk-module-provision-cli";
       crq_request_id := request_id; crq_scopes := HELPDESK_MODULE_SCOPES; crq_expires_at := None;
       crq_credential_identifier := None |} None false.

Definition provision_helpdesk_module_credential (output_path request_id : string) : M Host ServiceCredentialSummary :=
  issued ← on_failure
    (issued ← on_db (module_credential_rows request_id);
     write_private_token_file output_path (isc_token issued) ;;
     mret issued)
    (on_db rollback);
  on_failure
    (on_db commit ;;
     mret (service_credential_summary (isc_id issued) (isc_record issued)))
    (on_db rollback ;; suppress_os_errors (unlink (os_unlink os) output_path)).

Definition revoke_helpdesk_module_credentials (request_id : string) (now : option datetime) : Tx Z :=
  revoked_at ← aware_now now "revocation time must be timezone-aware";
  rollback_on_error (
    found ← scalar (λ _ c, bool_decide (cli_client_identifier c = HELPDESK_MODULE_SERVICE_CLIENT_IDENTIFIER));
    match found with
    | None => mret 0
    | Some client =>
        credentials ← select (λ _ c, (svc_service_client_id c =? client.1) && is_none (svc_revoked_at c));
        for_each credentials (λ credential,
          revoke_service_credential credential.1 (Some revoked_at) ;;
          append_audit_event "system" (Some "helpdesk-module-revoke-cli") "helpdesk_module_credential.revoked"
            "service_credential" (Some (uuid_str credential.1)) request_id
            [(KStr "scopes", PList (map PStr (svc_scopes credential.2)))] (Some revoked_at) ;;
          mret tt) ;;
        commit ;;
        mret (Z.of_nat (length credentials))
    end).

(** [_run] of the module provisioner for root: [None] asks for a revocation. *)
Definition run_module_provisioner (output_file : option string) : M Host (option Z) :=
  with_session (
    draw ← on_db uuid4;
    let request_id := "helpdesk-module-provision-" +:+ uuid_hex draw in
    match output_file with
    | None => revoked ← on_db (revoke_helpdesk_module_credentials request_id None); mret (Some revoked)
    | Some path => provision_helpdesk_module_credential path request_id ;; mret None
    end).

(** ** The diagnostic integration: its credential and one that succeeds it *)

(** [write_private_token_file] of provision_helpdesk_diagnostic_credential.py: a
    file that could not be written to the end is removed. *)
Definition write_diagnostic_token_file (path token : string) : M Host unit :=
  raise_if (negb (is_absolute path)) (ValueError "output file must be absolute") ;;
  open_exclusively (os_write os) path ;;
  on_failure (write_open_file (os_write os) path (token +:+ newline)) (unlink (os_unlink os) path).

(** The current credential and its client, read again under their locks. *)
Definition current_integration (current_token : string) : Tx (uuid * ServiceClient * ServiceCredential) :=
  found ← _load_service_principal current_token (service_token_pepper settings);
  principal ← require found (ValueError "current integration credential is inactive");
  let changed := ValueError "integration identity changed" in
  client ← get (spr_client principal).1;
  credential ← get (spr_credential principal).1;
  match client, credential with
  | Some client, Some credential =>
      raise_if (is_some (cli_disabled_at client)
                || negb (svc_service_client_id credential =? (spr_client principal).1)) changed ;;
      now ← utcnow;
      raise_if (negb (service_credential_is_active credential now)) changed ;;
      mret ((spr_client principal).1, client, credential)
  | _, _ => raise changed
  end.

(** The rows of the credential that succeeds the current one. *)
Definition diagnostic_credential_rows (current_token request_id : string) : Tx IssuedServiceCredential :=
  current ← current_integration current_token;
  let '(client_id, client, credential) := current in
  scopes ← lift_res (diagnostic_scopes (svc_scopes credential));
  issued ← create_service_credential client_id (service_token_pepper settings)
    {| crq_actor_kind := "system"; crq_actor_identifier := Some "helpdesk-diagnostic-provision-cli";
       crq_request_id := request_id; crq_scopes := scopes; crq_expires_at := svc_expires_at credential;
       crq_credential_identifier := None |} None false;
  append_audit_event "system" (Some "helpdesk-diagnostic-provision-cli") "helpdesk_diagnostic_credential.provisioned"
    "service_client" (Some (uuid_str client_id)) request_id
    [(KStr "added_scopes", PList (map PStr (sorted_set ADDED_SCOPES)));
     (KStr "rollback_credential_retained", PBool true)] None ;;
  mret issued.

Definition provision_helpdesk_diagnostic_credential (current_token output_path request_id : string)
    : M Host ServiceCredentialSummary :=
  issued ← on_failure
    (issued ← on_db (diagnostic_credential_rows current_token request_id);
     write_diagnostic_token_file output_path (isc_token issued) ;;
     mret issued)
    (on_db rollback);
  on_failure
    (on_db commit ;;
     mret (service_credential_summary (isc_id issued) (isc_record issued)))
    (on_db rollback ;; unlink (os_unlink os) output_path).

(** [_run] of the diagnostic provisioner for root, with the token it has read. *)
Definition run_diagnostic_provisioner (token output_file : string) : M Host unit :=
  raise_if (negb (has_length 1 256 token)) (ValueError "invalid credential input") ;;
  with_session (
    draw ← on_db uuid4;
    provision_helpdesk_diagnostic_credential token output_file ("helpdesk-diagnostic-" +:+ uuid_hex draw) ;;
    mret tt).
End helpdesk.

(** ** Test pilots (provisioning/pilot_service.py, admin_routes.py) *)

Definition _PILOT_SERVICE_DISPLAY_NAME : string := "ALT test pilot".
Definition PILOT_CREDENTIAL_LIFETIME : timedelta := minutes 15.

Definition pilot_disabled (client : uuid * ServiceClient) : Tx unit :=
  raise_if (is_some (cli_disabled_at client.2)) (ValueError "test-pilot service client is disabled").

(** [_pilot_service_client]: created on demand, or looked for. *)
Definition pilot_client : Tx (uuid * ServiceClient) :=
  client ← client_or_new PILOT_SERVICE_CLIENT_IDENTIFIER _PILOT_SERVICE_DISPLAY_NAME;
  pilot_disabled client ;;
  mret client.

Definition find_pilot_client : Tx (option (uuid * ServiceClient)) :=
  found ← scalar (λ _ c, bool_decide (cli_client_identifier c = PILOT_SERVICE_CLIENT_IDENTIFIER));
  match found with
  | None => mret None
  | Some client => pilot_disabled client ;; mret (Some client)
  end.

Section pilot.
Context `{EnrollmentCrypto} (settings : Settings).

(** The two normalizations and the derived identifier. *)
Definition bound_identifier (campaign_id : uuid) (installation_id hardware_fingerprint : string) : res string :=
  res_bind (normalize_install_session_id installation_id) (λ installation_id,
  res_bind (normalize_hardware_fingerprint hardware_fingerprint) (λ fingerprint,
  pilot_credential_identifier settings campaign_id installation_id fingerprint)).

Definition issue_test_pilot_credential (installation_id : string) (campaign_id : uuid) (hardware_fingerprint : string)
    (actor_id request_id : string) (now : option datetime) : Tx IssuedServiceCredential :=
  normalized_installation_id ← lift_res (normalize_install_session_id installation_id);
  normalized_fingerprint ← lift_res (normalize_hardware_fingerprint hardware_fingerprint);
  issued_at ← aware_now now "credential issuance time must be timezone-aware";
  client ← pilot_client;
  identifier ← lift_res (bound_identifier campaign_id normalized_installation_id normalized_fingerprint);
  issued ← create_service_credential client.1 (service_token_pepper settings)
    {| crq_actor_kind := "admin"; crq_actor_identifier := Some actor_id; crq_request_id := request_id;
       crq_scopes := [PROVISIONING_INSTALL_CLAIMS_ISSUE_SCOPE];
       crq_expires_at := Some (dt_add issued_at PILOT_CREDENTIAL_LIFETIME);
       crq_credential_identifier := Some identifier |} (Some issued_at) false;
  append_audit_event "admin" (Some actor_id) "provisioning_test_pilot_credential.issued" "service_credential"
    (Some (uuid_str (isc_id issued))) request_id
    [(KStr "expires_at", opt_pytime (svc_expires_at (isc_record issued)));
     (KStr "campaign_id", PStr (uuid_str campaign_id)); (KStr "installation_id", PStr normalized_installation_id);
     (KStr "scope", PStr PROVISIONING_INSTALL_CLAIMS_ISSUE_SCOPE)] (Some issued_at) ;;
  mret issued.

Definition revoke_test_pilot_credential (credential_id : uuid) (actor_id request_id : string) (now : option datetime)
    : Tx bool :=
  found ← find_pilot_client;
  match found with
  | None => mret false
  | Some client =>
      found ← scalar (λ id c, (id =? credential_id) && (svc_service_client_id c =? client.1));
      match found with
      | None => mret false
      | Some credential =>
          if is_some (svc_revoked_at credential.2) then mret false
          else
            revoked_at ← now_or now;
            revoke_service_credential credential.1 (Some revoked_at) ;;
            append_audit_event "admin" (Some actor_id) "provisioning_test_pilot_credential.revoked" "service_credential"
              (Some (uuid_str credential.1)) request_id
              [(KStr "expires_at", opt_pytime (svc_expires_at credential.2));
               (KStr "scope", PStr PROVISIONING_INSTALL_CLAIMS_ISSUE_SCOPE)] (Some revoked_at) ;;
            mret true
      end
  end.

(** *** admin_routes.py *)

Record PilotCredentialResponse := {
  pcr_credential_id : uuid;
  pcr_token : string;
  pcr_expires_at : option datetime
}.

Definition invalid_pilot : exn := HTTPException 422 "Invalid test-pilot provisioning credential".

Definition create_test_pilot_credential (install_session_id : string) (campaign_id : uuid) (hardware_fingerprint : string)
    (request : AdminRequest) (principal : AdminPrincipal) : Tx PilotCredentialResponse :=
  match normalize_install_session_id install_session_id with
  | Exn _ => raise invalid_pilot
  | Ok installation_id =>
      issued ← in_session (try_except
        (request_id ← audit_request_id settings (adm_http request);
         issued ← issue_test_pilot_credential installation_id campaign_id hardware_fingerprint
                    (uuid_str (apr_user principal).1) request_id None;
         commit ;;
         mret issued)
        (λ e, Some (rollback ;; raise (if is_value_error e then invalid_pilot else e))));
      mret {| pcr_credential_id := isc_id issued; pcr_token := isc_token issued;
              pcr_expires_at := svc_expires_at (isc_record issued) |}
  end.

Definition revoke_test_pilot_credential_route (credential_id : uuid) (request : AdminRequest) (principal : AdminPrincipal)
    : Tx unit :=
  in_session (rollback_on_error (
    request_id ← audit_request_id settings (adm_http request);
    changed ← revoke_test_pilot_credential credential_id (uuid_str (apr_user principal).1) request_id None;
    when changed commit)).
End pilot.
