(* ===== verification/History.v ===== *)
(** * Rows over a history of requests

    Between two states that requests lead from one to the other, the rows of a
    table are related by [R]: no row is lost, and none changes but as [R] allows.
    The relation holds of the working copy and of what is committed, so that it
    passes through commits, rollbacks and sessions. *)

From S2P Require Import Prelude Store Session AuditLog Frames Contracts Calendar Credentials Identity Enrollment EnrollmentRoutes.

Section history.
Context {Row : Type} `{TableLaws Row} (R : Row → Row → Prop) `{!PreOrder R}.

(** Every row of [base] is still there, changed within [R], and new ids are unused. *)
Definition intact (base : gmap uuid Row) (w : World) : Prop :=
  fresh (seed w) (table (db w)) ∧ fresh (seed w) (table (committed w))
  ∧ rows_kept R base (table (db w)) ∧ rows_kept R base (table (committed w)).

Definition stays (w w' : World) : Prop := ∀ base, intact base w → intact base w'.

#[export] Instance stays_preorder : PreOrder stays.
Proof. split; [by intros w base|]. intros x y z Hxy Hyz base Hx. by apply Hyz, Hxy. Qed.

(** Parts that leave the table alone. *)
Definition aside (w w' : World) : Prop :=
  same (λ w, (table (Table := H) (db w), committed w)) w w' ∧ seed_le w w'.

Lemma stays_of_aside w w' : aside w w' → stays w w'.
Proof.
  intros [[= Hd Hc] Hs] base (F1 & F2 & K1 & K2). unfold intact. rewrite Hd, Hc.
  split_and!; try done; by eapply fresh_le.
Qed.

Lemma stays_aside {A} (m : Tx A) : pres aside m → pres stays m.
Proof. apply pres_mono, stays_of_aside. Qed.

Lemma stays_utcnow : pres stays utcnow.
Proof. by intros w base. Qed.

Lemma stays_uuid4 : pres stays uuid4.
Proof. intros w base (F1 & F2 & K). split_and!; [..|apply K|apply K]; (eapply fresh_le; [done|simpl; lia]). Qed.

Lemma rows_kept_step id (f : Row → Row) base m :
  (∀ v, R v (f v)) → rows_kept R base m → rows_kept R base (alter f id m).
Proof.
  intros Hf Hk. eapply rows_kept_trans; [intros x y z ??; by etrans|exact Hk|]. apply rows_kept_alter; [|auto]. intros v. reflexivity.
Qed.

Lemma fresh_alter {V} n (f : V → V) id (m : gmap uuid V) : fresh n m → fresh n (alter f id m).
Proof. intros Hf j v (u & _ & Hu)%lookup_alter_cases. by eapply Hf. Qed.

Lemma stays_update id (f : Row → Row) : (∀ v, R v (f v)) → pres stays (update id f).
Proof.
  intros Hf w base (F1 & F2 & K1 & K2). unfold intact; simpl. rewrite table_set.
  split_and!; try done; [by apply fresh_alter|by apply rows_kept_step].
Qed.

Lemma stays_flush : pres stays flush.
Proof. apply pres_flush. apply _. Qed.

Lemma stays_make_durable : pres stays make_durable.
Proof. intros w base (F1 & F2 & K1 & K2). by split_and!. Qed.

Lemma stays_rollback : pres stays rollback.
Proof. intros w base (F1 & F2 & K1 & K2). by split_and!. Qed.

Lemma stays_in_session {A} (m : Tx A) : pres stays m → pres stays (in_session m).
Proof.
  intros Hm w base (F1 & F2 & K1 & K2). unfold in_session.
  specialize (Hm (w <| db := committed w |>) base). destruct (m _) as [r w']. simpl in *.
  destruct Hm as (G1 & G2 & L1 & L2); by split_and!.
Qed.

(** From one state, for operations that depend on it. *)
Lemma stays_stored w : stays w (stored w).
Proof. intros base (F1 & F2 & K1 & K2). by split_and!. Qed.

Lemma stays_session_at {A} (m : Tx A) w : wp m (λ _, stays (stored w)) (stored w) → stays w (in_session m w).2.
Proof.
  rewrite wp_unfold. unfold in_session, stored. destruct (m _) as [r w']. simpl. intros Hm base Hb.
  destruct (Hm base (stays_stored w base Hb)) as (G1 & G2 & L1 & L2). by split_and!.
Qed.

Lemma stays_rollback_on_error {A} (m : Tx A) : pres stays m → pres stays (rollback_on_error m).
Proof.
  intros Hm. apply pres_try; [apply _|done|]. intros e m' [= <-].
  apply pres_bind; [apply _|apply stays_rollback|]. intros _. apply pres_raise. apply _.
Qed.

Lemma stays_commit : pres stays commit.
Proof. apply pres_bind; [apply _|apply stays_flush|]. intros _. apply stays_make_durable. Qed.

(** A new row under an id that was just drawn. *)
Lemma stays_insert id (row : Row) w :
  fresh id (table (db w)) → fresh id (table (committed w)) → id < seed w → stays w (insert id row w).2.
Proof.
  intros F1' F2' Hlt base (F1 & F2 & K1 & K2). unfold intact; simpl. rewrite table_set.
  split_and!; [by apply fresh_insert|done| |done].
  eapply rows_kept_trans; [intros x y z ??; by etrans|exact K1|]. apply rows_kept_insert; [intros v; reflexivity|].
  by apply fresh_lookup.
Qed.
End history.

#[export] Hint Resolve stays_utcnow stays_uuid4 stays_flush stays_make_durable stays_rollback stays_commit : frame.
#[export] Hint Resolve stays_in_session stays_rollback_on_error : frame.

(** ** Savepoints

    [async with session.begin_nested()]: the session's pending changes are
    flushed, the body runs, its changes are flushed, and an error undoes what the
    body did to the working copy.  Ids that were drawn and the clock move on. *)

Definition savepoint {A} (body : Tx A) : Tx A := λ w,
  match (a ← body; flush ;; mret a) w with
  | (Exn e, w') => (Exn e, w' <| db := db w |>)
  | r => r
  end.

Definition begin_nested {A} (body : Tx A) : Tx A := flush ;; savepoint body.

Definition is_integrity_error (e : exn) : bool := match e with IntegrityError _ => true | _ => false end.

(** ** What a savepoint keeps *)

Lemma pres_savepoint {A} (R : World → World → Prop) `{!PreOrder R} (m : Tx A) :
  pres R m → (∀ w w', R w w' → R w (w' <| db := db w |>)) → pres R (savepoint m).
Proof.
  intros Hm Hundo w. unfold savepoint.
  assert (pres R (a ← m; flush ;; mret a)) as Hall.
  { apply pres_bind; [done|done|]. intros a. apply pres_bind; [done|apply pres_flush; done|]. intros _. by apply pres_ret. }
  specialize (Hall w). destruct ((a ← m; flush ;; mret a) w) as [[a|e] w']; simpl in *; [done|]. by apply Hundo.
Qed.

Lemma pres_begin_nested {A} (R : World → World → Prop) `{!PreOrder R} (m : Tx A) :
  pres R m → (∀ w w', R w w' → R w (w' <| db := db w |>)) → pres R (begin_nested m).
Proof.
  intros Hm Hundo. apply pres_bind; [done|apply pres_flush; done|]. intros _. by apply pres_savepoint.
Qed.

(** A session of its own, for relations that do not look at the working copy. *)
Lemma pres_in_session {A} (R : World → World → Prop) `{!PreOrder R} (m : Tx A) :
  (∀ w d, R w (w <| db := d |>)) → pres R m → pres R (in_session m).
Proof.
  intros Hdb Hm w. unfold in_session. specialize (Hm (w <| db := committed w |>)).
  destruct (m _) as [r w']. simpl in *. etrans; [apply Hdb|]. etrans; [exact Hm|apply Hdb].
Qed.

Lemma seed_begin_nested {A} (m : Tx A) : pres seed_le m → pres seed_le (begin_nested m).
Proof. intros Hm. apply pres_begin_nested; [apply _|done|]. by intros w w'. Qed.
#[export] Hint Extern 1 (pres seed_le (begin_nested _)) => apply seed_begin_nested; frame : frame.

Section stays.
Context {Row : Type} `{TableLaws Row} (R : Row → Row → Prop) `{!PreOrder R}.

Lemma stays_begin_nested {A} (m : Tx A) : pres (stays R) m → pres seed_le m → pres (stays R) (begin_nested m).
Proof.
  intros Hm Hs. apply (pres_mono (λ w w', stays R w w' ∧ seed_le w w')); [by intros w w' []|].
  assert (PreOrder (λ w w', stays R w w' ∧ seed_le w w')) as Hpre.
  { split; [by intros w; split|]. intros x y z [H1 H2] [H3 H4]. split; by etrans. }
  apply pres_begin_nested; [done|by apply pres_and|]. intros w w' [Hst Hse]. split; [|done].
  intros base Hb. destruct (Hst base Hb) as (_ & F2 & _ & K2). destruct Hb as (F1 & _ & K1 & _).
  split_and!; simpl; try done. by eapply fresh_le.
Qed.

(** Rows that a query found, changed in the same breath. *)
Lemma stays_select_update {A} P (f : Row → Row) (k : list (uuid * Row) → Tx A) :
  (∀ id v, P id v = true → R v (f v)) → (∀ l, pres (stays R) (k l)) →
  pres (stays R) (l ← select P; for_each l (λ r, update r.1 f) ;; k l).
Proof.
  intros Hf Hk. apply pres_of_wp. intros w. apply wp_bind, wp_select. intros l Hnd Hl. wp_k.
  apply wp_bind. eapply wp_mono; [by apply update_each_spec|]. intros r w1 (-> & m & -> & Hm). wp_k.
  apply wp_trans; [apply _| |by apply wp_of_pres].
  pose proof (updated_selected P f _ _ l Hl Hm) as Hrow.
  intros base (F1 & F2 & K1 & K2). unfold intact; simpl. rewrite table_set. split_and!; try done.
  - intros id v Hv. rewrite Hrow in Hv. destruct (table (db w) !! id) as [u|] eqn:Hu; [|done]. by eapply F1.
  - eapply rows_kept_trans; [intros x y z ??; by etrans|exact K1|]. intros id v Hv. rewrite Hrow, Hv. simpl.
    eexists. split; [done|]. destruct (P id v) eqn:HP; [by eapply Hf|reflexivity].
Qed.

(** An id that was just drawn is not in use. *)
Lemma stays_uuid4_then {A} (k : uuid → Tx A) :
  (∀ w, fresh (seed w) (table (db w)) → fresh (seed w) (table (committed w)) →
        stays R (w <| seed := seed w + 1 |>) (k (seed w) (w <| seed := seed w + 1 |>)).2) →
  pres (stays R) (uuid4 ≫= k).
Proof.
  intros Hk w base Hb. unfold mbind, M_bind, uuid4; simpl. apply Hk; [apply Hb..|].
  by apply (stays_uuid4 R w base).
Qed.
End stays.

(** A row that is added and flushed in a savepoint is there, or nothing changed. *)
Lemma nested_insert `{Table Row} id (row : Row) w :
  let w' := with_table <[id := row]> w in
  begin_nested (insert id row ;; flush) w =
    if integrity_ok (db w) && integrity_ok (db w') then (Ok tt, w')
    else (Exn (IntegrityError (default "" (if integrity_ok (db w) then violated (db w') else violated (db w)))), w).
Proof.
  unfold begin_nested, savepoint, mbind, M_bind, flush, insert, integrity_ok, with_table. simpl.
  destruct (violated (db w)) eqn:E; simpl; [done|]. destruct (violated (set_table _ _)) eqn:E'; simpl; [by destruct w|].
  by rewrite E'.
Qed.

(** ** Invariants over a history

    [P x n d] is a property of a database [d] in which the ids from [n] on are
    unused, with ghost data [x] (such as the rows that were there once).  It is
    upheld by what leaves the [view] of it alone, and passes through commits,
    rollbacks and sessions. *)

Class Guard {X V : Type} (P : X → Z → DB → Prop) (view : DB → V) : Prop := {
  guard_le x n n' d : P x n d → n <= n' → P x n' d;
  guard_view x n d d' : view d' = view d → P x n d → P x n d'
}.

(** The handler of an exception. *)
Lemma pres_catch {A} (R : World → World → Prop) `{!PreOrder R} (m : Tx A) handles handler :
  pres R m → (∀ e, pres R (handler e)) → pres R (catch m handles handler).
Proof. intros Hm Hh. apply pres_try; [done|done|]. intros e m' Hd. destruct (handles e); [|done]. injection Hd as <-. apply Hh. Qed.

Section upholds.
Context {X V : Type} (P : X → Z → DB → Prop) (view : DB → V) `{!Guard P view}.

Definition upheld (x : X) (w : World) : Prop := P x (seed w) (db w) ∧ P x (seed w) (committed w).
Definition upholds (w w' : World) : Prop := ∀ x, upheld x w → upheld x w'.

#[export] Instance upholds_preorder : PreOrder upholds.
Proof. split; [by intros w x|]. intros a b c Hab Hbc x Hx. by apply Hbc, Hab. Qed.

Definition viewed (w : World) : V * DB := (view (db w), committed w).

Lemma upholds_aside w w' : same viewed w w' → seed_le w w' → upholds w w'.
Proof.
  intros [= Hd Hc] Hs x [H1 H2]. unfold seed_le in Hs. split.
  - eapply guard_le; [|exact Hs]. by eapply guard_view.
  - rewrite Hc. by eapply guard_le.
Qed.

Lemma upholds_apart {A} (m : Tx A) : keeps viewed m → pres seed_le m → pres upholds m.
Proof. intros H1 H2 w. apply upholds_aside; [apply H1|apply H2]. Qed.

Lemma upholds_utcnow : pres upholds utcnow.
Proof. apply upholds_apart; frame. Qed.
Lemma upholds_uuid4 : pres upholds uuid4.
Proof. apply upholds_apart; frame. Qed.
Lemma upholds_make_durable : pres upholds make_durable.
Proof. by intros w x [H1 H2]. Qed.
Lemma upholds_commit : pres upholds commit.
Proof. apply pres_bind; [apply _|apply pres_flush; apply _|]. intros _. apply upholds_make_durable. Qed.
Lemma upholds_rollback : pres upholds rollback.
Proof. by intros w x [H1 H2]. Qed.

Lemma upholds_in_session {A} (m : Tx A) : pres upholds m → pres upholds (in_session m).
Proof.
  intros Hm w x [H1 H2]. unfold in_session. specialize (Hm (w <| db := committed w |>) x).
  destruct (m _) as [r w']. simpl in *. destruct Hm as [_ H3]; by split.
Qed.

Lemma upholds_rollback_on_error {A} (m : Tx A) : pres upholds m → pres upholds (rollback_on_error m).
Proof.
  intros Hm. apply pres_try; [apply _|done|]. intros e m' [= <-].
  apply pres_bind; [apply _|apply upholds_rollback|]. intros _. apply pres_raise. apply _.
Qed.
End upholds.

#[export] Hint Resolve upholds_utcnow upholds_uuid4 upholds_commit upholds_rollback : frame.
