(* ===== verification/AuthDemo.v ===== *)
(** * A small server for the witnesses of authentication

    Concrete stand-ins for the cryptography that fit its documented lengths, the
    settings, two requests and an empty database. *)

From S2P Require Import Prelude Store Session AuditLog SemverFacts Calendar Credentials Identity Enrollment.
From S2P Require Import EnrollmentRoutes ServiceTokens AdminSessions.

(** [n] characters of a text, filled up. *)
Definition fit (n : nat) (s : string) : string := text (take n (chars s ++ replicate n (byte 65))).

Lemma fit_length n s : String.length (fit n s) = n.
Proof.
  unfold fit. rewrite <- length_chars, chars_text, length_take, length_app, length_replicate. lia.
Qed.

Definition toy_crypto : EnrollmentCrypto := {|
  hmac_sha256 := λ key message, fit 32 (message +:+ key);
  aesgcm_encrypt := λ _ _ data _, data;
  aesgcm_decrypt := λ _ _ data _, Some data;
  random_bytes := λ draw n, fit n (String (byte (draw mod 256)) "") |}.

Lemma toy_random (draw : Z) n : String.length (random_bytes (EnrollmentCrypto := toy_crypto) draw n) = n.
Proof. apply fit_length. Qed.

Lemma toy_hmac key message : String.length (hmac_sha256 (EnrollmentCrypto := toy_crypto) key message) = 32%nat.
Proof. apply fit_length. Qed.

Definition toy_hashing : PasswordHashing := {|
  argon2_hash := λ _ p, "$argon2id$" +:+ p;
  argon2_verify := λ digest p, bool_decide (digest = "$argon2id$" +:+ p) |}.

Definition toy_settings : Settings := {|
  device_token_pepper := "device"; service_token_pepper := "service"; session_secret := "secret";
  allowed_agent_cidrs := []; trusted_proxy_cidrs := [] |}.

Definition toy_request (header : option string) : HttpRequest := {|
  client_host := None; forwarded_for := []; authorization := header; x_request_id := None |}.

Definition toy_admin_request (cookie : option string) : AdminRequest := {|
  adm_http := toy_request None; adm_method := "GET"; adm_cookie := cookie; adm_csrf := None |}.

Definition toy_world : World :=
  {| committed := empty_db; db := empty_db; seed := 1000; clock := λ n, Z.of_nat n; ticks := 0 |}.

(** With the client of an integration *)
Definition toy_client : ServiceClient :=
  {| cli_client_identifier := "helpdesk"; cli_display_name := "Helpdesk"; cli_disabled_at := None |}.

Definition toy_fleet : World :=
  let d := empty_db <| service_clients := {[ 5 := toy_client ]} |> in
  {| committed := d; db := d; seed := 1000; clock := λ n, Z.of_nat n; ticks := 0 |}.

Definition toy_credential_request : CredentialRequest := {|
  crq_actor_kind := "system"; crq_actor_identifier := None; crq_request_id := "r1";
  crq_scopes := ["devices.read"; "context.read"; "context.collect"; "operations.create"; "operations.read"];
  crq_expires_at := None; crq_credential_identifier := None |}.

Definition toy_issue : Tx IssuedServiceCredential :=
  create_service_credential (H := toy_crypto) 5 (service_token_pepper toy_settings) toy_credential_request None true.

Lemma toy_issue_succeeds : ∃ i w, toy_issue toy_fleet = (Ok i, w).
Proof.
  assert (match (toy_issue toy_fleet).1 with Ok _ => true | Exn _ => false end = true) as Hok by (vm_compute; reflexivity).
  destruct (toy_issue toy_fleet) as [[i|e] w]; [by exists i, w|done].
Qed.
