(* ===== verification/ServiceTokensSpecs.v ===== *)
(** * What service credentials guarantee

    An issued token parses back to its prefix; a request is let through exactly
    with the token of an active credential of an enabled client that holds the
    scope literally. *)

From S2P Require Import Prelude Store Session AuditLog Frames AuditFacts Contracts Semver SemverFacts Calendar.
From S2P Require Import Credentials Identity Enrollment EnrollmentRoutes ServiceTokens AdminSessions AuthDemo.

(** ** Base64 *)

Lemma code_byte n : 0 <= n < 256 → code (byte n) = n.
Proof.
  intros Hn. unfold code, byte, Ascii.ascii_of_nat. rewrite Ascii.N_ascii_embedding; lia.
Qed.

Lemma byte_of_code c : byte (code c) = c.
Proof.
  unfold byte, code, Ascii.ascii_of_nat.
  replace (N.of_nat (Z.to_nat (Z.of_N (Ascii.N_of_ascii c)))) with (Ascii.N_of_ascii c) by lia.
  apply Ascii.ascii_N_embedding.
Qed.

(** A digit of the encoder, and its value. *)
Definition digit_facts (d : Z) : bool :=
  bool_decide (b64_value (b64_digit d) = Some d) && negb (is_pad (b64_digit d)) && is_urlsafe (b64_digit d)
  && (code (b64_digit d) <? 128) && negb (code (b64_digit d) =? 46).

Lemma b64_digit_facts d : 0 <= d < 64 → digit_facts d = true.
Proof.
  intros Hd. assert (forallb digit_facts (seqZ 0 64) = true) as Hall by reflexivity.
  rewrite forallb_forall in Hall. apply Hall, list_elem_of_In, elem_of_seqZ. lia.
Qed.

Ltac digit_fact H := unfold digit_facts in H; rewrite !andb_true_iff, ?bool_decide_eq_true, ?negb_true_iff in *; destruct_and? H.

Lemma b64_digit_value d : 0 <= d < 64 → b64_value (b64_digit d) = Some d.
Proof. intros Hd%b64_digit_facts. by digit_fact Hd. Qed.
Lemma b64_digit_pad d : 0 <= d < 64 → is_pad (b64_digit d) = false.
Proof. intros Hd%b64_digit_facts. by digit_fact Hd. Qed.

(** Lists three elements at a time. *)
Lemma list_ind3 {A} (P : list A → Prop) :
  P [] → (∀ a, P [a]) → (∀ a b, P [a; b]) → (∀ a b c l, P l → P (a :: b :: c :: l)) → ∀ l, P l.
Proof.
  intros H0 H1 H2 H3. fix IH 1. intros [|a [|b [|c l]]]; [done|apply H1|apply H2|apply H3, IH].
Qed.

Ltac b64_digits :=
  repeat match goal with
    | |- context [b64_value (b64_digit ?d)] => rewrite (b64_digit_value d) by (Z.to_euclidean_division_equations; lia)
    | |- context [is_pad (b64_digit ?d)] => rewrite (b64_digit_pad d) by (Z.to_euclidean_division_equations; lia)
    end.

Ltac b64_byte :=
  match goal with
  | |- byte ?e = ?c => etrans; [|apply (byte_of_code c)]; f_equal; Z.to_euclidean_division_equations; lia
  end.

Lemma pad_b64_step a b c d l : pad_b64 (a :: b :: c :: d :: l) = a :: b :: c :: d :: pad_b64 l.
Proof.
  unfold pad_b64. simpl. do 4 f_equal. f_equal. f_equal. f_equal.
  rewrite !Nat2Z.inj_succ. Z.to_euclidean_division_equations; lia.
Qed.

Lemma b64_round_trip l : b64_bytes (pad_b64 (b64_chars l)) = Some l.
Proof.
  induction l as [|a|a b|a b c l IH] using list_ind3; [done|..].
  - pose proof (code_range a). unfold pad_b64. simpl. b64_digits. simpl. do 2 f_equal. b64_byte.
  - pose proof (code_range a). pose proof (code_range b). unfold pad_b64. simpl. b64_digits. simpl.
    do 2 f_equal; [b64_byte|]. f_equal. b64_byte.
  - pose proof (code_range a). pose proof (code_range b). pose proof (code_range c).
    cbn [b64_chars]. rewrite pad_b64_step. simpl. b64_digits. simpl. rewrite IH. simpl.
    do 2 f_equal; [b64_byte|]. f_equal; [b64_byte|]. f_equal. b64_byte.
Qed.

Lemma length_b64_chars l : Z.of_nat (length (b64_chars l)) = (4 * Z.of_nat (length l) + 2) / 3.
Proof.
  induction l as [|a|a b|a b c l IH] using list_ind3; [done..|].
  cbn [b64_chars length]. rewrite !Nat2Z.inj_succ, IH. Z.to_euclidean_division_equations; lia.
Qed.

(** What holds of every digit holds of an encoding. *)
Lemma b64_chars_all (P : Ascii.ascii → Prop) l : (∀ d, 0 <= d < 64 → P (b64_digit d)) → Forall P (b64_chars l).
Proof.
  intros HP. induction l as [|a|a b|a b c l IH] using list_ind3; simpl;
    try (pose proof (code_range a)); try (pose proof (code_range b)); try (pose proof (code_range c));
    repeat constructor; try done; apply HP; Z.to_euclidean_division_equations; lia.
Qed.

Lemma forallb_Forall {A} (P : A → bool) (l : list A) : forallb P l = true ↔ Forall (λ x, P x = true) l.
Proof. rewrite forallb_forall, Forall_forall. by setoid_rewrite list_elem_of_In. Qed.

Lemma b64_chars_forallb (P : Ascii.ascii → bool) l :
  (∀ d, 0 <= d < 64 → P (b64_digit d) = true) → forallb P (b64_chars l) = true.
Proof. intros HP. apply forallb_Forall. by apply b64_chars_all. Qed.

Lemma b64_chars_urlsafe l : forallb is_urlsafe (b64_chars l) = true.
Proof. apply b64_chars_forallb. intros d Hd%b64_digit_facts. by digit_fact Hd. Qed.
Lemma b64_chars_ascii l : forallb (λ c, code c <? 128) (b64_chars l) = true.
Proof. apply b64_chars_forallb. intros d Hd%b64_digit_facts. by digit_fact Hd. Qed.
Lemma b64_chars_undotted l : forallb (λ c, negb (code c =? 46)) (b64_chars l) = true.
Proof. apply b64_chars_forallb. intros d Hd%b64_digit_facts. by digit_fact Hd. Qed.

(** ** Tokens *)

Lemma split_none sep l : forallb (λ c, negb (code c =? sep)) l = true → split sep l = [l].
Proof.
  induction l as [|c l IH]; simpl; [done|]. intros H. propify. 
  rewrite (proj2 (Z.eqb_neq _ _)) by done. by rewrite IH.
Qed.

Lemma split_one sep c a b :
  code c = sep → forallb (λ c, negb (code c =? sep)) a = true → split sep (a ++ c :: b) = a :: split sep b.
Proof.
  intros Hc. induction a as [|d a IH]; simpl; intros Ha.
  - by rewrite Hc, Z.eqb_refl.
  - propify. rewrite (proj2 (Z.eqb_neq _ _)) by done. by rewrite IH.
Qed.

Lemma startswith_app a b : startswith a (a +:+ b) = true.
Proof.
  unfold startswith. induction a as [|c a IH]; simpl; [by destruct b|]. by destruct (Ascii.ascii_dec c c).
Qed.

Lemma removeprefix_app a b : removeprefix a (a +:+ b) = b.
Proof.
  unfold removeprefix. rewrite startswith_app, chars_app, drop_app_length'; [apply text_chars|by rewrite length_chars].
Qed.

Lemma hex_char_facts c : is_lower_hex c = true → negb (code c =? 46) = true ∧ (code c <? 128) = true.
Proof.
  unfold is_lower_hex, is_digit, between. rewrite negb_true_iff, Z.eqb_neq, Z.ltb_lt, orb_true_iff.
  intros [H|H]; propify; lia.
Qed.

Lemma identifier_chars (P : Ascii.ascii → bool) id :
  (∀ c, is_lower_hex c = true → P c = true) → identifier_ok id = true → forallb P (chars id) = true.
Proof.
  unfold identifier_ok. intros HP H. propify. rewrite forallb_Forall in *. eapply Forall_impl; [done|]. simpl. auto.
Qed.

(** The token of an identifier and a secret parses to its prefix. *)
Lemma parse_issued_token id secret :
  identifier_ok id = true → String.length secret = SERVICE_TOKEN_BYTES →
  parse_service_token ((_TOKEN_PREFIX_MARKER +:+ id) +:+ "." +:+ urlsafe_b64 secret) = Some (_TOKEN_PREFIX_MARKER +:+ id).
Proof.
  intros Hid Hsecret. unfold parse_service_token, urlsafe_b64. rewrite !chars_app, chars_text.
  change (chars ".") with [byte 46]. cbn [app].
  rewrite <- (chars_app _TOKEN_PREFIX_MARKER), split_one; [|done|].
  2: { rewrite chars_app, forallb_app. by rewrite (identifier_chars _ id) by (done || apply hex_char_facts). }
  rewrite split_none by apply b64_chars_undotted.
  unfold b64decode_padded. rewrite chars_text, b64_round_trip. unfold mbind, option_bind, fmap, option_fmap, option_map.
  rewrite !text_chars, startswith_app, removeprefix_app, Hid.
  assert (length (chars secret) = SERVICE_TOKEN_BYTES) as Hlen by by rewrite length_chars.
  rewrite length_b64_chars, Hlen, b64_chars_urlsafe. unfold is_ascii_text. rewrite chars_text, b64_chars_ascii, Hsecret. done.
Qed.

Lemma issued_token_ascii id secret :
  identifier_ok id = true → is_ascii_text ((_TOKEN_PREFIX_MARKER +:+ id) +:+ "." +:+ urlsafe_b64 secret) = true.
Proof.
  intros Hid. unfold is_ascii_text, urlsafe_b64. rewrite !chars_app, !forallb_app, chars_text, b64_chars_ascii.
  by rewrite (identifier_chars _ id) by (done || apply hex_char_facts).
Qed.

Lemma split_nonempty sep l : split sep l ≠ [].
Proof. destruct l as [|c l]; simpl; [done|]. destruct (code c =? sep); [done|]. by destruct (split sep l). Qed.

Lemma split_single sep l a : split sep l = [a] → l = a.
Proof.
  revert a. induction l as [|c l IH]; intros a; simpl; [by intros [= <-]|]. destruct (code c =? sep).
  - intros [= _ Hn]. by apply split_nonempty in Hn.
  - destruct (split sep l) as [|i [|]] eqn:Hi; [by apply split_nonempty in Hi| |done].
    intros [= <-]. f_equal. by apply IH.
Qed.

Lemma split_two sep l a b : split sep l = [a; b] → ∃ c, code c = sep ∧ l = a ++ c :: b.
Proof.
  revert a. induction l as [|c l IH]; intros a; simpl; [done|]. destruct (code c =? sep) eqn:Hc.
  - intros [= <- Hs]. apply split_single in Hs as <-. propify. by exists c.
  - destruct (split sep l) as [|i items] eqn:Hi; [done|]. intros [= <- Hs]. subst.
    destruct (IH i eq_refl) as (e & He & ->). by exists e.
Qed.

Lemma startswith_split a v : startswith a v = true → v = a +:+ removeprefix a v.
Proof.
  intros Hs. unfold removeprefix. rewrite Hs. revert v Hs. unfold startswith.
  induction a as [|c a IH]; intros v Hs; [change (v = text (chars v)); by rewrite text_chars|].
  destruct v as [|d v]; simpl in Hs; [done|]. destruct (Ascii.ascii_dec c d) as [->|]; [|done].
  change (String d v = String d (a +:+ text (drop (String.length a) (chars v)))). f_equal. by apply IH.
Qed.

Lemma parsed_ascii token prefix : parse_service_token token = Some prefix → is_ascii_text token = true.
Proof.
  unfold parse_service_token. destruct (split 46 (chars token)) as [|p [|e [|]]] eqn:Hsp; try done.
  apply split_two in Hsp as (c & Hc & Htok). destruct (b64decode_padded (text e)) as [bytes|]; [|done]. simpl.
  destruct (startswith _ _) eqn:Hst; [|done]. destruct (identifier_ok _) eqn:Hid; [|done].
  destruct (_ =? _); [|done]. destruct (is_ascii_text (text e)) eqn:Ha; [|done]. intros _.
  apply startswith_split in Hst. revert Hid Hst. generalize (removeprefix _TOKEN_PREFIX_MARKER (text p)).
  intros id Hid Hst. unfold is_ascii_text in *. rewrite chars_text in Ha.
  rewrite Htok, forallb_app. simpl. rewrite Hc, Ha. rewrite andb_true_r.
  rewrite <- (chars_text p), Hst, chars_app, forallb_app.
  by rewrite (identifier_chars _ id) by (done || apply hex_char_facts).
Qed.

(** ** Bearer headers *)

Lemma unspaced_urlsafe c : is_urlsafe c = true → negb (code c =? 32) = true.
Proof.
  unfold is_urlsafe, is_upper, is_lower, is_digit, between, in_set. rewrite negb_true_iff, Z.eqb_neq, !orb_true_iff.
  intros [[[H|H]|H]|H]; propify; try lia. rewrite !elem_of_cons, elem_of_nil in H. lia.
Qed.

Lemma issued_token_unspaced id secret :
  identifier_ok id = true →
  forallb (λ c, negb (code c =? 32)) (chars ((_TOKEN_PREFIX_MARKER +:+ id) +:+ "." +:+ urlsafe_b64 secret)) = true.
Proof.
  intros Hid. unfold urlsafe_b64. rewrite !chars_app, !forallb_app, chars_text.
  rewrite (identifier_chars _ id); [|intros c Hc; unfold is_lower_hex, is_digit, between in Hc|done].
  - simpl. apply forallb_Forall. eapply Forall_impl; [apply forallb_Forall, b64_chars_urlsafe|]. apply unspaced_urlsafe.
  - rewrite negb_true_iff, Z.eqb_neq. rewrite orb_true_iff in Hc. destruct Hc; propify; lia.
Qed.

Lemma partition_space_bearer l :
  partition_space (chars "Bearer" ++ byte 32 :: l) = (chars "Bearer", Some l).
Proof. done. Qed.

Lemma existsb_unspaced l : forallb (λ c, negb (code c =? 32)) l = true → existsb (λ c, code c =? 32) l = false.
Proof. induction l as [|c l IH]; simpl; [done|]. intros [Hc Hl]%andb_prop. rewrite IH by done. by apply negb_true_iff in Hc as ->. Qed.

Lemma bearer_of_header request token :
  authorization request = Some ("Bearer " +:+ token) → token ≠ "" →
  forallb (λ c, negb (code c =? 32)) (chars token) = true → service_bearer_token request = Some token.
Proof.
  intros Ha Hne Hs. unfold service_bearer_token. rewrite Ha.
  change (chars (default "" (Some ("Bearer " +:+ token)))) with (chars "Bearer" ++ byte 32 :: chars token). rewrite partition_space_bearer.
  rewrite existsb_unspaced, !text_chars by done. rewrite (bool_decide_false (chars token = [])); [done|].
  intros Hc. apply Hne. by rewrite <- (text_chars token), Hc.
Qed.

(** ** Scopes *)

Lemma elem_of_sorted_set s l : s ∈ sorted_set l ↔ s ∈ l.
Proof. unfold sorted_set. by rewrite elem_of_order_by, elem_of_remove_dups. Qed.

Lemma str_in_sorted_set s l : str_in s (sorted_set l) = str_in s l.
Proof. unfold str_in. apply bool_decide_ext, elem_of_sorted_set. Qed.

Lemma normalized_scopes l l' : _normalize_scopes l = Ok l' → l' = sorted_set l.
Proof. unfold _normalize_scopes. destruct (negb _); [done|]. case_bool_decide; [done|]. by intros [= <-]. Qed.

(** ** Requests *)

(** The time a request that starts in [w] reads. *)
Definition now_of (w : World) : datetime := utc_datetime (clock w (ticks w)).

Section requests.
Context `{EnrollmentCrypto}.

(** [token] is the bearer of the principal [p] in the database [d] at [t]. *)
Definition token_authorizes (d : DB) (token pepper : string) (t : datetime) (p : ServicePrincipal) : Prop :=
  service_credentials d !! (spr_credential p).1 = Some (spr_credential p).2
  ∧ parse_service_token token = Some (svc_token_prefix (spr_credential p).2)
  ∧ service_token_digest token pepper = Ok (svc_secret_digest (spr_credential p).2)
  ∧ service_credential_is_active (spr_credential p).2 t = true
  ∧ (spr_client p).1 = svc_service_client_id (spr_credential p).2
  ∧ service_clients d !! (spr_client p).1 = Some (spr_client p).2
  ∧ cli_disabled_at (spr_client p).2 = None.

Lemma prefixes_unique d id id' c c' :
  integrity_ok d = true → service_credentials d !! id = Some c → service_credentials d !! id' = Some c' →
  svc_token_prefix c = svc_token_prefix c' → id = id' ∧ c = c'.
Proof.
  intros Hi Hc Hc' Hp.
  eapply (unique_on_inj (Some ∘ svc_token_prefix) (service_credentials d)); [|done..|simpl; by rewrite Hp|done].
  eapply integrity_constraint; [exact Hi|]. constraint.
Qed.

Lemma parsed_digest token pepper prefix :
  pepper ≠ "" → parse_service_token token = Some prefix → ∃ digest, service_token_digest token pepper = Ok digest.
Proof.
  intros Hp Ht. unfold service_token_digest. rewrite (parsed_ascii _ _ Ht). rewrite !bool_decide_false; [by eauto|done|].
  intros ->. done.
Qed.

(** Loading a principal decides [token_authorizes]. *)
Lemma load_principal_spec token pepper w :
  integrity_ok (db w) = true →
  wp (_load_service_principal token pepper) (λ r w',
    db w' = db w ∧ committed w' = committed w ∧ seed w' = seed w ∧
    match r with
    | Ok (Some p) => token_authorizes (db w) token pepper (now_of w) p
    | Ok None => ∀ p, ¬ token_authorizes (db w) token pepper (now_of w) p
    | Exn e => service_token_digest token pepper = Exn e ∧ parse_service_token token ≠ None
    end) w.
Proof.
  intros Hi. unfold _load_service_principal. destruct (parse_service_token token) as [prefix|] eqn:Hp.
  2: { apply wp_ret. split_and!; try done. intros p (_ & Hq & _). congruence. }
  apply wp_bind, wp_scalar.
  - intros id c Hc Hpre. apply bool_decide_eq_true in Hpre. wp_k. apply wp_bind, wp_lift_res.
    destruct (service_token_digest token pepper) as [digest|e] eqn:Hd; wp_k; [|done].
    assert (∀ p, token_authorizes (db w) token pepper (now_of w) p → (spr_credential p).1 = id ∧ (spr_credential p).2 = c) as Hone.
    { intros p (Hr & Hq & _). eapply prefixes_unique; [done..|]. congruence. }
    case_bool_decide as Hdig; simpl negb; cbv iota.
    2: { apply wp_ret. split_and!; try done. intros p Ha. destruct (Hone p Ha) as [_ Hc2].
         destruct Ha as (_ & _ & Hs & _). congruence. }
    wp_step. change (utc_datetime (clock w (ticks w))) with (now_of w).
    destruct (service_credential_is_active c (now_of w)) eqn:Ha; simpl negb; cbv iota.
    2: { apply wp_ret. split_and!; try done. intros p Hp2. destruct (Hone p Hp2) as [_ Hc2].
         destruct Hp2 as (_ & _ & _ & Hact & _). congruence. }
    wp_step. change (table (db (w <| ticks := S (ticks w) |>))) with (service_clients (db w)).
    destruct (service_clients (db w) !! svc_service_client_id c) as [client|] eqn:Hcl.
    2: { apply wp_ret. split_and!; try done. intros p Hp2. destruct (Hone p Hp2) as [_ Hc2].
         destruct Hp2 as (_ & _ & _ & _ & Hid & Hrow & _). congruence. }
    apply wp_ret. split_and!; try done. destruct (cli_disabled_at client) eqn:Hdis; simpl is_some; cbv iota.
    + intros p Hp2. destruct (Hone p Hp2) as [_ Hc2]. destruct Hp2 as (_ & _ & _ & _ & Hid & Hrow & Hen). congruence.
    + unfold token_authorizes; simpl. by rewrite Hpre, Hd, Hdig.
  - intros Hnone. wp_k. apply wp_bind, wp_lift_res.
    destruct (service_token_digest token pepper) as [digest|e] eqn:Hd; wp_k; [|done].
    apply wp_ret. split_and!; try done. intros p (Hr & Hq & _). specialize (Hnone _ _ Hr).
    simpl in Hnone. apply bool_decide_eq_false in Hnone. congruence.
Qed.

(** C26: a request is let through for a scope exactly when its bearer token is the
    token of a stored credential, by prefix and digest, that is neither revoked nor
    expired at the moment the request reads, whose client is enabled, and whose
    grant names the scope literally; any other bearer gets 401, and a valid one
    without the scope 403.  Nothing is written. *)
Theorem service_authorization_is_exact settings scope request w :
  integrity_ok (committed w) = true → service_token_pepper settings ≠ "" →
  wp (require_service_scope settings scope request) (λ r w',
    committed w' = committed w ∧
    let authorized p := ∃ token, service_bearer_token request = Some token
      ∧ token_authorizes (committed w) token (service_token_pepper settings) (now_of w) p in
    match r with
    | Ok p => authorized p ∧ scope ∈ svc_scopes (spr_credential p).2
    | Exn e => (e = service_unauthorized ∧ ∀ p, ¬ authorized p)
        ∨ (e = HTTPException 403 "Required service scope is missing" ∧ ∃ p, authorized p ∧ scope ∉ svc_scopes (spr_credential p).2)
    end) w.
Proof.
  intros Hi Hp. unfold require_service_scope. apply wp_bind, wp_require.
  2: { intros Hn. wp_k. split; [done|]. left. split; [done|]. intros p (token & Ht & _). congruence. }
  intros token Ht. wp_k. apply wp_bind, wp_in_session. eapply wp_mono; [by apply load_principal_spec|].
  intros [[p|]|e] w1 (Hd & Hc & Hs & Hr); wp_k.
  - apply wp_bind, wp_require; [|done]. intros p' [= <-]. wp_k. apply wp_bind, wp_raise_if; intros Hsc; wp_k.
    + split; [done|]. right. split; [done|]. exists p. split; [by exists token|]. unfold str_in in Hsc. by propify.
    + apply wp_ret. split; [done|]. split; [by exists token|]. unfold str_in in Hsc. by propify.
  - apply wp_bind, wp_require; [done|]. intros _. wp_k. split; [done|]. left. split; [done|].
    intros p (token' & Ht' & Ha). replace token' with token in Ha by congruence. by eapply Hr.
  - destruct Hr as [Hr Hpn]. destruct (parse_service_token token) as [prefix|] eqn:Hpt; [|done].
    destruct (parsed_digest _ _ _ Hp Hpt) as [digest Hdig]. congruence.
Qed.

(** ** Issuing *)

(** A token with its record, for a client's request. *)
Definition issued_for (client : uuid) (pepper : string) (request : CredentialRequest) (i : IssuedServiceCredential) : Prop :=
  ∃ identifier secret digest,
    identifier_ok identifier = true ∧ String.length secret = SERVICE_TOKEN_BYTES
    ∧ isc_token i = (_TOKEN_PREFIX_MARKER +:+ identifier) +:+ "." +:+ urlsafe_b64 secret
    ∧ service_token_digest (isc_token i) pepper = Ok digest
    ∧ isc_record i = {|
        svc_service_client_id := client; svc_credential_identifier := identifier;
        svc_token_prefix := _TOKEN_PREFIX_MARKER +:+ identifier; svc_secret_digest := digest;
        svc_scopes := sorted_set (crq_scopes request); svc_expires_at := crq_expires_at request; svc_revoked_at := None |}.

Lemma token_hex_frame n : pres seed_le (token_hex n).
Proof. unfold token_hex, token_bytes. frame. Qed.
Lemma identifier_frame o : pres seed_le (identifier_or_random o).
Proof. unfold identifier_or_random, token_hex, token_bytes. frame. Qed.

Definition service_rows (w : World) := (service_credentials (db w), service_clients (db w), committed w).

(** Steps that leave the clients and their credentials as they are. *)
Definition credentials_kept (w w' : World) : Prop := same service_rows w w' ∧ seed_le w w'.

#[export] Instance credentials_kept_preorder : PreOrder credentials_kept.
Proof. split; [done|]. intros x y z [H1 H2] [H3 H4]. split; by etrans. Qed.

Lemma audit_credentials_kept a b c d e f g h : pres credentials_kept (append_audit_event a b c d e f g h).
Proof. apply pres_and; frame. Qed.

Lemma new_credential_frame client pepper request now : keeps service_rows (new_service_credential client pepper request now).
Proof. unfold new_service_credential, aware_now, now_or, identifier_or_random, token_hex, token_bytes. frame. Qed.

Lemma new_credential_seed client pepper request now : pres seed_le (new_service_credential client pepper request now).
Proof. unfold new_service_credential, aware_now, now_or, identifier_or_random, token_hex, token_bytes. frame. Qed.

Lemma new_credential_id client pepper request now w :
  wp (new_service_credential client pepper request now) (λ r w',
    match r with Ok i => seed w <= isc_id i < seed w' | Exn _ => True end) w.
Proof.
  unfold new_service_credential, token_bytes.
  apply (wp_bind_pres seed_le); [unfold aware_now, now_or; frame| |done]. intros at_time w1 H1.
  wp_run. apply (wp_bind_pres seed_le); [apply identifier_frame| |done]. intros identifier w2 H2. wp_run.
  unfold seed_le in *. simpl in *. lia.
Qed.

Lemma new_credential_issued client pepper request now w :
  (∀ draw n, String.length (random_bytes draw n) = n) →
  wp (new_service_credential client pepper request now) (λ r w',
    match r with Ok i => issued_for client pepper request i | Exn _ => True end) w.
Proof.
  intros Hlen. unfold new_service_credential, token_bytes.
  apply (wp_bind_pres seed_le); [unfold aware_now, now_or; frame| |done]. intros at_time w1 _.
  wp_run. apply (wp_bind_pres seed_le); [apply identifier_frame| |done]. intros identifier w2 _. wp_run.
  unfold _validate_credential_identifier in *. destruct (identifier_ok identifier) eqn:Hid; simplify_eq.
  apply normalized_scopes in E0 as ->. do 3 eexists. split_and!; [exact Hid|apply Hlen|done|exact E2|done].
Qed.

(** A created credential is the one new row; with [do_commit] it is durable. *)
Lemma create_credential_spec client pepper request now do_commit w :
  (∀ draw n, String.length (random_bytes draw n) = n) →
  wp (create_service_credential client pepper request now do_commit) (λ r w',
    match r with
    | Ok i => issued_for client pepper request i ∧ seed w <= isc_id i < seed w'
        ∧ service_credentials (db w') = <[isc_id i := isc_record i]> (service_credentials (db w))
        ∧ service_clients (db w') = service_clients (db w)
        ∧ committed w' = (if do_commit then db w' else committed w)
        ∧ (do_commit = true → integrity_ok (db w') = true)
    | Exn _ => committed w' = committed w
    end) w.
Proof.
  intros Hlen. unfold create_service_credential. apply wp_bind.
  eapply wp_mono; [apply wp_and; [by apply (new_credential_issued client pepper request now w)|apply wp_and;
    [apply (new_credential_id client pepper request now w)|apply wp_of_pres, new_credential_frame]]|].
  intros [i|e] w1 (Hi & Hid & Hf); wp_k; [|by injection Hf].
  injection Hf as Hrows Hclients Hc. wp_step.
  assert (∀ w2, credentials_kept (with_table <[isc_id i := isc_record i]> w1) w2 →
    committed w2 = committed w ∧ seed w <= isc_id i < seed w2
    ∧ service_credentials (db w2) = <[isc_id i := isc_record i]> (service_credentials (db w))
    ∧ service_clients (db w2) = service_clients (db w)) as Hkept.
  { intros w2 [[= H1 H2 H3] H4]. unfold seed_le in H4. simpl in *. split_and!; try congruence; lia. }
  destruct do_commit.
  - apply wp_bind, wp_rollback_on_error, (wp_bind_pres credentials_kept); [apply audit_credentials_kept| |].
    + intros _ w2 Hw2. destruct (Hkept w2 Hw2) as (H1 & H2 & H3 & H4). apply wp_when; [|done]. intros _. by wp_step.
    + intros e w2 Hw2. by destruct (Hkept w2 Hw2).
  - apply wp_bind, (wp_bind_pres credentials_kept); [apply audit_credentials_kept| |].
    + intros _ w2 Hw2. destruct (Hkept w2 Hw2) as (H1 & H2 & H3 & H4). by do 2 wp_step.
    + intros e w2 Hw2. by destruct (Hkept w2 Hw2).
Qed.

(** An identifier that is given is the credential's. *)
Lemma create_credential_identifier client pepper request now do_commit value w :
  crq_credential_identifier request = Some value → value ≠ "" →
  wp (create_service_credential client pepper request now do_commit) (λ r _,
    match r with Ok i => svc_credential_identifier (isc_record i) = value | Exn _ => True end) w.
Proof.
  intros Hv Hne. unfold create_service_credential. apply wp_bind.
  apply (wp_mono _ (λ r _, match r with Ok i => svc_credential_identifier (isc_record i) = value | Exn _ => True end)).
  - unfold new_service_credential, aware_now, now_or, identifier_or_random, token_bytes. rewrite Hv.
    rewrite bool_decide_false by done.
    destruct now; wp_run; unfold _validate_credential_identifier in *; by destruct (identifier_ok value); simplify_eq.
  - intros [i|e] w1 Hi; wp_k; [|done].
    match goal with |- wp ?m _ _ => assert (returns (λ j, j = i) m) as Hret end.
    { apply returns_bind. intros _. apply returns_bind. intros _. by apply returns_ret. }
    eapply wp_mono; [apply Hret|]. by intros [j|e] w2; [intros ->|].
Qed.

(** While its row is as it was issued, a token authorizes its client. *)
Lemma issued_token_authorizes client pepper request i d row t :
  issued_for client pepper request i → service_credentials d !! isc_id i = Some (isc_record i) →
  service_clients d !! client = Some row → cli_disabled_at row = None →
  service_credential_is_active (isc_record i) t = true →
  token_authorizes d (isc_token i) pepper t {| spr_client := (client, row); spr_credential := (isc_id i, isc_record i) |}.
Proof.
  intros (identifier & secret & digest & Hid & Hs & Htok & Hdig & Hrec) Hrow Hcl Hen Hact.
  unfold token_authorizes. simpl. split_and!; try done; rewrite Hrec; simpl; [|done..].
  rewrite Htok. by apply parse_issued_token.
Qed.

Lemma issued_token_header client pepper request i http :
  issued_for client pepper request i → authorization http = Some ("Bearer " +:+ isc_token i) →
  service_bearer_token http = Some (isc_token i).
Proof.
  intros (identifier & secret & digest & Hid & _ & Htok & _) Ha. apply bearer_of_header; [done| |].
  - rewrite Htok. done.
  - rewrite Htok. by apply issued_token_unspaced.
Qed.

(** One token has one principal. *)
Lemma one_principal d token pepper t p p' :
  integrity_ok d = true → token_authorizes d token pepper t p → token_authorizes d token pepper t p' → p = p'.
Proof.
  intros Hi (R1 & P1 & _ & _ & C1 & K1 & _) (R2 & P2 & _ & _ & C2 & K2 & _).
  assert ((spr_credential p).1 = (spr_credential p').1 ∧ (spr_credential p).2 = (spr_credential p').2) as [H1 H2]
    by (eapply prefixes_unique; [done..|congruence]).
  destruct p as [[c k] [i r]], p' as [[c' k'] [i' r']]; simpl in *. congruence.
Qed.

(** What a request with an issued token gets, while the row is as it was issued. *)
Lemma issued_token_outcome settings client request i row scope http w :
  issued_for client (service_token_pepper settings) request i → integrity_ok (committed w) = true →
  service_credentials (committed w) !! isc_id i = Some (isc_record i) →
  service_clients (committed w) !! client = Some row → cli_disabled_at row = None →
  (∀ e, crq_expires_at request = Some e → is_aware e && dt_ltb (now_of w) e = true) →
  authorization http = Some ("Bearer " +:+ isc_token i) →
  (require_service_scope settings scope http w).1 =
    if str_in scope (crq_scopes request)
    then Ok {| spr_client := (client, row); spr_credential := (isc_id i, isc_record i) |}
    else Exn (HTTPException 403 "Required service scope is missing").
Proof.
  intros Hissued Hi Hrow Hcl Hen Hexp Hauth.
  pose proof Hissued as (identifier & secret & digest & _ & _ & _ & Hdig & Hrec).
  assert (token_authorizes (committed w) (isc_token i) (service_token_pepper settings) (now_of w)
    {| spr_client := (client, row); spr_credential := (isc_id i, isc_record i) |}) as Hp.
  { eapply issued_token_authorizes; [done..|]. rewrite Hrec. unfold service_credential_is_active. simpl.
    destruct (crq_expires_at request) as [e|]; [by apply Hexp|done]. }
  assert (svc_scopes (isc_record i) = sorted_set (crq_scopes request)) as Hscopes by by rewrite Hrec.
  set (answer := if str_in scope (crq_scopes request) then _ else _).
  cut (wp (require_service_scope settings scope http) (λ r _, r = answer) w); [by rewrite wp_unfold|].
  unfold require_service_scope.
  rewrite (issued_token_header _ _ _ _ _ Hissued Hauth). apply wp_bind, wp_require; [|done]. intros token [= <-]. wp_k.
  apply wp_bind, wp_in_session. eapply wp_mono; [by apply load_principal_spec|].
  intros [[p|]|e] w3 (_ & _ & _ & Hr); wp_k.
  - apply (one_principal _ _ _ _ _ _ Hi Hr) in Hp as ->. wp_step. simpl. rewrite Hscopes, str_in_sorted_set.
    unfold answer. by destruct (str_in scope (crq_scopes request)).
  - by destruct (Hr _ Hp).
  - destruct Hr as [Hr _]. congruence.
Qed.

(** The token that creating a credential returns is accepted, in any later
    state that still has the row as it was committed and an enabled client, until
    the credential expires: with it a request gets the principal of that very row
    for each scope that was asked for, and 403 for any other. *)
Theorem issued_tokens_are_accepted settings client request now w issued w1 row scope http w2 :
  (∀ draw n, String.length (random_bytes draw n) = n) →
  create_service_credential client (service_token_pepper settings) request now true w = (Ok issued, w1) →
  integrity_ok (committed w2) = true →
  service_credentials (committed w2) !! isc_id issued = service_credentials (committed w1) !! isc_id issued →
  service_clients (committed w2) !! client = Some row → cli_disabled_at row = None →
  (∀ e, crq_expires_at request = Some e → is_aware e && dt_ltb (now_of w2) e = true) →
  authorization http = Some ("Bearer " +:+ isc_token issued) →
  (require_service_scope settings scope http w2).1 =
    if str_in scope (crq_scopes request)
    then Ok {| spr_client := (client, row); spr_credential := (isc_id issued, isc_record issued) |}
    else Exn (HTTPException 403 "Required service scope is missing").
Proof.
  intros Hlen Hrun Hi Hsame Hcl Hen Hexp Hauth.
  pose proof (create_credential_spec client (service_token_pepper settings) request now true w Hlen) as Hspec.
  rewrite wp_unfold, Hrun in Hspec. destruct Hspec as (Hissued & _ & Hrows & _ & Hc & _). simpl in Hc, Hrows.
  rewrite Hc, Hrows, lookup_insert_eq in Hsame. by eapply issued_token_outcome.
Qed.
End requests.

(** ** A credential made and used *)

(** The state after the credential of the demonstration is made. *)
Lemma toy_issued i w :
  toy_issue toy_fleet = (Ok i, w) →
  issued_for (H := toy_crypto) 5 "service" toy_credential_request i
  ∧ service_credentials (committed w) = {[ isc_id i := isc_record i ]} ∧ service_clients (committed w) !! 5 = Some toy_client
  ∧ isc_id i < seed w ∧ integrity_ok (committed w) = true.
Proof.
  intros Hrun. pose proof (create_credential_spec (H := toy_crypto) 5 "service" toy_credential_request None true toy_fleet toy_random) as Hs.
  apply (wp_run _ _ _ _ _ Hs) in Hrun as (Hi & Hid & Hrows & Hcl & Hc & Hint). simpl in Hc. rewrite Hc. split_and!; try done.
  - rewrite Hcl. done.
  - lia.
  - by apply Hint.
Qed.

Lemma service_authorization_is_exact_witness :
  ∃ i w, toy_issue toy_fleet = (Ok i, w)
    ∧ wp (require_service_scope (H := toy_crypto) toy_settings "devices.read" (toy_request None)) (λ r w',
        committed w' = committed w ∧ match r with Ok _ => False | Exn e => e ≠ HTTPException 403 "Required service scope is missing" end) w.
Proof.
  destruct toy_issue_succeeds as (i & w & Hrun). exists i, w. split; [exact Hrun|].
  destruct (toy_issued i w Hrun) as (_ & _ & _ & _ & Hi).
  eapply wp_mono; [apply (service_authorization_is_exact (H := toy_crypto) toy_settings "devices.read" (toy_request None) w Hi); done|].
  intros [p|e] w1 [Hc Hr]; (split; [exact Hc|]).
  - destruct Hr as [(token & Ht & _) _]. discriminate Ht.
  - destruct Hr as [[-> _]|[_ (p & (token & Ht & _) & _)]]; [done|discriminate Ht].
Defined.

Lemma issued_tokens_are_accepted_witness :
  ∃ i w, toy_issue toy_fleet = (Ok i, w)
    ∧ (require_service_scope (H := toy_crypto) toy_settings "devices.read" (toy_request (Some ("Bearer " +:+ isc_token i))) w).1
      = Ok {| spr_client := (5, toy_client); spr_credential := (isc_id i, isc_record i) |}
    ∧ (require_service_scope (H := toy_crypto) toy_settings "operations.cancel" (toy_request (Some ("Bearer " +:+ isc_token i))) w).1
      = Exn (HTTPException 403 "Required service scope is missing").
Proof.
  destruct toy_issue_succeeds as (i & w & Hrun). exists i, w. split; [exact Hrun|].
  destruct (toy_issued i w Hrun) as (_ & Hrows & Hcl & _ & Hi).
  split; exact (issued_tokens_are_accepted (H := toy_crypto) toy_settings 5 toy_credential_request None toy_fleet i w toy_client _
    (toy_request (Some ("Bearer " +:+ isc_token i))) w toy_random Hrun Hi eq_refl Hcl eq_refl (λ e (He : None = Some e), ltac:(discriminate He)) eq_refl).
Defined.
