(* ===== verification/ProvisionedSpecs.v ===== *)
(** * What provisioned credentials guarantee

    Over any history of provisionings and revocations a credential never changes
    but for its first revocation; a diagnostic credential widens its predecessor
    by the reviewed scopes alone; a run that fails leaves neither rows nor, when
    the operating system removes what it is asked to, a file; and the credential
    of a test pilot opens the one installation it was made for. *)

From S2P Require Import Prelude Store Session AuditLog Frames AuditFacts Contracts Semver SemverFacts Calendar.
From S2P Require Import Credentials Identity Enrollment EnrollmentRoutes ServiceTokens EnrollmentRequestRoutes.
From S2P Require Import AdminSessions ProvisionedCredentials History AuthDemo ServiceTokensSpecs.

(** ** Credentials over a history *)

(** Nothing but the first revocation. *)
Definition only_revoked (r r' : ServiceCredential) : Prop :=
  r' = r ∨ (svc_revoked_at r = None ∧ ∃ t, r' = r <| svc_revoked_at := Some t |>).

#[export] Instance only_revoked_preorder : PreOrder only_revoked.
Proof.
  split; [by left|]. intros x y z [->|(Hx & t & ->)] [->|(Hy & u & ->)]; [by left|right; eauto|right; eauto|done].
Qed.

Lemma revoking_only_revokes t r : only_revoked r (revoked_service_credential t r).
Proof.
  unfold revoked_service_credential. destruct (svc_revoked_at r) eqn:E; simpl; [by left|]. right. eauto.
Qed.

Abbreviation credentials_stay := (stays only_revoked).

Lemma aside_credentials_kept w w' : credentials_kept w w' → aside (Row := ServiceCredential) w w'.
Proof. intros [[= H1 H2 H3] Hs]. split; [|done]. unfold same; simpl. congruence. Qed.

Section histories.
Context `{EnrollmentCrypto}.

Lemma audit_stays a b c d e f g h : pres credentials_stay (append_audit_event a b c d e f g h).
Proof. apply stays_aside. eapply pres_mono; [apply aside_credentials_kept|apply audit_credentials_kept]. Qed.

Lemma create_stays client pepper request now do_commit :
  pres credentials_stay (create_service_credential client pepper request now do_commit).
Proof.
  apply pres_of_wp. intros w. unfold create_service_credential. apply wp_bind.
  eapply wp_mono; [apply wp_and; [by apply (new_credential_id client pepper request now w)|
    apply wp_of_pres, pres_and; [apply new_credential_frame|apply new_credential_seed]]|].
  intros [i|e] w1 (Hi & Hf & Hs); wp_k; [|by apply stays_of_aside, aside_credentials_kept].
  injection Hf as Hrows _ Hc. apply wp_bind, wp_insert. wp_k. apply wp_trans; [apply _| |].
  - intros base Hb. apply (stays_insert only_revoked); [..|lia|].
    + destruct Hb as (F1 & _). simpl. rewrite Hrows. eapply fresh_le; [done|lia].
    + destruct Hb as (_ & F2 & _). simpl. rewrite Hc. eapply fresh_le; [done|lia].
    + revert Hb. apply stays_of_aside. split; [|done]. unfold same; simpl. congruence.
  - apply wp_of_pres. apply pres_bind; [apply _| |].
    + assert (∀ p : Tx uuid, pres credentials_stay p → pres credentials_stay (p ;; when do_commit commit)) as Hp.
      { intros p Hp. apply pres_bind; [apply _|done|]. intros _. apply pres_when; [apply _|]. intros _. apply stays_commit. }
      destruct do_commit; [apply stays_rollback_on_error|]; apply Hp, audit_stays.
    + intros _. apply pres_ret. apply _.
Qed.

Lemma load_principal_stays token pepper : pres credentials_stay (_load_service_principal token pepper).
Proof. apply stays_aside, pres_and; [|]; unfold _load_service_principal; frame. Qed.

Lemma revoke_stays id now : pres credentials_stay (revoke_service_credential id now).
Proof.
  unfold revoke_service_credential. apply pres_bind; [apply _| |].
  - apply stays_aside, pres_and; unfold aware_now, now_or; frame.
  - intros t. apply (stays_update only_revoked). apply revoking_only_revokes.
Qed.
Lemma client_stays identifier name : pres credentials_stay (client_or_new identifier name).
Proof. apply stays_aside, pres_and; unfold client_or_new; frame. Qed.

(** *** The same for runs that also have files *)

Definition host_stays {A} (m : M Host A) : Prop := ∀ h, credentials_stay (host_world h) (host_world (m h).2).

Lemma on_db_stays {A} (m : Tx A) : pres credentials_stay m → host_stays (on_db m).
Proof. intros Hm h. unfold on_db. specialize (Hm (host_world h)). by destruct (m (host_world h)). Qed.

Lemma bind_host {A B} (m : M Host A) (k : A → M Host B) : host_stays m → (∀ a, host_stays (k a)) → host_stays (m ≫= k).
Proof.
  intros Hm Hk h. specialize (Hm h). unfold mbind, M_bind. destruct (m h) as [[a|e] h']; simpl in *; [|done].
  etrans; [exact Hm|apply Hk].
Qed.

Lemma try_host {A} (m : M Host A) (handler : M Host unit) : host_stays m → host_stays handler → host_stays (on_failure m handler).
Proof.
  intros Hm Hh h. specialize (Hm h). unfold on_failure, try_except. destruct (m h) as [[a|e] h']; simpl in *; [done|].
  etrans; [exact Hm|]. apply (bind_host handler (λ _, raise e)); [done|]. by intros _ h2.
Qed.

Lemma suppress_host m : host_stays m → host_stays (suppress_os_errors m).
Proof. intros Hm h. specialize (Hm h). unfold suppress_os_errors, try_except. by destruct (m h) as [[a|[]] h']. Qed.

Lemma files_host {A} (m : M Host A) : (∀ h, host_world (m h).2 = host_world h) → host_stays m.
Proof. intros Hm h. by rewrite Hm. Qed.

Lemma open_host fate path : host_stays (open_exclusively fate path).
Proof. apply files_host. intros h. unfold open_exclusively. by destruct (host_files h !! path), fate. Qed.
Lemma write_host fate path content : host_stays (write_open_file fate path content).
Proof. apply files_host. intros h. by destruct fate. Qed.
Lemma unlink_host works path : host_stays (unlink works path).
Proof. apply files_host. intros h. by destruct works. Qed.
Lemma raise_if_host c e : host_stays (raise_if c e).
Proof. apply files_host. by destruct c. Qed.
Lemma ret_host {A} (a : A) : host_stays (mret a).
Proof. by intros h. Qed.

Lemma session_host {A} (m : M Host A) : host_stays m → host_stays (with_session m).
Proof.
  intros Hm h base (F1 & F2 & K1 & K2). unfold with_session.
  specialize (Hm (h <| host_world := host_world h <| db := committed (host_world h) |> |>) base).
  destruct (m _) as [r h']. simpl in *. destruct Hm as (G1 & G2 & L1 & L2); by split_and!.
Qed.
End histories.

Ltac host_stays :=
  repeat lazymatch goal with
    | |- ∀ _, _ => intro
    | |- host_stays (mbind _ _) => apply bind_host
    | |- host_stays (mret _) => apply ret_host
    | |- host_stays (raise_if _ _) => apply raise_if_host
    | |- host_stays (on_failure _ _) => apply try_host
    | |- host_stays (suppress_os_errors _) => apply suppress_host
    | |- host_stays (on_db _) => apply on_db_stays
    | |- host_stays (open_exclusively _ _) => apply open_host
    | |- host_stays (write_open_file _ _ _) => apply write_host
    | |- host_stays (unlink _ _) => apply unlink_host
    | |- host_stays (with_session _) => apply session_host
    | |- host_stays (match ?x with _ => _ end) => destruct x
    end.

#[export] Hint Resolve audit_stays create_stays load_principal_stays revoke_stays client_stays : frame.

Section runs.
Context `{EnrollmentCrypto} (settings : Settings) (os : OperatingSystem).

Lemma module_rows_stay request_id : pres credentials_stay (module_credential_rows settings request_id).
Proof. frame. Qed.

Lemma module_revocation_stays request_id now : pres credentials_stay (revoke_helpdesk_module_credentials request_id now).
Proof. frame. Qed.

Lemma diagnostic_rows_stay token request_id : pres credentials_stay (diagnostic_credential_rows settings token request_id).
Proof. frame. Qed.

Lemma module_run_stays output : host_stays (run_module_provisioner settings os output).
Proof.
  unfold run_module_provisioner. host_stays; try (frame; fail). all: unfold provision_helpdesk_module_credential, write_private_token_file.
  all: host_stays. all: frame.
Qed.

Lemma diagnostic_run_stays token output : host_stays (run_diagnostic_provisioner settings os token output).
Proof.
  unfold run_diagnostic_provisioner, provision_helpdesk_diagnostic_credential, write_diagnostic_token_file. host_stays. all: frame.
Qed.

Lemma pilot_issue_stays installation campaign fingerprint actor request_id now :
  pres credentials_stay (issue_test_pilot_credential settings installation campaign fingerprint actor request_id now).
Proof. frame. Qed.

Lemma pilot_revoke_stays id actor request_id now :
  pres credentials_stay (revoke_test_pilot_credential id actor request_id now).
Proof. frame. Qed.

Lemma request_id_stays request : pres credentials_stay (audit_request_id settings request).
Proof. unfold audit_request_id. frame. Qed.

Lemma pilot_create_route_stays session_id campaign fingerprint request principal :
  pres credentials_stay (create_test_pilot_credential settings session_id campaign fingerprint request principal).
Proof.
  unfold create_test_pilot_credential. destruct (normalize_install_session_id session_id); [|frame].
  apply pres_bind; [apply _|apply stays_in_session|intros; frame]. pose proof pilot_issue_stays. pose proof request_id_stays.
  frame.
Qed.

Lemma pilot_revoke_route_stays id request principal :
  pres credentials_stay (revoke_test_pilot_credential_route settings id request principal).
Proof.
  apply stays_in_session, stays_rollback_on_error. pose proof pilot_revoke_stays. pose proof request_id_stays. frame.
Qed.

Lemma scope_check_stays scope request : pres credentials_stay (require_service_scope settings scope request).
Proof.
  unfold require_service_scope. apply pres_bind; [apply _|frame|]. intros token.
  apply pres_bind; [apply _|apply stays_in_session, load_principal_stays|]. intros found. frame.
Qed.

(** *** The steps of a history *)

Inductive credential_step : World → World → Prop :=
| step_module_run w files output :
    credential_step w (host_world (run_module_provisioner settings os output {| host_world := w; host_files := files |}).2)
| step_diagnostic_run w files token output :
    credential_step w (host_world (run_diagnostic_provisioner settings os token output {| host_world := w; host_files := files |}).2)
| step_pilot_created w session_id campaign fingerprint request principal :
    credential_step w (create_test_pilot_credential settings session_id campaign fingerprint request principal w).2
| step_pilot_revoked w id request principal :
    credential_step w (revoke_test_pilot_credential_route settings id request principal w).2
| step_scope_check w scope request :
    credential_step w (require_service_scope settings scope request w).2.

Lemma credential_step_stays w w' : credential_step w w' → credentials_stay w w'.
Proof.
  intros [w0 files output|w0 files token output|w0 a b c d e|w0 a b c|w0 scope request].
  - apply (module_run_stays output {| host_world := w0; host_files := files |}).
  - apply (diagnostic_run_stays token output {| host_world := w0; host_files := files |}).
  - apply pilot_create_route_stays.
  - apply pilot_revoke_route_stays.
  - apply scope_check_stays.
Qed.

Lemma credential_history_stays w w' : rtc credential_step w w' → credentials_stay w w'.
Proof. induction 1 as [w|w w1 w2 Hs _ IH]; [done|]. etrans; [by apply credential_step_stays|done]. Qed.

(** C27: over any history of provisioning runs, pilot credentials made and revoked,
    and requests, a stored service credential keeps its client, its digest, its
    scopes and its expiry, and the time of its first revocation; and the token of
    a revoked one is refused from then on, for every scope, with 401. *)
Theorem credentials_change_by_revocation_alone w w' id r :
  fresh (seed w) (service_credentials (committed w)) → service_token_pepper settings ≠ "" →
  rtc credential_step (stored w) w' → service_credentials (committed w) !! id = Some r →
  ∃ r', service_credentials (committed w') !! id = Some r' ∧ only_revoked r r'
    ∧ (svc_revoked_at r' ≠ None → integrity_ok (committed w') = true →
       ∀ token scope http, service_bearer_token http = Some token →
         parse_service_token token = Some (svc_token_prefix r) →
         (require_service_scope settings scope http w').1 = Exn service_unauthorized).
Proof.
  intros Hf Hp Hh Hr.
  assert (intact only_revoked (service_credentials (committed w)) (stored w)) as Hstart.
  { split_and!; try done; apply rows_kept_refl; intros v; reflexivity. }
  apply (credential_history_stays _ _ Hh) in Hstart as (_ & _ & _ & K). destruct (K id r Hr) as (r' & Hr' & Hrr).
  exists r'. split; [done|]. split; [done|]. intros Hrev Hi token scope http Hb Hparse.
  cut (wp (require_service_scope settings scope http) (λ x _, x = Exn service_unauthorized) w'); [by rewrite wp_unfold|].
  assert (svc_token_prefix r' = svc_token_prefix r) as Hpre by by destruct Hrr as [->|(_ & t & ->)].
  assert (∀ p t, ¬ token_authorizes (committed w') token (service_token_pepper settings) t p) as Hno.
  { intros p t (Hrow & Hq & _ & Hact & _).
    assert ((spr_credential p).1 = id ∧ (spr_credential p).2 = r') as [_ Heq] by (eapply prefixes_unique; [done..|congruence]).
    rewrite Heq in Hact. unfold service_credential_is_active in Hact. destruct (svc_revoked_at r'); [|done].
    by rewrite andb_false_r in Hact. }
  unfold require_service_scope. rewrite Hb. apply wp_bind, wp_require; [|done]. intros t [= <-]. wp_k.
  apply wp_bind, wp_in_session. eapply wp_mono; [by apply load_principal_spec|].
  intros [[p|]|e] w3 (_ & _ & _ & Hres); wp_k.
  - by destruct (Hno p _ Hres).
  - by wp_step.
  - destruct Hres as [Hres Hpn]. destruct (parsed_digest _ _ _ Hp Hparse). congruence.
Qed.

(** ** Test pilots *)

Lemma lower_idem c : lower (lower c) = lower c.
Proof.
  unfold lower. destruct (is_upper c) eqn:E; [|by rewrite E].
  assert (is_upper (Ascii.ascii_of_nat (Z.to_nat (code c + 32))) = false) as ->; [|done].
  change (Ascii.ascii_of_nat (Z.to_nat (code c + 32))) with (byte (code c + 32)).
  unfold is_upper, between in *. propify. rewrite code_byte by lia. apply andb_false_iff. right. apply Z.leb_gt. lia.
Qed.

Lemma normalize_fingerprint_idem a b : normalize_hardware_fingerprint a = Ok b → normalize_hardware_fingerprint b = Ok b.
Proof.
  unfold normalize_hardware_fingerprint. destruct (_HARDWARE_FINGERPRINT_PATTERN _) eqn:E; [|done]. intros [= <-].
  rewrite chars_text, map_map. rewrite (map_ext (λ x, lower (lower x)) lower) by apply lower_idem. by rewrite E.
Qed.

Lemma normalize_session_id a b : normalize_install_session_id a = Ok b → b = a.
Proof. unfold normalize_install_session_id. destruct (_ || _); [done|]. by intros [= <-]. Qed.

#[local] Instance res_eq_dec {A} `{EqDecision A} : EqDecision (res A).
Proof. solve_decision. Defined.

(** An issued pilot credential: its client, its bindings, its scope and its expiry. *)
Definition pilot_issued (campaign : uuid) (installation fingerprint : string) (i : IssuedServiceCredential) (w : World) : Prop :=
  ∃ client row request installation' fingerprint' identifier expiry,
    normalize_install_session_id installation = Ok installation'
    ∧ normalize_hardware_fingerprint fingerprint = Ok fingerprint'
    ∧ pilot_credential_identifier settings campaign installation' fingerprint' = Ok identifier
    ∧ issued_for client (service_token_pepper settings) request i
    ∧ svc_credential_identifier (isc_record i) = identifier
    ∧ crq_scopes request = [PROVISIONING_INSTALL_CLAIMS_ISSUE_SCOPE] ∧ crq_expires_at request = Some expiry
    ∧ is_aware expiry = true
    ∧ service_credentials (db w) !! isc_id i = Some (isc_record i)
    ∧ service_clients (db w) !! client = Some row ∧ cli_disabled_at row = None
    ∧ cli_client_identifier row = PILOT_SERVICE_CLIENT_IDENTIFIER.

Lemma client_or_new_spec identifier name w :
  wp (client_or_new identifier name) (λ r w',
    match r with
    | Ok c => service_clients (db w') !! c.1 = Some c.2 ∧ cli_client_identifier c.2 = identifier
    | Exn _ => False
    end) w.
Proof.
  unfold client_or_new. wp_run.
  - by propify.
  - simpl. by rewrite lookup_insert_eq.
Qed.

Hypotheses (random_length : ∀ draw n, String.length (random_bytes draw n) = n)
  (hmac_length : ∀ key message, String.length (hmac_sha256 key message) = 32%nat).

Lemma pilot_identifier_nonempty campaign installation fingerprint identifier :
  pilot_credential_identifier settings campaign installation fingerprint = Ok identifier → identifier ≠ "".
Proof.
  unfold pilot_credential_identifier. case_bool_decide; [done|]. intros [= <-].
  match goal with |- context [hmac_sha256 ?k ?m] => pose proof (hmac_length k m) as Hl; destruct (hmac_sha256 k m) as [|c h]; [done|] end.
  unfold hex_bytes. done.
Qed.

Lemma bound_identifier_normal campaign installation fingerprint installation' fingerprint' :
  normalize_install_session_id installation = Ok installation' → normalize_hardware_fingerprint fingerprint = Ok fingerprint' →
  bound_identifier settings campaign installation' fingerprint'
  = pilot_credential_identifier settings campaign installation' fingerprint'.
Proof.
  intros Hi Hf. unfold bound_identifier. pose proof (normalize_session_id _ _ Hi) as ->. rewrite Hi. simpl.
  by rewrite (normalize_fingerprint_idem _ _ Hf).
Qed.

Lemma create_keeps client pepper request now : keeps committed (create_service_credential client pepper request now false).
Proof. unfold create_service_credential. cbn [when]. frame. Qed.

Lemma issue_pilot_keeps installation campaign fingerprint actor request_id now :
  keeps committed (issue_test_pilot_credential settings installation campaign fingerprint actor request_id now).
Proof. pose proof create_keeps. frame. Qed.

Lemma issue_pilot_spec installation campaign fingerprint actor request_id now w :
  wp (issue_test_pilot_credential settings installation campaign fingerprint actor request_id now) (λ r w',
    match r with Ok i => pilot_issued campaign installation fingerprint i w' | Exn _ => True end) w.
Proof.
  unfold issue_test_pilot_credential. apply wp_bind, wp_lift_res.
  destruct (normalize_install_session_id installation) as [installation'|] eqn:Hi; wp_k; [|done].
  apply wp_bind, wp_lift_res. destruct (normalize_hardware_fingerprint fingerprint) as [fingerprint'|] eqn:Hf; wp_k; [|done].
  apply wp_bind. unfold aware_now. eapply (wp_mono _ (λ r _, match r with Ok t => is_aware t = true | Exn _ => True end)).
  { unfold now_or. destruct now; wp_run; by propify. }
  intros [issued_at|e] w1 Haware; wp_k; [|done]. apply wp_bind. unfold pilot_client. apply wp_bind.
  eapply wp_mono; [apply client_or_new_spec|]. intros [[client row]|e] w2 Hc; wp_k; [|done]. destruct Hc as [Hcl Hname].
  unfold pilot_disabled. wp_step. wp_step. apply wp_bind, wp_lift_res.
  rewrite (bound_identifier_normal _ _ _ _ _ Hi Hf).
  destruct (pilot_credential_identifier settings campaign installation' fingerprint') as [identifier|] eqn:Hid; wp_k; [|done].
  apply wp_bind. match goal with |- context [create_service_credential ?c ?p ?rq ?t ?b] =>
    pose proof (create_credential_spec c p rq t b w2 random_length) as Hspec;
    pose proof (create_credential_identifier c p rq t b identifier w2 eq_refl (pilot_identifier_nonempty _ _ _ _ Hid)) as Hident;
    set (request := rq) in * end.
  eapply wp_mono; [apply (wp_and _ _ _ _ Hspec Hident)|]. clear Hspec Hident.
  intros [i|e] w3 [Hs Hident]; wp_k; [|done]. destruct Hs as (Hissued & _ & Hrows & Hclients & _).
  apply (wp_bind_pres credentials_kept); [apply audit_credentials_kept| |done]. intros _ w4 [[= R1 R2 _] _]. wp_step.
  exists client, row, request, installation', fingerprint', identifier, (dt_add issued_at PILOT_CREDENTIAL_LIFETIME).
  split_and!; try done.
  - by rewrite R1, Hrows, lookup_insert_eq.
  - by rewrite R2, Hclients.
  - simpl in *. by destruct (cli_disabled_at row).
Qed.

(** The guard of the install-claims route on the credential of a test pilot. *)
Lemma check_pilot_outcome p campaign installation fingerprint identifier w :
  cli_client_identifier (spr_client p).2 = PILOT_SERVICE_CLIENT_IDENTIFIER →
  pilot_credential_identifier settings campaign installation fingerprint = Ok identifier →
  (check_pilot settings p campaign installation fingerprint w).1 =
    if bool_decide (svc_credential_identifier (spr_credential p).2 = identifier) then Ok tt
    else Exn (HTTPException 403 "Test-pilot credential binding is missing").
Proof.
  intros Hc Hid. unfold check_pilot. rewrite Hc, Hid. rewrite bool_decide_true by done. simpl. by case_bool_decide.
Qed.

Lemma pilot_identifier_total campaign installation fingerprint campaign' installation' fingerprint' identifier :
  pilot_credential_identifier settings campaign installation fingerprint = Ok identifier →
  ∃ identifier', pilot_credential_identifier settings campaign' installation' fingerprint' = Ok identifier'.
Proof. unfold pilot_credential_identifier. case_bool_decide; [done|]. eauto. Qed.

(** An administrator who makes a test-pilot credential for a campaign, an
    installation and a fingerprint gets a token that any later state still holding
    its row accepts, until it expires, for install claims and for no other scope;
    and the principal it gives passes the guard of the install-claims route exactly
    for bindings whose derived identifier is that of the normalized ones it was
    made for, and is refused with 403 for any other. *)
Theorem pilot_credentials_open_one_installation installation campaign fingerprint request principal w :
  wp (create_test_pilot_credential settings installation campaign fingerprint request principal) (λ r w1,
    match r with
    | Exn _ => committed w1 = committed w
    | Ok response => ∃ installation' fingerprint' client issued,
        normalize_install_session_id installation = Ok installation' ∧ normalize_hardware_fingerprint fingerprint = Ok fingerprint'
        ∧ service_credentials (committed w1) !! pcr_credential_id response = Some (isc_record issued)
        ∧ ∀ w2 row http scope expiry, integrity_ok (committed w2) = true →
            service_credentials (committed w2) !! pcr_credential_id response = Some (isc_record issued) →
            service_clients (committed w2) !! client = Some row → cli_disabled_at row = None →
            cli_client_identifier row = PILOT_SERVICE_CLIENT_IDENTIFIER →
            pcr_expires_at response = Some expiry → dt_ltb (now_of w2) expiry = true →
            authorization http = Some ("Bearer " +:+ pcr_token response) →
            (require_service_scope settings scope http w2).1 =
              (if bool_decide (scope = PROVISIONING_INSTALL_CLAIMS_ISSUE_SCOPE)
               then Ok {| spr_client := (client, row); spr_credential := (pcr_credential_id response, isc_record issued) |}
               else Exn (HTTPException 403 "Required service scope is missing"))
            ∧ ∀ campaign' i f w3,
                let p := {| spr_client := (client, row); spr_credential := (pcr_credential_id response, isc_record issued) |} in
                (check_pilot settings p campaign' i f w3).1 =
                  if bool_decide (pilot_credential_identifier settings campaign' i f
                                  = pilot_credential_identifier settings campaign installation' fingerprint')
                  then Ok tt else Exn (HTTPException 403 "Test-pilot credential binding is missing")
    end) w.
Proof.
  unfold create_test_pilot_credential. destruct (normalize_install_session_id installation) as [ni|] eqn:Hni; [|done].
  apply wp_bind, wp_in_session, wp_try. apply wp_bind. unfold audit_request_id.
  eapply wp_mono; [apply (wp_of_pres (same committed)); frame|]. intros [request_id|e] w1 Hc1; wp_k; [|by repeat wp_step].
  apply wp_bind. eapply wp_mono; [apply wp_and; [apply issue_pilot_spec|apply (wp_of_pres (same committed)), issue_pilot_keeps]|].
  intros [i|e] w2 [Hi Hc2]; unfold same in *; wp_k; [|repeat wp_step; simpl in *; congruence].
  destruct Hi as (client & row0 & rq & ni' & nf & identifier & expiry0 & N1 & N2 & Hid & Hissued & Hident & Hsc & Hex & Haw & Hrow & _).
  apply wp_bind, wp_commit; [|intros; wp_k; repeat wp_step; simpl in *; congruence]. intros _. wp_k. repeat wp_step. simpl.
  assert (ni' = ni) as -> by (apply normalize_session_id in Hni as ->; apply normalize_session_id in N1; congruence).
  exists ni, nf, client, i. split_and!; try done.
  intros w4 row http scope expiry Hi4 Hrow4 Hcl Hen Hname Hexp Hlt Hauth. split.
  - rewrite (issued_token_outcome settings client rq i row scope http w4); try done.
    + rewrite Hsc. unfold str_in. by rewrite (bool_decide_ext (scope ∈ [_]) (scope = _) (list_elem_of_singleton _ _)).
    + intros e He. simpl. replace e with expiry by (destruct Hissued as (? & ? & ? & _ & _ & _ & _ & Hrec); rewrite Hrec in Hexp; simpl in Hexp; congruence).
      rewrite Hlt, andb_true_r. destruct Hissued as (? & ? & ? & _ & _ & _ & _ & Hrec). rewrite Hrec in Hexp. simpl in Hexp. congruence.
  - intros campaign' j f w5. destruct (pilot_identifier_total _ _ _ campaign' j f _ Hid) as [identifier' Hid'].
    rewrite (check_pilot_outcome _ campaign' j f identifier') by done. rewrite Hid, Hid'. simpl. rewrite Hident.
    rewrite (bool_decide_ext (identifier = identifier') (Ok identifier' = Ok identifier)); [done|]. split; [by intros ->|by intros [= ->]].
Qed.

(** ** The diagnostic integration *)

Lemma current_integration_spec token w :
  integrity_ok (db w) = true →
  wp (current_integration settings token) (λ r w',
    db w' = db w ∧ committed w' = committed w ∧ seed w' = seed w ∧
    match r with
    | Ok (client_id, client, credential) => ∃ p, token_authorizes (db w) token (service_token_pepper settings) (now_of w) p
        ∧ client_id = (spr_client p).1 ∧ credential = (spr_credential p).2
    | Exn _ => True
    end) w.
Proof.
  intros Hi. unfold current_integration. apply wp_bind. eapply wp_mono; [by apply load_principal_spec|].
  intros [[p|]|e] w1 (Hd & Hc & Hs & Hr); wp_k; [| |done].
  2: { by wp_step. }
  wp_step. apply wp_bind, wp_get. wp_k. apply wp_bind, wp_get. wp_k.
  pose proof Hr as (Hcred & _ & _ & _ & _ & Hcl & _). 
  change (table (db w1) !! (spr_client p).1) with (service_clients (db w1) !! (spr_client p).1).
  change (table (db w1) !! (spr_credential p).1) with (service_credentials (db w1) !! (spr_credential p).1).
  rewrite Hd, Hcl, Hcred. repeat wp_step. split_and!; try done. by exists p.
Qed.

(** What [diagnostic_credential_rows] adds for the principal of the current token. *)
Definition succeeds (p : ServicePrincipal) (i : IssuedServiceCredential) : Prop :=
  ∃ request, issued_for (spr_client p).1 (service_token_pepper settings) request i
    ∧ diagnostic_scopes (svc_scopes (spr_credential p).2) = Ok (crq_scopes request)
    ∧ crq_expires_at request = svc_expires_at (spr_credential p).2.

Lemma diagnostic_rows_keep token request_id : keeps committed (diagnostic_credential_rows settings token request_id).
Proof. pose proof create_keeps. frame. Qed.

Lemma diagnostic_rows_spec token request_id w :
  integrity_ok (db w) = true →
  wp (diagnostic_credential_rows settings token request_id) (λ r w', committed w' = committed w ∧
    match r with
    | Ok i => ∃ p, token_authorizes (db w) token (service_token_pepper settings) (now_of w) p ∧ succeeds p i
        ∧ seed w <= isc_id i ∧ service_credentials (db w') = <[isc_id i := isc_record i]> (service_credentials (db w))
    | Exn _ => True
    end) w.
Proof.
  intros Hi. apply wp_and; [apply (wp_of_pres (same committed)), diagnostic_rows_keep|].
  unfold diagnostic_credential_rows. apply wp_bind. eapply wp_mono; [by apply current_integration_spec|].
  intros [[[client_id client] credential]|e] w1 (Hd & _ & Hs & Hr); wp_k; [|done]. destruct Hr as (p & Hp & -> & ->).
  apply wp_bind, wp_lift_res. destruct (diagnostic_scopes _) as [scopes|] eqn:Hsc; wp_k; [|done].
  apply wp_bind. eapply wp_mono; [by apply create_credential_spec|].
  intros [i|e] w2 Hc; wp_k; [|done]. destruct Hc as (Hissued & Hid & Hrows & _).
  apply (wp_bind_pres credentials_kept); [apply audit_credentials_kept| |done]. intros _ w3 [[= R1 R2 R3] _]. wp_step.
  exists p. split; [done|]. split; [|rewrite R1, Hrows, Hd; split; [lia|done]].
  eexists. split; [exact Hissued|]. done.
Qed.

(** The scopes of a successor. *)
Lemma successor_scopes p i :
  succeeds p i → (∀ s, s ∈ svc_scopes (isc_record i) ↔ s ∈ svc_scopes (spr_credential p).2 ∨ s ∈ ADDED_SCOPES)
    ∧ (∀ s, s ∈ svc_scopes (isc_record i) → s ∈ ALLOWED_SCOPES) ∧ (∀ s, s ∈ REQUIRED_EXISTING_SCOPES → s ∈ svc_scopes (spr_credential p).2).
Proof.
  intros (request & (identifier & secret & digest & _ & _ & _ & _ & ->) & Hsc & _). simpl. unfold diagnostic_scopes in Hsc.
  destruct (negb _) eqn:H1; [done|]. simpl in Hsc. destruct (negb (subset _ ALLOWED_SCOPES)) eqn:H2; [done|].
  injection Hsc as <-. propify. unfold subset in *. rewrite forallb_Forall, Forall_forall in *. unfold str_in in *.
  setoid_rewrite bool_decide_eq_true in H1. setoid_rewrite bool_decide_eq_true in H2.
  assert (∀ s, s ∈ sorted_set (sorted_set (svc_scopes (spr_credential p).2 ++ ADDED_SCOPES))
    ↔ s ∈ svc_scopes (spr_credential p).2 ∨ s ∈ ADDED_SCOPES) as Hs by (intros s; rewrite !elem_of_sorted_set; apply elem_of_app).
  split_and!; [done| |done]. intros s [Hin|Hin]%Hs; [by apply H2|].
  unfold ALLOWED_SCOPES. rewrite !elem_of_app. auto.
Qed.

(** ** Runs, with their files *)

Lemma wp_on_db {A} (m : Tx A) (Q : res A → Host → Prop) h :
  wp m (λ r w, Q r (h <| host_world := w |>)) (host_world h) → wp (on_db m) Q h.
Proof. rewrite !wp_unfold. unfold on_db. by destruct (m (host_world h)). Qed.

Lemma wp_on_failure {A} (m : M Host A) (handler : M Host unit) (Q : res A → Host → Prop) h :
  wp m (λ r h', match r with
                | Ok a => Q (Ok a) h'
                | Exn e => wp handler (λ r2 h2, match r2 with Ok _ => Q (Exn e) h2 | Exn e2 => Q (Exn e2) h2 end) h'
                end) h → wp (on_failure m handler) Q h.
Proof.
  intros Hm. apply wp_try. eapply wp_mono; [exact Hm|]. intros [a|e] h'; [done|]. intros Hh. apply wp_bind.
  eapply wp_mono; [exact Hh|]. by intros [[]|e2] h2 H2; wp_k.
Qed.

Lemma wp_with_session {A} (m : M Host A) (Q : res A → Host → Prop) h :
  wp m (λ r h', Q r (h' <| host_world := stored (host_world h') |>)) (h <| host_world := stored (host_world h) |>) →
  wp (with_session m) Q h.
Proof. rewrite !wp_unfold. unfold with_session, stored. by destruct (m _). Qed.

Lemma wp_open fate path (Q : res unit → Host → Prop) h :
  (host_files h !! path = None → fate ≠ open_refused → Q (Ok tt) (h <| host_files := <[path := ""]> (host_files h) |>)) →
  (∀ e, Q (Exn e) h) → wp (open_exclusively fate path) Q h.
Proof.
  rewrite wp_unfold. unfold open_exclusively. intros Hok Hexn. destruct (host_files h !! path) eqn:E; [apply Hexn|].
  destruct fate; try apply Hexn; by apply Hok.
Qed.

Lemma wp_write fate path content (Q : res unit → Host → Prop) h :
  (Q (Ok tt) (h <| host_files := <[path := content]> (host_files h) |>)) →
  (∀ e written, Q (Exn e) (h <| host_files := <[path := written]> (host_files h) |>)) →
  wp (write_open_file fate path content) Q h.
Proof. rewrite wp_unfold. intros Hok Hexn. destruct fate; [apply Hok|apply Hok|apply Hexn]. Qed.

Lemma wp_unlink works path (Q : res unit → Host → Prop) h :
  (works = true → Q (Ok tt) (h <| host_files := delete path (host_files h) |>)) →
  (works = false → ∀ e, Q (Exn e) h) → wp (unlink works path) Q h.
Proof. rewrite wp_unfold. destruct works; simpl; intros H1 H2; [by apply H1|by apply H2]. Qed.

(** [h'] has the files of [h], if the system removes what it is asked to. *)
Definition cleaned (h h' : Host) : Prop := os_unlink os = true → host_files h' = host_files h.

(** Writing the diagnostic token: the file is there with the whole token, or it
    is not there. *)
Lemma diagnostic_file_spec path token h :
  wp (write_diagnostic_token_file os path token) (λ r h', host_world h' = host_world h ∧
    match r with
    | Ok _ => host_files h !! path = None ∧ host_files h' = <[path := token +:+ newline]> (host_files h)
    | Exn _ => cleaned h h'
    end) h.
Proof.
  unfold write_diagnostic_token_file. apply wp_bind, wp_raise_if; intros _; wp_k; [done|].
  apply wp_bind, wp_open; [|by intros e; wp_k]. intros Hnone _. wp_k. apply wp_on_failure, wp_write.
  - split_and!; try done. simpl. by rewrite insert_insert_eq.
  - intros e written. apply wp_unlink; intros Hw.
    + split; [done|]. intros _. simpl. by rewrite insert_insert_eq, delete_insert_id.
    + intros e2. split; [done|]. unfold cleaned. congruence.
Qed.

(** C28: the diagnostic provisioner, given a token, either publishes a credential
    or changes nothing: when it succeeds the token was that of an active credential
    of an enabled client with all the required scopes and none but the allowed
    ones, the one new row, for the same client and with the same expiry, holds the
    scopes of the old one and the three added ones, so none beyond the allowed,
    the old credential is kept, and the output file, which did not exist, holds the
    new token and a newline; when it fails the database is as it was and so are the
    files, provided that the system removes what it is asked to. *)
Theorem diagnostic_provisioning_is_all_or_nothing token path h :
  let w := host_world h in
  integrity_ok (committed w) = true → fresh (seed w) (service_credentials (committed w)) →
  wp (run_diagnostic_provisioner settings os token path) (λ r h',
    match r with
    | Ok _ => ∃ p i t, token_authorizes (committed w) token (service_token_pepper settings) t p ∧ succeeds p i
        ∧ (∀ s, s ∈ svc_scopes (isc_record i) ↔ s ∈ svc_scopes (spr_credential p).2 ∨ s ∈ ADDED_SCOPES)
        ∧ (∀ s, s ∈ svc_scopes (isc_record i) → s ∈ ALLOWED_SCOPES)
        ∧ service_credentials (committed w) !! isc_id i = None
        ∧ service_credentials (committed (host_world h')) = <[isc_id i := isc_record i]> (service_credentials (committed w))
        ∧ host_files h !! path = None ∧ host_files h' = <[path := isc_token i +:+ newline]> (host_files h)
    | Exn _ => committed (host_world h') = committed w ∧ cleaned h h'
    end) h.
Proof.
  intros w Hi Hf. unfold run_diagnostic_provisioner. apply wp_bind, wp_raise_if; intros _; wp_k; [done|].
  apply wp_with_session, wp_bind, wp_on_db, wp_uuid4. wp_k. apply wp_bind.
  unfold provision_helpdesk_diagnostic_credential. apply wp_bind, wp_on_failure, wp_bind, wp_on_db.
  eapply wp_mono; [apply diagnostic_rows_spec; exact Hi|].
  intros [i|e] w1 [Hc1 Hr]; wp_k.
  2: { apply wp_on_db, wp_rollback. wp_k. split; [done|]. by intros _. }
  destruct Hr as (p & Hp & Hsucc & Hid & Hrows). apply wp_bind. eapply wp_mono; [apply diagnostic_file_spec|].
  intros [[]|e] h2 [Hw2 Hr]; wp_k.
  2: { apply wp_on_db, wp_rollback. wp_k. split; [simpl; by rewrite Hw2|]. intros Hu. exact (Hr Hu). }
  destruct Hr as [Hnone Hfiles]. apply wp_ret. wp_k. apply wp_on_failure, wp_bind, wp_on_db, wp_commit; rewrite Hw2.
  - intros _. wp_k. apply wp_ret. wp_k. apply wp_ret. destruct (successor_scopes p i Hsucc) as (S1 & S2 & _).
    exists p, i, (now_of (host_world h)). split_and!; try done.
    apply fresh_lookup. eapply fresh_le; [exact Hf|]. simpl in Hid. unfold w. lia.
  - intros name _. wp_k. apply wp_bind, wp_on_db, wp_rollback. wp_k. apply wp_unlink; intros Hu.
    + wp_k. split; [done|]. intros _. simpl in *. by rewrite Hfiles, delete_insert_id.
    + intros e. wp_k. split; [done|]. unfold cleaned. congruence.
Qed.
End runs.

(** ** Runs on the small server *)

Definition toy_os : OperatingSystem := {| os_write := write_done; os_unlink := true |}.
Definition toy_host (w : World) : Host := {| host_world := w; host_files := ∅ |}.

Lemma toy_issued_fresh i w : toy_issue toy_fleet = (Ok i, w) → fresh (seed w) (service_credentials (committed w)).
Proof.
  intros Hrun. destruct (toy_issued i w Hrun) as (_ & Hrows & _ & Hlt & _). rewrite Hrows.
  intros id r [<- _]%lookup_singleton_Some. exact Hlt.
Qed.

Lemma credentials_change_by_revocation_alone_witness :
  ∃ i w, toy_issue toy_fleet = (Ok i, w) ∧
    let w' := host_world (run_module_provisioner (H := toy_crypto) toy_settings toy_os None (toy_host (stored w))).2 in
    ∃ r', service_credentials (committed w') !! isc_id i = Some r' ∧ only_revoked (isc_record i) r'.
Proof.
  destruct toy_issue_succeeds as (i & w & Hrun). exists i, w. split; [exact Hrun|].
  destruct (toy_issued i w Hrun) as (_ & Hrows & _ & _ & _).
  destruct (credentials_change_by_revocation_alone (H := toy_crypto) toy_settings toy_os w
    (host_world (run_module_provisioner (H := toy_crypto) toy_settings toy_os None (toy_host (stored w))).2) (isc_id i) (isc_record i))
    as (r' & Hr' & Hrr & _).
  - by apply (toy_issued_fresh i).
  - done.
  - apply rtc_once. apply step_module_run.
  - rewrite Hrows. apply lookup_singleton_eq.
  - by exists r'.
Defined.

Lemma pilot_credentials_open_one_installation_witness :
  wp (create_test_pilot_credential (H := toy_crypto) toy_settings "session-1" 7 "sha256:abc" (toy_admin_request None)
        {| apr_user := (1, {| usr_username := "root"; usr_password_digest := ""; usr_scopes := []; usr_disabled_at := None |});
           apr_session := (2, {| ads_admin_user_id := 1; ads_session_digest := ""; ads_expires_at := utc_datetime 0; ads_revoked_at := None |}) |})
    (λ r w, match r with
            | Ok response => ∃ issued, service_credentials (committed w) !! pcr_credential_id response = Some (isc_record issued)
            | Exn _ => committed w = committed toy_world
            end) toy_world.
Proof.
  eapply wp_mono; [apply (pilot_credentials_open_one_installation (H := toy_crypto) toy_settings toy_random toy_hmac)|].
  intros [response|e] w; [|done]. intros (a & b & c & issued & _ & _ & Hrow & _). by exists issued.
Defined.

Lemma diagnostic_provisioning_is_all_or_nothing_witness :
  ∃ i w, toy_issue toy_fleet = (Ok i, w) ∧
    wp (run_diagnostic_provisioner (H := toy_crypto) toy_settings toy_os (isc_token i) "/root/token") (λ r h,
      match r with
      | Ok _ => ∃ token, host_files h = <["/root/token" := token +:+ newline]> ∅
      | Exn _ => host_files h = ∅
      end) (toy_host w).
Proof.
  destruct toy_issue_succeeds as (i & w & Hrun). exists i, w. split; [exact Hrun|].
  eapply wp_mono.
  { apply (diagnostic_provisioning_is_all_or_nothing (H := toy_crypto) toy_settings toy_os toy_random).
    - by destruct (toy_issued i w Hrun) as (_ & _ & _ & _ & Hi).
    - by apply (toy_issued_fresh i). }
  intros [[]|e] h.
  - intros (p & j & t & _ & _ & _ & _ & _ & _ & _ & Hfiles). by exists (isc_token j).
  - intros [_ Hclean]. by apply Hclean.
Defined.
