(* ===== verification/AdminSessionsSpecs.v ===== *)
(** * What administrator sessions guarantee

    A request is an administrator's exactly when its cookie is the token of a
    live session of an enabled user and, for an unsafe method, its header is that
    session's CSRF token; a session that has ended stays ended, whatever other
    requests do; the first administrator is made once and can log in. *)

From S2P Require Import Prelude Store Session AuditLog Frames AuditFacts Contracts Semver SemverFacts Calendar.
From S2P Require Import Credentials Identity Enrollment EnrollmentRoutes ServiceTokens AdminSessions History AuthDemo.
From S2P Require Import ServiceTokensSpecs.

(** ** Tokens *)

Lemma b64_value_ascii c v : b64_value c = Some v → (code c <? 128) = true.
Proof.
  unfold b64_value, is_upper, is_lower, is_digit, between, in_set. intros H. apply Z.ltb_lt.
  repeat match type of H with (if ?b then _ else _) = _ => destruct b eqn:? end; propify; try lia; try done.
  all: match goal with H : _ ∈ _ |- _ => rewrite !elem_of_cons, elem_of_nil in H; lia end.
Qed.

Lemma is_pad_ascii c : is_pad c = true → (code c <? 128) = true.
Proof. unfold is_pad. intros H. propify. apply Z.ltb_lt. lia. Qed.

Lemma b64_bytes_ascii n l bytes : (length l <= n)%nat → b64_bytes l = Some bytes → forallb (λ c, code c <? 128) l = true.
Proof.
  revert l bytes. induction n as [|n IH]; intros [|a [|b [|c [|d l]]]] bytes Hn Hl; try done; simpl in Hn; try lia.
  cbn [b64_bytes] in Hl.
  destruct (b64_value a) eqn:Ea; [|done]. destruct (b64_value b) eqn:Eb; [|done]. simpl in Hl.
  apply b64_value_ascii in Ea, Eb. cbn [forallb]. rewrite Ea, Eb. simpl.
  destruct (is_pad c) eqn:Ec.
  { destruct (is_pad d) eqn:Ed; [|done]. simpl in Hl. case_bool_decide; [|done]. subst.
    apply is_pad_ascii in Ec as ->, Ed as ->. done. }
  destruct (b64_value c) eqn:Evc; [|done]. simpl in Hl. apply b64_value_ascii in Evc as ->. simpl.
  destruct (is_pad d) eqn:Ed.
  { case_bool_decide; [|done]. subst. by apply is_pad_ascii in Ed as ->. }
  destruct (b64_value d) eqn:Evd; [|done]. simpl in Hl. apply b64_value_ascii in Evd as ->. simpl.
  destruct (b64_bytes l) eqn:El; [|done]. eapply IH; [|exact El]. lia.
Qed.

Lemma opaque_ascii token : _is_opaque_session_token token = true → is_ascii_text token = true ∧ token ≠ "".
Proof.
  unfold _is_opaque_session_token, b64decode_padded. destruct (b64_bytes _) as [bytes|] eqn:E; [|done]. simpl. intros Hlen.
  split.
  - apply (b64_bytes_ascii (length (pad_b64 (chars token)))) in E; [|done]. unfold pad_b64 in E. rewrite forallb_app in E.
    unfold is_ascii_text. by apply andb_prop in E as [-> _].
  - intros ->. simpl in E. injection E as <-. done.
Qed.

Lemma issued_session_opaque secret : String.length secret = SESSION_TOKEN_BYTES → _is_opaque_session_token (urlsafe_b64 secret) = true.
Proof.
  intros Hl. unfold _is_opaque_session_token, b64decode_padded, urlsafe_b64. rewrite chars_text, b64_round_trip.
  unfold fmap, option_fmap, option_map. by rewrite text_chars, Hl.
Qed.

Section admin.
Context `{EnrollmentCrypto} `{PasswordHashing} (settings : Settings).
Let secret : string := session_secret settings.

(** ** Requests *)

(** [token] is the cookie of the session of [p] in [d] at [t]. *)
Definition session_authorizes (d : DB) (token : string) (t : datetime) (p : AdminPrincipal) : Prop :=
  _is_opaque_session_token token = true
  ∧ admin_sessions d !! (apr_session p).1 = Some (apr_session p).2
  ∧ session_digest token secret = Ok (ads_session_digest (apr_session p).2)
  ∧ session_is_active (apr_session p).2 t = true
  ∧ (apr_user p).1 = ads_admin_user_id (apr_session p).2
  ∧ admin_users d !! (apr_user p).1 = Some (apr_user p).2
  ∧ usr_disabled_at (apr_user p).2 = None.

(** The request may change something only with its session's CSRF token. *)
Definition csrf_passes (request : AdminRequest) (token : string) : Prop :=
  str_in (upper (adm_method request)) _SAFE_METHODS = true
  ∨ ∃ expected, csrf_token_for_session token secret = Ok expected ∧ adm_csrf request = Some expected
      ∧ Z.of_nat (String.length expected) = _CSRF_TOKEN_LENGTH.

Lemma digests_unique d id id' s s' :
  integrity_ok d = true → admin_sessions d !! id = Some s → admin_sessions d !! id' = Some s' →
  ads_session_digest s = ads_session_digest s' → id = id' ∧ s = s'.
Proof.
  intros Hi Hs Hs' Hd.
  eapply (unique_on_inj (Some ∘ ads_session_digest) (admin_sessions d)); [|done..|simpl; by rewrite Hd|done].
  eapply integrity_constraint; [exact Hi|]. constraint.
Qed.

Lemma opaque_digest token : secret ≠ "" → _is_opaque_session_token token = true →
  ∃ digest, session_digest token secret = Ok digest.
Proof.
  intros Hs [Ha Hne]%opaque_ascii. unfold session_digest. rewrite Ha, !bool_decide_false by done. by eexists.
Qed.

Lemma load_admin_spec token w :
  integrity_ok (db w) = true → secret ≠ "" →
  wp (_load_admin_principal settings token) (λ r w',
    db w' = db w ∧ committed w' = committed w ∧ seed w' = seed w ∧
    match r with
    | Ok (Some p) => session_authorizes (db w) token (now_of w) p
    | Ok None => ∀ p, ¬ session_authorizes (db w) token (now_of w) p
    | Exn _ => False
    end) w.
Proof.
  intros Hi Hsec. unfold _load_admin_principal. destruct (_is_opaque_session_token token) eqn:Hop; simpl negb; cbv iota.
  2: { apply wp_ret. split_and!; try done. intros p (Hq & _). congruence. }
  destruct (opaque_digest token Hsec Hop) as [digest Hd]. fold secret. apply wp_bind, wp_lift_res. rewrite Hd. wp_k.
  apply wp_bind, wp_scalar.
  - intros id s Hs Heq. apply bool_decide_eq_true in Heq. wp_k.
    assert (∀ p, session_authorizes (db w) token (now_of w) p → (apr_session p).1 = id ∧ (apr_session p).2 = s) as Hone.
    { intros p (_ & Hr & Hq & _). eapply digests_unique; [done..|]. congruence. }
    wp_step. change (utc_datetime (clock w (ticks w))) with (now_of w).
    destruct (session_is_active s (now_of w)) eqn:Ha; simpl negb; cbv iota.
    2: { apply wp_ret. split_and!; try done. intros p Hp. destruct (Hone p Hp) as [_ H2].
         destruct Hp as (_ & _ & _ & Hact & _). congruence. }
    wp_step. change (table (db (w <| ticks := S (ticks w) |>))) with (admin_users (db w)).
    destruct (admin_users (db w) !! ads_admin_user_id s) as [user|] eqn:Hu.
    2: { apply wp_ret. split_and!; try done. intros p Hp. destruct (Hone p Hp) as [_ H2].
         destruct Hp as (_ & _ & _ & _ & Hid & Hrow & _). congruence. }
    apply wp_ret. split_and!; try done. destruct (usr_disabled_at user) eqn:Hdis; simpl is_some; cbv iota.
    + intros p Hp. destruct (Hone p Hp) as [_ H2]. destruct Hp as (_ & _ & _ & _ & Hid & Hrow & Hen). congruence.
    + unfold session_authorizes; simpl. by rewrite Hd, Heq.
  - intros Hnone. wp_k. apply wp_ret. split_and!; try done. intros p (_ & Hr & Hq & _). specialize (Hnone _ _ Hr).
    simpl in Hnone. apply bool_decide_eq_false in Hnone. congruence.
Qed.

Lemma csrf_token_shape token expected : csrf_token_for_session token secret = Ok expected →
  is_ascii_text expected = true ∧ forallb is_urlsafe (chars expected) = true.
Proof.
  unfold csrf_token_for_session. destruct (_ || _); [done|]. destruct (negb _); [done|]. intros [= <-].
  unfold urlsafe_b64, is_ascii_text. rewrite chars_text. split; [apply b64_chars_ascii|apply b64_chars_urlsafe].
Qed.

Lemma enforce_csrf_spec request token w :
  secret ≠ "" → _is_opaque_session_token token = true →
  wp (enforce_csrf request token secret) (λ r w', w' = w ∧
    match r with
    | Ok _ => csrf_passes request token
    | Exn e => e = csrf_failed ∧ ¬ csrf_passes request token
    end) w.
Proof.
  intros Hsec [Ha Hne]%opaque_ascii. unfold enforce_csrf. destruct (str_in _ _SAFE_METHODS) eqn:Hm.
  { apply wp_ret. split; [done|]. by left. }
  assert (∃ expected, csrf_token_for_session token secret = Ok expected) as [expected Hexp].
  { unfold csrf_token_for_session. rewrite Ha, !bool_decide_false by done. by eexists. }
  destruct (csrf_token_shape _ _ Hexp) as [H1 H2].
  apply wp_bind, wp_lift_res. rewrite Hexp. wp_k. apply wp_raise_if; intros Hc.
  - split; [done|]. split; [done|]. intros [Hs|(e & He & Hh & Hl)]; [congruence|]. rewrite Hexp in He. injection He as <-.
    rewrite Hh in Hc. simpl in Hc. rewrite Hl, H1, H2, bool_decide_true in Hc by done. done.
  - split; [done|]. right. exists expected. propify. destruct (adm_csrf request) as [supplied|]; simpl in *; [by subst|done].
Qed.

(** C29: an administration request goes through exactly when its cookie is the
    token, by digest, of a stored session that is neither revoked nor expired at
    the moment the request reads, of a user that is not disabled, and its method
    is safe or its header the CSRF token derived from that session token; without
    such a session it gets 401, and with one but without the token 403.  Nothing
    is written. *)
Theorem admin_authorization_is_exact request w :
  integrity_ok (committed w) = true → secret ≠ "" →
  wp (require_admin settings request) (λ r w',
    committed w' = committed w ∧
    let token := default "" (adm_cookie request) in
    match r with
    | Ok p => session_authorizes (committed w) token (now_of w) p ∧ csrf_passes request token
    | Exn e => (e = admin_unauthorized ∧ ∀ p, ¬ session_authorizes (committed w) token (now_of w) p)
        ∨ (e = csrf_failed ∧ ¬ csrf_passes request token ∧ ∃ p, session_authorizes (committed w) token (now_of w) p)
    end) w.
Proof.
  intros Hi Hsec. unfold require_admin. fold secret. apply wp_bind, wp_raise_if; intros Hne; wp_k.
  { split; [done|]. left. split; [done|]. intros p (Hop & _). apply opaque_ascii in Hop as [_ ?]. by propify. }
  apply wp_bind, wp_in_session. eapply wp_mono; [by apply load_admin_spec|].
  intros [[p|]|e] w1 (Hd & Hc & Hs & Hr); wp_k; [| |done].
  - apply wp_bind, wp_require; [|done]. intros p' [= <-]. wp_k. apply wp_bind.
    eapply wp_mono; [apply enforce_csrf_spec; [done|apply Hr]|].
    intros [[]|e] w2 [-> Hcsrf]; wp_k.
    + by apply wp_ret.
    + destruct Hcsrf as [-> Hno]. split; [done|]. right. split_and!; try done. by exists p.
  - apply wp_bind, wp_require; [done|]. intros _. wp_k. split; [done|]. by left.
Qed.

(** ** Sessions over a history *)

(** The user, the digest and the expiry are fixed, and an end is an end. *)
Definition session_ends (r r' : AdminSession) : Prop :=
  (ads_admin_user_id r', ads_session_digest r', ads_expires_at r')
    = (ads_admin_user_id r, ads_session_digest r, ads_expires_at r)
  ∧ (ads_revoked_at r ≠ None → ads_revoked_at r' ≠ None).

#[export] Instance session_ends_preorder : PreOrder session_ends.
Proof. unfold session_ends. split; [done|]. intros x y z [H1 H2] [H3 H4]. split; [congruence|auto]. Qed.

Abbreviation sessions_stay := (stays session_ends).

Definition session_rows (w : World) := (admin_sessions (db w), committed w).

Lemma sessions_aside {A} (m : Tx A) : keeps session_rows m → pres seed_le m → pres sessions_stay m.
Proof.
  intros H1 H2. apply stays_aside, pres_and; [|done]. eapply pres_mono; [|exact H1]. intros w w' [= E1 E2].
  unfold same; simpl. congruence.
Qed.

Lemma audit_sessions_stay a b c d e f g h : pres sessions_stay (append_audit_event a b c d e f g h).
Proof. apply sessions_aside; frame. Qed.
Lemma request_id_sessions_stay request : pres sessions_stay (audit_request_id settings request).
Proof. apply sessions_aside; unfold audit_request_id; frame. Qed.
Lemma load_sessions_stay token : pres sessions_stay (_load_admin_principal settings token).
Proof. apply sessions_aside; unfold _load_admin_principal; frame. Qed.
Lemma csrf_sessions_stay request token key : pres sessions_stay (enforce_csrf request token key).
Proof. apply sessions_aside; unfold enforce_csrf; frame. Qed.
Lemma cookie_sessions_stay token t : pres sessions_stay (set_admin_session_cookie token t).
Proof. apply sessions_aside; unfold set_admin_session_cookie; frame. Qed.

(** The audited end of an operation: its request id, its event and the commit. *)
Lemma audited_commit_stays request (m : string → Tx uuid) :
  (∀ request_id, pres sessions_stay (m request_id)) →
  pres sessions_stay (rollback_on_error (request_id ← audit_request_id settings request; m request_id ;; commit)).
Proof.
  intros Hm. apply stays_rollback_on_error, pres_bind; [apply _|apply request_id_sessions_stay|]. intros request_id.
  apply pres_bind; [apply _|apply Hm|]. intros _. apply stays_commit.
Qed.

Lemma issue_session_frame user now lifetime : keeps session_rows (issue_admin_session settings user now lifetime).
Proof. unfold issue_admin_session, aware_now, now_or, token_bytes. frame. Qed.

(** A new session: its token, its id and its record. *)
Lemma issue_session_spec user lifetime w :
  (∀ draw n, String.length (random_bytes draw n) = n) →
  wp (issue_admin_session settings user None lifetime) (λ r w',
    session_rows w' = session_rows w ∧ seed_le w w' ∧
    match r with
    | Ok i => seed w <= ias_id i < seed w' ∧ _is_opaque_session_token (ias_token i) = true
        ∧ session_digest (ias_token i) secret = Ok (ads_session_digest (ias_record i))
        ∧ csrf_token_for_session (ias_token i) secret = Ok (ias_csrf_token i)
        ∧ ias_record i = {| ads_admin_user_id := user; ads_session_digest := ads_session_digest (ias_record i);
                            ads_expires_at := dt_add (now_of w) lifetime; ads_revoked_at := None |}
    | Exn _ => True
    end) w.
Proof.
  intros Hlen. apply wp_and; [apply (wp_of_pres (same session_rows)), issue_session_frame|].
  apply wp_and; [apply (wp_of_pres seed_le); unfold issue_admin_session, aware_now, now_or, token_bytes; frame|].
  unfold issue_admin_session, aware_now, now_or, token_bytes. wp_run. simpl. split_and!; try done; try lia.
  by apply issued_session_opaque.
Qed.

Lemma login_stays dummy username password request :
  (∀ draw n, String.length (random_bytes draw n) = n) →
  pres sessions_stay (login_admin settings dummy username password request).
Proof.
  intros Hlen. unfold login_admin. apply pres_bind; [apply _|apply stays_in_session|].
  2: { intros i. apply pres_bind; [apply _|apply cookie_sessions_stay|]. intros c. apply pres_ret. apply _. }
  apply pres_bind; [apply _|frame|]. intros found. apply pres_bind; [apply _|frame|]. intros user.
  apply pres_bind; [apply _|frame|]. intros _. apply pres_of_wp. intros w. apply wp_bind.
  eapply wp_mono; [by apply issue_session_spec|]. intros [i|e] w1 (Hf & Hs & Hi); wp_k.
  2: { apply stays_of_aside. injection Hf as E1 E2. split; [|done]. unfold same; simpl. congruence. }
  injection Hf as E1 E2. destruct Hi as (Hid & _). apply wp_bind, wp_insert. wp_k. apply wp_trans; [apply _| |].
  - intros base Hb. apply (stays_insert session_ends); [..|lia|].
    + destruct Hb as (F1 & _). simpl. rewrite E1. eapply fresh_le; [done|lia].
    + destruct Hb as (_ & F2 & _). simpl. rewrite E2. eapply fresh_le; [done|lia].
    + revert Hb. apply stays_of_aside. split; [|done]. unfold same; simpl. congruence.
  - apply wp_of_pres, pres_bind; [apply _| |].
    + apply (audited_commit_stays (adm_http request) (λ request_id, append_audit_event _ _ _ _ _ request_id _ _)).
      intros request_id. apply audit_sessions_stay.
    + intros _. apply pres_ret. apply _.
Qed.

(** A principal that was loaded: its session is still there, with the user, the
    digest and the expiry it had. *)
Definition known (w : World) (p : AdminPrincipal) : Prop :=
  intact session_ends {[ (apr_session p).1 := (apr_session p).2 ]} w.

Lemma logout_stays request p w : known w p → sessions_stay w (logout_admin settings request p w).2.
Proof.
  intros Hp. apply stays_session_at. destruct p as [user [id record]]. apply (stays_stored session_ends) in Hp. simpl.
  destruct Hp as (F1 & F2 & K1 & _). destruct (K1 id record) as (s & Hs & [Hsame _]); [apply lookup_singleton_eq|]. simpl in *.
  apply wp_bind, wp_insert. wp_k. apply wp_bind, wp_bind, wp_bind. apply wp_utcnow. wp_k. apply wp_bind, wp_raise_if; [done|].
  intros _. wp_k. apply wp_ret. wp_k. apply wp_update. wp_k. apply wp_trans; [apply _| |].
  - intros base (G1 & G2 & L1 & L2). unfold intact. simpl. split_and!; [|done| |done].
    + apply fresh_alter. intros j v. rewrite lookup_insert_Some. intros [[<- _]|[_ Hj]]; [by eapply F1|by eapply G1].
    + intros j v Hv. destruct (decide (j = id)) as [->|Hne].
      * eexists. rewrite lookup_alter_eq, lookup_insert_eq. split; [done|].
        destruct (L1 id v Hv) as (s' & Hs' & Hvs). simpl in Hs'. replace s' with s in * by congruence.
        destruct Hvs as [Hvs _]. unfold revoked_admin_session. split.
        -- rewrite <- Hvs, Hsame. by destruct (ads_revoked_at record).
        -- by destruct (ads_revoked_at record) eqn:E; simpl; rewrite ?E.
      * destruct (L1 j v Hv) as (s' & Hs' & Hvs). exists s'. by rewrite lookup_alter_ne, lookup_insert_ne by done.
  - apply wp_of_pres, (audited_commit_stays (adm_http request) (λ request_id, append_audit_event _ _ _ _ _ request_id _ _)).
    intros request_id. apply audit_sessions_stay.
Qed.

Lemma bootstrap_stays username password : pres sessions_stay (run_bootstrap username password).
Proof.
  apply stays_in_session. unfold bootstrap_first_admin, hash_password. pose proof audit_sessions_stay. frame.
Qed.

Lemma require_admin_stays request : pres sessions_stay (require_admin settings request).
Proof.
  unfold require_admin. apply pres_bind; [apply _|frame|]. intros _.
  apply pres_bind; [apply _|apply stays_in_session, load_sessions_stay|]. intros found.
  apply pres_bind; [apply _|frame|]. intros p. apply pres_bind; [apply _|apply csrf_sessions_stay|]. frame.
Qed.

Lemma refused_without_session request w :
  integrity_ok (committed w) = true → secret ≠ "" →
  (∀ p, ¬ session_authorizes (committed w) (default "" (adm_cookie request)) (now_of w) p) →
  (require_admin settings request w).1 = Exn admin_unauthorized.
Proof.
  intros Hi Hsec Hno. cut (wp (require_admin settings request) (λ r _, r = Exn admin_unauthorized) w); [by rewrite wp_unfold|].
  unfold require_admin. apply wp_bind, wp_raise_if; intros _; wp_k; [done|].
  apply wp_bind, wp_in_session. eapply wp_mono; [by apply load_admin_spec|].
  intros [[p|]|e] w1 (_ & _ & _ & Hr); wp_k; [by destruct (Hno p)| |done]. by apply wp_bind, wp_require.
Qed.

(** *** The steps of a history: between the check of a request and its logout any
    other step may come. *)

Record AdminState := { as_world : World; as_principals : list AdminPrincipal }.

Inductive admin_step (dummy : string) : AdminState → AdminState → Prop :=
| step_login w ps username password request :
    admin_step dummy {| as_world := w; as_principals := ps |}
      {| as_world := (login_admin settings dummy username password request w).2; as_principals := ps |}
| step_admitted w ps request p w' :
    require_admin settings request w = (Ok p, w') →
    admin_step dummy {| as_world := w; as_principals := ps |} {| as_world := w'; as_principals := p :: ps |}
| step_refused w ps request e w' :
    require_admin settings request w = (Exn e, w') →
    admin_step dummy {| as_world := w; as_principals := ps |} {| as_world := w'; as_principals := ps |}
| step_logout w ps request p :
    p ∈ ps →
    admin_step dummy {| as_world := w; as_principals := ps |}
      {| as_world := (logout_admin settings request p w).2; as_principals := ps |}
| step_bootstrap w ps username password :
    admin_step dummy {| as_world := w; as_principals := ps |}
      {| as_world := (run_bootstrap username password w).2; as_principals := ps |}.

(** A state between requests, with unused ids and loaded principals. *)
Definition settled (s : AdminState) : Prop :=
  intact session_ends ∅ (as_world s) ∧ Forall (known (as_world s)) (as_principals s).

(** An admitted principal's session is a stored one. *)
Lemma load_admin_row token w :
  wp (_load_admin_principal settings token) (λ r w', db w' = db w ∧
    match r with
    | Ok (Some p) => admin_sessions (db w) !! (apr_session p).1 = Some (apr_session p).2
    | _ => True
    end) w.
Proof.
  unfold _load_admin_principal. destruct (negb _); [by apply wp_ret|]. apply wp_bind, wp_lift_res.
  destruct (session_digest _ _) as [digest|]; wp_k; [|done]. apply wp_bind, wp_scalar; [|by intros _; wp_k; apply wp_ret].
  intros id r Hr _. wp_k. wp_step. destruct (negb _); [by apply wp_ret|]. wp_step.
  destruct (table (db (w <| ticks := S (ticks w) |>)) !! ads_admin_user_id r) as [user|]; [|by apply wp_ret].
  apply wp_ret. split; [done|]. by destruct (is_some _).
Qed.

Lemma require_admin_known request w p w' :
  intact session_ends ∅ w → require_admin settings request w = (Ok p, w') → known w' p.
Proof.
  intros Hi Hrun. assert (intact session_ends ∅ w') as Hi'.
  { pose proof (require_admin_stays request w) as Hs. rewrite Hrun in Hs. by apply Hs. }
  cut (wp (require_admin settings request) (λ r w', match r with
    | Ok p => db w' = committed w' ∧ admin_sessions (committed w') !! (apr_session p).1 = Some (apr_session p).2 | Exn _ => True end) w).
  { intros Hw. rewrite wp_unfold, Hrun in Hw. destruct Hw as [Hd Hrow], Hi' as (F1 & F2 & _). simpl in *.
    assert (rows_kept session_ends {[ (apr_session p).1 := (apr_session p).2 ]} (admin_sessions (committed w'))) as Hk.
    { intros id v [<- <-]%lookup_singleton_Some. eexists. split; [exact Hrow|reflexivity]. }
    split_and!; try done. simpl. by rewrite Hd. }
  unfold require_admin. apply wp_bind, wp_raise_if; intros _; wp_k; [done|].
  apply wp_bind, wp_in_session. eapply wp_mono.
  { apply wp_and; [apply load_admin_row|apply (wp_of_pres (same committed)); unfold _load_admin_principal; frame]. }
  intros [[q|]|e] w1 [[Hd Hr] Hc]; wp_k; [| |done].
  - apply wp_bind, wp_require; [|done]. intros p' [= <-]. wp_k. apply wp_bind.
    eapply wp_mono; [apply (wp_of_pres (same (λ w, (committed w, db w)))); unfold enforce_csrf; frame|].
    intros [[]|e] w2 [= C2 D2]; wp_k; [|done]. apply wp_ret. rewrite C2, D2. split; [done|]. unfold same in Hc. simpl in *. congruence.
  - by apply wp_bind, wp_require.
Qed.

Lemma admin_step_stays dummy s s' :
  (∀ draw n, String.length (random_bytes draw n) = n) → settled s → admin_step dummy s s' →
  sessions_stay (as_world s) (as_world s') ∧ settled s'.
Proof.
  intros Hlen [Hi Hk] Hstep.
  assert (sessions_stay (as_world s) (as_world s')) as Hs.
  { destruct Hstep as [w ps username password request|w ps request p w' Hrun|w ps request e w' Hrun|w ps request p Hp|w ps username password]; simpl in *.
    - by apply login_stays.
    - pose proof (require_admin_stays request w) as Hs. by rewrite Hrun in Hs.
    - pose proof (require_admin_stays request w) as Hs. by rewrite Hrun in Hs.
    - apply logout_stays. rewrite Forall_forall in Hk. by apply Hk.
    - apply bootstrap_stays. }
  split; [done|]. split; [by apply Hs|].
  assert (Forall (known (as_world s')) (as_principals s)) as Hk' by (eapply Forall_impl; [exact Hk|intros p; apply Hs]).
  destruct Hstep; simpl in *; try done. constructor; [|done]. by eapply require_admin_known.
Qed.

Lemma admin_history_stays dummy s s' :
  (∀ draw n, String.length (random_bytes draw n) = n) → settled s → rtc (admin_step dummy) s s' →
  sessions_stay (as_world s) (as_world s').
Proof.
  intros Hlen Hs Hh. revert Hs. induction Hh as [s|s s1 s2 H1 _ IH]; intros Hs; [done|].
  apply admin_step_stays in H1 as [Hst Hs1]; [|done..]. etrans; [exact Hst|by apply IH].
Qed.

(** C30: whatever logins, requests, logouts and bootstraps follow, in any order and
    with logouts that act on a principal checked long before, a stored session
    keeps its user, its digest and its expiry, and once revoked stays revoked; and
    when it is revoked or has expired, a request with its token gets 401. *)
Theorem ended_sessions_stay_ended dummy w s' id r :
  (∀ draw n, String.length (random_bytes draw n) = n) →
  fresh (seed w) (admin_sessions (committed w)) →
  rtc (admin_step dummy) {| as_world := stored w; as_principals := [] |} s' →
  admin_sessions (committed w) !! id = Some r →
  ∃ r', admin_sessions (committed (as_world s')) !! id = Some r' ∧ session_ends r r'
    ∧ ∀ request, let w' := as_world s' in
        integrity_ok (committed w') = true → secret ≠ "" →
        session_digest (default "" (adm_cookie request)) secret = Ok (ads_session_digest r) →
        ads_revoked_at r ≠ None ∨ ads_revoked_at r' ≠ None ∨ dt_leb (ads_expires_at r) (now_of w') = true →
        (require_admin settings request w').1 = Exn admin_unauthorized.
Proof.
  intros Hlen Hf Hh Hr.
  assert (intact session_ends (admin_sessions (committed w)) (stored w)) as Hbase.
  { split_and!; try done; apply rows_kept_refl; intros v; reflexivity. }
  assert (settled {| as_world := stored w; as_principals := [] |}) as Hs.
  { split; [|done]. split_and!; try done; intros j v Hv; by rewrite lookup_empty in Hv. }
  apply (admin_history_stays dummy _ _ Hlen Hs Hh) in Hbase as (_ & _ & _ & K). simpl in K.
  destruct (K id r Hr) as (r' & Hr' & Hends). exists r'. split; [done|]. split; [done|].
  intros request w' Hi Hsec Hdig Hend. apply refused_without_session; [done..|].
  intros p (_ & Hrow & Hd & Hact & _). destruct Hends as [Hsame Hrev]. injection Hsame as _ E2 E3.
  assert ((apr_session p).1 = id ∧ (apr_session p).2 = r') as [_ Heq] by (eapply digests_unique; [done..|congruence]).
  rewrite Heq in Hact. unfold session_is_active in Hact. propify.
  assert (ads_revoked_at r' = None) as Hnone by by destruct (ads_revoked_at r').
  destruct Hend as [Hend|[Hend|Hend]]; [by apply Hrev in Hend|done|].
  unfold dt_leb, dt_ltb in *. rewrite E3 in *. propify. lia.
Qed.

(** ** Logging in *)

Lemma csrf_of_issued token csrf :
  (∀ key message, String.length (hmac_sha256 key message) = 32%nat) → csrf_token_for_session token secret = Ok csrf →
  Z.of_nat (String.length csrf) = _CSRF_TOKEN_LENGTH.
Proof.
  intros Hh. unfold csrf_token_for_session. destruct (_ || _); [done|]. destruct (negb _); [done|]. intros [= <-].
  unfold urlsafe_b64. rewrite <- length_chars, chars_text, length_b64_chars, length_chars, Hh. done.
Qed.

Lemma admitted_with_session request w p :
  integrity_ok (committed w) = true → secret ≠ "" →
  session_authorizes (committed w) (default "" (adm_cookie request)) (now_of w) p →
  csrf_passes request (default "" (adm_cookie request)) →
  (require_admin settings request w).1 = Ok p.
Proof.
  intros Hi Hsec Hp Hcsrf. cut (wp (require_admin settings request) (λ r _, r = Ok p) w); [by rewrite wp_unfold|].
  unfold require_admin. pose proof Hp as (Hop & _). apply wp_bind, wp_raise_if.
  { intros Hne. apply opaque_ascii in Hop as [_ ?]. by propify. }
  intros _. wp_k. apply wp_bind, wp_in_session. eapply wp_mono; [by apply load_admin_spec|].
  intros [[q|]|e] w1 (_ & _ & _ & Hr); wp_k; [|by destruct (Hr p)|done].
  apply wp_bind, wp_require; [|done]. intros q' [= <-]. wp_k. apply wp_bind.
  eapply wp_mono; [by apply enforce_csrf_spec|]. intros [[]|e] w2 [-> Hc]; wp_k; [|by destruct Hc].
  apply wp_ret. f_equal. destruct Hr as (_ & R1 & D1 & _ & U1 & V1 & _), Hp as (_ & R2 & D2 & _ & U2 & V2 & _).
  assert ((apr_session q).1 = (apr_session p).1 ∧ (apr_session q).2 = (apr_session p).2) as [H1 H2]
    by (eapply digests_unique; [done..|simpl in *; congruence]).
  destruct q as [[a b] [c d]], p as [[a' b'] [c' d']]; simpl in *. congruence.
Qed.

(** A login succeeds only with the name of a stored enabled user and a password
    its digest verifies; then one session of that user, new and eight hours long, is
    stored, and in any later state that still has the row and the user, before the
    expiry, every request with the cookie's token, and with the CSRF token that was
    returned unless its method is safe, is that administrator's.  A login that fails
    stores nothing. *)
Theorem logins_open_sessions dummy username password request w :
  (∀ draw n, String.length (random_bytes draw n) = n) →
  (∀ key message, String.length (hmac_sha256 key message) = 32%nat) →
  fresh (seed w) (admin_sessions (committed w)) → secret ≠ "" →
  wp (login_admin settings dummy username password request) (λ r w',
    match r with
    | Ok (csrf, cookie) => ∃ id user sid record,
        admin_users (committed w) !! id = Some user ∧ usr_username user = username ∧ usr_disabled_at user = None
        ∧ verify_password (usr_password_digest user) password = true
        ∧ admin_sessions (committed w) !! sid = None
        ∧ admin_sessions (committed w') = <[sid := record]> (admin_sessions (committed w))
        ∧ ads_expires_at record = dt_add (now_of w) DEFAULT_SESSION_LIFETIME
        ∧ ∀ w2 req, integrity_ok (committed w2) = true →
            admin_sessions (committed w2) !! sid = Some record → admin_users (committed w2) !! id = Some user →
            dt_ltb (now_of w2) (ads_expires_at record) = true → adm_cookie req = Some (cookie_value cookie) →
            str_in (upper (adm_method req)) _SAFE_METHODS = true ∨ adm_csrf req = Some csrf →
            (require_admin settings req w2).1 = Ok {| apr_user := (id, user); apr_session := (sid, record) |}
    | Exn _ => committed w' = committed w
    end) w.
Proof.
  intros Hrand Hmac Hfresh Hsec. unfold login_admin. apply wp_bind, wp_in_session. apply wp_bind, wp_scalar.
  2: { intros _. wp_k. by apply wp_bind, wp_require. }
  intros id user Hu Hname. wp_k. apply wp_bind, wp_require; [|done]. intros u [= <-]. wp_k. simpl.
  apply wp_bind, wp_raise_if; intros Hpw; wp_k; [done|]. apply wp_bind. eapply wp_mono; [by apply issue_session_spec|].
  intros [i|e] w1 (Hf & Hs & Hi); wp_k; injection Hf as E1 E2; [|by simpl in *].
  destruct Hi as (Hid & Hop & Hdig & Hcsrf & Hrec). apply wp_bind, wp_insert. wp_k. apply wp_bind, wp_rollback_on_error.
  apply (wp_bind_pres (same session_rows)); [unfold audit_request_id; frame| |intros e w2 [= E3 E4]; simpl in *; congruence].
  intros request_id w2 [= E3 E4]. apply (wp_bind_pres (same session_rows)); [frame| |intros e w3 [= E5 E6]; simpl in *; congruence].
  intros _ w3 [= E5 E6]. apply wp_commit; [|intros name _; simpl in *; congruence]. intros _. wp_k. apply wp_ret. wp_k.
  apply wp_bind. unfold set_admin_session_cookie. apply wp_bind, wp_raise_if; [by rewrite Hrec|]. intros _. wp_k.
  wp_step. apply wp_ret. wp_k. apply wp_ret. simpl in *.
  exists id, user, (ias_id i), (ias_record i). split_and!; try done; propify; try done.
  - by destruct (usr_disabled_at user).
  - apply fresh_lookup. eapply fresh_le; [exact Hfresh|]. lia.
  - by rewrite E5, E3, E1.
  - by rewrite Hrec.
  - intros w4 req Hi4 Hrow Hu4 Hlt Hcookie Hm. apply admitted_with_session; [done..| |]; rewrite Hcookie.
    + assert (ads_admin_user_id (ias_record i) = id) as Huid by by rewrite Hrec.
      unfold session_authorizes. simpl. rewrite Huid. split_and!; try done; [|by destruct (usr_disabled_at user)].
      unfold session_is_active. rewrite Hlt, Hrec. done.
    + destruct Hm as [Hm|Hm]; [by left|right]. exists (ias_csrf_token i). split_and!; try done. by eapply csrf_of_issued.
Qed.

(** ** The first administrator *)

Lemma bootstrap_refused username password w :
  admin_users (committed w) ≠ ∅ → ∃ e, (run_bootstrap username password w).1 = Exn e.
Proof.
  intros Hne. cut (wp (run_bootstrap username password) (λ r _, ∃ e, r = Exn e) w); [by rewrite wp_unfold|].
  apply wp_in_session, wp_bind, wp_uuid4. wp_k. unfold bootstrap_first_admin.
  apply wp_bind, wp_raise_if; intros _; wp_k; [by eexists|]. apply wp_bind, wp_select. intros l _ Hl. wp_k.
  apply wp_bind, wp_raise_if; intros Hempty; wp_k; [by eexists|]. propify. subst l. exfalso. apply Hne, map_empty. intros id.
  destruct (admin_users (committed w) !! id) as [u|] eqn:Hu; [|done]. assert ((id, u) ∈ []) as Hin by by apply Hl.
  by apply elem_of_nil in Hin.
Qed.

(** C0: a bootstrap makes an administrator only where there is none: exactly that
    one user, with the stripped name, the scope of updates alone and a digest that
    the given password verifies; it makes nothing when it fails; and while any
    administrator is stored every further bootstrap fails. *)
Theorem first_administrator_is_made_once username password w :
  (∀ salt p, startswith "$argon2id$" (argon2_hash salt p) = true ∧ argon2_verify (argon2_hash salt p) p = true) →
  wp (run_bootstrap username password) (λ r w',
    match r with
    | Ok (id, user) => admin_users (committed w) = ∅ ∧ admin_users (committed w') = {[ id := user ]}
        ∧ usr_username user = strip_text username ∧ has_length 1 128 (usr_username user) = true
        ∧ usr_scopes user = [ADMIN_UPDATE_SCOPE] ∧ usr_disabled_at user = None
        ∧ verify_password (usr_password_digest user) password = true
        ∧ ∀ username' password' w2, admin_users (committed w2) !! id = Some user →
            ∃ e, (run_bootstrap username' password' w2).1 = Exn e
    | Exn _ => committed w' = committed w
    end) w.
Proof.
  intros Hargon. apply wp_in_session, wp_bind, wp_uuid4. wp_k. unfold bootstrap_first_admin, hash_password.
  apply wp_bind, wp_raise_if; intros Hlen; wp_k; [done|]. apply wp_bind, wp_select. intros l _ Hl. wp_k.
  apply wp_bind, wp_raise_if; intros Hempty; wp_k; [done|]. propify. subst l.
  assert (admin_users (committed w) = ∅) as Hnone.
  { apply map_empty. intros id. destruct (admin_users (committed w) !! id) as [u|] eqn:Hu; [|done].
    assert ((id, u) ∈ []) as Hin by by apply Hl. by apply elem_of_nil in Hin. }
  apply wp_bind, wp_uuid4. wp_k. apply wp_bind, wp_bind, wp_raise_if; intros Hpw; wp_k; [done|].
  apply wp_bind, wp_uuid4. wp_k. apply wp_ret. wp_k. apply wp_bind, wp_lift_res.
  change (normalize_admin_scopes [ADMIN_UPDATE_SCOPE]) with (Ok [ADMIN_UPDATE_SCOPE] : res (list string)). wp_k.
  apply wp_bind, wp_insert. wp_k. apply wp_bind, wp_rollback_on_error.
  apply (wp_bind_pres (same (λ w, (admin_users (db w), committed w)))); [frame| |intros e w2 [= E1 E2]; simpl in *; congruence].
  intros _ w2 [= E1 E2]. apply wp_commit; [|intros name _; simpl in *; congruence]. intros _. wp_k. apply wp_ret. wp_k.
  simpl in *. destruct (Hargon (seed w + 1 + 1) password) as [A1 A2].
  split_and!; try done.
  - rewrite E1, Hnone. apply insert_empty.
  - unfold verify_password. simpl. rewrite A1, A2, bool_decide_false by (by propify). done.
  - intros u p w3 Hrow. apply bootstrap_refused. intros He. by rewrite He, lookup_empty in Hrow.
Qed.

(** ** The authority of updates *)

(** The rows of a principal, read at [t], still carry the authority of updates. *)
Definition update_authority (d : DB) (request : AdminRequest) (t : datetime) (user_id session_id : uuid) : Prop :=
  ∃ user record,
    session_authorizes d (default "" (adm_cookie request)) t {| apr_user := (user_id, user); apr_session := (session_id, record) |}
    ∧ csrf_passes request (default "" (adm_cookie request))
    ∧ normalize_admin_scopes (usr_scopes user) = Ok (usr_scopes user) ∧ ADMIN_UPDATE_SCOPE ∈ usr_scopes user.

Lemma update_scope_spec p w :
  wp (require_admin_update_scope p) (λ r w', w' = w ∧
    let scopes := usr_scopes (apr_user p).2 in
    let granted := normalize_admin_scopes scopes = Ok scopes ∧ ADMIN_UPDATE_SCOPE ∈ scopes in
    match r with Ok q => q = p ∧ granted | Exn e => e = update_scope_required ∧ ¬ granted end) w.
Proof.
  unfold require_admin_update_scope. destruct (normalize_admin_scopes _) as [normalized|e] eqn:Hn.
  2: { apply wp_raise. split_and!; try done. intros [Hg _]. congruence. }
  apply wp_bind, wp_raise_if; intros Hc; wp_k.
  - split_and!; try done. intros [Hg Hin]. assert (normalized = usr_scopes (apr_user p).2) as -> by congruence.
    rewrite bool_decide_true in Hc by done. unfold str_in in Hc. by rewrite bool_decide_true in Hc.
  - apply wp_ret. unfold str_in in Hc. propify. split_and!; congruence.
Qed.

(** C0: the check before an update mutation commits reads the user and the session
    again: it passes only when, in the database of the transaction at that moment,
    the session is this user's, live, and the one of the cookie, the user is
    enabled with normalized scopes that include updates, and the CSRF token is
    right for an unsafe method; otherwise, unless the operation budget ran out, it
    is because one of these no longer holds. *)
Theorem update_authority_is_rechecked request principal check_budget w :
  pres unmoved check_budget → secret ≠ "" →
  wp (revalidate_update_admin_in_transaction settings request principal check_budget) (λ r w',
    db w' = db w ∧ committed w' = committed w ∧
    let authority := update_authority (db w) request (now_of w) (apr_user principal).1 (apr_session principal).1 in
    match r with
    | Ok _ => authority
    | Exn e => ¬ authority ∨ ∃ w1, (check_budget w1).1 = Exn e
    end) w.
Proof.
  intros Hb Hsec. unfold revalidate_update_admin_in_transaction. fold secret. apply wp_bind.
  assert (∀ w, wp check_budget (λ r w', w' = w ∧ match r with Exn e => ∃ w1, (check_budget w1).1 = Exn e | _ => True end) w) as Hcheck.
  { intros w0. rewrite wp_unfold. split; [apply Hb|]. destruct (check_budget w0) as [[]] eqn:E; [done|]. exists w0. by rewrite E. }
  eapply wp_mono; [apply Hcheck|]. intros [[]|e] w0 [-> Hr]; wp_k; [|by eauto].
  apply wp_bind, wp_get. wp_k. apply wp_bind, wp_get. wp_k.
  change (table (db w) !! (apr_user principal).1) with (admin_users (db w) !! (apr_user principal).1).
  change (table (db w) !! (apr_session principal).1) with (admin_sessions (db w) !! (apr_session principal).1).
  unfold update_authority, session_authorizes. simpl.
  destruct (admin_users (db w) !! (apr_user principal).1) as [user|] eqn:Hu.
  2: { apply wp_raise. split_and!; try done. left. naive_solver. }
  destruct (admin_sessions (db w) !! (apr_session principal).1) as [record|] eqn:Hrec.
  2: { apply wp_raise. split_and!; try done. left. naive_solver. }
  apply wp_bind, wp_raise_if; intros Hdis; wp_k.
  { split_and!; try done. left. intros (u & r & (_ & [= <-] & _ & _ & Hid & [= <-] & Hen) & _).
    rewrite Hen, Hid, Z.eqb_refl in Hdis. done. }
  apply wp_bind, wp_utcnow. wp_k. change (utc_datetime (clock w (ticks w))) with (now_of w).
  apply wp_bind, wp_raise_if; intros Hact; wp_k.
  { split_and!; try done. left. intros (u & r & (Hop & [= <-] & _ & Ha & _) & _). by rewrite Ha, Hop in Hact. }
  propify. destruct (opaque_digest _ Hsec ltac:(done)) as [digest Hd].
  apply wp_bind, wp_lift_res. rewrite Hd. wp_k. apply wp_bind, wp_raise_if; intros Hdig; wp_k.
  { split_and!; try done. left. intros (u & r & (_ & [= <-] & [= Hq] & _) & _). propify. congruence. }
  apply wp_bind. eapply wp_mono; [by apply enforce_csrf_spec|]. intros [[]|e] w1 [-> Hcsrf]; wp_k.
  2: { split_and!; try done. left. intros (u & r & _ & Hp & _). by destruct Hcsrf. }
  apply wp_bind. eapply wp_mono; [apply update_scope_spec|]. intros [q|e] w2 [-> Hsc]; wp_k.
  2: { split_and!; try done. left. intros (u & r & (_ & _ & _ & _ & _ & [= <-] & _) & _ & Hg & Hin). by destruct Hsc as [_ []]. }
  destruct Hsc as [_ [Hg Hin]]. eapply wp_mono; [apply Hcheck|]. intros [[]|e] w3 [-> He].
  - split_and!; try done. exists user, record. propify. split_and!; try done; [congruence|by destruct (usr_disabled_at user)].
  - split_and!; try done. by right.
Qed.
End admin.

(** ** On the small server *)

Definition toy_admin_session : AdminSession := {|
  ads_admin_user_id := 1; ads_session_digest := "digest"; ads_expires_at := utc_datetime 100; ads_revoked_at := None |}.
Definition toy_admin : AdminUser := {|
  usr_username := "root"; usr_password_digest := "$argon2id$pw"; usr_scopes := [ADMIN_UPDATE_SCOPE]; usr_disabled_at := None |}.
Definition toy_principal : AdminPrincipal := {| apr_user := (1, toy_admin); apr_session := (2, toy_admin_session) |}.
Definition toy_office : World :=
  let d := empty_db <| admin_users := {[ 1 := toy_admin ]} |> <| admin_sessions := {[ 2 := toy_admin_session ]} |> in
  {| committed := d; db := d; seed := 1000; clock := λ n, Z.of_nat n; ticks := 0 |}.

Lemma toy_office_fresh : fresh (seed toy_office) (admin_sessions (committed toy_office)).
Proof.
  intros id r Hr. change (({[ 2 := toy_admin_session ]} : gmap uuid AdminSession) !! id = Some r) in Hr.
  apply lookup_singleton_Some in Hr as [<- _]. simpl. lia.
Qed.

Lemma toy_office_sound : integrity_ok (committed toy_office) = true.
Proof. vm_compute. reflexivity. Qed.

Lemma admin_authorization_is_exact_witness :
  wp (require_admin (H := toy_crypto) toy_settings (toy_admin_request (Some "stolen"))) (λ r w',
    committed w' = committed toy_office ∧ match r with Ok p => _is_opaque_session_token "stolen" = true | Exn _ => True end) toy_office.
Proof.
  eapply wp_mono; [apply (admin_authorization_is_exact (H := toy_crypto) toy_settings); [apply toy_office_sound|done]|].
  intros [p|e] w [Hc Hr]; (split; [exact Hc|]); [apply Hr|done].
Defined.

Lemma ended_sessions_stay_ended_witness :
  let w' := (run_bootstrap (H0 := toy_hashing) "other" "pw" (stored toy_office)).2 in
  ∃ r', admin_sessions (committed w') !! 2 = Some r' ∧ session_ends toy_admin_session r'.
Proof.
  destruct (ended_sessions_stay_ended (H := toy_crypto) (H0 := toy_hashing) toy_settings "$argon2id$" toy_office
    {| as_world := (run_bootstrap (H0 := toy_hashing) "other" "pw" (stored toy_office)).2; as_principals := [] |} 2 toy_admin_session)
    as (r' & Hr' & Hends & _).
  - apply toy_random.
  - apply toy_office_fresh.
  - apply rtc_once. apply step_bootstrap.
  - reflexivity.
  - by exists r'.
Defined.

Lemma logins_open_sessions_witness :
  wp (login_admin (H := toy_crypto) (H0 := toy_hashing) toy_settings "$argon2id$" "root" "pw" (toy_admin_request None)) (λ r w',
    match r with
    | Ok (csrf, cookie) => ∃ sid record, admin_sessions (committed w') = <[sid := record]> (admin_sessions (committed toy_office))
    | Exn _ => committed w' = committed toy_office
    end) toy_office.
Proof.
  eapply wp_mono; [apply (logins_open_sessions (H := toy_crypto) (H0 := toy_hashing) toy_settings);
    [apply toy_random|apply toy_hmac|apply toy_office_fresh|done]|].
  intros [[csrf cookie]|e] w; [|done]. intros (id & user & sid & record & _ & _ & _ & _ & _ & Hrows & _). by exists sid, record.
Defined.

Lemma first_administrator_is_made_once_witness :
  wp (run_bootstrap (H0 := toy_hashing) " root " "pw") (λ r w',
    match r with
    | Ok (id, user) => admin_users (committed w') = {[ id := user ]} ∧ usr_username user = strip_text " root "
    | Exn _ => committed w' = committed toy_world
    end) toy_world.
Proof.
  eapply wp_mono; [apply (first_administrator_is_made_once (H0 := toy_hashing))|].
  - intros salt p. split; [apply startswith_app|by apply bool_decide_eq_true].
  - intros [[id user]|e] w; [|done]. by intros (_ & Hrows & Hname & _).
Defined.

Lemma update_authority_is_rechecked_witness :
  wp (revalidate_update_admin_in_transaction (H := toy_crypto) toy_settings (toy_admin_request (Some "stolen")) toy_principal (mret tt))
    (λ r w', db w' = db toy_office
      ∧ match r with Ok _ => _is_opaque_session_token "stolen" = true | Exn _ => True end) toy_office.
Proof.
  eapply wp_mono; [apply (update_authority_is_rechecked (H := toy_crypto) toy_settings (toy_admin_request (Some "stolen")) toy_principal (mret tt));
    [apply pres_ret; apply _|done]|].
  intros [[]|e] w (Hd & _ & Hr); (split; [exact Hd|]); [|done]. destruct Hr as (u & r & (Hop & _) & _). exact Hop.
Defined.
