(* ===== verification/Policy.v ===== *)
(** * Endpoint policy (endpoint_server/policy)

    service.py, delivery.py and the changes of admin_routes.py: numbered versions
    of a policy, their assignment to all devices or to one, the delivery of the
    effective version to a connected agent and the agent's acknowledgements.  The
    guard of the ORM against changing a version (models.py) is not needed: no
    operation does. *)

From S2P Require Import Prelude Store Session AuditLog Contracts Semver Calendar Credentials Identity Enrollment EnrollmentRoutes.

(** ** Contracts (endpoint_contracts/endpoint_policy.py, gateway_ws.py)

    The fields the server reads, and the dump of the whole. *)

Record DlpPolicyV1 := {
  usb_device_events : string;
  print_events : string;
  browser_upload_events : string;
  browser_paste_events : string
}.

Record EndpointPolicyV1 := {
  pol_policy_id : uuid;
  pol_policy_version : Z;
  pol_activity_enabled : bool;
  pol_dlp : DlpPolicyV1;
  pol_browser_required : bool;
  pol_browser_deployment_mode : string;
  pol_security_event_days : Z;
  pol_dump : json
}.

(** [EndpointPolicyV1.model_validate]; [None] is a ValidationError. *)
Class PolicyContracts := { validate_policy : json → option EndpointPolicyV1 }.

Record AgentHelloV1 := {
  hel_device_id : uuid;
  hel_agent_version : string;
  hel_platform : string;
  hel_protocol_features : list string
}.

(** Its validator compares the digest with that of the policy. *)
Record EndpointPolicyDeliveryV1 := {
  epd_policy_version_id : uuid;
  epd_policy : EndpointPolicyV1;
  epd_policy_digest : string;
  epd_issued_at : datetime
}.

(** After its validator: an applied policy has its time and no error. *)
Inductive ack_outcome := ack_applied (applied_at : datetime) | ack_error (error_code : string).

Record EndpointPolicyAckV1 := {
  epa_policy_id : uuid;
  epa_policy_version : Z;
  epa_policy_digest : string;
  epa_received_at : datetime;
  epa_outcome : ack_outcome
}.

Definition ack_applied_at (ack : EndpointPolicyAckV1) : option datetime :=
  match epa_outcome ack with ack_applied t => Some t | ack_error _ => None end.
Definition ack_error_code (ack : EndpointPolicyAckV1) : option string :=
  match epa_outcome ack with ack_applied _ => None | ack_error code => Some code end.
Definition ack_status (ack : EndpointPolicyAckV1) : policy_status :=
  match epa_outcome ack with ack_applied _ => p_applied | ack_error _ => p_error end.

(** ** service.py *)

Section policy.
Context `{Contracts} `{PolicyContracts}.

Definition policy_digest (policy : EndpointPolicyV1) : string := sha256_hexdigest (json_compact (pol_dump policy)).

(** [latest or 0] of [max(version)] *)
Definition latest_version (versions : list (uuid * PolicyVersion)) : Z :=
  fold_left (λ n v, Z.max n (pvr_version v.2)) versions 0.

Definition create_policy_version (definition_id : uuid) (policy : EndpointPolicyV1) (actor_id : uuid)
    : Tx (uuid * PolicyVersion) :=
  definition ← get definition_id;
  require (definition : option PolicyDefinition) (PolicyNotFound "policy definition not found") ;;
  raise_if (negb (pol_policy_id policy =? definition_id)) (ValueError "policy document id does not match definition") ;;
  versions ← select (λ _ v, pvr_definition_id v =? definition_id);
  raise_if (negb (pol_policy_version policy =? latest_version versions + 1))
    (ValueError "policy version must increment by one") ;;
  id ← uuid4;
  let version := {| pvr_definition_id := definition_id; pvr_version := pol_policy_version policy;
                    pvr_digest := policy_digest policy; pvr_document := pol_dump policy; pvr_created_by := actor_id |} in
  insert id version ;;
  flush ;;
  mret (id, version).

Definition _require_version (version_id : uuid) : Tx PolicyVersion :=
  version ← get version_id;
  require version (PolicyNotFound "policy version not found").

(** The assignment of one scope, made or changed. *)
Definition assign (scope : string) (device_id : option uuid) (version_id actor_id : uuid) : Tx uuid :=
  assignment ← scalar (λ _ a, bool_decide (pas_scope a = scope)
                              && (is_none device_id || bool_decide (pas_device_id a = device_id)));
  match assignment with
  | Some (id, _) =>
      now ← utcnow;
      update id (λ a, a <| pas_policy_version_id := version_id |> <| pas_assigned_by := actor_id |>
                        <| pas_assigned_at := now |>) ;;
      flush ;; mret id
  | None =>
      now ← utcnow;
      id ← uuid4;
      insert id {| pas_scope := scope; pas_device_id := device_id; pas_policy_version_id := version_id;
                   pas_assigned_by := actor_id; pas_assigned_at := now |} ;;
      flush ;; mret id
  end.

Definition assign_default_policy (version_id actor_id : uuid) : Tx uuid :=
  _require_version version_id ;; assign "default" None version_id actor_id.

Definition assign_device_policy (device_id version_id actor_id : uuid) : Tx uuid :=
  _require_version version_id ;; assign "device" (Some device_id) version_id actor_id.

Definition resolve_effective_policy (device_id : uuid) : Tx (option (uuid * PolicyVersion)) :=
  own ← scalar (λ _ a, bool_decide (pas_scope a = "device") && bool_decide (pas_device_id a = Some device_id));
  assignment ← match own with
               | Some a => mret (Some a)
               | None => scalar (λ _ a, bool_decide (pas_scope a = "default"))
               end;
  match assignment with
  | None => mret None
  | Some (_, a) =>
      version ← get (pas_policy_version_id a);
      mret ((λ v, (pas_policy_version_id a, v)) <$> version)
  end.

(** ** delivery.py *)

Definition _MINIMUM_AGENT_VERSION : Z * Z * Z := (3, 2, 68).
Definition _MINIMUM_LINUX_AGENT_VERSION : Z * Z * Z := (3, 2, 122).
Definition _MINIMUM_LINUX_AUDIT_VERSION : Z * Z * Z := (3, 2, 123).
Definition _SENSOR_READINESS_RETRY : timedelta := seconds 30.

(** [_VERSION.fullmatch] with the integers of its groups *)
Definition agent_version_parts (version : string) : option (Z * Z * Z) :=
  match split 46 (chars version) with
  | [a; b; c] =>
      match int a, int b, int c with
      | Some a, Some b, Some c => Some (a, b, c)
      | _, _, _ => None
      end
  | _ => None
  end.

(** [>=] of triples *)
Definition triple_geb (x y : Z * Z * Z) : bool :=
  let '(a, b, c) := x in
  let '(a', b', c') := y in
  (a' <? a) || ((a =? a') && ((b' <? b) || ((b =? b') && (c' <=? c)))).

Definition supports_endpoint_policy (hello : AgentHelloV1) : bool :=
  str_in (hel_platform hello) ["windows_amd64"; "linux_amd64"]
  && str_in "endpoint.policy.v1" (hel_protocol_features hello)
  && match agent_version_parts (hel_agent_version hello) with
     | Some parts => triple_geb parts (if bool_decide (hel_platform hello = "linux_amd64")
                                       then _MINIMUM_LINUX_AGENT_VERSION else _MINIMUM_AGENT_VERSION)
     | None => false
     end.

Definition supports_endpoint_audit (hello : AgentHelloV1) : bool :=
  if negb (supports_endpoint_policy hello) then false
  else bool_decide (hel_platform hello = "windows_amd64")
       || match agent_version_parts (hel_agent_version hello) with
          | Some parts => triple_geb parts _MINIMUM_LINUX_AUDIT_VERSION
          | None => false
          end.

Definition new_state (device_id : uuid) : PolicyDeviceState := {|
  pst_device_id := device_id; pst_policy_version_id := None; pst_policy_digest := None; pst_status := p_pending;
  pst_error_code := None; pst_received_at := None; pst_applied_at := None; pst_acknowledged_at := None |}.

Definition _state_for_update (device_id : uuid) : Tx (uuid * PolicyDeviceState) :=
  state ← scalar (λ _ s, pst_device_id s =? device_id);
  match state with
  | Some state => mret state
  | None =>
      id ← uuid4;
      insert id (new_state device_id) ;;
      mret (id, new_state device_id)
  end.

(** The state of a version that is about to be delivered. *)
Definition requested (version_id : uuid) (digest : string) (status : policy_status) (s : PolicyDeviceState)
    : PolicyDeviceState :=
  s <| pst_policy_version_id := Some version_id |> <| pst_policy_digest := Some digest |>
    <| pst_error_code := None |> <| pst_received_at := None |> <| pst_applied_at := None |>
    <| pst_acknowledged_at := None |> <| pst_status := status |>.

(** A sensor that was not ready is asked again after half a minute; the clock is
    read only where the other conditions hold. *)
Definition readiness_due (state : PolicyDeviceState) : Tx bool :=
  match pst_status state, pst_error_code state, pst_acknowledged_at state with
  | p_error, Some code, Some acknowledged_at =>
      if bool_decide (code = "SENSOR_NOT_READY") then
        now ← utcnow;
        mret (_SENSOR_READINESS_RETRY <=? instant now - instant (as_utc acknowledged_at))
      else mret false
  | _, _, _ => mret false
  end.

Definition settled (version_id : uuid) (digest : string) (state : PolicyDeviceState) : bool :=
  bool_decide (pst_policy_version_id state = Some version_id) && bool_decide (pst_policy_digest state = Some digest)
  && in_set (pst_status state) [p_applied; p_error; p_unsupported].

Definition prepare_policy_delivery (hello : AgentHelloV1) (only_if_changed : bool)
    : Tx (option EndpointPolicyDeliveryV1) :=
  effective ← resolve_effective_policy (hel_device_id hello);
  match effective with
  | None => mret None
  | Some (version_id, version) =>
      '(state_id, state) ← _state_for_update (hel_device_id hello);
      retry_readiness ← readiness_due state;
      if only_if_changed && settled version_id (pvr_digest version) state && negb retry_readiness then mret None
      else if negb (supports_endpoint_policy hello) then
        update state_id (requested version_id (pvr_digest version) p_unsupported) ;;
        flush ;;
        mret None
      else
        update state_id (requested version_id (pvr_digest version) p_pending) ;;
        policy ← require (validate_policy (pvr_document version)) (ValidationError "EndpointPolicyV1");
        issued_at ← utcnow;
        raise_if (negb (bool_decide (pvr_digest version = policy_digest policy))) (ValidationError "EndpointPolicyDeliveryV1") ;;
        flush ;;
        mret (Some {| epd_policy_version_id := version_id; epd_policy := policy;
                      epd_policy_digest := pvr_digest version; epd_issued_at := issued_at |})
  end.

Definition ack_mismatch : exn := PolicyAcknowledgementRejected "policy acknowledgement does not match delivery".

(** The comparison of an acknowledgement with what was delivered. *)
Definition ack_matches (state : PolicyDeviceState) (delivered : PolicyVersion) (ack : EndpointPolicyAckV1) : bool :=
  bool_decide (pst_policy_digest state = Some (pvr_digest delivered))
  && (epa_policy_id ack =? pvr_definition_id delivered)
  && (epa_policy_version ack =? pvr_version delivered)
  && bool_decide (epa_policy_digest ack = pvr_digest delivered)
  && in_set (pst_status state) [p_pending; p_applied; p_error; p_stale].

Definition acknowledged (superseded : bool) (ack : EndpointPolicyAckV1) (now : datetime) (s : PolicyDeviceState)
    : PolicyDeviceState :=
  s <| pst_status := if superseded then p_stale else ack_status ack |>
    <| pst_error_code := if superseded then Some "SUPERSEDED" else ack_error_code ack |>
    <| pst_received_at := Some (epa_received_at ack) |> <| pst_applied_at := ack_applied_at ack |>
    <| pst_acknowledged_at := Some now |>.

(** The proof that a version was applied, once per moment. *)
Definition record_application (device_id version_id : uuid) (digest : string) (applied_at now : datetime) : Tx unit :=
  let applied_at := as_utc applied_at in
  application ← scalar (λ _ a, (pap_device_id a =? device_id) && (pap_policy_version_id a =? version_id)
                               && dt_eqb (pap_applied_at a) applied_at);
  match application with
  | None =>
      id ← uuid4;
      insert id {| pap_device_id := device_id; pap_policy_version_id := version_id; pap_policy_digest := digest;
                   pap_applied_at := applied_at; pap_acknowledged_at := now |}
  | Some (_, a) =>
      raise_if (negb (bool_decide (pap_policy_digest a = digest)))
        (PolicyAcknowledgementRejected "applied policy history conflicts")
  end.

Definition record_policy_ack (device_id : uuid) (ack : EndpointPolicyAckV1) : Tx uuid :=
  found ← scalar (λ _ s, pst_device_id s =? device_id);
  state ← require found (PolicyAcknowledgementRejected "policy acknowledgement has no pending delivery");
  version_id ← require (pst_policy_version_id state.2)
    (PolicyAcknowledgementRejected "policy acknowledgement has no pending delivery");
  delivered ← get version_id;
  delivered ← require delivered ack_mismatch;
  raise_if (negb (ack_matches state.2 delivered ack)) ack_mismatch ;;
  effective ← resolve_effective_policy device_id;
  let superseded := match effective with Some (id, _) => negb (id =? version_id) | None => true end in
  now ← utcnow;
  update state.1 (acknowledged superseded ack now) ;;
  match ack_applied_at ack with
  | Some applied_at => record_application device_id version_id (pvr_digest delivered) applied_at now
  | None => mret tt
  end ;;
  flush ;;
  mret state.1.

(** *** How the gateway runs them (gateway/ws_routes.py, [agent_gateway]) *)

Definition deliver_policy (hello : AgentHelloV1) (only_if_changed : bool) : Tx (option EndpointPolicyDeliveryV1) :=
  in_session (delivery ← prepare_policy_delivery hello only_if_changed; commit ;; mret delivery).

Definition receive_policy_ack (device_id : uuid) (ack : EndpointPolicyAckV1) : Tx unit :=
  in_session (record_policy_ack device_id ack ;; commit).
End policy.

(** ** admin_routes.py *)

Section admin.
Context `{Contracts} `{PolicyContracts} `{EnrollmentCrypto} (settings : Settings) (endpoint_policy_enabled : bool).

Definition _require_enabled : Tx unit :=
  raise_if (negb endpoint_policy_enabled) (HTTPException 404 "Политики Endpoint отключены").

Definition _audit (request : HttpRequest) (admin : uuid) (action object_kind : string) (object_id : uuid)
    (details : list (pykey * pyval)) : Tx unit :=
  request_id ← audit_request_id settings request;
  append_audit_event "admin" (Some (uuid_str admin)) action object_kind (Some (uuid_str object_id)) request_id details None ;;
  mret tt.

(** [async with session.begin()]: commit at the end, or roll back. *)
Definition begin {A} (body : Tx A) : Tx A := in_session (rollback_on_error (a ← body; commit ;; mret a)).

Definition is_integrity (e : exn) : bool := match e with IntegrityError _ => true | _ => false end.
Definition is_policy_not_found (e : exn) : bool := match e with PolicyNotFound _ => true | _ => false end.

(** The new version with its audit event. *)
Definition audited_version (definition_id : uuid) (policy : EndpointPolicyV1) (admin : uuid) (request : HttpRequest)
    : Tx (uuid * PolicyVersion) :=
  version ← create_policy_version definition_id policy admin;
  _audit request admin "policy.version.created" "policy_version" version.1
    [(KStr "policy_id", PStr (uuid_str definition_id)); (KStr "version", PInt (pvr_version version.2))] ;;
  mret version.

Definition create_policy (name : string) (policy : EndpointPolicyV1) (admin : uuid) (request : HttpRequest)
    : Tx (uuid * PolicyVersion) :=
  _require_enabled ;;
  let name := strip_text name in
  raise_if (bool_decide (name = "")) (HTTPException 422 "Название политики не задано") ;;
  catch (begin
    (existing ← get (pol_policy_id policy);
     raise_if (is_some (existing : option PolicyDefinition)) (IntegrityError "policy_definitions_pkey") ;;
     insert (pol_policy_id policy) {| pdf_name := name |} ;;
     flush ;;
     audited_version (pol_policy_id policy) policy admin request))
    is_integrity (λ _, raise (HTTPException 409 "Политика уже существует")).

Definition add_policy_version (policy_id : uuid) (policy : EndpointPolicyV1) (admin : uuid) (request : HttpRequest)
    : Tx (uuid * PolicyVersion) :=
  _require_enabled ;;
  catch (begin (audited_version policy_id policy admin request))
    (λ e, is_policy_not_found e || is_value_error e || is_integrity e)
    (λ e, raise (if is_policy_not_found e then HTTPException 404 "Политика не найдена"
                 else HTTPException 409 "Версия политики недопустима")).

Definition _assign (request : HttpRequest) (admin version_id : uuid) (device_id : option uuid) : Tx uuid :=
  _require_enabled ;;
  catch (begin
    (assignment ← match device_id with
                  | Some device_id =>
                      device ← get device_id;
                      require (device : option Device) (HTTPException 404 "Устройство не найдено") ;;
                      assign_device_policy device_id version_id admin
                  | None => assign_default_policy version_id admin
                  end;
     _audit request admin (if is_some device_id then "policy.device.assigned" else "policy.default.assigned")
       (if is_some device_id then "device" else "policy_default") (default version_id device_id)
       [(KStr "policy_version_id", PStr (uuid_str version_id))] ;;
     mret assignment))
    (λ e, is_policy_not_found e || is_integrity e)
    (λ e, raise (if is_policy_not_found e then HTTPException 404 "Версия политики не найдена"
                 else HTTPException 409 "Назначение политики конфликтует")).
End admin.
