(* ===== verification/Security.v ===== *)
(** * Security events (endpoint_server/security/ingestion.py, retention.py)

    The server stores an event once, when the policy version that the device had
    applied at the time of the event audits its kind; older gateways get one
    acknowledgement for the whole batch, newer ones a disposition per event.  The
    contract of an event (endpoint_contracts/security_events.py) is its fields;
    the dump of its metadata is a JSON value.  By the validators of that file the
    identifiers of a batch are distinct and the channel goes with the type. *)

From S2P Require Import Prelude Store Session AuditLog Frames History EnrollmentRoutes Contracts Policy.

Record SecurityEventV1 := {
  sve_event_identifier : uuid;
  sve_event_type : string;
  sve_channel : string;
  sve_severity : string;
  sve_occurred_at : datetime;
  sve_user_login : option string;
  sve_policy_id : uuid;
  sve_policy_version : Z;
  sve_safe_metadata : json       (* model_dump(mode="json", exclude_none=True) *)
}.

Record AgentSecurityEventBatchV1 := {
  asb_batch_id : uuid;
  asb_events : list SecurityEventV1
}.

Record SecurityEventAckV1 := {
  sea_batch_id : uuid;
  sea_event_identifiers : list uuid;
  sea_persisted_at : datetime
}.

(** What is sent after the commit: the acknowledgement of a batch, or the
    identifiers of one disposition (endpoint_contracts/telemetry_results.py). *)
Inductive SecurityReply :=
| SecurityEventAckEnvelopeV1 (sequence : Z) (ack : SecurityEventAckV1)
| TelemetryResultEnvelopeV1 (sequence : Z) (batch_id : uuid) (disposition reason_code : string) (event_identifiers : list uuid).

Definition security_rejected (message : string) : exn := SecurityEventRejected message.
Definition is_security_rejected (e : exn) : bool := match e with SecurityEventRejected _ => true | _ => false end.

Definition _utc (value : datetime) : res datetime :=
  if is_aware value then Ok (as_utc value) else Exn (security_rejected "security event time must be timezone aware").

Definition _enabled (policy : EndpointPolicyV1) (event_type : string) : res bool :=
  let dlp := pol_dlp policy in
  let modes := [("USB_DEVICE_CONNECTED", usb_device_events dlp); ("USB_DEVICE_DISCONNECTED", usb_device_events dlp);
                ("PRINT_JOB", print_events dlp); ("BROWSER_UPLOAD", browser_upload_events dlp);
                ("BROWSER_PASTE", browser_paste_events dlp)] in
  match assoc event_type modes with
  | Some mode => Ok (bool_decide (mode = "audit"))
  | None => Exn (KeyError event_type)
  end.

Definition _same_event (existing : SecurityEvent) (event : SecurityEventV1) : bool :=
  bool_decide (sev_event_type existing = sve_event_type event)
  && bool_decide (sev_channel existing = sve_channel event)
  && bool_decide (sev_severity existing = sve_severity event)
  && dt_eqb (as_utc (sev_occurred_at existing)) (sve_occurred_at event)
  && bool_decide (sev_user_login existing = sve_user_login event)
  && (sev_policy_id existing =? sve_policy_id event)
  && (sev_policy_version existing =? sve_policy_version event)
  && json_eqb (sev_safe_metadata existing) (sve_safe_metadata event).

(** The latest application first, then the latest acknowledgement. *)
Definition latest_application (a b : uuid * PolicyApplication) : bool :=
  lex_leb (instant (pap_applied_at b.2), instant (pap_acknowledged_at b.2))
          (instant (pap_applied_at a.2), instant (pap_acknowledged_at a.2)).

Section ingestion.
Context `{PolicyContracts}.

(** The policy that an event is judged by, or its rejection. *)
Definition judge_event (device_id : uuid) (received : datetime) (event : SecurityEventV1) : Tx EndpointPolicyV1 :=
  occurred ← lift_res (_utc (sve_occurred_at event));
  applications ← select (λ _ a, (pap_device_id a =? device_id) && dt_leb (pap_applied_at a) occurred);
  application ← require (head (order_by latest_application applications))
    (security_rejected "security event policy was not applied");
  version ← get (pap_policy_version_id application.2);
  let invalid := security_rejected "security event policy history is invalid" in
  version ← require (version : option PolicyVersion) invalid;
  raise_if (negb (bool_decide (pap_policy_digest application.2 = pvr_digest version))) invalid ;;
  policy ← require (validate_policy (pvr_document version)) (security_rejected "security event policy is invalid");
  let outside := security_rejected "security event is outside applied policy" in
  raise_if (negb (sve_policy_id event =? pol_policy_id policy)
            || negb (sve_policy_version event =? pol_policy_version policy)) outside ;;
  enabled ← lift_res (_enabled policy (sve_event_type event));
  raise_if (negb enabled) outside ;;
  raise_if (dt_ltb occurred (dt_add received (- hours 24)) || dt_ltb (dt_add received (minutes 5)) occurred)
    (security_rejected "security event time is outside live bounds") ;;
  mret policy.

Fixpoint judge_events (device_id : uuid) (received : datetime) (events : list SecurityEventV1)
    : Tx (list (SecurityEventV1 * EndpointPolicyV1)) :=
  match events with
  | [] => mret []
  | event :: events =>
      policy ← judge_event device_id received event;
      validated ← judge_events device_id received events;
      mret ((event, policy) :: validated)
  end.

Definition same_identifier (device_id identifier : uuid) (e : SecurityEvent) : bool :=
  (sev_device_id e =? device_id) && (sev_event_identifier e =? identifier).

(** [INSERT ... ON CONFLICT DO NOTHING], and the check of the row that is there. *)
Definition store_event (device_id : uuid) (received : datetime) (item : SecurityEventV1 * EndpointPolicyV1) : Tx unit :=
  let (event, policy) := item in
  id ← uuid4;
  conflict ← scalar (λ _ e, same_identifier device_id (sve_event_identifier event) e);
  when (is_none conflict)
    (insert id {| sev_event_identifier := sve_event_identifier event; sev_device_id := device_id;
                  sev_event_type := sve_event_type event; sev_channel := sve_channel event;
                  sev_severity := sve_severity event; sev_occurred_at := sve_occurred_at event;
                  sev_received_at := received; sev_user_login := sve_user_login event;
                  sev_policy_id := sve_policy_id event; sev_policy_version := sve_policy_version event;
                  sev_safe_metadata := sve_safe_metadata event;
                  sev_expires_at := dt_add received (days (pol_security_event_days policy)) |} ;;
     flush) ;;
  existing ← scalar (λ _ e, same_identifier device_id (sve_event_identifier event) e);
  raise_if (match existing with Some (_, e) => negb (_same_event e event) | None => true end)
    (security_rejected "security event identifier conflicts with persisted event").

Definition ingest_gateway_security_events (device_id : uuid) (batch : AgentSecurityEventBatchV1)
    (received_at : option datetime) : Tx SecurityEventAckV1 :=
  now ← now_or received_at;
  received ← lift_res (_utc now);
  validated ← judge_events device_id received (asb_events batch);
  for_each validated (store_event device_id received) ;;
  flush ;;
  mret {| sea_batch_id := asb_batch_id batch;
          sea_event_identifiers := map sve_event_identifier (asb_events batch);
          sea_persisted_at := received |}.

(** Each event of a batch in its savepoint: whether it was accepted. *)
Fixpoint ingest_each (device_id : uuid) (batch_id : uuid) (received_at : option datetime) (events : list SecurityEventV1)
    : Tx (list (uuid * bool)) :=
  match events with
  | [] => mret []
  | event :: events =>
      accepted ← catch
        (begin_nested (ingest_gateway_security_events device_id
                         {| asb_batch_id := batch_id; asb_events := [event] |} received_at) ;;
         mret true)
        is_security_rejected (λ _, mret false);
      rest ← ingest_each device_id batch_id received_at events;
      mret ((sve_event_identifier event, accepted) :: rest)
  end.

(** The replies, in the order in which they are sent. *)
Definition telemetry_reply (sequence : Z) (batch_id : uuid) (dispositions : list (uuid * bool)) (accepted : bool)
    : list SecurityReply :=
  match map fst (List.filter (λ d : uuid * bool, Bool.eqb d.2 accepted) dispositions) with
  | [] => []
  | identifiers =>
      [TelemetryResultEnvelopeV1 sequence batch_id (if accepted then "accepted" else "rejected")
         (if accepted then "persisted" else "domain_rejected") identifiers]
  end.

Definition commit_and_ack_security_events (device_id : uuid) (batch : AgentSecurityEventBatchV1) (sequence : Z)
    (received_at : option datetime) (telemetry_results : bool) : Tx (list SecurityReply) :=
  if telemetry_results then
    dispositions ← in_session (
      dispositions ← ingest_each device_id (asb_batch_id batch) received_at (asb_events batch);
      commit ;;
      mret dispositions);
    mret (telemetry_reply sequence (asb_batch_id batch) dispositions true
          ++ telemetry_reply sequence (asb_batch_id batch) dispositions false)
  else
    acknowledgement ← in_session (
      acknowledgement ← ingest_gateway_security_events device_id batch received_at;
      commit ;;
      mret acknowledgement);
    mret [SecurityEventAckEnvelopeV1 sequence acknowledgement].
End ingestion.

(** ** retention.py *)

Definition expiry_order (a b : uuid * SecurityEvent) : bool :=
  lex_leb (instant (sev_expires_at a.2), a.1) (instant (sev_expires_at b.2), b.1).

Definition retain_security_events (now : option datetime) (limit : Z) : Tx Z :=
  raise_if (negb ((1 <=? limit) && (limit <=? 1000)))
    (ValueError "security event retention limit must be between 1 and 1000") ;;
  moment ← now_or now;
  raise_if (negb (is_aware moment)) (ValueError "security event retention time must be timezone aware") ;;
  due ← select (λ _ e, dt_leb (sev_expires_at e) moment);
  let identifiers := take (Z.to_nat limit) (order_by expiry_order due) in
  for_each identifiers (λ e, delete_row (R := SecurityEvent) e.1) ;;
  mret (Z.of_nat (length identifiers)).
