(* ===== verification/PolicySpecs.v ===== *)
(** * What endpoint policy and security events guarantee

    Versions of a policy are numbered without a gap and never change, and every
    proof that a device applied a version is backed by that version; an
    acknowledgement counts only for what was delivered; and a stored security
    event was audited by the policy its device had applied at the time. *)

From S2P Require Import Prelude Store Session AuditLog Frames AuditFacts Contracts Semver Calendar Credentials Identity.
From S2P Require Import Enrollment EnrollmentRoutes AdminSessions History Policy Security Demo AuthDemo.

(** ** Versions and applications over a history *)

(** The numbers of a definition start at one and leave no gap. *)
Definition numbered (m : gmap uuid PolicyVersion) : Prop :=
  ∀ id v, m !! id = Some v → 1 <= pvr_version v
    ∧ (1 < pvr_version v → ∃ id' v', m !! id' = Some v' ∧ pvr_definition_id v' = pvr_definition_id v
                                     ∧ pvr_version v' = pvr_version v - 1).

(** Every application is of a stored version with the digest it names. *)
Definition backed (m : gmap uuid PolicyVersion) (a : gmap uuid PolicyApplication) : Prop :=
  ∀ id p, a !! id = Some p → ∃ v, m !! pap_policy_version_id p = Some v ∧ pvr_digest v = pap_policy_digest p.

Definition policy_sound (n : Z) (d : DB) : Prop :=
  fresh n (policy_versions d) ∧ fresh n (policy_applications d)
  ∧ numbered (policy_versions d) ∧ backed (policy_versions d) (policy_applications d).

(** The rows that were there once are still there, unchanged. *)
Definition policy_kept (vs : gmap uuid PolicyVersion) (ps : gmap uuid PolicyApplication) (d : DB) : Prop :=
  vs ⊆ policy_versions d ∧ ps ⊆ policy_applications d.

Definition policy_inv (base : gmap uuid PolicyVersion * gmap uuid PolicyApplication) (n : Z) (d : DB) : Prop :=
  policy_sound n d ∧ policy_kept base.1 base.2 d.

Definition policy_tables (d : DB) := (policy_versions d, policy_applications d).

#[export] Instance policy_guard : Guard policy_inv policy_tables.
Proof.
  split.
  - intros base n n' d [(F1 & F2 & H) K] Hle. split; [|exact K]. split_and!; try apply H; by eapply fresh_le.
  - intros base n d d' [= E1 E2]. unfold policy_inv, policy_sound, policy_kept. by rewrite E1, E2.
Qed.

Definition policy_moves : World → World → Prop := upholds policy_inv.

(** What leaves both tables alone. *)
Definition policy_rows : World → _ := viewed policy_tables.

Lemma moves_aside w w' : same policy_rows w w' → seed_le w w' → policy_moves w w'.
Proof. apply (upholds_aside policy_inv policy_tables). Qed.

Lemma moves_apart {A} (m : Tx A) : keeps policy_rows m → pres seed_le m → pres policy_moves m.
Proof. apply (upholds_apart policy_inv policy_tables). Qed.

Lemma moves_begin {A} (m : Tx A) : pres policy_moves m → pres policy_moves (begin m).
Proof.
  intros Hm. apply upholds_in_session, upholds_rollback_on_error, pres_bind; [apply _|done|]. intros a.
  apply pres_bind; [apply _|apply upholds_commit|]. intros _. apply pres_ret. apply _.
Qed.

(** A new version with the next number. *)
Lemma moves_insert_version id (v : PolicyVersion) w :
  id < seed w → fresh id (policy_versions (db w)) →
  1 <= pvr_version v →
  (1 < pvr_version v → ∃ id' v', policy_versions (db w) !! id' = Some v' ∧ pvr_definition_id v' = pvr_definition_id v
                                 ∧ pvr_version v' = pvr_version v - 1) →
  policy_moves w (insert id v w).2.
Proof.
  intros Hid Hf Hpos Hprev base [[S1 K1] H2]. pose proof (fresh_lookup _ _ Hf) as Hno.
  assert (∀ i u, policy_versions (db w) !! i = Some u → <[id := v]> (policy_versions (db w)) !! i = Some u) as Hstill.
  { intros i u Hu. rewrite lookup_insert_ne; [done|]. intros ->. congruence. }
  split; [split|exact H2].
  - destruct S1 as (F1 & F2 & N & B). split_and!; simpl; [by apply fresh_insert|done| |].
    + intros i u [[<- <-]|[_ Hu]]%lookup_insert_Some.
      * split; [done|]. intros Hlt. destruct (Hprev Hlt) as (i' & v' & Hi' & H'). exists i', v'. split; [by apply Hstill|done].
      * destruct (N i u Hu) as [Hp Hn]. split; [done|]. intros Hlt. destruct (Hn Hlt) as (i' & v' & Hi' & H'). exists i', v'.
        split; [by apply Hstill|done].
    + intros i p Hp. destruct (B i p Hp) as (u & Hu & E). exists u. split; [by apply Hstill|done].
  - destruct K1 as [K1 K1']. split; [|done]. simpl. etrans; [exact K1|]. by apply insert_subseteq.
Qed.

(** A new application of a stored version. *)
Lemma moves_insert_application id (p : PolicyApplication) v w :
  id < seed w → fresh id (policy_applications (db w)) →
  policy_versions (db w) !! pap_policy_version_id p = Some v → pvr_digest v = pap_policy_digest p →
  policy_moves w (insert id p w).2.
Proof.
  intros Hid Hf Hv Hd base [[S1 K1] H2]. split; [split|exact H2].
  - destruct S1 as (F1 & F2 & N & B). split_and!; simpl; [done|by apply fresh_insert|done|].
    intros i q [[<- <-]|[_ Hq]]%lookup_insert_Some; [by exists v|by eapply B].
  - destruct K1 as [K1 K1']. split; [done|]. simpl. etrans; [exact K1'|]. apply insert_subseteq, (fresh_lookup _ _ Hf).
Qed.

Lemma latest_version_spec l :
  0 <= latest_version l ∧ (∀ id v, (id, v) ∈ l → pvr_version v <= latest_version l)
  ∧ (0 < latest_version l → ∃ id v, (id, v) ∈ l ∧ pvr_version v = latest_version l).
Proof.
  unfold latest_version. rewrite <- fold_left_rev_right.
  assert (∀ id v, (id, v) ∈ l ↔ (id, v) ∈ rev l) as Hrev by (intros id v; by rewrite !list_elem_of_In, <- in_rev).
  setoid_rewrite Hrev. clear Hrev. induction (rev l) as [|[i u] k IH]; simpl.
  - split_and!; [lia|by intros id v ?%elem_of_nil|lia].
  - destruct IH as (H0 & H1 & H2). set (n := fold_right _ 0 k) in *. split_and!; [lia| |].
    + intros id v [[= -> ->]|Hin]%elem_of_cons; [lia|]. specialize (H1 id v Hin). lia.
    + intros Hpos. destruct (Z.max_spec n (pvr_version u)) as [[Hlt ->]|[Hle ->]].
      * exists i, u. split; [left|done].
      * destruct H2 as (id & v & Hin & E); [lia|]. exists id, v. split; [by right|done].
Qed.

Section histories.
Context `{Contracts} `{PolicyContracts} `{EnrollmentCrypto} (settings : Settings) (enabled : bool).

Lemma create_version_moves definition policy actor : pres policy_moves (create_policy_version definition policy actor).
Proof.
  apply pres_of_wp. intros w. unfold create_policy_version.
  apply wp_bind, wp_get. wp_k. apply wp_bind, wp_require; intros; wp_k; [|done].
  apply wp_bind, wp_raise_if; intros _; wp_k; [done|]. apply wp_bind, wp_select. intros l _ Hl. wp_k.
  apply wp_bind, wp_raise_if; intros Hnext; wp_k; [done|]. propify.
  apply wp_bind, wp_uuid4. wp_k. apply wp_bind, wp_insert. wp_k. apply wp_trans; [apply _| |].
  - intros base Hinv. pose proof Hinv as [[(F1 & _) _] _].
    apply (moves_insert_version (seed w) _ (w <| seed := seed w + 1 |>)); simpl; [lia|done|..].
    + pose proof (latest_version_spec l) as (Hpos & _). lia.
    + intros Hlt. pose proof (latest_version_spec l) as (_ & _ & Hex). destruct Hex as (i & v & Hin & E); [lia|].
      apply Hl in Hin as [Hv Hd]. propify. exists i, v. split_and!; [done|done|lia].
    + revert Hinv. apply moves_aside; [done|]. unfold seed_le; simpl. lia.
  - apply wp_of_pres. apply pres_bind; [apply _|apply pres_flush; apply _|]. intros _. apply pres_ret. apply _.
Qed.

Lemma assign_moves scope device version actor : pres policy_moves (assign scope device version actor).
Proof. apply moves_apart; unfold assign; frame. Qed.

Lemma resolve_unmoved device : pres unmoved (resolve_effective_policy device).
Proof. unfold resolve_effective_policy. frame. Qed.

Lemma delivery_moves hello only : pres policy_moves (prepare_policy_delivery hello only).
Proof.
  apply moves_apart; unfold prepare_policy_delivery, _state_for_update, readiness_due, resolve_effective_policy; frame.
Qed.

Lemma application_moves device version digest applied now v w :
  policy_versions (db w) !! version = Some v → pvr_digest v = digest →
  policy_moves w (record_application device version digest applied now w).2.
Proof.
  intros Hv Hd. cut (wp (record_application device version digest applied now) (λ _, policy_moves w) w); [by rewrite wp_unfold|].
  unfold record_application. apply wp_bind, wp_scalar; intros; wp_k.
  - apply wp_raise_if; done.
  - apply wp_bind, wp_uuid4. wp_k. apply wp_insert. intros base Hinv. pose proof Hinv as [[(_ & F2 & _) _] _].
    apply (moves_insert_application (seed w) _ v (w <| seed := seed w + 1 |>)); simpl; [lia|done|done|done|].
    revert Hinv. apply moves_aside; [done|]. unfold seed_le; simpl. lia.
Qed.

Lemma ack_moves device ack : pres policy_moves (record_policy_ack device ack).
Proof.
  apply pres_of_wp. intros w. unfold record_policy_ack.
  apply wp_bind, (wp_mono _ (λ _, eq w)); [by apply wp_scalar|]. intros [found|e] w1 <-; wp_k; [|done].
  apply wp_bind, wp_require; intros; wp_k; [|done]. apply wp_bind, wp_require; intros; wp_k; [|done].
  apply wp_bind, wp_get. wp_k. apply wp_bind, wp_require; [intros delivered Hv|intros _]; wp_k; [|done].
  apply wp_bind, wp_raise_if; intros _; wp_k; [done|].
  apply wp_bind. eapply wp_mono; [apply wp_of_pres, resolve_unmoved|]. intros [effective|e] w1 ->; wp_k; [|done].
  apply wp_bind, wp_utcnow. wp_k. apply wp_bind, wp_update. wp_k. apply wp_trans; [apply _|apply moves_aside; [done|unfold seed_le; simpl; lia]|].
  apply wp_bind. eapply (wp_mono _ (λ _ w', policy_moves _ w')).
  - destruct (ack_applied_at ack) as [t|]; [|by apply wp_ret].
    rewrite wp_unfold. eapply application_moves; [|done]. simpl. exact Hv.
  - intros [r|e] w1 Hm; wp_k; [|done]. apply wp_trans; [apply _|done|]. apply wp_of_pres.
    apply pres_bind; [apply _|apply pres_flush; apply _|]. intros _. apply pres_ret. apply _.
Qed.

Lemma audit_policy_moves request admin action kind object details :
  pres policy_moves (Policy._audit settings request admin action kind object details).
Proof. apply moves_apart; unfold Policy._audit, audit_request_id; frame. Qed.

Lemma audited_version_moves definition policy admin request :
  pres policy_moves (audited_version settings definition policy admin request).
Proof. unfold audited_version. pose proof create_version_moves. pose proof audit_policy_moves. frame. Qed.

Lemma create_policy_moves name policy admin request : pres policy_moves (create_policy settings enabled name policy admin request).
Proof.
  unfold create_policy, _require_enabled. do 2 (apply pres_bind; [apply _|apply pres_raise_if; apply _|intros _]).
  apply pres_catch; [apply _|apply moves_begin|intros e; apply pres_raise; apply _].
  apply pres_bind; [apply _|frame|]. intros existing. apply pres_bind; [apply _|frame|]. intros _.
  apply pres_bind; [apply _|apply moves_apart; frame|]. intros _. apply pres_bind; [apply _|frame|]. intros _.
  apply audited_version_moves.
Qed.

Lemma add_version_moves id policy admin request : pres policy_moves (add_policy_version settings enabled id policy admin request).
Proof.
  unfold add_policy_version, _require_enabled. apply pres_bind; [apply _|apply pres_raise_if; apply _|intros _].
  apply pres_catch; [apply _|apply moves_begin, audited_version_moves|intros e; apply pres_raise; apply _].
Qed.

Lemma assignment_moves request admin version device : pres policy_moves (_assign settings enabled request admin version device).
Proof.
  unfold _assign, _require_enabled. apply pres_bind; [apply _|apply pres_raise_if; apply _|intros _].
  apply pres_catch; [apply _|apply moves_begin|intros e; apply pres_raise; apply _].
  pose proof assign_moves. pose proof audit_policy_moves. apply pres_bind; [apply _| |intros a; frame].
  destruct device; unfold assign_device_policy, assign_default_policy, _require_version; frame.
Qed.

Lemma deliver_moves hello only : pres policy_moves (deliver_policy hello only).
Proof. apply upholds_in_session. pose proof delivery_moves. frame. Qed.
Lemma receive_ack_moves device ack : pres policy_moves (receive_policy_ack device ack).
Proof. apply upholds_in_session. pose proof ack_moves. frame. Qed.
End histories.

Section security_histories.
Context `{PolicyContracts}.

Lemma undo_same_policy w w' : same policy_rows w w' → same policy_rows w (w' <| db := db w |>).
Proof. unfold same, policy_rows, viewed; simpl. congruence. Qed.

Lemma judge_unmoved device received l : pres unmoved (judge_events device received l).
Proof. induction l as [|event l IH]; simpl; unfold judge_event; frame. Qed.

Lemma ingest_policy_rows device batch received : keeps policy_rows (ingest_gateway_security_events device batch received).
Proof.
  unfold ingest_gateway_security_events, store_event, now_or. frame. eapply pres_mono; [|apply judge_unmoved]. by intros w w' ->.
Qed.
Lemma ingest_seed device batch received : pres seed_le (ingest_gateway_security_events device batch received).
Proof.
  unfold ingest_gateway_security_events, store_event, now_or. frame. eapply pres_mono; [|apply judge_unmoved]. by intros w w' ->.
Qed.

Lemma ingest_each_moves device batch received l : pres policy_moves (ingest_each device batch received l).
Proof.
  apply moves_apart; (induction l as [|event l IH]; simpl; [frame|]);
    (apply pres_bind; [apply _|unfold catch; apply pres_try; [apply _| |]|intros accepted; frame]).
  - apply pres_bind; [apply _|apply pres_begin_nested; [apply _|apply ingest_policy_rows|apply undo_same_policy]|frame].
  - intros e m Hd. destruct (is_security_rejected e); [|done]. injection Hd as <-. frame.
  - apply pres_bind; [apply _|apply seed_begin_nested, ingest_seed|frame].
  - intros e m Hd. destruct (is_security_rejected e); [|done]. injection Hd as <-. frame.
Qed.

Lemma events_moves device batch sequence received telemetry :
  pres policy_moves (commit_and_ack_security_events device batch sequence received telemetry).
Proof.
  unfold commit_and_ack_security_events. destruct telemetry; (apply pres_bind; [apply _|apply upholds_in_session|frame]).
  - pose proof ingest_each_moves. frame.
  - assert (∀ b, pres policy_moves (ingest_gateway_security_events device b received)) as Hi
      by (intros b; apply moves_apart; [apply ingest_policy_rows|apply ingest_seed]). frame.
Qed.

Lemma retention_moves now limit : pres policy_moves (Session.request (retain_security_events now limit)).
Proof.
  apply upholds_in_session, upholds_rollback_on_error, pres_bind; [apply _|apply moves_apart; unfold retain_security_events, now_or; frame|frame].
Qed.
End security_histories.

(** *** The steps: the console, the gateway, the retention, and other work. *)
Inductive policy_step `{Contracts} `{PolicyContracts} `{EnrollmentCrypto} (settings : Settings) (enabled : bool) : World → World → Prop :=
| step_create_policy w name policy admin request :
    policy_step settings enabled w (create_policy settings enabled name policy admin request w).2
| step_add_version w id policy admin request :
    policy_step settings enabled w (add_policy_version settings enabled id policy admin request w).2
| step_assign w request admin version device :
    policy_step settings enabled w (_assign settings enabled request admin version device w).2
| step_deliver w hello only : policy_step settings enabled w (deliver_policy hello only w).2
| step_acknowledge w device ack : policy_step settings enabled w (receive_policy_ack device ack w).2
| step_security_events w device batch sequence received telemetry :
    policy_step settings enabled w (commit_and_ack_security_events device batch sequence received telemetry w).2
| step_retain_events w now limit : policy_step settings enabled w (Session.request (retain_security_events now limit) w).2
| step_other_work w w' : same policy_rows w w' → seed_le w w' → policy_step settings enabled w w'.

Lemma policy_step_moves `{Contracts} `{PolicyContracts} `{EnrollmentCrypto} settings enabled w w' :
  policy_step settings enabled w w' → policy_moves w w'.
Proof.
  intros [| | | | | | | ]; [apply create_policy_moves|apply add_version_moves|apply assignment_moves|apply deliver_moves
                            |apply receive_ack_moves|apply events_moves|apply retention_moves|by apply moves_aside].
Qed.

(** C34: whatever the console, connected agents and the retention do, in any order,
    the versions of every policy are numbered from one without a gap; a version
    that was stored once stays as it was, and so does every proof that a device
    applied a version; and every such proof names a stored version with the very
    digest of that version. *)
Theorem policy_history_is_sound `{Contracts} `{PolicyContracts} `{EnrollmentCrypto} settings enabled w w' :
  policy_sound (seed w) (committed w) → rtc (policy_step settings enabled) (stored w) w' →
  numbered (policy_versions (committed w')) ∧ backed (policy_versions (committed w')) (policy_applications (committed w'))
  ∧ policy_versions (committed w) ⊆ policy_versions (committed w')
  ∧ policy_applications (committed w) ⊆ policy_applications (committed w').
Proof.
  intros Hs Hr. assert (policy_moves (stored w) w') as Hm.
  { induction Hr as [x|x y z Hxy _ IH]; [done|]. etrans; [by eapply policy_step_moves|done]. }
  destruct (Hm (policy_versions (committed w), policy_applications (committed w))) as [_ [(_ & _ & N & B) [K1 K2]]].
  - by split.
  - by split_and!.
Qed.

(** ** The effective policy and the acknowledgements *)

(** The assignment of the device itself, or else the default one. *)
Definition assignment_of (d : DB) (device : uuid) (a : option PolicyAssignment) : Prop :=
  match a with
  | Some a => (∃ id, policy_assignments d !! id = Some a)
      ∧ ((pas_scope a = "device" ∧ pas_device_id a = Some device)
         ∨ (pas_scope a = "default" ∧ ∀ id b, policy_assignments d !! id = Some b → ¬ (pas_scope b = "device" ∧ pas_device_id b = Some device)))
  | None => ∀ id b, policy_assignments d !! id = Some b →
      pas_scope b ≠ "default" ∧ ¬ (pas_scope b = "device" ∧ pas_device_id b = Some device)
  end.

Definition effective_version (d : DB) (device : uuid) (v : option (uuid * PolicyVersion)) : Prop :=
  ∃ a, assignment_of d device a
    ∧ v = (a ← a; v ← policy_versions d !! pas_policy_version_id a; Some (pas_policy_version_id a, v)).

Lemma resolve_spec device w :
  wp (resolve_effective_policy device) (λ r w', w' = w ∧ ∃ v, r = Ok v ∧ effective_version (db w) device v) w.
Proof.
  unfold resolve_effective_policy. apply wp_bind, wp_scalar.
  - intros id a Ha Hp. wp_k. propify. apply wp_bind, wp_ret. wp_k. apply wp_bind, wp_get. wp_k. apply wp_ret. split; [done|].
    eexists. split; [done|]. exists (Some a). simpl. split; [split; [by exists id|by left]|].
    change (table (db w)) with (policy_versions (db w)). by destruct (policy_versions (db w) !! pas_policy_version_id a).
  - intros Hnone. wp_k. assert (∀ id b, policy_assignments (db w) !! id = Some b → ¬ (pas_scope b = "device" ∧ pas_device_id b = Some device)) as Hno.
    { intros id b Hb [Hs Hd]. specialize (Hnone id b Hb). rewrite Hs, Hd in Hnone. by rewrite !bool_decide_true in Hnone by done. }
    apply wp_bind, wp_scalar.
    + intros id a Ha Hp. wp_k. propify. apply wp_bind, wp_get. wp_k. apply wp_ret. split; [done|].
      eexists. split; [done|]. exists (Some a). simpl. split; [split; [by exists id|by right]|].
      change (table (db w)) with (policy_versions (db w)). by destruct (policy_versions (db w) !! pas_policy_version_id a).
    + intros Hd. wp_k. apply wp_ret. split; [done|]. exists None. split; [done|]. exists None. split; [|done].
      intros id b Hb. specialize (Hd id b Hb). propify. split; [done|by eapply Hno].
Qed.

(** What an acknowledgement must repeat of the delivery that the state records. *)
Definition acknowledges (d : DB) (device : uuid) (ack : EndpointPolicyAckV1) (sid : uuid) (s : PolicyDeviceState)
    (vid : uuid) (v : PolicyVersion) : Prop :=
  policy_device_states d !! sid = Some s ∧ pst_device_id s = device
  ∧ pst_policy_version_id s = Some vid ∧ policy_versions d !! vid = Some v ∧ pst_policy_digest s = Some (pvr_digest v)
  ∧ epa_policy_id ack = pvr_definition_id v ∧ epa_policy_version ack = pvr_version v
  ∧ epa_policy_digest ack = pvr_digest v ∧ pst_status s ≠ p_unsupported.

(** The applications after an acknowledgement: one for the moment it names. *)
Definition proves_application (device vid : uuid) (v : PolicyVersion) (ack : EndpointPolicyAckV1)
    (before after : gmap uuid PolicyApplication) : Prop :=
  match ack_applied_at ack with
  | None => after = before
  | Some t => ∃ id p, after !! id = Some p ∧ (after = before ∨ (before !! id = None ∧ after = <[id := p]> before))
      ∧ pap_device_id p = device ∧ pap_policy_version_id p = vid ∧ pap_policy_digest p = pvr_digest v
      ∧ instant (pap_applied_at p) = instant t
  end.

Lemma record_application_spec device vid v applied now w :
  fresh (seed w) (policy_applications (db w)) →
  wp (record_application device vid (pvr_digest v) applied now) (λ r w',
    committed w' = committed w ∧ policy_device_states (db w') = policy_device_states (db w) ∧
    match r with
    | Ok _ => ∃ id p, policy_applications (db w') !! id = Some p
        ∧ (policy_applications (db w') = policy_applications (db w)
           ∨ (policy_applications (db w) !! id = None ∧ policy_applications (db w') = <[id := p]> (policy_applications (db w))))
        ∧ pap_device_id p = device ∧ pap_policy_version_id p = vid ∧ pap_policy_digest p = pvr_digest v
        ∧ instant (pap_applied_at p) = instant applied
    | Exn _ => True
    end) w.
Proof.
  intros Hf. unfold record_application. apply wp_bind, wp_scalar.
  - intros id p Hp Hm. wp_k. propify. apply wp_raise_if; [done|]. intros Hd. propify. split_and!; try done.
    exists id, p. split_and!; try done; [by left|]. unfold dt_eqb in *. propify. rewrite instant_as_utc in *. done.
  - intros _. wp_k. apply wp_bind, wp_uuid4. wp_k. apply wp_insert. simpl. split_and!; try done.
    eexists (seed w), _. split_and!; [apply lookup_insert_eq|right; split; [by apply fresh_lookup|done]|..]; simpl; try done.
    apply instant_as_utc.
Qed.

Lemma record_ack_spec device ack w :
  fresh (seed w) (policy_applications (db w)) →
  wp (record_policy_ack device ack) (λ r w',
    committed w' = committed w ∧
    match r with
    | Ok _ => ∃ sid s vid v effective n,
        acknowledges (db w) device ack sid s vid v ∧ effective_version (db w) device effective
        ∧ policy_device_states (db w')
          = <[sid := acknowledged (negb (bool_decide (fst <$> effective = Some vid))) ack (utc_datetime (clock w n)) s]>
              (policy_device_states (db w))
        ∧ proves_application device vid v ack (policy_applications (db w)) (policy_applications (db w'))
    | Exn _ => True
    end) w.
Proof.
  intros Hf. unfold record_policy_ack. apply wp_bind, wp_scalar; [|done]. intros sid s Hs Hdev. propify. wp_k.
  apply wp_bind, wp_ret. wp_k. apply wp_bind, wp_require; [intros vid Hvid|done]. wp_k.
  apply wp_bind, wp_get. wp_k. apply wp_bind, wp_require; [intros v Hv|done]. wp_k.
  apply wp_bind, wp_raise_if; [done|]. intros Hmatch. wp_k. propify. unfold ack_matches in Hmatch. propify.
  apply wp_bind. eapply wp_mono; [apply resolve_spec|]. intros r w1 (-> & effective & -> & Heff). wp_k.
  apply wp_bind, wp_utcnow. wp_k. apply wp_bind, wp_update. wp_k.
  set (superseded := match effective with Some (id, _) => negb (id =? vid) | None => true end).
  assert (superseded = negb (bool_decide (fst <$> effective = Some vid))) as Hsup.
  { subst superseded. destruct effective as [[id u]|]; simpl; [|done]. f_equal. destruct (id =? vid) eqn:E; propify; case_bool_decide; congruence. }
  rewrite Hsup. clear superseded Hsup. set (s' := acknowledged _ ack _). set (w2 := with_table _ _).
  assert (policy_device_states (db w2) = <[sid := s' s]> (policy_device_states (db w))) as Hstates.
  { subst w2. simpl. apply map_eq. intros j. destruct (decide (j = sid)) as [->|Hne].
    - rewrite lookup_alter_eq, lookup_insert_eq. change (table (db w)) with (policy_device_states (db w)) in Hs. by rewrite Hs.
    - by rewrite lookup_alter_ne, lookup_insert_ne. }
  assert (acknowledges (db w) device ack sid s vid v) as Hack.
  { split_and!; try done. intros Hu. rewrite Hu in *. done. }
  apply wp_bind. unfold proves_application.
  eapply (wp_mono _ (λ r w', committed w' = committed w ∧ policy_device_states (db w') = policy_device_states (db w2) ∧
    match r with Ok _ => proves_application device vid v ack (policy_applications (db w)) (policy_applications (db w')) | Exn _ => True end)).
  - unfold proves_application. destruct (ack_applied_at ack) as [t|]; [|by apply wp_ret].
    apply (record_application_spec device vid v t _ w2). exact Hf.
  - intros [[]|e] w3 (C3 & S3 & P3); wp_k; [|done]. apply wp_bind, wp_flush; [intros _; wp_k; apply wp_ret|by intros name _].
    split; [done|]. exists sid, s, vid, v, effective, (ticks w). split_and!; try done. by rewrite S3, Hstates.
Qed.

(** C35: an acknowledgement of a policy is accepted only when it repeats the
    definition, the number and the digest of the stored version that was last
    delivered to this device; then the device's state, and no other, records it,
    as stale and superseded exactly when that version is no longer the one that
    the assignment of the device, or else the default one, makes effective; and a
    report of success is proved by an application of that version at the reported
    moment, the only other change.  An acknowledgement that is not accepted
    changes nothing. *)
Theorem acknowledgements_match_delivery device ack w :
  fresh (seed w) (policy_applications (committed w)) →
  wp (receive_policy_ack device ack) (λ r w',
    match r with
    | Ok _ => ∃ sid s vid v effective n,
        acknowledges (committed w) device ack sid s vid v ∧ effective_version (committed w) device effective
        ∧ policy_device_states (committed w')
          = <[sid := acknowledged (negb (bool_decide (fst <$> effective = Some vid))) ack (utc_datetime (clock w n)) s]>
              (policy_device_states (committed w))
        ∧ proves_application device vid v ack (policy_applications (committed w)) (policy_applications (committed w'))
    | Exn _ => committed w' = committed w
    end) w.
Proof.
  intros Hf. unfold receive_policy_ack. apply wp_in_session, wp_bind. fold (stored w).
  eapply wp_mono; [by apply record_ack_spec|]. intros [sid|e] w1 (C1 & H1); wp_k; [|exact C1].
  apply wp_commit; [intros _|intros name _; exact C1]. exact H1.
Qed.

(** ** Security events *)

Section security.
Context `{PolicyContracts}.

(** The policy that the device had applied last when the event happened audits
    such events, and the event is recent. *)
Definition audited (d : DB) (device : uuid) (received : datetime) (event : SecurityEventV1) (policy : EndpointPolicyV1) : Prop :=
  ∃ aid a v,
    policy_applications d !! aid = Some a ∧ pap_device_id a = device ∧ dt_leb (pap_applied_at a) (sve_occurred_at event) = true
    ∧ (∀ i b, policy_applications d !! i = Some b → pap_device_id b = device →
         dt_leb (pap_applied_at b) (sve_occurred_at event) = true → dt_leb (pap_applied_at b) (pap_applied_at a) = true)
    ∧ policy_versions d !! pap_policy_version_id a = Some v ∧ pap_policy_digest a = pvr_digest v
    ∧ validate_policy (pvr_document v) = Some policy
    ∧ sve_policy_id event = pol_policy_id policy ∧ sve_policy_version event = pol_policy_version policy
    ∧ _enabled policy (sve_event_type event) = Ok true
    ∧ instant received - hours 24 <= instant (sve_occurred_at event) <= instant received + minutes 5.

(** The row of an event that is stored. *)
Definition event_row (device : uuid) (received : datetime) (event : SecurityEventV1) (policy : EndpointPolicyV1) : SecurityEvent := {|
  sev_event_identifier := sve_event_identifier event; sev_device_id := device; sev_event_type := sve_event_type event;
  sev_channel := sve_channel event; sev_severity := sve_severity event; sev_occurred_at := sve_occurred_at event;
  sev_received_at := received; sev_user_login := sve_user_login event; sev_policy_id := sve_policy_id event;
  sev_policy_version := sve_policy_version event; sev_safe_metadata := sve_safe_metadata event;
  sev_expires_at := dt_add received (days (pol_security_event_days policy)) |}.

(** Rows are only added, each for an audited event of the list. *)
Definition added (d : DB) (device : uuid) (events : list SecurityEventV1) (before after : gmap uuid SecurityEvent) : Prop :=
  before ⊆ after ∧ ∀ id e, after !! id = Some e → before !! id = None →
    ∃ event policy received, event ∈ events ∧ audited d device received event policy ∧ e = event_row device received event policy.

(** A row with the identifier of the event says the same. *)
Definition present (m : gmap uuid SecurityEvent) (device : uuid) (event : SecurityEventV1) : Prop :=
  ∃ id e, m !! id = Some e ∧ sev_device_id e = device ∧ sev_event_identifier e = sve_event_identifier event
    ∧ _same_event e event = true.

Lemma present_grows m m' device event : present m device event → m ⊆ m' → present m' device event.
Proof. intros (id & e & Hid & H') Hs. exists id, e. split; [by eapply lookup_weaken|done]. Qed.

Lemma added_refl d device events m : added d device events m m.
Proof. split; [done|]. intros id e He Hn. congruence. Qed.

Lemma added_trans d device events x y z : added d device events x y → added d device events y z → added d device events x z.
Proof.
  intros [S1 N1] [S2 N2]. split; [by etrans|]. intros id e He Hn. destruct (y !! id) as [e'|] eqn:Hy; [|by eapply N2].
  assert (z !! id = Some e') as Hz by by eapply lookup_weaken. rewrite He in Hz. injection Hz as <-. by eapply N1.
Qed.

(** The state of a session in which events are being stored, begun at [w0]. *)
Definition storing (w0 : World) (device : uuid) (events : list SecurityEventV1) (w : World) : Prop :=
  committed w = committed w0 ∧ policy_versions (db w) = policy_versions (db w0)
  ∧ policy_applications (db w) = policy_applications (db w0) ∧ seed w0 <= seed w
  ∧ fresh (seed w) (security_events (db w)) ∧ added (db w0) device events (security_events (db w0)) (security_events (db w)).

Lemma storing_start w device events : fresh (seed w) (security_events (db w)) → storing w device events w.
Proof. intros Hf. split_and!; try done; apply added_refl. Qed.

Lemma storing_utcnow w0 device events w : storing w0 device events w → storing w0 device events (w <| ticks := S (ticks w) |>).
Proof. done. Qed.

Lemma judge_event_spec w0 device events received event w :
  storing w0 device events w →
  wp (judge_event device received event) (λ r w', w' = w ∧ match r with Ok p => audited (db w0) device received event p | Exn _ => True end) w.
Proof.
  intros (_ & Ev & Ea & _). unfold judge_event. apply wp_bind, wp_lift_res. unfold _utc.
  destruct (is_aware (sve_occurred_at event)) eqn:Haware; wp_k; [|done].
  apply wp_bind, wp_select. intros l Hnd Hl. wp_k. apply wp_bind, wp_require; [intros [aid a] Hhead|done]. wp_k.
  apply wp_bind, wp_get. wp_k. apply wp_bind, wp_require; [intros v Hv|done]. wp_k.
  apply wp_bind, wp_raise_if; [done|intros Hdig]. wp_k. apply wp_bind, wp_require; [intros policy Hpol|done]. wp_k.
  apply wp_bind, wp_raise_if; [done|intros Hids]. wp_k. apply wp_bind, wp_lift_res.
  destruct (_enabled policy (sve_event_type event)) as [enabled|e] eqn:Hen; wp_k; [|done].
  apply wp_bind, wp_raise_if; [done|intros Hon]. wp_k. apply wp_bind, wp_raise_if; [done|intros Htime]. wp_k. apply wp_ret. split; [done|].
  propify. assert ((aid, a) ∈ l) as Hin.
  { rewrite <- (elem_of_order_by latest_application). destruct (order_by latest_application l); simplify_eq/=. left. }
  pose proof Hin as [Ha Hp]%Hl. propify. unfold dt_leb, dt_ltb in *. rewrite instant_as_utc in *. propify.
  exists aid, a, v. rewrite !instant_dt_add in *. split_and!; try done.
  - by rewrite <- Ea.
  - unfold dt_leb. lia.
  - intros i b Hb Hdev Hle. rewrite <- Ea in Hb.
    assert ((i, b) ∈ l) as Hib by (apply Hl; split; [done|]; apply andb_true_intro; split; [by apply Z.eqb_eq|done]).
    assert (latest_application (aid, a) (i, b) = true) as Hlb.
    { eapply (order_by_head latest_application l); [| |exact Hhead|exact Hib]; unfold latest_application; intros; [eapply lex_leb_trans; eassumption|apply lex_leb_total]. }
    unfold latest_application, lex_leb in Hlb. unfold dt_leb. simpl in Hlb. lia.
  - rewrite <- Ev. by apply Hv.
  - by rewrite Hen, Hon.
Qed.

Lemma storing_rolled_back w0 device events w w' :
  storing w0 device events w → storing w0 device events w' → seed w <= seed w' →
  storing w0 device events (w' <| db := db w |>).
Proof. intros (C & V & A & S & F & D) (C' & _) Hs. split_and!; simpl; try done; [lia|by eapply fresh_le]. Qed.

(** The session goes on storing, whatever the outcome. *)
Definition stores {A} (w0 : World) (device : uuid) (events : list SecurityEventV1) (m : Tx A)
    (Q : A → World → Prop) (w : World) : Prop :=
  storing w0 device events w →
  wp m (λ r w', storing w0 device events w' ∧ seed w <= seed w'
                ∧ security_events (db w) ⊆ security_events (db w')
                ∧ match r with Ok a => Q a w' | Exn _ => True end) w.

Lemma store_event_spec w0 device events received event policy w :
  event ∈ events → audited (db w0) device received event policy →
  stores w0 device events (store_event device received (event, policy))
    (λ _ w', present (security_events (db w')) device event) w.
Proof.
  intros Hin Haud Hst. unfold store_event. apply wp_bind, wp_uuid4. wp_k. apply wp_bind.
  set (w1 := w <| seed := seed w + 1 |>).
  assert (storing w0 device events w1) as Hst1.
  { destruct Hst as (C & V & A & S & F & D). split_and!; simpl; try done; [lia|]. eapply fresh_le; [exact F|]. simpl. lia. }
  assert (∀ w2, storing w0 device events w2 → seed w <= seed w2 → security_events (db w) ⊆ security_events (db w2) →
    wp (existing ← scalar (λ _ e, same_identifier device (sve_event_identifier event) e);
        raise_if (match existing with Some (_, e) => negb (_same_event e event) | None => true end)
          (security_rejected "security event identifier conflicts with persisted event"))
       (λ r w', storing w0 device events w' ∧ seed w <= seed w' ∧ security_events (db w) ⊆ security_events (db w')
          ∧ match r with Ok _ => present (security_events (db w')) device event | Exn _ => True end) w2) as Hcheck.
  { intros w2 Hst2 Hs2 Hsub. apply wp_bind, wp_scalar; [|by intros _; wp_k; apply wp_raise_if].
    intros i e He Hsame. wp_k. apply wp_raise_if; [done|]. intros Hok. propify. unfold same_identifier in Hsame. propify.
    split_and!; try done. by exists i, e. }
  apply wp_scalar.
  - intros i e _ _. wp_k. apply wp_bind, wp_ret. wp_k. apply Hcheck; [done|simpl; lia|done].
  - intros _. wp_k. apply wp_bind, wp_bind, wp_insert. wp_k.
    set (w2 := with_table _ w1).
    assert (security_events (db w) !! seed w = None) as Hnew by (destruct Hst as (_ & _ & _ & _ & F & _); by apply fresh_lookup).
    assert (security_events (db w) ⊆ security_events (db w2)) as Hsub by by apply insert_subseteq.
    assert (storing w0 device events w2) as Hst2.
    { destruct Hst1 as (C & V & A & S & F & [D1 D2]). split_and!; try done.
      - simpl. apply fresh_insert; [exact F|]. simpl. lia.
      - split; [by etrans|]. intros i e He Hbefore. simpl in He. apply lookup_insert_Some in He as [[<- <-]|[Hne He]]; [|by eapply D2].
        by exists event, policy, received. }
    apply wp_flush; [intros _; wp_k; apply Hcheck; [done|simpl; lia|done]|].
    intros name _. wp_k. split_and!; try done. simpl. lia.
Qed.

Lemma judge_events_spec w0 device events received batch w :
  storing w0 device events w →
  wp (judge_events device received batch) (λ r w', w' = w ∧ match r with
    | Ok l => l.*1 = batch ∧ Forall (λ p, audited (db w0) device received p.1 p.2) l | Exn _ => True end) w.
Proof.
  intros Hst. induction batch as [|event batch IH]; simpl; [by apply wp_ret|].
  apply wp_bind. eapply wp_mono; [by eapply judge_event_spec|]. intros [policy|e] w' [-> Hp]; wp_k; [|done].
  apply wp_bind. eapply wp_mono; [exact IH|]. intros [l|e] w' [-> Hl]; wp_k; [|done].
  apply wp_ret. destruct Hl as [<- Hl]. split_and!; try done. by constructor.
Qed.

Lemma store_events_spec w0 device events received l w :
  (∀ p, p ∈ l → p.1 ∈ events) → Forall (λ p, audited (db w0) device received p.1 p.2) l →
  stores w0 device events (for_each l (store_event device received))
    (λ _ w', ∀ p, p ∈ l → present (security_events (db w')) device p.1) w.
Proof.
  revert w. induction l as [|[event policy] l IH]; intros w Hin Hl Hst; simpl.
  { apply wp_ret. split_and!; try done. by intros p ?%elem_of_nil. }
  apply Forall_cons in Hl as [Ha Hl]. apply wp_bind.
  eapply wp_mono; [apply store_event_spec; [by apply (Hin (event, policy)); left|exact Ha|exact Hst]|].
  intros [[]|e] w' (Hst' & Hs & Hsub & Hp); wp_k; [|done].
  eapply wp_mono; [apply IH; [intros p ?; apply Hin; by right|exact Hl|exact Hst']|].
  intros r w'' (Hst'' & Hs' & Hsub' & Hp'). split_and!; [done|lia|by etrans|].
  destruct r as [[]|]; [|done]. intros p [->|?]%elem_of_cons; [by eapply present_grows|by apply Hp'].
Qed.

Lemma ingest_spec w0 device events batch received w :
  (∀ event, event ∈ asb_events batch → event ∈ events) →
  stores w0 device events (ingest_gateway_security_events device batch received)
    (λ ack w', sea_event_identifiers ack = map sve_event_identifier (asb_events batch) ∧ sea_batch_id ack = asb_batch_id batch
       ∧ ∀ event, event ∈ asb_events batch → present (security_events (db w')) device event) w.
Proof.
  intros Hin Hst. unfold ingest_gateway_security_events. apply wp_bind.
  eapply (wp_mono _ (λ r w', db w' = db w ∧ storing w0 device events w' ∧ seed w' = seed w)).
  { unfold now_or. destruct received; [by apply wp_ret|by apply wp_utcnow]. }
  intros [now|e] w1 (D1 & Hst1 & S1); wp_k; [|by rewrite D1, S1]. apply wp_bind, wp_lift_res. unfold _utc.
  destruct (is_aware now); wp_k; [|by rewrite D1, S1]. apply wp_bind.
  eapply wp_mono; [by eapply judge_events_spec|]. intros [l|e] w2 [-> Hl]; wp_k; [|by rewrite D1, S1]. destruct Hl as [Hl Haud].
  apply wp_bind. eapply wp_mono; [apply (store_events_spec w0 device events _ l w1); [|exact Haud|exact Hst1]|].
  { intros p Hp. apply Hin. rewrite <- Hl. by apply list_elem_of_fmap_2. }
  intros r w3 (Hst3 & S3 & Sub3 & P3). rewrite D1, S1 in *. destruct r as [[]|e]; wp_k; [|done].
  apply wp_bind, wp_flush; [intros _; wp_k; apply wp_ret|by intros name _]. split_and!; try done. simpl.
  intros event Hev. rewrite <- Hl in Hev. apply list_elem_of_fmap in Hev as (p & -> & Hp). by apply P3.
Qed.

(** What is reported of an event is true of the store. *)
Definition disposed (m : gmap uuid SecurityEvent) (device : uuid) (event : SecurityEventV1) (d : uuid * bool) : Prop :=
  d.1 = sve_event_identifier event ∧ (d.2 = true → present m device event).

Lemma begin_nested_stores w0 device events {A} (body : Tx A) Q w :
  (∀ w1, stores w0 device events body Q w1) → stores w0 device events (begin_nested body) Q w.
Proof.
  intros Hbody Hst. unfold begin_nested. apply wp_bind, wp_flush; [intros Hi; wp_k|by intros name _].
  specialize (Hbody w Hst). rewrite wp_unfold in *. unfold savepoint, mbind, M_bind.
  destruct (body w) as [[a|e] w'] eqn:Eb; simpl in *; destruct Hbody as (Hst' & Hs & Hsub & HQ).
  - unfold flush. destruct (violated (db w')); simpl; [|done]. split_and!; try done. by eapply storing_rolled_back.
  - split_and!; try done. by eapply storing_rolled_back.
Qed.

Lemma ingest_each_spec w0 device batch_id received events batch w :
  (∀ event, event ∈ batch → event ∈ events) →
  stores w0 device events (ingest_each device batch_id received batch)
    (λ ds w', Forall2 (disposed (security_events (db w')) device) batch ds) w.
Proof.
  revert w. induction batch as [|event batch IH]; intros w Hin Hst; simpl.
  { apply wp_ret. split_and!; try done. }
  apply wp_bind. unfold catch. apply wp_try, wp_bind.
  eapply wp_mono; [apply (begin_nested_stores w0 device events); [|exact Hst]|].
  { intros w1. apply ingest_spec. simpl. intros ev [->|?%elem_of_nil]%elem_of_cons; [|done]. apply Hin. by left. }
  assert (∀ accepted w1, storing w0 device events w1 → seed w <= seed w1 → security_events (db w) ⊆ security_events (db w1) →
    (accepted = true → present (security_events (db w1)) device event) →
    wp (rest ← ingest_each device batch_id received batch; mret ((sve_event_identifier event, accepted) :: rest))
       (λ r w', storing w0 device events w' ∧ seed w <= seed w' ∧ security_events (db w) ⊆ security_events (db w')
          ∧ match r with Ok ds => Forall2 (disposed (security_events (db w')) device) (event :: batch) ds | Exn _ => True end) w1) as Hrest.
  { intros accepted w1 Hst1 Hs1 Hsub1 Hp1. apply wp_bind.
    eapply wp_mono; [apply IH; [intros ev ?; apply Hin; by right|exact Hst1]|].
    intros [ds|e] w2 (Hst2 & Hs2 & Hsub2 & Hds); wp_k; [apply wp_ret|by split_and!; [|lia|etrans|]].
    split_and!; [done|lia|by etrans|]. constructor; [|done]. split; [done|]. intros Ha. eapply present_grows; [by apply Hp1|done]. }
  intros [ack|e] w1 (Hst1 & Hs1 & Hsub1 & Hp); wp_k.
  - apply wp_ret. wp_k. apply Hrest; try done. intros _. apply Hp. by left.
  - destruct (is_security_rejected e); [|done]. apply wp_ret. wp_k. by apply Hrest.
Qed.

(** The identifiers that a reply lists, and whether it calls them stored. *)
Definition reply_batch (reply : SecurityReply) : uuid :=
  match reply with SecurityEventAckEnvelopeV1 _ ack => sea_batch_id ack | TelemetryResultEnvelopeV1 _ batch_id _ _ _ => batch_id end.
Definition reply_identifiers (reply : SecurityReply) : list uuid :=
  match reply with SecurityEventAckEnvelopeV1 _ ack => sea_event_identifiers ack | TelemetryResultEnvelopeV1 _ _ _ _ ids => ids end.
Definition says_stored (reply : SecurityReply) : bool :=
  match reply with SecurityEventAckEnvelopeV1 _ _ => true | TelemetryResultEnvelopeV1 _ _ disposition _ _ => bool_decide (disposition = "accepted") end.

Definition answers (m : gmap uuid SecurityEvent) (device : uuid) (batch : AgentSecurityEventBatchV1) (replies : list SecurityReply) : Prop :=
  (∀ reply, reply ∈ replies → reply_batch reply = asb_batch_id batch)
  ∧ (∀ event, event ∈ asb_events batch → ∃ reply, reply ∈ replies ∧ sve_event_identifier event ∈ reply_identifiers reply)
  ∧ ∀ reply identifier, reply ∈ replies → says_stored reply = true → identifier ∈ reply_identifiers reply →
      ∃ event, event ∈ asb_events batch ∧ sve_event_identifier event = identifier ∧ present m device event.

Lemma elem_of_telemetry_reply sequence bid ds accepted reply :
  reply ∈ telemetry_reply sequence bid ds accepted →
  reply_batch reply = bid ∧ says_stored reply = accepted
  ∧ ∀ i, i ∈ reply_identifiers reply ↔ (i, accepted) ∈ ds.
Proof.
  unfold telemetry_reply.
  assert (∀ i, i ∈ map fst (List.filter (λ d : uuid * bool, Bool.eqb d.2 accepted) ds) ↔ (i, accepted) ∈ ds) as Hi.
  { intros i. rewrite !list_elem_of_In, in_map_iff. split.
    - intros ([j b] & <- & Hj%filter_In). simpl in *. destruct Hj as [Hj Hb%Bool.eqb_prop]. by subst b.
    - intros Hin. exists (i, accepted). split; [done|]. apply filter_In. split; [done|]. apply Bool.eqb_reflx. }
  destruct (map fst _) as [|i l] eqn:E; intros Hr; [by apply elem_of_nil in Hr|].
  apply elem_of_cons in Hr as [->|Hr]; [|by apply elem_of_nil in Hr]. simpl. split_and!; try done. by destruct accepted.
Qed.

Lemma telemetry_reply_lists sequence bid ds i accepted :
  (i, accepted) ∈ ds → ∃ reply, reply ∈ telemetry_reply sequence bid ds accepted ∧ i ∈ reply_identifiers reply.
Proof.
  intros Hin. unfold telemetry_reply.
  assert (i ∈ map fst (List.filter (λ d : uuid * bool, Bool.eqb d.2 accepted) ds)) as Hi.
  { rewrite list_elem_of_In, in_map_iff. exists (i, accepted). split; [done|].
    apply filter_In. split; [by apply list_elem_of_In|]. apply Bool.eqb_reflx. }
  destruct (map fst _) as [|j l]; [by apply elem_of_nil in Hi|]. eexists. split; [left|exact Hi].
Qed.

Lemma dispositions_answer m device batch sequence ds :
  Forall2 (disposed m device) (asb_events batch) ds →
  answers m device batch (telemetry_reply sequence (asb_batch_id batch) ds true ++ telemetry_reply sequence (asb_batch_id batch) ds false).
Proof.
  intros Hds. split_and!.
  - intros reply [Hr|Hr]%elem_of_app; by apply elem_of_telemetry_reply in Hr as [? _].
  - intros event Hev. apply list_elem_of_lookup in Hev as [k Hk].
    destruct (Forall2_lookup_l _ _ _ _ _ Hds Hk) as ([i accepted] & Hd & [Hi _]). simpl in Hi. subst i.
    apply list_elem_of_lookup_2 in Hd.
    destruct (telemetry_reply_lists sequence (asb_batch_id batch) ds _ _ Hd) as (reply & Hr & Hin).
    exists reply. split; [|done]. apply elem_of_app. destruct accepted; [by left|by right].
  - intros reply i [Hr|Hr]%elem_of_app Hs Hi; apply elem_of_telemetry_reply in Hr as (_ & Hs' & Hl); [|congruence].
    apply Hl, list_elem_of_lookup in Hi as [k Hk].
    destruct (Forall2_lookup_r _ _ _ _ _ Hds Hk) as (event & Hev & [Hid Hp]). exists event.
    split_and!; [by eapply list_elem_of_lookup_2|done|by apply Hp].
Qed.

(** C36: whichever way a gateway sends its security events, the server only adds
    rows, each for an event of the batch that is recent and whose kind is audited
    by the policy version that the device had applied last when the event
    happened; every event of the batch is answered, and each one that is answered
    as stored is there for that device afterwards, with what the event says; a
    batch that fails changes nothing. *)
Theorem security_events_are_audited device batch sequence received_at results w :
  fresh (seed w) (security_events (committed w)) →
  wp (commit_and_ack_security_events device batch sequence received_at results) (λ r w',
    match r with
    | Ok replies =>
        added (committed w) device (asb_events batch) (security_events (committed w)) (security_events (committed w'))
        ∧ answers (security_events (committed w')) device batch replies
    | Exn _ => committed w' = committed w
    end) w.
Proof.
  intros Hf. assert (storing (stored w) device (asb_events batch) (stored w)) as Hst by by apply storing_start.
  unfold commit_and_ack_security_events. destruct results; apply wp_bind, wp_in_session, wp_bind; fold (stored w).
  - eapply wp_mono; [by apply (ingest_each_spec (stored w) device _ _ (asb_events batch))|].
    intros [ds|e] w1 (Hst1 & _ & _ & Hds); wp_k; [|by apply Hst1].
    apply wp_bind, wp_commit; [intros _; wp_k; apply wp_ret; wp_k|intros name _; by apply Hst1].
    apply wp_ret. split; [apply Hst1|]. by apply dispositions_answer.
  - eapply wp_mono; [by apply (ingest_spec (stored w) device (asb_events batch))|].
    intros [ack|e] w1 (Hst1 & _ & _ & HQ); wp_k; [destruct HQ as (Hids & Hbid & Hp)|by apply Hst1].
    apply wp_bind, wp_commit; [intros _; wp_k; apply wp_ret; wp_k|intros name _; by apply Hst1].
    apply wp_ret. split; [apply Hst1|]. split_and!.
    + by intros reply ->%list_elem_of_singleton.
    + intros event Hev. eexists. split; [left|]. simpl. rewrite Hids. by apply (list_elem_of_fmap_2 sve_event_identifier).
    + intros reply i ->%list_elem_of_singleton _ Hi. simpl in Hi. rewrite Hids in Hi.
      apply list_elem_of_fmap in Hi as (event & -> & Hev). exists event. split_and!; try done. by apply Hp.
Qed.
End security.

(** ** Witnesses *)

(** The policy 11 in its first version, which audits USB devices, the default of
    all devices and delivered to device 7. *)
Definition toy_policy : EndpointPolicyV1 := {|
  pol_policy_id := 11; pol_policy_version := 1; pol_activity_enabled := false;
  pol_dlp := {| usb_device_events := "audit"; print_events := "disabled"; browser_upload_events := "disabled"; browser_paste_events := "disabled" |};
  pol_browser_required := false; pol_browser_deployment_mode := "agent_managed"; pol_security_event_days := 30;
  pol_dump := JNull |}.

Definition toy_policies : PolicyContracts := {| validate_policy := λ _, Some toy_policy |}.

Definition toy_version : PolicyVersion := {|
  pvr_definition_id := 11; pvr_version := 1; pvr_digest := policy_digest (H := demo_contracts) toy_policy;
  pvr_document := JNull; pvr_created_by := 2 |}.

Definition toy_assignment : PolicyAssignment := {|
  pas_scope := "default"; pas_device_id := None; pas_policy_version_id := 12; pas_assigned_by := 2;
  pas_assigned_at := utc_datetime 0 |}.

Definition toy_state : PolicyDeviceState := requested 12 (pvr_digest toy_version) p_pending (new_state 7).

Definition toy_applied : PolicyApplication := {|
  pap_device_id := 7; pap_policy_version_id := 12; pap_policy_digest := pvr_digest toy_version;
  pap_applied_at := utc_datetime 0; pap_acknowledged_at := utc_datetime 1 |}.

Definition toy_delivered (applications : gmap uuid PolicyApplication) : World :=
  let d := empty_db <| policy_definitions := {[ 11 := {| pdf_name := "usb" |} ]} |> <| policy_versions := {[ 12 := toy_version ]} |>
             <| policy_assignments := {[ 13 := toy_assignment ]} |> <| policy_device_states := {[ 14 := toy_state ]} |>
             <| policy_applications := applications |> in
  {| committed := d; db := d; seed := 1000; clock := λ n, seconds (Z.of_nat n + 60); ticks := 0 |}.

Definition toy_ack : EndpointPolicyAckV1 := {|
  epa_policy_id := 11; epa_policy_version := 1; epa_policy_digest := pvr_digest toy_version;
  epa_received_at := utc_datetime 0; epa_outcome := ack_applied (utc_datetime 0) |}.

Definition toy_event (identifier version : Z) : SecurityEventV1 := {|
  sve_event_identifier := identifier; sve_event_type := "USB_DEVICE_CONNECTED"; sve_channel := "USB"; sve_severity := "INFO";
  sve_occurred_at := utc_datetime (seconds 10); sve_user_login := None; sve_policy_id := 11; sve_policy_version := version;
  sve_safe_metadata := JNull |}.

Definition toy_batch : AgentSecurityEventBatchV1 := {|
  asb_batch_id := 5; asb_events := [toy_event 77 1; toy_event 78 2] |}.

Example policy_is_made :
  let w := (create_policy (H := demo_contracts) (H1 := toy_crypto) toy_settings true " usb " toy_policy 2 (toy_request None) toy_world).2 in
  map pvr_version (map snd (map_to_list (policy_versions (committed w)))) = [1].
Proof. vm_compute. done. Qed.

Example policy_is_acknowledged :
  let w := (receive_policy_ack 7 toy_ack (toy_delivered ∅)).2 in
  pst_status <$> policy_device_states (committed w) !! 14 = Some p_applied
  ∧ map pap_device_id (map snd (map_to_list (policy_applications (committed w)))) = [7].
Proof. vm_compute. done. Qed.

Example events_are_judged_one_by_one :
  match commit_and_ack_security_events (H := toy_policies) 7 toy_batch 3 None true (toy_delivered {[ 15 := toy_applied ]}) with
  | (Ok replies, w) => map reply_identifiers replies = [[77]; [78]] ∧ map says_stored replies = [true; false]
      ∧ map sev_event_identifier (map snd (map_to_list (security_events (committed w)))) = [77]
  | _ => False
  end.
Proof. vm_compute. done. Qed.

Lemma policy_history_is_sound_witness :
  let w := (create_policy (H := demo_contracts) (H1 := toy_crypto) toy_settings true "usb" toy_policy 2 (toy_request None)
              (stored toy_world)).2 in
  numbered (policy_versions (committed w)) ∧ backed (policy_versions (committed w)) (policy_applications (committed w))
  ∧ ∅ ⊆ policy_versions (committed w) ∧ ∅ ⊆ policy_applications (committed w).
Proof.
  apply (policy_history_is_sound (H := demo_contracts) (H0 := toy_policies) (H1 := toy_crypto) toy_settings true toy_world).
  - split_and!; intros id r Hr; by apply (lookup_empty_Some id r) in Hr.
  - apply rtc_once, step_create_policy.
Defined.

Lemma acknowledgements_match_delivery_witness :
  wp (receive_policy_ack 7 toy_ack) (λ r w',
    match r with
    | Ok _ => ∃ sid s vid v effective n,
        acknowledges (committed (toy_delivered ∅)) 7 toy_ack sid s vid v
        ∧ effective_version (committed (toy_delivered ∅)) 7 effective
        ∧ policy_device_states (committed w')
          = <[sid := acknowledged (negb (bool_decide (fst <$> effective = Some vid))) toy_ack
                       (utc_datetime (clock (toy_delivered ∅) n)) s]> (policy_device_states (committed (toy_delivered ∅)))
        ∧ proves_application 7 vid v toy_ack ∅ (policy_applications (committed w'))
    | Exn _ => committed w' = committed (toy_delivered ∅)
    end) (toy_delivered ∅).
Proof.
  apply (acknowledgements_match_delivery 7 toy_ack (toy_delivered ∅)). intros id p Hp. by apply (lookup_empty_Some id p) in Hp.
Defined.

Lemma security_events_are_audited_witness :
  let w := toy_delivered {[ 15 := toy_applied ]} in
  wp (commit_and_ack_security_events (H := toy_policies) 7 toy_batch 3 None true) (λ r w',
    match r with
    | Ok replies =>
        added (H := toy_policies) (committed w) 7 (asb_events toy_batch) (security_events (committed w)) (security_events (committed w'))
        ∧ answers (security_events (committed w')) 7 toy_batch replies
    | Exn _ => committed w' = committed w
    end) w.
Proof.
  apply (security_events_are_audited (H := toy_policies) 7 toy_batch 3 None true (toy_delivered {[ 15 := toy_applied ]})).
  intros id e He. by apply (lookup_empty_Some id e) in He.
Defined.
