(* ===== verification/Compliance.v ===== *)
(** * Sensor reports and compliance (endpoint_server/policy)

    browser_status.py, sensor_health.py, compliance.py and device_compliance.py:
    the latest report of each sensor of a device is kept, and the compliance that
    the console shows is derived from the policy, its acknowledgement and those
    reports.  The console pages that list it (fleet.py, admin_routes.py) are not
    modelled.  At the end of the file: no claim of compliance without fresh
    evidence, and no report that takes a device back in time. *)

From S2P Require Import Prelude Store Session AuditLog Frames Contracts Semver Calendar EnrollmentRoutes History Policy Demo PolicySpecs.

(** ** Reports (endpoint_contracts/browser_status.py, sensor_health.py)

    The fields, with the rules that the models check. *)

Record BrowserFamilyStatusV1 := {
  bfs_browser_family : string;
  bfs_browser_state : string;
  bfs_running_state : string;
  bfs_policy_owner : string;
  bfs_installation_policy_state : string;
  bfs_native_host_state : string;
  bfs_extension_version : option string;
  bfs_extension_last_seen_at : option datetime;
  bfs_extension_install_type : string;
  bfs_last_running_at : option datetime
}.

Record BrowserStatusReportV1 := {
  bsr_observation_id : uuid;
  bsr_policy_id : uuid;
  bsr_policy_version : Z;
  bsr_observed_at : datetime;
  bsr_browsers : list BrowserFamilyStatusV1
}.

Record PolicySensorHealthReportV1 := {
  shr_observation_id : uuid;
  shr_policy_id : uuid;
  shr_policy_version : Z;
  shr_observed_at : datetime;
  shr_activity_listener_state : string;
  shr_user_sensor_last_seen_at : option datetime;
  shr_security_spool_state : string;
  shr_usb_source_state : string;
  shr_print_source_state : string
}.

(** [^[0-9]+(?:\.[0-9]+){1,3}$] of 1 to 32 characters *)
Definition extension_version_ok (version : string) : bool :=
  let parts := split 46 (chars version) in
  let n := Z.of_nat (length parts) in
  (2 <=? n) && (n <=? 4) && (Z.of_nat (String.length version) <=? 32)
  && forallb (λ part, negb (bool_decide (part = [])) && forallb is_digit part) parts.

(** [validate_facts], in the order of its checks *)
Definition validate_facts (item : BrowserFamilyStatusV1) : bool :=
  negb (bool_decide (bfs_browser_state item = "ABSENT") && bool_decide (bfs_running_state item = "RUNNING"))
  && negb (bool_decide (bfs_running_state item = "RUNNING") && is_none (bfs_last_running_at item))
  && Bool.eqb (is_none (bfs_extension_version item)) (is_none (bfs_extension_last_seen_at item))
  && negb (is_none (bfs_extension_version item) && negb (bool_decide (bfs_extension_install_type item = "UNKNOWN")))
  && negb (bool_decide (bfs_policy_owner item = "CONFLICT")
           && negb (bool_decide (bfs_installation_policy_state item = "CONFLICT"))).

(** The types of the fields, then [validate_facts] *)
Definition family_status_ok (item : BrowserFamilyStatusV1) : bool :=
  str_in (bfs_browser_family item) ["chrome"; "yandex"]
  && str_in (bfs_browser_state item) ["DETECTED"; "ABSENT"; "UNKNOWN"]
  && str_in (bfs_running_state item) ["RUNNING"; "CLOSED"; "UNKNOWN"]
  && str_in (bfs_policy_owner item) ["ENDPOINT"; "EXTERNAL"; "NONE"; "CONFLICT"; "UNKNOWN"]
  && str_in (bfs_installation_policy_state item) ["APPLIED"; "NOT_APPLIED"; "CONFLICT"; "UNKNOWN"]
  && str_in (bfs_native_host_state item) ["READY"; "MISSING"; "UNKNOWN"]
  && match bfs_extension_version item with Some v => extension_version_ok v | None => true end
  && match bfs_extension_last_seen_at item with Some t => is_aware t | None => true end
  && str_in (bfs_extension_install_type item) ["ADMIN"; "OTHER"; "UNKNOWN"]
  && match bfs_last_running_at item with Some t => is_aware t | None => true end
  && validate_facts item.

(** [validate_report]: one status for each family, none later than the report. *)
Definition validate_report (report : BrowserStatusReportV1) : bool :=
  let latest := dt_add (bsr_observed_at report) (minutes 5) in
  let families := map bfs_browser_family (bsr_browsers report) in
  str_in "chrome" families && str_in "yandex" families && forallb (λ f, str_in f ["chrome"; "yandex"]) families
  && forallb (λ item, match bfs_extension_last_seen_at item with Some t => dt_leb t latest | None => true end
                      && match bfs_last_running_at item with Some t => dt_leb t latest | None => true end)
       (bsr_browsers report).

Definition browser_report_ok (report : BrowserStatusReportV1) : bool :=
  (1 <=? bsr_policy_version report) && (bsr_policy_version report <=? 2 ^ 31 - 1)
  && is_aware (bsr_observed_at report) && (Z.of_nat (length (bsr_browsers report)) =? 2)
  && forallb family_status_ok (bsr_browsers report) && validate_report report.

Definition source_states : list string := ["READY"; "UNAVAILABLE"; "UNKNOWN"].

(** With [validate_sample_time] *)
Definition sensor_report_ok (report : PolicySensorHealthReportV1) : bool :=
  (1 <=? shr_policy_version report) && (shr_policy_version report <=? 2 ^ 31 - 1) && is_aware (shr_observed_at report)
  && str_in (shr_activity_listener_state report) source_states && str_in (shr_security_spool_state report) source_states
  && str_in (shr_usb_source_state report) source_states && str_in (shr_print_source_state report) source_states
  && match shr_user_sensor_last_seen_at report with
     | Some t => is_aware t && dt_leb t (dt_add (shr_observed_at report) (minutes 5))
     | None => true
     end.

(** ** What both reports need: the policy they speak of is the current one *)

(** The later of two optional times; [max] keeps the first of equal ones. *)
Definition latest_time (prior incoming : option datetime) : option datetime :=
  match prior, incoming with
  | Some p, Some i => Some (if dt_ltb p i then i else p)
  | Some p, None => Some p
  | None, i => i
  end.

Section reports.
Context `{Contracts} `{PolicyContracts}.

Definition is_current (version : uuid * PolicyVersion) (state : PolicyDeviceState) : bool :=
  in_set (pst_status state) [p_pending; p_applied; p_error]
  && bool_decide (pst_policy_version_id state = Some version.1)
  && bool_decide (pst_policy_digest state = Some (pvr_digest version.2)).

(** The checks of a report's time and policy; the exceptions are its service's. *)
Definition require_current_policy (device_id policy_id : uuid) (policy_version : Z) (not_current mismatch : exn) : Tx unit :=
  version ← resolve_effective_policy device_id;
  state ← scalar (λ _ s, pst_device_id s =? device_id);
  match version, state with
  | Some version, Some (_, state) =>
      raise_if (negb (is_current version state)) not_current ;;
      policy ← require (validate_policy (pvr_document version.2)) (ValidationError "EndpointPolicyV1");
      raise_if (negb (policy_id =? pol_policy_id policy) || negb (policy_version =? pol_policy_version policy)) mismatch
  | _, _ => raise not_current
  end.

(** ** browser_status.py *)

(** What a report says of one browser, over the row of that browser. *)
Definition advance_browser (device_id : uuid) (report : BrowserStatusReportV1) (item : BrowserFamilyStatusV1)
    (observed received : datetime) (row : option BrowserStatusCurrent) : BrowserStatusCurrent :=
  let same_policy := match row with
                     | Some row => (bsc_policy_id row =? bsr_policy_id report) && (bsc_policy_version row =? bsr_policy_version report)
                     | None => false
                     end in
  let prior (field : BrowserStatusCurrent → option datetime) := if same_policy then row ≫= field else None in
  let prior_seen := as_utc <$> prior bsc_extension_last_seen_at in
  let prior_running := as_utc <$> prior bsc_last_running_at in
  let newer := match bfs_extension_last_seen_at item, prior_seen with
               | Some incoming, Some seen => dt_ltb seen incoming
               | Some _, None => true
               | None, _ => false
               end in
  {| bsc_device_id := device_id; bsc_browser_family := bfs_browser_family item;
     bsc_observation_id := bsr_observation_id report; bsc_policy_id := bsr_policy_id report;
     bsc_policy_version := bsr_policy_version report; bsc_observed_at := observed; bsc_received_at := received;
     bsc_browser_state := bfs_browser_state item; bsc_running_state := bfs_running_state item;
     bsc_policy_owner := bfs_policy_owner item; bsc_installation_policy_state := bfs_installation_policy_state item;
     bsc_native_host_state := bfs_native_host_state item;
     bsc_extension_version := if newer then bfs_extension_version item
                              else if is_some prior_seen then row ≫= bsc_extension_version else None;
     bsc_extension_last_seen_at := if newer then bfs_extension_last_seen_at item else prior_seen;
     bsc_extension_install_type := if newer then bfs_extension_install_type item
                                   else match row with
                                        | Some row => if is_some prior_seen then bsc_extension_install_type row else "UNKNOWN"
                                        | None => "UNKNOWN"
                                        end;
     bsc_last_running_at := latest_time prior_running (bfs_last_running_at item) |}.

(** [by_family.get]: the last row of a family. *)
Definition family_row (family : string) (rows : list (uuid * BrowserStatusCurrent)) : option (uuid * BrowserStatusCurrent) :=
  find (λ r : uuid * BrowserStatusCurrent, bool_decide (bsc_browser_family r.2 = family)) (rev rows).

Definition ingest_browser (device_id : uuid) (report : BrowserStatusReportV1) (observed received : datetime)
    (rows : list (uuid * BrowserStatusCurrent)) (item : BrowserFamilyStatusV1) : Tx unit :=
  match family_row (bfs_browser_family item) rows with
  | None =>
      id ← uuid4;
      insert id (advance_browser device_id report item observed received None)
  | Some (id, row) =>
      let prior_at := as_utc (bsc_observed_at row) in
      raise_if (dt_eqb observed prior_at && negb (bsc_observation_id row =? bsr_observation_id report))
        (BrowserStatusRejected "browser observation timestamp conflicts") ;;
      when (negb (dt_leb observed prior_at))
        (update id (λ row, advance_browser device_id report item observed received (Some row)))
  end.

Definition ingest_browser_status (device_id : uuid) (report : BrowserStatusReportV1) (received_at : option datetime) : Tx unit :=
  received ← now_or received_at;
  raise_if (negb (is_aware received)) (BrowserStatusRejected "browser receipt time must be timezone-aware") ;;
  let received := as_utc received in
  let observed := as_utc (bsr_observed_at report) in
  let age := instant received - instant observed in
  when (negb ((0 <=? age) && (age <=? hours 24)))
    (raise_if (dt_ltb (dt_add received (minutes 5)) observed) (BrowserStatusRejected "browser observation is in the future") ;;
     raise_if (dt_ltb observed (dt_add received (- hours 24))) (BrowserStatusRejected "browser observation is too old")) ;;
  require_current_policy device_id (bsr_policy_id report) (bsr_policy_version report)
    (BrowserStatusRejected "browser policy is not applied")
    (BrowserStatusRejected "browser report policy does not match assignment") ;;
  rows ← select (λ _ r, bsc_device_id r =? device_id);
  for_each (bsr_browsers report) (ingest_browser device_id report observed received rows) ;;
  flush.

Definition family_status (row : BrowserStatusCurrent) : BrowserFamilyStatusV1 := {|
  bfs_browser_family := bsc_browser_family row; bfs_browser_state := bsc_browser_state row;
  bfs_running_state := bsc_running_state row; bfs_policy_owner := bsc_policy_owner row;
  bfs_installation_policy_state := bsc_installation_policy_state row; bfs_native_host_state := bsc_native_host_state row;
  bfs_extension_version := bsc_extension_version row; bfs_extension_last_seen_at := as_utc <$> bsc_extension_last_seen_at row;
  bfs_extension_install_type := bsc_extension_install_type row; bfs_last_running_at := as_utc <$> bsc_last_running_at row |}.

(** The last complete report, when both rows are of it. *)
Definition browser_status_from_rows (rows : list BrowserStatusCurrent) : res (option BrowserStatusReportV1) :=
  let by_family family := find (λ r, bool_decide (bsc_browser_family r = family)) (rev rows) in
  match rows, by_family "chrome", by_family "yandex" with
  | [a; b], Some chrome, Some yandex =>
      let newest := if dt_ltb (bsc_observed_at a) (bsc_observed_at b) then b else a in
      if forallb (λ row, (bsc_observation_id row =? bsc_observation_id newest) && (bsc_policy_id row =? bsc_policy_id newest)
                         && (bsc_policy_version row =? bsc_policy_version newest)
                         && dt_eqb (bsc_observed_at row) (bsc_observed_at newest)) rows then
        let report := {| bsr_observation_id := bsc_observation_id newest; bsr_policy_id := bsc_policy_id newest;
                         bsr_policy_version := bsc_policy_version newest; bsr_observed_at := as_utc (bsc_observed_at newest);
                         bsr_browsers := [family_status chrome; family_status yandex] |} in
        if browser_report_ok report then Ok (Some report) else Exn (ValidationError "BrowserStatusReportV1")
      else Ok None
  | _, _, _ => Ok None
  end.

Definition load_browser_status (device_id : uuid) : Tx (option BrowserStatusReportV1) :=
  rows ← select (λ _ r, bsc_device_id r =? device_id);
  lift_res (browser_status_from_rows (map snd rows)).

(** ** sensor_health.py *)

Definition advance_sensor (device_id : uuid) (report : PolicySensorHealthReportV1) (observed received : datetime)
    (prior_seen : option datetime) : PolicySensorHealthCurrent := {|
  shc_device_id := device_id; shc_observation_id := shr_observation_id report; shc_policy_id := shr_policy_id report;
  shc_policy_version := shr_policy_version report; shc_observed_at := observed; shc_received_at := received;
  shc_activity_listener_state := shr_activity_listener_state report;
  shc_user_sensor_last_seen_at := latest_time prior_seen (shr_user_sensor_last_seen_at report);
  shc_security_spool_state := shr_security_spool_state report; shc_usb_source_state := shr_usb_source_state report;
  shc_print_source_state := shr_print_source_state report |}.

Definition same_sensor_policy (report : PolicySensorHealthReportV1) (row : PolicySensorHealthCurrent) : bool :=
  (shc_policy_id row =? shr_policy_id report) && (shc_policy_version row =? shr_policy_version report).

Definition ingest_sensor_health (device_id : uuid) (report : PolicySensorHealthReportV1) (received_at : option datetime) : Tx unit :=
  received ← now_or received_at;
  raise_if (negb (is_aware received)) (SensorHealthRejected "receipt time must be timezone-aware") ;;
  let received := as_utc received in
  let observed := as_utc (shr_observed_at report) in
  raise_if (dt_ltb (dt_add received (minutes 5)) observed) (SensorHealthRejected "sensor observation is in the future") ;;
  raise_if (dt_ltb observed (dt_add received (- hours 24))) (SensorHealthRejected "sensor observation is too old") ;;
  require_current_policy device_id (shr_policy_id report) (shr_policy_version report)
    (SensorHealthRejected "sensor policy is not current")
    (SensorHealthRejected "sensor report policy does not match assignment") ;;
  row ← scalar (λ _ r, shc_device_id r =? device_id);
  match row with
  | None =>
      id ← uuid4;
      insert id (advance_sensor device_id report observed received None) ;;
      flush
  | Some (id, row) =>
      let same_policy := same_sensor_policy report row in
      let prior_at := as_utc (shc_observed_at row) in
      raise_if (same_policy && dt_eqb observed prior_at && negb (shc_observation_id row =? shr_observation_id report))
        (SensorHealthRejected "sensor observation timestamp conflicts") ;;
      if same_policy && dt_leb observed prior_at then mret tt
      else
        let prior_seen := if same_policy then as_utc <$> shc_user_sensor_last_seen_at row else None in
        update id (λ _, advance_sensor device_id report observed received prior_seen) ;;
        flush
  end.

Definition sensor_health_from_row (row : option PolicySensorHealthCurrent) : res (option PolicySensorHealthReportV1) :=
  match row with
  | None => Ok None
  | Some row =>
      let report := {| shr_observation_id := shc_observation_id row; shr_policy_id := shc_policy_id row;
                       shr_policy_version := shc_policy_version row; shr_observed_at := as_utc (shc_observed_at row);
                       shr_activity_listener_state := shc_activity_listener_state row;
                       shr_user_sensor_last_seen_at := as_utc <$> shc_user_sensor_last_seen_at row;
                       shr_security_spool_state := shc_security_spool_state row;
                       shr_usb_source_state := shc_usb_source_state row; shr_print_source_state := shc_print_source_state row |} in
      if sensor_report_ok report then Ok (Some report) else Exn (ValidationError "PolicySensorHealthReportV1")
  end.

Definition load_sensor_health (device_id : uuid) : Tx (option PolicySensorHealthReportV1) :=
  row ← scalar (λ _ r, shc_device_id r =? device_id);
  lift_res (sensor_health_from_row (snd <$> row)).
End reports.

(** *** How the gateway runs them (gateway/telemetry.py) *)

Definition TELEMETRY_RESULTS_FEATURE : string := "endpoint.telemetry-results.v1".

Record OptionalReportResult := {
  orr_sequence : Z;
  orr_report_kind : string;
  orr_report_id : uuid;
  orr_accepted : bool      (* disposition accepted, persisted; or rejected, domain_rejected *)
}.

Definition is_browser_rejected (e : exn) : bool := match e with BrowserStatusRejected _ => true | _ => false end.
Definition is_sensor_rejected (e : exn) : bool := match e with SensorHealthRejected _ => true | _ => false end.

Definition ingest_optional_report (kind : string) (report_id : uuid) (sequence : Z) (features : list string)
    (ingest : Tx unit) (rejected : exn → bool) : Tx (option OptionalReportResult) :=
  accepted ← catch (in_session (ingest ;; commit ;; mret true)) rejected (λ _, mret false);
  mret (if str_in TELEMETRY_RESULTS_FEATURE features
        then Some {| orr_sequence := sequence; orr_report_kind := kind; orr_report_id := report_id; orr_accepted := accepted |}
        else None).

(** ** compliance.py *)

Definition _STATUS_FRESHNESS : timedelta := minutes 3.
Definition _HEARTBEAT_FRESHNESS : timedelta := minutes 3.
Definition _CLOCK_SKEW : timedelta := minutes 5.

Record BrowserCompliance := {
  bc_browser_family : string;
  bc_state : string;
  bc_reason : option string;
  bc_extension_version : option string;
  bc_extension_last_seen_at : option datetime;
  bc_effective_policy_state : string
}.

Record DeviceBrowserCompliance := {
  dbc_overall : string;
  dbc_browsers : list BrowserCompliance       (* of chrome, then of yandex *)
}.

Definition _empty (state : string) (reason : option string) : list BrowserCompliance :=
  map (λ family, {| bc_browser_family := family; bc_state := state; bc_reason := reason; bc_extension_version := None;
                    bc_extension_last_seen_at := None; bc_effective_policy_state := "UNKNOWN" |}) ["chrome"; "yandex"].

(** [timedelta(0) <= now - when <= window] *)
Definition within (now : datetime) (window : timedelta) (moment : datetime) : bool :=
  let age := instant now - instant moment in (0 <=? age) && (age <=? window).

Definition expected_owner (policy : EndpointPolicyV1) : string :=
  if bool_decide (pol_browser_deployment_mode policy = "agent_managed") then "ENDPOINT" else "EXTERNAL".

(** Whether the browser confirms that the policy is in effect. *)
Definition effective_policy_state (observed : BrowserFamilyStatusV1) (policy : EndpointPolicyV1) (now : datetime)
    (policy_applied : bool) : string :=
  if policy_applied
     && bool_decide (bfs_browser_state observed = "DETECTED") && bool_decide (bfs_running_state observed = "RUNNING")
     && bool_decide (bfs_policy_owner observed = expected_owner policy)
     && bool_decide (bfs_installation_policy_state observed = "APPLIED")
     && match bfs_extension_last_seen_at observed with Some seen => within now _HEARTBEAT_FRESHNESS seen | None => false end
  then if bool_decide (bfs_extension_install_type observed = "ADMIN") then "APPLIED"
       else if bool_decide (bfs_extension_install_type observed = "OTHER") then "NOT_APPLIED" else "UNKNOWN"
  else "UNKNOWN".

(** The state of a browser with its reason, by the first rule that applies. *)
Definition family_state (observed : BrowserFamilyStatusV1) (policy : EndpointPolicyV1) (now : datetime) : string * option string :=
  if bool_decide (bfs_policy_owner observed = "CONFLICT") || bool_decide (bfs_installation_policy_state observed = "CONFLICT")
  then ("ERROR", Some "POLICY_CONFLICT")
  else if bool_decide (bfs_browser_state observed = "ABSENT") then ("NOT_APPLICABLE", Some "BROWSER_ABSENT")
  else if bool_decide (bfs_browser_state observed = "UNKNOWN") then ("UNKNOWN", Some "BROWSER_DETECTION_UNKNOWN")
  else if negb (bool_decide (bfs_policy_owner observed = expected_owner policy)) then ("ERROR", Some "POLICY_OWNER_MISMATCH")
  else if negb (bool_decide (bfs_installation_policy_state observed = "APPLIED"))
  then ("ERROR", Some "INSTALLATION_POLICY_NOT_APPLIED")
  else if negb (bool_decide (bfs_native_host_state observed = "READY")) then ("ERROR", Some "NATIVE_HOST_UNAVAILABLE")
  else match bfs_extension_last_seen_at observed with
  | None => ("NEVER_SEEN", Some "EXTENSION_NEVER_SEEN")
  | Some seen =>
      if bool_decide (bfs_running_state observed = "CLOSED") then ("STALE", Some "BROWSER_CLOSED")
      else if bool_decide (bfs_running_state observed = "UNKNOWN") then ("UNKNOWN", Some "BROWSER_RUNNING_UNKNOWN")
      else if negb (within now _HEARTBEAT_FRESHNESS seen) then ("STALE", Some "EXTENSION_STALE")
      else if bool_decide (bfs_extension_install_type observed = "OTHER") then ("ERROR", Some "EXTENSION_NOT_MANAGED")
      else if negb (bool_decide (bfs_extension_install_type observed = "ADMIN"))
      then ("UNKNOWN", Some "BROWSER_POLICY_EFFECT_UNKNOWN")
      else ("ACTIVE", None)
  end.

Definition _family_compliance (observed : BrowserFamilyStatusV1) (policy : EndpointPolicyV1) (now : datetime)
    (policy_applied : bool) : BrowserCompliance :=
  let (state, reason) := family_state observed policy now in
  {| bc_browser_family := bfs_browser_family observed; bc_state := state; bc_reason := reason;
     bc_extension_version := bfs_extension_version observed; bc_extension_last_seen_at := bfs_extension_last_seen_at observed;
     bc_effective_policy_state := effective_policy_state observed policy now policy_applied |}.

(** [by_family[family]]: the last status of a family. *)
Definition status_of (family : string) (items : list BrowserFamilyStatusV1) : res BrowserFamilyStatusV1 :=
  match find (λ i, bool_decide (bfs_browser_family i = family)) (rev items) with
  | Some item => Ok item
  | None => Exn (KeyError family)
  end.

Definition derive_browser_compliance (policy : EndpointPolicyV1) (status : policy_status)
    (report : option BrowserStatusReportV1) (now : datetime) : res DeviceBrowserCompliance :=
  let unknown overall reason := Ok {| dbc_overall := overall; dbc_browsers := _empty "UNKNOWN" (Some reason) |} in
  if negb (is_aware now) then Exn (ValueError "compliance time must be timezone-aware")
  else match status with
  | p_unsupported => unknown "UNSUPPORTED" "AGENT_UNSUPPORTED"
  | p_stale => unknown "STALE" "POLICY_STALE"
  | p_pending => unknown "NON_COMPLIANT" "POLICY_NOT_APPLIED"
  | p_applied | p_error =>
      let applied := in_set status [p_applied] in
      if negb (pol_browser_required policy) then
        Ok {| dbc_overall := if applied then "COMPLIANT" else "NON_COMPLIANT"; dbc_browsers := _empty "NOT_APPLICABLE" None |}
      else match report with
      | None => unknown (if applied then "PARTIAL" else "NON_COMPLIANT") "STATUS_NOT_REPORTED"
      | Some report =>
          if negb (bsr_policy_id report =? pol_policy_id policy) || negb (bsr_policy_version report =? pol_policy_version policy)
          then unknown "STALE" "STATUS_POLICY_MISMATCH"
          else
            let age := instant now - instant (bsr_observed_at report) in
            if negb ((- _CLOCK_SKEW <=? age) && (age <=? _STATUS_FRESHNESS)) then unknown "STALE" "STATUS_STALE"
            else
              match status_of "chrome" (bsr_browsers report), status_of "yandex" (bsr_browsers report) with
              | Ok chrome, Ok yandex =>
                  let browsers := [_family_compliance chrome policy now applied; _family_compliance yandex policy now applied] in
                  let states := map bc_state browsers in
                  Ok {| dbc_overall := if negb applied || str_in "ERROR" states then "NON_COMPLIANT"
                                       else if forallb (λ s, str_in s ["ACTIVE"; "NOT_APPLICABLE"]) states then "COMPLIANT"
                                       else "PARTIAL";
                        dbc_browsers := browsers |}
              | Exn e, _ => Exn e
              | _, Exn e => Exn e
              end
      end
  end.

(** ** device_compliance.py *)

Definition _FRESHNESS : timedelta := minutes 2.
Definition SENSOR_HEALTH_FRESHNESS : timedelta := minutes 3.

Record ActivityEvidence := {
  ae_last_observed_at : datetime;
  ae_session_state : string
}.

Record DevicePolicyCompliance := {
  dpc_overall : string;
  dpc_activity : string;
  dpc_browser : string;
  dpc_dlp : string
}.

Definition _fresh (moment now : datetime) (window : timedelta) : bool := is_aware moment && within now window moment.

Definition _source_state (value : string) : string :=
  if bool_decide (value = "READY") then "ACTIVE"
  else if bool_decide (value = "UNAVAILABLE") then "UNAVAILABLE" else "UNKNOWN".

Definition audits (mode : string) : bool := bool_decide (mode = "audit").

Definition browser_audit (policy : EndpointPolicyV1) : bool :=
  audits (browser_upload_events (pol_dlp policy)) || audits (browser_paste_events (pol_dlp policy)).
Definition browser_needed (policy : EndpointPolicyV1) : bool := pol_browser_required policy || browser_audit policy.
Definition dlp_needed (policy : EndpointPolicyV1) : bool :=
  existsb audits [usb_device_events (pol_dlp policy); print_events (pol_dlp policy);
                  browser_upload_events (pol_dlp policy); browser_paste_events (pol_dlp policy)].

Definition all_requested (policy : EndpointPolicyV1) (state : string) : DevicePolicyCompliance :=
  let value needed := if needed : bool then state else "NOT_APPLICABLE" in
  {| dpc_overall := if bool_decide (state = "UNSUPPORTED") then "UNSUPPORTED"
                    else if bool_decide (state = "STALE") then "STALE" else "NON_COMPLIANT";
     dpc_activity := value (pol_activity_enabled policy); dpc_browser := value (browser_needed policy);
     dpc_dlp := value (dlp_needed policy) |}.

Definition health_state (policy : EndpointPolicyV1) (health : option PolicySensorHealthReportV1) (now : datetime) : string :=
  match health with
  | None => "UNKNOWN"
  | Some health =>
      if negb (shr_policy_id health =? pol_policy_id policy) || negb (shr_policy_version health =? pol_policy_version policy)
         || negb (_fresh (shr_observed_at health) now SENSOR_HEALTH_FRESHNESS)
      then "STALE" else "ACTIVE"
  end.

(** The state of the activity sensor, of which the policy asks. *)
Definition activity_state (policy : EndpointPolicyV1) (health : option PolicySensorHealthReportV1)
    (evidence : option ActivityEvidence) (features : list string) (now : datetime) : string :=
  if negb (str_in "endpoint.activity.v1" features && str_in "endpoint.sensor-health.v1" features) then "UNSUPPORTED"
  else if negb (bool_decide (health_state policy health now = "ACTIVE")) then health_state policy health now
  else match health with
  | None => "UNKNOWN"
  | Some health =>
      let activity := _source_state (shr_activity_listener_state health) in
      if negb (bool_decide (activity = "ACTIVE")) then activity
      else match shr_user_sensor_last_seen_at health with
      | None => "UNKNOWN"
      | Some sampled_at =>
          if negb (_fresh sampled_at now _FRESHNESS) then "STALE"
          else match evidence with
          | None => "UNKNOWN"
          | Some evidence =>
              if negb (_fresh (ae_last_observed_at evidence) now _FRESHNESS) then "STALE"
              else if dt_ltb (ae_last_observed_at evidence) sampled_at || bool_decide (ae_session_state evidence = "UNKNOWN")
              then "UNKNOWN" else activity
          end
      end
  end.

Definition with_browser_required (policy : EndpointPolicyV1) : EndpointPolicyV1 := {|
  pol_policy_id := pol_policy_id policy; pol_policy_version := pol_policy_version policy;
  pol_activity_enabled := pol_activity_enabled policy; pol_dlp := pol_dlp policy; pol_browser_required := true;
  pol_browser_deployment_mode := pol_browser_deployment_mode policy;
  pol_security_event_days := pol_security_event_days policy; pol_dump := pol_dump policy |}.

Definition browser_state (policy : EndpointPolicyV1) (report : option BrowserStatusReportV1) (features : list string)
    (now : datetime) : res string :=
  if negb (str_in "endpoint.browser-status.v1" features) then Ok "UNSUPPORTED"
  else
    match derive_browser_compliance (with_browser_required policy) p_applied report now with
    | Exn e => Exn e
    | Ok result =>
        Ok (if bool_decide (dbc_overall result = "COMPLIANT") then "ACTIVE"
            else if bool_decide (dbc_overall result = "NON_COMPLIANT") then "UNAVAILABLE"
            else if bool_decide (dbc_overall result = "STALE")
                    || existsb (λ b, bool_decide (bc_state b = "STALE")) (dbc_browsers result) then "STALE"
            else "UNKNOWN")
    end.

(** The worst of some states. *)
Definition worst (states : list string) : string :=
  if str_in "UNAVAILABLE" states then "UNAVAILABLE" else if str_in "UNSUPPORTED" states then "UNSUPPORTED"
  else if str_in "STALE" states then "STALE" else if str_in "UNKNOWN" states then "UNKNOWN" else "ACTIVE".

Definition dlp_state (policy : EndpointPolicyV1) (health : option PolicySensorHealthReportV1) (browser : string)
    (features : list string) (now : datetime) : string :=
  if negb (str_in "endpoint.security-events.v1" features && str_in "endpoint.sensor-health.v1" features) then "UNSUPPORTED"
  else if negb (bool_decide (health_state policy health now = "ACTIVE")) then health_state policy health now
  else match health with
  | None => "UNKNOWN"
  | Some health =>
      worst ([_source_state (shr_security_spool_state health)]
             ++ (if audits (usb_device_events (pol_dlp policy)) then [_source_state (shr_usb_source_state health)] else [])
             ++ (if audits (print_events (pol_dlp policy)) then [_source_state (shr_print_source_state health)] else [])
             ++ (if browser_audit policy then [_source_state (shr_activity_listener_state health); browser] else []))
  end.

Definition derive_device_compliance (policy : EndpointPolicyV1) (status : policy_status)
    (health : option PolicySensorHealthReportV1) (report : option BrowserStatusReportV1)
    (evidence : option ActivityEvidence) (online : bool) (features : list string) (now : datetime)
    : res DevicePolicyCompliance :=
  if negb (is_aware now) then Exn (ValueError "compliance time must be timezone-aware")
  else if in_set status [p_unsupported] then Ok (all_requested policy "UNSUPPORTED")
  else if negb online || in_set status [p_stale] then Ok (all_requested policy "STALE")
  else if negb (str_in "endpoint.policy.v1" features) then Ok (all_requested policy "UNSUPPORTED")
  else if negb (in_set status [p_applied]) then Ok (all_requested policy "UNKNOWN")
  else
    let activity := if pol_activity_enabled policy then activity_state policy health evidence features now else "NOT_APPLICABLE" in
    match (if browser_needed policy then browser_state policy report features now else Ok "NOT_APPLICABLE") with
    | Exn e => Exn e
    | Ok browser =>
        let dlp := if dlp_needed policy then dlp_state policy health browser features now else "NOT_APPLICABLE" in
        let states := [activity; browser; dlp] in
        Ok {| dpc_overall := if str_in "UNAVAILABLE" states then "NON_COMPLIANT"
                             else if str_in "UNSUPPORTED" states then "UNSUPPORTED"
                             else if str_in "STALE" states then "STALE"
                             else if str_in "UNKNOWN" states then "PARTIAL" else "COMPLIANT";
              dpc_activity := activity; dpc_browser := browser; dpc_dlp := dlp |}
    end.

(** * Theorems *)

(** ** No claim of compliance without fresh evidence *)

Definition acceptable (state : string) : bool := negb (str_in state ["UNAVAILABLE"; "UNSUPPORTED"; "STALE"; "UNKNOWN"]).

(** A health report of the very policy, not older than it may be. *)
Definition health_current (policy : EndpointPolicyV1) (now : datetime) (h : PolicySensorHealthReportV1) : Prop :=
  shr_policy_id h = pol_policy_id policy ∧ shr_policy_version h = pol_policy_version policy
  ∧ _fresh (shr_observed_at h) now SENSOR_HEALTH_FRESHNESS = true.

Definition activity_proved (policy : EndpointPolicyV1) (now : datetime) (health : option PolicySensorHealthReportV1)
    (evidence : option ActivityEvidence) : Prop :=
  ∃ h sampled e, health = Some h ∧ health_current policy now h ∧ shr_activity_listener_state h = "READY"
    ∧ shr_user_sensor_last_seen_at h = Some sampled ∧ _fresh sampled now _FRESHNESS = true
    ∧ evidence = Some e ∧ _fresh (ae_last_observed_at e) now _FRESHNESS = true
    ∧ instant sampled <= instant (ae_last_observed_at e) ∧ ae_session_state e ≠ "UNKNOWN".

(** A browser that is not there, or whose extension was installed by the policy
    and was heard of in the last minutes. *)
Definition browser_proved (policy : EndpointPolicyV1) (now : datetime) (item : BrowserFamilyStatusV1) : Prop :=
  bfs_browser_state item = "ABSENT"
  ∨ (bfs_policy_owner item = expected_owner policy ∧ bfs_installation_policy_state item = "APPLIED"
     ∧ bfs_native_host_state item = "READY" ∧ bfs_extension_install_type item = "ADMIN"
     ∧ ∃ seen, bfs_extension_last_seen_at item = Some seen ∧ within now _HEARTBEAT_FRESHNESS seen = true).

Definition browsers_proved (policy : EndpointPolicyV1) (now : datetime) (report : option BrowserStatusReportV1) : Prop :=
  ∃ r, report = Some r ∧ bsr_policy_id r = pol_policy_id policy ∧ bsr_policy_version r = pol_policy_version policy
    ∧ - _CLOCK_SKEW <= instant now - instant (bsr_observed_at r) <= _STATUS_FRESHNESS
    ∧ ∀ family, family ∈ ["chrome"; "yandex"] → ∃ item, status_of family (bsr_browsers r) = Ok item ∧ browser_proved policy now item.

Definition dlp_proved (policy : EndpointPolicyV1) (now : datetime) (health : option PolicySensorHealthReportV1) : Prop :=
  ∃ h, health = Some h ∧ health_current policy now h ∧ shr_security_spool_state h = "READY"
    ∧ (audits (usb_device_events (pol_dlp policy)) = true → shr_usb_source_state h = "READY")
    ∧ (audits (print_events (pol_dlp policy)) = true → shr_print_source_state h = "READY")
    ∧ (browser_audit policy = true → shr_activity_listener_state h = "READY").

Ltac cases := repeat match goal with
  | |- context [if ?b then _ else _] => let E := fresh "E" in destruct b eqn:E
  | H : context [if ?b then _ else _] |- _ => let E := fresh "E" in destruct b eqn:E
  end.

Lemma source_ready value : acceptable (_source_state value) = true → value = "READY".
Proof. unfold _source_state. cases; propify; done. Qed.

Lemma health_is_current policy health now :
  health_state policy health now = "ACTIVE" → ∃ h, health = Some h ∧ health_current policy now h.
Proof.
  unfold health_state. destruct health as [h|]; [|done]. cases; [done|]. propify. intros _. exists h. split; [done|]. by split_and!.
Qed.

Lemma health_acceptable policy health now : acceptable (health_state policy health now) = true → health_state policy health now = "ACTIVE".
Proof. unfold health_state. destruct health; [|done]. by cases. Qed.

Lemma activity_is_proved policy health evidence features now :
  acceptable (activity_state policy health evidence features now) = true → activity_proved policy now health evidence.
Proof.
  unfold activity_state. destruct (str_in _ _ && _); simpl; [|done].
  destruct (bool_decide (health_state policy health now = "ACTIVE")) eqn:Eh; simpl; propify.
  2:{ intros Hbad%health_acceptable. congruence. }
  destruct (health_is_current _ _ _ Eh) as (h & -> & Hc).
  destruct (bool_decide (_source_state (shr_activity_listener_state h) = "ACTIVE")) eqn:Es; simpl; propify.
  2:{ intros Hbad%source_ready. by rewrite Hbad in Es. }
  assert (shr_activity_listener_state h = "READY") as Hl by (apply source_ready; by rewrite Es).
  destruct (shr_user_sensor_last_seen_at h) as [sampled|] eqn:Hs; [|done].
  destruct (_fresh sampled now _FRESHNESS) eqn:Ef; simpl; [|done]. destruct evidence as [e|]; [|done].
  destruct (_fresh (ae_last_observed_at e) now _FRESHNESS) eqn:Ee; simpl; [|done].
  destruct (_ || _) eqn:Eo; [done|]. intros _. unfold dt_ltb in *. propify.
  exists h, sampled, e. by split_and!.
Qed.

Lemma family_is_proved item policy now :
  (family_state item policy now).1 ∈ ["ACTIVE"; "NOT_APPLICABLE"] → browser_proved policy now item.
Proof.
  unfold family_state. destruct (bfs_extension_last_seen_at item) as [seen|] eqn:Es; cases; propify; simpl; intros Hin;
    try (by exfalso; repeat (apply elem_of_cons in Hin as [?|Hin]; [done|]); apply elem_of_nil in Hin);
    [by left|right|by left].
  split_and!; try done. by exists seen.
Qed.

Lemma browser_is_proved policy report features now s :
  browser_state policy report features now = Ok s → acceptable s = true → browsers_proved policy now report.
Proof.
  unfold browser_state. destruct (str_in _ features); simpl; [|by intros [= <-]].
  destruct (derive_browser_compliance _ _ report now) as [result|] eqn:Ed; [|done]. intros [= <-].
  destruct (bool_decide (dbc_overall result = "COMPLIANT")) eqn:Ec; [|by cases]. intros _. propify.
  unfold derive_browser_compliance in Ed. destruct (is_aware now); simpl in Ed; [|done].
  destruct report as [r|]; [|by simplify_eq].
  destruct (_ || _) eqn:Eid in Ed; [by simplify_eq|]. destruct (_ && _) eqn:Eage in Ed; simpl in Ed; [|by simplify_eq].
  destruct (status_of "chrome" _) as [chrome|] eqn:E1; [|done]. destruct (status_of "yandex" _) as [yandex|] eqn:E2; [|done].
  simplify_eq. simpl in Ec. unfold _family_compliance in Ec.
  destruct (family_state chrome _ now) as [s1 r1] eqn:F1, (family_state yandex _ now) as [s2 r2] eqn:F2. simpl in Ec.
  destruct (str_in "ERROR" _); [done|]. destruct (str_in s1 _ && _) eqn:Est; [|done].
  apply andb_prop in Est as [S1%bool_decide_eq_true [S2%bool_decide_eq_true _]%andb_prop]. propify. unfold _CLOCK_SKEW, _STATUS_FRESHNESS in *. exists r. split_and!; try done; try lia.
  intros family [->|[->|[]%elem_of_nil]%elem_of_cons]%elem_of_cons; eexists; (split; [eassumption|]).
  - apply (family_is_proved chrome (with_browser_required policy)). by rewrite F1.
  - apply (family_is_proved yandex (with_browser_required policy)). by rewrite F2.
Qed.

(** States are acceptable together when the worst of them is. *)
Lemma worst_acceptable states : acceptable (worst states) = true → ∀ s, s ∈ states → acceptable s = true.
Proof.
  unfold worst. cases; try done. unfold str_in in *. propify. intros _ s Hs. unfold acceptable, str_in. apply negb_true_iff, bool_decide_eq_false_2.
  intros Hin. repeat (apply elem_of_cons in Hin as [->|Hin]; [done|]). by apply elem_of_nil in Hin.
Qed.

Lemma dlp_is_proved policy health browser features now :
  acceptable (dlp_state policy health browser features now) = true → dlp_proved policy now health.
Proof.
  unfold dlp_state. destruct (str_in _ _ && _); simpl; [|done].
  destruct (bool_decide (health_state policy health now = "ACTIVE")) eqn:Eh; simpl; propify.
  2:{ intros Hbad%health_acceptable. congruence. }
  destruct (health_is_current _ _ _ Eh) as (h & -> & Hc). intros Hall. pose proof (worst_acceptable _ Hall) as Hs.
  exists h. split_and!; try done.
  - apply source_ready, Hs. left.
  - intros Hu. rewrite Hu in Hs. apply source_ready, Hs. right. left.
  - intros Hp. rewrite Hp in Hs. apply source_ready, Hs. right. apply elem_of_app. right. left.
  - intros Hb. rewrite Hb in Hs. apply source_ready, Hs. right. apply elem_of_app. right. apply elem_of_app. right. left.
Qed.

(** C37: the console calls a device compliant only when it is online and has
    applied its policy, and for each sensor that the policy asks for there is fresh
    evidence: of the activity sensor a listener that is ready, a sample and a later
    observation of the last two minutes; of each browser that is there the managed
    extension, heard of in the last three; and of data protection ready sources, by
    a health report of that very policy. *)
Theorem compliance_is_proved policy status health report evidence online features now c :
  derive_device_compliance policy status health report evidence online features now = Ok c →
  dpc_overall c = "COMPLIANT" →
  status = p_applied ∧ online = true
  ∧ (pol_activity_enabled policy = true → activity_proved policy now health evidence)
  ∧ (browser_needed policy = true → browsers_proved policy now report)
  ∧ (dlp_needed policy = true → dlp_proved policy now health).
Proof.
  unfold derive_device_compliance. destruct (is_aware now); simpl; [|done].
  destruct (in_set status [p_unsupported]) eqn:E1; [by intros [= <-]|].
  destruct (_ || in_set status [p_stale]) eqn:E2; [by intros [= <-]|].
  destruct (str_in "endpoint.policy.v1" features); simpl; [|by intros [= <-]].
  destruct (in_set status [p_applied]) eqn:E3; simpl; [|by intros [= <-]].
  destruct (if browser_needed policy then _ else _) as [browser|] eqn:Eb; [|done]. intros [= <-]. simpl. intros Hc.
  set (activity := if pol_activity_enabled policy then _ else _) in *. set (dlp := if dlp_needed policy then _ else _) in *.
  assert (acceptable (worst [activity; browser; dlp]) = true) as Hall by (unfold worst; by cases).
  pose proof (worst_acceptable _ Hall) as Hs. propify. split_and!.
  - by destruct status.
  - by destruct online.
  - intros Ha. assert (acceptable activity = true) as Hok by (apply Hs; left). subst activity. rewrite Ha in Hok. by eapply activity_is_proved.
  - intros Hb. rewrite Hb in Eb. eapply browser_is_proved; [exact Eb|]. apply Hs. right. left.
  - intros Hd. assert (acceptable dlp = true) as Hok by (apply Hs; right; right; left). subst dlp. rewrite Hd in Hok. by eapply dlp_is_proved.
Qed.

(** ** A report does not take a browser back in time *)

(** The row is the same, or speaks of the same browser at a time not earlier. *)
Definition later_status (r r' : BrowserStatusCurrent) : Prop :=
  r' = r ∨ (bsc_device_id r' = bsc_device_id r ∧ bsc_browser_family r' = bsc_browser_family r
            ∧ instant (bsc_observed_at r) <= instant (bsc_observed_at r')).

#[export] Instance later_status_preorder : PreOrder later_status.
Proof.
  split; [by left|]. intros x y z [->|(D & F & O)] [->|(D' & F' & O')]; [by left|by right..|right]. split_and!; [congruence..|lia].
Qed.

(** The device has a status of the browser that is not earlier than the report. *)
Definition recorded (m : gmap uuid BrowserStatusCurrent) (device : uuid) (observed : datetime) (family : string) : Prop :=
  ∃ id row, m !! id = Some row ∧ bsc_device_id row = device ∧ bsc_browser_family row = family
    ∧ instant observed <= instant (bsc_observed_at row).

Lemma recorded_kept m m' device observed family :
  recorded m device observed family → rows_kept later_status m m' → recorded m' device observed family.
Proof.
  intros (id & row & Hr & D & F & O) Hk. destruct (Hk _ _ Hr) as (row' & Hr' & [->|(D' & F' & O')]); [by exists id, row|].
  exists id, row'. split_and!; [done|congruence..|lia].
Qed.

(** The rows [rows] that were read, while the statuses of a report are written. *)
Definition in_progress (device : uuid) (observed : datetime) (rows : list (uuid * BrowserStatusCurrent)) (m : gmap uuid BrowserStatusCurrent) : Prop :=
  ∀ id row, (id, row) ∈ rows → ∃ cur, m !! id = Some cur
    ∧ bsc_device_id cur = device ∧ bsc_browser_family cur = bsc_browser_family row
    ∧ (cur = row ∨ instant (bsc_observed_at cur) = instant observed).

Section advance.
Context `{Contracts} `{PolicyContracts}.

Definition writing (w0 : World) (device : uuid) (observed : datetime) (rows : list (uuid * BrowserStatusCurrent)) (w : World) : Prop :=
  committed w = committed w0 ∧ fresh (seed w) (browser_status_current (db w))
  ∧ rows_kept later_status (browser_status_current (db w0)) (browser_status_current (db w))
  ∧ in_progress device observed rows (browser_status_current (db w)).

Lemma family_row_in family rows r : family_row family rows = Some r → r ∈ rows ∧ bsc_browser_family r.2 = family.
Proof.
  unfold family_row. intros [Hin Hf]%find_some. propify. split; [|done]. by apply list_elem_of_In, in_rev.
Qed.

(** One row of the table is written. *)
Lemma writing_step w0 device observed rows w w' :
  writing w0 device observed rows w → committed w' = committed w → fresh (seed w') (browser_status_current (db w')) →
  rows_kept later_status (browser_status_current (db w)) (browser_status_current (db w')) →
  (∀ id row, (id, row) ∈ rows → browser_status_current (db w') !! id = browser_status_current (db w) !! id
     ∨ ∃ cur, browser_status_current (db w') !! id = Some cur ∧ bsc_device_id cur = device
         ∧ bsc_browser_family cur = bsc_browser_family row ∧ instant (bsc_observed_at cur) = instant observed) →
  writing w0 device observed rows w'.
Proof.
  intros (C & F & K & P) C' F' K' P'. split_and!; [congruence|done| |].
  - eapply rows_kept_trans; [intros x y z ??; by etrans|exact K|exact K'].
  - intros id row Hr. destruct (P' id row Hr) as [->|(cur & Hcur & D & Fm & O)]; [by apply P|]. exists cur. split_and!; try done. by right.
Qed.

Lemma ingest_browser_spec w0 device report observed received rows item w :
  writing w0 device observed rows w →
  wp (ingest_browser device report observed received rows item) (λ r w', writing w0 device observed rows w'
    ∧ rows_kept later_status (browser_status_current (db w)) (browser_status_current (db w'))
    ∧ match r with Ok _ => recorded (browser_status_current (db w')) device observed (bfs_browser_family item) | Exn _ => True end) w.
Proof.
  intros Hw. pose proof Hw as (_ & F & _ & P). unfold ingest_browser.
  assert (rows_kept later_status (browser_status_current (db w)) (browser_status_current (db w))) as Hsame by (apply rows_kept_refl; reflexivity).
  destruct (family_row _ rows) as [[id row]|] eqn:Ef.
  - apply family_row_in in Ef as [Hin Hfam]. simpl in Hfam. destruct (P id row Hin) as (cur & Hcur & D & Fm & Hcase).
    apply wp_bind, wp_raise_if; [done|]. intros _. wp_k. unfold dt_leb. rewrite instant_as_utc.
    destruct (instant observed <=? instant (bsc_observed_at row)) eqn:Eo; simpl; propify.
    + apply wp_ret. split_and!; try done. exists id, cur. split_and!; try congruence. destruct Hcase as [->|]; lia.
    + apply wp_update. set (f := λ row0 : BrowserStatusCurrent, advance_browser _ _ _ _ _ _) in *.
      assert (rows_kept later_status (browser_status_current (db w)) (alter f id (browser_status_current (db w)))) as Hk.
      { apply rows_kept_alter; [by left|]. intros v Hv. simplify_eq. right. subst f. simpl.
        destruct Hcase as [->|]; split_and!; try congruence; lia. }
      split_and!; [|exact Hk|].
      * apply (writing_step w0 device observed rows w); [done|done|by apply fresh_alter|exact Hk|]. intros i r Hr. simpl.
        destruct (decide (i = id)) as [->|Hne]; [|by left; rewrite lookup_alter_ne]. right. rewrite lookup_alter_eq, Hcur.
        eexists. split; [done|]. subst f. simpl. destruct (P id r Hr) as (c & Hc & _ & Fc & _). split_and!; try done. congruence.
      * exists id, (f cur). simpl. rewrite lookup_alter_eq, Hcur. by split_and!.
  - apply wp_bind, wp_uuid4. wp_k. apply wp_insert.
    set (row := advance_browser _ _ _ _ _ _) in *. pose proof (fresh_lookup _ _ F) as Hnone.
    assert (rows_kept later_status (browser_status_current (db w)) (<[seed w := row]> (browser_status_current (db w)))) as Hk
      by (apply rows_kept_insert; [by left|done]).
    split_and!; [|exact Hk|].
    + apply (writing_step w0 device observed rows w); [done|done| |exact Hk|].
      * simpl. apply fresh_insert; [|lia]. eapply fresh_le; [exact F|lia].
      * intros i r Hr. left. simpl. rewrite lookup_insert_ne; [done|]. intros <-. destruct (P _ _ Hr) as (c & Hc & _). congruence.
    + exists (seed w), row. simpl. rewrite lookup_insert_eq. by split_and!.
Qed.

Lemma ingest_browsers_spec w0 device report observed received rows items w :
  writing w0 device observed rows w →
  wp (for_each items (ingest_browser device report observed received rows)) (λ r w', writing w0 device observed rows w'
    ∧ rows_kept later_status (browser_status_current (db w)) (browser_status_current (db w'))
    ∧ match r with
      | Ok _ => ∀ item, item ∈ items → recorded (browser_status_current (db w')) device observed (bfs_browser_family item)
      | Exn _ => True
      end) w.
Proof.
  revert w. induction items as [|item items IH]; intros w Hw; simpl.
  { apply wp_ret. split_and!; [done|apply rows_kept_refl; reflexivity|]. by intros item ?%elem_of_nil. }
  apply wp_bind. eapply wp_mono; [by apply ingest_browser_spec|]. intros [[]|e] w1 (Hw1 & K1 & Hr); wp_k; [|done].
  eapply wp_mono; [by apply IH|]. intros r w2 (Hw2 & K2 & Hrs). split_and!; [done|by eapply rows_kept_trans; [intros x y z ??; etrans|..]|].
  destruct r as [[]|]; [|done]. intros i [->|Hi]%elem_of_cons; [by eapply recorded_kept|by apply Hrs].
Qed.

Lemma ingest_browser_status_spec device report received w :
  fresh (seed w) (browser_status_current (db w)) →
  wp (ingest_browser_status device report received) (λ r w', committed w' = committed w
    ∧ match r with
      | Ok _ => rows_kept later_status (browser_status_current (db w)) (browser_status_current (db w'))
          ∧ ∀ item, item ∈ bsr_browsers report →
              recorded (browser_status_current (db w')) device (bsr_observed_at report) (bfs_browser_family item)
      | Exn _ => True
      end) w.
Proof.
  intros Hf. unfold ingest_browser_status.
  pose (view := λ w, (db w, committed w, seed w)).
  apply (wp_bind_pres (same view)); [unfold view, now_or; frame| |by intros e w' [= _ -> _]].
  intros now w1 E1. apply wp_bind, wp_raise_if; [intros _; by injection E1|]. intros _. wp_k.
  apply (wp_bind_pres (same view)); [unfold view; frame| |intros e w' E2; split; [|done]; by injection (transitivity E1 E2)].
  intros [] w2 E2. pose proof (transitivity E1 E2) as E12.
  apply (wp_bind_pres (same view)); [unfold view, require_current_policy, resolve_effective_policy; frame| |
    intros e w' E3; split; [|done]; by injection (transitivity E12 E3)].
  intros [] w3 E3. injection (transitivity E12 E3) as D C S. rewrite <- D, <- C. rewrite <- D, <- S in Hf.
  apply wp_bind, wp_select. intros rows Hnd Hrows. wp_k. apply wp_bind.
  eapply wp_mono; [apply (ingest_browsers_spec w3 device report (as_utc (bsr_observed_at report)) _ rows)|].
  - split_and!; try done; [apply rows_kept_refl; reflexivity|]. intros id row [Hr Hd]%Hrows. propify. exists row. split_and!; try done. by left.
  - intros [[]|e] w4 ((C4 & _) & K4 & R4); wp_k; [|done]. apply wp_flush; [intros _|by intros name _]. split_and!; try done.
    intros item Hi. destruct (R4 item Hi) as (id & row & ? & ? & ? & O). rewrite instant_as_utc in O. by exists id, row.
Qed.

(** C0: a report of a device's browsers is stored as a whole or not at all, and the
    gateway says which; once it is stored, the device has a status of each browser
    of the report that is not earlier than the report; and no stored status is
    ever lost, given to another browser or replaced by an earlier one. *)
Theorem browser_reports_only_advance device report received kind report_id sequence features w :
  fresh (seed w) (browser_status_current (committed w)) →
  wp (ingest_optional_report kind report_id sequence features (ingest_browser_status device report received) is_browser_rejected)
    (λ r w', rows_kept later_status (browser_status_current (committed w)) (browser_status_current (committed w'))
      ∧ match r with
        | Ok reply => ∃ accepted,
            reply = (if str_in TELEMETRY_RESULTS_FEATURE features
                     then Some {| orr_sequence := sequence; orr_report_kind := kind; orr_report_id := report_id; orr_accepted := accepted |}
                     else None)
            ∧ if accepted then ∀ item, item ∈ bsr_browsers report →
                                recorded (browser_status_current (committed w')) device (bsr_observed_at report) (bfs_browser_family item)
              else committed w' = committed w
        | Exn _ => committed w' = committed w
        end) w.
Proof.
  intros Hf. assert (∀ d d' : DB, d' = d → rows_kept later_status (browser_status_current d) (browser_status_current d')) as Hsame.
  { intros d d' ->. apply rows_kept_refl. reflexivity. }
  unfold ingest_optional_report, catch. apply wp_bind, wp_try, wp_in_session, wp_bind. fold (stored w).
  eapply wp_mono; [by apply ingest_browser_status_spec|]. intros [[]|e] w1 [C1 H1']; wp_k.
  - apply wp_bind, wp_commit; [intros _; wp_k; apply wp_ret; wp_k; apply wp_ret; split; [apply H1'|by exists true; split; [|apply H1']]|].
    intros name _. wp_k. simpl. split; [by apply Hsame|done].
  - destruct (is_browser_rejected e); wp_k.
    + apply wp_ret. wp_k. apply wp_ret. split; [by apply Hsame|]. by exists false.
    + split; [by apply Hsame|done].
Qed.
End advance.

(** ** Witnesses *)

Definition toy_status (family : string) : BrowserFamilyStatusV1 := {|
  bfs_browser_family := family; bfs_browser_state := "DETECTED"; bfs_running_state := "RUNNING"; bfs_policy_owner := "ENDPOINT";
  bfs_installation_policy_state := "APPLIED"; bfs_native_host_state := "READY"; bfs_extension_version := Some "1.2";
  bfs_extension_last_seen_at := Some (utc_datetime (seconds 50)); bfs_extension_install_type := "ADMIN";
  bfs_last_running_at := Some (utc_datetime (seconds 50)) |}.

Definition toy_report : BrowserStatusReportV1 := {|
  bsr_observation_id := 70; bsr_policy_id := 11; bsr_policy_version := 1; bsr_observed_at := utc_datetime (seconds 60);
  bsr_browsers := [toy_status "chrome"; toy_status "yandex"] |}.

Definition toy_health : PolicySensorHealthReportV1 := {|
  shr_observation_id := 71; shr_policy_id := 11; shr_policy_version := 1; shr_observed_at := utc_datetime (seconds 60);
  shr_activity_listener_state := "READY"; shr_user_sensor_last_seen_at := Some (utc_datetime (seconds 55));
  shr_security_spool_state := "READY"; shr_usb_source_state := "READY"; shr_print_source_state := "UNKNOWN" |}.

Definition toy_required : EndpointPolicyV1 := {|
  pol_policy_id := 11; pol_policy_version := 1; pol_activity_enabled := true; pol_dlp := pol_dlp toy_policy;
  pol_browser_required := true; pol_browser_deployment_mode := "agent_managed"; pol_security_event_days := 30; pol_dump := JNull |}.

Definition toy_evidence : ActivityEvidence := {| ae_last_observed_at := utc_datetime (seconds 58); ae_session_state := "ACTIVE" |}.

Definition toy_features : list string :=
  ["endpoint.policy.v1"; "endpoint.activity.v1"; "endpoint.sensor-health.v1"; "endpoint.browser-status.v1";
   "endpoint.security-events.v1"; TELEMETRY_RESULTS_FEATURE].

Example reports_are_kept :
  let w := (ingest_optional_report "browser_status_report" 70 4 toy_features
              (ingest_browser_status (H0 := toy_policies) 7 toy_report None) is_browser_rejected (toy_delivered ∅)).2 in
  let w' := (ingest_optional_report "sensor_health_report" 71 5 toy_features
              (ingest_sensor_health (H0 := toy_policies) 7 toy_health None) is_sensor_rejected w).2 in
  (load_browser_status 7 (stored w')).1 = Ok (Some toy_report) ∧ (load_sensor_health 7 (stored w')).1 = Ok (Some toy_health).
Proof. vm_compute. done. Qed.

Lemma compliance_is_proved_witness :
  let now := utc_datetime (seconds 61) in
  p_applied = p_applied ∧ true = true
  ∧ (pol_activity_enabled toy_required = true → activity_proved toy_required now (Some toy_health) (Some toy_evidence))
  ∧ (browser_needed toy_required = true → browsers_proved toy_required now (Some toy_report))
  ∧ (dlp_needed toy_required = true → dlp_proved toy_required now (Some toy_health)).
Proof.
  apply (compliance_is_proved toy_required p_applied (Some toy_health) (Some toy_report) (Some toy_evidence) true toy_features
           (utc_datetime (seconds 61))
           {| dpc_overall := "COMPLIANT"; dpc_activity := "ACTIVE"; dpc_browser := "ACTIVE"; dpc_dlp := "ACTIVE" |});
    reflexivity.
Defined.

Lemma browser_reports_only_advance_witness :
  let w := toy_delivered ∅ in
  wp (ingest_optional_report "browser_status_report" 70 4 toy_features
        (ingest_browser_status (H0 := toy_policies) 7 toy_report None) is_browser_rejected)
    (λ r w', rows_kept later_status (browser_status_current (committed w)) (browser_status_current (committed w'))
      ∧ match r with
        | Ok reply => ∃ accepted,
            reply = (if str_in TELEMETRY_RESULTS_FEATURE toy_features
                     then Some {| orr_sequence := 4; orr_report_kind := "browser_status_report"; orr_report_id := 70; orr_accepted := accepted |}
                     else None)
            ∧ if accepted then ∀ item, item ∈ bsr_browsers toy_report →
                                recorded (browser_status_current (committed w')) 7 (bsr_observed_at toy_report) (bfs_browser_family item)
              else committed w' = committed w
        | Exn _ => committed w' = committed w
        end) w.
Proof.
  apply (browser_reports_only_advance (H0 := toy_policies) 7 toy_report None "browser_status_report" 70 4 toy_features (toy_delivered ∅)).
  intros id row Hr. by apply (lookup_empty_Some id row) in Hr.
Defined.
