(* ===== verification/ModuleCatalog.v ===== *)
(** * Module catalog (endpoint_server/modules/lifecycle.py, service.py, routes.py)

    Versions of a module go through a closed lifecycle: a draft is validated, its
    lab runs are recorded, and it is accepted, published and deprecated by requests
    of service clients.  The listings and the projection for devices
    (device_catalog.py) are not modelled.  The parsers and dumps of recipes are
    those of [Contracts].  At the end of the file: what a published version has
    behind it. *)

From S2P Require Import Prelude Store Session AuditLog Frames Contracts Recipe Calendar Credentials Identity.
From S2P Require Import Enrollment EnrollmentRoutes History Demo AuthDemo.

(** ** lifecycle.py *)

Definition _TRANSITIONS (current : string) : list string :=
  default [] (assoc current
    [("draft", ["validation_failed"; "validated"; "revoked"]); ("validation_failed", ["validated"; "revoked"]);
     ("validated", ["lab_accepted"; "validation_failed"; "revoked"]); ("lab_accepted", ["published"; "revoked"]);
     ("published", ["deprecated"; "revoked"]); ("deprecated", []); ("revoked", [])]).

Definition transition_module_version (current target : string) : res string :=
  if str_in target (_TRANSITIONS current) then Ok target else Exn ModuleLifecycleError.

(** ** service.py *)

Definition STATIC_RECIPE_VALIDATOR_VERSION : string := "endpoint_recipe_static_v1".
Definition _SAFE_LAB_SNAPSHOT_MAX_BYTES : Z := 128 * 1024.
Definition _FORBIDDEN_LAB_SNAPSHOT_KEYS : list string :=
  ["command_payload"; "raw_command"; "raw_stderr"; "raw_stdout"; "recipe"; "user_function_body"].

Definition is_module_service_error (e : exn) : bool := match e with ModuleServiceError _ => true | _ => false end.

(** [str.lower] *)
Definition lower_text (s : string) : string := text (map lower (chars s)).

Fixpoint _contains_forbidden_lab_snapshot_key (value : json) : bool :=
  match value with
  | JObj entries =>
      (fix go (l : list (string * json)) : bool :=
         match l with
         | [] => false
         | (key, child) :: l' =>
             str_in (lower_text key) _FORBIDDEN_LAB_SNAPSHOT_KEYS || _contains_forbidden_lab_snapshot_key child || go l'
         end) entries
  | JList items =>
      (fix go (l : list json) : bool :=
         match l with
         | [] => false
         | child :: l' => _contains_forbidden_lab_snapshot_key child || go l'
         end) items
  | _ => false
  end.

(** [mapping.get(key)] where [value] is a mapping *)
Definition get_field (key : string) (value : json) : option json :=
  match value with JObj entries => assoc key entries | _ => None end.

Section catalog.
Context `{Contracts}.

Definition create_draft_version (recipe : option EndpointRecipeModuleSpecV1) : res string :=
  match recipe with
  | None => Exn (ModuleServiceError "recipe is required")
  | Some recipe =>
      match validate_recipe_spec recipe with
      | Exn (RecipeValidationError _) => Exn (ModuleServiceError "recipe is not valid")
      | Exn e => Exn e
      | Ok _ => Ok "draft"
      end
  end.

Definition persist_draft_version (recipe : EndpointRecipeModuleSpecV1) (display_name version : string)
    : Tx (uuid * ModuleVersion) :=
  lift_res (create_draft_version (Some recipe)) ;;
  definition ← scalar (λ _ d, bool_decide (mdf_module_key d = recipe_module_key recipe));
  definition_id ← match definition with
                  | Some (id, _) => mret id
                  | None =>
                      id ← uuid4;
                      insert id {| mdf_module_key := recipe_module_key recipe; mdf_display_name := display_name |} ;;
                      flush ;;
                      mret id
                  end;
  existing ← scalar (λ _ v, (mv_module_definition_id v =? definition_id) && bool_decide (mv_version v = version));
  raise_if (is_some (existing : option (uuid * ModuleVersion))) (ModuleServiceError "module version already exists") ;;
  created_at ← utcnow;
  id ← uuid4;
  let row := {| mv_created_at := created_at; mv_module_definition_id := definition_id; mv_version := version;
                mv_state := "draft"; mv_recipe := recipe_dump recipe |} in
  insert id row ;;
  flush ;;
  mret (id, row).

Definition transition_persisted_version (module_version : uuid * ModuleVersion) (target_state : string)
    : Tx (uuid * ModuleVersion) :=
  state ← lift_res (transition_module_version (mv_state module_version.2) target_state);
  update module_version.1 (λ v, v <| mv_state := state |>) ;;
  flush ;;
  mret (module_version.1, module_version.2 <| mv_state := state |>).

(** The codes of the static validation: none when the recipe is valid. *)
Definition static_error_codes (document : json) : res (list string) :=
  match parse_recipe document with
  | None => Ok ["recipe_contract_invalid"]
  | Some recipe =>
      match validate_recipe_spec recipe with
      | Exn (RecipeValidationError _) => Ok ["recipe_catalog_invalid"]
      | Exn e => Exn e
      | Ok _ => Ok []
      end
  end.

Definition validate_persisted_module_version (module_version : uuid * ModuleVersion) (completed_at : option datetime)
    : Tx (uuid * ModuleValidationRun) :=
  raise_if (negb (str_in (mv_state module_version.2) ["draft"; "validation_failed"]))
    (ModuleServiceError "module version cannot be validated in its current state") ;;
  error_codes ← lift_res (static_error_codes (mv_recipe module_version.2));
  let failed := negb (bool_decide (error_codes = [])) in
  let target_state := if failed then "validation_failed" else "validated" in
  when (negb (bool_decide (mv_state module_version.2 = target_state)))
    (state ← lift_res (transition_module_version (mv_state module_version.2) target_state);
     update module_version.1 (λ v, v <| mv_state := state |>)) ;;
  completed_at ← now_or completed_at;
  id ← uuid4;
  let row := {| mvr_module_version_id := module_version.1; mvr_validator_version := STATIC_RECIPE_VALIDATOR_VERSION;
                mvr_status := if failed then "failed" else "succeeded"; mvr_error_codes := error_codes; mvr_warning_codes := [];
                mvr_completed_at := completed_at |} in
  insert id row ;;
  flush ;;
  mret (id, row).

Definition _declared_platforms (module_version : ModuleVersion) : res (list string) :=
  match parse_recipe (mv_recipe module_version) with
  | None => Exn (ModuleServiceError "module version recipe is invalid")
  | Some recipe => Ok (recipe_supported_platforms recipe)
  end.

(** A snapshot that is built here is always a JSON object. *)
Definition _validate_safe_lab_snapshot (snapshot : json) : res unit :=
  if _contains_forbidden_lab_snapshot_key snapshot then
    Exn (ModuleServiceError "lab result snapshot contains forbidden data")
  else if _SAFE_LAB_SNAPSHOT_MAX_BYTES <? Z.of_nat (String.length (json_compact snapshot)) then
    Exn (ModuleServiceError "lab result snapshot exceeds the safe size limit")
  else Ok tt.

(** The platform of a succeeded lab run of the version, or why it is not one; the
    conditions in the order in which the code evaluates them. *)
Definition lab_platform (module_version : uuid * ModuleVersion) (operation : EndpointOperation) : res string :=
  let mismatch := Exn (ModuleServiceError "lab operation is not a matching terminal module operation") in
  if negb (bool_decide (op_capability operation = "endpoint.module.recipe")) then mismatch
  else if negb (bool_decide (op_module_version_id operation = Some module_version.1)) then mismatch
  else if negb (json_eqb (default JNull (get_field "execution_mode" (op_parameters operation))) (JStr "lab")) then mismatch
  else
    match get_field "execution_platform" (op_parameters operation) with
    | Some (JStr platform) =>
        if negb (str_in platform ["linux_amd64"; "windows_amd64"]) then mismatch
        else res_bind (_declared_platforms module_version.2) (λ declared,
          if negb (str_in platform declared) then mismatch
          else if negb (in_set (op_status operation) [succeeded]) then mismatch
          else if is_none (op_completed_at operation) then mismatch
          else Ok platform)
    | Some (JList _) | Some (JObj _) => Exn (TypeError "unhashable type")
    | _ => mismatch
    end.

Definition by_sequence (a b : uuid * ModuleOperationStep) : bool := step_sequence a.2 <=? step_sequence b.2.

(** [[step.sequence for step in steps] == list(range(n))], and all succeeded *)
Definition steps_complete (expected : option Z) (steps : list ModuleOperationStep) : bool :=
  match expected with
  | None => false
  | Some n =>
      (1 <=? n) && (n <=? 8) && (Z.of_nat (length steps) =? n)
      && bool_decide (map step_sequence steps = map Z.of_nat (seq 0 (Z.to_nat n)))
      && forallb (λ step, in_set (step_status step) [succeeded]) steps
  end.

Definition opt_json (value : option json) : json := default JNull value.

Definition lab_snapshot (operation : EndpointOperation) (steps : list ModuleOperationStep) : json :=
  JObj [("schema_version", JStr "module_live_test_snapshot_v1");
        ("operation_status", JStr (status_str (op_status operation)));
        ("steps", JList (map (λ step, JObj
           [("sequence", JInt (step_sequence step)); ("capability", JStr (step_capability step));
            ("status", JStr (status_str (step_status step)));
            ("error_code", opt_json (JStr <$> step_error_code step));
            ("safe_result", opt_json (step_safe_result_json step))]) steps))].

Definition record_module_live_test (module_version : uuid * ModuleVersion) (operation_id : uuid) (tested_at : option datetime)
    : Tx (uuid * ModuleLiveTest) :=
  raise_if (negb (str_in (mv_state module_version.2) ["validated"; "lab_accepted"]))
    (ModuleServiceError "module version is not ready for lab acceptance") ;;
  operation ← scalar (λ id _, id =? operation_id);
  operation ← require (snd <$> operation) (ModuleServiceError "lab operation is not a matching terminal module operation");
  platform ← lift_res (lab_platform module_version operation);
  steps ← select (λ _ s, step_operation_id s =? operation_id);
  let steps := map snd (order_by by_sequence steps) in
  raise_if (negb (steps_complete (op_expected_step_count operation) steps))
    (ModuleServiceError "lab operation steps are not complete") ;;
  let snapshot := lab_snapshot operation steps in
  lift_res (_validate_safe_lab_snapshot snapshot) ;;
  tested_at ← now_or tested_at;
  id ← uuid4;
  let row := {| mlt_module_version_id := module_version.1; mlt_platform := platform;
                mlt_endpoint_device_id := op_device_id operation; mlt_operation_id := operation_id; mlt_status := "passed";
                mlt_safe_result_snapshot := snapshot; mlt_tested_at := tested_at |} in
  insert id row ;;
  flush ;;
  mret (id, row).

(** The declared platforms without a passed lab run. *)
Definition _missing_passed_lab_platforms (module_version : uuid * ModuleVersion) : Tx (list string) :=
  declared ← lift_res (_declared_platforms module_version.2);
  passed ← select (λ _ t, (mlt_module_version_id t =? module_version.1) && bool_decide (mlt_status t = "passed"));
  mret (List.filter (λ p, negb (str_in p (map (mlt_platform ∘ snd) passed))) declared).

Definition require_labs (module_version : uuid * ModuleVersion) : Tx unit :=
  missing ← _missing_passed_lab_platforms module_version;
  raise_if (negb (bool_decide (missing = []))) (ModuleServiceError "module version lacks required passed lab evidence").

Definition accept_persisted_module_labs (module_version : uuid * ModuleVersion) : Tx (uuid * ModuleVersion) :=
  raise_if (negb (bool_decide (mv_state module_version.2 = "validated")))
    (ModuleServiceError "module version is not ready for lab acceptance") ;;
  require_labs module_version ;;
  transition_persisted_version module_version "lab_accepted".

Definition publish_persisted_module_version (module_version : uuid * ModuleVersion) : Tx (uuid * ModuleVersion) :=
  raise_if (negb (bool_decide (mv_state module_version.2 = "lab_accepted")))
    (ModuleServiceError "module version is not ready for publication") ;;
  require_labs module_version ;;
  transition_persisted_version module_version "published".

(** ** routes.py *)

Section routes.
Context `{EnrollmentCrypto} (settings : Settings) (request : HttpRequest) (client : string).    (* the client_identifier of the principal *)

(** The join of versions with their definitions. *)
Definition find_module_version (module_key version : string) : Tx (option (uuid * ModuleVersion)) :=
  definitions ← select (λ _ d, bool_decide (mdf_module_key d = module_key));
  scalar (λ _ v, in_set (mv_module_definition_id v) (map fst definitions) && bool_decide (mv_version v = version)).

(** [except ModuleServiceError]: roll back and answer that there is a conflict. *)
Definition conflict_on_service_error {A} (code : string) (work : Tx A) : Tx A :=
  catch work is_module_service_error (λ _, rollback ;; raise (HTTPException 409 code)).

Definition audit_and_commit (action : string) (version_id : uuid) (details : list (pykey * pyval)) : Tx unit :=
  rollback_on_error
    (request_id ← audit_request_id settings request;
     append_audit_event "service" (Some client) action "module_version" (Some (uuid_str version_id)) request_id details None ;;
     commit).

Definition create_module_version (recipe : EndpointRecipeModuleSpecV1) (display_name version : string) : Tx (uuid * ModuleVersion) :=
  in_session (
    created ← conflict_on_service_error "endpoint_module_version_conflict" (persist_draft_version recipe display_name version);
    audit_and_commit "endpoint.module_version_created" created.1
      [(KStr "module_key", PStr (recipe_module_key recipe)); (KStr "version", PStr version); (KStr "state", PStr (mv_state created.2))] ;;
    mret created).

(** The requests on a version that is there: [work] on it, with its audit event. *)
Definition on_module_version {A} (module_key version conflict action : string) (work : uuid * ModuleVersion → Tx A)
    (details : A → list (pykey * pyval)) : Tx A :=
  in_session (
    found ← find_module_version module_key version;
    module_version ← require found (HTTPException 404 "endpoint_module_version_not_found");
    result ← conflict_on_service_error conflict (work module_version);
    audit_and_commit action module_version.1
      ([(KStr "module_key", PStr module_key); (KStr "version", PStr version)] ++ details result) ;;
    mret result).

Definition state_details (v : uuid * ModuleVersion) : list (pykey * pyval) := [(KStr "state", PStr (mv_state v.2))].

Definition validate_module_version (module_key version : string) : Tx (uuid * ModuleValidationRun) :=
  on_module_version module_key version "endpoint_module_validation_conflict" "endpoint.module_validation_completed"
    (λ v, validate_persisted_module_version v None)
    (λ run, [(KStr "status", PStr (mvr_status run.2)); (KStr "error_codes", PList (map PStr (mvr_error_codes run.2)))]).

Definition publish_module_version (module_key version : string) : Tx (uuid * ModuleVersion) :=
  on_module_version module_key version "endpoint_module_publication_conflict" "endpoint.module_published"
    publish_persisted_module_version state_details.

Definition record_module_live_test_route (module_key version : string) (operation_id : uuid) : Tx (uuid * ModuleLiveTest) :=
  on_module_version module_key version "endpoint_module_live_test_conflict" "endpoint.module_live_test_recorded"
    (λ v, record_module_live_test v operation_id None)
    (λ t, [(KStr "platform", PStr (mlt_platform t.2)); (KStr "status", PStr (mlt_status t.2))]).

Definition accept_module_labs (module_key version : string) : Tx (uuid * ModuleVersion) :=
  on_module_version module_key version "endpoint_module_lab_acceptance_conflict" "endpoint.module_labs_accepted"
    accept_persisted_module_labs state_details.

Definition deprecate_module_version (module_key version : string) : Tx (uuid * ModuleVersion) :=
  on_module_version module_key version "endpoint_module_deprecation_conflict" "endpoint.module_deprecated"
    (λ v, transition_persisted_version v "deprecated") state_details.
End routes.
End catalog.

(** * Theorems *)

(** ** What a released version has behind it *)

Definition released (v : ModuleVersion) : bool := str_in (mv_state v) ["lab_accepted"; "published"; "deprecated"].

(** The states change along the lifecycle, and nothing else does. *)
Definition follows (v v' : ModuleVersion) : Prop :=
  v' = v <| mv_state := mv_state v' |> ∧ rtc (λ s t, str_in t (_TRANSITIONS s) = true) (mv_state v) (mv_state v').

#[export] Instance follows_preorder : PreOrder follows.
Proof.
  split; [intros v; split; [by destruct v|done]|]. intros x y z [E1 R1] [E2 R2]. split; [|by etrans].
  rewrite E2 at 1. by rewrite E1.
Qed.

Section histories.
Context `{Contracts} `{EnrollmentCrypto}.

(** Every platform that the recipe of the version declares has a passed lab run. *)
Definition tested (d : DB) (id : uuid) (v : ModuleVersion) : Prop :=
  ∃ recipe, parse_recipe (mv_recipe v) = Some recipe
    ∧ ∀ p, p ∈ recipe_supported_platforms recipe →
        ∃ i t, module_live_tests d !! i = Some t ∧ mlt_module_version_id t = id ∧ mlt_platform t = p ∧ mlt_status t = "passed".

Definition catalog_sound (n : Z) (d : DB) : Prop :=
  fresh n (module_versions d) ∧ fresh n (module_live_tests d)
  ∧ ∀ id v, module_versions d !! id = Some v → released v = true → tested d id v.

Definition catalog_kept (base : gmap uuid ModuleVersion * gmap uuid ModuleLiveTest) (d : DB) : Prop :=
  rows_kept follows base.1 (module_versions d) ∧ base.2 ⊆ module_live_tests d.

Definition catalog_inv (base : gmap uuid ModuleVersion * gmap uuid ModuleLiveTest) (n : Z) (d : DB) : Prop :=
  catalog_sound n d ∧ catalog_kept base d.

Definition catalog_tables (d : DB) := (module_versions d, module_live_tests d).

#[export] Instance catalog_guard : Guard catalog_inv catalog_tables.
Proof.
  split.
  - intros base n n' d [(F1 & F2 & H') K] Hle. split; [|exact K]. split_and!; try apply H'; by eapply fresh_le.
  - intros base n d d' [= E1 E2]. unfold catalog_inv, catalog_sound, catalog_kept, tested. by rewrite E1, E2.
Qed.

Definition catalog_moves : World → World → Prop := upholds catalog_inv.

Lemma catalog_apart {A} (m : Tx A) : keeps (viewed catalog_tables) m → pres seed_le m → pres catalog_moves m.
Proof. apply (upholds_apart catalog_inv catalog_tables). Qed.

Lemma catalog_aside w w' : same (viewed catalog_tables) w w' → seed_le w w' → catalog_moves w w'.
Proof. apply (upholds_aside catalog_inv catalog_tables). Qed.

Lemma tested_grows d d' id v v' :
  tested d id v → module_live_tests d ⊆ module_live_tests d' → mv_recipe v' = mv_recipe v → tested d' id v'.
Proof.
  intros (recipe & Hr & Ht) Hsub E. exists recipe. rewrite E. split; [done|]. intros p Hp. destruct (Ht p Hp) as (i & t & Hi & H').
  exists i, t. split; [by eapply lookup_weaken|done].
Qed.

(** A state changes along the lifecycle. *)
Lemma moves_state id v target w :
  module_versions (db w) !! id = Some v → str_in target (_TRANSITIONS (mv_state v)) = true →
  (released (v <| mv_state := target |>) = true → released v = true ∨ tested (db w) id v) →
  catalog_moves w (update id (λ v : ModuleVersion, v <| mv_state := target |>) w).2.
Proof.
  intros Hv Hedge Htest base [[(F1 & F2 & T) [K1 K2]] Hc]. split; [|exact Hc].
  assert (∀ u, module_versions (db w) !! id = Some u → follows u (u <| mv_state := target |>)) as Hfollows.
  { intros u Hu. simplify_eq. split; [done|]. by apply rtc_once. }
  split; [split_and!|split]; simpl.
  - by apply fresh_alter.
  - done.
  - intros i u Hu Hrel. destruct (decide (i = id)) as [->|Hne].
    + rewrite lookup_alter_eq, Hv in Hu. injection Hu as <-.
      eapply tested_grows; [destruct (Htest Hrel); [by eapply T|done]|done|done].
    + rewrite lookup_alter_ne in Hu by done. eapply tested_grows; [by eapply T|done|done].
  - eapply rows_kept_trans; [intros x y z ??; by etrans|exact K1|]. apply rows_kept_alter; [reflexivity|exact Hfollows].
  - done.
Qed.

Lemma moves_insert_draft id (v : ModuleVersion) w :
  id < seed w → fresh id (module_versions (db w)) → mv_state v = "draft" → catalog_moves w (insert id v w).2.
Proof.
  intros Hid Hf Hs base [[(F1 & F2 & T) [K1 K2]] Hc]. split; [|exact Hc]. split; [split_and!|split]; simpl; try done.
  - by apply fresh_insert.
  - intros i u [[<- <-]|[_ Hu]]%lookup_insert_Some Hrel; [unfold released in Hrel; by rewrite Hs in Hrel|by eapply T].
  - eapply rows_kept_trans; [intros x y z ??; by etrans|exact K1|]. apply rows_kept_insert; [reflexivity|by apply fresh_lookup].
Qed.

Lemma moves_insert_test id (t : ModuleLiveTest) w :
  id < seed w → fresh id (module_live_tests (db w)) → catalog_moves w (insert id t w).2.
Proof.
  intros Hid Hf base [[(F1 & F2 & T) [K1 K2]] Hc]. split; [|exact Hc].
  assert (module_live_tests (db w) ⊆ <[id := t]> (module_live_tests (db w))) as Hsub by by apply insert_subseteq, fresh_lookup.
  split; [split_and!|split]; simpl; try done.
  - by apply fresh_insert.
  - intros i u Hu Hrel. eapply tested_grows; [by eapply T|exact Hsub|done].
  - by etrans.
Qed.

(** *** The operations of the service *)

Definition has_row (w : World) (v : uuid * ModuleVersion) : Prop := module_versions (db w) !! v.1 = Some v.2.

Lemma transition_ok s t target : transition_module_version s target = Ok t → t = target ∧ str_in target (_TRANSITIONS s) = true.
Proof. unfold transition_module_version. destruct (str_in _ _) eqn:E; [|done]. by intros [= <-]. Qed.

Lemma transition_moves v target w :
  has_row w v → (released (v.2 <| mv_state := target |>) = true → released v.2 = true ∨ tested (db w) v.1 v.2) →
  wp (transition_persisted_version v target) (λ _, catalog_moves w) w.
Proof.
  intros Hv Ht. unfold transition_persisted_version. apply wp_bind, wp_lift_res.
  destruct (transition_module_version _ _) as [t|e] eqn:E; wp_k; [|done]. apply transition_ok in E as [-> Hedge].
  apply wp_bind, wp_update. wp_k. apply wp_trans; [apply _| |].
  - by eapply moves_state.
  - apply wp_of_pres, pres_bind; [apply _|apply pres_flush; apply _|]. intros _. apply pres_ret. apply _.
Qed.

(** Parts that only read. *)
Lemma wp_reads {A B} (m : Tx A) (k : A → Tx B) w : pres unmoved m → (∀ a, wp (k a) (λ _, catalog_moves w) w) →
  wp (m ≫= k) (λ _, catalog_moves w) w.
Proof.
  intros Hm Hk. apply (wp_bind_pres unmoved); [done|intros a w' ->; apply Hk|by intros e w' ->].
Qed.

Lemma missing_labs v w :
  wp (require_labs v) (λ r w', w' = w ∧ match r with Ok _ => tested (db w) v.1 v.2 | Exn _ => True end) w.
Proof.
  unfold require_labs, _missing_passed_lab_platforms. apply wp_bind, wp_bind, wp_lift_res. unfold _declared_platforms.
  destruct (parse_recipe (mv_recipe v.2)) as [recipe|] eqn:Er; wp_k; [|done].
  apply wp_bind, wp_select. intros passed _ Hpassed. wp_k. apply wp_ret. wp_k. apply wp_raise_if; [done|]. intros Hmissing. split; [done|].
  propify. exists recipe. split; [done|]. intros p Hp. destruct (str_in p (map (mlt_platform ∘ snd) passed)) eqn:Ein.
  - unfold str_in in Ein. propify. apply list_elem_of_fmap in Ein as ([i t] & -> & Ht). apply Hpassed in Ht as [Ht Hok]. propify.
    exists i, t. by split_and!.
  - exfalso. assert (p ∈ List.filter (λ p, negb (str_in p (map (mlt_platform ∘ snd) passed))) (recipe_supported_platforms recipe)) as Hin.
    { apply list_elem_of_In, filter_In. split; [by apply list_elem_of_In|]. by rewrite Ein. }
    rewrite Hmissing in Hin. by apply elem_of_nil in Hin.
Qed.

Lemma accept_moves v w : has_row w v → wp (accept_persisted_module_labs v) (λ _, catalog_moves w) w.
Proof.
  intros Hv. unfold accept_persisted_module_labs. apply wp_bind, wp_raise_if; intros _; wp_k; [done|].
  apply wp_bind. eapply wp_mono; [apply missing_labs|]. intros [[]|e] w' [-> Ht]; wp_k; [|done]. apply transition_moves; [done|by right].
Qed.

Lemma publish_moves v w : has_row w v → wp (publish_persisted_module_version v) (λ _, catalog_moves w) w.
Proof.
  intros Hv. unfold publish_persisted_module_version. apply wp_bind, wp_raise_if; intros _; wp_k; [done|].
  apply wp_bind. eapply wp_mono; [apply missing_labs|]. intros [[]|e] w' [-> Ht]; wp_k; [|done]. apply transition_moves; [done|by right].
Qed.

Lemma deprecate_moves v w : has_row w v → wp (transition_persisted_version v "deprecated") (λ _, catalog_moves w) w.
Proof.
  intros Hv. destruct (released v.2) eqn:Hr; [by apply transition_moves; [|left]|].
  unfold transition_persisted_version. apply wp_bind, wp_lift_res.
  destruct (transition_module_version _ _) as [t|e] eqn:E; wp_k; [|done]. exfalso.
  apply transition_ok in E as [_ Hedge]. unfold released, _TRANSITIONS in *. cbn [assoc] in Hedge.
  repeat (destruct (decide (_ = mv_state v.2)) as [E|_] in Hedge; [rewrite <- E in Hr; done|]). done.
Qed.

Lemma validate_moves v completed w : has_row w v → wp (validate_persisted_module_version v completed) (λ _, catalog_moves w) w.
Proof.
  intros Hv. unfold validate_persisted_module_version. apply wp_bind, wp_raise_if; intros _; wp_k; [done|].
  apply wp_bind, wp_lift_res. destruct (static_error_codes _) as [codes|e]; wp_k; [|done].
  set (target := if negb (bool_decide (codes = [])) then "validation_failed" else "validated").
  assert (released (v.2 <| mv_state := target |>) = false) as Hrel by (subst target; by destruct (negb _)).
  apply wp_bind. eapply (wp_mono _ (λ _ w', catalog_moves w w')).
  - unfold when. destruct (negb (bool_decide (mv_state v.2 = target))); [|by apply wp_ret].
    apply wp_bind, wp_lift_res. destruct (transition_module_version _ _) as [t|e] eqn:E; wp_k; [|done]. apply transition_ok in E as [-> Hedge].
    apply wp_update. eapply moves_state; [exact Hv|done|]. by rewrite Hrel.
  - intros [[]|e] w1 Hm; wp_k; [|done]. apply wp_trans; [apply _|done|]. apply wp_of_pres, catalog_apart; unfold now_or; frame.
Qed.

Lemma record_moves v operation_id tested_at w : wp (record_module_live_test v operation_id tested_at) (λ _, catalog_moves w) w.
Proof.
  unfold record_module_live_test. apply wp_reads; [frame|]. intros _. apply wp_reads; [frame|]. intros found.
  apply wp_reads; [frame|]. intros operation. apply wp_reads; [frame|]. intros platform. apply wp_reads; [frame|]. intros steps.
  apply wp_reads; [frame|]. intros _. apply wp_reads; [frame|]. intros _.
  apply (wp_bind_pres (same (λ w, (db w, committed w, seed w)))); [unfold now_or; frame| |
    intros e w' [= E1 E2 E3]; apply catalog_aside; [unfold same, viewed; congruence|unfold seed_le; lia]].
  intros now w1 [= D C S]. apply wp_trans; [apply _|apply catalog_aside; [unfold same, viewed; congruence|unfold seed_le; lia]|].
  apply wp_bind, wp_uuid4. wp_k. apply wp_bind, wp_insert. wp_k. apply wp_trans; [apply _| |].
  - intros base Hinv. pose proof Hinv as [[(_ & F2 & _) _] _].
    apply (moves_insert_test (seed w1) _ (w1 <| seed := seed w1 + 1 |>)); simpl; [lia|done|].
    revert Hinv. apply catalog_aside; [done|]. unfold seed_le; simpl. lia.
  - apply wp_of_pres, pres_bind; [apply _|apply pres_flush; apply _|]. intros _. apply pres_ret. apply _.
Qed.

Lemma draft_moves recipe name version : pres catalog_moves (persist_draft_version recipe name version).
Proof.
  unfold persist_draft_version. apply pres_bind; [apply _|apply catalog_apart; frame|]. intros _.
  apply pres_bind; [apply _|apply catalog_apart; frame|]. intros definition.
  apply pres_bind; [apply _|apply catalog_apart; frame|]. intros definition_id.
  apply pres_bind; [apply _|apply catalog_apart; frame|]. intros existing.
  apply pres_bind; [apply _|apply catalog_apart; frame|]. intros _. apply pres_bind; [apply _|apply (upholds_utcnow catalog_inv catalog_tables)|]. intros now.
  apply pres_of_wp. intros w. apply wp_bind, wp_uuid4. wp_k. apply wp_bind, wp_insert. wp_k. apply wp_trans; [apply _| |].
  - intros base Hinv. pose proof Hinv as [[(F1 & _) _] _].
    apply (moves_insert_draft (seed w) _ (w <| seed := seed w + 1 |>)); simpl; [lia|done|done|].
    revert Hinv. apply catalog_aside; [done|]. unfold seed_le; simpl. lia.
  - apply wp_of_pres, pres_bind; [apply _|apply pres_flush; apply _|]. intros _. apply pres_ret. apply _.
Qed.

(** *** The requests *)

Section requests.
Context (settings : Settings) (request : HttpRequest) (client : string).

Lemma conflict_moves {A} code (work : Tx A) w :
  wp work (λ _, catalog_moves w) w → wp (conflict_on_service_error code work) (λ _, catalog_moves w) w.
Proof.
  intros Hw. unfold conflict_on_service_error, catch. apply wp_try. eapply wp_mono; [exact Hw|]. intros [a|e] w1 Hm; [done|].
  destruct (is_module_service_error e); [|done]. apply wp_trans; [apply _|done|]. apply wp_of_pres.
  apply pres_bind; [apply _|apply upholds_rollback|]. intros _. apply pres_raise. apply _.
Qed.

Lemma audit_moves action id details : pres catalog_moves (audit_and_commit settings request client action id details).
Proof.
  apply upholds_rollback_on_error. apply pres_bind; [apply _|apply catalog_apart; unfold audit_request_id; frame|]. intros request_id.
  apply pres_bind; [apply _|apply catalog_apart; frame|]. intros _. apply upholds_commit.
Qed.

Lemma create_moves recipe name version : pres catalog_moves (create_module_version settings request client recipe name version).
Proof.
  apply upholds_in_session, pres_bind; [apply _|apply pres_of_wp; intros w; apply conflict_moves, wp_of_pres, draft_moves|].
  intros created. apply pres_bind; [apply _|apply audit_moves|]. intros _. apply pres_ret. apply _.
Qed.

Lemma find_finds key version w :
  wp (find_module_version key version) (λ r w', w' = w ∧ match r with Ok (Some v) => has_row w v | _ => True end) w.
Proof.
  unfold find_module_version. apply wp_bind, wp_select. intros definitions _ _. wp_k. apply wp_scalar; [|done]. by intros id v Hv _.
Qed.

Lemma on_version_moves {A} key version conflict action (work : uuid * ModuleVersion → Tx A) details :
  (∀ v w, has_row w v → wp (work v) (λ _, catalog_moves w) w) →
  pres catalog_moves (on_module_version settings request client key version conflict action work details).
Proof.
  intros Hwork. apply upholds_in_session, pres_of_wp. intros w. apply wp_bind. eapply wp_mono; [apply find_finds|].
  intros [found|e] w1 [-> Hf]; wp_k; [|done]. apply wp_bind, wp_require; intros; wp_k; [|done]. subst found.
  apply wp_bind. eapply wp_mono; [by apply conflict_moves, Hwork|]. intros [result|e] w1 Hm; wp_k; [|done].
  apply wp_trans; [apply _|done|]. apply wp_of_pres, pres_bind; [apply _|apply audit_moves|]. intros _. apply pres_ret. apply _.
Qed.

Lemma validate_requests key version : pres catalog_moves (validate_module_version settings request client key version).
Proof. apply on_version_moves. intros v w Hv. by apply validate_moves. Qed.
Lemma live_test_requests key version operation_id :
  pres catalog_moves (record_module_live_test_route settings request client key version operation_id).
Proof. apply on_version_moves. intros v w _. apply record_moves. Qed.
Lemma accept_requests key version : pres catalog_moves (accept_module_labs settings request client key version).
Proof. apply on_version_moves. exact accept_moves. Qed.
Lemma publish_requests key version : pres catalog_moves (publish_module_version settings request client key version).
Proof. apply on_version_moves. exact publish_moves. Qed.
Lemma deprecate_requests key version : pres catalog_moves (deprecate_module_version settings request client key version).
Proof. apply on_version_moves. exact deprecate_moves. Qed.
End requests.

(** The requests of service clients, and other work. *)
Inductive catalog_step (settings : Settings) : World → World → Prop :=
| step_create_module w request client recipe name version :
    catalog_step settings w (create_module_version settings request client recipe name version w).2
| step_validate_module w request client key version :
    catalog_step settings w (validate_module_version settings request client key version w).2
| step_live_test w request client key version operation_id :
    catalog_step settings w (record_module_live_test_route settings request client key version operation_id w).2
| step_accept_labs w request client key version :
    catalog_step settings w (accept_module_labs settings request client key version w).2
| step_publish w request client key version :
    catalog_step settings w (publish_module_version settings request client key version w).2
| step_deprecate w request client key version :
    catalog_step settings w (deprecate_module_version settings request client key version w).2
| step_elsewhere w w' : same (viewed catalog_tables) w w' → seed_le w w' → catalog_step settings w w'.

Lemma catalog_step_moves settings w w' : catalog_step settings w w' → catalog_moves w w'.
Proof.
  intros [| | | | | |]; [apply create_moves|apply validate_requests|apply live_test_requests|apply accept_requests
                          |apply publish_requests|apply deprecate_requests|by apply catalog_aside].
Qed.

(** C38: whatever service clients ask of the module catalog, in any order, a version
    that is accepted, published or deprecated has a passed lab run on every
    platform that its recipe declares; a version never changes but along the
    lifecycle of its state, and a recorded lab run never changes. *)
Theorem released_versions_were_tested settings w w' :
  catalog_sound (seed w) (committed w) → rtc (catalog_step settings) (stored w) w' →
  (∀ id v, module_versions (committed w') !! id = Some v → released v = true → tested (committed w') id v)
  ∧ rows_kept follows (module_versions (committed w)) (module_versions (committed w'))
  ∧ module_live_tests (committed w) ⊆ module_live_tests (committed w').
Proof.
  intros Hs Hr. assert (catalog_moves (stored w) w') as Hm.
  { induction Hr as [x|x y z Hxy _ IH]; [done|]. etrans; [by eapply catalog_step_moves|done]. }
  destruct (Hm (module_versions (committed w), module_live_tests (committed w))) as [_ [(_ & _ & T) [K1 K2]]].
  - split; (split; [exact Hs|]); (split; [apply rows_kept_refl; reflexivity|done]).
  - by split_and!.
Qed.

(** ** Lab runs *)

(** A finished lab run of the version on the platform: every planned step of the
    operation is there and has succeeded, and no other. *)
Definition lab_run (d : DB) (v : uuid * ModuleVersion) (operation_id : uuid) (platform : string) : Prop :=
  ∃ o n recipe, endpoint_operations d !! operation_id = Some o
    ∧ op_capability o = "endpoint.module.recipe" ∧ op_module_version_id o = Some v.1
    ∧ get_field "execution_mode" (op_parameters o) = Some (JStr "lab")
    ∧ get_field "execution_platform" (op_parameters o) = Some (JStr platform)
    ∧ op_status o = succeeded ∧ is_some (op_completed_at o) = true
    ∧ parse_recipe (mv_recipe v.2) = Some recipe ∧ platform ∈ recipe_supported_platforms recipe
    ∧ op_expected_step_count o = Some n ∧ 1 <= n <= 8
    ∧ (∀ i, 0 <= i < n → ∃ sid s, endpoint_operation_steps d !! sid = Some s ∧ step_operation_id s = operation_id ∧ step_sequence s = i)
    ∧ ∀ sid s, endpoint_operation_steps d !! sid = Some s → step_operation_id s = operation_id →
        step_status s = succeeded ∧ 0 <= step_sequence s < n.

Lemma lab_platform_spec v o platform :
  lab_platform v o = Ok platform →
  op_capability o = "endpoint.module.recipe" ∧ op_module_version_id o = Some v.1
  ∧ get_field "execution_mode" (op_parameters o) = Some (JStr "lab")
  ∧ get_field "execution_platform" (op_parameters o) = Some (JStr platform)
  ∧ op_status o = succeeded ∧ is_some (op_completed_at o) = true
  ∧ ∃ recipe, parse_recipe (mv_recipe v.2) = Some recipe ∧ platform ∈ recipe_supported_platforms recipe.
Proof.
  unfold lab_platform. destruct (bool_decide (op_capability o = _)) eqn:E1; simpl; [|done].
  destruct (bool_decide (op_module_version_id o = _)) eqn:E2; simpl; [|done].
  destruct (json_eqb _ _) eqn:E3; simpl; [|done].
  destruct (get_field "execution_platform" (op_parameters o)) as [[]|] eqn:E4; try done.
  destruct (str_in s _) eqn:E5; simpl; [|done]. unfold _declared_platforms.
  destruct (parse_recipe (mv_recipe v.2)) as [recipe|] eqn:Er; simpl; [|done].
  destruct (str_in s (recipe_supported_platforms recipe)) eqn:E6; simpl; [|done].
  destruct (in_set (op_status o) [succeeded]) eqn:E7; simpl; [|done].
  destruct (op_completed_at o) eqn:E8; simpl; [|done]. intros [= <-]. unfold str_in in E6. propify. split_and!; try done.
  - destruct (get_field "execution_mode" (op_parameters o)) as [[]|]; try done. simpl in E3. propify. by subst.
  - by destruct (op_status o).
  - by exists recipe.
Qed.

Lemma steps_complete_spec expected (steps : list ModuleOperationStep) :
  steps_complete expected steps = true →
  ∃ n, expected = Some n ∧ 1 <= n <= 8 ∧ (∀ i, 0 <= i < n → ∃ s, s ∈ steps ∧ step_sequence s = i)
    ∧ ∀ s, s ∈ steps → step_status s = succeeded ∧ 0 <= step_sequence s < n.
Proof.
  unfold steps_complete. destruct expected as [n|]; [|done]. intros Hc.
  apply andb_prop in Hc as [Hc Hall]. apply andb_prop in Hc as [Hc Hseq]. propify. exists n. split_and!; try done.
  - intros i Hi. assert (i ∈ map step_sequence steps) as Hin.
    { rewrite Hseq. apply list_elem_of_In, in_map_iff. exists (Z.to_nat i). split; [lia|]. apply in_seq. lia. }
    apply list_elem_of_fmap in Hin as (s & -> & Hs). by exists s.
  - intros s Hs. rewrite forallb_forall in Hall. pose proof (Hall s (proj1 (list_elem_of_In _ _) Hs)) as Hok.
    split; [by destruct (step_status s)|]. apply (list_elem_of_fmap_2 step_sequence) in Hs. change (step_sequence <$> steps) with (map step_sequence steps) in Hs.
    rewrite Hseq in Hs. apply list_elem_of_In, in_map_iff in Hs as (k & <- & Hk%in_seq). lia.
Qed.

(** C39: a lab run is recorded as passed only for a version that waits for its labs
    or has been accepted, of an operation in lab mode on that version and on a
    platform that its recipe declares, which has succeeded with all of its planned
    steps; and what is kept of its results holds no forbidden key and is bounded. *)
Theorem lab_evidence_is_of_a_finished_run v operation_id tested_at w :
  wp (record_module_live_test v operation_id tested_at) (λ r w', committed w' = committed w ∧
    match r with
    | Ok (id, t) =>
        module_live_tests (db w') = <[id := t]> (module_live_tests (db w))
        ∧ str_in (mv_state v.2) ["validated"; "lab_accepted"] = true
        ∧ mlt_module_version_id t = v.1 ∧ mlt_operation_id t = operation_id ∧ mlt_status t = "passed"
        ∧ lab_run (db w) v operation_id (mlt_platform t)
        ∧ _contains_forbidden_lab_snapshot_key (mlt_safe_result_snapshot t) = false
        ∧ Z.of_nat (String.length (json_compact (mlt_safe_result_snapshot t))) <= _SAFE_LAB_SNAPSHOT_MAX_BYTES
    | Exn _ => True
    end) w.
Proof.
  unfold record_module_live_test. apply wp_bind, wp_raise_if; [done|]. intros Hstate. wp_k. propify.
  apply wp_bind. eapply (wp_mono _ (λ r w', w' = w ∧ match r with Ok (Some (i, o)) => i = operation_id ∧ endpoint_operations (db w) !! i = Some o | _ => True end)).
  { apply wp_scalar; [|done]. intros i o Ho Hi. propify. done. }
  intros [found|e] w1 [-> Hf]; wp_k; [|done]. apply wp_bind, wp_require; [intros o Ho|done]. wp_k.
  destruct found as [[i o']|]; [|done]. simpl in Ho. injection Ho as ->. destruct Hf as [-> Ho].
  apply wp_bind, wp_lift_res. destruct (lab_platform v o) as [platform|] eqn:Hp; wp_k; [|done].
  apply lab_platform_spec in Hp as (P1 & P2 & P3 & P4 & P5 & P6 & recipe & P7 & P8).
  apply wp_bind, wp_select. intros rows _ Hrows. wp_k. apply wp_bind, wp_raise_if; [done|]. intros Hsteps. wp_k. propify.
  apply steps_complete_spec in Hsteps as (n & Hn & Hb & Hex & Hall).
  apply wp_bind, wp_lift_res. destruct (_validate_safe_lab_snapshot _) as [[]|] eqn:Hs; wp_k; [|done].
  unfold _validate_safe_lab_snapshot in Hs. set (snapshot := lab_snapshot o _) in *.
  destruct (_contains_forbidden_lab_snapshot_key snapshot) eqn:Hkeys; [done|]. destruct (_ <? _) eqn:Hsize in Hs; [done|]. propify.
  apply (wp_bind_pres (same (λ w, (db w, committed w)))); [unfold now_or; frame| |by intros e w' [= _ ->]].
  intros now w1 [= D C]. apply wp_bind, wp_uuid4. wp_k. apply wp_bind, wp_insert. wp_k.
  apply wp_bind, wp_flush; [intros _; wp_k; apply wp_ret|by intros name _]. split; [done|]. simpl. rewrite D. split_and!; try done.
  assert (∀ s, s ∈ map snd (order_by by_sequence rows) ↔ ∃ sid, endpoint_operation_steps (db w) !! sid = Some s ∧ step_operation_id s = operation_id) as Hmem.
  { intros s. rewrite list_elem_of_In, in_map_iff. split.
    - intros ([sid s'] & <- & Hin%list_elem_of_In). rewrite elem_of_order_by in Hin. apply Hrows in Hin as [Hin Hop]. propify. by exists sid.
    - intros (sid & Hsid & Hop). exists (sid, s). split; [done|]. apply list_elem_of_In, elem_of_order_by, Hrows. split; [done|]. by apply Z.eqb_eq. }
  exists o, n, recipe. split_and!; try done; try lia.
  - intros j Hj. destruct (Hex j Hj) as (s & (sid & Hsid & Hop)%Hmem & Hseq). by exists sid, s.
  - intros sid s Hsid Hop. apply (Hall s), Hmem. by exists sid.
Qed.

(** The version that a key and a version number name. *)
Definition names_version (d : DB) (key version : string) (id : uuid) (v : ModuleVersion) : Prop :=
  module_versions d !! id = Some v ∧ mv_version v = version
  ∧ ∃ definition, module_definitions d !! mv_module_definition_id v = Some definition ∧ mdf_module_key definition = key.

Lemma find_module_version_spec key version w :
  wp (find_module_version key version) (λ r w', w' = w ∧ match r with
    | Ok (Some (id, v)) => names_version (db w) key version id v
    | Ok None => ∀ id v, ¬ names_version (db w) key version id v
    | Exn _ => False
    end) w.
Proof.
  unfold find_module_version. apply wp_bind, wp_select. intros definitions _ Hdefs. wp_k.
  assert (∀ v, in_set (mv_module_definition_id v) (map fst definitions) = true ↔
    ∃ d, module_definitions (db w) !! mv_module_definition_id v = Some d ∧ mdf_module_key d = key) as Hin.
  { intros v. unfold in_set. rewrite bool_decide_eq_true, list_elem_of_fmap. split.
    - intros ([did d] & E & [Hd Hk]%Hdefs). simpl in E. propify. rewrite E. by exists d.
    - intros (d & Hd & Hk). exists (mv_module_definition_id v, d). split; [done|]. apply Hdefs.
      split; [done|by apply bool_decide_eq_true]. }
  apply wp_scalar.
  - intros id v Hv [Hm1%Hin Hm2%bool_decide_eq_true]%andb_prop. by split_and!.
  - intros Hnone. split; [done|]. intros id v (Hv & Hver & Hd%Hin). specialize (Hnone id v Hv).
    by rewrite Hd, (bool_decide_eq_true_2 _ Hver) in Hnone.
Qed.

(** C40: deprecating a version that is not published is refused with the error of the
    lifecycle and changes nothing: when the module and version asked for exist, and are not
    published, what leaves the route is that error itself and not the conflict that the
    route answers the failures of its service with; when they do not exist it is the 404. *)
Theorem deprecation_is_refused_without_an_answer settings request client key version w :
  (∀ id v, names_version (committed w) key version id v → mv_state v ≠ "published") →
  wp (deprecate_module_version settings request client key version) (λ r w', committed w' = committed w
    ∧ ((∃ id v, names_version (committed w) key version id v) → r = Exn ModuleLifecycleError)
    ∧ ((∀ id v, ¬ names_version (committed w) key version id v) →
         r = Exn (HTTPException 404 "endpoint_module_version_not_found"))) w.
Proof.
  intros Hnone. unfold deprecate_module_version, on_module_version. apply wp_in_session, wp_bind. fold (stored w).
  eapply wp_mono; [apply find_module_version_spec|].
  intros [[[id v]|]|e] w1 [-> Hf]; wp_k; [| |done].
  2: { apply wp_bind, wp_require; [done|intros _]. split_and!; [done|intros (id & v & Hv); by destruct (Hf id v)|done]. }
  apply wp_bind, wp_require; [intros ? [= <-]|done]. wp_k. pose proof (Hnone id v Hf) as Hstate.
  apply wp_bind. unfold conflict_on_service_error, catch. apply wp_try. unfold transition_persisted_version.
  apply wp_bind, wp_lift_res. simpl. destruct (transition_module_version _ _) as [t|e] eqn:E; wp_k.
  - exfalso. apply transition_ok in E as [_ Hedge]. unfold _TRANSITIONS in Hedge. cbn [assoc] in Hedge.
    repeat (destruct (decide (_ = mv_state v)) as [E|_] in Hedge; [first [done|by rewrite <- E in Hstate]|]). done.
  - unfold transition_module_version in E. destruct (str_in _ _); simplify_eq. simpl. split_and!; [done..|].
    intros Hno. by destruct (Hno id v).
Qed.
End histories.

(** ** Witnesses *)

Definition toy_module (state : string) : ModuleVersion := {|
  mv_created_at := utc_datetime 0; mv_module_definition_id := 61; mv_version := "1.0.0"; mv_state := state; mv_recipe := JNull |}.

Definition toy_lab (state : string) : World :=
  let o := demo_module_operation
             <| op_parameters := JObj [("execution_mode", JStr "lab"); ("execution_platform", JStr "windows_amd64")] |>
             <| op_status := succeeded |> <| op_completed_at := Some (utc_datetime 3) |> in
  let d := demo_module_fleet
    <| module_definitions := {[ 61 := {| mdf_module_key := "demo.disk"; mdf_display_name := "Disk" |} ]} |>
    <| module_versions := {[ 60 := toy_module state ]} |>
    <| endpoint_operations := {[ 50 := o ]} |>
    <| endpoint_operation_steps := {[ 51 := demo_module_step 0 succeeded (Some 70) (Some (utc_datetime 1));
                                      52 := demo_module_step 1 succeeded (Some 71) (Some (utc_datetime 2)) ]} |> in
  {| committed := d; db := d; seed := 1000; clock := λ n, Z.of_nat n; ticks := 0 |}.

Definition toy_state_of (w : World) : option string := mv_state <$> module_versions (committed w) !! 60.

Example released_step_by_step :
  let live := record_module_live_test_route (H := demo_contracts) (H0 := toy_crypto) toy_settings (toy_request None) "svc" "demo.disk" "1.0.0" 50 in
  let accept := accept_module_labs (H := demo_contracts) (H0 := toy_crypto) toy_settings (toy_request None) "svc" "demo.disk" "1.0.0" in
  let publish := publish_module_version (H := demo_contracts) (H0 := toy_crypto) toy_settings (toy_request None) "svc" "demo.disk" "1.0.0" in
  let deprecate := deprecate_module_version (H0 := toy_crypto) toy_settings (toy_request None) "svc" "demo.disk" "1.0.0" in
  (accept (toy_lab "validated")).1 = Exn (HTTPException 409 "endpoint_module_lab_acceptance_conflict")
  ∧ toy_state_of (deprecate (publish (accept (live (toy_lab "validated")).2).2).2).2 = Some "deprecated"
  ∧ (deprecate (toy_lab "validated")).1 = Exn ModuleLifecycleError.
Proof. vm_compute. done. Qed.

Lemma released_versions_were_tested_witness :
  let w := toy_lab "validated" in
  let w' := (record_module_live_test_route (H := demo_contracts) (H0 := toy_crypto) toy_settings (toy_request None) "svc"
               "demo.disk" "1.0.0" 50 (stored w)).2 in
  (∀ id v, module_versions (committed w') !! id = Some v → released v = true → tested (H := demo_contracts) (committed w') id v)
  ∧ rows_kept follows (module_versions (committed w)) (module_versions (committed w'))
  ∧ module_live_tests (committed w) ⊆ module_live_tests (committed w').
Proof.
  apply (released_versions_were_tested (H := demo_contracts) (H0 := toy_crypto) toy_settings (toy_lab "validated")).
  - split_and!.
    + intros id v Hv. apply (lookup_singleton_Some 60 id (toy_module "validated") v) in Hv as [<- _]. reflexivity.
    + intros id v Hv. by apply (lookup_empty_Some id v) in Hv.
    + intros id v Hv. apply (lookup_singleton_Some 60 id (toy_module "validated") v) in Hv as [_ <-]. discriminate.
  - apply rtc_once, step_live_test.
Defined.

(** A validated version exists, and its deprecation ends in the error of the lifecycle. *)
Lemma deprecation_is_refused_without_an_answer_witness :
  let w := toy_lab "validated" in
  let deprecate := deprecate_module_version (H0 := toy_crypto) toy_settings (toy_request None) "svc" "demo.disk" "1.0.0" in
  (deprecate w).1 = Exn ModuleLifecycleError ∧ committed (deprecate w).2 = committed w.
Proof.
  pose proof (deprecation_is_refused_without_an_answer (H0 := toy_crypto) toy_settings (toy_request None) "svc" "demo.disk" "1.0.0"
    (toy_lab "validated")) as H.
  destruct H as (Hc & Hr & _).
  - intros id v (Hv & _). apply (lookup_singleton_Some 60 id (toy_module "validated") v) in Hv as [_ <-]. discriminate.
  - split; [|exact Hc]. apply Hr. exists 60, (toy_module "validated"). repeat split.
    exists {| mdf_module_key := "demo.disk"; mdf_display_name := "Disk" |}. by split.
Defined.
