(* ===== verification/DeviceBinding.v ===== *)
(** * Device binding (endpoint_server/device_binding/service.py, routes.py)

    A device shows a short code, and a service that is told the code learns the
    identity of the device: codes live ten minutes, are redeemed once, and every
    attempt costs from budgets of fixed windows.  Also the projection of a
    context snapshot (context/projection.py) that the answer reads.  The primary
    key of a budget, its bucket, is a unique column here. *)

From S2P Require Import Prelude Store Session AuditLog Contracts Semver Updates Calendar Credentials Identity.
From S2P Require Import Enrollment EnrollmentRoutes ServiceTokens History.

(** ** Requests of a device (endpoint_server/updates/agent_routes.py)

    The bearer of a device, its check before the work and the second one under
    the locks of the domain, and the update routes that use both.  The download
    of an artifact is left out: it is the file system around one query. *)

Record DevicePrincipal := {
  dpr_device : uuid * Device;
  dpr_credential : uuid * DeviceCredential
}.

Definition _operation_unavailable : exn := HTTPException 404 "Update operation unavailable".

(** [_agent_error], for the errors of the update service; others stay. *)
Definition _agent_error (e : exn) : exn :=
  match e with
  | UpdateConflict _ => HTTPException 409 "Update operation conflicts with current state"
  | UpdateNotFound _ | UpdateStateError _ | UpdateValidationError _ => _operation_unavailable
  | _ => e
  end.

Section device_auth.
Context `{Contracts} `{EnrollmentCrypto} `{IpText} `{UpdateContracts} (settings : Settings).

Definition _require_agent_source (request : HttpRequest) : Tx unit :=
  match observed_client_address (trusted_proxy_cidrs settings) request with
  | Exn e => raise (if is_value_error e then _invalid_device_credential else e)
  | Ok source =>
      raise_if (negb (existsb (in_network source) (allowed_agent_cidrs settings))) _invalid_device_credential
  end.

Definition _authenticate_device (request : HttpRequest) : Tx DevicePrincipal :=
  let pepper := device_token_pepper settings in
  _require_agent_source request ;;
  token ← _bearer_token request _invalid_device_credential;
  digest ← bearer_digest settings token;
  credentials ← select (λ _ c, bool_decide (crd_token_digest c = digest)
                               || bool_decide (crd_pending_token_digest c = Some digest));
  match take 2 (order_by (λ a b, a.1 <=? b.1) credentials) with
  | [credential] =>
      checked_at ← utcnow;
      raise_if (negb (device_token_matches token (crd_token_digest credential.2) pepper
                      || match crd_pending_token_digest credential.2 with
                         | Some pending => device_token_matches token pending pepper
                         | None => false
                         end)
                || negb (device_credential_accepts_token credential.2 token pepper checked_at))
        _invalid_device_credential ;;
      found ← scalar (λ id d, (id =? crd_device_id credential.2) && is_none (dev_retired_at d));
      device ← require found _invalid_device_credential;
      mret {| dpr_device := device; dpr_credential := credential |}
  | _ => raise _invalid_device_credential
  end.

Definition _revalidate_device_principal (request : HttpRequest) (principal : DevicePrincipal) : Tx unit :=
  _require_agent_source request ;;
  token ← _bearer_token request _invalid_device_credential;
  device ← scalar (λ id d, (id =? (dpr_device principal).1) && is_none (dev_retired_at d));
  credential ← scalar (λ id c, (id =? (dpr_credential principal).1)
                               && (crd_device_id c =? (dpr_device principal).1));
  checked_at ← utcnow;
  match device, credential with
  | Some _, Some credential =>
      raise_if (negb (device_credential_accepts_token credential.2 token (device_token_pepper settings) checked_at))
        _invalid_device_credential
  | _, _ => raise _invalid_device_credential
  end.

(** ** GET /agent/v1/updates/recommendation; [None] is 204 *)

Definition get_update_recommendation (platform : string) (request : HttpRequest)
    : Tx (option AgentUpdateRecommendationV1) :=
  in_session (
    principal ← _authenticate_device request;
    recommendation_for_device (dpr_device principal).1 platform None).

(** ** POST /agent/v1/updates/{operation_id}/ack and /reports *)

(** Their common frame: authenticate, do the work with its second check, commit;
    roll back on every error. *)
Definition agent_mutation {A} (request : HttpRequest) (work : DevicePrincipal → string → Tx unit → Tx A) : Tx unit :=
  in_session (try_except
    (principal ← _authenticate_device request;
     request_id ← audit_request_id settings request;
     work principal request_id (_revalidate_device_principal request principal) ;;
     commit)
    (λ e, Some (rollback ;; raise (_agent_error e)))).

Definition acknowledge_update (operation_id : uuid) (body : target_status) (request : HttpRequest) : Tx unit :=
  agent_mutation request (λ principal request_id revalidate,
    record_ack (dpr_device principal).1 operation_id body request_id None revalidate).

Definition report_update_outcome (operation_id : uuid) (body : AgentUpdateReportV1) (request : HttpRequest) : Tx unit :=
  agent_mutation request (λ principal request_id revalidate,
    record_report (dpr_device principal).1 operation_id body request_id None revalidate).
End device_auth.

(** [secrets.randbelow], by the number of the call; and
    [DeviceContextEnvelopeV1.model_validate], [None] for a ValidationError. *)
Class BindingCodes := { randbelow : Z → Z → Z }.
Class ContextEnvelopes := { model_validate_envelope : json → option DeviceContextEnvelopeV1 }.

(** ** service.py *)

Definition PURPOSE : string := "helpdesk_device_binding".
Definition TTL_SECONDS : Z := 600.
Definition _BINDING_CONTEXT : string := "endpoint:helpdesk-device-binding:v1" +:+ nul.

Record DeviceBindingChallengeV1 := {
  dbc_challenge_id : uuid;
  dbc_code : string;
  dbc_display_code : string;
  dbc_expires_at : datetime;
  dbc_expires_in_seconds : Z
}.

Definition six_digits (code : string) : bool :=
  bool_decide (String.length code = 6%nat) && forallb is_digit (chars code).

Definition fresh_throttle (checked_at : datetime) (t : DeviceBindingThrottle) : DeviceBindingThrottle :=
  t <| thr_window_started_at := checked_at |> <| thr_attempts := 0 |>.
Definition one_attempt (t : DeviceBindingThrottle) : DeviceBindingThrottle :=
  t <| thr_attempts := thr_attempts t + 1 |>.

(** The row of a bucket, made if there is none. *)
Definition budget_row (bucket : string) (checked_at : datetime) : Tx (option (uuid * DeviceBindingThrottle)) :=
  let statement := scalar (λ _ t, bool_decide (thr_bucket t = bucket)) in
  record ← statement;
  match record with
  | Some record => mret (Some record)
  | None =>
      catch (begin_nested
               (id ← uuid4;
                insert id {| thr_bucket := bucket; thr_window_started_at := checked_at; thr_attempts := 0 |} ;;
                flush))
        is_integrity_error (λ _, mret tt) ;;
      statement
  end.

Definition consume_budget (bucket : string) (limit window_seconds : Z) (now : option datetime) (consume : bool) : Tx unit :=
  checked_at ← now_or now;
  found ← budget_row bucket checked_at;
  record ← require found (ChallengeUnavailable None);
  let '(id, t) := record in
  let over := dt_leb (dt_add (as_utc (thr_window_started_at t)) (seconds window_seconds)) checked_at in
  when over (update id (fresh_throttle checked_at)) ;;
  raise_if (limit <=? (if over then 0 else thr_attempts t)) ChallengeThrottled ;;
  when consume (update id one_attempt) ;;
  flush.

Section service.
Context `{EnrollmentCrypto} `{BindingCodes}.

Definition code_digest (code pepper : string) : res string :=
  if bool_decide (pepper = "") || negb (six_digits code) then Exn (ChallengeUnavailable None)
  else Ok (hex_bytes (hmac_sha256 pepper (_BINDING_CONTEXT +:+ code))).

(** How a previous challenge ends when a new one is made. *)
Definition previous_status (issued_at : datetime) (c : DeviceBindingChallenge) : challenge_status :=
  if dt_leb (as_utc (chl_expires_at c)) issued_at then b_expired else b_revoked.

Definition end_previous (issued_at : datetime) (c : DeviceBindingChallenge) : DeviceBindingChallenge :=
  c <| chl_status := previous_status issued_at c |>.

(** One turn of the loop; [None] is [continue]. *)
Definition attempt_code (device_id : uuid) (pepper : string) (issued_at : datetime)
    : Tx (option DeviceBindingChallengeV1) :=
  draw ← uuid4;
  let code := text (padded 6 (randbelow draw 1000000)) in
  digest ← lift_res (code_digest code pepper);
  recent ← scalar (λ _ c, bool_decide (chl_code_digest c = digest) && dt_ltb issued_at (chl_expires_at c));
  if is_some recent then mret None
  else
    id ← uuid4;
    let expires_at := dt_add issued_at (seconds TTL_SECONDS) in
    catch (begin_nested
             (insert id {| chl_created_at := issued_at; chl_device_id := device_id; chl_purpose := PURPOSE;
                           chl_code_digest := digest; chl_status := b_active; chl_expires_at := expires_at;
                           chl_redeemed_at := None |} ;;
              flush) ;;
           mret (Some {| dbc_challenge_id := id; dbc_code := code;
                         dbc_display_code := String.substring 0 3 code +:+ "-" +:+ String.substring 3 3 code;
                         dbc_expires_at := expires_at; dbc_expires_in_seconds := TTL_SECONDS |}))
      is_integrity_error (λ _, mret None).

(** With the lifecycle events of the previous challenges. *)
Definition create_challenge (device_id : uuid) (pepper : string) (now : option datetime)
    : Tx (list (uuid * challenge_status) * DeviceBindingChallengeV1) :=
  issued_at ← now_or now;
  consume_budget "binding:namespace" 120 60 (Some issued_at) true ;;
  device ← scalar (λ id d, (id =? device_id) && is_none (dev_retired_at d));
  require device (ChallengeUnavailable None) ;;
  issued_at ← now_or now;
  previous ← select (λ _ c, (chl_device_id c =? device_id) && bool_decide (chl_purpose c = PURPOSE)
                            && bool_decide (chl_status c = b_active));
  for_each previous (λ r, update r.1 (end_previous issued_at)) ;;
  flush ;;
  made ← for_return (seq 0 32) (λ _, attempt_code device_id pepper issued_at);
  made ← require made (ChallengeUnavailable None);
  mret (map (λ r, (r.1, previous_status issued_at r.2)) previous, made).

(** The conditions of the two UPDATE statements of [redeem_challenge]. *)
Definition redeemable (digest : string) (checked_at : datetime) (present : list (uuid * Device))
    (c : DeviceBindingChallenge) : bool :=
  bool_decide (chl_code_digest c = digest) && bool_decide (chl_purpose c = PURPOSE)
  && bool_decide (chl_status c = b_active) && dt_ltb checked_at (chl_expires_at c)
  && existsb (λ d : uuid * Device, d.1 =? chl_device_id c) present.

Definition overdue (digest : string) (checked_at : datetime) (c : DeviceBindingChallenge) : bool :=
  bool_decide (chl_code_digest c = digest) && bool_decide (chl_status c = b_active)
  && dt_leb (chl_expires_at c) checked_at.

Definition redeemed (checked_at : datetime) (c : DeviceBindingChallenge) : DeviceBindingChallenge :=
  c <| chl_status := b_redeemed |> <| chl_redeemed_at := Some checked_at |>.
Definition expired (c : DeviceBindingChallenge) : DeviceBindingChallenge := c <| chl_status := b_expired |>.

Definition redeem_challenge (code pepper : string) (now : option datetime) : Tx uuid :=
  checked_at ← now_or now;
  digest ← lift_res (code_digest code pepper);
  consume_budget "binding:namespace" 120 60 (Some checked_at) true ;;
  checked_at ← now_or now;
  present ← select (λ _ d, is_none (dev_retired_at d));
  winners ← select (λ _ c, redeemable digest checked_at present c);
  for_each winners (λ r, update r.1 (redeemed checked_at)) ;;
  match winners with
  | (_, c) :: _ => mret (chl_device_id c)
  | [] =>
      late ← select (λ _ c, overdue digest checked_at c);
      for_each late (λ r, update r.1 expired) ;;
      raise (ChallengeUnavailable (head (map (λ r : uuid * DeviceBindingChallenge, (r.1, chl_device_id r.2)) late)))
  end.
End service.

(** ** context/projection.py *)

(** [value.get(key)] of a JSON object *)
Definition json_get (key : string) (v : json) : option json :=
  match v with JObj entries => assoc key entries | _ => None end.

Record SnapshotProjection := {
  prj_id : string;
  prj_profile : string;
  prj_collected_at : datetime;
  prj_semantic_hash : option string;
  prj_warnings : option json;
  prj_sections : json
}.

Section projection.
Context `{ContextEnvelopes}.

Definition snapshot_projection (snapshot : uuid * ContextSnapshot) : option SnapshotProjection :=
  if bool_decide (snap_profile snapshot.2 = "diagnostic_v1") then None
  else
    envelope ← model_validate_envelope (snap_normalized_projection snapshot.2);
    if bool_decide (env_profile envelope = "diagnostic_v1") then None
    else Some {| prj_id := uuid_str snapshot.1; prj_profile := env_profile envelope;
                 prj_collected_at := env_collected_at envelope; prj_semantic_hash := snap_semantic_hash snapshot.2;
                 prj_warnings := json_get "warnings" (env_dump envelope);
                 prj_sections := default JNull (json_get "sections" (env_dump envelope)) |}.

(** ** routes.py *)

Record DeviceBindingVerifiedV1 := {
  dbv_device_id : uuid;
  dbv_hostname : option string;
  dbv_platform : string
}.

(** One snapshot of the loop of [_device_identity]. *)
Definition better_identity (found : option string * string) (snapshot : uuid * ContextSnapshot) : option string * string :=
  match snapshot_projection snapshot with
  | None => found
  | Some safe =>
      let system := default (JObj []) (json_get "system" (prj_sections safe)) in
      let platform :=
        match json_get "platform" system with
        | Some (JStr p) => if bool_decide (found.2 = "unknown") && str_in p ["windows"; "linux"] then p else found.2
        | _ => found.2
        end in
      let hostname :=
        match found.1, json_get "hostname" system with
        | None, Some (JStr h) =>
            if (0 <? Z.of_nat (String.length h)) && (Z.of_nat (String.length h) <=? 256) then Some h else None
        | h, _ => h
        end in
      (hostname, platform)
  end.

(** [key=lambda item: item.profile != "inventory_v1"] *)
Definition inventory_first (a b : uuid * ContextSnapshot) : bool :=
  bool_decide (snap_profile a.2 = "inventory_v1") || negb (bool_decide (snap_profile b.2 = "inventory_v1")).

(** The snapshot a row of the join pairs with a current pointer. *)
Definition current_snapshot (device_id : uuid) (c : uuid * ContextCurrent) : Tx (option (uuid * ContextSnapshot)) :=
  found ← get (cur_snapshot_id c.2);
  mret (match found with
        | Some s => if (snap_device_id s =? device_id) && bool_decide (cur_profile c.2 = snap_profile s)
                    then Some (cur_snapshot_id c.2, s) else None
        | None => None
        end).

Fixpoint current_snapshots (device_id : uuid) (l : list (uuid * ContextCurrent)) : Tx (list (uuid * ContextSnapshot)) :=
  match l with
  | [] => mret []
  | c :: l =>
      first ← current_snapshot device_id c;
      rest ← current_snapshots device_id l;
      mret (match first with Some s => s :: rest | None => rest end)
  end.

Definition _device_identity (device_id : uuid) : Tx DeviceBindingVerifiedV1 :=
  pointers ← select (λ _ c, (cur_device_id c =? device_id) && str_in (cur_profile c) ["inventory_v1"; "baseline_v1"]);
  snapshots ← current_snapshots device_id pointers;
  let '(hostname, platform) := fold_left better_identity (order_by inventory_first snapshots) (None, "unknown") in
  mret {| dbv_device_id := device_id; dbv_hostname := hostname; dbv_platform := platform |}.
End projection.

Definition DEVICE_BINDING_REDEEM_SCOPE : string := "device-binding.redeem".
Definition FAILED_REDEEM_LIMIT : Z := 60.

Definition throttled : exn := HTTPException 429 "Challenge request throttled".
Definition unavailable : exn := HTTPException 400 "Challenge unavailable".

Definition challenge_status_str (s : challenge_status) : string :=
  match s with b_active => "active" | b_redeemed => "redeemed" | b_expired => "expired" | b_revoked => "revoked" end.

Definition _audit (action actor_kind : string) (actor_identifier object_identifier device_id : uuid) : Tx unit :=
  request ← uuid4;
  append_audit_event actor_kind (Some (uuid_str actor_identifier)) ("device_binding." +:+ action)
    "device_binding_challenge" (Some (uuid_str object_identifier)) (uuid_hex request)
    [(KStr "device_id", PStr (uuid_str device_id)); (KStr "purpose", PStr "helpdesk_device_binding")] None ;;
  mret tt.

(** [order_by(redeemed_at.desc())], where a NULL comes first. *)
Definition latest_redeemed_first (a b : uuid * DeviceBindingChallenge) : bool :=
  match chl_redeemed_at a.2, chl_redeemed_at b.2 with
  | None, _ => true
  | Some _, None => false
  | Some x, Some y => dt_leb y x
  end.

Section routes.
Context `{Contracts} `{EnrollmentCrypto} `{IpText} `{BindingCodes} `{ContextEnvelopes} (settings : Settings).

(** POST /api/v1/device-binding/challenges *)
Definition create (request : HttpRequest) : Tx DeviceBindingChallengeV1 :=
  in_session (try_except
    (principal ← _authenticate_device settings request;
     let device_id := (dpr_device principal).1 in
     consume_budget ("create:" +:+ uuid_str device_id) 3 600 None true ;;
     result ← create_challenge device_id (device_token_pepper settings) None;
     let '(lifecycle_events, result) := result in
     _revalidate_device_principal settings request principal ;;
     for_each lifecycle_events (λ e, _audit ("challenge_" +:+ challenge_status_str e.2) "device" device_id e.1 device_id) ;;
     _audit "challenge_created" "device" device_id (dbc_challenge_id result) device_id ;;
     commit ;;
     mret result)
    (λ e, match e with
          | ChallengeThrottled => Some (commit ;; raise throttled)
          | ChallengeUnavailable _ => Some (rollback ;; raise unavailable)
          | _ => None
          end)).

(** POST /api/v1/device-binding/challenges/redeem *)
Definition redeem_as (principal : ServicePrincipal) (code : string) : Tx DeviceBindingVerifiedV1 :=
  let client_id := (spr_client principal).1 in
  let failed := "failed:" +:+ uuid_str client_id in
  in_session (try_except
    (consume_budget "redeem:global" 30 60 None true ;;
     consume_budget ("redeem:" +:+ uuid_str client_id) 30 60 None true ;;
     consume_budget failed FAILED_REDEEM_LIMIT 600 None false ;;
     device_id ← redeem_challenge code (device_token_pepper settings) None;
     redeemed ← select (λ _ c, (chl_device_id c =? device_id) && bool_decide (chl_status c = b_redeemed));
     challenge ← require (head (order_by latest_redeemed_first redeemed)) (AttributeError "id");
     _audit "challenge_redeemed" "service" client_id challenge.1 device_id ;;
     result ← _device_identity device_id;
     commit ;;
     mret result)
    (λ e, match e with
          | ChallengeThrottled => Some (commit ;; raise throttled)
          | ChallengeUnavailable expired =>
              Some (consume_budget failed FAILED_REDEEM_LIMIT 600 None true ;;
                    match expired with
                    | Some (challenge_id, device_id) => _audit "challenge_expired" "service" client_id challenge_id device_id
                    | None => mret tt
                    end ;;
                    commit ;; raise unavailable)
          | _ => None
          end)).

Definition redeem (code : string) (request : HttpRequest) : Tx DeviceBindingVerifiedV1 :=
  principal ← require_service_scope settings DEVICE_BINDING_REDEEM_SCOPE request;
  redeem_as principal code.
End routes.
