(* ===== verification/DeviceBindingSpecs.v ===== *)
(** * What device binding guarantees

    A challenge ends once and for good, and is redeemed only before it expires;
    a redemption names the device that showed the code and uses the code up; and
    the budgets bound the attempts of any window of time. *)

From S2P Require Import Prelude Store Session AuditLog Frames AuditFacts Contracts Demo Semver SemverFacts Calendar.
From S2P Require Import Credentials Identity Enrollment EnrollmentRoutes ServiceTokens History AuthDemo.
From S2P Require Import ServiceTokensSpecs DeviceBinding.

(** ** Challenges over a history *)

(** A challenge keeps what it was made for; only an active one changes; and it
    is redeemed before it expires. *)
Definition challenge_moves (c c' : DeviceBindingChallenge) : Prop :=
  chl_created_at c' = chl_created_at c ∧ chl_device_id c' = chl_device_id c ∧ chl_purpose c' = chl_purpose c
  ∧ chl_code_digest c' = chl_code_digest c ∧ chl_expires_at c' = chl_expires_at c
  ∧ (chl_status c ≠ b_active → c' = c)
  ∧ (chl_status c' = b_redeemed → c' = c ∨ ∃ t, chl_redeemed_at c' = Some t ∧ dt_ltb t (chl_expires_at c) = true).

#[export] Instance challenge_moves_preorder : PreOrder challenge_moves.
Proof.
  split; [intros c; by split_and!; [..|left]|].
  intros x y z (A1 & A2 & A3 & A4 & A5 & A6 & A7) (B1 & B2 & B3 & B4 & B5 & B6 & B7).
  split_and!; try congruence.
  - intros Hx. assert (y = x) as -> by auto. auto.
  - intros Hz. destruct (B7 Hz) as [->|(t & Ht & Hlt)]; [by apply A7|]. right. exists t. by rewrite <- A5.
Qed.

Abbreviation challenges_stay := (stays challenge_moves).
Abbreviation challenges_aside := (aside (Row := DeviceBindingChallenge)).
(** The tables of a redemption, and what is committed. *)
Definition challenge_rows (w : World) := (device_binding_challenges (db w), devices (db w), committed w).

Lemma undo_same_challenges w w' : same challenge_rows w w' → same challenge_rows w (w' <| db := db w |>).
Proof. unfold same, challenge_rows; simpl. congruence. Qed.

Lemma challenges_apart {A} (m : Tx A) : keeps challenge_rows m → pres seed_le m → pres challenges_stay m.
Proof.
  intros H1 H2. apply stays_aside. eapply pres_mono; [|by apply (pres_and (same challenge_rows) seed_le)].
  intros w w' [[= E1 E2 E3] Hs]. split; [|done]. unfold same; simpl. congruence.
Qed.

Lemma nested_challenge_rows {A} (m : Tx A) : keeps challenge_rows m → keeps challenge_rows (begin_nested m).
Proof. intros Hm. apply pres_begin_nested; [apply _|done|apply undo_same_challenges]. Qed.
#[export] Hint Extern 1 (pres (same challenge_rows) (begin_nested _)) => apply nested_challenge_rows; frame : frame.

Lemma budget_rows bucket limit window now consume : keeps challenge_rows (consume_budget bucket limit window now consume).
Proof. frame. Qed.
Lemma budget_seed bucket limit window now consume : pres seed_le (consume_budget bucket limit window now consume).
Proof. frame. Qed.

Lemma budget_stays bucket limit window now consume : pres challenges_stay (consume_budget bucket limit window now consume).
Proof. apply challenges_apart; [apply budget_rows|apply budget_seed]. Qed.

Lemma audit_binding_stays a b c d e : pres challenges_stay (_audit a b c d e).
Proof. apply challenges_apart; unfold _audit; frame. Qed.

#[export] Hint Resolve budget_stays audit_binding_stays : frame.

Section histories.
Context `{Contracts} `{EnrollmentCrypto} `{IpText} `{BindingCodes} `{ContextEnvelopes} (settings : Settings).

Lemma authenticate_stays request : pres challenges_stay (_authenticate_device settings request).
Proof. apply challenges_apart; unfold _authenticate_device; frame. Qed.
Lemma revalidate_stays request p : pres challenges_stay (_revalidate_device_principal settings request p).
Proof. apply challenges_apart; unfold _revalidate_device_principal; frame. Qed.

Lemma snapshots_unmoved device l : pres unmoved (current_snapshots device l).
Proof. induction l as [|c l IH]; simpl; unfold current_snapshot; frame. Qed.
Lemma identity_unmoved device : pres unmoved (_device_identity device).
Proof. pose proof snapshots_unmoved. unfold _device_identity. frame. Qed.
Lemma identity_stays device : pres challenges_stay (_device_identity device).
Proof. eapply pres_mono; [|apply identity_unmoved]. by intros w w' ->. Qed.

Lemma attempt_stays device pepper issued_at : pres challenges_stay (attempt_code device pepper issued_at).
Proof.
  unfold attempt_code. apply pres_bind; [apply _|apply stays_uuid4|]. intros draw.
  apply pres_bind; [apply _|frame|]. intros digest. apply pres_bind; [apply _|frame|]. intros recent.
  destruct (is_some recent); [frame|]. apply stays_uuid4_then. intros w F1 F2.
  unfold catch, try_except. set (row := Build_DeviceBindingChallenge _ _ _ _ _ _ _).
  unfold mbind at 1, M_bind at 1. rewrite nested_insert.
  destruct (integrity_ok _ && integrity_ok _); simpl; [|reflexivity].
  apply (stays_insert challenge_moves (seed w) row (w <| seed := seed w + 1 |>)); simpl; [done..|lia].
Qed.

Lemma ends_previous device issued_at (_ : uuid) v :
  (chl_device_id v =? device) && bool_decide (chl_purpose v = PURPOSE) && bool_decide (chl_status v = b_active) = true →
  challenge_moves v (end_previous issued_at v).
Proof.
  intros Hp. propify. unfold end_previous, previous_status. split_and!; simpl; try done.
  by destruct (dt_leb _ _).
Qed.

Lemma create_challenge_stays device pepper now : pres challenges_stay (create_challenge device pepper now).
Proof.
  unfold create_challenge. pose proof attempt_stays.
  do 4 (apply pres_bind; [apply _|first [unfold now_or; frame]|intros ?]). apply pres_bind; [apply _|unfold now_or; frame|].
  intros issued_at. apply stays_select_update; [apply _|exact (ends_previous device issued_at)|]. intros l. frame.
Qed.

Lemma wins_only_active digest checked_at present (_ : uuid) v :
  redeemable digest checked_at present v = true → challenge_moves v (redeemed checked_at v).
Proof.
  unfold redeemable. intros Hr. propify. split_and!; simpl; try done. intros _. right. by exists checked_at.
Qed.

Lemma expires_only_active digest checked_at (_ : uuid) v :
  overdue digest checked_at v = true → challenge_moves v (expired v).
Proof. unfold overdue. intros Hr. propify. split_and!; simpl; done. Qed.

Lemma redeem_challenge_stays code pepper now : pres challenges_stay (redeem_challenge code pepper now).
Proof.
  unfold redeem_challenge. do 5 (apply pres_bind; [apply _|unfold now_or; frame|intros ?]).
  apply stays_select_update; [apply _|exact (wins_only_active _ _ _)|]. intros [|[id c] l]; [|frame].
  apply stays_select_update; [apply _|exact (expires_only_active _ _)|]. intros l. frame.
Qed.

Lemma create_route_stays request : pres challenges_stay (create settings request).
Proof.
  apply stays_in_session. pose proof create_challenge_stays. pose proof authenticate_stays. pose proof revalidate_stays. frame.
Qed.

Lemma redeem_as_stays principal code : pres challenges_stay (redeem_as settings principal code).
Proof. apply stays_in_session. pose proof redeem_challenge_stays. pose proof identity_stays. frame. Qed.

Lemma redeem_stays code request : pres challenges_stay (redeem settings code request).
Proof.
  unfold redeem. apply pres_bind; [apply _| |intros p; apply redeem_as_stays].
  unfold require_service_scope. apply pres_bind; [apply _|frame|]. intros token.
  apply pres_bind; [apply _|apply stays_in_session, challenges_apart; unfold _load_service_principal; frame|]. frame.
Qed.
End histories.

(** *** The steps of a history: requests of devices and of services, and work
    that does not touch the challenges. *)
Inductive binding_step `{Contracts} `{EnrollmentCrypto} `{IpText} `{BindingCodes} `{ContextEnvelopes} (settings : Settings)
  : World → World → Prop :=
| step_create w request : binding_step settings w (create settings request w).2
| step_redeem w code request : binding_step settings w (redeem settings code request w).2
| step_elsewhere w w' : challenges_aside w w' → binding_step settings w w'.

Lemma binding_history_stays `{Contracts} `{EnrollmentCrypto} `{IpText} `{BindingCodes} `{ContextEnvelopes} settings w w' :
  rtc (binding_step settings) w w' → challenges_stay w w'.
Proof.
  induction 1 as [w|w w1 w2 Hs _ IH]; [done|]. etrans; [|exact IH].
  destruct Hs as [w request|w code request|w w1 Ha]; [apply create_route_stays|apply redeem_stays|by apply stays_of_aside].
Qed.

(** C31: whatever requests of devices and services follow, in any order, a stored
    challenge keeps its device, its purpose, the digest of its code and its expiry;
    once it is redeemed, expired or revoked it never changes again; and it becomes
    redeemed only at a moment before its expiry, which the row then records. *)
Theorem challenges_end_once `{Contracts} `{EnrollmentCrypto} `{IpText} `{BindingCodes} `{ContextEnvelopes} settings w w' id c :
  fresh (seed w) (device_binding_challenges (committed w)) →
  rtc (binding_step settings) (stored w) w' → device_binding_challenges (committed w) !! id = Some c →
  ∃ c', device_binding_challenges (committed w') !! id = Some c' ∧ challenge_moves c c'.
Proof.
  intros Hf Hh Hc.
  assert (intact challenge_moves (device_binding_challenges (committed w)) (stored w)) as Hstart.
  { split_and!; try done; apply rows_kept_refl; intros v; reflexivity. }
  destruct (binding_history_stays settings _ _ Hh _ Hstart) as (_ & _ & _ & K). by apply K.
Qed.

(** ** What a redemption does *)

(** The clock goes on. *)
Definition later (w w' : World) : Prop := clock w' = clock w ∧ (ticks w <= ticks w')%nat.
#[export] Instance later_preorder : PreOrder later.
Proof. split; [by intros w; split|]. intros x y z [A1 A2] [B1 B2]. split; [congruence|lia]. Qed.

Lemma later_utcnow : pres later utcnow.
Proof. intros w. split; simpl; [done|lia]. Qed.
Lemma later_uuid4 : pres later uuid4.
Proof. by intros w. Qed.
Lemma later_insert `{Table R} id (r : R) : pres later (insert id r).
Proof. by intros w. Qed.
Lemma later_update `{Table R} id (f : R → R) : pres later (update id f).
Proof. by intros w. Qed.
Lemma later_nested {A} (m : Tx A) : pres later m → pres later (begin_nested m).
Proof. intros Hm. apply pres_begin_nested; [apply _|done|]. by intros w w'. Qed.
#[export] Hint Resolve later_utcnow later_uuid4 later_insert later_update : frame.
#[export] Hint Extern 1 (pres later (begin_nested _)) => apply later_nested; frame : frame.

(** The moment of the [n]-th reading of the clock. *)
Definition moment (w : World) (n : nat) : datetime := utc_datetime (clock w n).

(** Rows stay, except that active ones may be marked expired. *)
Definition nobody_redeemed (m m' : gmap uuid DeviceBindingChallenge) : Prop :=
  ∀ id, m' !! id = m !! id ∨ ∃ c, m !! id = Some c ∧ chl_status c = b_active ∧ m' !! id = Some (expired c).

Lemma nobody_redeemed_refl m : nobody_redeemed m m.
Proof. intros id. by left. Qed.

Section redemption.
Context `{Contracts} `{EnrollmentCrypto} `{IpText} `{BindingCodes} `{ContextEnvelopes} (settings : Settings).

Lemma scope_check_pres R `{!PreOrder R} scope request :
  (∀ w d, R w (w <| db := d |>)) → (∀ token pepper, pres R (_load_service_principal token pepper)) →
  pres R (require_service_scope settings scope request).
Proof.
  intros Hdb Hload. unfold require_service_scope. apply pres_bind; [done|apply pres_require; done|]. intros token.
  apply pres_bind; [done|by apply pres_in_session|]. intros found. frame.
Qed.

(** A first part of which nothing is needed. *)
Lemma wp_whatever {A B} (m : Tx A) (k : A → Tx B) (Q : res B → World → Prop) w :
  (∀ e w, Q (Exn e) w) → (∀ a w, wp (k a) Q w) → wp (m ≫= k) Q w.
Proof. intros He Hk. apply wp_bind. rewrite wp_unfold. destruct (m w) as [[a|e] w']; simpl; auto. Qed.

(** A budget that is consumed leaves a database in order. *)
Lemma budget_in_order bucket limit window now consume w :
  wp (consume_budget bucket limit window now consume) (λ r w', r = Ok tt → integrity_ok (db w') = true) w.
Proof.
  unfold consume_budget. do 3 (apply wp_whatever; [done|]; intros ? ?). destruct a1 as [id t].
  do 3 (apply wp_whatever; [done|]; intros ? ?). by apply wp_flush.
Qed.

Lemma budget_spec bucket limit window now consume w :
  wp (consume_budget bucket limit window now consume) (λ r w',
    same challenge_rows w w' ∧ later w w' ∧ (r = Ok tt → integrity_ok (db w') = true)) w.
Proof.
  apply wp_and; [apply (wp_of_pres (same challenge_rows)), budget_rows|].
  apply wp_and; [apply (wp_of_pres later); frame|apply budget_in_order].
Qed.

Definition won (w : World) (code : string) (c : DeviceBindingChallenge) (n : nat) : Prop :=
  code_digest code (device_token_pepper settings) = Ok (chl_code_digest c)
  ∧ chl_purpose c = PURPOSE ∧ chl_status c = b_active
  ∧ (ticks w <= n)%nat ∧ dt_ltb (moment w n) (chl_expires_at c) = true
  ∧ ∃ d, devices (db w) !! chl_device_id c = Some d ∧ dev_retired_at d = None.

Lemma active_digests_differ d i j x y :
  integrity_ok d = true → device_binding_challenges d !! i = Some x → device_binding_challenges d !! j = Some y →
  chl_status x = b_active → chl_status y = b_active → chl_code_digest x = chl_code_digest y → i = j.
Proof.
  intros Hi Hx Hy Ax Ay Exy.
  eapply (unique_on_inj (λ c, if decide (chl_status c = b_active) then Some (chl_code_digest c) else None)); [|exact Hx|exact Hy|..].
  - eapply (integrity_constraint _ "uq_binding_active_digest"); [done|]. constraint.
  - simpl. rewrite decide_True by done. by rewrite Exy.
  - simpl. by rewrite decide_True.
Qed.

Lemma redeem_challenge_spec code w :
  wp (redeem_challenge code (device_token_pepper settings) None) (λ r w',
    committed w' = committed w ∧ later w w' ∧
    match r with
    | Ok d => ∃ id c n, device_binding_challenges (db w) !! id = Some c ∧ won w code c n ∧ chl_device_id c = d
        ∧ device_binding_challenges (db w') = <[id := redeemed (moment w n) c]> (device_binding_challenges (db w))
    | Exn _ => nobody_redeemed (device_binding_challenges (db w)) (device_binding_challenges (db w'))
    end) w.
Proof.
  unfold redeem_challenge, now_or. do 2 wp_step. destruct (code_digest _ _) as [digest|e] eqn:Hd; wp_k.
  2: { split_and!; try done; [split; simpl; [done|lia]|apply nobody_redeemed_refl]. }
  apply wp_bind. eapply wp_mono; [apply budget_spec|]. intros r w1 ([= Ec Ed Ew] & [Hck Htk] & Hin). simpl in Hck, Htk.
  destruct r as [[]|e]; wp_k.
  2: { split_and!; try done; [split; [done|lia]|]. rewrite Ec. apply nobody_redeemed_refl. }
  specialize (Hin eq_refl). wp_step. set (t := utc_datetime _).
  apply wp_bind, wp_select. intros present _ Hpresent. wp_k. simpl in Hpresent.
  apply wp_bind, wp_select. intros winners Hnd Hw. wp_k. simpl in Hw. change (table (db w1)) with (device_binding_challenges (db w1)) in Hw.
  apply wp_bind. eapply wp_mono; [by apply update_each_spec|]. intros r w2 (-> & m & -> & Hm). wp_k. simpl in Hm.
  change (table (db w1)) with (device_binding_challenges (db w1)) in Hm. rewrite Ec in Hm, Hw.
  destruct winners as [|[id c] others].
  - apply wp_bind, wp_select. intros late Hnd' Hlate. wp_k.
    apply wp_bind. eapply wp_mono; [by apply update_each_spec|]. intros r w2 (-> & m' & -> & Hm'). wp_k. apply wp_raise.
    simpl. split; [congruence|]. split; [split; simpl; [congruence|lia]|].
    simpl in Hm', Hlate.
    assert (m = device_binding_challenges (db w)) as -> by (apply map_eq; intros id; rewrite Hm; by destruct (_ !! id)).
    intros id. pose proof (updated_selected _ _ _ _ _ Hlate Hm' id) as Hid. rewrite Hid.
    destruct (device_binding_challenges (db w) !! id) as [c|] eqn:Hc; simpl; [|by left].
    destruct (overdue digest t c) eqn:Ho; [|by left]. right. exists c. split_and!; try done. unfold overdue in Ho. by propify.
  - apply wp_ret. simpl. split; [congruence|]. split; [split; simpl; [congruence|lia]|].
    assert (device_binding_challenges (db w) !! id = Some c ∧ redeemable digest t present c = true) as [Hc Hr].
    { apply (Hw id c). left. }
    assert (∃ d, devices (db w) !! chl_device_id c = Some d ∧ dev_retired_at d = None) as Hdev.
    { unfold redeemable in Hr. propify. match goal with H : existsb _ _ = true |- _ => apply existsb_exists in H as ([j d] & Hj & E) end.
      apply list_elem_of_In, Hpresent in Hj as [Hj Hp]. simpl in E. propify. subst j. rewrite Ed in Hj. exists d.
      split; [done|]. by destruct (dev_retired_at d). }
    exists id, c, (ticks w1). split_and!; try done.
    + unfold won, moment. unfold redeemable in Hr. propify. split_and!; try done; [congruence|lia|].
      by rewrite <- Hck.
    + apply map_eq. intros j. rewrite (updated_selected _ _ _ _ _ Hw Hm j). unfold moment. rewrite <- Hck. fold t.
      destruct (decide (j = id)) as [->|Hne]; [rewrite lookup_insert_eq, Hc; simpl; by rewrite Hr|].
      rewrite lookup_insert_ne by done. destruct (device_binding_challenges (db w) !! j) as [v|] eqn:Hv; simpl; [|done].
      destruct (redeemable digest t present v) eqn:Hrv; [|done]. exfalso. apply Hne.
      unfold redeemable in Hr, Hrv. propify. rewrite <- Ec in Hv, Hc.
      eapply active_digests_differ; [exact Hin|exact Hv|exact Hc|..]; congruence.
Qed.
Lemma hex_digit_visible z : is_space (hex_digit (z mod 16)) = false.
Proof.
  assert (0 <= z mod 16 < 16) as Hz by (apply Z.mod_pos_bound; lia). revert Hz. generalize (z mod 16). intros d Hd.
  assert (d = Z.of_nat (Z.to_nat d)) as -> by lia. assert (Z.to_nat d < 16)%nat as Hn by lia. revert Hn.
  generalize (Z.to_nat d). intros n Hn. do 16 (destruct n as [|n]; [reflexivity|]). lia.
Qed.

Lemma uuid_hex_visible u : is_blank (uuid_hex u) = false.
Proof.
  assert (∃ l, chars (uuid_hex u) = hex_digit ((u / 16 ^ 31) mod 16) :: l) as [l Hl].
  { unfold uuid_hex. rewrite hex_digits_text. change (16 ^ 31) with (16 ^ Z.of_nat 31).
    set (d := λ i : nat, hex_digit ((u / 16 ^ Z.of_nat i) mod 16)). change (hex_digit ((u / 16 ^ Z.of_nat 31) mod 16)) with (d 31%nat).
    clearbody d. eexists. reflexivity. }
  unfold is_blank. rewrite Hl. cbn [forallb]. by rewrite hex_digit_visible.
Qed.

(** The audit of a challenge does not fail. *)
Lemma audit_binding_runs action kind actor object device w :
  is_blank kind = false → wp (_audit action kind actor object device) (λ r w', r = Ok tt ∧ same challenge_rows w w') w.
Proof.
  intros Hk. unfold _audit, append_audit_event, now_or.
  assert (∃ j, redact_audit_details (PMap [(KStr "device_id", PStr (uuid_str device)); (KStr "purpose", PStr "helpdesk_device_binding")]) = Ok j)
    as [j Hj] by (eexists; reflexivity).
  wp_step. apply wp_bind, wp_bind. wp_step. apply wp_bind, wp_raise_if; [done|intros _; wp_k].
  apply wp_bind. cbn [for_each]. rewrite Hj. cbn [snd]. rewrite Hk, uuid_hex_visible.
  repeat (apply wp_bind; first [apply wp_raise_if; [by intros [=]|intros _; wp_k]|idtac]).
  apply wp_ret. wp_k. do 3 wp_step.
Qed.

Lemma snapshots_run device l w : ∃ s, current_snapshots device l w = (Ok s, w).
Proof.
  induction l as [|c l [s IH]]; [by exists []|]. simpl. unfold current_snapshot, get, mbind, M_bind. simpl. rewrite IH. eauto.
Qed.

Lemma identity_runs device w : wp (_device_identity device) (λ r w', w' = w ∧ ∃ v, r = Ok v ∧ dbv_device_id v = device) w.
Proof.
  unfold _device_identity. wp_step. apply wp_bind. rewrite wp_unfold. match goal with |- context[current_snapshots _ ?l w] => destruct (snapshots_run device l w) as [s ->] end.
  wp_k. destruct (fold_left _ _ _) as [h p]. apply wp_ret. eauto.
Qed.
(** What holds when a part of a redemption, begun in [w], is left. *)
Definition redemption_done (w : World) (code : string) (v : DeviceBindingVerifiedV1) (m' : gmap uuid DeviceBindingChallenge) : Prop :=
  ∃ id c n, device_binding_challenges (db w) !! id = Some c ∧ won w code c n ∧ dbv_device_id v = chl_device_id c
    ∧ m' = <[id := redeemed (moment w n) c]> (device_binding_challenges (db w)).

Definition redemption_left (w : World) (e : exn) (w' : World) : Prop :=
  committed w' = committed w
  ∧ (nobody_redeemed (device_binding_challenges (db w)) (device_binding_challenges (db w'))
     ∨ e = AttributeError "id" ∨ ∃ name, e = IntegrityError name).

Lemma left_same w e w' : same challenge_rows w w' → redemption_left w e w'.
Proof. intros [= E1 E2 E3]. split; [done|]. left. rewrite E1. apply nobody_redeemed_refl. Qed.

Lemma budget_then {A} bucket limit window consume (k : Tx A) (Q : res A → World → Prop) w0 w :
  same challenge_rows w0 w → later w0 w →
  (∀ e w', redemption_left w0 e w' → Q (Exn e) w') →
  (∀ w', same challenge_rows w0 w' → later w0 w' → wp k Q w') →
  wp (consume_budget bucket limit window None consume ;; k) Q w.
Proof.
  intros Hs Hl He Hk. apply wp_bind. eapply wp_mono; [apply budget_spec|]. intros [[]|e] w' (Hs' & Hl' & _); wp_k.
  - apply Hk; by etrans.
  - apply He, left_same. by etrans.
Qed.

Lemma won_earlier w w' code c n : same challenge_rows w w' → later w w' → won w' code c n → won w code c n.
Proof.
  intros [= E1 E2 E3] [Hc Ht] (W1 & W2 & W3 & W4 & W5 & W6). unfold won, moment in *. rewrite Hc in W5. rewrite E2 in W6.
  split_and!; try done. lia.
Qed.

Lemma redemption_body principal code w :
  committed w = db w →
  let client_id := (spr_client principal).1 in
  wp (consume_budget "redeem:global" 30 60 None true ;;
      consume_budget ("redeem:" +:+ uuid_str client_id) 30 60 None true ;;
      consume_budget ("failed:" +:+ uuid_str client_id) FAILED_REDEEM_LIMIT 600 None false ;;
      device_id ← redeem_challenge code (device_token_pepper settings) None;
      redeemed ← select (λ _ c, (chl_device_id c =? device_id) && bool_decide (chl_status c = b_redeemed));
      challenge ← require (head (order_by latest_redeemed_first redeemed)) (AttributeError "id");
      _audit "challenge_redeemed" "service" client_id challenge.1 device_id ;;
      result ← _device_identity device_id;
      commit ;;
      mret result)
    (λ r w', match r with
             | Ok v => redemption_done w code v (device_binding_challenges (committed w'))
             | Exn e => redemption_left w e w'
             end) w.
Proof.
  intros Hw client_id.
  apply (budget_then _ _ _ _ _ _ w); [done..|]. intros w1 S1 L1. apply (budget_then _ _ _ _ _ _ w); [done..|]. clear w1 S1 L1.
  intros w1 S1 L1. apply (budget_then _ _ _ _ _ _ w); [done..|]. clear w1 S1 L1. intros w1 S1 L1.
  pose proof S1 as [= Ec Ed Ew].
  apply wp_bind. eapply wp_mono; [apply redeem_challenge_spec|]. intros [device|e] w2 (Hc2 & L2 & Hr); wp_k.
  2: { split; [congruence|]. left. by rewrite <- Ec. }
  destruct Hr as (id & c & n & Hc & Hwon & Hdev & Hins). rewrite Ec in Hc, Hins.
  assert (∀ e w', committed w' = committed w → e = AttributeError "id" ∨ (∃ name, e = IntegrityError name) → redemption_left w e w') as Hleft.
  { intros e w' ??. split; [done|]. by right. }
  wp_step. apply wp_bind, wp_require; intros; wp_k; [|by apply Hleft; [congruence|left]].
  apply wp_bind. eapply wp_mono; [by apply audit_binding_runs|]. intros r w3 (-> & [= E1 E2 E3]). wp_k.
  apply wp_bind. eapply wp_mono; [apply identity_runs|]. intros r w4 (-> & v & -> & Hv). wp_k.
  apply wp_bind, wp_commit; [intros _; wp_k; apply wp_ret|intros name _; wp_k; apply Hleft; [congruence|by eauto]].
  simpl. exists id, c, n. split_and!; try congruence; [by eapply won_earlier|].
  rewrite E1, Hins. destruct L1 as [L1 _]. unfold moment. by rewrite L1.
Qed.

(** C32: a redemption of a code answers with a device only for a service that is
    let through for the scope of redemptions, and only when at a moment the request
    reads there is a stored challenge with the digest of that code that is active
    and not yet expired, of a device that is not retired: the answer names that
    device, and the one change to the challenges is that this one is then redeemed
    at that moment.  Every other answer, budgets used up included, redeems nothing:
    at most a challenge that is overdue is marked expired. *)
Theorem redemption_is_possession code request w :
  wp (redeem settings code request) (λ r w',
    let before := device_binding_challenges (committed w) in
    let after := device_binding_challenges (committed w') in
    match r with
    | Ok v => (∃ p, (require_service_scope settings DEVICE_BINDING_REDEEM_SCOPE request w).1 = Ok p)
        ∧ ∃ id c n, before !! id = Some c ∧ won (stored w) code c n ∧ dbv_device_id v = chl_device_id c
            ∧ after = <[id := redeemed (moment w n) c]> before
    | Exn _ => nobody_redeemed before after
    end) w.
Proof.
  unfold redeem. apply wp_bind.
  assert (keeps committed (require_service_scope settings DEVICE_BINDING_REDEEM_SCOPE request)) as Hk.
  { apply scope_check_pres; [apply _|by intros ??|intros ??; unfold _load_service_principal; frame]. }
  assert (pres later (require_service_scope settings DEVICE_BINDING_REDEEM_SCOPE request)) as Hl.
  { apply scope_check_pres; [apply _|by intros ??|intros ??; unfold _load_service_principal; frame]. }
  rewrite wp_unfold. specialize (Hk w). specialize (Hl w).
  destruct (require_service_scope _ _ _ w) as [[p|e] w1] eqn:E; simpl in Hk, Hl; wp_k.
  2: { unfold same in Hk. rewrite Hk. apply nobody_redeemed_refl. }
  unfold same in Hk. apply wp_in_session, wp_try.
  eapply wp_mono; [by apply redemption_body|]. simpl. intros [v|e] w2 Hr.
  - split; [by exists p|]. destruct Hr as (id & c & n & Hc & Hwon & Hv & Hm). simpl in *. rewrite Hk in *.
    exists id, c, n. split_and!; try done; [|rewrite Hm; unfold moment; simpl; by destruct Hl as [-> _]].
    destruct Hwon as (W1 & W2 & W3 & W4 & W5 & W6). unfold won, moment in *. simpl in *. destruct Hl as [Hl1 Hl2].
    rewrite Hl1 in *. split_and!; try done. lia.
  - destruct Hr as [Hc Hr]. simpl in Hc, Hr. rewrite Hk in Hc, Hr.
    assert (nobody_redeemed (device_binding_challenges (committed w)) (device_binding_challenges (committed w2))) as Hno
      by (rewrite Hc; apply nobody_redeemed_refl).
    assert (nobody_redeemed (device_binding_challenges (committed w)) (device_binding_challenges (db w2))
            ∨ e = AttributeError "id" ∨ ∃ name, e = IntegrityError name) as Hr' by exact Hr. clear Hr.
    destruct e; try done; destruct Hr' as [Hr|[Hr|[? Hr]]]; try discriminate Hr.
    + apply wp_bind. eapply wp_mono; [apply budget_spec|]. intros [[]|e] w3 ([= F1 F2 F3] & _); wp_k; [|by rewrite F3].
      apply wp_bind. eapply (wp_mono _ (λ r w', r = Ok tt ∧ same challenge_rows w3 w')).
      { destruct expired as [[a b]|]; [by apply audit_binding_runs|by apply wp_ret]. }
      intros r w4 (-> & [= G1 G2 G3]). wp_k. apply wp_bind, wp_commit; intros; wp_k; [apply wp_raise; simpl; by rewrite G1, F1|].
      by rewrite G3, F3.
    + apply wp_bind, wp_commit; intros; wp_k; [by apply wp_raise|done].
Qed.
End redemption.

(** ** Budgets *)

Lemma integrity_all d : integrity_ok d = forallb snd (constraints d).
Proof.
  unfold integrity_ok, violated. induction (constraints d) as [|[name []] l IH]; simpl; [done|exact IH|done].
Qed.

(** The rows of the budgets may change within their own constraints. *)
Lemma budgets_in_order d m :
  integrity_ok d = true → unique_on (Some ∘ thr_bucket) m = true → (∀ id t, m !! id = Some t → 0 <= thr_attempts t) →
  integrity_ok (d <| device_binding_throttles := m |>) = true.
Proof.
  intros Hd Hu Hpos.
  assert (check_rows (λ t, 0 <=? thr_attempts t) m = true) as Hc.
  { unfold check_rows. apply forallb_forall. intros [id t] Hin%list_elem_of_In%elem_of_map_to_list. apply Z.leb_le. by eapply Hpos. }
  rewrite integrity_all in *. set (d' := d <| device_binding_throttles := m |>).
  set (before := command_constraints d ++ operation_constraints d ++ step_constraints d ++ evidence_constraints d
                 ++ collection_constraints d ++ snapshot_constraints d ++ device_constraints d ++ update_constraints d
                 ++ enrollment_constraints d ++ administration_constraints d ++ take 3 (binding_constraints d)).
  set (after := policy_constraints d ++ security_constraints d ++ sensor_constraints d ++ module_constraints d).
  assert (constraints d = before ++ drop 3 (binding_constraints d) ++ after) as E by reflexivity.
  assert (constraints d' = before ++ drop 3 (binding_constraints d') ++ after) as E' by reflexivity.
  rewrite E in Hd. rewrite E'. rewrite !forallb_app in *. propify.
  apply andb_true_intro; split; [done|]. apply andb_true_intro; split; [|done]. change (drop 3 (binding_constraints d')) with
    [("device_binding_throttles_pkey", unique_on (Some ∘ thr_bucket) m); ("ck_binding_throttle_attempts", check_rows (λ t, 0 <=? thr_attempts t) m)].
  cbn [forallb snd]. by rewrite Hu, Hc.
Qed.

(** What the rows say of a bucket: the start of its window and the attempts in it. *)
Definition holds (d : DB) (bucket : string) (s : option (Z * Z)) : Prop :=
  match s with
  | None => ∀ id t, device_binding_throttles d !! id = Some t → thr_bucket t ≠ bucket
  | Some (start, n) => ∃ id t, device_binding_throttles d !! id = Some t ∧ thr_bucket t = bucket
      ∧ instant (thr_window_started_at t) = start ∧ thr_attempts t = n
  end.

(** The window an attempt falls into, and whether it is let through. *)
Definition window_at (window now : Z) (s : option (Z * Z)) : Z * Z :=
  match s with
  | Some (start, n) => if start + window <=? now then (now, 0) else (start, n)
  | None => (now, 0)
  end.

Definition attempt (limit window now : Z) (s : option (Z * Z)) : (Z * Z) * bool :=
  let (start, n) := window_at window now s in
  if limit <=? n then ((start, n), false) else ((start, n + 1), true).

(** A database whose budgets may be consumed. *)
Definition budgets_ready (w : World) : Prop :=
  integrity_ok (db w) = true ∧ fresh (seed w) (device_binding_throttles (db w)).

Lemma holds_some w bucket : ∃ s, holds (db w) bucket s.
Proof.
  destruct (List.filter (λ e : uuid * DeviceBindingThrottle, bool_decide (thr_bucket e.2 = bucket))
              (map_to_list (device_binding_throttles (db w)))) as [|[id t] l] eqn:E.
  - exists None. intros id t Ht Hb. assert ((id, t) ∈ []) as []%elem_of_nil. rewrite <- E. apply elem_of_filter_bool.
    split; [by apply elem_of_map_to_list|]. by apply bool_decide_eq_true.
  - assert ((id, t) ∈ (id, t) :: l) as Hin by left. rewrite <- E, elem_of_filter_bool, elem_of_map_to_list in Hin.
    destruct Hin as [Hid Hb%bool_decide_eq_true]. exists (Some (instant (thr_window_started_at t), thr_attempts t)). by exists id, t.
Qed.

Lemma throttles_unique d : integrity_ok d = true → unique_on (Some ∘ thr_bucket) (device_binding_throttles d) = true.
Proof. intros Hi. eapply (integrity_constraint _ "device_binding_throttles_pkey"); [done|]. constraint. Qed.

Lemma NoDup_omap_inj {A B} (f : A → option B) l :
  NoDup l → (∀ x y k, x ∈ l → y ∈ l → f x = Some k → f y = Some k → x = y) → NoDup (omap f l).
Proof.
  induction 1 as [|x l Hx _ IH]; intros Hinj; simpl; [constructor|].
  assert (NoDup (omap f l)) as Hl by (apply IH; intros a b k ??; apply Hinj; by right).
  destruct (f x) as [k|] eqn:E; [|done]. constructor; [|done]. intros (y & Hy & Ey)%list_elem_of_omap.
  apply Hx. rewrite (Hinj x y k); [done|left|by right|done|done].
Qed.

Lemma unique_on_intro {R K} `{EqDecision K} (key : R → option K) (m : gmap uuid R) :
  (∀ i j x y k, m !! i = Some x → m !! j = Some y → key x = Some k → key y = Some k → i = j) → unique_on key m = true.
Proof.
  intros Hinj. apply bool_decide_eq_true, NoDup_omap_inj; [apply NoDup_map_to_list|].
  intros [i x] [j y] k Hi%elem_of_map_to_list Hj%elem_of_map_to_list Ex Ey. simpl in *.
  assert (i = j) as -> by by eapply Hinj. congruence.
Qed.

(** One row replaced or added, with the bucket of no other row. *)
Lemma buckets_insert m id t :
  unique_on (Some ∘ thr_bucket) m = true → (∀ j x, m !! j = Some x → j ≠ id → thr_bucket x ≠ thr_bucket t) →
  unique_on (Some ∘ thr_bucket) (<[id := t]> m) = true.
Proof.
  intros Hm Hid. apply unique_on_intro. intros i j x y k Hx Hy Ex Ey. simpl in *.
  apply lookup_insert_Some in Hx as [[<- <-]|[Hi Hx]]; apply lookup_insert_Some in Hy as [[<- <-]|[Hj Hy]]; [done| | |].
  - destruct (Hid j y Hy); [done|congruence].
  - destruct (Hid i x Hx); [done|congruence].
  - by eapply (unique_on_inj _ m).
Qed.

Lemma attempts_positive d id t : integrity_ok d = true → device_binding_throttles d !! id = Some t → 0 <= thr_attempts t.
Proof.
  intros Hi Ht. apply Z.leb_le. eapply (check_rows_lookup (λ t, 0 <=? thr_attempts t)); [|exact Ht].
  eapply (integrity_constraint _ "ck_binding_throttle_attempts"); [done|]. constraint.
Qed.

(** The row [id] of the budgets becomes [t]. *)
Definition with_budget (id : uuid) (t : DeviceBindingThrottle) (w : World) : World := with_table <[id := t]> w.

Lemma with_budget_ready id t w :
  budgets_ready w → id < seed w → 0 <= thr_attempts t →
  (∀ j x, device_binding_throttles (db w) !! j = Some x → j ≠ id → thr_bucket x ≠ thr_bucket t) →
  budgets_ready (with_budget id t w).
Proof.
  intros [Hi Hf] Hid Hpos Hu. split; simpl; [|by apply fresh_insert].
  apply budgets_in_order; [done|apply buckets_insert; [by apply throttles_unique|done]|].
  intros j x [[<- <-]|[_ Hx]]%lookup_insert_Some; [done|by eapply attempts_positive].
Qed.

Lemma with_budget_holds id t w bucket start n :
  thr_bucket t = bucket → instant (thr_window_started_at t) = start → thr_attempts t = n →
  holds (db (with_budget id t w)) bucket (Some (start, n)).
Proof. intros. exists id, t. split_and!; try done. simpl. by rewrite lookup_insert_eq. Qed.

Lemma with_budget_others id t w b s :
  (∀ x, device_binding_throttles (db w) !! id = Some x → thr_bucket x = thr_bucket t) → thr_bucket t ≠ b →
  holds (db w) b s → holds (db (with_budget id t w)) b s.
Proof.
  intros Hid Hb. destruct s as [[start n]|]; simpl.
  - intros (j & x & Hj & Hx & H1 & H2). exists j, x. split_and!; try done. rewrite lookup_insert_ne; [done|].
    intros <-. specialize (Hid _ Hj). congruence.
  - intros Hno j x [[<- <-]|[_ Hj]]%lookup_insert_Some; [done|by eapply Hno].
Qed.

(** A row that is updated is replaced. *)
Lemma update_budget id (f : DeviceBindingThrottle → DeviceBindingThrottle) t w :
  device_binding_throttles (db w) !! id = Some t → with_table (alter f id) w = with_budget id (f t) w.
Proof.
  intros Ht. unfold with_budget, with_table. do 2 f_equal. apply map_eq. intros j. simpl.
  destruct (decide (j = id)) as [->|Hne]; [by rewrite lookup_alter_eq, lookup_insert_eq, Ht|].
  by rewrite lookup_alter_ne, lookup_insert_ne.
Qed.

(** The states of the other buckets. *)
Definition others_hold (bucket : string) (w w' : World) : Prop :=
  ∀ b x, bucket ≠ b → holds (db w) b x → holds (db w') b x.

Lemma same_bucket_row d i j x y :
  integrity_ok d = true → device_binding_throttles d !! i = Some x → device_binding_throttles d !! j = Some y →
  thr_bucket x = thr_bucket y → i = j ∧ x = y.
Proof. intros Hi Hx Hy E. eapply (unique_on_inj (Some ∘ thr_bucket)); [by apply throttles_unique|done..|simpl; by rewrite E|done]. Qed.

Lemma budget_row_spec bucket t s w :
  budgets_ready w → holds (db w) bucket s →
  wp (budget_row bucket t) (λ r w', ∃ id row, r = Ok (Some (id, row)) ∧ budgets_ready w' ∧ committed w' = committed w
    ∧ device_binding_throttles (db w') !! id = Some row ∧ thr_bucket row = bucket
    ∧ (instant (thr_window_started_at row), thr_attempts row) = default (instant t, 0) s ∧ others_hold bucket w w') w.
Proof.
  intros [Hi Hf] Hs. unfold budget_row. apply wp_bind, wp_scalar.
  - intros id row Hrow Hb. propify. wp_k. apply wp_ret. exists id, row. split_and!; try done; [|by intros b y].
    destruct s as [[start n]|]; [|by destruct (Hs id row)]. destruct Hs as (id' & row' & Hrow' & Hb' & <- & <-).
    assert (id = id' ∧ row = row') as [-> ->] by (eapply same_bucket_row; [exact Hi|done..|congruence]). done.
  - intros Hnone. wp_k. assert (∀ id row, device_binding_throttles (db w) !! id = Some row → thr_bucket row ≠ bucket) as Hno.
    { intros id row Hrow. specialize (Hnone id row Hrow). by propify. }
    destruct s as [[start n]|]; [destruct Hs as (id & row & Hrow & Hb & _); by destruct (Hno id row)|].
    set (row := {| thr_bucket := bucket; thr_window_started_at := t; thr_attempts := 0 |}).
    set (w1 := with_budget (seed w) row (w <| seed := seed w + 1 |>)).
    assert (budgets_ready w1) as H1.
    { apply with_budget_ready; simpl; [split; simpl; [done|eapply fresh_le; [done|lia]]|lia|lia|]. intros j x Hx _. by apply (Hno j). }
    apply wp_bind. unfold catch. apply wp_try. rewrite wp_unfold.
    assert (begin_nested (id ← uuid4; insert id row ;; flush) w = (Ok tt, w1)) as ->.
    { destruct H1 as [H1 _]. unfold integrity_ok in Hi, H1.
      assert (violated (db w) = None) as Hi' by by destruct (violated (db w)).
      assert (violated (db w1) = None) as H1' by by destruct (violated (db w1)).
      unfold begin_nested, savepoint, mbind, M_bind, flush, uuid4, insert. rewrite Hi'. simpl.
      change (with_table <[seed w := row]> (w <| seed := seed w + 1 |>)) with w1. change (db w <| device_binding_throttles := <[seed w := row]> (device_binding_throttles (db w)) |>) with (db w1). by rewrite H1', H1'. }
    wp_k. apply wp_scalar.
    + intros id x Hx Hb. propify. exists id, x. split_and!; try done; try apply H1.
      * simpl in Hx. apply lookup_insert_Some in Hx as [[<- <-]|[_ Hx]]; [done|]. by destruct (Hno id x).
      * intros b y Hb' Hy. apply (with_budget_others (seed w) row (w <| seed := seed w + 1 |>)); [|done|done].
        simpl. intros z Hz. specialize (Hf _ _ Hz). lia.
    + intros Hn. specialize (Hn (seed w) row). simpl in Hn. rewrite lookup_insert_eq in Hn. specialize (Hn eq_refl). by propify.
Qed.

Lemma consume_budget_spec bucket limit window t s w :
  budgets_ready w → holds (db w) bucket s →
  wp (consume_budget bucket limit window (Some t) true) (λ r w',
    let (s', ok) := attempt limit (seconds window) (instant t) s in
    r = (if ok : bool then Ok tt else Exn ChallengeThrottled) ∧ budgets_ready w' ∧ committed w' = committed w
    ∧ holds (db w') bucket (Some s') ∧ others_hold bucket w w') w.
Proof.
  intros Hready Hs. unfold consume_budget, now_or. wp_step. apply wp_bind. eapply wp_mono; [by apply budget_row_spec|].
  intros r w1 (id & row & -> & R1 & C1 & Hrow & Hb & Hst & O1). wp_k. apply wp_bind, wp_require; [intros ? [= <-]; wp_k|done].
  set (over := dt_leb _ _).
  set (row' := if over then fresh_throttle t row else row).
  assert (window_at (seconds window) (instant t) s = (instant (thr_window_started_at row'), thr_attempts row')) as Hw.
  { subst over row'. unfold dt_leb. rewrite instant_dt_add, instant_as_utc. unfold window_at.
    destruct s as [[start n]|]; simpl in Hst; injection Hst as E1 E2; rewrite E1.
    - destruct (_ <=? _); simpl; congruence.
    - destruct (_ <=? _); simpl; congruence. }
  set (w2 := if over then with_budget id row' w1 else w1).
  assert (budgets_ready w2 ∧ committed w2 = committed w ∧ device_binding_throttles (db w2) !! id = Some row'
          ∧ others_hold bucket w1 w2 ∧ thr_bucket row' = bucket ∧ id < seed w2) as (R2 & C2 & Hrow2 & O2 & Hb2 & Hid).
  { subst w2 row'. destruct over; [|split_and!; try done; [by intros b x|by eapply R1]]. split_and!; try done.
    - apply with_budget_ready; [done|by eapply R1|done|]. intros j x Hx Hne E. apply Hne.
      eapply (same_bucket_row (db w1)); [apply R1|done..].
    - simpl. by rewrite lookup_insert_eq.
    - intros b x Hne Hx. apply with_budget_others; [|by rewrite <- Hb in Hne|done]. intros y Hy. simpl in *. congruence.
    - by eapply R1. }
  apply wp_bind. eapply (wp_mono _ (λ r w', r = Ok tt ∧ w' = w2)).
  { subst w2 row'. destruct over; [|by apply wp_ret]. apply wp_update. split; [done|]. by apply update_budget. }
  intros r w' [-> ->]. wp_k. clearbody w2. unfold attempt. rewrite Hw.
  assert ((if over then 0 else thr_attempts row) = thr_attempts row') as -> by (subst row'; by destruct over).
  apply wp_bind, wp_raise_if; intros Hlimit; rewrite Hlimit; wp_k.
  { split_and!; try done.
    - by exists id, row'.
    - intros b x Hne Hx. by apply O2, O1. }
  apply wp_bind, wp_when; intros Hc; [clear Hc|discriminate Hc]. apply wp_update. wp_k. rewrite (update_budget _ _ row') by done.
  assert (budgets_ready (with_budget id (one_attempt row') w2)) as R3.
  { apply with_budget_ready; [done..| |].
    - simpl. pose proof (attempts_positive (db w2) id row' (proj1 R2) Hrow2). lia.
    - intros j x Hx Hne E. apply Hne. eapply (same_bucket_row (db w2)); [apply R2|done..]. }
  apply wp_flush; [intros _|intros name Hn; destruct R3; congruence]. split_and!; try done.
  - by apply with_budget_holds.
  - intros b x Hne Hx. apply with_budget_others; [|by rewrite <- Hb2 in Hne|by apply O2, O1].
    intros y Hy. simpl in *. congruence.
Qed.

(** One attempt as the routes make it: a refusal is committed as well. *)
Definition try_call (bucket : string) (limit window : Z) (t : datetime) : Tx bool :=
  in_session (try_except
    (consume_budget bucket limit window (Some t) true ;; commit ;; mret true)
    (λ e, match e with ChallengeThrottled => Some (commit ;; mret false) | _ => None end)).

(** Attempts on any buckets, each with its limit and its window in seconds; with
    whether each was let through. *)
Fixpoint run_calls (limits : string → Z * Z) (calls : list (string * datetime)) (w : World) : list (string * datetime * bool) :=
  match calls with
  | [] => []
  | (bucket, t) :: calls =>
      let (r, w') := try_call bucket (limits bucket).1 (limits bucket).2 t w in
      (bucket, t, match r with Ok ok => ok | Exn _ => false end) :: run_calls limits calls w'
  end.

(** How many attempts on a bucket were let through from [start] on, for [window]. *)
Definition let_through (bucket : string) (start window : Z) (l : list (string * datetime * bool)) : Z :=
  Z.of_nat (length (List.filter (λ c : string * datetime * bool,
    bool_decide (c.1.1 = bucket) && c.2 && (start <=? instant c.1.2) && (instant c.1.2 <? start + window)) l)).

Lemma try_call_spec bucket limit window t s w :
  budgets_ready (stored w) → holds (committed w) bucket s →
  let (r, w') := try_call bucket limit window t w in
  let (s', ok) := attempt limit (seconds window) (instant t) s in
  r = Ok ok ∧ budgets_ready (stored w') ∧ holds (committed w') bucket (Some s')
  ∧ ∀ b x, bucket ≠ b → holds (committed w) b x → holds (committed w') b x.
Proof.
  intros Hready Hs.
  cut (wp (try_call bucket limit window t) (λ r w', let (s', ok) := attempt limit (seconds window) (instant t) s in
    r = Ok ok ∧ budgets_ready (stored w') ∧ holds (committed w') bucket (Some s')
    ∧ ∀ b x, bucket ≠ b → holds (committed w) b x → holds (committed w') b x) w).
  { rewrite wp_unfold. by destruct (try_call _ _ _ _ w). }
  unfold try_call. apply wp_in_session, wp_try, wp_bind. eapply wp_mono; [by apply (consume_budget_spec bucket limit window t s (stored w))|].
  intros r w1. destruct (attempt _ _ _ s) as [s' [|]]; intros (-> & R1 & C1 & H1 & O1); wp_k.
  all: apply wp_bind, wp_commit; [intros _; wp_k|intros name Hn; destruct R1; congruence].
  all: apply wp_ret; simpl; by destruct R1.
Qed.

(** What a window that was open at [start] still lets through, and the next. *)
Definition room (limit start : Z) (s : option (Z * Z)) : Z :=
  match s with
  | Some (opened, n) => (if start <=? opened then 0 else limit) + Z.max 0 (limit - n)
  | None => limit
  end.

Lemma let_through_cons bucket start window c l :
  let_through bucket start window (c :: l) = let_through bucket start window l
    + (if bool_decide (c.1.1 = bucket) && c.2 && (start <=? instant c.1.2) && (instant c.1.2 <? start + window) then 1 else 0).
Proof. unfold let_through. simpl. destruct (_ && _); simpl; lia. Qed.

Section counting.
Context (limits : string → Z * Z) (bucket : string) (start : Z).
Let limit := (limits bucket).1.
Let window := seconds (limits bucket).2.
Context (Hlimit : 0 <= limit) (Hwindow : 0 < window).
Abbreviation ordered := (StronglySorted (λ x y : string * datetime, instant x.2 <= instant y.2)).

Lemma too_late calls w :
  Forall (λ c : string * datetime, start + window <= instant c.2) calls → let_through bucket start window (run_calls limits calls w) = 0.
Proof.
  intros Hl. revert w. induction Hl as [|[b t] calls Ht _ IH]; intros w; [done|]. simpl.
  destruct (try_call _ _ _ _ w) as [r w']. rewrite let_through_cons, IH. simpl in *.
  rewrite (proj2 (Z.ltb_ge _ _)) by lia. by rewrite andb_false_r.
Qed.

Lemma within_room calls w s :
  budgets_ready (stored w) → holds (committed w) bucket s → ordered calls →
  Forall (λ c : string * datetime, start <= instant c.2) calls →
  let_through bucket start window (run_calls limits calls w) <= room limit start s.
Proof.
  revert w s. induction calls as [|[b t] calls IH]; intros w s Hready Hs Hord Hfrom.
  { unfold let_through; simpl. unfold room. destruct s as [[o n]|]; [destruct (_ <=? _)|]; lia. }
  apply StronglySorted_inv in Hord as [Hord Hhead]. apply Forall_cons in Hfrom as [Ht Hfrom]. simpl in Ht.
  destruct (decide (start + window <= instant t)) as [Hlate|Hsoon].
  { rewrite too_late; [unfold room; destruct s as [[o n]|]; [destruct (_ <=? _)|]; lia|].
    constructor; [done|]. eapply Forall_impl; [exact Hhead|]. simpl. intros c Hc. lia. }
  simpl. destruct (holds_some (stored w) b) as [sb Hsb]. simpl in Hsb.
  assert (b = bucket → holds (committed w) b s) as Hown by by intros ->.
  pose proof (try_call_spec b (limits b).1 (limits b).2 t (if decide (b = bucket) then s else sb) w Hready) as Hcall.
  destruct (try_call _ _ _ _ w) as [r w']. rewrite let_through_cons. simpl.
  destruct (attempt _ _ _ _) as [s' ok] eqn:Ha.
  destruct Hcall as (-> & R' & H' & O'); [by destruct (decide (b = bucket)); auto|].
  destruct (decide (b = bucket)) as [->|Hne].
  - specialize (IH w' (Some s') R' H' Hord Hfrom). rewrite (bool_decide_true (bucket = bucket)) by done.
    assert (start <=? instant t = true) as -> by lia. assert (instant t <? start + window = true) as -> by lia.
    revert Ha. unfold attempt, window_at. fold limit window. destruct s as [[o n]|]; simpl in *.
    + destruct (o + window <=? instant t) eqn:Eo.
      * destruct (limit <=? 0) eqn:El; intros [= <- <-]; simpl in *; rewrite ?bool_decide_true, ?bool_decide_false by done; simpl.
        all: assert (start <=? instant t = true) as Hst by lia; rewrite ?Hst in IH; destruct (start <=? o) eqn:Es; lia.
      * destruct (limit <=? n) eqn:El; intros [= <- <-]; simpl in *; rewrite ?bool_decide_true, ?bool_decide_false by done; simpl.
        all: destruct (start <=? o) eqn:Es; lia.
    + destruct (limit <=? 0) eqn:El; intros [= <- <-]; simpl in *; rewrite ?bool_decide_true, ?bool_decide_false by done; simpl.
      all: assert (start <=? instant t = true) as Hst by lia; rewrite ?Hst in IH; lia.
  - rewrite bool_decide_false by done. simpl. rewrite Z.add_0_r. apply IH; [done| |done|done]. by apply O'.
Qed.
End counting.

(** C33: a budget of [limit] attempts per window lets at most twice its limit
    through in any period as long as its window, whatever attempts are made on it
    and on other budgets, in the order of their times and whether refused or not. *)
Theorem budgets_bound_attempts limits bucket start calls w :
  let limit := (limits bucket).1 in
  let window := seconds (limits bucket).2 in
  0 <= limit → 0 < window → budgets_ready (stored w) →
  StronglySorted (λ x y : string * datetime, instant x.2 <= instant y.2) calls →
  let_through bucket start window (run_calls limits calls w) <= 2 * limit.
Proof.
  intros limit window Hlimit Hwindow. revert w. induction calls as [|[b t] calls IH]; intros w Hready Hord; [unfold let_through; simpl; lia|].
  destruct (decide (start <= instant t)) as [Hin|Hbefore].
  - destruct (holds_some (stored w) bucket) as [s Hs].
    apply (Z.le_trans _ (room limit start s)).
    + apply within_room; [done..|]. apply StronglySorted_inv in Hord as [_ Hhead]. constructor; [done|].
      eapply Forall_impl; [exact Hhead|]. simpl. intros c Hc. lia.
    + unfold room. destruct s as [[o n]|]; [|lia]. destruct Hs as (id & r & Hr & _ & _ & <-).
      pose proof (attempts_positive _ _ _ (proj1 Hready) Hr). destruct (_ <=? _); lia.
  - apply StronglySorted_inv in Hord as [Hord _]. destruct (holds_some (stored w) b) as [s Hs].
    simpl. pose proof (try_call_spec b (limits b).1 (limits b).2 t s w Hready Hs) as Hcall.
    destruct (try_call _ _ _ _ w) as [r w']. rewrite let_through_cons. simpl.
    assert (start <=? instant t = false) as -> by lia. rewrite andb_false_r. simpl. rewrite Z.add_0_r.
    destruct (attempt _ _ _ s) as [s' ok]. destruct Hcall as (_ & R' & _). by apply IH.
Qed.

(** ** Witnesses *)

Definition toy_codes : BindingCodes := {| randbelow := λ draw n, draw mod n |}.
Definition toy_envelopes : ContextEnvelopes := {| model_validate_envelope := λ _, None |}.

Definition toy_ip : IpText := {|
  parse_address := λ _, Some {| ip_version := 4; ip_value := 1 |};
  parse_network := λ _, None;
  address_text := λ _, "0.0.0.1";
  network_text := λ _, "0.0.0.0/0" |}.

Definition toy_challenge : DeviceBindingChallenge := {|
  chl_created_at := utc_datetime 0; chl_device_id := 7; chl_purpose := PURPOSE;
  chl_code_digest := match code_digest (H := toy_crypto) "123456" (device_token_pepper toy_settings) with Ok d => d | Exn _ => "" end;
  chl_status := b_active; chl_expires_at := utc_datetime (seconds TTL_SECONDS); chl_redeemed_at := None |}.

Definition toy_device : Device := {| dev_device_identifier := "dev_7"; dev_display_name := None; dev_retired_at := None |}.

Definition toy_bindings : World :=
  let d := empty_db <| device_binding_challenges := {[ 9 := toy_challenge ]} |> <| devices := {[ 7 := toy_device ]} |> in
  {| committed := d; db := d; seed := 1000; clock := λ n, Z.of_nat n; ticks := 0 |}.

Definition toy_principal : ServicePrincipal := {|
  spr_client := (5, toy_client);
  spr_credential := (6, {| svc_service_client_id := 5; svc_credential_identifier := "c"; svc_token_prefix := "svc_c";
                           svc_secret_digest := ""; svc_scopes := [DEVICE_BINDING_REDEEM_SCOPE]; svc_expires_at := None;
                           svc_revoked_at := None |}) |}.

Example code_is_redeemed :
  match redeem_as (H0 := toy_crypto) (H3 := toy_envelopes) toy_settings toy_principal "123456" toy_bindings with
  | (Ok v, w) => dbv_device_id v = 7 ∧ chl_status <$> device_binding_challenges (committed w) !! 9 = Some b_redeemed
  | _ => False
  end.
Proof. vm_compute. done. Qed.

Lemma challenges_end_once_witness :
  let w' := (redeem (H0 := toy_crypto) (H3 := toy_envelopes) toy_settings "123456" (toy_request None) (stored toy_bindings)).2 in
  ∃ c', device_binding_challenges (committed w') !! 9 = Some c' ∧ challenge_moves toy_challenge c'.
Proof.
  apply (challenges_end_once (H := demo_contracts) (H0 := toy_crypto) (H1 := toy_ip) (H2 := toy_codes) (H3 := toy_envelopes)
           toy_settings toy_bindings _ 9 toy_challenge).
  - intros id c Hc. apply (lookup_singleton_Some 9 id toy_challenge c) in Hc as [<- _]. simpl. lia.
  - apply rtc_once, step_redeem.
  - apply (lookup_singleton_eq 9 toy_challenge).
Defined.

Lemma budgets_bound_attempts_witness :
  let calls := map (λ t, ("create:7", utc_datetime (seconds t))) [1; 2; 3; 4; 599; 602; 603] in
  let_through "create:7" (seconds 2) (seconds 600) (run_calls (λ _, (3, 600)) calls toy_world) <= 6.
Proof.
  apply (budgets_bound_attempts (λ _, (3, 600)) "create:7" (seconds 2)); [cbn; lia|reflexivity| |].
  - split; [reflexivity|]. intros id t Ht. by apply (lookup_empty_Some id t) in Ht.
  - simpl. repeat constructor.
  all: unfold instant; simpl; unfold seconds; lia.
Defined.
